(* ===== verification/_CoqProject ===== *)
-Q . S2P
Prelude.v
Text.v
Ulid.v
Timing.v
Delivery.v
QueueRows.v
QueueStore.v
QueueLoops.v
QueueLife.v
QueueInv.v
QueueThms.v
Ports.v
Findings.v
Wake.v
Tick.v
Wiring.v
World.v
WorldThms.v
WorkerStates.v
EventLog.v
StateStore.v
Truth.v
Projector.v
TruthInv.v
Fold.v
TruthThms.v
Sha256.v
Chars.v
Gate.v
GateRows.v
Wp.v
GateStore.v
GateRender.v
GateService.v
GateLife.v
GateExec.v
GateInv.v
GateThms.v
GateCommands.v
GateDesk.v
GateSweep.v
GateText.v
Screen.v
Receiver.v
ReceiverThms.v
Seam.v
SeamThms.v
SeamParity.v
SeamInv.v
SeamRun.v
SeamPromote.v
SeamCoherence.v
View.v
ViewThms.v
Fingerprint.v
Secrets.v
Envelope.v
Json.v
Manifest.v
Journal.v
FrozenMemory.v
JournalThms.v
Replay.v
Steps.v
Drives.v
StepsThms.v
DrivesThms.v
Workflow.v
Order.v
Template.v
Plans.v
Engine.v
EngineThms.v
EngineRuns.v
Runs.v
RunsThms.v
EngineSamples.v
AgentStep.v
AgentStepThms.v
AgentStepEnds.v
