(* ===== verification/Prelude.v ===== *)
(** * CLI Agent Orchestrator: a verification development

    CLI Agent Orchestrator drives coding agents that live in terminals.  This
    development covers its planes of durable state: the delivery plane, which may
    not lose a message; the worker-truth plane, which decides what state a worker
    is in and publishes it; the review gate, which records how a piece of work
    is built, reviewed and accepted, and who may answer for it; the receiver
    state, a second source for a worker's status that is given authority operation
    by operation, with the switch that decides which source answers; and workflows,
    sequences of agent calls whose progress is journaled so that a run survives the
    process that drives it.  All paths below are relative to
    [src/src/cli_agent_orchestrator/].

    ** The delivery plane

    A sender's message becomes a row of [queue_message] ([adapters/store/queue.py]).
    Every few seconds one tick ([app/delivery/tick.py]) adopts rows the legacy
    inbox still holds, returns expired leases, kills what is out of attempts or
    past its deadline, and for every receiver with ready rows claims a batch
    under a lease, folds the ids into the receiver's open _digest epoch_
    ([queue_digest]) and asks the wake service ([app/delivery/wake.py]) to tell
    the receiver, by the native channel of a supervisor seat or by a line pasted
    into a worker's pane.  What went wrong is written to the finding table
    ([adapters/store/findings.py]).  Legacy code reaches the queue through a seam
    ([app/delivery/wiring.py], [facts.py]).  The plane is coded against the
    protocols of [core/ports.py]; the vocabularies are [core/delivery.py], the
    durations [core/timing.py], the identifiers [core/ids.py].

    ** The worker-truth plane

    Producers (hooks, transcript tailers, the pane probe, [adapters/truth/])
    append what they observed to the event log ([adapters/store/event_log.py]),
    which numbers each terminal's events without gaps.  [emit]
    ([adapters/truth/wiring.py]) then folds the stored event into the projection
    ([app/worker_truth/projector.py], [adapters/store/state.py]): a state machine
    of seven states ([core/states.py]) in which an event that has no edge is
    applied and flagged, a derived event is muted while an authoritative source
    is healthy, and a degraded worker remembers what it was.  A sweep degrades
    workers that have gone silent.  Every move is itself appended to the log as a
    decision row that cites its cause, checked ([app/worker_truth/checks.py]), and
    published in the legacy vocabulary ([mapping.py], [publisher.py]) when the
    projection owns the terminal ([health.py]).  Findings of both planes go to
    the same table, identifiers come from the same stream.

    ** The review gate

    A _run_ is reviewed in _rounds_ ([core/gate.py], tables of
    [adapters/store/gate.py]).  Opening a round fixes the build inputs; freezing it
    fixes the review snapshot, whose SHA-256 is the address everything later
    refers to; adjudication settles it YES or NO, and a YES round may be accepted
    against that address.  Workers of a round are _dispatches_.  A dispatch may ask
    one _question_ at a time: asking suspends it, and it is released into the state
    it was in when the answer has been received or the question has expired.
    Questions belong to the conversation that owns the run, under an epoch, and
    ownership is claimed with a greater one.  Findings of a review are closed by
    dispositions that carry their evidence.  [app/gate/service.py] and
    [app/gate/questions.py] are the commands, [app/gate/render.py] the texts: the
    brief, and the envelopes that tell an owner of a question or of its expiry
    through a notifier.

    ** The receiver state and its switch

    One pass over a worker's screen or a native report becomes an _observation_,
    classified by the screen law and published to a two-slot store
    ([kernel/receiver_state]).  The store is promoted operation by operation
    ([services/seam_activation.py]): while an operation's window is _collecting_,
    legacy answers and both answers are compared ([services/seam_parity.py]); a
    window old enough with enough matches and no mismatch is promoted by the sweep,
    then _confirming_ (the store answers, still compared) and _done_; a mismatch
    gives legacy the authority back and opens a new window.  What cannot be stored
    is kept in poison and inhibit markers, which a restart recovers.  A reader goes
    through [services/receiver_state_view.py], which asks the source the phase names
    and compares the other.

    ** Workflows

    A workflow is either a script or a YAML spec.  A _script_ runs as a process of
    its own and asks the server for one agent call per step, over HTTP
    ([services/script_runner.py], [run_step] of [api/main.py]).  Every call carries
    the generation of its run, which a cancellation, a timeout or a resume changes, so
    that a superseded script is turned away; it is identified by a fingerprint
    ([services/step_fingerprint.py]), and the replay gate ([services/step_replay.py])
    decides from the row of its step whether it runs, is answered from the journal,
    is refused as another call, or waits for a human's _recovery decision_.  Results
    are redacted ([services/secret_gate.py]) and bounded ([services/step_result.py])
    before they are stored in the journal ([services/workflow_journal.py]).  A _YAML
    spec_ ([models/workflow.py]) is driven by the server
    ([services/workflow_service.py]): steps in the order of what they need, prompts
    filled from inputs and earlier outputs, structured outputs checked against a
    schema and asked for once more, retries, a halt or a continuation after a failure,
    and at every [await] a cancellation may come between.  Each change is written to
    the same journal; a cold run is rebuilt from it, and resumed at what is not done.

    Each agent call is one _agent step_ ([services/agent_step.py]): a terminal is made
    or taken over, waited for until it is ready ([utils/terminal.py]), given the prompt,
    watched until its turn is over, read, and torn down when that was asked for; a
    cancellation may come at any wait.  When a script run starts, the source, the
    inputs and the state of the repository make its _plan_, whose identifier
    ([services/plan_identifier.py]) is frozen with them in a redacted and bounded
    _manifest_ ([services/manifest_freeze.py], [services/execution_manifest.py]), a
    column of the run's row.  If approval is required, the gate
    ([services/approval_gate.py]) lets the run start and resume only when that
    identifier has a row among the approvals ([services/approval_store.py]).  The first
    terminal of the run that needs a memory block resolves it and stores it in the
    manifest; the others, and every resume, are given what is stored
    ([services/frozen_run_memory.py]).

    ** Where each part is modelled

    - [Prelude] (this file): exceptions, the error-and-state monad [M S A],
      early return, loops, [zoom], and the list lemmas the files share.
    - [Text], [Ulid]: encodings, timestamps among them, whose text order the
      database relies on.  [Ulid.new] is [UlidFactory.new]; the clock reading and the
      random draw are arguments, the lock is the sequence of calls.
    - [Timing]: [core/timing.py]; the module globals are the fields of a record,
      [shipped] the values of the module.
    - [Delivery]: [core/delivery.py], and its theorems.
    - [QueueRows]: the tables as lists of rows in rowid order, the column
      assignments, and the conversion of a stored row to a model object.
    - [QueueStore]: one definition per method of [SqliteQueueStore], statement by
      statement.  A method is a statement on [db]; [transaction] is
      [immediate_transaction] — commit on return, roll back on an exception.
    - [QueueLoops]: what each multi-row method computes, in closed form.
    - [QueueLife]: the abstract specification, the life of ONE message as a step
      relation [lstep].
    - [QueueInv]: the invariant [wf] and the refinement: every call of a writing
      method ([op], [exec], [step], [run]) keeps [wf] and moves every message by
      at most one [lstep]; following one message through a run; a sample run.
    - [QueueThms]: the store's guarantees over any sequence of calls by any
      number of callers, in the order the database serialises them.
    - [Ports]: the protocols as type classes over an arbitrary world state [W],
      and [OutboundLaws], the law the clients are proved against.
    - [Findings]: [SqliteFindingStore].
    - [Wake], [Tick]: the wake service and the tick, over the classes
      of [Ports], and the theorems that hold for every implementation of them.
    - [Wiring]: the legacy seam.
    - [World]: the state the plane acts on — the queue's tables, the finding
      table, what has been sent, the clock, the supply of ids — and the
      instances that implement the ports with the two SQLite stores.
    - [WorldThms]: the plane end to end over [World].
    - [WorkerStates]: [core/states.py], [core/events.py], [mapping.py].
    - [EventLog]: [SqliteEventStore] over its two tables, and the log's
      invariant [log_ok].
    - [StateStore]: [SqliteStateStore] over a finite map of rows.
    - [Truth]: the state [truth] of the plane, the registry of sources, the marks,
      the checks, the publisher, and [append] with the checks after its commit.
    - [Projector]: [project], [sweep], [emit], rule by rule.
    - [TruthInv]: [top], one step of the plane by any of its threads, [trun], a
      run of them in any order, and the rule that lifts a property of the log's
      writers to every step.
    - [Fold]: [judge] and [sweep_turn], the two operations as functions of a row,
      and the proofs that the code computes them.
    - [TruthThms]: the life of a worker as a step relation [wstep], the invariant
      [plane_ok], and the theorems of the plane.
    - [Sha256], [Chars]: SHA-256 as a function on bytes, and Python's [str] over
      UTF-8 bytes (length, slices, splitting).
    - [Gate]: [core/gate.py], the value types with their constructors' checks, the
      transition functions and the content address.
    - [GateRows]: the thirteen tables of the gate and the statements on one table.
    - [Wp]: weakest preconditions of statements, one rule per construct, and the
      tactic [wp_step].
    - [GateStore]: one definition per method of [SqliteGateStore].
    - [GateRender], [GateService]: [app/gate], the renderer and both services.
    - [GateLife]: the abstract specification: the life of a run, a round, a question
      and a dispatch as step relations, one transition of the record [gtrans], and
      the invariant [gate_ok].
    - [GateExec], [GateInv]: a transaction by any thread ([gop], [gstep], [gruns]);
      each leaves the record or makes one transition, and transitions keep the
      invariant.
    - [GateThms]: what holds over any transactions of any threads; [GateCommands]:
      what single commands do, branch by branch; [GateDesk]: every command of the
      services as transactions, and the bound on rounds; [GateSweep]: the expiry
      sweep and its notices; [GateText]: the address and the envelopes, and one gate
      at work, at which the theorems are applied.
    - [Screen]: [classification.py], the corroboration against the
      previous frame and the law; and the declarative rules it implements.
    - [Receiver], [ReceiverThms]: [store.py], tokens, slots and reads, and the
      abstract history a read answers from.
    - [Seam], [SeamThms]: [seam_activation.py] over the four seam tables of
      [clients/database.py], each entry point one transaction.
    - [SeamParity]: [seam_parity.py]: the buffer of matches, the markers, the
      comparison, repair, sweep and the operator's commands, over [World] (the
      tables, the marker directory, the globals of the module).
    - [SeamInv], [SeamRun], [SeamPromote], [SeamCoherence]: a run of
      requests with failing writes and restarts ([seam_run]); the invariant; what
      earns a promotion; what becomes of a mismatch; phases follow authorities.
    - [View], [ViewThms]: [receiver_state_view.py] over two classes,
      [StatusMonitor] and [Platform], with [ViewLaws]: what they may touch.  The
      samples implement them and apply the theorems.
    - [Fingerprint]: [services/step_fingerprint.py], the ten components of a call,
      their rendering and the hash.
    - [Secrets]: [services/secret_gate.py], its six patterns over a small matcher, and
      what redaction promises.
    - [Envelope]: [services/step_result.py] and the sanitisers of
      [services/script_runner.py]: cuts in bytes, flags, bounds.
    - [Json]: JSON texts as Python's decoder reads them; what [dumps_compact] writes of
      a plain document is read back as that document.
    - [Manifest]: [services/execution_manifest.py]: the envelope, [build], [_bound],
      [with_memory], [serialise] and [parse].
    - [Plans]: [services/plan_identifier.py] over Python's values, the freeze, the table
      of approvals with its route in [api/main.py], and the gate.
    - [FrozenMemory]: [frozen_memory_for] as steps of callers that interleave over the
      journal, with faults and other writers ([history]).
    - [Journal], [JournalThms]: [services/workflow_journal.py], one definition per
      function over its four tables, with the emission of events and the re-seeding of
      their sequence in [script_runner.py]; gaps and renumbering.
    - [Replay]: [services/step_replay.py], the gate as a function of one row; and recovery decisions followed to the next verdict of the gate.
    - [Steps]: [run_step] of [api/main.py] and [services/step_output_store.py] over
      [Server]; a call is [arrive], [ready] and [finish], with anything in between.
    - [Drives]: the start, drive, resume and cancel of a script run, each cut at the
      returns of its journal calls ([request], [serve_request], [served]).
    - [StepsThms], [DrivesThms]: theorems over any sequence of requests; samples.
    - [Workflow]: [models/workflow.py] and [_validate_inputs]: the grammar, the
      reserved constructs, the inputs.
    - [Order], [Template]: [_topological_order] with its recursion depth, and
      [_substitute].
    - [Engine]: the drive of a YAML run, [_run_step] to [_drive], over [Engine] (the
      record, the journal, the outputs, the calls made) and [world], what happens at
      each await.
    - [EngineThms], [EngineRuns]: what an await may change, what a step leaves behind,
      and how a drive ends.
    - [Runs], [RunsThms]: start, rebuild, cancel, status and resume over [Host], the
      server as one run id sees it; runs across restarts.
    - [EngineSamples]: two steps at work, at which the theorems are applied, and runs
      that show the findings.
    - [AgentStep], [AgentStepThms], [AgentStepEnds]: [run_agent_step] and
      [wait_until_status] over the class [TerminalLayer], with a log of what was done to
      terminals; what becomes of each of them, whose turn an answer is, and that steps
      end.

    ** What the theorems show

    - The store ([QueueThms]): it refines the life cycle; a settled message stays
      settled with the state it was settled in; a fencing token is good once and
      a stale one changes nothing; a quarantined submission is never offered
      again; no live row outlives its deadline past the first reclaim; claims
      take the oldest ready rows and no row twice; deaths are reported once;
      retention removes exactly the finished and unprotected.
    - The tick ([Tick]): a supervisor's seat is never pasted into; a receiver
      whose serving raises does not stop the others.
    - The plane ([WorldThms]): over the finding store of the plane with its
      table writable, every death of a message with a live sender leaves a notice,
      addressed to that sender and naming the message, and what happens to the notices
      when the finding store fails; the completion cancel touches nothing the plane
      itself wrote.
    - Delivery's vocabulary ([Delivery]), identifiers ([Ulid]) and timestamps
      ([Text]): the wake-reason table, the sender rule, the digest line,
      strict increase and round trip of ULIDs, text order is time order.
      [Timing] shows that the import-time checks are exactly their orderings.
    - The log ([EventLog], [TruthThms]): what an append does on every branch,
      contiguous sequences under any interleaving, what retention removes.
    - The projection ([StateStore], [TruthThms]): probes and folds commute; every
      step of any thread moves a worker by at most one step of its life; a fold
      and a sweep do exactly what their rules say; every published status can be
      traced to what a producer observed; silence hands a terminal back to the
      pane unless it is certified; and a retried producer call folds its old
      event again.
    - The gate ([GateThms], [GateCommands], [GateDesk], [GateSweep], [GateText]):
      every transaction the services issue is one transition of the abstract gate and
      every command a sequence of them; questions settle once, owners change only under a
      greater epoch, what is accepted is what was frozen, an ask is undone exactly;
      no run exceeds its rounds when commands do not interleave, and by one when
      two openers do; a sweep tells every owner once, unless one run cannot be
      read; the address determines the content up to its separators; an envelope
      always fits.  Four theorems show what goes wrong: a receipt that is retried,
      a claim over a conversation without runs, a finding without a statement, and
      the sweep such a finding silences.

    - The receiver state ([Screen], [ReceiverThms]): the screen law answers the
      one classification its rules allow, whatever the order of the signals; tokens
      increase whatever the clock does; a read answers from the newest publication
      since its incarnation was dropped.
    - The switch ([SeamThms], [SeamPromote], [SeamCoherence]): its
      invariant; a promotion happens with all its effects or not at all, and only
      when earned by observed matches of the very window it closes, with no
      mismatch among them that left a row or a marker; a mismatch sourced from an
      open window is stored, with a new window, or told to the operator; from any restart on, phases follow authorities, unless an
      operator's rollback is cut between its two transactions.
    - Reads ([ViewThms]): a read is answered by the side its window names, and by the
      side the switch names when it has none, and never raises on legacy's; a
      disagreement while collecting is answered by legacy and kept.
    - The journal and its gate ([Fingerprint], [Secrets], [Envelope], [JournalThms],
      [Replay]): one fingerprint means one call; no text a pattern
      describes survives redaction and no result exceeds its bound; the gap markers
      are the sequences lost and no stored event is renumbered; each verdict of the gate
      has exactly its conditions; decisions settle what was halted, all or none, and
      can be taken back, a renewed consent excepted.
    - Script runs ([StepsThms], [DrivesThms]): while the journal works and no two calls
      of a step race, the prompt of the step is sent once unless its author or a human
      allows more, whatever else the server serves in between; a call with the
      fingerprint of an ended step is answered from the journal; a script whose live
      record was superseded changes nothing; however a drive ends it leaves no request
      and no claim behind, and, unless a renewed consent is among them or the revoking
      write fails, no unused consent.  [Example]s keep the cases left out.
    - YAML runs ([Workflow], [Order], [Template], [EngineRuns], [RunsThms]): a spec is
      accepted exactly when it has none of the listed errors; the order puts every
      needed step first, or reports a cycle, or runs out of stack; what is
      substituted is not read again; a drive ends settled or with an error of a named
      kind; a step costs at most its attempts and one reprompt; a finished run is
      rebuilt as it was; and a resume runs only what is not done, or, when the rows of
      the steps cannot be read, every step.
    - Agent steps ([AgentStepThms], [AgentStepEnds]): a step asks to delete only
      what it made, and when told to, after every success and cancellation; it answers
      with what the terminal had after its own turn was over, or, from a backend that
      numbers no turns, with what it had when it was last seen completed; it ends
      within its timeouts.
    - Plans ([Manifest], [Plans], [FrozenMemory]): a manifest is read back as it was
      written and fits its column; an identifier stands for one plan up to the order of
      keys and the spelling of numbers, of which six decimals count, a text that spells
      a number being that number; a run that needs approval starts and resumes
      exactly when its own plan was granted; and whatever its terminals race, a run has
      one memory.

    ** Parameters, bounds and fuel

    In the queue SHA-256 is a parameter ([_payload_digest]), in the gate it is the
    function of [Sha256]; minted ids are arguments.  The three ports that leave the process — the receiver directory, the native
    carrier and the pane injector — are functions of what was sent so far.
    Instants are integers of microseconds; [Text.render_order] is why that
    agrees with the text the tables hold.  A ULID stream is followed for at most
    [STREAM_CALLS] = 2^49 calls, within which its 80-bit counter, re-drawn below
    2^79 each new millisecond, cannot overflow.  No loop needs fuel: each runs
    over a list selected beforehand.

    In the gate the clock and the ids are arguments of each command; the notifier
    is a function of the calls made to it so far, and may raise.  A transaction is
    the granularity of [gruns]: what a command reads outside its transactions may
    be stale by the time it writes.

    In [Truth] the clock and the ids are streams, [clock] and [mint], read one
    element per call, so that two readings of one operation may differ; the
    theorems ask of [mint] only that its ids are distinct and not empty.  The
    operator's allowlist, the legacy egress and the condition sink are functions
    that may raise.  [strict] is the test-only environment switch; the theorems
    that say an operation returns take it off, as production does.  The
    projector's lock is the granularity of [top]: a fold and one terminal's turn
    of a sweep are one step each, while the append of an [emit] and its fold are
    two, with any steps of other threads between them.  An operation whose
    database statement fails for a reason outside the tables (a locked file) is
    not modelled; a failure between the two statements of an append is.

    In the receiver state a monotonic reading is an integer of nanoseconds, a wall
    clock one of microseconds; [uuid4] is an injective stream.  A database that
    cannot be reached and a marker that cannot be written are flags of the request
    ([Faults]), so a run ranges over every pattern of failures.  The locks of the
    modules make an entry point one step; the operator's CLI, another process, runs
    between steps and never inside one.  A marker file is the JSON object it
    encodes, and [int()] is modelled on ASCII digits.

    In the workflows a timeout is an integer of microseconds; the columns
    [result_json] and [output_json] hold the document they encode, or a text that
    encodes none; a SELECT without ORDER BY answers in any one order.  A write that
    fails is a flag of the request ([AdmitFaults]) or a moment of [world], so that the
    theorems range over every pattern of failures except where they say that the
    journal works.  A request of the script plane is cut where it awaits the journal; a
    drive of the engine at every await, [world n] being what happens at the n-th.
    jsonschema, the script's process, its lint and its snapshot on disk are arguments,
    and in [Drives] and [Engine] the verdict of the approval gate and the agent step; so
    are [repr] of a document, the text of a spec and of its inputs, and SHA-256 where
    only its use matters.  [_visit] has the depth of Python's stack as an argument; more
    frames than the spec has steps are enough, and a valid spec has at most 100.

    In the agent step the terminals, the providers, the settings, the clock and the
    sleeps are the operations of [TerminalLayer], each of which may fail or be
    cancelled; [steps_end] asks of them that a sleep lasts as long as asked and that no
    clock runs backwards ([ClockLaws], [PolicyLaws]).  The fuel counts the readings of a
    terminal; [enough] is the two timeouts in seconds, and two more.

    A JSON number is the text it is written as, the decoder's recursion is not bounded,
    and texts hold no lone surrogates ([valid_text]).  In a plan a float is the dyadic
    number it is, and its six decimals are computed; the text [json.dumps] gives it is
    an argument, as are the repository's baseline and the setting that requires
    approval.  The loop of [_bound] has as much fuel as bytes to give up, of which each
    turn gives up one at least.  A caller of [frozen_memory_for] is cut at every access
    to the journal; other writers leave the manifest alone or delete the run.

    ** What is not modelled

    Logging; opening files, pragmas and WAL handling of [connection.py]; the
    asyncio tasks, which are timers around the operations modelled; the schema
    migrations, whose tables are the records of [QueueRows], [EventLog],
    [StateStore] and [GateRows]; the reports of [app/diag]; what each producer of
    [adapters/truth] reads from files, sockets and panes; the prose of the gate's
    refusals and the JSON of [question_payload]; the spec files of workflows and
    their index; the process of a script, its pipes, its output sentinel and its
    environment; [utils/git_baseline.py] and [services/approval_provenance.py], which ask
    git and the account; and the legacy services, providers, HTTP API, CLI, terminals,
    memory and inbox, which drive processes, panes and files whose behaviour is not in the
    repository, or are glue around the parts above.
*)

From stdpp Require Export base tactics list strings sorting pretty relations.
From Stdlib Require Export ZArith Lia Ascii.

#[global] Set Default Goal Selector "!".
Declare Scope cao_scope.
Delimit Scope cao_scope with cao.
#[global] Open Scope cao_scope.
#[global] Open Scope Z_scope.

(** ** Exceptions

    The exceptions the modelled code raises, catches or lets escape.  A
    [ValueError] carries the label of the check that raised it. *)

Inductive exn :=
| ValueError (what : string)
| PersistentEnqueueRejection (what : string)
| IdempotencyConflict (key : string)
| RuntimeError (what : string)
| AssertionError
| TypeError (what : string)
| IntegrityError (what : string)
| GateError (what : string)
| GateQuestionError (code : string)
| ExternalError (what : string).

#[export] Instance exn_eq_dec : EqDecision exn.
Proof. solve_decision. Defined.

Inductive outcome (A : Type) :=
| Returned (a : A)
| Raised (e : exn).
Arguments Returned {A} a.
Arguments Raised {A} e.

#[export] Instance outcome_eq_dec `{EqDecision A} : EqDecision (outcome A).
Proof. solve_decision. Defined.

(** ** The effect of a statement: a state, and a value or an exception

    A statement that raises keeps the state it had reached; only
    [transaction] undoes it. *)

Definition M (S A : Type) : Type := S → S * outcome A.

#[export] Instance M_ret {S} : MRet (M S) := λ A a s, (s, Returned a).
#[export] Instance M_bind {S} : MBind (M S) := λ A B f m s,
  match m s with
  | (s', Returned a) => f a s'
  | (s', Raised e) => (s', Raised e)
  end.

Section Statements.
Context {S : Type}.

Definition raise {A} (e : exn) : M S A := λ s, (s, Raised e).
Definition gets {A} (f : S → A) : M S A := λ s, (s, Returned (f s)).
Definition modify (f : S → S) : M S () := λ s, (f s, Returned ()).

(** [with BEGIN IMMEDIATE: m] — COMMIT on return, ROLLBACK on any exception. *)
Definition transaction {A} (m : M S A) : M S A := λ s,
  match m s with
  | (s', Returned a) => (s', Returned a)
  | (_, Raised e) => (s, Raised e)
  end.

(** [try: m except Exception: h] *)
Definition catch {A} (m : M S A) (h : exn → M S A) : M S A := λ s,
  match m s with
  | (s', Returned a) => (s', Returned a)
  | (s', Raised e) => h e s'
  end.

(** A [for] loop that threads an accumulator. *)
Fixpoint for_each {A B} (xs : list A) (acc : B) (body : B → A → M S B) : M S B :=
  match xs with
  | [] => mret acc
  | x :: rest => acc' ← body acc x; for_each rest acc' body
  end.

Definition lift_outcome {A} (o : outcome A) : M S A := λ s, (s, o).
End Statements.

(** A statement on a part of a larger state. *)
Definition zoom {S T A} (get : T → S) (put : S → T → T) (m : M S A) : M T A := λ t,
  let '(s', r) := m (get t) in (put s' t, r).

Definition state_of {S A} (r : S * outcome A) : S := r.1.
Definition value_of {S A} (r : S * outcome A) : outcome A := r.2.

(** A decidable fact about concrete data. *)
Ltac by_eval := apply (bool_decide_unpack _); vm_compute; exact I.

(** ** Tables as lists of rows, in rowid order *)

Section Tables.
Context {R : Type}.

(** [UPDATE t SET .. WHERE p] *)
Definition update_where (p : R → bool) (f : R → R) (t : list R) : list R :=
  (λ r, if p r then f r else r) <$> t.

(** [SELECT .. WHERE p], in table order *)
Definition select_where (p : R → bool) (t : list R) : list R :=
  filter (λ r, p r = true) t.

(** [DELETE FROM t WHERE p] *)
Definition delete_where (p : R → bool) (t : list R) : list R :=
  filter (λ r, p r = false) t.

(** [cursor.rowcount] *)
Definition rowcount (p : R → bool) (t : list R) : nat := length (select_where p t).

(** [LIMIT n]: SQLite reads a negative limit as no limit. *)
Definition sql_limit (n : Z) (t : list R) : list R :=
  if n <? 0 then t else take (Z.to_nat n) t.
End Tables.

(** [ORDER BY k1, k2] with an integer and a text key; text compares bytewise. *)
Definition text_le (a b : string) : Prop := String.leb a b = true.
#[export] Instance text_le_dec a b : Decision (text_le a b).
Proof. unfold text_le. apply _. Defined.

Definition time_text_le {R} (k1 : R → Z) (k2 : R → string) (a b : R) : Prop :=
  k1 a < k1 b ∨ (k1 a = k1 b ∧ text_le (k2 a) (k2 b)).
#[export] Instance time_text_le_dec {R} (k1 : R → Z) (k2 : R → string) a b :
  Decision (time_text_le k1 k2 a b).
Proof. unfold time_text_le. apply _. Defined.

Definition order_by {R} (k1 : R → Z) (k2 : R → string) (t : list R) : list R :=
  merge_sort (time_text_le k1 k2) t.

(** ** Laws of the monad, used by rewriting *)

Create HintDb cao discriminated.

Section MonadLaws.
Context {S : Type}.

Lemma bind_returned {A B} (m : M S A) (f : A → M S B) s s' a :
  m s = (s', Returned a) → (m ≫= f) s = f a s'.
Proof. intros H. unfold mbind, M_bind. by rewrite H. Qed.

Lemma bind_raised {A B} (m : M S A) (f : A → M S B) s s' e :
  m s = (s', Raised e) → (m ≫= f) s = (s', Raised e).
Proof. intros H. unfold mbind, M_bind. by rewrite H. Qed.

Lemma transaction_raised {A} (m : M S A) s s' e :
  m s = (s', Raised e) → transaction m s = (s, Raised e).
Proof. intros H. unfold transaction. by rewrite H. Qed.

Lemma transaction_returned {A} (m : M S A) s s' a :
  m s = (s', Returned a) → transaction m s = (s', Returned a).
Proof. intros H. unfold transaction. by rewrite H. Qed.

Lemma transaction_raised_inv {A} (m : M S A) s s' e :
  transaction m s = (s', Raised e) → s' = s.
Proof. unfold transaction. destruct (m s) as [? []]; by intros [= <-]. Qed.
End MonadLaws.

(** ** Statements that respect a preorder on states

    [keeps R m]: whatever [m] does, the state it leaves is [R]-related to the
    one it started from.  Every invariant and every refinement of the
    development is proved through this predicate and its rules. *)

Definition keeps {S A} (R : relation S) (m : M S A) : Prop := ∀ s, R s (m s).1.

Section Keeps.
Context {S : Type} (R : relation S) `{!PreOrder R}.

Lemma keeps_ret {A} (a : A) : keeps R (mret a : M S A).
Proof. intros s. reflexivity. Qed.

Lemma keeps_raise {A} e : keeps R (raise e : M S A).
Proof. intros s. reflexivity. Qed.

Lemma keeps_gets {A} (f : S → A) : keeps R (gets f).
Proof. intros s. reflexivity. Qed.

Lemma keeps_lift_outcome {A} (o : outcome A) : keeps R (lift_outcome o : M S A).
Proof. intros s. reflexivity. Qed.

Lemma keeps_modify f : (∀ s, R s (f s)) → keeps R (modify f).
Proof. intros H s. apply H. Qed.

Lemma keeps_bind {A B} (m : M S A) (f : A → M S B) :
  keeps R m → (∀ a, keeps R (f a)) → keeps R (m ≫= f).
Proof.
  intros Hm Hf s. unfold mbind, M_bind. specialize (Hm s).
  destruct (m s) as [s' [a|e]]; simpl in *; [|done].
  etrans; [exact Hm|apply Hf].
Qed.

Lemma keeps_transaction {A} (m : M S A) : keeps R m → keeps R (transaction m).
Proof.
  intros Hm s. unfold transaction. specialize (Hm s).
  destruct (m s) as [s' [a|e]]; simpl in *; [done|reflexivity].
Qed.

Lemma keeps_catch {A} (m : M S A) h :
  keeps R m → (∀ e, keeps R (h e)) → keeps R (catch m h).
Proof.
  intros Hm Hh s. unfold catch. specialize (Hm s).
  destruct (m s) as [s' [a|e]]; simpl in *; [done|].
  etrans; [exact Hm|apply Hh].
Qed.

Lemma keeps_for_each {A B} (xs : list A) (body : B → A → M S B) :
  (∀ acc x, x ∈ xs → keeps R (body acc x)) →
  ∀ acc, keeps R (for_each xs acc body).
Proof.
  induction xs as [|x xs IH]; intros Hb acc; simpl; [apply keeps_ret|].
  apply keeps_bind; [apply Hb; left|].
  intros acc'. apply IH. intros ? ? ?. apply Hb. by right.
Qed.

Lemma keeps_zoom {T A} (get : T → S) (put : S → T → T) (Q : relation T) (m : M S A) :
  (∀ t s, R (get t) s → Q t (put s t)) → keeps R m → keeps Q (zoom get put m).
Proof.
  intros H Hm t. unfold zoom. specialize (Hm (get t)).
  destruct (m (get t)) as [s' r]; simpl in *. by apply H.
Qed.
End Keeps.

Lemma keeps_mono {S A} (R Q : relation S) (m : M S A) :
  (∀ s s', R s s' → Q s s') → keeps R m → keeps Q m.
Proof. intros H Hm s. apply H, Hm. Qed.

#[export] Hint Resolve keeps_ret keeps_raise keeps_gets keeps_lift_outcome keeps_bind
  keeps_transaction keeps_catch keeps_for_each : cao.
#[export] Hint Extern 2 (PreOrder _) => apply _ : cao.
#[export] Hint Extern 1 (keeps _ (match ?x with _ => _ end)) => destruct x : cao.

(** ** Table lemmas *)

Section TableLemmas.
Context {R : Type}.
Implicit Types (p : R → bool) (f : R → R) (t : list R).

Lemma elem_of_select p t r : r ∈ select_where p t ↔ p r = true ∧ r ∈ t.
Proof. unfold select_where. by rewrite list_elem_of_filter. Qed.

Lemma elem_of_delete p t r : r ∈ delete_where p t ↔ p r = false ∧ r ∈ t.
Proof. unfold delete_where. by rewrite list_elem_of_filter. Qed.

Lemma length_update_where p f t : length (update_where p f t) = length t.
Proof. apply length_fmap. Qed.

Lemma update_where_ext p q f t :
  (∀ r, r ∈ t → p r = q r) → update_where p f t = update_where q f t.
Proof.
  intros H. unfold update_where. apply list_fmap_ext. intros i r Hr%list_elem_of_lookup_2.
  by rewrite H.
Qed.

Lemma update_where_none p f t :
  (∀ r, r ∈ t → p r = false) → update_where p f t = t.
Proof.
  intros H. induction t as [|r t IH]; [done|]; simpl.
  rewrite (H r) by left. f_equal. apply IH. intros ? ?. apply H. by right.
Qed.

Lemma rowcount_pos p t : (0 < rowcount p t)%nat ↔ ∃ r, r ∈ t ∧ p r = true.
Proof.
  unfold rowcount. split.
  - destruct (select_where p t) as [|r l] eqn:E; simpl; [lia|].
    exists r. apply and_comm, elem_of_select. rewrite E. left.
  - intros (r & Hr & Hp). assert (r ∈ select_where p t) as Hin by (by apply elem_of_select).
    destruct (select_where p t); [by apply not_elem_of_nil in Hin|simpl; lia].
Qed.

Lemma elem_of_sql_limit n t r : r ∈ sql_limit n t → r ∈ t.
Proof. unfold sql_limit. destruct (n <? 0); [done|]. intros (i & ? & ?)%elem_of_take. by eapply list_elem_of_lookup_2. Qed.
End TableLemmas.

Lemma existsb_false {R} (p : R → bool) t : existsb p t = false ↔ ∀ r, r ∈ t → p r = false.
Proof.
  rewrite <- not_true_iff_false, existsb_exists. split.
  - intros H r Hr. apply not_true_is_false. intros Hp. apply H. exists r.
    by rewrite <- list_elem_of_In.
  - intros H (r & Hr%list_elem_of_In & Hp). by rewrite (H r Hr) in Hp.
Qed.

(** ** Loops

    [for_each_spec]: when every row of the loop is either [ok], and then the
    body applies [upd] and [accf], or not, and then the body raises, the loop is
    the fold of [upd] and [accf], or raises.  [P] is what holds of the rows
    still to come. *)

Section Loops.
Context {S A B : Type} (body : B → A → M S B).
Context (ok : A → Prop) (upd : A → S → S) (accf : B → A → B) (P : list A → S → Prop).
Context (Hok : ∀ x xs acc s, P (x :: xs) s → ok x →
  body acc x s = (upd x s, Returned (accf acc x)) ∧ P xs (upd x s)).

Definition fold_upd (xs : list A) (s : S) : S := foldl (λ s x, upd x s) s xs.

Lemma for_each_ok xs acc s :
  P xs s → Forall ok xs →
  for_each xs acc body s = (fold_upd xs s, Returned (foldl accf acc xs)).
Proof.
  revert acc s. induction xs as [|x xs IH]; intros acc s HP Hall; simpl; [done|].
  apply Forall_cons in Hall as [Hx Hall].
  destruct (Hok x xs acc s HP Hx) as [Hb HP'].
  erewrite bind_returned by exact Hb. by apply IH.
Qed.

Context (Hko : ∀ x xs acc s, P (x :: xs) s → ¬ ok x → ∃ s' e, body acc x s = (s', Raised e)).

Lemma for_each_ko xs acc s :
  (∀ x, Decision (ok x)) →
  P xs s → ¬ Forall ok xs → ∃ s' e, for_each xs acc body s = (s', Raised e).
Proof.
  intros Hdec. revert acc s. induction xs as [|x xs IH]; intros acc s HP Hall; simpl.
  { destruct Hall. constructor. }
  destruct (decide (ok x)) as [Hx|Hx].
  - destruct (Hok x xs acc s HP Hx) as [Hb HP'].
    erewrite bind_returned by exact Hb. apply IH; [done|].
    intros Hxs. apply Hall. by constructor.
  - destruct (Hko x xs acc s HP Hx) as (s' & e & Hb).
    exists s', e. by apply bind_raised.
Qed.
End Loops.

(** ** Lists with a key *)

Lemma filter_all {A} (P : A → Prop) `{∀ x, Decision (P x)} (l : list A) :
  (∀ x, x ∈ l → P x) → filter P l = l.
Proof.
  induction l as [|x l IH]; intros Hl; [done|].
  rewrite filter_cons_True by (apply Hl; by left). f_equal. apply IH. intros y Hy. apply Hl. by right.
Qed.

Lemma filter_none {A} (P : A → Prop) `{∀ x, Decision (P x)} l :
  (∀ x, x ∈ l → ¬ P x) → filter P l = [].
Proof.
  intros H'. destruct (filter P l) as [|y k] eqn:E; [done|]. exfalso.
  assert (y ∈ filter P l) as [Hy Hin]%list_elem_of_filter by (rewrite E; left).
  by apply (H' y).
Qed.

Section Keyed.
Context {R K : Type} `{EqDecision K, EqDecision R} (key : R → K).

Lemma NoDup_key_eq t r r' :
  NoDup (key <$> t) → r ∈ t → r' ∈ t → key r = key r' → r = r'.
Proof.
  intros Hnd (i & Hi)%list_elem_of_lookup (j & Hj)%list_elem_of_lookup Hk.
  assert (i = j) as ->.
  { eapply NoDup_lookup; [exact Hnd| |]; rewrite list_lookup_fmap.
    - by rewrite Hi.
    - rewrite Hj. simpl. by rewrite Hk. }
  congruence.
Qed.

Lemma NoDup_key_sublist t t' :
  NoDup (key <$> t) → t' `sublist_of` t → NoDup (key <$> t').
Proof. intros H Hs. eapply sublist_NoDup; [|by apply fmap_sublist]. done. Qed.

Lemma NoDup_key_perm t t' : NoDup (key <$> t) → t' ≡ₚ t → NoDup (key <$> t').
Proof. intros H Hp. by rewrite Hp. Qed.

Lemma NoDup_of_keys t : NoDup (key <$> t) → NoDup t.
Proof. apply NoDup_fmap_1. Qed.

(** What a loop of [UPDATE .. WHERE key = key(r) AND q] over the rows [sel]
    of a snapshot does to the table. *)
Definition update_each (q : R → bool) (g : R → R → R) (sel t : list R) : list R :=
  foldl (λ t r, update_where (λ x, bool_decide (key x = key r) && q x) (g r) t) t sel.

Lemma update_each_map q g sel t :
  (∀ r x, key (g r x) = key x) →
  NoDup (key <$> t) → NoDup (key <$> sel) → (∀ r, r ∈ sel → r ∈ t) →
  update_each q g sel t
  = (λ x, if bool_decide (x ∈ sel) && q x then g x x else x) <$> t.
Proof.
  intros Hkey Ht Hs Hsub.
  assert (Hgen : ∀ sel t, NoDup (key <$> sel) →
    update_each q g sel t
    = (λ x, match head (filter (λ r, key r = key x) sel) with
            | Some r => if q x then g r x else x
            | None => x
            end) <$> t).
  { clear - Hkey. induction sel as [|r sel IH]; intros t Hnd; simpl.
    { by rewrite list_fmap_id. }
    apply NoDup_cons in Hnd as [Hnin Hnd].
    unfold update_each in *. simpl. rewrite IH by done.
    unfold update_where. rewrite <- list_fmap_compose.
    apply list_fmap_ext. intros i x _. simpl.
    destruct (decide (key r = key x)) as [He|He].
    - rewrite filter_cons_True by done. simpl.
      rewrite (bool_decide_eq_true_2 (key x = key r)) by done. simpl.
      assert (∀ y, key y = key x → filter (λ r, key r = key y) sel = []) as Hnone.
      { intros y Hy. apply filter_none. intros z Hz Hzy. apply Hnin.
        rewrite He, <- Hy, <- Hzy. by apply list_elem_of_fmap_2. }
      destruct (q x); rewrite Hnone; auto.
    - rewrite filter_cons_False by done.
      rewrite (bool_decide_eq_false_2 (key x = key r)) by congruence. done. }
  rewrite Hgen by done. apply list_fmap_ext. intros i x Hx.
  apply list_elem_of_lookup_2 in Hx.
  destruct (head (filter (λ r, key r = key x) sel)) as [r|] eqn:Hh.
  - apply head_Some_elem_of in Hh. apply list_elem_of_filter in Hh as [Hk Hr].
    assert (r = x) as ->.
    { eapply NoDup_key_eq; [exact Ht| | |done]; auto. }
    rewrite bool_decide_eq_true_2 by done. done.
  - destruct (decide (x ∈ sel)) as [Hin|Hin].
    + exfalso. apply head_None in Hh.
      assert (x ∈ filter (λ r, key r = key x) sel) as Hf by (by apply list_elem_of_filter).
      rewrite Hh in Hf. by apply not_elem_of_nil in Hf.
    + by rewrite bool_decide_eq_false_2.
Qed.
End Keyed.

Lemma order_by_perm {R} (k1 : R → Z) (k2 : R → string) t : order_by k1 k2 t ≡ₚ t.
Proof. apply merge_sort_Permutation. Qed.

Lemma order_by_sorted {R} (k1 : R → Z) (k2 : R → string) t :
  Sorted (time_text_le k1 k2) (order_by k1 k2 t).
Proof.
  apply Sorted_merge_sort. intros a b. unfold time_text_le, text_le.
  destruct (Z.lt_total (k1 a) (k1 b)) as [?|[?|?]]; [left; by left| |right; by left].
  destruct (String.leb_total (k2 a) (k2 b)); [left|right]; right; done.
Qed.

Lemma Sorted_take {A} (R : relation A) n l : Sorted R l → Sorted R (take n l).
Proof.
  revert n. induction l as [|x l IH]; intros [|n] Hs; simpl; try constructor.
  - apply IH. by inversion Hs.
  - inversion Hs as [|? ? _ Hx]; subst. destruct Hx, n; simpl; by constructor.
Qed.

Lemma sql_limit_sorted {R} (P : relation R) n t : Sorted P t → Sorted P (sql_limit n t).
Proof. unfold sql_limit. destruct (n <? 0); [done|apply Sorted_take]. Qed.

Lemma elem_of_order_by {R} (k1 : R → Z) (k2 : R → string) t r :
  r ∈ order_by k1 k2 t ↔ r ∈ t.
Proof. by rewrite order_by_perm. Qed.

Lemma select_where_sublist {R} (p : R → bool) t : select_where p t `sublist_of` t.
Proof. apply sublist_filter. Qed.

Lemma delete_where_sublist {R} (p : R → bool) t : delete_where p t `sublist_of` t.
Proof. apply sublist_filter. Qed.

Lemma sql_limit_sublist {R} n (t : list R) : sql_limit n t `sublist_of` t.
Proof. unfold sql_limit. destruct (n <? 0); [done|]. apply sublist_take. Qed.

Lemma foldl_snoc {A B} (f : A → B) (l : list A) acc :
  foldl (λ acc x, acc ++ [f x]) acc l = acc ++ (f <$> l).
Proof.
  revert acc. induction l as [|x l IH]; intros acc; simpl; [by rewrite app_nil_r|].
  by rewrite IH, <- app_assoc.
Qed.

Lemma StronglySorted_snoc {A} (R : relation A) l x :
  StronglySorted R l → (∀ y, y ∈ l → R y x) → StronglySorted R (l ++ [x]).
Proof.
  induction 1 as [|y l Hl IH Hy]; intros H; simpl; [by repeat constructor|].
  constructor; [apply IH; intros z Hz; apply H; by right|].
  apply Forall_app. split; [done|]. constructor; [apply H; left|done].
Qed.

Lemma StronglySorted_sublist {A} (R : relation A) l l' :
  l' `sublist_of` l → StronglySorted R l → StronglySorted R l'.
Proof.
  induction 1 as [|x l1 l2 H IH|x l1 l2 H IH]; intros Hs; [done| |].
  - inversion Hs as [|? ? Hs' Hx]; subst. constructor; [by apply IH|].
    apply Forall_forall. intros z Hz. rewrite Forall_forall in Hx.
    apply Hx. by eapply sublist_subseteq.
  - inversion Hs; subst. by apply IH.
Qed.
