(* ===== verification/Text.v ===== *)
(** * Fixed-width text and its order

    SQLite and Python compare text bytewise.  Two encodings of the system lean
    on that order: the base-32 digits of a ULID and the decimal digits of a
    timestamp.  This file is the shared fact: fixed-width digits in any base,
    with symbols in increasing order, compare like the integers they hold. *)

From S2P Require Import Prelude.

Lemma ascii_compare_refl c : Ascii.compare c c = Eq.
Proof. unfold Ascii.compare. by rewrite N.compare_refl. Qed.

Lemma string_compare_refl s : String.compare s s = Eq.
Proof. induction s as [|c s IH]; simpl; [done|]. by rewrite ascii_compare_refl. Qed.

(** Equal-length prefixes decide first. *)
Lemma string_compare_app a b c d :
  String.length a = String.length c →
  String.compare (a +:+ b) (c +:+ d)
  = match String.compare a c with Eq => String.compare b d | r => r end.
Proof.
  revert c. induction a as [|x a IH]; intros [|y c] Hl; simpl in *; try done.
  injection Hl as Hl. rewrite IH by done. by destruct (Ascii.compare x y).
Qed.

Lemma string_leb_trans a b c : String.leb a b = true → String.leb b c = true → String.leb a c = true.
Proof.
  unfold String.leb. revert b c. induction a as [|x a IH]; intros [|y b] [|z c]; simpl; try done.
  unfold Ascii.compare.
  destruct (N.compare_spec (N_of_ascii x) (N_of_ascii y)) as [He|Hl|?]; [..|done];
    destruct (N.compare_spec (N_of_ascii y) (N_of_ascii z)) as [Hf|Hm|?]; try done; intros H1 H2.
  - rewrite (proj2 (N.compare_eq_iff _ _)) by congruence. by eapply IH.
  - by rewrite (proj2 (N.compare_lt_iff _ _)) by lia.
  - by rewrite (proj2 (N.compare_lt_iff _ _)) by lia.
  - by rewrite (proj2 (N.compare_lt_iff _ _)) by lia.
Qed.

Lemma string_leb_refl a : String.leb a a = true.
Proof. unfold String.leb. by rewrite string_compare_refl. Qed.

Lemma string_ltb_leb a b : String.leb (if String.ltb a b then a else b) b = true
  ∧ String.leb (if String.ltb a b then a else b) a = true.
Proof.
  destruct (String.ltb a b) eqn:E.
  - split; [|apply string_leb_refl]. unfold String.ltb, String.leb in *. by destruct (String.compare a b).
  - split; [apply string_leb_refl|]. unfold String.ltb, String.leb in *.
    rewrite String.compare_antisym. by destruct (String.compare a b).
Qed.

Lemma string_length_app a b : String.length (a +:+ b) = (String.length a + String.length b)%nat.
Proof. induction a as [|x a IH]; simpl; [done|]. by rewrite IH. Qed.

Lemma string_app_assoc (a b c : string) : a +:+ (b +:+ c) = (a +:+ b) +:+ c.
Proof. induction a as [|x a IH]; [done|]. exact (f_equal (String x) IH). Qed.

(** Comparing pairs: the first component decides, then the second. *)
Lemma compare_div_mod b v w :
  0 < b →
  Z.compare v w
  = match Z.compare (v / b) (w / b) with Eq => Z.compare (v mod b) (w mod b) | r => r end.
Proof.
  intros Hb. pose proof (Z.div_mod v b ltac:(lia)). pose proof (Z.div_mod w b ltac:(lia)).
  pose proof (Z.mod_pos_bound v b Hb). pose proof (Z.mod_pos_bound w b Hb).
  destruct (Z.compare_spec (v / b) (w / b)) as [He|Hl|Hg].
  - destruct (Z.compare_spec (v mod b) (w mod b)); [apply Z.compare_eq_iff|apply Z.compare_lt_iff
      |apply Z.compare_gt_iff]; nia.
  - apply Z.compare_lt_iff. nia.
  - apply Z.compare_gt_iff. nia.
Qed.

Section Radix.
Context (base : Z) (sym : Z → ascii) (Hbase : 1 < base).
Context (Hsym : ∀ a b, 0 <= a < base → 0 <= b < base →
                       Ascii.compare (sym a) (sym b) = Z.compare a b).

(** The [n] lowest digits of [v], most significant first. *)
Fixpoint digits (n : nat) (v : Z) : string :=
  match n with
  | O => ""
  | S n => digits n (v / base) +:+ String (sym (v mod base)) ""
  end.

Lemma digits_length n v : String.length (digits n v) = n.
Proof using Type.
  revert v. induction n as [|n IH]; intros v; simpl; [done|].
  rewrite string_length_app, IH. simpl. lia.
Qed.

Lemma digits_compare n v w :
  0 <= v < base ^ Z.of_nat n → 0 <= w < base ^ Z.of_nat n →
  String.compare (digits n v) (digits n w) = Z.compare v w.
Proof.
  revert v w. induction n as [|n IH]; intros v w Hv Hw; simpl digits.
  { simpl in *. assert (v = 0) as -> by lia. assert (w = 0) as -> by lia. done. }
  rewrite string_compare_app by (by rewrite !digits_length).
  rewrite Nat2Z.inj_succ, Z.pow_succ_r in Hv, Hw by lia.
  rewrite IH by (split; [apply Z.div_pos; lia|apply Z.div_lt_upper_bound; lia]).
  simpl. rewrite Hsym by (apply Z.mod_pos_bound; lia).
  rewrite (compare_div_mod base v w) by lia.
  destruct (Z.compare (v / base) (w / base)); [|done|done].
  by destruct (Z.compare (v mod base) (w mod base)).
Qed.
End Radix.

(** ** Separators *)

Fixpoint no_char (c : ascii) (s : string) : Prop :=
  match s with EmptyString => True | String d rest => d ≠ c ∧ no_char c rest end.

Lemma no_char_app c a b : no_char c (a +:+ b) ↔ no_char c a ∧ no_char c b.
Proof. induction a as [|d a IH]; simpl; [tauto|]. rewrite IH. tauto. Qed.

(** Up to a character neither prefix holds, two equal texts agree. *)
Lemma split_at_char c a b s t :
  no_char c a → no_char c b →
  a +:+ String c s = b +:+ String c t → a = b ∧ s = t.
Proof.
  revert b. induction a as [|d a IH]; intros [|e b] Ha Hb Heq; simpl in *.
  - by injection Heq as <-.
  - injection Heq as -> _. tauto.
  - injection Heq as -> _. tauto.
  - injection Heq as -> Heq. destruct (IH b) as [-> ->]; tauto.
Qed.

Lemma pretty_N_go_no_char c x s :
  (∀ d, pretty_N_char d ≠ c) → no_char c s → no_char c (pretty_N_go x s).
Proof.
  intros Hc. revert s. induction (N.lt_wf_0 x) as [x _ IH]. intros s Hs.
  destruct (decide (x = 0%N)) as [->|Hx]; [done|].
  rewrite pretty_N_go_step by lia. apply IH; [apply N.div_lt; lia|]. simpl. auto.
Qed.

Lemma pretty_N_no_char c (x : N) : (∀ d, pretty_N_char d ≠ c) → no_char c (pretty x : string).
Proof.
  intros Hc. unfold pretty, pretty_N. destruct (decide (x = 0%N)); simpl.
  - split; [apply (Hc 0%N)|done].
  - by apply pretty_N_go_no_char.
Qed.

Lemma pretty_Z_no_char c (x : Z) :
  c ≠ "-"%char → (∀ d, pretty_N_char d ≠ c) → no_char c (pretty x : string).
Proof.
  intros Hm Hc. unfold pretty, pretty_Z. destruct x; simpl.
  - by apply (pretty_N_no_char c 0).
  - by apply pretty_N_no_char.
  - split; [by symmetry|by apply pretty_N_no_char].
Qed.

(** * Timestamps as stored text — [adapters/store/connection.py]

    The store's timestamp columns are TEXT and its SQL compares them as text
    ([lease_expires_at < ?], [ORDER BY available_at]).  [render_order] is what
    lets the model of the tables hold an instant as an integer: on the rendered
    text, text order is time order. *)

(** A [datetime]: its fields, and whether it carries a time zone.  For an aware
    one the fields are those of [value.astimezone(UTC)]. *)
Record fields := {
  year : Z; month : Z; day : Z; hour : Z; minute : Z; second : Z; microsecond : Z;
}.

Inductive datetime := Naive (f : fields) | Aware (utc : fields).

(** The ranges the [datetime] constructor enforces. *)
Definition fields_ok (f : fields) : Prop :=
  1 <= year f <= 9999 ∧ 1 <= month f <= 12 ∧ 1 <= day f <= 31 ∧ 0 <= hour f <= 23
  ∧ 0 <= minute f <= 59 ∧ 0 <= second f <= 59 ∧ 0 <= microsecond f <= 999999.

#[export] Instance fields_ok_dec f : Decision (fields_ok f).
Proof. unfold fields_ok. apply _. Defined.

Definition dec_digit (i : Z) : ascii := ascii_of_nat (48 + Z.to_nat i).
Definition zero_padded (width : nat) (v : Z) : string := digits 10 dec_digit width v.

(** [%Y] pads no year; every other directive of the format pads to its width. *)
Definition strftime_Y (y : Z) : string := if y <? 1000 then pretty y else zero_padded 4 y.

(** [_TIMESTAMP_FORMAT = "%Y-%m-%dT%H:%M:%S.%f+00:00"] *)
Definition strftime (f : fields) : string :=
  strftime_Y (year f) +:+ ("-" +:+ (zero_padded 2 (month f) +:+ ("-" +:+
  (zero_padded 2 (day f) +:+ ("T" +:+ (zero_padded 2 (hour f) +:+ (":" +:+
  (zero_padded 2 (minute f) +:+ (":" +:+ (zero_padded 2 (second f) +:+ ("." +:+
  (zero_padded 6 (microsecond f) +:+ "+00:00")))))))))))).

Definition render_timestamp (value : datetime) : outcome string :=
  match value with
  | Naive _ =>
    Raised (ValueError "timestamps stored by the worker event log must be timezone-aware")
  | Aware utc => Returned (strftime utc)
  end.

(** How two aware datetimes in one zone compare: field by field. *)
Definition then_compare (c d : comparison) : comparison := match c with Eq => d | r => r end.

Definition fields_compare (a b : fields) : comparison :=
  then_compare (Z.compare (year a) (year b)) (
  then_compare (Z.compare (month a) (month b)) (
  then_compare (Z.compare (day a) (day b)) (
  then_compare (Z.compare (hour a) (hour b)) (
  then_compare (Z.compare (minute a) (minute b)) (
  then_compare (Z.compare (second a) (second b))
    (Z.compare (microsecond a) (microsecond b))))))).

Lemma dec_digit_order a b :
  0 <= a < 10 → 0 <= b < 10 → Ascii.compare (dec_digit a) (dec_digit b) = Z.compare a b.
Proof.
  intros Ha Hb.
  assert (∀ P : Z → Prop, Forall P (seqZ 0 10) → ∀ i, 0 <= i < 10 → P i) as Hcases.
  { intros P H i Hi. rewrite Forall_forall in H. apply H, elem_of_seqZ. lia. }
  revert b Hb. revert a Ha. apply (Hcases (λ a, ∀ b, 0 <= b < 10 → _)).
  repeat (apply Forall_cons; split;
    [apply (Hcases (λ b, _)); by repeat constructor|]); by constructor.
Qed.

Lemma padded_length n v : String.length (zero_padded n v) = n.
Proof. apply digits_length. Qed.

Lemma padded_compare n v w s t :
  0 <= v < 10 ^ Z.of_nat n → 0 <= w < 10 ^ Z.of_nat n →
  String.compare (zero_padded n v +:+ s) (zero_padded n w +:+ t)
  = then_compare (Z.compare v w) (String.compare s t).
Proof.
  intros Hv Hw. rewrite string_compare_app by (by rewrite !padded_length).
  unfold zero_padded. rewrite digits_compare; [by destruct (v ?= w)|lia|exact dec_digit_order|done|done].
Qed.
Lemma zero_padded_inj n v w :
  0 <= v < 10 ^ Z.of_nat n → 0 <= w < 10 ^ Z.of_nat n → zero_padded n v = zero_padded n w → v = w.
Proof.
  intros Hv Hw H. pose proof (padded_compare n v w "" "" Hv Hw) as Hc.
  rewrite H, string_compare_refl in Hc. unfold then_compare in Hc.
  destruct (Z.compare_spec v w); [done|discriminate..].
Qed.

Lemma separator_compare c s t :
  String.compare (String c "" +:+ s) (String c "" +:+ t) = String.compare s t.
Proof. rewrite string_compare_app by done. by rewrite string_compare_refl. Qed.

(** Text order is time order: two aware timestamps of years 1000 to 9999
    render to text that compares exactly as the instants do, so every
    comparison and ordering the store's SQL makes on a timestamp column is the
    one on time; a naive timestamp is refused instead of stored. *)
Theorem render_order a b :
  fields_ok a → fields_ok b → 1000 <= year a → 1000 <= year b →
  (∃ s t, render_timestamp (Aware a) = Returned s ∧ render_timestamp (Aware b) = Returned t
          ∧ String.length s = 32%nat ∧ String.compare s t = fields_compare a b)
  ∧ ∃ w, render_timestamp (Naive a) = Raised (ValueError w).
Proof.
  intros Ha Hb Hya Hyb. unfold fields_ok in *. split; [|by eexists].
  exists (strftime a), (strftime b). unfold render_timestamp, strftime, strftime_Y.
  rewrite !(proj2 (Z.ltb_ge _ _)) by done. split_and!; [done|done| |].
  - by rewrite !string_length_app, !padded_length.
  - unfold fields_compare.
    repeat (rewrite padded_compare by (split; [lia|]; vm_compute (10 ^ _); lia); f_equal;
            try rewrite separator_compare).
    rewrite string_compare_refl. by destruct (Z.compare (microsecond a) (microsecond b)).
Qed.

Lemma render_order_witness :
  let a := {| year := 2025; month := 9; day := 30; hour := 23; minute := 59; second := 59;
              microsecond := 999999 |} in
  let b := {| year := 2025; month := 10; day := 1; hour := 0; minute := 0; second := 0;
              microsecond := 0 |} in
  ∃ s t, render_timestamp (Aware a) = Returned s ∧ render_timestamp (Aware b) = Returned t
         ∧ String.length s = 32%nat ∧ String.compare s t = Lt.
Proof.
  apply (render_order
    {| year := 2025; month := 9; day := 30; hour := 23; minute := 59; second := 59;
       microsecond := 999999 |}
    {| year := 2025; month := 10; day := 1; hour := 0; minute := 0; second := 0;
       microsecond := 0 |}); by vm_compute.
Defined.

(** ** The aware UTC [datetime] of an instant, and its [isoformat()]

    [datetime]'s proleptic Gregorian calendar, from days since the epoch. *)

Definition utc_fields (instant : Z) : fields :=
  let us := instant mod 1000000 in
  let s := instant / 1000000 in
  let z := s / 86400 + 719468 in
  let doe := z mod 146097 in
  let yoe := (doe - doe / 1460 + doe / 36524 - doe / 146096) / 365 in
  let doy := doe - (365 * yoe + yoe / 4 - yoe / 100) in
  let mp := (5 * doy + 2) / 153 in
  let m := if mp <? 10 then mp + 3 else mp - 9 in
  {| year := yoe + z / 146097 * 400 + (if m <=? 2 then 1 else 0);
     month := m;
     day := doy - (153 * mp + 2) / 5 + 1;
     hour := s mod 86400 / 3600; minute := s mod 3600 / 60; second := s mod 60;
     microsecond := us |}.

Definition isoformat (instant : Z) : string :=
  let f := utc_fields instant in
  zero_padded 4 (year f) +:+ "-" +:+ zero_padded 2 (month f) +:+ "-" +:+ zero_padded 2 (day f)
  +:+ "T" +:+ zero_padded 2 (hour f) +:+ ":" +:+ zero_padded 2 (minute f) +:+ ":"
  +:+ zero_padded 2 (second f)
  +:+ (if microsecond f =? 0 then "" else "." +:+ zero_padded 6 (microsecond f)) +:+ "+00:00".

Example isoformat_epoch : isoformat 0 = "1970-01-01T00:00:00+00:00"%string.
Proof. reflexivity. Qed.
Example isoformat_leap : isoformat 1709251199000250 = "2024-02-29T23:59:59.000250+00:00"%string.
Proof. reflexivity. Qed.
