(* ===== verification/Ulid.v ===== *)
(** * Identifiers — [core/ids.py]

    Every [event_id], [msg_id] and [finding_id] is a ULID of one process-wide
    stream, and tables are ordered by them as text.  A call of
    [UlidFactory.new] takes the clock reading and the random draw as
    arguments; the lock makes calls a sequence. *)

From S2P Require Import Prelude Text.

Definition CROCKFORD_ALPHABET : string := "0123456789ABCDEFGHJKMNPQRSTVWXYZ".
Definition ULID_LENGTH : nat := 26.
Definition _TIMESTAMP_CHARS : nat := 10.
Definition _RANDOM_BITS : Z := 80.
Definition _RANDOM_MAX : Z := Z.shiftl 1 _RANDOM_BITS - 1.
Definition _TIMESTAMP_MAX : Z := Z.shiftl 1 48 - 1.

(** [CROCKFORD_ALPHABET[i]] *)
Definition crockford (i : Z) : ascii :=
  default "000"%char (String.get (Z.to_nat i) CROCKFORD_ALPHABET).

(** The index of a character in a string, the [_DECODE] table. *)
Fixpoint index_of (c : ascii) (s : string) : option Z :=
  match s with
  | EmptyString => None
  | String d rest => if decide (d = c) then Some 0 else Z.succ <$> index_of c rest
  end.

Definition _DECODE (c : ascii) : option Z := index_of c CROCKFORD_ALPHABET.

(** The loop fills [chars] from the last position to the first. *)
Fixpoint _encode (value : Z) (length : nat) : string :=
  match length with
  | O => ""
  | S length => _encode (Z.shiftr value 5) length +:+ String (crockford (Z.land value 31)) ""
  end.

Record UlidFactory := {
  _last_timestamp_ms : Z;
  _last_randomness : Z;
}.

Definition init_factory : UlidFactory := {| _last_timestamp_ms := -1; _last_randomness := 0 |}.

(** [draw] is the value [secrets.randbits(80)] returns if it is called. *)
Definition new (draw now_ms : Z) : M UlidFactory string := λ f,
  if (now_ms <? 0) || (_TIMESTAMP_MAX <? now_ms)
  then (f, Raised (ValueError "ULID timestamp out of range"))
  else
    let f' :=
      if _last_timestamp_ms f <? now_ms
      then {| _last_timestamp_ms := now_ms; _last_randomness := draw |}
      else if _RANDOM_MAX <=? _last_randomness f
      then {| _last_timestamp_ms := _last_timestamp_ms f + 1; _last_randomness := draw |}
      else {| _last_timestamp_ms := _last_timestamp_ms f;
              _last_randomness := _last_randomness f + 1 |} in
    (f', Returned (_encode (_last_timestamp_ms f') _TIMESTAMP_CHARS
                   +:+ _encode (_last_randomness f') (ULID_LENGTH - _TIMESTAMP_CHARS))).

Fixpoint all_chars (p : ascii → bool) (s : string) : bool :=
  match s with EmptyString => true | String c rest => p c && all_chars p rest end.

Definition is_ulid (value : string) : bool :=
  if negb (String.length value =? ULID_LENGTH)%nat then false
  else all_chars (λ c, bool_decide (is_Some (_DECODE c))) value.

(** [for char in s: timestamp = (timestamp << 5) | _DECODE[char]] *)
Fixpoint decode_from (timestamp : Z) (s : string) : Z :=
  match s with
  | EmptyString => timestamp
  | String c rest =>
    decode_from (Z.lor (Z.shiftl timestamp 5) (default 0 (_DECODE c))) rest
  end.

Definition ulid_timestamp_ms (value : string) : outcome Z :=
  if negb (is_ulid value) then Raised (ValueError "not a ULID")
  else Returned (decode_from 0 (String.substring 0 _TIMESTAMP_CHARS value)).

(** ** Base 32 *)

Lemma crockford_cases (P : Z → Prop) :
  Forall P (seqZ 0 32) → ∀ i, 0 <= i < 32 → P i.
Proof. intros H i Hi. rewrite Forall_forall in H. apply H, elem_of_seqZ. lia. Qed.

Lemma crockford_order a b :
  0 <= a < 32 → 0 <= b < 32 → Ascii.compare (crockford a) (crockford b) = Z.compare a b.
Proof.
  intros Ha Hb. revert b Hb. revert a Ha.
  apply (crockford_cases (λ a, ∀ b, 0 <= b < 32 → _)).
  repeat (apply Forall_cons; split;
    [apply (crockford_cases (λ b, _)); by repeat constructor|]); by constructor.
Qed.

Lemma crockford_decode a : 0 <= a < 32 → _DECODE (crockford a) = Some a.
Proof. revert a. apply crockford_cases. by repeat constructor. Qed.

Lemma land_31 v : Z.land v 31 = v mod 32.
Proof. apply (Z.land_ones v 5). lia. Qed.

Lemma shiftr_5 v : Z.shiftr v 5 = v / 32.
Proof. apply (Z.shiftr_div_pow2 v 5). lia. Qed.

Lemma encode_digits v n : _encode v n = digits 32 crockford n v.
Proof.
  revert v. induction n as [|n IH]; intros v; simpl; [done|].
  by rewrite IH, shiftr_5, land_31.
Qed.

Lemma encode_length v n : String.length (_encode v n) = n.
Proof. rewrite encode_digits. apply digits_length. Qed.

Lemma encode_compare n v w :
  0 <= v < 32 ^ Z.of_nat n → 0 <= w < 32 ^ Z.of_nat n →
  String.compare (_encode v n) (_encode w n) = Z.compare v w.
Proof. rewrite !encode_digits. apply digits_compare; [lia|apply crockford_order]. Qed.

Lemma lor_digit t c : 0 <= c < 32 → Z.lor (Z.shiftl t 5) c = 32 * t + c.
Proof.
  intros Hc. rewrite <- Z.add_nocarry_lor.
  { rewrite Z.shiftl_mul_pow2 by lia. change (2 ^ 5) with 32. lia. }
  apply Z.bits_inj'. intros i Hi. rewrite Z.land_spec, Z.shiftl_spec, Z.bits_0 by done.
  destruct (Z.lt_ge_cases i 5).
  - by rewrite Z.testbit_neg_r by lia.
  - replace (Z.testbit c i) with false; [apply andb_false_r|]. symmetry.
    destruct (decide (c = 0)) as [->|]; [apply Z.bits_0|].
    apply Z.bits_above_log2; [lia|]. assert (Z.log2 c < 5) by (apply Z.log2_lt_pow2; lia). lia.
Qed.

Lemma decode_from_app t a b : decode_from t (a +:+ b) = decode_from (decode_from t a) b.
Proof. revert t. induction a as [|c a IH]; intros t; [done|]. apply IH. Qed.

Lemma decode_encode n v : 0 <= v < 32 ^ Z.of_nat n → decode_from 0 (_encode v n) = v.
Proof.
  revert v. induction n as [|n IH]; intros v Hv; simpl _encode.
  { simpl in *. lia. }
  rewrite Nat2Z.inj_succ, Z.pow_succ_r in Hv by lia.
  rewrite decode_from_app, shiftr_5, land_31. pose proof (Z.mod_pos_bound v 32 ltac:(lia)).
  rewrite IH by (split; [apply Z.div_pos; lia|apply Z.div_lt_upper_bound; lia]).
  simpl decode_from. rewrite crockford_decode by done. simpl default.
  rewrite lor_digit by done. symmetry. apply Z.div_mod. lia.
Qed.

Lemma all_chars_app p a b : all_chars p (a +:+ b) = all_chars p a && all_chars p b.
Proof.
  induction a as [|c a IH]; [done|].
  simpl all_chars at 2. rewrite <- andb_assoc. exact (f_equal (andb (p c)) IH).
Qed.

Lemma encode_chars n v : all_chars (λ c, bool_decide (is_Some (_DECODE c))) (_encode v n) = true.
Proof.
  revert v. induction n as [|n IH]; intros v; simpl _encode; [done|].
  rewrite all_chars_app, IH. cbn [all_chars andb].
  rewrite land_31, crockford_decode by (apply Z.mod_pos_bound; lia). by rewrite bool_decide_eq_true_2.
Qed.

Lemma substring_prefix a b : String.substring 0 (String.length a) (a +:+ b) = a.
Proof. induction a as [|c a IH]; [by destruct b|]. exact (f_equal (String c) IH). Qed.

(** ** The stream *)

Definition id_of (f : UlidFactory) : string :=
  _encode (_last_timestamp_ms f) _TIMESTAMP_CHARS
  +:+ _encode (_last_randomness f) (ULID_LENGTH - _TIMESTAMP_CHARS).

(** A state after at most [k] calls: the timestamp passes the 48-bit limit by
    at most one for each overflow of the random counter. *)
Definition stream_ok (k : Z) (f : UlidFactory) : Prop :=
  0 <= k ∧ -1 <= _last_timestamp_ms f <= _TIMESTAMP_MAX + k
  ∧ 0 <= _last_randomness f <= _RANDOM_MAX.

Definition factory_lt (f g : UlidFactory) : Prop :=
  _last_timestamp_ms f < _last_timestamp_ms g
  ∨ (_last_timestamp_ms f = _last_timestamp_ms g ∧ _last_randomness f < _last_randomness g).

#[export] Instance factory_lt_trans : Transitive factory_lt.
Proof. unfold factory_lt. intros f g h. lia. Qed.

Definition draw_ok (draw : Z) : Prop := 0 <= draw <= _RANDOM_MAX.

Definition text_lt (a b : string) : Prop := String.compare a b = Lt.

(** How many overflows still leave ten base-32 characters enough. *)
Definition STREAM_CALLS : Z := 2 ^ 49.

Lemma new_spec k draw now_ms f :
  stream_ok k f → draw_ok draw →
  (now_ms < 0 ∨ _TIMESTAMP_MAX < now_ms) ∧ (∃ w, new draw now_ms f = (f, Raised (ValueError w)))
  ∨ 0 <= now_ms <= _TIMESTAMP_MAX ∧ ∃ f', new draw now_ms f = (f', Returned (id_of f'))
      ∧ stream_ok (k + 1) f' ∧ factory_lt f f' ∧ now_ms <= _last_timestamp_ms f'
      ∧ (_last_timestamp_ms f < now_ms → _last_timestamp_ms f' = now_ms).
Proof.
  intros (Hk & Ht & Hr) Hd. unfold draw_ok in Hd. unfold new.
  destruct ((now_ms <? 0) || (_TIMESTAMP_MAX <? now_ms)) eqn:E.
  { left. rewrite orb_true_iff, !Z.ltb_lt in E. split; [done|]. by eexists. }
  right. rewrite orb_false_iff, !Z.ltb_ge in E. split; [lia|]. cbv zeta.
  eexists. split; [reflexivity|]. unfold stream_ok, factory_lt.
  destruct (_last_timestamp_ms f <? now_ms) eqn:Et; simpl.
  - apply Z.ltb_lt in Et. lia.
  - apply Z.ltb_ge in Et.
    destruct (_RANDOM_MAX <=? _last_randomness f) eqn:Er; simpl.
    + apply Z.leb_le in Er. lia.
    + apply Z.leb_gt in Er. lia.
Qed.

Lemma id_bounds k f :
  k <= STREAM_CALLS → 0 <= _last_timestamp_ms f → stream_ok k f →
  0 <= _last_timestamp_ms f < 32 ^ Z.of_nat _TIMESTAMP_CHARS
  ∧ 0 <= _last_randomness f < 32 ^ Z.of_nat (ULID_LENGTH - _TIMESTAMP_CHARS).
Proof.
  intros Hk H0 (_ & Ht & Hr). unfold STREAM_CALLS, _TIMESTAMP_MAX, _RANDOM_MAX, _RANDOM_BITS in *.
  change (32 ^ Z.of_nat _TIMESTAMP_CHARS) with (2 ^ 50).
  change (32 ^ Z.of_nat (ULID_LENGTH - _TIMESTAMP_CHARS)) with (2 ^ 80).
  change (Z.shiftl 1 48) with (2 ^ 48) in Ht. change (Z.shiftl 1 80) with (2 ^ 80) in Hr.
  change (2 ^ 48) with 281474976710656 in *. change (2 ^ 49) with 562949953421312 in *.
  change (2 ^ 50) with 1125899906842624. lia.
Qed.

Lemma id_of_lt k f g :
  k <= STREAM_CALLS → 0 <= _last_timestamp_ms f → stream_ok k f → stream_ok k g →
  factory_lt f g → text_lt (id_of f) (id_of g).
Proof.
  intros Hk H0 Hf Hg Hlt.
  assert (0 <= _last_timestamp_ms g) as H0' by (unfold factory_lt in Hlt; lia).
  destruct (id_bounds k f Hk H0 Hf) as [Hft Hfr]. destruct (id_bounds k g Hk H0' Hg) as [Hgt Hgr].
  unfold text_lt, id_of. rewrite string_compare_app by (by rewrite !encode_length).
  rewrite !encode_compare by done. destruct Hlt as [Hlt|[-> Hlt]].
  - by rewrite (proj2 (Z.compare_lt_iff _ _)).
  - by rewrite Z.compare_refl, (proj2 (Z.compare_lt_iff _ _)).
Qed.

(** The ids a sequence of calls returns, in order. *)
Fixpoint mint_all (calls : list (Z * Z)) (f : UlidFactory) : list string :=
  match calls with
  | [] => []
  | (draw, now_ms) :: rest =>
    match new draw now_ms f with
    | (f', Returned i) => i :: mint_all rest f'
    | (f', Raised _) => mint_all rest f'
    end
  end.

Lemma mint_all_states calls k f :
  Forall (λ c, draw_ok c.1) calls → stream_ok k f →
  ∃ fs, mint_all calls f = id_of <$> fs
    ∧ Forall (factory_lt f) fs ∧ StronglySorted factory_lt fs
    ∧ Forall (λ g, 0 <= _last_timestamp_ms g ∧ stream_ok (k + Z.of_nat (length calls)) g) fs.
Proof.
  revert k f. induction calls as [|[draw now_ms] calls IH]; intros k f Hd Hf.
  { exists []. split_and!; constructor. }
  apply Forall_cons in Hd as [Hd1 Hd]. simpl mint_all.
  replace (k + Z.of_nat (length ((draw, now_ms) :: calls)))
    with (k + 1 + Z.of_nat (length calls)) by (simpl length; lia).
  assert (∀ j g, stream_ok j g → stream_ok (j + 1) g) as Hweak
    by (unfold stream_ok; intros; lia).
  destruct (new_spec k draw now_ms f Hf Hd1) as [[_ [w ->]]|(Hms & f' & -> & Hf' & Hlt & Hge & _)].
  - apply IH; [done|by apply Hweak].
  - destruct (IH (k + 1) f') as (fs & -> & Hall & Hs & Hb); [done|done|].
    exists (f' :: fs). split_and!; [done| | |].
    + constructor; [done|]. eapply Forall_impl; [exact Hall|]. intros g Hg. by transitivity f'.
    + by constructor.
    + constructor; [|done]. split; [lia|].
      unfold stream_ok in *. lia.
Qed.

(** Ids of one stream sort in the order they were minted: whatever the
    clock does between calls — repeats a millisecond, steps backwards, is
    refused as out of range — and whatever the random draws, each id a stream
    returns is strictly greater as text than every id it returned before. *)
Theorem ulids_increase calls :
  Forall (λ c, draw_ok c.1) calls → Z.of_nat (length calls) <= STREAM_CALLS →
  StronglySorted text_lt (mint_all calls init_factory).
Proof.
  intros Hd Hn.
  destruct (mint_all_states calls 0 init_factory) as (fs & -> & _ & Hs & Hb);
    [done|by vm_compute|].
  rewrite Z.add_0_l in Hb. induction Hs as [|f fs Hs IH Hlt]; [constructor|].
  apply Forall_cons in Hb as [[H0 Hf] Hb]. constructor; [by apply IH|].
  apply Forall_forall. intros s (g & -> & Hg)%list_elem_of_fmap.
  rewrite Forall_forall in Hlt, Hb. destruct (Hb g Hg) as [_ Hgo].
  eapply id_of_lt; [exact Hn|done|done|done|by apply Hlt].
Qed.

(** A minted id is a well-formed ULID, and the timestamp read back from it
    is the stream's: the clock reading of the call when the clock had advanced,
    and never one before it. *)
Theorem ulid_roundtrip k draw now_ms f f' i :
  stream_ok k f → k < STREAM_CALLS → draw_ok draw → new draw now_ms f = (f', Returned i) →
  is_ulid i = true ∧ ulid_timestamp_ms i = Returned (_last_timestamp_ms f')
  ∧ now_ms <= _last_timestamp_ms f'
  ∧ (_last_timestamp_ms f < now_ms → ulid_timestamp_ms i = Returned now_ms).
Proof.
  intros Hf Hk Hd Hnew.
  destruct (new_spec k draw now_ms f Hf Hd) as [[_ [w He]]|(Hms & g & He & Hg & _ & Hge & Hadv)];
    [congruence|]. rewrite Hnew in He. injection He as -> ->.
  destruct (id_bounds (k + 1) g) as [Ht _]; [lia|lia|done|].
  assert (is_ulid (id_of g) = true) as Hu.
  { unfold is_ulid, id_of. rewrite string_length_app, !encode_length, Nat.eqb_refl. simpl negb.
    cbn match. by rewrite all_chars_app, !encode_chars. }
  assert (ulid_timestamp_ms (id_of g) = Returned (_last_timestamp_ms g)) as Hts.
  { unfold ulid_timestamp_ms. rewrite Hu. simpl negb. cbn match. f_equal. unfold id_of.
    replace _TIMESTAMP_CHARS with (String.length (_encode (_last_timestamp_ms g) _TIMESTAMP_CHARS)) at 1
      by apply encode_length.
    rewrite substring_prefix. by apply decode_encode. }
  split_and!; [done|done|done|]. intros Hlt. rewrite Hts. by rewrite Hadv.
Qed.

Lemma ulids_increase_witness :
  StronglySorted text_lt (mint_all [(5, 1000); (7, 1000); (9, 999); (1, -4); (2, 1001)] init_factory).
Proof. apply ulids_increase; [by repeat constructor|by vm_compute]. Defined.

Lemma ulid_roundtrip_witness :
  ∃ f' i, new 5 1000 init_factory = (f', Returned i) ∧ is_ulid i = true
          ∧ ulid_timestamp_ms i = Returned 1000.
Proof.
  do 2 eexists. split; [reflexivity|].
  destruct (ulid_roundtrip 0 5 1000 init_factory _ _ ltac:(by vm_compute) ltac:(by vm_compute)
    ltac:(by vm_compute) eq_refl) as (H1 & _ & _ & H2).
  split; [exact H1|]. by apply H2.
Defined.
