(* ===== verification/Timing.v ===== *)
(** * Durations and their orderings — [core/timing.py]

    Every duration of the event log and of the delivery queue, and the two
    import-time checks [check_orderings] and [check_delivery_orderings].  The
    module reads its own globals; here the globals are the fields of a record,
    [shipped] holds the values the module ships, and the checks take the record,
    so that they can be stated for a retuned table as well.  Python's [10.0]
    and [30.0] are the integers they equal. *)

From S2P Require Import Prelude.

Record Timing := {
  PANE_HEARTBEAT_S : Z;
  PANE_SAMPLE_S : Z;
  PANE_LIVENESS_STALENESS_S : Z;
  HERDR_AGENT_DETECT_S : Z;
  NO_SIGNAL_S : Z;
  ROLLOUT_POLL_MS : Z;
  PROBE_FAIL_TICKS : Z;
  PANE_MISS_TICKS : Z;
  RETENTION_DAYS : Z;
  RETENTION_SWEEP_S : Z;
  DELIVERY_TICK_S : Z;
  DELIVERY_LEASE_S : Z;
  DELIVERY_MAX_ATTEMPTS : Z;
  DELIVERY_INJECT_BUDGET_S : Z;
  DELIVERY_BACKOFF_S : Z;
  DELIVERY_VETO_CEILING_S : Z;
  DELIVERY_DEDUP_WINDOW_S : Z;
  DELIVERY_MAX_LIFETIME_S : Z;
  DELIVERY_RETENTION_DAYS : Z;
  GATE_QUESTION_EXPIRY_S : Z;
  HERDR_SUBMISSION_GATE_MS : Z;
  HERDR_PROMPT_WAIT_MS : Z;
  IDLE_STALL_AGE_S : Z;
  WAKE_MAX_RECORD_AGE_S : Z;
}.

Definition shipped : Timing := {|
  PANE_HEARTBEAT_S := 20;
  PANE_SAMPLE_S := 5;
  PANE_LIVENESS_STALENESS_S := 10;
  HERDR_AGENT_DETECT_S := 30;
  NO_SIGNAL_S := 60;
  ROLLOUT_POLL_MS := 500;
  PROBE_FAIL_TICKS := 3;
  PANE_MISS_TICKS := 2;
  RETENTION_DAYS := 30;
  RETENTION_SWEEP_S := 24 * 60 * 60;
  DELIVERY_TICK_S := 10;
  DELIVERY_LEASE_S := 60;
  DELIVERY_MAX_ATTEMPTS := 5;
  DELIVERY_INJECT_BUDGET_S := 20;
  DELIVERY_BACKOFF_S := 5;
  DELIVERY_VETO_CEILING_S := 1500;
  DELIVERY_DEDUP_WINDOW_S := 60;
  DELIVERY_MAX_LIFETIME_S := 1700;
  DELIVERY_RETENTION_DAYS := 30;
  GATE_QUESTION_EXPIRY_S := 3600;
  HERDR_SUBMISSION_GATE_MS := 5000;
  HERDR_PROMPT_WAIT_MS := 8000;
  IDLE_STALL_AGE_S := 1800;
  WAKE_MAX_RECORD_AGE_S := 900;
|}.

(** A guard of the form [if bad: raise ValueError(label)]. *)
Definition refuse_if (bad : bool) (label : string) (rest : outcome ()) : outcome () :=
  if bad then Raised (ValueError label) else rest.

Definition check_orderings (t : Timing) : outcome () :=
  refuse_if (PANE_HEARTBEAT_S t * 1000 <? ROLLOUT_POLL_MS t * 4) "ROLLOUT_POLL_MS" $
  refuse_if (NO_SIGNAL_S t <=? PANE_HEARTBEAT_S t * 2) "NO_SIGNAL_S" $
  refuse_if (PROBE_FAIL_TICKS t * PANE_HEARTBEAT_S t <? NO_SIGNAL_S t) "PROBE_FAIL_TICKS" $
  refuse_if (PANE_MISS_TICKS t <? 2) "PANE_MISS_TICKS" $
  refuse_if (PANE_LIVENESS_STALENESS_S t <? PANE_SAMPLE_S t * 2) "PANE_SAMPLE_S" $
  refuse_if (negb (PANE_HEARTBEAT_S t mod PANE_SAMPLE_S t =? 0)) "PANE_HEARTBEAT_S" $
  refuse_if (RETENTION_DAYS t <? 1) "RETENTION_DAYS" $
  refuse_if (RETENTION_SWEEP_S t <? PANE_HEARTBEAT_S t) "RETENTION_SWEEP_S" $
  Returned ().

Definition attempt_span (t : Timing) : Z :=
  (DELIVERY_LEASE_S t + DELIVERY_BACKOFF_S t) * DELIVERY_MAX_ATTEMPTS t.

Definition check_delivery_orderings (t : Timing) : outcome () :=
  refuse_if (DELIVERY_LEASE_S t <=? DELIVERY_TICK_S t) "I1" $
  refuse_if (DELIVERY_LEASE_S t <=? PANE_HEARTBEAT_S t) "I2" $
  refuse_if (IDLE_STALL_AGE_S t <=? attempt_span t) "I3" $
  refuse_if (negb ((attempt_span t <? DELIVERY_VETO_CEILING_S t)
    && (DELIVERY_VETO_CEILING_S t <? DELIVERY_MAX_LIFETIME_S t)
    && (DELIVERY_MAX_LIFETIME_S t <? IDLE_STALL_AGE_S t))) "I4" $
  refuse_if (DELIVERY_LEASE_S t <=? DELIVERY_INJECT_BUDGET_S t) "I5" $
  refuse_if (HERDR_PROMPT_WAIT_MS t <=? HERDR_SUBMISSION_GATE_MS t) "B1" $
  refuse_if (DELIVERY_INJECT_BUDGET_S t * 1000 <? HERDR_PROMPT_WAIT_MS t) "B2" $
  refuse_if (DELIVERY_MAX_ATTEMPTS t <? 1) "DELIVERY_MAX_ATTEMPTS" $
  refuse_if (DELIVERY_RETENTION_DAYS t <? 1) "DELIVERY_RETENTION_DAYS" $
  refuse_if (DELIVERY_DEDUP_WINDOW_S t <? 1) "DELIVERY_DEDUP_WINDOW_S" $
  refuse_if (DELIVERY_MAX_LIFETIME_S t <=? WAKE_MAX_RECORD_AGE_S t) "T1" $
  Returned ().

(** ** Instants

    The store compares instants in whole microseconds since the epoch. *)

Definition seconds (n : Z) : Z := n * 1000000.
Definition days (n : Z) : Z := seconds (n * 86400).

(** ** What the checks establish *)

Record LivenessOrderings (t : Timing) : Prop := {
  lo_poll : ROLLOUT_POLL_MS t * 4 <= PANE_HEARTBEAT_S t * 1000;
  lo_no_signal : PANE_HEARTBEAT_S t * 2 < NO_SIGNAL_S t;
  lo_fail : NO_SIGNAL_S t <= PROBE_FAIL_TICKS t * PANE_HEARTBEAT_S t;
  lo_miss : 2 <= PANE_MISS_TICKS t;
  lo_sample : PANE_SAMPLE_S t * 2 <= PANE_LIVENESS_STALENESS_S t;
  lo_multiple : PANE_HEARTBEAT_S t mod PANE_SAMPLE_S t = 0;
  lo_days : 1 <= RETENTION_DAYS t;
  lo_sweep : PANE_HEARTBEAT_S t <= RETENTION_SWEEP_S t;
}.

Record DeliveryOrderings (t : Timing) : Prop := {
  do_tick : DELIVERY_TICK_S t < DELIVERY_LEASE_S t;
  do_heartbeat : PANE_HEARTBEAT_S t < DELIVERY_LEASE_S t;
  do_span_veto : attempt_span t < DELIVERY_VETO_CEILING_S t;
  do_veto_life : DELIVERY_VETO_CEILING_S t < DELIVERY_MAX_LIFETIME_S t;
  do_life_stall : DELIVERY_MAX_LIFETIME_S t < IDLE_STALL_AGE_S t;
  do_inject : DELIVERY_INJECT_BUDGET_S t < DELIVERY_LEASE_S t;
  do_gate : HERDR_SUBMISSION_GATE_MS t < HERDR_PROMPT_WAIT_MS t;
  do_wait : HERDR_PROMPT_WAIT_MS t <= DELIVERY_INJECT_BUDGET_S t * 1000;
  do_attempts : 1 <= DELIVERY_MAX_ATTEMPTS t;
  do_retention : 1 <= DELIVERY_RETENTION_DAYS t;
  do_dedup : 1 <= DELIVERY_DEDUP_WINDOW_S t;
  do_record : WAKE_MAX_RECORD_AGE_S t < DELIVERY_MAX_LIFETIME_S t;
}.

Lemma refuse_if_returned bad label rest :
  refuse_if bad label rest = Returned () ↔ bad = false ∧ rest = Returned ().
Proof. unfold refuse_if. destruct bad; naive_solver. Qed.

Create Rewrite HintDb checks.
#[export] Hint Rewrite refuse_if_returned negb_false_iff andb_true_iff Z.ltb_lt Z.ltb_ge
  Z.leb_le Z.leb_gt Z.eqb_eq : checks.

Ltac checks := autorewrite with checks in *; repeat match goal with H : _ ∧ _ |- _ => destruct H end; repeat split; try lia.

(** The liveness check of the module passes exactly on the tables that
    satisfy every documented ordering, so no ordering is unchecked and none is
    checked too strictly. *)
Theorem check_orderings_iff t : check_orderings t = Returned () ↔ LivenessOrderings t.
Proof.
  unfold check_orderings. split.
  - intros H. checks.
  - intros []. checks.
Qed.

(** The delivery check passes exactly on the tables that satisfy the
    chain attempt span < dialog ceiling < lifetime < stall age and the lease,
    injection, submission and record-age bounds (I1-I5, B1, B2, T1); the guard
    I3 is implied by I4 and adds nothing. *)
Theorem check_delivery_orderings_iff t :
  check_delivery_orderings t = Returned () ↔ DeliveryOrderings t.
Proof.
  unfold check_delivery_orderings. split.
  - intros H. checks.
  - intros []. checks.
Qed.

Lemma shipped_liveness : LivenessOrderings shipped.
Proof. constructor; by vm_compute. Qed.

Lemma shipped_delivery : DeliveryOrderings shipped.
Proof. constructor; by vm_compute. Qed.
