(* ===== verification/Delivery.v ===== *)
(** * The delivery queue's pure domain — [core/delivery.py]

    The closed vocabularies, the accounting of outcomes, the wake-reason table,
    the wake's sender and line, the deadline, and the rows as values. *)

From S2P Require Import Prelude Text Timing.

(** ** Closed vocabularies *)

Inductive QueueMode := LIVE.

Inductive MsgState := READY | LEASED | DELIVERED | SUPERSEDED | DEAD.

Inductive DeadReason := MAX_ATTEMPTS | VETO_CEILING | MAX_LIFETIME | EXPIRED.

Inductive AttemptOutcome :=
| OUT_DELIVERED
| VETO_DIALOG
| VETO_UNVERIFIED
| PANE_ABSENT
| LEGACY_OTHER
| EMITTED_UNVERIFIED
| WAKE_UNREACHABLE
| WAKE_UNRESOLVABLE
| PASTE_ATTEMPTED
| SUBMISSION_UNCERTAIN.

Inductive MsgKind := ASSIGN | CALLBACK | HANDOFF | NOTE.

#[export] Instance QueueMode_eq_dec : EqDecision QueueMode.
Proof. solve_decision. Defined.
#[export] Instance MsgState_eq_dec : EqDecision MsgState.
Proof. solve_decision. Defined.
#[export] Instance DeadReason_eq_dec : EqDecision DeadReason.
Proof. solve_decision. Defined.
#[export] Instance AttemptOutcome_eq_dec : EqDecision AttemptOutcome.
Proof. solve_decision. Defined.
#[export] Instance MsgKind_eq_dec : EqDecision MsgKind.
Proof. solve_decision. Defined.

(** The [.value] of each member, and the lookup [Enum(value)] that raises
    [ValueError] on a string that names none. *)

Definition QueueMode_value (m : QueueMode) : string := match m with LIVE => "live" end.

Definition QueueMode_of (s : string) : option QueueMode :=
  if decide (s = "live"%string) then Some LIVE else None.

Definition DeadReason_value (r : DeadReason) : string :=
  match r with
  | MAX_ATTEMPTS => "max_attempts"
  | VETO_CEILING => "veto_ceiling"
  | MAX_LIFETIME => "max_lifetime"
  | EXPIRED => "expired"
  end.

Definition AttemptOutcome_value (o : AttemptOutcome) : string :=
  match o with
  | OUT_DELIVERED => "delivered"
  | VETO_DIALOG => "veto_dialog"
  | VETO_UNVERIFIED => "veto_unverified"
  | PANE_ABSENT => "pane_absent"
  | LEGACY_OTHER => "legacy_other"
  | EMITTED_UNVERIFIED => "emitted_unverified"
  | WAKE_UNREACHABLE => "wake_unreachable"
  | WAKE_UNRESOLVABLE => "wake_unresolvable"
  | PASTE_ATTEMPTED => "paste_attempted"
  | SUBMISSION_UNCERTAIN => "submission_uncertain"
  end.

Definition AttemptOutcome_members : list AttemptOutcome :=
  [OUT_DELIVERED; VETO_DIALOG; VETO_UNVERIFIED; PANE_ABSENT; LEGACY_OTHER;
   EMITTED_UNVERIFIED; WAKE_UNREACHABLE; WAKE_UNRESOLVABLE; PASTE_ATTEMPTED;
   SUBMISSION_UNCERTAIN].

Definition AttemptOutcome_of (s : string) : option AttemptOutcome :=
  head (filter (λ o, AttemptOutcome_value o = s) AttemptOutcome_members).

Lemma AttemptOutcome_of_value o : AttemptOutcome_of (AttemptOutcome_value o) = Some o.
Proof. by destruct o. Qed.

Lemma QueueMode_of_value m : QueueMode_of (QueueMode_value m) = Some m.
Proof. by destruct m. Qed.

Lemma QueueMode_of_Some s m : QueueMode_of s = Some m → s = "live"%string.
Proof. unfold QueueMode_of. by case_decide. Qed.

Definition TERMINAL_STATES : list MsgState := [DELIVERED; SUPERSEDED; DEAD].

Definition is_terminal (s : MsgState) : bool := bool_decide (s ∈ TERMINAL_STATES).

Lemma is_terminal_spec s :
  is_terminal s = match s with READY | LEASED => false | _ => true end.
Proof. by destruct s. Qed.

(** ** The accounting sets *)

Definition NON_DELIVERY_OUTCOMES : list AttemptOutcome :=
  [VETO_DIALOG; VETO_UNVERIFIED; PANE_ABSENT; WAKE_UNREACHABLE; WAKE_UNRESOLVABLE;
   PASTE_ATTEMPTED; SUBMISSION_UNCERTAIN].

Definition ATTEMPT_BUDGET_OUTCOMES : list AttemptOutcome :=
  [VETO_UNVERIFIED; PANE_ABSENT; WAKE_UNRESOLVABLE; PASTE_ATTEMPTED].

Definition spends_attempt (outcome : option AttemptOutcome) : bool :=
  match outcome with
  | None => true
  | Some o => bool_decide (o ∈ ATTEMPT_BUDGET_OUTCOMES)
  end.

(** ** The carrier's refusals *)

Definition WAKE_UNREACHABLE_REASONS : list string :=
  ["socket_enoent"; "socket_econnrefused"; "socket_eperm"; "socket_einval";
   "socket_path_empty"; "socket_unpublished"; "no_registry_records";
   "pane_pid_failed"; "proc_start_unreadable"]%string.

Definition WAKE_UNRESOLVABLE_REASONS : list string :=
  ["proc_start_mismatch"; "no_descendant_record"; "target_ambiguous";
   "version_out_of_band"; "version_absent"; "version_config_invalid";
   "peer_protocol"; "no_terminal_metadata"; "no_tmux_coordinates"]%string.

Definition WAKE_EMITTED_UNVERIFIED_REASONS : list string :=
  ["wake_unverified"; "socket_timeout"]%string.

Definition WAKE_ANNOTATION_REASONS : list string := ["record_stale"]%string.

Definition WAKE_REASONS : list string :=
  WAKE_UNREACHABLE_REASONS ++ WAKE_UNRESOLVABLE_REASONS
    ++ WAKE_EMITTED_UNVERIFIED_REASONS ++ WAKE_ANNOTATION_REASONS.

Definition _SOCKET_ERRNO_PREFIX : string := "socket_error:".
Definition WAKE_PANE_ABSENT : string := "pane_absent".
Definition WAKE_PASTE_ATTEMPTED : string := "paste_attempted".
Definition WAKE_UNVERIFIED_STREAK : string := "unverified_streak".
Definition UNVERIFIED_STREAK_LEASES : nat := 3.

Record WakeClassification := {
  wc_reason : string;
  wc_outcome : AttemptOutcome;
  wc_emitted : bool;
  wc_annotation : bool;
  wc_finding : bool;
}.

Definition wc_spends_attempt (c : WakeClassification) : bool :=
  spends_attempt (Some (wc_outcome c)).

Definition classify_wake_reason (reason : option string) : WakeClassification :=
  match reason with
  | None => {| wc_reason := ""; wc_outcome := OUT_DELIVERED; wc_emitted := true;
               wc_annotation := false; wc_finding := false |}
  | Some reason =>
    if decide (reason = ""%string) then
      {| wc_reason := ""; wc_outcome := OUT_DELIVERED; wc_emitted := true;
         wc_annotation := false; wc_finding := false |}
    else if decide (reason ∈ WAKE_ANNOTATION_REASONS) then
      {| wc_reason := reason; wc_outcome := OUT_DELIVERED; wc_emitted := true;
         wc_annotation := true; wc_finding := false |}
    else if decide (reason ∈ WAKE_EMITTED_UNVERIFIED_REASONS) then
      {| wc_reason := reason; wc_outcome := EMITTED_UNVERIFIED; wc_emitted := true;
         wc_annotation := false; wc_finding := false |}
    else if decide (reason = WAKE_PANE_ABSENT) then
      {| wc_reason := reason; wc_outcome := PANE_ABSENT; wc_emitted := false;
         wc_annotation := false; wc_finding := false |}
    else if decide (reason = WAKE_PASTE_ATTEMPTED) then
      {| wc_reason := reason; wc_outcome := PASTE_ATTEMPTED; wc_emitted := false;
         wc_annotation := false; wc_finding := true |}
    else if bool_decide (reason ∈ WAKE_UNREACHABLE_REASONS)
         || String.prefix _SOCKET_ERRNO_PREFIX reason then
      {| wc_reason := reason; wc_outcome := WAKE_UNREACHABLE; wc_emitted := false;
         wc_annotation := false; wc_finding := true |}
    else
      {| wc_reason := reason; wc_outcome := WAKE_UNRESOLVABLE; wc_emitted := false;
         wc_annotation := false; wc_finding := true |}
  end.

(** ** The wake's sender and line *)

Definition CARRIER_SEAT_WAKE : string := "seat_wake".
Definition CARRIER_PANE : string := "pane".
Definition DELIVERY_SENDER_ADDRESS : string := "cao-delivery".
Definition SENDER_SUBSTITUTED : string := "sender_substituted".
Definition WAKE_ID_CAP : nat := 10.

Record WakeSender := {
  ws_key : string;
  ws_name : string;
  ws_substituted : bool;
}.

(** [tuple(dict.fromkeys(xs))]: first occurrences, in order. *)
Fixpoint dict_fromkeys (xs : list string) : list string :=
  match xs with
  | [] => []
  | x :: rest => x :: filter (λ y, y ≠ x) (dict_fromkeys rest)
  end.

Definition resolve_wake_sender (senders : list string) (receiver_key : string) : WakeSender :=
  let distinct := dict_fromkeys (filter (λ s, s ≠ ""%string) senders) in
  match distinct with
  | [only] =>
    if decide (only = receiver_key)
    then {| ws_key := DELIVERY_SENDER_ADDRESS; ws_name := "delivery"; ws_substituted := true |}
    else {| ws_key := only; ws_name := only; ws_substituted := false |}
  | [] => {| ws_key := DELIVERY_SENDER_ADDRESS; ws_name := "delivery"; ws_substituted := false |}
  | _ => {| ws_key := DELIVERY_SENDER_ADDRESS;
            ws_name := pretty (length distinct) +:+ " workers"; ws_substituted := false |}
  end.

(** [sep.join(xs)] *)
Fixpoint str_join (sep : string) (xs : list string) : string :=
  match xs with
  | [] => ""
  | [x] => x
  | x :: rest => x +:+ sep +:+ str_join sep rest
  end.

(** The ids a line shows: the first [WAKE_ID_CAP], then one summary item. *)
Definition shown_ids (msg_ids : list string) : list string :=
  take WAKE_ID_CAP msg_ids ++
  (if (WAKE_ID_CAP <? length msg_ids)%nat
   then ["+" +:+ pretty (length msg_ids - WAKE_ID_CAP)%nat +:+ " more"] else []).

Definition build_digest_line (epoch msgs wake : Z) (msg_ids : list string) : string :=
  "[cao] digest epoch=" +:+ pretty epoch +:+ " msgs=" +:+ pretty msgs
    +:+ " wake=" +:+ pretty wake +:+ " ids=" +:+ str_join "," (shown_ids msg_ids)
    +:+ ". Drain: list_messages(epoch=" +:+ pretty epoch +:+ ") -> ack_messages".

(** [":" in s] *)
Fixpoint str_contains (c : ascii) (s : string) : bool :=
  match s with
  | EmptyString => false
  | String d rest => bool_decide (d = c) || str_contains c rest
  end.

Definition is_service_sender (sender_id : option string) : bool :=
  let sender := default "" sender_id in
  if decide (sender = ""%string) then true
  else str_contains ":"%char sender || String.prefix "cao-" sender.

(** ** The deadline *)

Definition compute_dead_by (created_at available_at : Z) (expire_after_s : option Z)
    (max_lifetime_s : Z) : Z :=
  let origin := Z.max created_at available_at in
  let deadline := origin + seconds max_lifetime_s in
  match expire_after_s with
  | Some e => if 0 <? e then Z.min deadline (created_at + seconds e) else deadline
  | None => deadline
  end.

(** ** The rows, as values

    [MsgRow M] is the column list of [delivery_msg]; [M] is how the [mode]
    column is represented: TEXT in the table ([string]), the enum in the model
    object ([QueueMode]).  [AttemptRow] and [DeadLetterRow] do the same for the
    [outcome] and [mode] columns of their tables: those three columns may hold
    a string written by a build whose enum had other members. *)

Record EnqueueDraft := {
  ed_idempotency_key : string;
  ed_receiver_id : string;
  ed_sender_id : string;
  ed_kind : MsgKind;
  ed_payload : string;
  ed_mode : QueueMode;
  ed_max_attempts : Z;
  ed_expire_after_s : option Z;
  ed_supersede_key : option string;
  ed_content_hash : option string;
  ed_park_warm : bool;
  ed_barrier_id : option Z;
  ed_barrier_member_key : option string;
  ed_enqueue_generation : option Z;
  ed_cancel_on_complete : bool;
  ed_is_notice : bool;
  ed_legacy_message_id : option Z;
}.

(** The field constraints pydantic checks when a draft is built. *)
Definition draft_valid (d : EnqueueDraft) : bool :=
  bool_decide (ed_idempotency_key d ≠ ""%string)
  && bool_decide (ed_receiver_id d ≠ ""%string)
  && (1 <=? ed_max_attempts d).

Record MsgRow (Mode : Type) := {
  msg_id : string;
  idempotency_key : string;
  payload_digest : string;
  receiver_id : string;
  sender_id : string;
  kind : MsgKind;
  payload : string;
  state : MsgState;
  mode : Mode;
  claim_id : Z;
  lease_owner : option string;
  lease_expires_at : option Z;
  attempts : Z;
  max_attempts : Z;
  available_at : Z;
  dead_by : Z;
  held_since : option Z;
  expire_after_s : option Z;
  supersede_key : option string;
  content_hash : option string;
  park_warm : bool;
  barrier_id : option Z;
  barrier_member_key : option string;
  enqueue_generation : option Z;
  cancel_on_complete : bool;
  is_notice : bool;
  legacy_message_id : option Z;
  created_at : Z;
  terminated_at : option Z;
}.

Arguments msg_id {Mode} m. Arguments idempotency_key {Mode} m.
Arguments payload_digest {Mode} m. Arguments receiver_id {Mode} m.
Arguments sender_id {Mode} m. Arguments kind {Mode} m. Arguments payload {Mode} m.
Arguments state {Mode} m. Arguments mode {Mode} m. Arguments claim_id {Mode} m.
Arguments lease_owner {Mode} m. Arguments lease_expires_at {Mode} m.
Arguments attempts {Mode} m. Arguments max_attempts {Mode} m.
Arguments available_at {Mode} m. Arguments dead_by {Mode} m.
Arguments held_since {Mode} m. Arguments expire_after_s {Mode} m.
Arguments supersede_key {Mode} m. Arguments content_hash {Mode} m.
Arguments park_warm {Mode} m. Arguments barrier_id {Mode} m.
Arguments barrier_member_key {Mode} m. Arguments enqueue_generation {Mode} m.
Arguments cancel_on_complete {Mode} m. Arguments is_notice {Mode} m.
Arguments legacy_message_id {Mode} m. Arguments created_at {Mode} m.
Arguments terminated_at {Mode} m.

Abbreviation QueueMessage := (MsgRow QueueMode).

Definition qm_terminal {Mode} (m : MsgRow Mode) : bool := is_terminal (state m).

#[export] Instance MsgRow_eq_dec `{EqDecision Mode} : EqDecision (MsgRow Mode).
Proof. solve_decision. Defined.

Record AttemptRow (Outcome : Type) := {
  at_msg_id : string;
  at_claim_id : Z;
  at_carrier : string;
  at_started_at : Z;
  at_outcome : Outcome;
  at_detail : string;
}.

Arguments at_msg_id {Outcome} a. Arguments at_claim_id {Outcome} a.
Arguments at_carrier {Outcome} a. Arguments at_started_at {Outcome} a.
Arguments at_outcome {Outcome} a. Arguments at_detail {Outcome} a.

Abbreviation DeliveryAttempt := (AttemptRow AttemptOutcome).

Record DeadLetterRow (Mode : Type) := {
  dl_msg_id : string;
  dl_idempotency_key : string;
  dl_receiver_id : string;
  dl_payload : string;
  dl_attempts : Z;
  dl_reason : DeadReason;
  dl_mode : Mode;
  dl_died_at : Z;
}.

Arguments dl_msg_id {Mode} d. Arguments dl_idempotency_key {Mode} d.
Arguments dl_receiver_id {Mode} d. Arguments dl_payload {Mode} d.
Arguments dl_attempts {Mode} d. Arguments dl_reason {Mode} d.
Arguments dl_mode {Mode} d. Arguments dl_died_at {Mode} d.

Abbreviation DeadLetter := (DeadLetterRow QueueMode).

Record SeatDigest := {
  sd_receiver_id : string;
  sd_epoch : Z;
  sd_msg_ids : list string;
  sd_built_at : Z;
  sd_consumed_at : option Z;
  sd_consumed_via : option string;
  sd_wake_count : Z;
}.

Definition sd_open (d : SeatDigest) : bool := bool_decide (sd_consumed_at d = None).

Record DeadRow := {
  dr_msg_id : string;
  dr_receiver_id : string;
  dr_sender_id : string;
  dr_reason : DeadReason;
  dr_is_notice : bool;
  dr_attempts : Z;
}.

Record ReclaimResult := {
  rr_reoffered : Z;
  rr_incremented : Z;
  rr_quarantined : Z;
  rr_dead : list DeadRow;
}.

Definition dead_count (r : ReclaimResult) : Z := Z.of_nat (length (rr_dead r)).

Record ReceiverResolution := {
  res_receiver_id : string;
  res_terminal_id : string;
  res_is_supervisor : bool;
  res_pane_present : bool;
  res_display_name : string;
}.

Definition res_live (r : ReceiverResolution) : bool := bool_decide (res_terminal_id r ≠ ""%string).

Record WakeEmission := {
  we_reason : option string;
  we_verified : bool;
  we_annotations : list string;
  we_detail : string;
}.

Record InjectionResult := {
  ij_outcome : AttemptOutcome;
  ij_detail : string;
}.

Record LegacyAdoption := {
  la_legacy_message_id : Z;
  la_msg_id : string;
  la_receiver_id : string;
}.

#[export] Instance AttemptRow_eq_dec `{EqDecision Outcome} : EqDecision (AttemptRow Outcome).
Proof. solve_decision. Defined.
#[export] Instance DeadLetterRow_eq_dec `{EqDecision Mode} : EqDecision (DeadLetterRow Mode).
Proof. solve_decision. Defined.
#[export] Instance SeatDigest_eq_dec : EqDecision SeatDigest.
Proof. solve_decision. Defined.
#[export] Instance DeadRow_eq_dec : EqDecision DeadRow.
Proof. solve_decision. Defined.

(** Evaluation of the pure functions on concrete inputs. *)
Example line_12_ids :
  build_digest_line 3 12 2 (replicate 12 "m"%string)
  = "[cao] digest epoch=3 msgs=12 wake=2 ids=m,m,m,m,m,m,m,m,m,m,+2 more. Drain: list_messages(epoch=3) -> ack_messages"%string.
Proof. vm_compute. reflexivity. Qed.
Example service_watchdog : is_service_sender (Some "watchdog:4ec96674"%string) = true.
Proof. reflexivity. Qed.
Example service_worker : is_service_sender (Some "4ec96674"%string) = false.
Proof. reflexivity. Qed.

(** * What the pure domain guarantees — [core/delivery.py]

    The accounting of outcomes, the wake-reason table, the wake's sender and the
    digest line. *)

(** ** The wake-reason table *)

(** The carrier reported that nothing was refused. *)
Definition reason_emits (reason : string) : Prop :=
  reason = ""%string ∨ reason ∈ WAKE_ANNOTATION_REASONS ∨ reason ∈ WAKE_EMITTED_UNVERIFIED_REASONS.

(** A refusal the transport may get over by itself. *)
Definition reason_unreachable (reason : string) : Prop :=
  reason ∈ WAKE_UNREACHABLE_REASONS ∨ String.prefix _SOCKET_ERRNO_PREFIX reason = true.

(** The wake table is total and coherent: every string the carrier may
    return, known or not, is classified; an emission never spends an attempt
    and never raises the finding; a refusal raises it unless the pane is simply
    absent; and a refusal spends an attempt unless it is one of the transport
    conditions, so an unknown string fails towards the attempt budget. *)
Theorem classify_wake_reason_exact reason :
  let c := classify_wake_reason (Some reason) in
  (wc_emitted c = true ↔ reason_emits reason)
  ∧ (wc_finding c = true ↔ ¬ reason_emits reason ∧ reason ≠ WAKE_PANE_ABSENT)
  ∧ (wc_spends_attempt c = true ↔ ¬ reason_emits reason ∧
       (reason_unreachable reason → reason = WAKE_PANE_ABSENT ∨ reason = WAKE_PASTE_ATTEMPTED))
  ∧ (wc_annotation c = true → wc_emitted c = true ∧ wc_outcome c = OUT_DELIVERED).
Proof.
  unfold classify_wake_reason, reason_emits, reason_unreachable, wc_spends_attempt.
  destruct (decide (reason = ""%string)) as [->|H0]; [split_and!; (split || intros ?); intuition done|].
  destruct (decide (reason ∈ WAKE_ANNOTATION_REASONS)) as [H1|H1];
    [split_and!; (split || intros ?); simpl; intuition done|].
  destruct (decide (reason ∈ WAKE_EMITTED_UNVERIFIED_REASONS)) as [H2|H2];
    [split_and!; (split || intros ?); simpl; intuition done|].
  destruct (decide (reason = WAKE_PANE_ABSENT)) as [->|H3];
    [split_and!; (split || intros ?); simpl; intuition done|].
  destruct (decide (reason = WAKE_PASTE_ATTEMPTED)) as [->|H4];
    [split_and!; (split || intros ?); simpl; intuition done|].
  destruct (bool_decide (reason ∈ WAKE_UNREACHABLE_REASONS)
            || String.prefix _SOCKET_ERRNO_PREFIX reason) eqn:E.
  - rewrite orb_true_iff, bool_decide_eq_true in E.
    split_and!; (split || intros ?); simpl; intuition done.
  - rewrite orb_false_iff, bool_decide_eq_false in E. destruct E as [E1 E2].
    split_and!; (split || intros ?); simpl; rewrite ?E2 in *; intuition done.
Qed.

(** ** The wake's sender *)

Lemma elem_of_dict_fromkeys x xs : x ∈ dict_fromkeys xs ↔ x ∈ xs.
Proof.
  induction xs as [|y xs IH]; simpl; [done|].
  rewrite !elem_of_cons, list_elem_of_filter, IH. destruct (decide (x = y)); tauto.
Qed.

Lemma NoDup_dict_fromkeys xs : NoDup (dict_fromkeys xs).
Proof.
  induction xs as [|y xs IH]; simpl; constructor.
  - rewrite list_elem_of_filter. by intros [? _].
  - by apply NoDup_filter.
Qed.

(** The senders a wake speaks for. *)
Definition named (senders : list string) : list string :=
  dict_fromkeys (filter (λ s, s ≠ ""%string) senders).

Lemma resolve_wake_sender_key senders r :
  r ≠ DELIVERY_SENDER_ADDRESS → ws_key (resolve_wake_sender senders r) ≠ r.
Proof.
  intros Hr. unfold resolve_wake_sender. destruct (dict_fromkeys _) as [|x [|y l]]; simpl;
    [by symmetry| |by symmetry].
  by destruct (decide (x = r)); [symmetry|].
Qed.

(** The sender rule: a wake names the one worker it speaks for; it
    substitutes the delivery address when that worker is the receiver itself,
    and when it speaks for nobody or for several, naming how many; so the
    sender is never the receiver (unless the receiver is that very address). *)
Theorem sender_rule senders r :
  let ws := resolve_wake_sender senders r in
  NoDup (named senders) ∧ (∀ s, s ∈ named senders ↔ s ∈ senders ∧ s ≠ ""%string)
  ∧ (ws_substituted ws = true ↔ named senders = [r])
  ∧ (∀ s, named senders = [s] → s ≠ r → ws_key ws = s ∧ ws_name ws = s)
  ∧ ((length (named senders) ≠ 1)%nat → ws_key ws = DELIVERY_SENDER_ADDRESS)
  ∧ ((1 < length (named senders))%nat →
       ws_name ws = pretty (length (named senders)) +:+ " workers")
  ∧ (r ≠ DELIVERY_SENDER_ADDRESS → ws_key ws ≠ r).
Proof.
  intros ws. split; [apply NoDup_dict_fromkeys|]. split.
  { intros s. unfold named. rewrite elem_of_dict_fromkeys, list_elem_of_filter. tauto. }
  assert (r ≠ DELIVERY_SENDER_ADDRESS → ws_key ws ≠ r) as Hk by apply resolve_wake_sender_key.
  unfold ws, resolve_wake_sender in *. fold (named senders) in *.
  destruct (named senders) as [|x [|y l]]; simpl in *.
  - repeat split; intros; simplify_eq/=; try done; try lia; auto.
  - destruct (decide (x = r)) as [->|Hx]; simpl in *;
      repeat split; intros; simplify_eq/=; try done; try lia; auto.
  - repeat split; intros; simplify_eq/=; try done; try lia; auto.
Qed.

(** ** The digest line *)

Lemma pretty_N_char_not_space d : pretty_N_char d ≠ " "%char.
Proof. unfold pretty_N_char. by repeat case_match. Qed.

Lemma pretty_Z_no_space (x : Z) : no_char " " (pretty x).
Proof. apply pretty_Z_no_char; [done|apply pretty_N_char_not_space]. Qed.

(** No two wakes of an epoch send the same line: the line determines the
    epoch, the number of messages and the wake's ordinal, so a re-emission is
    never byte-identical to the one before it. *)
Theorem digest_line_injective e1 n1 w1 ids1 e2 n2 w2 ids2 :
  build_digest_line e1 n1 w1 ids1 = build_digest_line e2 n2 w2 ids2 →
  e1 = e2 ∧ n1 = n2 ∧ w1 = w2.
Proof.
  unfold build_digest_line. intros H.
  injection H as H.
  apply (split_at_char " ") in H as [He H]; [|apply pretty_Z_no_space..].
  injection H as H. apply (split_at_char " ") in H as [Hn H]; [|apply pretty_Z_no_space..].
  injection H as H. apply (split_at_char " ") in H as [Hw _]; [|apply pretty_Z_no_space..].
  by repeat split; apply (inj pretty).
Qed.

Lemma digest_line_injective_witness :
  let l := build_digest_line 3 2 7 ["a"; "b"]%string in l = l ∧ (3 = 3 ∧ 2 = 2 ∧ 7 = 7)%Z.
Proof.
  split; [reflexivity|].
  exact (digest_line_injective 3 2 7 ["a"; "b"]%string 3 2 7 ["a"; "b"]%string eq_refl).
Defined.
