(* ===== verification/QueueRows.v ===== *)
(** * The queue's tables — [adapters/store/queue.py], [adapters/store/migrator.py]

    The four tables the queue store writes, as lists of rows in rowid order, the
    column assignments its UPDATE statements make, and the conversion of a
    stored row to a model object, which is where a row another build wrote can
    raise. *)

From S2P Require Import Prelude Timing Delivery.

(** ** Rows as stored: enum TEXT columns another build may have written stay TEXT *)

Abbreviation row := (MsgRow string).
Abbreviation attempt_row := (AttemptRow string).
Abbreviation dead_row := (DeadLetterRow string).

(** The legacy [inbox] table shares the file: [None] when it has not been
    created, [Some m] when it has, [m] being [MAX(id)]. *)
Record db := {
  delivery_msg : list row;
  delivery_attempt : list attempt_row;
  delivery_dead : list dead_row;
  seat_digest : list SeatDigest;
  inbox_max_id : option (option Z);
}.

Definition empty_db : db := {|
  delivery_msg := []; delivery_attempt := []; delivery_dead := [];
  seat_digest := []; inbox_max_id := None;
|}.

Definition set_msgs (t : list row) (d : db) : db := {|
  delivery_msg := t; delivery_attempt := delivery_attempt d;
  delivery_dead := delivery_dead d; seat_digest := seat_digest d;
  inbox_max_id := inbox_max_id d |}.
Definition set_attempt_rows (t : list attempt_row) (d : db) : db := {|
  delivery_msg := delivery_msg d; delivery_attempt := t;
  delivery_dead := delivery_dead d; seat_digest := seat_digest d;
  inbox_max_id := inbox_max_id d |}.
Definition set_dead_rows (t : list dead_row) (d : db) : db := {|
  delivery_msg := delivery_msg d; delivery_attempt := delivery_attempt d;
  delivery_dead := t; seat_digest := seat_digest d;
  inbox_max_id := inbox_max_id d |}.
Definition set_digests (t : list SeatDigest) (d : db) : db := {|
  delivery_msg := delivery_msg d; delivery_attempt := delivery_attempt d;
  delivery_dead := delivery_dead d; seat_digest := t;
  inbox_max_id := inbox_max_id d |}.

(** ** Column assignments

    [row_with] rebuilds a row with new values for the columns some statement of
    the store assigns.  The other columns — [dead_by] among them — have no
    setter because no statement names them. *)

Definition row_with {Mode} (r : MsgRow Mode)
    (recv : string) (pay : string) (dig : string) (st : MsgState) (cid : Z) (lo : option string) (le : option Z) (att : Z) (av : Z) (held : option Z) (term : option Z) : MsgRow Mode := {|
  msg_id := msg_id r;
  idempotency_key := idempotency_key r;
  payload_digest := dig;
  receiver_id := recv;
  sender_id := sender_id r;
  kind := kind r;
  payload := pay;
  state := st;
  mode := mode r;
  claim_id := cid;
  lease_owner := lo;
  lease_expires_at := le;
  attempts := att;
  max_attempts := max_attempts r;
  available_at := av;
  dead_by := dead_by r;
  held_since := held;
  expire_after_s := expire_after_s r;
  supersede_key := supersede_key r;
  content_hash := content_hash r;
  park_warm := park_warm r;
  barrier_id := barrier_id r;
  barrier_member_key := barrier_member_key r;
  enqueue_generation := enqueue_generation r;
  cancel_on_complete := cancel_on_complete r;
  is_notice := is_notice r;
  legacy_message_id := legacy_message_id r;
  created_at := created_at r;
  terminated_at := term;
|}.

Definition set_receiver_id {Mode} (v : string) (r : MsgRow Mode) : MsgRow Mode :=
  row_with r v (payload r) (payload_digest r) (state r) (claim_id r) (lease_owner r) (lease_expires_at r) (attempts r) (available_at r) (held_since r) (terminated_at r).
Definition set_payload {Mode} (v : string) (r : MsgRow Mode) : MsgRow Mode :=
  row_with r (receiver_id r) v (payload_digest r) (state r) (claim_id r) (lease_owner r) (lease_expires_at r) (attempts r) (available_at r) (held_since r) (terminated_at r).
Definition set_payload_digest {Mode} (v : string) (r : MsgRow Mode) : MsgRow Mode :=
  row_with r (receiver_id r) (payload r) v (state r) (claim_id r) (lease_owner r) (lease_expires_at r) (attempts r) (available_at r) (held_since r) (terminated_at r).
Definition set_state {Mode} (v : MsgState) (r : MsgRow Mode) : MsgRow Mode :=
  row_with r (receiver_id r) (payload r) (payload_digest r) v (claim_id r) (lease_owner r) (lease_expires_at r) (attempts r) (available_at r) (held_since r) (terminated_at r).
Definition set_claim_id {Mode} (v : Z) (r : MsgRow Mode) : MsgRow Mode :=
  row_with r (receiver_id r) (payload r) (payload_digest r) (state r) v (lease_owner r) (lease_expires_at r) (attempts r) (available_at r) (held_since r) (terminated_at r).
Definition set_lease_owner {Mode} (v : option string) (r : MsgRow Mode) : MsgRow Mode :=
  row_with r (receiver_id r) (payload r) (payload_digest r) (state r) (claim_id r) v (lease_expires_at r) (attempts r) (available_at r) (held_since r) (terminated_at r).
Definition set_lease_expires_at {Mode} (v : option Z) (r : MsgRow Mode) : MsgRow Mode :=
  row_with r (receiver_id r) (payload r) (payload_digest r) (state r) (claim_id r) (lease_owner r) v (attempts r) (available_at r) (held_since r) (terminated_at r).
Definition set_attempts {Mode} (v : Z) (r : MsgRow Mode) : MsgRow Mode :=
  row_with r (receiver_id r) (payload r) (payload_digest r) (state r) (claim_id r) (lease_owner r) (lease_expires_at r) v (available_at r) (held_since r) (terminated_at r).
Definition set_available_at {Mode} (v : Z) (r : MsgRow Mode) : MsgRow Mode :=
  row_with r (receiver_id r) (payload r) (payload_digest r) (state r) (claim_id r) (lease_owner r) (lease_expires_at r) (attempts r) v (held_since r) (terminated_at r).
Definition set_held_since {Mode} (v : option Z) (r : MsgRow Mode) : MsgRow Mode :=
  row_with r (receiver_id r) (payload r) (payload_digest r) (state r) (claim_id r) (lease_owner r) (lease_expires_at r) (attempts r) (available_at r) v (terminated_at r).
Definition set_terminated_at {Mode} (v : option Z) (r : MsgRow Mode) : MsgRow Mode :=
  row_with r (receiver_id r) (payload r) (payload_digest r) (state r) (claim_id r) (lease_owner r) (lease_expires_at r) (attempts r) (available_at r) (held_since r) v.

(** ** From a stored row to a model object

    [QueueMode(row["mode"])] raises [ValueError] on a mode this build does not
    know, and the pydantic model refuses empty identifiers. *)

Definition row_fields_valid (r : row) : bool :=
  bool_decide (msg_id r ≠ ""%string)
  && bool_decide (idempotency_key r ≠ ""%string)
  && bool_decide (receiver_id r ≠ ""%string).

Definition with_mode {A B} (m : B) (r : MsgRow A) : MsgRow B := {|
  msg_id := msg_id r;
  idempotency_key := idempotency_key r;
  payload_digest := payload_digest r;
  receiver_id := receiver_id r;
  sender_id := sender_id r;
  kind := kind r;
  payload := payload r;
  state := state r;
  mode := m;
  claim_id := claim_id r;
  lease_owner := lease_owner r;
  lease_expires_at := lease_expires_at r;
  attempts := attempts r;
  max_attempts := max_attempts r;
  available_at := available_at r;
  dead_by := dead_by r;
  held_since := held_since r;
  expire_after_s := expire_after_s r;
  supersede_key := supersede_key r;
  content_hash := content_hash r;
  park_warm := park_warm r;
  barrier_id := barrier_id r;
  barrier_member_key := barrier_member_key r;
  enqueue_generation := enqueue_generation r;
  cancel_on_complete := cancel_on_complete r;
  is_notice := is_notice r;
  legacy_message_id := legacy_message_id r;
  created_at := created_at r;
  terminated_at := terminated_at r;
|}.

Definition _row_to_message (r : row) : outcome QueueMessage :=
  match QueueMode_of (mode r) with
  | None => Raised (ValueError "QueueMode")
  | Some m =>
    if row_fields_valid r then Returned (with_mode m r)
    else Raised (ValueError "QueueMessage")
  end.

Definition _row_to_digest (d : SeatDigest) : outcome SeatDigest :=
  if bool_decide (sd_receiver_id d ≠ ""%string) && (1 <=? sd_epoch d) && (0 <=? sd_wake_count d)
  then Returned d else Raised (ValueError "SeatDigest").

(** A row [_row_to_message] accepts. *)
Definition readable (r : row) : Prop := mode r = "live"%string ∧ row_fields_valid r = true.

Lemma row_to_message_readable r :
  readable r → _row_to_message r = Returned (with_mode LIVE r).
Proof. intros [Hm Hv]. unfold _row_to_message. by rewrite Hm, Hv. Qed.

Lemma row_to_message_returned r m :
  _row_to_message r = Returned m → readable r ∧ m = with_mode LIVE r.
Proof.
  unfold _row_to_message, readable.
  destruct (QueueMode_of (mode r)) as [[]|] eqn:E; [|done].
  apply QueueMode_of_Some in E. destruct (row_fields_valid r); naive_solver.
Qed.

(** ** SQL conditions *)

Definition has_state (s : MsgState) (r : row) : bool := bool_decide (state r = s).
Definition has_id (i : string) (r : row) : bool := bool_decide (msg_id r = i).
Definition is_live (r : row) : bool := bool_decide (mode r = "live"%string).
Definition undelivered (r : row) : bool := has_state READY r || has_state LEASED r.
Definition for_receiver (i : string) (r : row) : bool := bool_decide (receiver_id r = i).

(** [col < ?], [col <= ?] and [col > ?] on a nullable column: NULL is never true. *)
Definition null_lt (c : option Z) (v : Z) : bool :=
  match c with Some x => x <? v | None => false end.
Definition null_le (c : option Z) (v : Z) : bool :=
  match c with Some x => x <=? v | None => false end.
Definition null_gt (c : option Z) (v : Z) : bool :=
  match c with Some x => v <? x | None => false end.

Definition has_epoch (recv : string) (epoch : Z) (d : SeatDigest) : bool :=
  bool_decide (sd_receiver_id d = recv) && (sd_epoch d =? epoch).
Definition open_for (recv : string) (d : SeatDigest) : bool :=
  bool_decide (sd_receiver_id d = recv) && sd_open d.

(** ** Column assignments of [seat_digest] *)

Definition set_digest_ids (ids : list string) (d : SeatDigest) : SeatDigest := {|
  sd_receiver_id := sd_receiver_id d; sd_epoch := sd_epoch d; sd_msg_ids := ids;
  sd_built_at := sd_built_at d; sd_consumed_at := sd_consumed_at d;
  sd_consumed_via := sd_consumed_via d; sd_wake_count := sd_wake_count d |}.
Definition set_digest_closed (at_ : Z) (via : string) (d : SeatDigest) : SeatDigest := {|
  sd_receiver_id := sd_receiver_id d; sd_epoch := sd_epoch d; sd_msg_ids := sd_msg_ids d;
  sd_built_at := sd_built_at d; sd_consumed_at := Some at_;
  sd_consumed_via := Some via; sd_wake_count := sd_wake_count d |}.
Definition incr_wake_count (d : SeatDigest) : SeatDigest := {|
  sd_receiver_id := sd_receiver_id d; sd_epoch := sd_epoch d; sd_msg_ids := sd_msg_ids d;
  sd_built_at := sd_built_at d; sd_consumed_at := sd_consumed_at d;
  sd_consumed_via := sd_consumed_via d; sd_wake_count := sd_wake_count d + 1 |}.

(** [ORDER BY k DESC LIMIT 1] *)
Fixpoint max_by {A} (k : A → Z) (l : list A) : option A :=
  match l with
  | [] => None
  | x :: rest =>
    match max_by k rest with
    | None => Some x
    | Some y => if k y <=? k x then Some x else Some y
    end
  end.

Lemma max_by_Some {A} (k : A → Z) l x :
  max_by k l = Some x → x ∈ l ∧ ∀ y, y ∈ l → k y <= k x.
Proof.
  revert x. induction l as [|a l IH]; intros x; simpl; [done|].
  destruct (max_by k l) as [b|] eqn:E.
  - destruct (IH b) as [Hb Hmax]; [done|].
    destruct (k b <=? k a) eqn:Hle; intros [= <-].
    + apply Z.leb_le in Hle. split; [left|].
      intros y [->|Hy]%elem_of_cons; [lia|]. specialize (Hmax y Hy). lia.
    + apply Z.leb_gt in Hle. split; [by right|].
      intros y [->|Hy]%elem_of_cons; [lia|]. by apply Hmax.
  - intros [= <-]. destruct l; [|by simpl in E; repeat case_match].
    split; [left|]. intros y [->|Hy]%elem_of_cons; [lia|]. by apply not_elem_of_nil in Hy.
Qed.

Lemma max_by_None {A} (k : A → Z) l : max_by k l = None ↔ l = [].
Proof. destruct l; simpl; [done|]. by repeat case_match. Qed.
