(* ===== verification/QueueStore.v ===== *)
(** * The delivery queue over SQLite — [adapters/store/queue.py]

    One definition per method of [SqliteQueueStore], statement by statement.
    A method is a statement on [db]; [transaction] is [immediate_transaction].
    The clock reading and the ULID a method mints are arguments, and the
    SHA-256 of a payload is a parameter. *)

From S2P Require Import Prelude Timing Delivery QueueRows.

Module SqliteQueueStore.

(** [SELECT .. FROM delivery_msg WHERE msg_id = ?], [fetchone()] *)
Definition fetch_id (i : string) : M db (option row) :=
  gets (λ d, head (select_where (has_id i) (delivery_msg d))).

(** [_row_to_message(cursor.fetchone())]: subscripting [None] is a [TypeError]. *)
Definition message_of (o : option row) : M db QueueMessage :=
  match o with
  | Some r => lift_outcome (_row_to_message r)
  | None => raise (TypeError "_row_to_message")
  end.

Definition update_msgs (p : row → bool) (f : row → row) : M db () :=
  modify (λ d, set_msgs (update_where p f (delivery_msg d)) d).

Definition update_digests (p : SeatDigest → bool) (f : SeatDigest → SeatDigest) : M db () :=
  modify (λ d, set_digests (update_where p f (seat_digest d)) d).

Definition select_msgs (p : row → bool) : M db (list row) :=
  gets (λ d, select_where p (delivery_msg d)).

(** ** enqueue *)

Section Enqueue.
Context (_payload_digest : string → string).

Definition draft_row (now : Z) (new_id : string) (d : EnqueueDraft) : row := {|
  msg_id := new_id;
  idempotency_key := ed_idempotency_key d;
  payload_digest := _payload_digest (ed_payload d);
  receiver_id := ed_receiver_id d;
  sender_id := ed_sender_id d;
  kind := ed_kind d;
  payload := ed_payload d;
  state := READY;
  mode := QueueMode_value (ed_mode d);
  claim_id := 0;
  lease_owner := None;
  lease_expires_at := None;
  attempts := 0;
  max_attempts := ed_max_attempts d;
  available_at := now;
  dead_by := compute_dead_by now now (ed_expire_after_s d) (DELIVERY_MAX_LIFETIME_S shipped);
  held_since := None;
  expire_after_s := ed_expire_after_s d;
  supersede_key := ed_supersede_key d;
  content_hash := ed_content_hash d;
  park_warm := ed_park_warm d;
  barrier_id := ed_barrier_id d;
  barrier_member_key := ed_barrier_member_key d;
  enqueue_generation := ed_enqueue_generation d;
  cancel_on_complete := ed_cancel_on_complete d;
  is_notice := ed_is_notice d;
  legacy_message_id := ed_legacy_message_id d;
  created_at := now;
  terminated_at := None;
|}.

Definition has_key (k : string) (r : row) : bool := bool_decide (idempotency_key r = k).

(** [INSERT .. ON CONFLICT(idempotency_key) DO NOTHING]: a clash of the
    primary key is an [IntegrityError]. *)
Definition insert_msg (r : row) : M db () := λ d,
  if existsb (has_key (idempotency_key r)) (delivery_msg d) then (d, Returned ())
  else if existsb (has_id (msg_id r)) (delivery_msg d)
  then (d, Raised (IntegrityError "delivery_msg.msg_id"))
  else (set_msgs (delivery_msg d ++ [r]) d, Returned ()).

Definition fetch_key (k : string) : M db (option row) :=
  gets (λ d, head (select_where (has_key k) (delivery_msg d))).

Definition enqueue (now : Z) (new_id : string) (draft : EnqueueDraft) : M db QueueMessage :=
  let digest := _payload_digest (ed_payload draft) in
  row ← catch
    (transaction (insert_msg (draft_row now new_id draft) ;;
                  fetch_key (ed_idempotency_key draft)))
    (λ e, match e with
          | IntegrityError w => raise (PersistentEnqueueRejection w)
          | _ => raise e
          end);
  match row with
  | None => raise (RuntimeError "delivery_msg row vanished")
  | Some _ =>
    message ← message_of row;
    if decide (payload_digest message = digest) then mret message
    else raise (IdempotencyConflict (ed_idempotency_key draft))
  end.
End Enqueue.

(** ** claim / ack / reclaim *)

Definition claimable (now : Z) (receiver : option string) (r : row) : bool :=
  has_state READY r && (available_at r <=? now) && is_live r && (now <? dead_by r)
  && match receiver with Some i => for_receiver i r | None => true end.

Definition lease_row (owner : string) (until : Z) (r : row) : row :=
  set_state LEASED (set_claim_id (claim_id r + 1)
    (set_lease_owner (Some owner) (set_lease_expires_at (Some until) r))).

Definition claim (owner : string) (now limit : Z) (receiver : option string)
    : M db (list QueueMessage) :=
  let lease_until := now + seconds (DELIVERY_LEASE_S shipped) in
  transaction (
    candidates ← select_msgs (claimable now receiver);
    for_each (sql_limit limit (order_by available_at msg_id candidates)) []
      (λ claimed r,
        update_msgs (λ x, has_id (msg_id r) x && has_state READY x)
          (lease_row owner lease_until) ;;
        refreshed ← fetch_id (msg_id r);
        m ← message_of refreshed;
        mret (claimed ++ [m]))).

(** The assignments every settling statement makes. *)
Definition settle_row (s : MsgState) (now : Z) (r : row) : row :=
  set_state s (set_terminated_at (Some now) (set_lease_owner None
    (set_lease_expires_at None (set_held_since None r)))).

Definition ack (i : string) (token : Z) (now : Z) : M db bool :=
  let p := λ r, has_id i r && (claim_id r =? token) && has_state LEASED r in
  transaction (
    n ← gets (λ d, rowcount p (delivery_msg d));
    update_msgs p (settle_row DELIVERED now) ;;
    mret (0 <? n)%nat).

Definition _last_outcome_in (i : string) (token : Z) : M db (option AttemptOutcome) :=
  gets (λ d,
    match last (select_where (λ a, bool_decide (at_msg_id a = i) && (at_claim_id a =? token))
                  (delivery_attempt d)) with
    | None => None
    | Some a => AttemptOutcome_of (at_outcome a)
    end).

Definition _quarantine_until {Mode} (m : MsgRow Mode) : Z := dead_by m + seconds 1.

Definition _dead_reason_for {Mode} (m : MsgRow Mode) : DeadReason :=
  if max_attempts m <=? attempts m then MAX_ATTEMPTS
  else match expire_after_s m with
       | Some e => if e <=? DELIVERY_MAX_LIFETIME_S shipped then EXPIRED else MAX_LIFETIME
       | None => MAX_LIFETIME
       end.

Definition _dead_row {Mode} (m : MsgRow Mode) (reason : DeadReason) : DeadRow := {|
  dr_msg_id := msg_id m;
  dr_receiver_id := receiver_id m;
  dr_sender_id := sender_id m;
  dr_reason := reason;
  dr_is_notice := is_notice m;
  dr_attempts := attempts m;
|}.

Definition kill_row (now : Z) (r : row) : row :=
  set_state DEAD (set_terminated_at (Some now) (set_lease_owner None
    (set_lease_expires_at None r))).

Definition dead_letter_of (m : QueueMessage) (reason : DeadReason) (now : Z) : dead_row := {|
  dl_msg_id := msg_id m;
  dl_idempotency_key := idempotency_key m;
  dl_receiver_id := receiver_id m;
  dl_payload := payload m;
  dl_attempts := attempts m;
  dl_reason := reason;
  dl_mode := QueueMode_value (mode m);
  dl_died_at := now;
|}.

(** [INSERT INTO delivery_dead .. ON CONFLICT(msg_id) DO NOTHING] *)
Definition insert_dead (l : dead_row) (t : list dead_row) : list dead_row :=
  if existsb (λ x, bool_decide (dl_msg_id x = dl_msg_id l)) t then t else t ++ [l].

Definition _kill (m : QueueMessage) (reason : DeadReason) (now : Z) : M db () :=
  update_msgs (has_id (msg_id m)) (kill_row now) ;;
  modify (λ d, set_dead_rows (insert_dead (dead_letter_of m reason now) (delivery_dead d)) d).

Definition lease_expired (now : Z) (r : row) : bool :=
  has_state LEASED r && null_lt (lease_expires_at r) now.

Definition release_row (available : Z) (spent : Z) (r : row) : row :=
  set_state READY (set_claim_id (claim_id r + 1) (set_attempts (attempts r + spent)
    (set_available_at available (set_lease_owner None (set_lease_expires_at None r))))).

Definition quarantine_row (until : Z) (r : row) : row :=
  set_state READY (set_claim_id (claim_id r + 1)
    (set_available_at until (set_lease_owner None (set_lease_expires_at None r)))).

Definition held_past_ceiling (now : Z) (r : row) : bool :=
  undelivered r
  && null_le (held_since r) (now - seconds (DELIVERY_VETO_CEILING_S shipped)).

Definition exhausted (now : Z) (r : row) : bool :=
  has_state READY r && ((max_attempts r <=? attempts r) || (dead_by r <=? now)).

Definition reclaim (now : Z) : M db ReclaimResult :=
  let backoff_until := now + seconds (DELIVERY_BACKOFF_S shipped) in
  transaction (
    expired ← select_msgs (lease_expired now);
    counts ← for_each expired (0, 0, 0) (λ '(reoffered, incremented, quarantined) r,
      message ← lift_outcome (_row_to_message r);
      o ← _last_outcome_in (msg_id message) (claim_id message);
      if decide (o = Some SUBMISSION_UNCERTAIN) then
        update_msgs (λ x, has_id (msg_id message) x && has_state LEASED x)
          (quarantine_row (_quarantine_until message)) ;;
        mret (reoffered, incremented, quarantined + 1)
      else
        let spent := if spends_attempt o then 1 else 0 in
        update_msgs (λ x, has_id (msg_id message) x && has_state LEASED x)
          (release_row backoff_until spent) ;;
        mret (reoffered + 1, incremented + spent, quarantined));
    held ← select_msgs (held_past_ceiling now);
    dead ← for_each held [] (λ dead r,
      message ← lift_outcome (_row_to_message r);
      _kill message VETO_CEILING now ;;
      mret (dead ++ [_dead_row message VETO_CEILING]));
    exhausted ← select_msgs (exhausted now);
    dead ← for_each exhausted dead (λ dead r,
      message ← lift_outcome (_row_to_message r);
      let reason := _dead_reason_for message in
      _kill message reason now ;;
      mret (dead ++ [_dead_row message reason]));
    let '(reoffered, incremented, quarantined) := counts in
    mret {| rr_reoffered := reoffered; rr_incremented := incremented;
            rr_quarantined := quarantined; rr_dead := dead |}).

(** ** reads *)

Definition get (i : string) : M db (option QueueMessage) :=
  r ← fetch_id i;
  match r with
  | None => mret None
  | Some _ => m ← message_of r; mret (Some m)
  end.

Definition get_by_idempotency_key (k : string) : M db (option QueueMessage) :=
  r ← fetch_key k;
  match r with
  | None => mret None
  | Some _ => m ← message_of r; mret (Some m)
  end.

Definition with_outcome {A B} (o : B) (a : AttemptRow A) : AttemptRow B := {|
  at_msg_id := at_msg_id a; at_claim_id := at_claim_id a; at_carrier := at_carrier a;
  at_started_at := at_started_at a; at_outcome := o; at_detail := at_detail a |}.

Definition attempt_of_row (a : attempt_row) : outcome DeliveryAttempt :=
  match AttemptOutcome_of (at_outcome a) with
  | Some o => Returned (with_outcome o a)
  | None => Raised (ValueError "AttemptOutcome")
  end.

Definition attempts_for (i : string) : M db (list DeliveryAttempt) :=
  rows ← gets (λ d, order_by at_claim_id at_carrier
    (select_where (λ a, bool_decide (at_msg_id a = i)) (delivery_attempt d)));
  for_each rows [] (λ acc a, m ← lift_outcome (attempt_of_row a); mret (acc ++ [m])).

Definition dead_letter (i : string) : M db (option DeadLetter) :=
  r ← gets (λ d, head (select_where (λ l, bool_decide (dl_msg_id l = i)) (delivery_dead d)));
  match r with
  | None => mret None
  | Some l =>
    match QueueMode_of (dl_mode l) with
    | None => raise (ValueError "QueueMode")
    | Some m =>
      if decide (dl_msg_id l = ""%string) then raise (ValueError "DeadLetter") else
      mret (Some {| dl_msg_id := dl_msg_id l; dl_idempotency_key := dl_idempotency_key l;
        dl_receiver_id := dl_receiver_id l; dl_payload := dl_payload l;
        dl_attempts := dl_attempts l; dl_reason := dl_reason l; dl_mode := m;
        dl_died_at := dl_died_at l |})
    end
  end.

Definition mode_is (m : option QueueMode) (r : row) : bool :=
  match m with None => true | Some m => bool_decide (mode r = QueueMode_value m) end.

Definition all_rows (m : option QueueMode) : M db (list QueueMessage) :=
  rows ← gets (λ d, order_by (λ _, 0) msg_id (select_where (mode_is m) (delivery_msg d)));
  for_each rows [] (λ acc r, x ← lift_outcome (_row_to_message r); mret (acc ++ [x])).

Definition count (m : option QueueMode) : M db Z :=
  gets (λ d, Z.of_nat (rowcount (mode_is m) (delivery_msg d))).

(** ** writes *)

(** The primary key of [delivery_attempt]. *)
Definition same_attempt {A B} (a : AttemptRow A) (b : AttemptRow B) : bool :=
  bool_decide (at_msg_id a = at_msg_id b) && (at_claim_id a =? at_claim_id b)
  && bool_decide (at_carrier a = at_carrier b).

Definition record_attempt (a : DeliveryAttempt) : M db () :=
  modify (λ d,
    if existsb (same_attempt a) (delivery_attempt d) then d
    else set_attempt_rows
           (delivery_attempt d ++ [with_outcome (AttemptOutcome_value (at_outcome a)) a]) d).

Definition settle (i : string) (s : MsgState) (now : Z) (reason : option DeadReason)
    (new_attempts : option Z) : M db bool :=
  if negb (is_terminal s) then raise (ValueError "settle() takes a terminal state") else
  if bool_decide (s = DEAD) && bool_decide (reason = None)
  then raise (ValueError "a dead row needs a reason") else
  transaction (
    row ← fetch_id i;
    match row with
    | None => mret false
    | Some _ =>
      message ← message_of row;
      if qm_terminal message then mret false else
      message ← match new_attempts with
                | Some n => update_msgs (has_id i) (set_attempts n) ;; mret (set_attempts n message)
                | None => mret message
                end;
      match s, reason with
      | DEAD, Some reason => _kill message reason now
      | DEAD, None => raise AssertionError
      | _, _ => update_msgs (has_id i) (settle_row s now)
      end ;;
      mret true
    end).

Definition mark_dialog_hold (i : string) (held : option Z) : M db () :=
  update_msgs (has_id i) (set_held_since held).

(** ** the digest *)

Definition _open_digest_in (recv : string) : M db (option SeatDigest) :=
  d ← gets (λ d, max_by sd_epoch (select_where (open_for recv) (seat_digest d)));
  match d with
  | None => mret None
  | Some x => x ← lift_outcome (_row_to_digest x); mret (Some x)
  end.

Definition open_digest (recv : string) : M db (option SeatDigest) := _open_digest_in recv.

Definition _next_epoch_in (recv : string) : M db Z :=
  gets (λ d,
    match max_by sd_epoch
            (select_where (λ x, bool_decide (sd_receiver_id x = recv)) (seat_digest d)) with
    | None => 0 + 1
    | Some x => sd_epoch x + 1
    end).

Definition fresh_digest (recv : string) (epoch : Z) (ids : list string) (now : Z) : SeatDigest := {|
  sd_receiver_id := recv; sd_epoch := epoch; sd_msg_ids := ids; sd_built_at := now;
  sd_consumed_at := None; sd_consumed_via := None; sd_wake_count := 0 |}.

(** [INSERT INTO seat_digest]: a clash of the primary key is an [IntegrityError]. *)
Definition insert_digest (x : SeatDigest) : M db () := λ d,
  if existsb (has_epoch (sd_receiver_id x) (sd_epoch x)) (seat_digest d)
  then (d, Raised (IntegrityError "seat_digest"))
  else (set_digests (seat_digest d ++ [x]) d, Returned ()).

Definition str_mem (i : string) (ids : list string) : bool := bool_decide (i ∈ ids).

Definition reparent (_payload_digest : string → string)
    (i new_receiver : string) (now : Z) (message_prefix : string) : M db bool :=
  transaction (
    row ← fetch_id i;
    match row with
    | None => mret false
    | Some _ =>
      message ← message_of row;
      if qm_terminal message then mret false else
      let old_receiver := receiver_id message in
      if decide (old_receiver = new_receiver) then mret false else
      let payload' := if decide (message_prefix = ""%string) then payload message
                      else message_prefix +:+ payload message in
      update_msgs (has_id i) (λ r,
        set_receiver_id new_receiver (set_payload payload'
          (set_payload_digest (_payload_digest payload') r))) ;;
      old ← _open_digest_in old_receiver;
      match old with
      | Some old =>
        if str_mem i (sd_msg_ids old) then
          let remaining := filter (λ m, m ≠ i) (sd_msg_ids old) in
          match remaining with
          | [] => update_digests (has_epoch (sd_receiver_id old) (sd_epoch old))
                    (λ x, set_digest_closed now "abandoned" (set_digest_ids [] x))
          | _ => update_digests (has_epoch (sd_receiver_id old) (sd_epoch old))
                   (set_digest_ids remaining)
          end
        else mret ()
      | None => mret ()
      end ;;
      new ← _open_digest_in new_receiver;
      match new with
      | None =>
        next_epoch ← _next_epoch_in new_receiver;
        insert_digest (fresh_digest new_receiver next_epoch [i] now)
      | Some new =>
        if str_mem i (sd_msg_ids new) then mret ()
        else update_digests (has_epoch (sd_receiver_id new) (sd_epoch new))
               (set_digest_ids (sd_msg_ids new ++ [i]))
      end ;;
      mret true
    end).

Definition build_digest (recv : string) (ids : list string) (now : Z) : M db SeatDigest :=
  transaction (
    epoch ← _next_epoch_in recv;
    insert_digest (fresh_digest recv epoch ids now)) ;;
  digest ← open_digest recv;
  match digest with
  | Some d => mret d
  | None => raise AssertionError
  end.

Definition fetch_epoch (p : SeatDigest → bool) : M db (option SeatDigest) :=
  gets (λ d, head (select_where p (seat_digest d))).

Definition digest_at (recv : string) (epoch : Z) : M db (option SeatDigest) :=
  row ← fetch_epoch (has_epoch recv epoch);
  match row with
  | None => mret None
  | Some x => x ← lift_outcome (_row_to_digest x); mret (Some x)
  end.

Definition extend_digest (recv : string) (epoch : Z) (ids : list string) (now : Z)
    : M db (option SeatDigest) :=
  transaction (
    row ← fetch_epoch (λ x, has_epoch recv epoch x && sd_open x);
    match row with
    | None => mret None
    | Some x =>
      digest ← lift_outcome (_row_to_digest x);
      let fresh := filter (λ m, m ∉ sd_msg_ids digest) ids in
      match fresh with
      | [] => mret (Some digest)
      | _ =>
        let merged := sd_msg_ids digest ++ fresh in
        update_digests (has_epoch recv epoch) (set_digest_ids merged) ;;
        mret (Some (set_digest_ids merged digest))
      end
    end).

Definition bump_wake_count (recv : string) (epoch : Z) (now : Z) : M db Z :=
  let p := λ x, has_epoch recv epoch x && sd_open x in
  transaction (
    n ← gets (λ d, rowcount p (seat_digest d));
    update_digests p incr_wake_count ;;
    if (n =? 0)%nat then mret 0 else
    row ← fetch_epoch (has_epoch recv epoch);
    mret (match row with None => 0 | Some x => sd_wake_count x end)).

Definition close_digest (recv : string) (epoch : Z) (via : string) (now : Z) : M db bool :=
  let p := λ x, has_epoch recv epoch x && sd_open x in
  transaction (
    n ← gets (λ d, rowcount p (seat_digest d));
    update_digests p (set_digest_closed now via) ;;
    mret (0 <? n)%nat).

(** [ORDER BY built_at, receiver_id, epoch] *)
Definition digest_le (a b : SeatDigest) : Prop :=
  sd_built_at a < sd_built_at b ∨ (sd_built_at a = sd_built_at b ∧
    (text_le (sd_receiver_id a) (sd_receiver_id b) ∧
     (sd_receiver_id a = sd_receiver_id b → sd_epoch a <= sd_epoch b))).
#[export] Instance digest_le_dec a b : Decision (digest_le a b).
Proof. unfold digest_le. apply _. Defined.

Definition open_digests : M db (list SeatDigest) :=
  rows ← gets (λ d, merge_sort digest_le (select_where sd_open (seat_digest d)));
  for_each rows [] (λ acc x, x ← lift_outcome (_row_to_digest x); mret (acc ++ [x])).

(** ** receivers and their messages *)

Definition live_undelivered (r : row) : bool := undelivered r && is_live r.

(** [SELECT receiver_id, MIN(created_at) .. GROUP BY receiver_id] *)
Definition first_at (recv : string) (t : list row) : Z :=
  match created_at <$> select_where (for_receiver recv) t with
  | [] => 0
  | x :: rest => foldr Z.min x rest
  end.

Definition ready_receivers : M db (list string) :=
  gets (λ d,
    let t := select_where live_undelivered (delivery_msg d) in
    order_by (λ i, first_at i t) (λ i, i) (dict_fromkeys (receiver_id <$> t))).

Definition undelivered_ids (recv : string) : M db (list string) :=
  gets (λ d, msg_id <$> order_by created_at msg_id
    (select_where (λ r, for_receiver recv r && live_undelivered r) (delivery_msg d))).

Definition senders_of (ids : list string) : M db (list string) :=
  match ids with
  | [] => mret []
  | _ => gets (λ d, sender_id <$> order_by created_at msg_id
           (select_where (λ r, str_mem (msg_id r) ids) (delivery_msg d)))
  end.

Definition all_terminal (ids : list string) : M db bool :=
  match ids with
  | [] => mret true
  | _ => gets (λ d, (rowcount (λ r, str_mem (msg_id r) ids && negb (is_terminal (state r)))
                       (delivery_msg d) =? 0)%nat)
  end.

Definition cancel_on_complete (recv : string) (now : Z) : M db (list string) :=
  transaction (
    rows ← select_msgs (λ r, for_receiver recv r && has_state READY r
                             && Delivery.cancel_on_complete r && is_live r);
    for_each rows [] (λ cancelled r,
      update_msgs (λ x, has_id (msg_id r) x && has_state READY x) (settle_row SUPERSEDED now) ;;
      mret (cancelled ++ [msg_id r]))).

(** [SELECT MAX(legacy_message_id)], SQL's MAX over the non-NULL values. *)
Definition max_legacy (t : list row) : option Z :=
  match omap legacy_message_id t with
  | [] => None
  | x :: rest => Some (foldr Z.max x rest)
  end.

Definition next_surrogate_id : M db Z :=
  gets (λ d,
    let high := match max_legacy (delivery_msg d) with Some v => v | None => 0 end in
    let high := match inbox_max_id d with
                | Some (Some v) => Z.max high v
                | _ => high
                end in
    high + 1).

Definition duplicate_of (sender recv hash : string) (cutoff : Z) (r : row) : bool :=
  bool_decide (sender_id r = sender) && for_receiver recv r
  && bool_decide (content_hash r = Some hash) && (cutoff <=? created_at r)
  && negb (park_warm r) && bool_decide (barrier_id r = None).

Definition find_recent_duplicate (sender recv hash : string) (window_s now : Z)
    (park : bool) (barrier : option Z) : M db (option QueueMessage) :=
  if park || bool_decide (barrier ≠ None) || bool_decide (hash = ""%string) then mret None else
  let cutoff := now - seconds window_s in
  row ← gets (λ d, max_by created_at
          (select_where (duplicate_of sender recv hash cutoff) (delivery_msg d)));
  match row with
  | None => mret None
  | Some _ => m ← message_of row; mret (Some m)
  end.

Definition pending_for_receiver (recv : string) (after_id limit : Z) : M db (list QueueMessage) :=
  rows ← gets (λ d, sql_limit limit
    (order_by (λ r, default 0 (legacy_message_id r)) (λ _, ""%string)
      (select_where (λ r, for_receiver recv r && live_undelivered r
                          && null_gt (legacy_message_id r) after_id) (delivery_msg d))));
  for_each rows [] (λ acc r, x ← lift_outcome (_row_to_message r); mret (acc ++ [x])).

Definition settles_through (recv : string) (up_to_id : Z) (r : row) : bool :=
  for_receiver recv r && is_live r && null_le (legacy_message_id r) up_to_id
  && negb (is_terminal (state r)).

Definition settle_through (recv : string) (up_to_id now : Z) : M db (list string) :=
  transaction (
    rows ← select_msgs (settles_through recv up_to_id);
    for_each rows [] (λ settled r,
      update_msgs (has_id (msg_id r)) (settle_row DELIVERED now) ;;
      mret (settled ++ [msg_id r]))).

(** ** retention *)

Definition delete_message (i : string) (d : db) : db :=
  {| delivery_msg := delete_where (has_id i) (delivery_msg d);
     delivery_attempt := delete_where (λ a, bool_decide (at_msg_id a = i)) (delivery_attempt d);
     delivery_dead := delete_where (λ l, bool_decide (dl_msg_id l = i)) (delivery_dead d);
     seat_digest := seat_digest d;
     inbox_max_id := inbox_max_id d |}.

Definition prune (now : Z) (protected : list string) : M db Z :=
  let horizon := now - days (DELIVERY_RETENTION_DAYS shipped) in
  transaction (
    rows ← select_msgs (λ r, null_lt (terminated_at r) horizon);
    removed ← for_each rows 0 (λ removed r,
      if str_mem (msg_id r) protected then mret removed
      else modify (delete_message (msg_id r)) ;; mret (removed + 1));
    digests ← gets (λ d, select_where (λ x, null_lt (sd_consumed_at x) horizon) (seat_digest d));
    for_each digests removed (λ removed x,
      if existsb (λ i, str_mem i protected) (sd_msg_ids x) then mret removed
      else modify (λ d, set_digests
             (delete_where (has_epoch (sd_receiver_id x) (sd_epoch x)) (seat_digest d)) d) ;;
           mret (removed + 1))).

End SqliteQueueStore.
