(* ===== verification/QueueLoops.v ===== *)
(** * What the store's loops compute

    Each multi-row method of the store selects a snapshot and then issues one
    UPDATE per selected row.  The lemmas of this file replace the loop by one
    function applied to every row of the table, and say exactly when the method
    raises instead: when a row it must convert is not readable by this build. *)

From S2P Require Import Prelude Timing Delivery QueueRows QueueStore.
Import SqliteQueueStore.

#[export] Instance readable_dec r : Decision (readable r).
Proof. unfold readable. apply _. Defined.

Lemma row_to_message_ko r : ¬ readable r → ∃ e, _row_to_message r = Raised e.
Proof.
  intros H. destruct (_row_to_message r) as [m|e] eqn:E; [|by eexists].
  by apply row_to_message_returned in E as [? _].
Qed.

(** ** Single statements *)

Lemma set_msgs_same d : set_msgs (delivery_msg d) d = d.
Proof. by destruct d. Qed.

Lemma fold_set_msgs (F : row → list row → list row) sel d :
  fold_upd (λ r d, set_msgs (F r (delivery_msg d)) d) sel d
  = set_msgs (foldl (λ t r, F r t) (delivery_msg d) sel) d.
Proof.
  unfold fold_upd. revert d. induction sel as [|r sel IH]; intros d; simpl.
  - by rewrite set_msgs_same.
  - by rewrite IH.
Qed.

Lemma has_id_spec i r : has_id i r = true ↔ msg_id r = i.
Proof. unfold has_id. apply bool_decide_eq_true. Qed.

Lemma has_state_spec s r : has_state s r = true ↔ state r = s.
Proof. unfold has_state. apply bool_decide_eq_true. Qed.

(** The row with a given id, in a table without duplicate ids. *)
Lemma select_id_unique (t : list row) r :
  NoDup (msg_id <$> t) → r ∈ t → select_where (has_id (msg_id r)) t = [r].
Proof.
  intros Hnd Hin. induction t as [|x t IH]; [by apply not_elem_of_nil in Hin|].
  apply NoDup_cons in Hnd as [Hx Hnd]. unfold select_where in *.
  apply elem_of_cons in Hin as [->|Hin].
  - rewrite filter_cons_True by (by apply has_id_spec). f_equal.
    apply filter_none. intros y Hy Hyid%has_id_spec. apply Hx. rewrite <- Hyid.
    by apply list_elem_of_fmap_2.
  - rewrite filter_cons_False; [by apply IH|].
    intros Hid%has_id_spec. apply Hx. rewrite Hid. by apply list_elem_of_fmap_2.
Qed.

Lemma select_id_None (t : list row) i : (∀ r, r ∈ t → msg_id r ≠ i) → select_where (has_id i) t = [].
Proof. intros H. apply filter_none. intros r Hr Hid%has_id_spec. by apply (H r). Qed.

Lemma fetch_id_in d r :
  NoDup (msg_id <$> delivery_msg d) → r ∈ delivery_msg d →
  fetch_id (msg_id r) d = (d, Returned (Some r)).
Proof. intros Hnd Hin. unfold fetch_id, gets. by rewrite select_id_unique. Qed.

(** An UPDATE that keeps ids keeps the key constraint. *)
Lemma fmap_ids (f : row → row) (t : list row) :
  (∀ r, msg_id (f r) = msg_id r) → msg_id <$> (f <$> t) = msg_id <$> t.
Proof. intros H. rewrite <- list_fmap_compose. apply list_fmap_ext. intros ? ? _. apply H. Qed.

Lemma update_where_ids p (f : row → row) t :
  (∀ r, msg_id (f r) = msg_id r) → msg_id <$> update_where p f t = msg_id <$> t.
Proof. intros H. apply fmap_ids. intros r. by destruct (p r). Qed.

Lemma update_where_elem_ne i q (f : row → row) t r :
  r ∈ t → msg_id r ≠ i → r ∈ update_where (λ x, has_id i x && q x) f t.
Proof.
  intros Hin Hne. unfold update_where. apply list_elem_of_fmap. exists r.
  unfold has_id. by rewrite bool_decide_eq_false_2.
Qed.

Lemma update_where_elem_eq i q (f : row → row) t r :
  r ∈ t → msg_id r = i → q r = true → f r ∈ update_where (λ x, has_id i x && q x) f t.
Proof.
  intros Hin Hid Hq. unfold update_where. apply list_elem_of_fmap. exists r.
  unfold has_id. by rewrite bool_decide_eq_true_2, Hq.
Qed.

(** ** The state a loop of single-row statements runs in *)

Definition pending_rows (q : row → bool) (xs t : list row) : Prop :=
  NoDup (msg_id <$> t) ∧ NoDup (msg_id <$> xs) ∧ ∀ r, r ∈ xs → r ∈ t ∧ q r = true.

Lemma pending_rows_step q x xs t f :
  (∀ r, msg_id (f r) = msg_id r) →
  pending_rows q (x :: xs) t →
  pending_rows q xs (update_where (λ y, has_id (msg_id x) y && q y) f t).
Proof.
  intros Hf (Ht & [Hx Hxs]%NoDup_cons & Hin). split_and!; [|done|].
  - by rewrite update_where_ids.
  - intros r Hr. destruct (Hin r) as [Hrt Hq]; [by right|]. split; [|done].
    apply update_where_elem_ne; [done|]. intros He. apply Hx. rewrite <- He.
    by apply list_elem_of_fmap_2.
Qed.

Lemma pending_rows_select q p t sel :
  NoDup (msg_id <$> t) → sel `sublist_of` select_where p t →
  (∀ r, p r = true → q r = true) → pending_rows q sel t.
Proof.
  intros Hnd Hsub Hpq. split_and!; [done| |].
  - eapply NoDup_key_sublist; [exact Hnd|]. etrans; [exact Hsub|apply select_where_sublist].
  - intros r Hr. assert (r ∈ select_where p t) as [? ?]%elem_of_select.
    { by eapply sublist_subseteq. }
    auto.
Qed.

Lemma pending_rows_perm q t xs ys : xs ≡ₚ ys → pending_rows q ys t → pending_rows q xs t.
Proof. intros Hp (? & ? & H). split_and!; [done|by rewrite Hp|]. intros r. rewrite Hp. apply H. Qed.

Lemma update_each_pending q g sel t :
  (∀ r x, msg_id (g r x) = msg_id x) → pending_rows q sel t →
  update_each msg_id q g sel t = (λ x, if bool_decide (x ∈ sel) then g x x else x) <$> t.
Proof.
  intros Hg (Ht & Hs & Hin). rewrite update_each_map; auto.
  - apply list_fmap_ext. intros i x _. case_bool_decide as Hx; simpl; [|done].
    by destruct (Hin x Hx) as [_ ->].
  - intros r Hr. by apply Hin.
Qed.

(** ** claim *)

Definition claim_selection (now limit : Z) (receiver : option string) (d : db) : list row :=
  sql_limit limit (order_by available_at msg_id
    (select_where (claimable now receiver) (delivery_msg d))).

Definition lease_until (now : Z) : Z := now + seconds (DELIVERY_LEASE_S shipped).

Lemma claim_selection_elem now limit receiver d r :
  r ∈ claim_selection now limit receiver d →
  r ∈ delivery_msg d ∧ claimable now receiver r = true.
Proof.
  intros H%elem_of_sql_limit%elem_of_order_by%elem_of_select. tauto.
Qed.

Lemma claimable_ready now receiver r :
  claimable now receiver r = true →
  state r = READY ∧ available_at r <= now ∧ mode r = "live"%string ∧ now < dead_by r.
Proof.
  unfold claimable, is_live. rewrite !andb_true_iff, has_state_spec, bool_decide_eq_true, Z.leb_le, Z.ltb_lt.
  tauto.
Qed.

Lemma claim_pending now limit receiver d :
  NoDup (msg_id <$> delivery_msg d) →
  pending_rows (has_state READY) (claim_selection now limit receiver d) (delivery_msg d).
Proof.
  intros Hnd. split_and!; [done| |].
  - eapply NoDup_key_sublist; [|apply sql_limit_sublist].
    eapply NoDup_key_perm; [|apply order_by_perm].
    eapply NoDup_key_sublist; [exact Hnd|apply select_where_sublist].
  - intros r [Hin Hc]%claim_selection_elem. split; [done|].
    by apply has_state_spec; apply claimable_ready in Hc as [? _].
Qed.

Section Claim.
Context (owner : string) (now : Z).

Let upd (r : row) (d : db) : db :=
  set_msgs (update_where (λ x, has_id (msg_id r) x && has_state READY x)
              (lease_row owner (lease_until now)) (delivery_msg d)) d.

Lemma claim_body_ok r xs (claimed : list QueueMessage) d :
  pending_rows (has_state READY) (r :: xs) (delivery_msg d) →
  let body := (update_msgs (λ x, has_id (msg_id r) x && has_state READY x)
                 (lease_row owner (lease_until now)) ;;
               refreshed ← fetch_id (msg_id r);
               m ← message_of refreshed;
               mret (claimed ++ [m])) in
  (readable r →
     body d = (upd r d, Returned (claimed ++ [with_mode LIVE (lease_row owner (lease_until now) r)]))
     ∧ pending_rows (has_state READY) xs (delivery_msg (upd r d)))
  ∧ (¬ readable r → ∃ s' e, body d = (s', Raised e)).
Proof.
  intros HP body. destruct (proj2 (proj2 HP) r) as [Hin Hq]; [left|].
  assert (fetch_id (msg_id r) (upd r d)
          = (upd r d, Returned (Some (lease_row owner (lease_until now) r)))) as Hf.
  { change (msg_id r) with (msg_id (lease_row owner (lease_until now) r)) at 1.
    apply fetch_id_in; simpl.
    - rewrite update_where_ids by done. apply HP.
    - by apply update_where_elem_eq. }
  split.
  - intros Hr. split.
    + unfold body. unfold mbind, M_bind, update_msgs, modify.
      fold (upd r d). rewrite Hf. simpl. unfold lift_outcome.
      by rewrite row_to_message_readable.
    + simpl. by apply pending_rows_step.
  - intros Hr. destruct (row_to_message_ko (lease_row owner (lease_until now) r)) as [e He].
    { intros [? ?]. by apply Hr. }
    exists (upd r d), e. unfold body, mbind, M_bind, update_msgs, modify.
    fold (upd r d). rewrite Hf. simpl. unfold lift_outcome. by rewrite He.
Qed.

Lemma claim_returned limit receiver d :
  NoDup (msg_id <$> delivery_msg d) →
  Forall readable (claim_selection now limit receiver d) →
  claim owner now limit receiver d
  = (set_msgs ((λ r, if bool_decide (r ∈ claim_selection now limit receiver d)
                     then lease_row owner (lease_until now) r else r) <$> delivery_msg d) d,
     Returned ((λ r, with_mode LIVE (lease_row owner (lease_until now) r))
                 <$> claim_selection now limit receiver d)).
Proof.
  intros Hnd Hall. unfold claim, transaction, select_msgs, gets, mbind at 1, M_bind.
  fold (claim_selection now limit receiver d) (lease_until now).
  erewrite (for_each_ok _ readable upd
    (λ claimed r, claimed ++ [with_mode LIVE (lease_row owner (lease_until now) r)])
    (λ xs d, pending_rows (has_state READY) xs (delivery_msg d))); cycle 1.
  - intros r xs acc s HP Hr. by apply claim_body_ok.
  - by apply claim_pending.
  - done.
  - unfold upd. rewrite (fold_set_msgs (λ r, update_where
      (λ x, has_id (msg_id r) x && has_state READY x) (lease_row owner (lease_until now)))).
    do 2 f_equal.
    + change (foldl _ _ _) with
        (update_each msg_id (has_state READY) (λ _, lease_row owner (lease_until now))
           (claim_selection now limit receiver d) (delivery_msg d)).
      rewrite update_each_pending; [done|done|]. by apply claim_pending.
    + by rewrite foldl_snoc.
Qed.

Lemma claim_raised limit receiver d :
  NoDup (msg_id <$> delivery_msg d) →
  ¬ Forall readable (claim_selection now limit receiver d) →
  ∃ e, claim owner now limit receiver d = (d, Raised e).
Proof.
  intros Hnd Hall. unfold claim, transaction, select_msgs, gets, mbind at 1, M_bind.
  fold (claim_selection now limit receiver d) (lease_until now).
  edestruct (for_each_ko (λ (claimed : list QueueMessage) r,
      update_msgs (λ x, has_id (msg_id r) x && has_state READY x)
        (lease_row owner (lease_until now)) ;;
      refreshed ← fetch_id (msg_id r);
      m ← message_of refreshed;
      mret (claimed ++ [m])) readable upd
    (λ claimed r, claimed ++ [with_mode LIVE (lease_row owner (lease_until now) r)])
    (λ xs d, pending_rows (has_state READY) xs (delivery_msg d))) as (s' & e & He).
  - intros r xs acc s HP Hr. by apply claim_body_ok.
  - intros r xs acc s HP Hr. by eapply claim_body_ok.
  - apply _.
  - by apply (claim_pending now limit receiver).
  - exact Hall.
  - exists e. by erewrite He.
Qed.
End Claim.

(** ** reclaim *)

(** The outcome recorded for the claim a row is on. *)
Definition last_outcome {Mode} (A : list attempt_row) (r : MsgRow Mode) : option AttemptOutcome :=
  match last (select_where (λ a, bool_decide (at_msg_id a = msg_id r)
                                 && (at_claim_id a =? claim_id r)) A) with
  | None => None
  | Some a => AttemptOutcome_of (at_outcome a)
  end.

Definition uncertain (A : list attempt_row) (r : row) : bool :=
  bool_decide (last_outcome A r = Some SUBMISSION_UNCERTAIN).

Definition spent_by (A : list attempt_row) (r : row) : Z :=
  if spends_attempt (last_outcome A r) then 1 else 0.

Definition backoff_until (now : Z) : Z := now + seconds (DELIVERY_BACKOFF_S shipped).

(** What the three passes of [reclaim] do to one row. *)
Definition released (now : Z) (A : list attempt_row) (r : row) : row :=
  if uncertain A r then quarantine_row (_quarantine_until r) r
  else release_row (backoff_until now) (spent_by A r) r.
Definition release_pass (now : Z) (A : list attempt_row) (r : row) : row :=
  if lease_expired now r then released now A r else r.
Definition veto_pass (now : Z) (r : row) : row :=
  if held_past_ceiling now r then kill_row now r else r.
Definition exhaust_pass (now : Z) (r : row) : row :=
  if exhausted now r then kill_row now r else r.
Definition reclaim_row (now : Z) (A : list attempt_row) (r : row) : row :=
  exhaust_pass now (veto_pass now (release_pass now A r)).

(** The rows [reclaim] converts to a model object. *)
Definition reclaim_reads (now : Z) (A : list attempt_row) (r : row) : bool :=
  lease_expired now r || held_past_ceiling now (release_pass now A r)
  || exhausted now (veto_pass now (release_pass now A r)).

(** Why a row dies in this [reclaim], if it dies. *)
Definition reclaim_fate (now : Z) (A : list attempt_row) (r : row) : option DeadReason :=
  let r1 := release_pass now A r in
  if held_past_ceiling now r1 then Some VETO_CEILING
  else if exhausted now r1 then Some (_dead_reason_for r1) else None.

Lemma reclaim_row_fate now A r :
  reclaim_row now A r
  = match reclaim_fate now A r with
    | Some _ => kill_row now (release_pass now A r)
    | None => release_pass now A r
    end.
Proof.
  unfold reclaim_row, reclaim_fate, veto_pass, exhaust_pass. simpl.
  destruct (held_past_ceiling now _); [done|]. by destruct (exhausted now _).
Qed.

(** What [reclaim] reports of a row, and the letter it leaves. *)
Definition reclaim_death (now : Z) (A : list attempt_row) (r : row) : option DeadRow :=
  _dead_row (release_pass now A r) <$> reclaim_fate now A r.
Definition reclaim_letter (now : Z) (A : list attempt_row) (r : row) : option dead_row :=
  (λ reason, dead_letter_of (with_mode LIVE (release_pass now A r)) reason now)
    <$> reclaim_fate now A r.

Lemma release_pass_same now A r :
  msg_id (release_pass now A r) = msg_id r ∧ (readable (release_pass now A r) ↔ readable r).
Proof. unfold release_pass, released. by repeat case_match. Qed.

Lemma veto_pass_same now r :
  msg_id (veto_pass now r) = msg_id r ∧ (readable (veto_pass now r) ↔ readable r).
Proof. unfold veto_pass. by case_match. Qed.

Section ReleasePass.
Context (now : Z).

Definition release_counts (A : list attempt_row) (c : Z * Z * Z) (r : row) : Z * Z * Z :=
  let '(reoffered, incremented, quarantined) := c in
  if uncertain A r then (reoffered, incremented, quarantined + 1)
  else (reoffered + 1, incremented + spent_by A r, quarantined).

Definition release_body : Z * Z * Z → row → M db (Z * Z * Z) :=
  λ '(reoffered, incremented, quarantined) r,
  message ← lift_outcome (_row_to_message r);
  o ← _last_outcome_in (msg_id message) (claim_id message);
  if decide (o = Some SUBMISSION_UNCERTAIN) then
    update_msgs (λ x, has_id (msg_id message) x && has_state LEASED x)
      (quarantine_row (_quarantine_until message)) ;;
    mret (reoffered, incremented, quarantined + 1)
  else
    let spent := if spends_attempt o then 1 else 0 in
    update_msgs (λ x, has_id (msg_id message) x && has_state LEASED x)
      (release_row (backoff_until now) spent) ;;
    mret (reoffered + 1, incremented + spent, quarantined).

Definition release_upd (A : list attempt_row) (r : row) (d : db) : db :=
  set_msgs (update_where (λ x, has_id (msg_id r) x && has_state LEASED x)
    (if uncertain A r then quarantine_row (_quarantine_until r)
     else release_row (backoff_until now) (spent_by A r)) (delivery_msg d)) d.

Lemma release_body_ok A c r d :
  delivery_attempt d = A → readable r →
  release_body c r d = (release_upd A r d, Returned (release_counts A c r)).
Proof.
  intros HA Hr. destruct c as [[? ?] ?]. unfold release_body, mbind, M_bind, lift_outcome.
  rewrite row_to_message_readable by done. unfold _last_outcome_in, gets.
  unfold release_upd, release_counts, uncertain, spent_by, last_outcome. rewrite HA. simpl.
  case_decide as Ho.
  - rewrite bool_decide_eq_true_2 by done. done.
  - rewrite bool_decide_eq_false_2 by done. done.
Qed.

Lemma release_body_ko c r d : ¬ readable r → ∃ s' e, release_body c r d = (s', Raised e).
Proof.
  intros [e He]%row_to_message_ko. exists d, e. destruct c as [[? ?] ?].
  unfold release_body, mbind, M_bind, lift_outcome. by rewrite He.
Qed.

Lemma release_fold A sel d :
  pending_rows (has_state LEASED) sel (delivery_msg d) →
  (∀ r, r ∈ delivery_msg d → r ∈ sel ↔ lease_expired now r = true) →
  fold_upd (release_upd A) sel d = set_msgs (release_pass now A <$> delivery_msg d) d.
Proof.
  intros HP Hsel. unfold release_upd.
  rewrite (fold_set_msgs (λ r, update_where (λ x, has_id (msg_id r) x && has_state LEASED x)
    (if uncertain A r then quarantine_row (_quarantine_until r)
     else release_row (backoff_until now) (spent_by A r)))).
  f_equal.
  change (foldl _ _ _) with (update_each msg_id (has_state LEASED)
    (λ r, if uncertain A r then quarantine_row (_quarantine_until r)
          else release_row (backoff_until now) (spent_by A r)) sel (delivery_msg d)).
  rewrite update_each_pending; [|by intros ? ?; case_match|done].
  apply list_fmap_ext. intros i r Hr%list_elem_of_lookup_2. unfold release_pass, released.
  case_bool_decide as Hin.
  - apply (Hsel r Hr) in Hin as ->. by destruct (uncertain A r).
  - destruct (lease_expired now r) eqn:E; [|done]. by apply (Hsel r Hr) in E.
Qed.
End ReleasePass.

Section KillPass.
Context (now : Z) (reason : QueueMessage → DeadReason).

Definition kill_letter (r : row) : dead_row :=
  dead_letter_of (with_mode LIVE r) (reason (with_mode LIVE r)) now.

Definition kill_body (dead : list DeadRow) (r : row) : M db (list DeadRow) :=
  message ← lift_outcome (_row_to_message r);
  _kill message (reason message) now ;;
  mret (dead ++ [_dead_row message (reason message)]).

Definition kill_upd (r : row) (d : db) : db :=
  set_dead_rows (insert_dead (kill_letter r) (delivery_dead d))
    (set_msgs (update_where (has_id (msg_id r)) (kill_row now) (delivery_msg d)) d).

Lemma kill_body_ok dead r d :
  readable r →
  kill_body dead r d = (kill_upd r d, Returned (dead ++ [_dead_row r (reason (with_mode LIVE r))])).
Proof.
  intros Hr. unfold kill_body, mbind, M_bind, lift_outcome.
  by rewrite row_to_message_readable.
Qed.

Lemma kill_body_ko dead r d : ¬ readable r → ∃ s' e, kill_body dead r d = (s', Raised e).
Proof.
  intros [e He]%row_to_message_ko. exists d, e.
  unfold kill_body, mbind, M_bind, lift_outcome. by rewrite He.
Qed.

Lemma kill_fold sel d :
  fold_upd kill_upd sel d
  = set_dead_rows (foldl (λ t l, insert_dead l t) (delivery_dead d) (kill_letter <$> sel))
      (set_msgs (update_each msg_id (λ _, true) (λ _, kill_row now) sel (delivery_msg d)) d).
Proof.
  unfold fold_upd, update_each. revert d.
  induction sel as [|r sel IH]; intros d; simpl; [by destruct d|].
  rewrite IH. unfold kill_upd, set_dead_rows, set_msgs. simpl.
  rewrite (update_where_ext (has_id (msg_id r)) (λ x, bool_decide (msg_id x = msg_id r) && true));
    [done|]. intros x _. by rewrite andb_true_r.
Qed.

Lemma kill_fold_rows sel (p : row → bool) d :
  pending_rows (λ _, true) sel (delivery_msg d) →
  (∀ r, r ∈ delivery_msg d → r ∈ sel ↔ p r = true) →
  fold_upd kill_upd sel d
  = set_dead_rows (foldl (λ t l, insert_dead l t) (delivery_dead d) (kill_letter <$> sel))
      (set_msgs ((λ r, if p r then kill_row now r else r) <$> delivery_msg d) d).
Proof.
  intros HP Hsel. rewrite kill_fold, update_each_pending by done. apply f_equal, (f_equal (λ t, set_msgs t d)).
  apply list_fmap_ext. intros i r Hr%list_elem_of_lookup_2.
  case_bool_decide as Hin.
  - apply (Hsel r Hr) in Hin as ->. done.
  - destruct (p r) eqn:E; [|done]. by apply (Hsel r Hr) in E.
Qed.
End KillPass.

Section Reclaim.
Context (now : Z) (d : db).
Let A := delivery_attempt d.
Context (Hnd : NoDup (msg_id <$> delivery_msg d)).

(** The tables after each pass. *)
Let t1 := release_pass now A <$> delivery_msg d.
Let t2 := veto_pass now <$> t1.

Definition reclaim_expired : list row := select_where (lease_expired now) (delivery_msg d).
Definition reclaim_held : list row :=
  select_where (held_past_ceiling now) (release_pass now A <$> delivery_msg d).
Definition reclaim_exhausted : list row :=
  select_where (exhausted now) (veto_pass now <$> (release_pass now A <$> delivery_msg d)).

Definition veto_reason : QueueMessage → DeadReason := λ _, VETO_CEILING.

Definition reclaim_letters : list dead_row :=
  (kill_letter now veto_reason <$> reclaim_held)
  ++ (kill_letter now _dead_reason_for <$> reclaim_exhausted).

Definition reclaim_dead : list DeadRow :=
  ((λ r, _dead_row r VETO_CEILING) <$> reclaim_held)
  ++ ((λ r, _dead_row r (_dead_reason_for r)) <$> reclaim_exhausted).

Definition reclaim_db : db :=
  set_dead_rows (foldl (λ t l, insert_dead l t) (delivery_dead d) reclaim_letters)
    (set_msgs (reclaim_row now A <$> delivery_msg d) d).

Definition reclaim_result : ReclaimResult :=
  let '(reoffered, incremented, quarantined) :=
    foldl (release_counts A) (0, 0, 0) reclaim_expired in
  {| rr_reoffered := reoffered; rr_incremented := incremented;
     rr_quarantined := quarantined; rr_dead := reclaim_dead |}.

Definition reclaim_reads_ok : Prop :=
  Forall readable reclaim_expired ∧ Forall readable reclaim_held
  ∧ Forall readable reclaim_exhausted.

Let d1 := set_msgs t1 d.
Let d2 := set_dead_rows (foldl (λ t l, insert_dead l t) (delivery_dead d)
            (kill_letter now veto_reason <$> reclaim_held)) (set_msgs t2 d).

Lemma t1_ids : NoDup (msg_id <$> t1).
Proof. unfold t1. rewrite fmap_ids; [done|]. intros r. apply release_pass_same. Qed.
Lemma t2_ids : NoDup (msg_id <$> t2).
Proof. unfold t2. rewrite fmap_ids; [apply t1_ids|]. intros r. apply veto_pass_same. Qed.

Lemma select_elem p (t : list row) r : r ∈ t → r ∈ select_where p t ↔ p r = true.
Proof. intros H. rewrite elem_of_select. tauto. Qed.

Lemma release_loop_ok :
  Forall readable reclaim_expired →
  for_each reclaim_expired (0, 0, 0) (release_body now) d
  = (d1, Returned (foldl (release_counts A) (0, 0, 0) reclaim_expired)).
Proof.
  intros Hall.
  rewrite (for_each_ok _ readable (release_upd now A) (release_counts A)
    (λ _ s, delivery_attempt s = A)); 
    [|intros ? ? ? ? HA Hr; split;
      [exact (release_body_ok now A _ _ _ HA Hr)|exact HA]|reflexivity|done].
  rewrite release_fold; [done| |].
  - apply (pending_rows_select _ (lease_expired now)); [exact Hnd|reflexivity|].
    intros r [Hs _]%andb_true_iff. done.
  - intros r Hr. by apply select_elem.
Qed.

Lemma release_loop_ko :
  ¬ Forall readable reclaim_expired →
  ∃ s' e, for_each reclaim_expired (0, 0, 0) (release_body now) d = (s', Raised e).
Proof.
  intros Hall. eapply (for_each_ko _ readable (release_upd now A) (release_counts A)
    (λ _ s, delivery_attempt s = A)); [| | |reflexivity|exact Hall].
  - intros ? ? ? ? HA Hr; split; [exact (release_body_ok now A _ _ _ HA Hr)|exact HA].
  - intros. by apply release_body_ko.
  - apply _.
Qed.

(** One killing pass over the rows of a state [s] that satisfy [p]. *)
Lemma kill_loop_ok reason p acc (s : db) :
  NoDup (msg_id <$> delivery_msg s) →
  Forall readable (select_where p (delivery_msg s)) →
  for_each (select_where p (delivery_msg s)) acc (kill_body now reason) s
  = (set_dead_rows (foldl (λ t l, insert_dead l t) (delivery_dead s)
        (kill_letter now reason <$> select_where p (delivery_msg s)))
      (set_msgs ((λ r, if p r then kill_row now r else r) <$> delivery_msg s) s),
     Returned (acc ++ ((λ r, _dead_row r (reason (with_mode LIVE r)))
                         <$> select_where p (delivery_msg s)))).
Proof using Type.
  intros Hs Hall.
  rewrite (for_each_ok _ readable (kill_upd now reason)
    (λ acc r, acc ++ [_dead_row r (reason (with_mode LIVE r))]) (λ _ _, True));
    [|intros ? ? ? ? _ Hr; split; [by apply kill_body_ok|exact I]|exact I|done].
  rewrite foldl_snoc, (kill_fold_rows _ _ _ p); [done| |].
  - eapply pending_rows_select; [done|reflexivity|done].
  - intros r Hr. by apply select_elem.
Qed.

Lemma kill_loop_ko reason p acc (s : db) :
  ¬ Forall readable (select_where p (delivery_msg s)) →
  ∃ s' e, for_each (select_where p (delivery_msg s)) acc (kill_body now reason) s
          = (s', Raised e).
Proof using Type.
  intros Hall. eapply (for_each_ko _ readable (kill_upd now reason)
    (λ acc r, acc ++ [_dead_row r (reason (with_mode LIVE r))]) (λ _ _, True));
    [| | |exact I|exact Hall].
  - intros ? ? ? ? _ Hr; split; [by apply kill_body_ok|exact I].
  - intros. by apply kill_body_ko.
  - apply _.
Qed.

(** [reclaim] with its loop bodies named. *)
Lemma reclaim_unfold :
  reclaim now =
  transaction (
    select_msgs (lease_expired now) ≫= λ expired,
    for_each expired (0, 0, 0) (release_body now) ≫= λ counts,
    select_msgs (held_past_ceiling now) ≫= λ held,
    for_each held [] (kill_body now veto_reason) ≫= λ dead,
    select_msgs (exhausted now) ≫= λ exh,
    for_each exh dead (kill_body now _dead_reason_for) ≫= λ dead,
    let '(reoffered, incremented, quarantined) := counts in
    mret {| rr_reoffered := reoffered; rr_incremented := incremented;
            rr_quarantined := quarantined; rr_dead := dead |}).
Proof using Type. reflexivity. Qed.

Lemma reclaim_returned :
  reclaim_reads_ok → reclaim now d = (reclaim_db, Returned reclaim_result).
Proof.
  intros (H1 & H2 & H3). rewrite reclaim_unfold. apply transaction_returned.
  erewrite bind_returned by reflexivity. fold reclaim_expired.
  erewrite bind_returned by (by apply release_loop_ok).
  erewrite bind_returned by reflexivity.
  erewrite bind_returned by (apply kill_loop_ok; [apply t1_ids|exact H2]).
  change (set_dead_rows _ (set_msgs _ d1)) with d2.
  erewrite bind_returned by reflexivity.
  erewrite bind_returned by (apply kill_loop_ok; [apply t2_ids|exact H3]).
  unfold reclaim_result.
  destruct (foldl (release_counts A) (0, 0, 0) reclaim_expired) as [[? ?] ?].
  unfold mret, M_ret. f_equal. unfold reclaim_db, reclaim_letters.
  unfold set_dead_rows, set_msgs; simpl. f_equal.
  - unfold t2, t1. rewrite <- !list_fmap_compose. done.
  - by rewrite foldl_app.
Qed.

Lemma reclaim_raised : ¬ reclaim_reads_ok → ∃ e, reclaim now d = (d, Raised e).
Proof.
  intros Hno. rewrite reclaim_unfold.
  assert (∀ (m : M db ReclaimResult), (∃ s' e, m d = (s', Raised e)) →
    ∃ e, transaction m d = (d, Raised e)) as Hrb.
  { intros m (s' & e & Hm). exists e. by eapply transaction_raised. }
  apply Hrb. erewrite bind_returned by reflexivity. fold reclaim_expired.
  destruct (decide (Forall readable reclaim_expired)) as [H1|H1]; cycle 1.
  { destruct (release_loop_ko H1) as (s' & e & He). exists s', e. by apply bind_raised. }
  erewrite bind_returned by (by apply release_loop_ok).
  erewrite bind_returned by reflexivity.
  destruct (decide (Forall readable reclaim_held)) as [H2|H2]; cycle 1.
  { destruct (kill_loop_ko veto_reason (held_past_ceiling now) [] d1 H2) as (s' & e & He).
    exists s', e. by apply bind_raised. }
  erewrite bind_returned by (apply kill_loop_ok; [apply t1_ids|exact H2]).
  change (set_dead_rows _ (set_msgs _ d1)) with d2.
  erewrite bind_returned by reflexivity.
  edestruct (kill_loop_ko _dead_reason_for (exhausted now)) as (s' & e & He);
    [|exists s', e; apply bind_raised; exact He].
  intros H3. by apply Hno.
Qed.
End Reclaim.

(** The rows [reclaim] converts are exactly those some pass selects. *)
Lemma reclaim_reads_ok_iff now d :
  reclaim_reads_ok now d
  ↔ ∀ r, r ∈ delivery_msg d → reclaim_reads now (delivery_attempt d) r = true → readable r.
Proof.
  unfold reclaim_reads_ok, reclaim_expired, reclaim_held, reclaim_exhausted, reclaim_reads.
  rewrite !Forall_forall. setoid_rewrite elem_of_select.
  setoid_rewrite list_elem_of_fmap. setoid_rewrite list_elem_of_fmap.
  setoid_rewrite orb_true_iff. setoid_rewrite orb_true_iff. split.
  - intros (H1 & H2 & H3) r Hr [[H|H]|H].
    + by apply H1.
    + apply (release_pass_same now (delivery_attempt d) r), H2. eauto.
    + apply (release_pass_same now (delivery_attempt d) r),
        (veto_pass_same now (release_pass now (delivery_attempt d) r)), H3. eauto 6.
  - intros H. split_and!.
    + intros r [? ?]. apply H; auto.
    + intros x [? (r & -> & ?)]. apply release_pass_same, H; auto.
    + intros x [? (y & -> & (r & -> & ?))]. apply veto_pass_same, release_pass_same, H; auto.
Qed.

Lemma select_where_ext {R} (p q : R → bool) (t : list R) :
  (∀ x, p x = q x) → select_where p t = select_where q t.
Proof. intros H. apply list_filter_iff. intros x. by rewrite H. Qed.

Lemma list_omap_ext' {A B} (f g : A → option B) (l : list A) : (∀ x, f x = g x) → omap f l = omap g l.
Proof. intros H. induction l as [|x l IH]; [done|]. cbn. rewrite H. destruct (g x); [f_equal|]; exact IH. Qed.

(** The two killing passes, as one function of the row. *)
Lemma select_fmap {A B} (f : A → B) (p : B → bool) l :
  select_where p (f <$> l) = f <$> select_where (λ x, p (f x)) l.
Proof.
  unfold select_where. induction l as [|x l IH]; [done|].
  rewrite fmap_cons, !filter_cons. destruct (decide (p (f x) = true)); by rewrite IH.
Qed.

Lemma two_passes {A B} (p q : A → bool) (g h : A → B) l :
  (g <$> select_where p l) ++ (h <$> select_where (λ x, negb (p x) && q x) l)
  ≡ₚ omap (λ x, if p x then Some (g x) else if q x then Some (h x) else None) l.
Proof.
  unfold select_where. induction l as [|x l IH]; [done|].
  rewrite !filter_cons. simpl. destruct (p x); simpl; [by rewrite IH|].
  destruct (q x); simpl; [|done]. by rewrite <- IH, Permutation_middle.
Qed.

Lemma reclaim_exhausted_eq now d :
  let A := delivery_attempt d in
  reclaim_exhausted now d
  = release_pass now A <$> select_where (λ r,
      negb (held_past_ceiling now (release_pass now A r)) && exhausted now (release_pass now A r))
      (delivery_msg d).
Proof.
  intros A. unfold reclaim_exhausted. fold A. rewrite !select_fmap.
  assert (∀ r1, exhausted now (veto_pass now r1)
                = negb (held_past_ceiling now r1) && exhausted now r1) as H.
  { intros r1. unfold veto_pass. by destruct (held_past_ceiling now r1). }
  rewrite (select_where_ext _ (λ r, negb (held_past_ceiling now (release_pass now A r))
    && exhausted now (release_pass now A r))) by (intros; apply H).
  rewrite <- list_fmap_compose.
  apply list_fmap_ext. intros i r Hr%list_elem_of_lookup_2%elem_of_select.
  destruct Hr as [[Hh%negb_true_iff _]%andb_true_iff _]. unfold compose, veto_pass. by rewrite Hh.
Qed.

Lemma reclaim_dead_perm now d :
  reclaim_dead now d ≡ₚ omap (reclaim_death now (delivery_attempt d)) (delivery_msg d).
Proof.
  unfold reclaim_dead, reclaim_held. rewrite select_fmap, reclaim_exhausted_eq.
  rewrite <- !list_fmap_compose, two_passes.
  erewrite list_omap_ext'; [reflexivity|]. intros r. unfold reclaim_death, reclaim_fate.
  destruct (held_past_ceiling now _); [done|]. by destruct (exhausted now _).
Qed.

Lemma reclaim_letters_perm now d :
  reclaim_letters now d ≡ₚ omap (reclaim_letter now (delivery_attempt d)) (delivery_msg d).
Proof.
  unfold reclaim_letters, reclaim_held. rewrite select_fmap, reclaim_exhausted_eq.
  rewrite <- !list_fmap_compose, two_passes.
  erewrite list_omap_ext'; [reflexivity|]. intros r. unfold reclaim_letter, reclaim_fate.
  destruct (held_past_ceiling now _); [done|]. by destruct (exhausted now _).
Qed.

(** ** cancel_on_complete, settle_through *)

Lemma settling_loop (p q : row → bool) (f : row → row) (W : row → row → bool) d :
  (∀ r x, W r x = has_id (msg_id r) x && q x) →
  (∀ r, p r = true → q r = true) → (∀ r, msg_id (f r) = msg_id r) →
  NoDup (msg_id <$> delivery_msg d) →
  for_each (select_where p (delivery_msg d)) []
    (λ acc r, update_msgs (W r) f ;; mret (acc ++ [msg_id r])) d
  = (set_msgs (update_where p f (delivery_msg d)) d,
     Returned (msg_id <$> select_where p (delivery_msg d))).
Proof.
  intros HW Hpq Hf Hnd.
  assert (pending_rows q (select_where p (delivery_msg d)) (delivery_msg d)) as HP
    by (by eapply pending_rows_select).
  rewrite (for_each_ok _ (λ _, True) (λ r d, set_msgs (update_where (W r) f (delivery_msg d)) d)
    (λ acc r, acc ++ [msg_id r]) (λ _ _, True)); [|done|by split|by apply Forall_true].
  rewrite foldl_snoc, (fold_set_msgs (λ r, update_where (W r) f)). do 2 f_equal.
  trans (update_each msg_id q (λ _, f) (select_where p (delivery_msg d)) (delivery_msg d)).
  - unfold update_each. clear HP Hnd. remember (select_where p (delivery_msg d)) as sel.
    generalize (delivery_msg d) as t. clear Heqsel.
    induction sel as [|r sel IH]; intros t; simpl; [done|].
    rewrite <- IH. f_equal. apply update_where_ext. intros x _. apply HW.
  - rewrite update_each_pending by done. apply list_fmap_ext.
    intros i r Hr%list_elem_of_lookup_2. pose proof (elem_of_select p (delivery_msg d) r) as Hs.
    case_bool_decide as Hin.
    + by apply Hs in Hin as [-> _].
    + destruct (p r) eqn:E; [|done]. by destruct Hin; apply Hs.
Qed.

Definition cancellable (recv : string) (r : row) : bool :=
  for_receiver recv r && has_state READY r && Delivery.cancel_on_complete r && is_live r.

Lemma cancel_returned recv now d :
  NoDup (msg_id <$> delivery_msg d) →
  cancel_on_complete recv now d
  = (set_msgs (update_where (cancellable recv) (settle_row SUPERSEDED now) (delivery_msg d)) d,
     Returned (msg_id <$> select_where (cancellable recv) (delivery_msg d))).
Proof.
  intros Hnd. apply transaction_returned. erewrite bind_returned by reflexivity.
  apply (settling_loop (cancellable recv) (has_state READY)); [done| |done|done].
  intros r. unfold cancellable. rewrite !andb_true_iff. tauto.
Qed.

Lemma settle_through_returned recv up_to now d :
  NoDup (msg_id <$> delivery_msg d) →
  settle_through recv up_to now d
  = (set_msgs (update_where (settles_through recv up_to) (settle_row DELIVERED now)
                 (delivery_msg d)) d,
     Returned (msg_id <$> select_where (settles_through recv up_to) (delivery_msg d))).
Proof.
  intros Hnd. apply transaction_returned. erewrite bind_returned by reflexivity.
  apply (settling_loop _ (λ _, true)); [|done|done|done].
  intros r x. by rewrite andb_true_r.
Qed.

(** ** prune *)

Definition horizon (now : Z) : Z := now - days (DELIVERY_RETENTION_DAYS shipped).

Definition prunable (now : Z) (protected : list string) (r : row) : bool :=
  null_lt (terminated_at r) (horizon now) && negb (str_mem (msg_id r) protected).

Definition prunable_digest (now : Z) (protected : list string) (x : SeatDigest) : bool :=
  null_lt (sd_consumed_at x) (horizon now)
  && negb (existsb (λ i, str_mem i protected) (sd_msg_ids x)).

Definition pruned_ids (now : Z) (protected : list string) (d : db) : list string :=
  msg_id <$> select_where (prunable now protected) (delivery_msg d).

Definition digest_key (x : SeatDigest) : string * Z := (sd_receiver_id x, sd_epoch x).

Definition prune_db (now : Z) (protected : list string) (d : db) : db :=
  let gone := pruned_ids now protected d in
  {| delivery_msg := delete_where (prunable now protected) (delivery_msg d);
     delivery_attempt := delete_where (λ a, str_mem (at_msg_id a) gone) (delivery_attempt d);
     delivery_dead := delete_where (λ l, str_mem (dl_msg_id l) gone) (delivery_dead d);
     seat_digest := delete_where (prunable_digest now protected) (seat_digest d);
     inbox_max_id := inbox_max_id d |}.

(** A loop that deletes the rows of a snapshot one key at a time. *)
Lemma delete_each {R K} `{EqDecision K} (key : R → K) (gone : list K) (t : list R) :
  foldl (λ t k, delete_where (λ x, bool_decide (key x = k)) t) t gone
  = delete_where (λ x, bool_decide (key x ∈ gone)) t.
Proof.
  revert t. induction gone as [|k gone IH]; intros t; simpl.
  - induction t as [|x t IHt]; [done|]. unfold delete_where in *.
    rewrite filter_cons_True by done. by f_equal.
  - rewrite IH. unfold delete_where. rewrite list_filter_filter.
    apply list_filter_iff. intros x. rewrite !bool_decide_eq_false, not_elem_of_cons. tauto.
Qed.

Lemma delete_keys_select {R K} `{EqDecision K} (key : R → K) (p : R → bool) (t : list R) :
  NoDup (key <$> t) →
  delete_where (λ x, bool_decide (key x ∈ key <$> select_where p t)) t = delete_where p t.
Proof.
  intros Hnd.
  assert (∀ x, x ∈ t → bool_decide (key x ∈ key <$> select_where p t) = p x) as H.
  { intros x Hx. apply eq_true_iff_eq. rewrite bool_decide_eq_true, list_elem_of_fmap. split.
    - intros (y & Hk & [Hp Hy]%elem_of_select).
      by rewrite (NoDup_key_eq key t x y Hnd Hx Hy Hk).
    - intros Hp. exists x. by rewrite elem_of_select. }
  unfold delete_where. apply Forall_forall in H.
  assert (∀ l, (Forall (λ x, bool_decide (key x ∈ key <$> select_where p t) = p x) l) →
    filter (λ r, bool_decide (key r ∈ key <$> select_where p t) = false) l
    = filter (λ r, p r = false) l) as Hgen; [|by apply Hgen].
  induction l as [|x l IH]; intros Hl; [done|].
  apply Forall_cons in Hl as [Hx Hl]. rewrite !filter_cons, Hx, IH by done. done.
Qed.

Definition delete_messages (gone : list string) (d : db) : db :=
  {| delivery_msg := delete_where (λ r, str_mem (msg_id r) gone) (delivery_msg d);
     delivery_attempt := delete_where (λ a, str_mem (at_msg_id a) gone) (delivery_attempt d);
     delivery_dead := delete_where (λ l, str_mem (dl_msg_id l) gone) (delivery_dead d);
     seat_digest := seat_digest d;
     inbox_max_id := inbox_max_id d |}.

Lemma delete_message_fold gone d :
  foldl (λ d i, delete_message i d) d gone = delete_messages gone d.
Proof.
  assert (foldl (λ d i, delete_message i d) d gone = {|
    delivery_msg := foldl (λ t k, delete_where (λ x, bool_decide (msg_id x = k)) t)
                      (delivery_msg d) gone;
    delivery_attempt := foldl (λ t k, delete_where (λ x, bool_decide (at_msg_id x = k)) t)
                      (delivery_attempt d) gone;
    delivery_dead := foldl (λ t k, delete_where (λ x, bool_decide (dl_msg_id x = k)) t)
                      (delivery_dead d) gone;
    seat_digest := seat_digest d; inbox_max_id := inbox_max_id d |}) as ->.
  { revert d. induction gone as [|i gone IH]; intros d; simpl; [by destruct d|]. by rewrite IH. }
  by rewrite !delete_each.
Qed.

(** A loop that skips some rows and deletes the others, counting them. *)
Lemma skipping_loop {A S} (skip : A → bool) (del : A → S → S) xs (n : Z) (s : S) :
  for_each xs n (λ n x, if skip x then mret n else modify (del x) ;; mret (n + 1)) s
  = (foldl (λ s x, del x s) s (select_where (λ x, negb (skip x)) xs),
     Returned (n + Z.of_nat (length (select_where (λ x, negb (skip x)) xs)))).
Proof.
  revert n s. induction xs as [|x xs IH]; intros n s.
  { simpl. unfold mret, M_ret. do 2 f_equal. lia. }
  simpl for_each. unfold select_where in *. destruct (skip x) eqn:E.
  - erewrite bind_returned by reflexivity. rewrite IH.
    by rewrite filter_cons_False by (by rewrite E).
  - erewrite bind_returned by reflexivity. rewrite IH.
    rewrite filter_cons_True by (by rewrite E). simpl length. do 2 f_equal. lia.
Qed.

Lemma select_select {R} (p q : R → bool) t :
  select_where q (select_where p t) = select_where (λ x, p x && q x) t.
Proof.
  unfold select_where. rewrite list_filter_filter. apply list_filter_iff.
  intros x. rewrite andb_true_iff. tauto.
Qed.

Lemma fold_set_digests (xs : list SeatDigest) d :
  foldl (λ d x, set_digests (delete_where (has_epoch (sd_receiver_id x) (sd_epoch x))
                               (seat_digest d)) d) d xs
  = set_digests (delete_where (λ x, bool_decide (digest_key x ∈ digest_key <$> xs))
                   (seat_digest d)) d.
Proof.
  rewrite <- (delete_each digest_key (digest_key <$> xs)).
  revert d. induction xs as [|x xs IH]; intros d; simpl; [by destruct d|].
  rewrite IH. unfold set_digests. simpl. do 2 f_equal.
  unfold delete_where. apply list_filter_iff. intros y. unfold has_epoch, digest_key.
  rewrite andb_false_iff, !bool_decide_eq_false, Z.eqb_neq. split.
  - intros [H|H] [= ? ?]; congruence.
  - intros H. destruct (decide (sd_receiver_id y = sd_receiver_id x)); [right|by left].
    intros ?. apply H. congruence.
Qed.

Lemma prune_returned now protected d :
  NoDup (msg_id <$> delivery_msg d) → NoDup (digest_key <$> seat_digest d) →
  prune now protected d
  = (prune_db now protected d,
     Returned (Z.of_nat (rowcount (prunable now protected) (delivery_msg d)
                         + rowcount (prunable_digest now protected) (seat_digest d)))).
Proof.
  intros Hm Hx. apply transaction_returned. fold (horizon now).
  erewrite bind_returned by reflexivity.
  erewrite bind_returned by (apply (skipping_loop (λ r, str_mem (msg_id r) protected)
    (λ r, delete_message (msg_id r)))).
  rewrite select_select. fold (prunable now protected).
  assert (∀ sel, foldl (λ s r, delete_message (msg_id r) s) d sel
                 = delete_messages (msg_id <$> sel) d) as ->.
  { intros sel. rewrite <- delete_message_fold. generalize d.
    induction sel as [|r sel IH]; intros d'; simpl; [done|apply IH]. }
  erewrite bind_returned by reflexivity.
  rewrite (skipping_loop (λ x, existsb (λ i, str_mem i protected) (sd_msg_ids x))
    (λ x d, set_digests (delete_where (has_epoch (sd_receiver_id x) (sd_epoch x))
                           (seat_digest d)) d)).
  rewrite fold_set_digests, select_select. fold (prunable_digest now protected). simpl.
  unfold prune_db, delete_messages, set_digests, rowcount. simpl. f_equal; [f_equal|f_equal; lia].
  - by apply delete_keys_select.
  - by apply delete_keys_select.
Qed.
