(* ===== verification/QueueLife.v ===== *)
(** * The life of a message: the abstract specification of the queue

    [lstep] is what may happen to one message in one operation of the store.
    It is the contract the rest of the delivery plane relies on: a row is
    offered, leased under a fencing token, put back with a new token, and
    settled or killed once.  [QueueInv] proves that every operation of
    [SqliteQueueStore] moves every row by at most one such step. *)

From S2P Require Import Prelude Timing Delivery QueueRows QueueStore QueueLoops.
Import SqliteQueueStore.

Definition terminal (r : row) : Prop := is_terminal (state r) = true.

#[export] Instance terminal_dec r : Decision (terminal r).
Proof. unfold terminal. apply _. Defined.

Lemma not_terminal r : ¬ terminal r ↔ state r = READY ∨ state r = LEASED.
Proof. unfold terminal. rewrite is_terminal_spec. destruct (state r); split; (by left) || (by right) || (by intros []) || by intros H; destruct H. Qed.

(** How a lease ends without an answer: the row is put back under a new token,
    after the backoff and with at most one attempt spent, or out of the reach
    of every later claim when the submission was left uncertain. *)
Inductive lease_ended (r : row) : row → Prop :=
| ended_offered now spent :
    null_lt (lease_expires_at r) now = true → spent = 0 ∨ spent = 1 →
    lease_ended r (release_row (backoff_until now) spent r)
| ended_quarantined now :
    null_lt (lease_expires_at r) now = true →
    lease_ended r (quarantine_row (_quarantine_until r) r).

Inductive lstep : row → row → Prop :=
| L_claim owner now r :
    state r = READY → mode r = "live"%string → available_at r <= now → now < dead_by r →
    lstep r (lease_row owner (lease_until now) r)
| L_release r r' :
    state r = LEASED → lease_ended r r' → attempts r' < max_attempts r →
    lstep r r'
| L_settle s now r r' :
    ¬ terminal r → is_terminal s = true → s ≠ DEAD → (r' = r ∨ ∃ n, r' = set_attempts n r) →
    lstep r (settle_row s now r')
| L_kill now r r' :
    ¬ terminal r →
    (r' = r ∨ (∃ n, r' = set_attempts n r) ∨ (state r = LEASED ∧ lease_ended r r')) →
    lstep r (kill_row now r')
| L_hold held r : lstep r (set_held_since held r)
| L_reparent recv pay dig r :
    ¬ terminal r → recv ≠ receiver_id r →
    lstep r (set_receiver_id recv (set_payload pay (set_payload_digest dig r))).

(** How a message is born. *)
Record born (r : row) : Prop := {
  bo_state : state r = READY;
  bo_mode : mode r = "live"%string;
  bo_claim : claim_id r = 0;
  bo_owner : lease_owner r = None;
  bo_lease : lease_expires_at r = None;
  bo_attempts : attempts r = 0;
  bo_max : 1 <= max_attempts r;
  bo_available : available_at r = created_at r;
  bo_terminated : terminated_at r = None;
}.

(** ** What a row satisfies *)

Record row_ok (r : row) : Prop := {
  ro_lease : state r = LEASED ↔ is_Some (lease_expires_at r);
  ro_owner : state r = LEASED ↔ is_Some (lease_owner r);
  ro_term : terminal r ↔ is_Some (terminated_at r);
  ro_bound : ∀ e, lease_expires_at r = Some e → e < dead_by r + seconds (DELIVERY_LEASE_S shipped);
  ro_claim : 0 <= claim_id r;
  ro_leased : state r = LEASED → 1 <= claim_id r;
  ro_budget : ¬ terminal r → 0 <= attempts r < max_attempts r;
}.

Lemma born_ok r : born r → row_ok r.
Proof.
  intros []. constructor; unfold terminal in *;
    repeat match goal with H : _ = _ |- _ => rewrite H; clear H end;
    try (split; [done|by intros []]); naive_solver lia.
Qed.

(** What a step never changes. *)
Record same_identity (r r' : row) : Prop := {
  si_id : msg_id r' = msg_id r;
  si_key : idempotency_key r' = idempotency_key r;
  si_sender : sender_id r' = sender_id r;
  si_mode : mode r' = mode r;
  si_max : max_attempts r' = max_attempts r;
  si_dead_by : dead_by r' = dead_by r;
  si_created : created_at r' = created_at r;
  si_legacy : legacy_message_id r' = legacy_message_id r;
  si_notice : is_notice r' = is_notice r;
  si_cancel : Delivery.cancel_on_complete r' = Delivery.cancel_on_complete r;
}.

#[export] Instance same_identity_preorder : PreOrder same_identity.
Proof. split; [by constructor|]. intros ??? [] []. constructor; congruence. Qed.

Lemma lease_ended_spec r r' :
  lease_ended r r' →
  same_identity r r' ∧ state r' = READY ∧ claim_id r' = claim_id r + 1
  ∧ lease_expires_at r' = None ∧ lease_owner r' = None ∧ terminated_at r' = terminated_at r
  ∧ attempts r <= attempts r' <= attempts r + 1.
Proof. destruct 1; split_and!; try done; simpl; lia. Qed.

Lemma lstep_identity r r' : lstep r r' → same_identity r r'.
Proof.
  destruct 1; try done.
  - by eapply lease_ended_spec.
  - by destruct_or!; [subst|destruct H2 as [? ->]].
  - destruct H0 as [->|[[? ->]|[_ He]]]; [done|done|].
    apply lease_ended_spec in He as [He _]. etrans; [exact He|done].
Qed.

Lemma settle_row_ok s now r r' :
  row_ok r → ¬ terminal r → is_terminal s = true → (r' = r ∨ ∃ n, r' = set_attempts n r) →
  row_ok (settle_row s now r').
Proof.
  intros Hr Hn Hs Hr'.
  assert (claim_id r' = claim_id r) as Hc by (by destruct Hr' as [->|[? ->]]).
  assert (s ≠ LEASED) as Hl by (intros ->; discriminate).
  constructor; unfold terminal; simpl; rewrite ?Hc; [| | | |apply Hr| |]; try done.
Qed.

Lemma kill_row_ok now r' : 0 <= claim_id r' → row_ok (kill_row now r').
Proof.
  intros Hc. constructor; unfold terminal; simpl; try done.
Qed.

Lemma lstep_ok r r' : lstep r r' → row_ok r → row_ok r'.
Proof.
  intros Hstep Hr. pose proof Hr as [? ? ? ? ? ? Hb]. destruct Hstep as
    [owner now r Hs Hm Ha Hd|r r' Hs He Hmax|s now r r' Hn Hs Hd Hr'|now r r' Hn Hr'|held r|recv pay dig r Hn Hrecv].
  - assert (¬ terminal r) as Hn by (apply not_terminal; by left).
    constructor; unfold terminal; simpl; [done|done| |intros e [= <-]; unfold lease_until, seconds; simpl; lia|lia|lia|auto].
    split; [done|]. intros Hx. by apply ro_term0 in Hx.
  - assert (¬ terminal r) as Hn by (apply not_terminal; by right).
    apply lease_ended_spec in He as (Hid & Hs' & Hc & Hle & Hlo & Ht & Hat).
    constructor; unfold terminal; rewrite ?Hs', ?Hle, ?Hlo, ?Hc, ?Ht; simpl; [done|done| |done|lia|done|].
    + split; [done|]. intros Hx. by apply ro_term0 in Hx.
    + intros _. rewrite (si_max _ _ Hid). specialize (Hb Hn). lia.
  - by eapply settle_row_ok.
  - apply kill_row_ok. destruct Hr' as [->|[[? ->]|[_ He]]]; [done|done|].
    apply lease_ended_spec in He as (_ & _ & -> & _). lia.
  - by constructor.
  - by constructor.
Qed.

(** ** What a step can only increase *)

Lemma lstep_token r r' : lstep r r' → claim_id r <= claim_id r'.
Proof.
  destruct 1 as [| ? ? ? He | ? ? ? ? ? ? ? Hr' | ? ? ? ? Hr' | |]; simpl; try lia.
  - apply lease_ended_spec in He as (_ & _ & -> & _). lia.
  - by destruct Hr' as [->|[? ->]].
  - destruct Hr' as [->|[[? ->]|[_ He]]]; simpl; [lia|lia|].
    apply lease_ended_spec in He as (_ & _ & -> & _). lia.
Qed.

(** A settled message: only [mark_dialog_hold] can still touch it, and it
    writes [held_since] alone. *)
Lemma lstep_terminal r r' : lstep r r' → terminal r → r' = r ∨ ∃ held, r' = set_held_since held r.
Proof.
  intros Hs Ht. destruct Hs; try done; try (by right; eexists);
    unfold terminal in Ht; by match goal with H : state _ = _ |- _ => rewrite H in Ht end.
Qed.

(** Out of the reach of every claim, for good. *)
Definition unclaimable (r : row) : Prop :=
  terminal r ∨ (state r = READY ∧ dead_by r <= available_at r).

Lemma unclaimable_claim now recv r : unclaimable r → claimable now recv r = false.
Proof.
  intros H. apply not_true_is_false. intros (Hs & Ha & _ & Hd)%claimable_ready.
  destruct H as [Ht|[_ H]]; [|lia]. unfold terminal in Ht. by rewrite Hs in Ht.
Qed.

Lemma lstep_unclaimable r r' : lstep r r' → unclaimable r → unclaimable r'.
Proof.
  intros Hs [Ht|[Hr Ha]].
  - left. destruct (lstep_terminal _ _ Hs Ht) as [->|[? ->]]; done.
  - destruct Hs; simpl in *; try congruence; try (by left); try (by right).
    + lia.
Qed.

Lemma quarantined_unclaimable r : unclaimable (quarantine_row (_quarantine_until r) r).
Proof. right. split; [done|]. simpl. unfold _quarantine_until, seconds. lia. Qed.
