(* ===== verification/QueueInv.v ===== *)
(** * The store refines the life cycle: invariant and simulation

    [op] is one call of a writing method of [SqliteQueueStore] with its
    arguments, [run] a sequence of calls by any number of callers in the order
    the database serialises them.  Every call keeps [wf] — keys, row
    well-formedness, the dead-letter table and the digest table agreeing with
    the messages — and moves every message by at most one [lstep]. *)

From S2P Require Import Prelude Timing Delivery QueueRows QueueStore QueueLoops QueueLife.
Import SqliteQueueStore.

(** ** One call *)

Inductive op :=
| OpEnqueue (now : Z) (new_id : string) (draft : EnqueueDraft)
| OpClaim (owner : string) (now limit : Z) (receiver : option string)
| OpAck (i : string) (token now : Z)
| OpReclaim (now : Z)
| OpRecordAttempt (a : DeliveryAttempt)
| OpSettle (i : string) (s : MsgState) (now : Z) (reason : option DeadReason) (att : option Z)
| OpHold (i : string) (held : option Z)
| OpReparent (i recv : string) (now : Z) (prefix : string)
| OpBuildDigest (recv : string) (ids : list string) (now : Z)
| OpExtendDigest (recv : string) (epoch : Z) (ids : list string) (now : Z)
| OpBumpWake (recv : string) (epoch now : Z)
| OpCloseDigest (recv : string) (epoch : Z) (via : string) (now : Z)
| OpCancelOnComplete (recv : string) (now : Z)
| OpSettleThrough (recv : string) (up_to now : Z)
| OpPrune (now : Z) (protected : list string).

Section Run.
Context (_payload_digest : string → string).

Definition exec (o : op) : M db () :=
  match o with
  | OpEnqueue now i draft => enqueue _payload_digest now i draft ;; mret ()
  | OpClaim owner now limit recv => claim owner now limit recv ;; mret ()
  | OpAck i token now => ack i token now ;; mret ()
  | OpReclaim now => reclaim now ;; mret ()
  | OpRecordAttempt a => record_attempt a
  | OpSettle i s now reason att => settle i s now reason att ;; mret ()
  | OpHold i held => mark_dialog_hold i held
  | OpReparent i recv now prefix => reparent _payload_digest i recv now prefix ;; mret ()
  | OpBuildDigest recv ids now => build_digest recv ids now ;; mret ()
  | OpExtendDigest recv epoch ids now => extend_digest recv epoch ids now ;; mret ()
  | OpBumpWake recv epoch now => bump_wake_count recv epoch now ;; mret ()
  | OpCloseDigest recv epoch via now => close_digest recv epoch via now ;; mret ()
  | OpCancelOnComplete recv now => cancel_on_complete recv now ;; mret ()
  | OpSettleThrough recv up_to now => settle_through recv up_to now ;; mret ()
  | OpPrune now protected => prune now protected ;; mret ()
  end.

(** An exception reaches the caller; the next caller finds the state it left. *)
Definition step (o : op) (d : db) : db := state_of (exec o d).
Definition run (ops : list op) (d : db) : db := foldl (λ d o, step o d) d ops.

(** What pydantic has already refused when the method is called. *)
Definition op_valid (o : op) : Prop :=
  match o with OpEnqueue _ _ draft => draft_valid draft = true | _ => True end.
End Run.

(** ** The invariant *)

Definition attempt_key {A} (a : AttemptRow A) : string * Z * string :=
  (at_msg_id a, at_claim_id a, at_carrier a).

Record digest_ok (x : SeatDigest) : Prop := {
  dg_epoch : 1 <= sd_epoch x;
  dg_wakes : 0 <= sd_wake_count x;
  dg_closed : is_Some (sd_consumed_at x) ↔ is_Some (sd_consumed_via x);
}.

Definition dead_ids (t : list row) : list string := msg_id <$> select_where (has_state DEAD) t.

Record wf (d : db) : Prop := {
  wf_ids : NoDup (msg_id <$> delivery_msg d);
  wf_keys : NoDup (idempotency_key <$> delivery_msg d);
  wf_rows : ∀ r, r ∈ delivery_msg d → row_ok r;
  wf_dead_ids : NoDup (dl_msg_id <$> delivery_dead d);
  wf_dead : ∀ i, i ∈ dl_msg_id <$> delivery_dead d ↔ i ∈ dead_ids (delivery_msg d);
  wf_attempts : NoDup (attempt_key <$> delivery_attempt d);
  wf_epochs : NoDup (digest_key <$> seat_digest d);
  wf_digests : ∀ x, x ∈ seat_digest d → digest_ok x;
}.

Lemma wf_empty : wf empty_db.
Proof.
  constructor; simpl; try apply NoDup_nil_2; try done; by intros ? ?%not_elem_of_nil.
Qed.

(** ** The simulation *)

Definition lstep_opt (r r' : row) : Prop := r' = r ∨ lstep r r'.

Section Moved.
Context (minted : list string).

(** [moved minted t t']: every row of [t'] is a row of [t] after at most one
    step, or newborn under an id of [minted], and every row of [t] is still there after at most one step, or was
    terminal. *)
Record moved (t t' : list row) : Prop := {
  mv_from : ∀ r', r' ∈ t' → (∃ r, r ∈ t ∧ lstep_opt r r') ∨ (born r' ∧ msg_id r' ∈ minted);
  mv_to : ∀ r, r ∈ t → (∃ r', r' ∈ t' ∧ lstep_opt r r') ∨ terminal r;
}.

Lemma moved_refl t : moved t t.
Proof. split; intros r Hr; left; exists r; split; auto; by left. Qed.

Lemma moved_fmap (f : row → row) t :
  (∀ r, r ∈ t → lstep_opt r (f r)) → moved t (f <$> t).
Proof.
  intros H. split.
  - intros r' (r & -> & Hr)%list_elem_of_fmap. left. exists r. auto.
  - intros r Hr. left. exists (f r). split; [by apply list_elem_of_fmap_2|auto].
Qed.

Lemma moved_update p (f : row → row) t :
  (∀ r, r ∈ t → p r = true → lstep r (f r)) → moved t (update_where p f t).
Proof.
  intros H. apply moved_fmap. intros r Hr. destruct (p r) eqn:E; [right; auto|by left].
Qed.

End Moved.

Lemma lstep_opt_identity r r' : lstep_opt r r' → same_identity r r'.
Proof. intros [->|H]; [done|by apply lstep_identity]. Qed.

Lemma lstep_opt_ok r r' : lstep_opt r r' → row_ok r → row_ok r'.
Proof. intros [->|H]; [done|by apply lstep_ok]. Qed.

Lemma fmap_field {A} (g : row → A) (f : row → row) (t : list row) :
  (∀ r, r ∈ t → g (f r) = g r) → g <$> (f <$> t) = g <$> t.
Proof.
  intros H. rewrite <- list_fmap_compose. apply list_fmap_ext.
  intros i r Hr%list_elem_of_lookup_2. by apply H.
Qed.

Lemma elem_of_dead_ids i t : i ∈ dead_ids t ↔ ∃ r, r ∈ t ∧ msg_id r = i ∧ state r = DEAD.
Proof.
  unfold dead_ids. rewrite list_elem_of_fmap. setoid_rewrite elem_of_select.
  setoid_rewrite has_state_spec.
  split; [intros (r & -> & ? & ?)|intros (r & ? & <- & ?)]; exists r; auto.
Qed.

Lemma insert_dead_fresh l t :
  dl_msg_id l ∉ dl_msg_id <$> t → insert_dead l t = t ++ [l].
Proof.
  intros H. unfold insert_dead. destruct (existsb _ t) eqn:E; [|done].
  apply existsb_exists in E as (x & Hx%list_elem_of_In & He%bool_decide_eq_true).
  destruct H. rewrite <- He. by apply list_elem_of_fmap_2.
Qed.

Lemma insert_dead_all t letters :
  NoDup (dl_msg_id <$> t ++ letters) →
  foldl (λ t l, insert_dead l t) t letters = t ++ letters.
Proof.
  revert t. induction letters as [|l ls IH]; intros t Hnd; simpl; [by rewrite app_nil_r|].
  rewrite insert_dead_fresh.
  - rewrite IH; rewrite <- app_assoc; done.
  - rewrite fmap_app in Hnd. apply NoDup_app in Hnd as (_ & Hd & _).
    intros Hin. apply (Hd _ Hin). left.
Qed.

(** Deaths: letters for exactly the rows that die now. *)
Record deaths (f : row → row) (letters : list dead_row) (t : list row) : Prop := {
  de_nodup : NoDup (dl_msg_id <$> letters);
  de_from : ∀ i, i ∈ dl_msg_id <$> letters →
    ∃ r, r ∈ t ∧ msg_id r = i ∧ state r ≠ DEAD ∧ state (f r) = DEAD;
  de_to : ∀ r, r ∈ t → state (f r) = DEAD → state r = DEAD ∨ msg_id r ∈ dl_msg_id <$> letters;
}.

Lemma deaths_none f t :
  (∀ r, r ∈ t → state (f r) = DEAD → state r = DEAD) → deaths f [] t.
Proof.
  intros H. constructor; simpl; [apply NoDup_nil_2|by intros ? ?%not_elem_of_nil|].
  intros r Hr Hd. left. auto.
Qed.

Lemma lstep_opt_dead r r' : lstep_opt r r' → state r = DEAD → state r' = DEAD.
Proof.
  intros [->|H] Hd; [done|]. assert (terminal r) as Ht by (unfold terminal; by rewrite Hd).
  by destruct (lstep_terminal _ _ H Ht) as [->|[? ->]].
Qed.

Lemma deaths_fresh f letters d :
  wf d → deaths f letters (delivery_msg d) →
  NoDup (dl_msg_id <$> delivery_dead d ++ letters).
Proof.
  intros Hwf [Hnd Hfrom _]. rewrite fmap_app. apply NoDup_app. split_and!; [apply Hwf| |done].
  intros i Hi Hl. apply (wf_dead _ Hwf), elem_of_dead_ids in Hi as (r & Hr & Hid & Hd).
  destruct (Hfrom i Hl) as (r' & Hr' & Hid' & Hnd' & _).
  assert (r = r') as -> by (eapply NoDup_key_eq; [apply Hwf|done|done|congruence]). done.
Qed.

Lemma wf_fmap f letters d :
  wf d → (∀ r, r ∈ delivery_msg d → lstep_opt r (f r)) → deaths f letters (delivery_msg d) →
  wf (set_dead_rows (delivery_dead d ++ letters) (set_msgs (f <$> delivery_msg d) d)).
Proof.
  intros Hwf Hf Hde. pose proof (deaths_fresh _ _ _ Hwf Hde) as Hfresh.
  assert (∀ r, r ∈ delivery_msg d → same_identity r (f r)) as Hid
    by (intros; by apply lstep_opt_identity, Hf).
  destruct Hde as [Hnd Hfrom Hto]. constructor; simpl; try apply Hwf; try done.
  - rewrite fmap_field; [apply Hwf|]. intros r Hr. by apply si_id, Hid.
  - rewrite fmap_field; [apply Hwf|]. intros r Hr. by apply si_key, Hid.
  - intros r' (r & -> & Hr)%list_elem_of_fmap. eapply lstep_opt_ok; [by apply Hf|]. by apply Hwf.
  - intros i. rewrite fmap_app, elem_of_app, (wf_dead _ Hwf), !elem_of_dead_ids. split.
    + intros [(r & Hr & Hi & Hd)|Hl].
      * exists (f r). split_and!; [by apply list_elem_of_fmap_2| |].
        -- by rewrite (si_id _ _ (Hid r Hr)).
        -- by eapply lstep_opt_dead; [apply Hf|].
      * destruct (Hfrom i Hl) as (r & Hr & Hi & _ & Hd). exists (f r).
        split_and!; [by apply list_elem_of_fmap_2|by rewrite (si_id _ _ (Hid r Hr))|done].
    + intros (r' & (r & -> & Hr)%list_elem_of_fmap & Hi & Hd).
      rewrite (si_id _ _ (Hid r Hr)) in Hi. destruct (Hto r Hr Hd) as [?|Hl].
      * left. by exists r.
      * right. by rewrite <- Hi.
Qed.

Lemma wf_fmap_alive f d :
  wf d → (∀ r, r ∈ delivery_msg d → lstep_opt r (f r)) →
  (∀ r, r ∈ delivery_msg d → state (f r) = DEAD → state r = DEAD) →
  wf (set_msgs (f <$> delivery_msg d) d).
Proof.
  intros Hwf Hf Hd. pose proof (wf_fmap f [] d Hwf Hf (deaths_none _ _ Hd)) as H.
  by rewrite app_nil_r in H.
Qed.

(** ** Statements on the digest table alone *)

Record digests_wf (t : list SeatDigest) : Prop := {
  dw_epochs : NoDup (digest_key <$> t);
  dw_ok : ∀ x, x ∈ t → digest_ok x;
}.

Record only_digests (d d' : db) : Prop := {
  od_msgs : delivery_msg d' = delivery_msg d;
  od_attempts : delivery_attempt d' = delivery_attempt d;
  od_dead : delivery_dead d' = delivery_dead d;
  od_inbox : inbox_max_id d' = inbox_max_id d;
  od_wf : digests_wf (seat_digest d) → digests_wf (seat_digest d');
}.

#[export] Instance only_digests_preorder : PreOrder only_digests.
Proof. split; [by constructor|]. intros ??? [] []. constructor; try congruence. auto. Qed.

Lemma only_digests_wf d d' : only_digests d d' → wf d → wf d'.
Proof.
  intros [Hm Ha Hd Hi Hw] []. destruct Hw as [? ?]; [by constructor|].
  by constructor; rewrite ?Hm, ?Ha, ?Hd.
Qed.

Lemma set_digests_only t d :
  (digests_wf (seat_digest d) → digests_wf t) → only_digests d (set_digests t d).
Proof. intros H. by constructor. Qed.

Lemma update_digests_keeps p f :
  (∀ x, digest_key (f x) = digest_key x) → (∀ x, digest_ok x → digest_ok (f x)) →
  keeps only_digests (update_digests p f).
Proof.
  intros Hk Hf. apply keeps_modify. intros d. apply set_digests_only. intros [He Hok].
  constructor.
  - unfold update_where. rewrite <- list_fmap_compose.
    rewrite (list_fmap_ext _ digest_key); [done|].
    intros i x _. simpl. destruct (p x); [apply Hk|done].
  - intros x' (x & -> & Hx)%list_elem_of_fmap. destruct (p x); auto.
Qed.

Lemma insert_digest_keeps x : digest_ok x → keeps only_digests (insert_digest x).
Proof.
  intros Hx d. unfold insert_digest. destruct (existsb _ _) eqn:E; [reflexivity|].
  apply set_digests_only. intros [He Hok]. constructor.
  - rewrite fmap_app. apply NoDup_app. split_and!; [done| |apply NoDup_singleton].
    intros k (y & -> & Hy)%list_elem_of_fmap Hin%list_elem_of_singleton.
    apply not_true_iff_false in E. apply E, existsb_exists. exists y.
    rewrite <- list_elem_of_In. split; [done|]. injection Hin as Hr He'.
    unfold has_epoch. by rewrite bool_decide_eq_true_2, He', Z.eqb_refl.
  - intros y [Hy|Hy%list_elem_of_singleton]%elem_of_app; [auto|by subst].
Qed.

(** The epoch [_next_epoch_in] reads. *)
Definition next_epoch (recv : string) (t : list SeatDigest) : Z :=
  match max_by sd_epoch (select_where (λ x, bool_decide (sd_receiver_id x = recv)) t) with
  | None => 0 + 1
  | Some x => sd_epoch x + 1
  end.

Lemma next_epoch_above recv t x :
  x ∈ t → sd_receiver_id x = recv → sd_epoch x < next_epoch recv t.
Proof.
  intros Hx Hr. unfold next_epoch.
  assert (x ∈ select_where (λ x, bool_decide (sd_receiver_id x = recv)) t) as Hin.
  { apply elem_of_select. split; [by apply bool_decide_eq_true|done]. }
  destruct (max_by _ _) as [y|] eqn:E.
  - apply max_by_Some in E as [_ Hmax]. specialize (Hmax x Hin). lia.
  - apply max_by_None in E. rewrite E in Hin. by apply not_elem_of_nil in Hin.
Qed.

Lemma next_epoch_pos recv t : digests_wf t → 1 <= next_epoch recv t.
Proof.
  intros [_ Hok]. unfold next_epoch. destruct (max_by _ _) as [y|] eqn:E; [|lia].
  apply max_by_Some in E as [Hy _]. apply elem_of_select in Hy as [_ Hy].
  pose proof (dg_epoch _ (Hok y Hy)). lia.
Qed.

Lemma insert_next_keeps recv ids now :
  keeps only_digests
    (epoch ← _next_epoch_in recv; insert_digest (fresh_digest recv epoch ids now)).
Proof.
  intros d. erewrite bind_returned by reflexivity. fold (next_epoch recv (seat_digest d)).
  set (x := fresh_digest recv _ ids now).
  assert (digests_wf (seat_digest d) → digest_ok x) as Hx.
  { intros Hw. constructor; simpl; [by apply next_epoch_pos|lia|].
    split; by intros []. }
  unfold insert_digest. destruct (existsb _ _) eqn:E; [reflexivity|].
  constructor; try done. intros Hw.
  pose proof (insert_digest_keeps x (Hx Hw) d) as [_ _ _ _ H].
  unfold insert_digest in H. rewrite E in H. auto.
Qed.

Create HintDb digests discriminated.
#[export] Hint Resolve keeps_ret keeps_raise keeps_gets keeps_lift_outcome keeps_bind
  keeps_transaction keeps_catch insert_next_keeps only_digests_preorder : digests.
#[export] Hint Extern 1 (keeps _ (match ?x with _ => _ end)) => destruct x : digests.
#[export] Hint Extern 2 (keeps _ (update_digests _ _)) =>
  apply update_digests_keeps; [done|intros ? []; constructor; simpl; done || lia] : digests.

Ltac digest_keeps := eauto 30 with digests typeclass_instances.

Lemma open_digest_in_keeps recv : keeps only_digests (_open_digest_in recv).
Proof. unfold _open_digest_in. digest_keeps. Qed.
#[export] Hint Resolve open_digest_in_keeps : digests.

Lemma build_digest_keeps recv ids now : keeps only_digests (build_digest recv ids now).
Proof. unfold build_digest, open_digest. digest_keeps. Qed.

Lemma extend_digest_keeps recv epoch ids now :
  keeps only_digests (extend_digest recv epoch ids now).
Proof. unfold extend_digest, fetch_epoch. digest_keeps. Qed.

Lemma bump_wake_count_keeps recv epoch now : keeps only_digests (bump_wake_count recv epoch now).
Proof. unfold bump_wake_count, fetch_epoch. digest_keeps. Qed.

Lemma close_digest_keeps recv epoch via now : keeps only_digests (close_digest recv epoch via now).
Proof. unfold close_digest. digest_keeps. Qed.

(** Reading a message changes nothing. *)
Lemma message_of_reads o : keeps eq (message_of o).
Proof. destruct o; [by intros s|by intros s]. Qed.

#[export] Hint Resolve message_of_reads : cao.

(** ** Every call respects the life cycle *)

Section Respects.
Context (minted : list string).

Definition respected (d d' : db) : Prop := wf d' ∧ moved minted (delivery_msg d) (delivery_msg d').
Definition respects {A} (m : M db A) : Prop := ∀ d, wf d → respected d (state_of (m d)).

Lemma respected_refl d : wf d → respected d d.
Proof. intros H. split; [done|apply moved_refl]. Qed.

Lemma respects_ignore {A B} (m : M db A) (b : B) : respects m → respects (m ;; mret b).
Proof.
  intros H d Hd. specialize (H d Hd). unfold mbind, M_bind, state_of in *.
  by destruct (m d) as [? []].
Qed.

Lemma only_digests_respects {A} (m : M db A) : keeps only_digests m → respects m.
Proof.
  intros H d Hd. specialize (H d). split; [by eapply only_digests_wf|].
  unfold state_of. rewrite (od_msgs _ _ H). apply moved_refl.
Qed.

Lemma respected_fmap f d :
  wf d → (∀ r, r ∈ delivery_msg d → lstep_opt r (f r)) →
  (∀ r, r ∈ delivery_msg d → state (f r) = DEAD → state r = DEAD) →
  respected d (set_msgs (f <$> delivery_msg d) d).
Proof. intros. split; [by apply wf_fmap_alive|by apply moved_fmap]. Qed.

Lemma respected_update p f d :
  wf d → (∀ r, r ∈ delivery_msg d → p r = true → lstep r (f r) ∧ state (f r) ≠ DEAD) →
  respected d (set_msgs (update_where p f (delivery_msg d)) d).
Proof.
  intros Hwf H. apply respected_fmap; [done| |]; intros r Hr; simpl;
    destruct (p r) eqn:E; [right; by apply H|by left| |done].
  intros Hd. by destruct (H r Hr E).
Qed.

Lemma settle_lstep s now r :
  ¬ terminal r → is_terminal s = true → s ≠ DEAD →
  lstep r (settle_row s now r) ∧ state (settle_row s now r) ≠ DEAD.
Proof. intros. split; [|done]. apply L_settle; auto. Qed.

Lemma ack_respects i token now : respects (ack i token now).
Proof.
  intros d Hd. unfold ack, transaction. simpl. apply respected_update; [done|].
  intros r _ [_ Hs%has_state_spec]%andb_true_iff. apply settle_lstep; [|done|done].
  apply not_terminal. by right.
Qed.

Lemma hold_respects i held : respects (mark_dialog_hold i held).
Proof.
  intros d Hd. simpl. apply respected_fmap; [done| |]; intros r Hr; simpl; destruct (has_id i r).
  - right. apply L_hold.
  - by left.
  - done.
  - done.
Qed.

Lemma cancel_respects recv now : respects (cancel_on_complete recv now).
Proof.
  intros d Hd. rewrite cancel_returned by apply Hd. apply respected_update; [done|].
  unfold cancellable. intros r _. rewrite !andb_true_iff, has_state_spec. intros [[[_ Hs] _] _].
  apply settle_lstep; [|done|done]. apply not_terminal. by left.
Qed.

Lemma settle_through_respects recv up_to now : respects (settle_through recv up_to now).
Proof.
  intros d Hd. rewrite settle_through_returned by apply Hd. apply respected_update; [done|].
  unfold settles_through. intros r _ [_ Hs%negb_true_iff]%andb_true_iff.
  apply settle_lstep; [|done|done]. unfold terminal. by rewrite Hs.
Qed.

Lemma claim_respects owner now limit recv : respects (claim owner now limit recv).
Proof.
  intros d Hd. destruct (decide (Forall readable (claim_selection now limit recv d))) as [H|H].
  - rewrite claim_returned by (done || apply Hd). apply respected_fmap; [done| |];
      intros r Hr; case_bool_decide as Hin; try done; [|by left].
    right. apply claim_selection_elem in Hin as [_ Hc].
    apply claimable_ready in Hc as (? & ? & ? & ?). by apply L_claim.
  - destruct (claim_raised owner now limit recv d) as [e ->]; [apply Hd|done|].
    by apply respected_refl.
Qed.

Lemma record_attempt_respects a : respects (record_attempt a).
Proof.
  intros d Hd. simpl. destruct (existsb _ _) eqn:E; [by apply respected_refl|].
  split; [|apply moved_refl]. destruct Hd. constructor; try done. simpl.
  rewrite fmap_app. apply NoDup_app. split_and!; [done| |apply NoDup_singleton].
  intros k (b & -> & Hb)%list_elem_of_fmap Hin%list_elem_of_singleton.
  apply not_true_iff_false in E. apply E, existsb_exists. exists b.
  rewrite <- list_elem_of_In. split; [done|]. injection Hin as Hi Hc Hr.
  unfold same_attempt. by rewrite !bool_decide_eq_true_2, Hc, Z.eqb_refl by done.
Qed.

(** [reclaim]: at most one step for each row, one letter for each death. *)
Lemma lease_expired_spec now r :
  lease_expired now r = true → state r = LEASED ∧ null_lt (lease_expires_at r) now = true.
Proof. unfold lease_expired. by rewrite andb_true_iff, has_state_spec. Qed.

Lemma released_ended now A r :
  lease_expired now r = true → lease_ended r (released now A r).
Proof.
  intros [_ He]%lease_expired_spec. unfold released.
  destruct (uncertain A r); [by apply (ended_quarantined r now)|apply ended_offered; [done|]].
  unfold spent_by. destruct (spends_attempt _); auto.
Qed.

Lemma held_undelivered now r : held_past_ceiling now r = true → ¬ terminal r.
Proof.
  unfold held_past_ceiling, undelivered.
  rewrite andb_true_iff, orb_true_iff, !has_state_spec, not_terminal. tauto.
Qed.

Lemma exhausted_ready now r : exhausted now r = true → state r = READY.
Proof. unfold exhausted. rewrite andb_true_iff, has_state_spec. tauto. Qed.

Lemma reclaim_fate_alive now A r :
  is_Some (reclaim_fate now A r) → ¬ terminal (release_pass now A r).
Proof.
  unfold reclaim_fate. destruct (held_past_ceiling now _) eqn:Eh.
  - intros _. by eapply held_undelivered.
  - destruct (exhausted now _) eqn:Ee; [|by intros []].
    intros _. apply not_terminal. left. by eapply exhausted_ready.
Qed.

Lemma release_pass_cases now A r :
  (lease_expired now r = false ∧ release_pass now A r = r)
  ∨ (state r = LEASED ∧ lease_ended r (release_pass now A r)).
Proof.
  unfold release_pass. destruct (lease_expired now r) eqn:E; [right|by left].
  split; [by apply lease_expired_spec in E as [? _]|by apply released_ended].
Qed.

Lemma reclaim_row_lstep now A r : row_ok r → lstep_opt r (reclaim_row now A r).
Proof.
  intros Hr. rewrite reclaim_row_fate. destruct (reclaim_fate now A r) as [reason|] eqn:Ef.
  - right. assert (¬ terminal (release_pass now A r)) as Hn by (apply reclaim_fate_alive; by rewrite Ef).
    destruct (release_pass_cases now A r) as [[_ Heq]|[Hs He]].
    + rewrite Heq in *. apply L_kill; auto.
    + apply L_kill; [|by right; right]. apply not_terminal. by right.
  - destruct (release_pass_cases now A r) as [[_ Heq]|[Hs He]]; [by left|right].
    apply L_release; [done|done|].
    unfold reclaim_fate in Ef. destruct (held_past_ceiling now _); [done|].
    destruct (exhausted now _) eqn:Ee; [done|].
    apply lease_ended_spec in He as (Hid & Hst & _). unfold exhausted in Ee.
    rewrite (proj2 (has_state_spec READY _) Hst) in Ee. simpl in Ee.
    apply orb_false_iff in Ee as [Hb%Z.leb_gt _]. by rewrite (si_max _ _ Hid) in Hb.
Qed.

Lemma reclaim_row_dead now A r :
  state (reclaim_row now A r) = DEAD ↔ state r = DEAD ∨ is_Some (reclaim_fate now A r).
Proof.
  rewrite reclaim_row_fate. split.
  - destruct (reclaim_fate now A r) eqn:Ef; [by right; eexists|].
    intros Hd. left. destruct (release_pass_cases now A r) as [[_ Heq]|[Hs He]].
    + congruence.
    + apply lease_ended_spec in He as (_ & Hst & _). congruence.
  - intros [Hd|[reason ->]]; [|reflexivity].
    assert (release_pass now A r = r) as Heq.
    { destruct (release_pass_cases now A r) as [[_ ?]|[? _]]; congruence. }
    destruct (reclaim_fate now A r); [done|]. by rewrite Heq.
Qed.

Lemma omap_key_sublist {A B K} (f : A → option B) (k : A → K) (k' : B → K) (l : list A) :
  (∀ x y, f x = Some y → k' y = k x) → k' <$> omap f l `sublist_of` k <$> l.
Proof.
  intros H. induction l as [|x l IH]; [apply sublist_nil|].
  cbn. destruct (f x) as [y|] eqn:E; cbn.
  - rewrite (H x y E). by apply sublist_skip.
  - by apply sublist_cons.
Qed.

Lemma reclaim_letter_id now A r l :
  reclaim_letter now A r = Some l → dl_msg_id l = msg_id r.
Proof.
  unfold reclaim_letter. destruct (reclaim_fate now A r); simpl; [|done].
  intros [= <-]. simpl. apply release_pass_same.
Qed.

Lemma reclaim_deaths now d :
  wf d →
  deaths (reclaim_row now (delivery_attempt d)) (reclaim_letters now d) (delivery_msg d).
Proof.
  intros Hwf. set (A := delivery_attempt d).
  assert (∀ i, i ∈ dl_msg_id <$> reclaim_letters now d ↔
    ∃ r, r ∈ delivery_msg d ∧ msg_id r = i ∧ is_Some (reclaim_fate now A r)) as Hin.
  { intros i. rewrite (reclaim_letters_perm now d). fold A. rewrite list_elem_of_fmap.
    setoid_rewrite list_elem_of_omap. split.
    - intros (l & -> & r & Hr & Hl). exists r. rewrite (reclaim_letter_id _ _ _ _ Hl).
      split_and!; [done|done|]. unfold reclaim_letter in Hl. by apply fmap_Some in Hl as (? & -> & _).
    - intros (r & Hr & <- & [reason Hf]). eexists (dead_letter_of (with_mode LIVE (release_pass now A r)) reason now).
      assert (reclaim_letter now A r = Some (dead_letter_of (with_mode LIVE (release_pass now A r)) reason now)) as Hl
        by (unfold reclaim_letter; by rewrite Hf).
      split; [by rewrite (reclaim_letter_id _ _ _ _ Hl)|]. by exists r. }
  constructor.
  - rewrite (reclaim_letters_perm now d). eapply sublist_NoDup; [|apply omap_key_sublist].
    + apply Hwf.
    + intros r l. apply reclaim_letter_id.
  - intros i (r & Hr & Hi & Hf)%Hin. exists r. split_and!; [done|done| |].
    + intros Hd. apply reclaim_fate_alive in Hf.
      destruct (release_pass_cases now A r) as [[_ Heq]|[Hs _]]; [|congruence].
      apply Hf. rewrite Heq. unfold terminal. by rewrite Hd.
    + apply reclaim_row_dead. by right.
  - intros r Hr [Hd|Hf]%reclaim_row_dead; [by left|right]. apply Hin. by exists r.
Qed.

Lemma reclaim_db_eq now d :
  wf d →
  reclaim_db now d
  = set_dead_rows (delivery_dead d ++ reclaim_letters now d)
      (set_msgs (reclaim_row now (delivery_attempt d) <$> delivery_msg d) d).
Proof.
  intros Hwf. unfold reclaim_db. rewrite insert_dead_all; [done|].
  eapply deaths_fresh; [done|by apply reclaim_deaths].
Qed.

Lemma reclaim_respects now : respects (reclaim now).
Proof.
  intros d Hd. destruct (decide (reclaim_reads_ok now d)) as [H|H].
  - rewrite reclaim_returned by (done || apply Hd). rewrite reclaim_db_eq by done. split.
    + apply wf_fmap; [done| |by apply reclaim_deaths].
      intros r Hr. by apply reclaim_row_lstep, Hd.
    + apply moved_fmap. intros r Hr. by apply reclaim_row_lstep, Hd.
  - destruct (reclaim_raised now d (wf_ids _ Hd) H) as [e ->]. by apply respected_refl.
Qed.

(** [_kill] of a live row, inside a transaction. *)
Lemma kill_respected g m reason now d r :
  wf d → r ∈ delivery_msg d → ¬ terminal r → msg_id m = msg_id r →
  (∀ r, g r = r ∨ ∃ n, g r = set_attempts n r) →
  let f := λ x, if has_id (msg_id r) x then kill_row now (g x) else x in
  respected d (set_dead_rows (insert_dead (dead_letter_of m reason now) (delivery_dead d))
                 (set_msgs (f <$> delivery_msg d) d)).
Proof.
  intros Hwf Hr Hn Hm Hg f.
  assert (∀ x, x ∈ delivery_msg d → has_id (msg_id r) x = true → x = r) as Huniq.
  { intros x Hx Hid%has_id_spec. eapply NoDup_key_eq; [apply Hwf|done|done|done]. }
  assert (∀ x, x ∈ delivery_msg d → lstep_opt x (f x)) as Hf.
  { intros x Hx. unfold f. destruct (has_id (msg_id r) x) eqn:E; [right|by left].
    rewrite (Huniq x Hx E). apply L_kill; [done|].
    destruct (Hg r) as [->|Hs]; [by left|by right; left]. }
  assert (deaths f [dead_letter_of m reason now] (delivery_msg d)) as Hde.
  { constructor; simpl.
    - apply NoDup_singleton.
    - intros i ->%list_elem_of_singleton. exists r. split_and!; [done|done| |].
      + intros Hd. apply Hn. unfold terminal. by rewrite Hd.
      + unfold f. by rewrite (proj2 (has_id_spec _ _)).
    - intros x Hx. unfold f. destruct (has_id (msg_id r) x) eqn:E; [|by left].
      intros _. right. apply has_id_spec in E. rewrite E, <- Hm. left. }
  rewrite insert_dead_fresh.
  - split; [by apply wf_fmap|by apply moved_fmap].
  - pose proof (deaths_fresh _ _ _ Hwf Hde) as Hnd. rewrite fmap_app in Hnd.
    apply NoDup_app in Hnd as (_ & H & _). intros Hin. apply (H _ Hin). left.
Qed.

Lemma update_where_twice (p : row → bool) (f g : row → row) t :
  (∀ r, p (f r) = p r) →
  update_where p g (update_where p f t) = (λ r, if p r then g (f r) else r) <$> t.
Proof.
  intros H. unfold update_where. rewrite <- list_fmap_compose. apply list_fmap_ext.
  intros i r _. simpl. destruct (p r) eqn:E; [by rewrite H, E|by rewrite E].
Qed.

Lemma fetch_id_cases d i :
  wf d →
  (fetch_id i d = (d, Returned None) ∧ ∀ r, r ∈ delivery_msg d → msg_id r ≠ i)
  ∨ (∃ r, r ∈ delivery_msg d ∧ msg_id r = i ∧ fetch_id i d = (d, Returned (Some r))).
Proof.
  intros Hwf. destruct (decide (Exists (λ r, msg_id r = i) (delivery_msg d))) as [He|He].
  - right. apply Exists_exists in He as (r & Hr & <-). exists r.
    split_and!; [done|done|]. apply fetch_id_in; [apply Hwf|done].
  - left. rewrite <- Forall_Exists_neg, Forall_forall in He. split; [|done].
    unfold fetch_id, gets. by rewrite select_id_None.
Qed.

Lemma terminal_readable r : qm_terminal (with_mode LIVE r) = false → ¬ terminal r.
Proof. unfold qm_terminal, terminal. simpl. by intros ->. Qed.

Lemma respected_transaction {A} (m : M db A) d :
  wf d → respected d (state_of (m d)) → respected d (state_of (transaction m d)).
Proof.
  intros Hwf H. unfold transaction, state_of in *. destruct (m d) as [? []]; [done|].
  by apply respected_refl.
Qed.

Lemma settle_respects i s now reason att : respects (settle i s now reason att).
Proof.
  intros d Hd. unfold settle. destruct (is_terminal s) eqn:Es; simpl negb; cbn match;
    [|by apply respected_refl].
  destruct (bool_decide (s = DEAD) && bool_decide (reason = None)) eqn:Eg;
    [by apply respected_refl|].
  apply respected_transaction; [done|].
  destruct (fetch_id_cases d i Hd) as [[Hf _]|(r & Hr & <- & Hf)];
    erewrite bind_returned by exact Hf; cbn match; [by apply respected_refl|].
  destruct (decide (readable r)) as [Hre|Hre]; cycle 1.
  { apply row_to_message_ko in Hre as [e He].
    erewrite bind_raised; [by apply respected_refl|].
    unfold message_of, lift_outcome. by rewrite He. }
  erewrite bind_returned by (unfold message_of, lift_outcome; by rewrite row_to_message_readable).
  destruct (qm_terminal (with_mode LIVE r)) eqn:Et; [by apply respected_refl|].
  apply terminal_readable in Et.
  destruct (decide (s = DEAD)) as [->|Hs].
  - destruct reason as [reason|]; [|discriminate]. destruct att as [n|].
    + pose proof (kill_respected (set_attempts n) (set_attempts n (with_mode LIVE r)) reason now d r)
        as H. simpl. rewrite update_where_twice by done. apply H; eauto.
    + pose proof (kill_respected id (with_mode LIVE r) reason now d r) as H. simpl in *.
      apply H; eauto.
  - assert (∀ x, x ∈ delivery_msg d → has_id (msg_id r) x = true → x = r) as Huniq.
    { intros x Hx Hid%has_id_spec. eapply NoDup_key_eq; [apply Hd|done|done|done]. }
    destruct att as [n|].
    + replace (state_of _) with (set_msgs (update_where (has_id (msg_id r))
        (λ x, settle_row s now (set_attempts n x)) (delivery_msg d)) d).
      * apply respected_update; [done|]. intros x Hx ->%Huniq; [|done].
        split; [apply L_settle; eauto|done].
      * unfold update_where at 1. rewrite <- update_where_twice by done. by destruct s.
    + replace (state_of _) with (set_msgs (update_where (has_id (msg_id r))
        (settle_row s now) (delivery_msg d)) d) by (by destruct s).
      apply respected_update; [done|]. intros x Hx ->%Huniq; [|done].
      by apply settle_lstep.
Qed.

(** ** enqueue *)

Lemma bind_state {S A B} (m : M S A) (k : A → M S B) s :
  (∀ a, keeps eq (k a)) → state_of ((m ≫= k) s) = state_of (m s).
Proof.
  intros Hk. unfold mbind, M_bind, state_of. destruct (m s) as [s' [a|e]]; [|done].
  simpl. symmetry. apply Hk.
Qed.

Section EnqueueState.
Context (pd : string → string) (now : Z) (i : string) (draft : EnqueueDraft).

(** The key, then the id, are looked up before the row is appended. *)
Lemma enqueue_state d :
  state_of (enqueue pd now i draft d)
  = if existsb (has_key (ed_idempotency_key draft)) (delivery_msg d) then d
    else if existsb (has_id i) (delivery_msg d) then d
    else set_msgs (delivery_msg d ++ [draft_row pd now i draft]) d.
Proof.
  unfold enqueue. rewrite bind_state.
  - unfold catch, transaction, mbind, M_bind, insert_msg. simpl.
    destruct (existsb (has_key _) _); [done|]. by destruct (existsb (has_id i) _).
  - intros row. eauto 10 with cao.
Qed.

Lemma draft_row_born : draft_valid draft = true → born (draft_row pd now i draft).
Proof.
  unfold draft_valid. intros [_ Hm%Z.leb_le]%andb_true_iff.
  constructor; try done. simpl. by destruct (ed_mode draft).
Qed.

Lemma wf_append r d :
  wf d → born r → (∀ x, x ∈ delivery_msg d → msg_id x ≠ msg_id r) →
  (∀ x, x ∈ delivery_msg d → idempotency_key x ≠ idempotency_key r) →
  wf (set_msgs (delivery_msg d ++ [r]) d).
Proof using Type.
  intros Hwf Hb Hid Hkey.
  assert (∀ {K} (g : row → K), NoDup (g <$> delivery_msg d) →
    (∀ x, x ∈ delivery_msg d → g x ≠ g r) → NoDup (g <$> delivery_msg d ++ [r])) as Hnd.
  { intros K g H Hg. rewrite fmap_app. apply NoDup_app. split_and!; [done| |apply NoDup_singleton].
    intros k (x & -> & Hx)%list_elem_of_fmap Hin%list_elem_of_singleton. by apply (Hg x). }
  constructor; simpl; try apply Hwf.
  - apply Hnd; [apply Hwf|done].
  - apply Hnd; [apply Hwf|done].
  - intros x [Hx|Hx%list_elem_of_singleton]%elem_of_app; [by apply Hwf|].
    subst. by apply born_ok.
  - intros k. rewrite (wf_dead _ Hwf), !elem_of_dead_ids. split.
    + intros (x & Hx & ?). exists x. split; [apply elem_of_app; by left|done].
    + intros (x & [Hx|Hx%list_elem_of_singleton]%elem_of_app & ? & Hd); [by exists x|].
      subst. by rewrite (bo_state _ Hb) in Hd.
Qed.

Lemma enqueue_respects : draft_valid draft = true → i ∈ minted → respects (enqueue pd now i draft).
Proof.
  intros Hv Hi d Hd. rewrite enqueue_state.
  destruct (existsb (has_key _) _) eqn:Ek; [by apply respected_refl|].
  destruct (existsb (has_id i) _) eqn:Ei; [by apply respected_refl|].
  rewrite existsb_false in Ek, Ei.
  pose proof (draft_row_born Hv) as Hb. split.
  - apply wf_append; [done|done| |]; intros x Hx.
    + specialize (Ei x Hx). by apply bool_decide_eq_false in Ei.
    + specialize (Ek x Hx). by apply bool_decide_eq_false in Ek.
  - split; simpl.
    + intros r' [Hr|Hr%list_elem_of_singleton]%elem_of_app; [|right; by subst].
      left. exists r'. split; [done|by left].
    + intros r Hr. left. exists r. split; [apply elem_of_app; by left|by left].
Qed.
End EnqueueState.

(** ** reparent *)

Lemma keeps_respected {A} (m : M db A) d d0 :
  keeps only_digests m → respected d d0 → respected d (state_of (m d0)).
Proof.
  intros Hm [Hwf Hmv]. specialize (Hm d0). split; [by eapply only_digests_wf|].
  unfold state_of. by rewrite (od_msgs _ _ Hm).
Qed.

Lemma reparent_respects pd i recv now prefix : respects (reparent pd i recv now prefix).
Proof.
  intros d Hd. unfold reparent. apply respected_transaction; [done|].
  destruct (fetch_id_cases d i Hd) as [[Hf _]|(r & Hr & <- & Hf)];
    erewrite bind_returned by exact Hf; cbn match; [by apply respected_refl|].
  destruct (decide (readable r)) as [Hre|Hre]; cycle 1.
  { apply row_to_message_ko in Hre as [e He].
    erewrite bind_raised; [by apply respected_refl|].
    unfold message_of, lift_outcome. by rewrite He. }
  erewrite bind_returned by (unfold message_of, lift_outcome; by rewrite row_to_message_readable).
  destruct (qm_terminal (with_mode LIVE r)) eqn:Et; [by apply respected_refl|].
  apply terminal_readable in Et. cbv zeta.
  destruct (decide (receiver_id (with_mode LIVE r) = recv)) as [|Hne]; [by apply respected_refl|].
  erewrite bind_returned by reflexivity.
  apply keeps_respected; [digest_keeps|].
  apply respected_update; [done|]. intros x Hx Hid%has_id_spec.
  assert (x = r) as -> by (eapply NoDup_key_eq; [apply Hd|done|done|done]).
  split; [by apply L_reparent|]. simpl. intros Hdead. apply Et. unfold terminal. by rewrite Hdead.
Qed.

(** ** prune *)

Lemma prunable_terminal now protected r :
  row_ok r → prunable now protected r = true → terminal r.
Proof.
  unfold prunable. intros Hr [Ht _]%andb_true_iff. apply (ro_term _ Hr).
  by destruct (terminated_at r).
Qed.

Lemma prune_respects now protected : respects (prune now protected).
Proof.
  intros d Hd. rewrite prune_returned by apply Hd.
  assert (∀ {K R} (k : R → K) p (t : list R), NoDup (k <$> t) → NoDup (k <$> delete_where p t))
    as Hnd by (intros; eapply NoDup_key_sublist; [done|apply delete_where_sublist]).
  split.
  - constructor; simpl; try apply Hnd, Hd.
    + intros r [_ Hr]%elem_of_delete. by apply Hd.
    + intros i. rewrite list_elem_of_fmap, elem_of_dead_ids. setoid_rewrite elem_of_delete.
      unfold str_mem, pruned_ids. split.
      * intros (l & -> & [Hg%bool_decide_eq_false Hl]).
        assert (dl_msg_id l ∈ dead_ids (delivery_msg d)) as (r & Hr & Hid & Hs)%elem_of_dead_ids
          by (apply (wf_dead _ Hd); by apply list_elem_of_fmap_2).
        exists r. split_and!; [|done|done|done]. apply not_true_is_false. intros Hp.
        apply Hg. rewrite <- Hid. apply list_elem_of_fmap_2. by apply elem_of_select.
      * intros (r & [Hp Hr] & <- & Hs).
        assert (msg_id r ∈ dl_msg_id <$> delivery_dead d) as (l & Hid & Hl)%list_elem_of_fmap.
        { apply (wf_dead _ Hd), elem_of_dead_ids. by exists r. }
        exists l. split; [done|]. split; [|done]. apply bool_decide_eq_false.
        rewrite <- Hid. intros (x & Hk & [Hpx Hx]%elem_of_select)%list_elem_of_fmap.
        rewrite (NoDup_key_eq msg_id _ r x (wf_ids _ Hd) Hr Hx Hk) in Hp. congruence.
    + intros x [_ Hx]%elem_of_delete. by apply Hd.
  - split; simpl.
    + intros r [_ Hr]%elem_of_delete. left. exists r. split; [done|by left].
    + intros r Hr. destruct (prunable now protected r) eqn:E.
      * right. eapply prunable_terminal; [by apply Hd|done].
      * left. exists r. split; [by apply elem_of_delete|by left].
Qed.

End Respects.

Definition minted_by (o : op) : list string :=
  match o with OpEnqueue _ i _ => [i] | _ => [] end.

Lemma exec_respects pd o : op_valid o → respects (minted_by o) (exec pd o).
Proof.
  destruct o; intros Hv; simpl exec; try apply respects_ignore.
  - apply enqueue_respects; [done|left].
  - apply claim_respects.
  - apply ack_respects.
  - apply reclaim_respects.
  - apply record_attempt_respects.
  - apply settle_respects.
  - apply hold_respects.
  - apply reparent_respects.
  - apply only_digests_respects, build_digest_keeps.
  - apply only_digests_respects, extend_digest_keeps.
  - apply only_digests_respects, bump_wake_count_keeps.
  - apply only_digests_respects, close_digest_keeps.
  - apply cancel_respects.
  - apply settle_through_respects.
  - apply prune_respects.
Qed.

(** * Following a message through a run, and a sample run

    The later versions of a row are reached from it by life-cycle steps, so what
    every step keeps, every run keeps.  The second part is a concrete store the
    theorems are applied to. *)

(** ** Rows followed through a run *)

Section Follow.
Context (pd : string → string).

Definition mints (ops : list op) : list string := ops ≫= minted_by.

Lemma wf_run ops d : wf d → Forall op_valid ops → wf (run pd ops d).
Proof.
  revert d. induction ops as [|o ops IH]; intros d Hd Hv; [done|].
  apply Forall_cons in Hv as [Ho Hv]. simpl. apply IH; [|done].
  by apply (exec_respects pd o Ho d Hd).
Qed.

Lemma run_ancestor ops d r' :
  wf d → Forall op_valid ops → r' ∈ delivery_msg (run pd ops d) → msg_id r' ∉ mints ops →
  ∃ r, r ∈ delivery_msg d ∧ rtc lstep r r'.
Proof.
  revert d. induction ops as [|o ops IH]; intros d Hd Hv Hr Hm; [by exists r'|].
  apply Forall_cons in Hv as [Ho Hv]. simpl in Hr.
  destruct (exec_respects pd o Ho d Hd) as [Hd1 [Hfrom _]].
  unfold mints in Hm. rewrite bind_cons, not_elem_of_app in Hm. destruct Hm as [Hmo Hm].
  destruct (IH (step pd o d)) as (r1 & Hr1 & Hs1); [done|done|done|done|].
  destruct (Hfrom r1 Hr1) as [(r & Hr0 & [->|Hs])|[_ Hmint]].
  - by exists r.
  - exists r. split; [done|]. by eapply rtc_l.
  - destruct Hmo. assert (msg_id r' = msg_id r1) as ->; [|done].
    clear - Hs1. induction Hs1 as [|x y z Hxy _ IHs]; [done|].
    rewrite IHs. by apply si_id, lstep_identity.
Qed.

(** A property every step keeps holds of every later version of the row. *)
Lemma run_keeps (P : row → Prop) ops d r r' :
  (∀ x y, lstep x y → P x → P y) →
  wf d → Forall op_valid ops → r ∈ delivery_msg d → P r →
  r' ∈ delivery_msg (run pd ops d) → msg_id r' = msg_id r → msg_id r ∉ mints ops → P r'.
Proof.
  intros HP Hd Hv Hr HPr Hr' Hid Hm.
  destruct (run_ancestor ops d r') as (r0 & Hr0 & Hs); [done|done|done|by rewrite Hid|].
  assert (msg_id r' = msg_id r0) as Hid0.
  { clear - Hs. induction Hs as [|x y z Hxy _ IHs]; [done|].
    rewrite IHs. by apply si_id, lstep_identity. }
  assert (r0 = r) as -> by (eapply NoDup_key_eq; [apply Hd|done|done|congruence]).
  clear - HP HPr Hs. induction Hs; eauto.
Qed.
End Follow.

(** ** A sample run

    Two messages for one receiver, leased together; the first submission is
    left uncertain and the second is acknowledged. *)

(** Nothing in the invariant depends on the [mode] column. *)
Lemma wf_mode m d : wf d → wf (set_msgs (with_mode m <$> delivery_msg d) d).
Proof.
  intros Hw. constructor; simpl; try apply Hw.
  - rewrite <- list_fmap_compose. apply Hw.
  - rewrite <- list_fmap_compose. apply Hw.
  - intros r' (r & -> & Hr)%list_elem_of_fmap. by destruct (wf_rows _ Hw r Hr).
  - intros i. rewrite (wf_dead _ Hw), !elem_of_dead_ids. split.
    + intros (r & Hr & <- & Hd). exists (with_mode m r).
      by split; [apply list_elem_of_fmap_2|].
    + intros (r' & (r & -> & Hr)%list_elem_of_fmap & Hi & Hd). by exists r.
Qed.

Module Sample.

Definition pd (s : string) : string := "sha:" +:+ s.

Definition draft (key : string) : EnqueueDraft := {|
  ed_idempotency_key := key; ed_receiver_id := "t1"; ed_sender_id := "w1"; ed_kind := NOTE;
  ed_payload := "body of " +:+ key; ed_mode := LIVE; ed_max_attempts := 5;
  ed_expire_after_s := None; ed_supersede_key := None; ed_content_hash := None;
  ed_park_warm := false; ed_barrier_id := None; ed_barrier_member_key := None;
  ed_enqueue_generation := None; ed_cancel_on_complete := false; ed_is_notice := false;
  ed_legacy_message_id := None |}.

Definition attempt (i : string) (token : Z) (o : AttemptOutcome) : DeliveryAttempt := {|
  at_msg_id := i; at_claim_id := token; at_carrier := CARRIER_PANE; at_started_at := 20;
  at_outcome := o; at_detail := "" |}.

Definition enqueues : list op :=
  [OpEnqueue 0 "m1" (draft "k1"); OpEnqueue 1 "m2" (draft "k2")].
Definition leases : list op :=
  enqueues ++ [OpClaim "tick" 10 50 (Some "t1"%string)].
Definition settles : list op :=
  leases ++ [OpRecordAttempt (attempt "m1" 1 SUBMISSION_UNCERTAIN); OpAck "m2" 1 30].

Definition ready : db := run pd enqueues empty_db.
Definition leased : db := run pd leases empty_db.
Definition settled : db := run pd settles empty_db.

(** The row of a sample store with a given id. *)
Definition row_of (i : string) (d : db) : row :=
  default (draft_row pd 0 i (draft i)) (head (select_where (has_id i) (delivery_msg d))).

Lemma wf_sample ops : Forall op_valid ops → wf (run pd ops empty_db).
Proof. apply wf_run, wf_empty. Qed.

Lemma wf_ready : wf ready.
Proof. apply wf_sample. by repeat constructor. Qed.
Lemma wf_leased : wf leased.
Proof. apply wf_sample. by repeat constructor. Qed.
Lemma wf_settled : wf settled.
Proof. apply wf_sample. by repeat constructor. Qed.

(** The same store as a build with another [QueueMode] would have written it. *)
Definition shadow : db := set_msgs (with_mode "shadow"%string <$> delivery_msg leased) leased.

Lemma wf_shadow : wf shadow.
Proof. apply wf_mode, wf_leased. Qed.

End Sample.
