(* ===== verification/QueueThms.v ===== *)
(** * What the store guarantees over any sequence of calls

    The guarantees the rest of the delivery plane is built on: settled is
    settled, a fencing token is good once, a quarantined submission is never
    offered again, no message outlives its deadline by more than a lease, and
    every death is reported once. *)

From S2P Require Import Prelude Timing Delivery QueueRows QueueStore QueueLoops QueueLife QueueInv.
Import SqliteQueueStore.

(** ** Properties *)

(** [C25] Whatever sequence of calls is made on a well-formed store, by however
    many callers and with whatever arguments, the store stays well formed: no
    two rows share an id or an idempotency key, a row carries lease columns
    exactly while it is leased and a termination instant exactly when it is
    terminal, no lease outlasts the row's deadline by a lease period, no live
    row has spent its attempt budget, the dead-letter table holds one letter
    for each dead message and none for any other, and digest epochs are unique
    and positive. *)
Theorem store_invariant pd ops d : wf d → Forall op_valid ops → wf (run pd ops d).
Proof. apply wf_run. Qed.

(** [C1] Refinement: every single call moves each message by at most one step
    of the life cycle [lstep]; a message that appears is newborn, under the id
    the call minted, and a message that disappears was terminal. *)
Theorem store_refines_life pd o d :
  wf d → op_valid o →
  moved (minted_by o) (delivery_msg d) (delivery_msg (step pd o d)).
Proof. intros Hd Ho. by apply (exec_respects pd o Ho d Hd). Qed.

(** Settled is settled: once a message is delivered, superseded or dead,
    no sequence of calls changes any column of it except [held_since], the one
    column [mark_dialog_hold] writes without looking at the state. *)
Theorem terminal_is_final pd ops d r r' :
  wf d → Forall op_valid ops → r ∈ delivery_msg d → terminal r →
  r' ∈ delivery_msg (run pd ops d) → msg_id r' = msg_id r → msg_id r ∉ mints ops →
  ∃ held, r' = set_held_since held r.
Proof.
  intros Hd Hv Hr Ht Hr' Hid Hm.
  apply (run_keeps pd (λ x, ∃ held, x = set_held_since held r) ops d r r'); try done.
  - intros x y Hs [held ->].
    destruct (lstep_terminal _ _ Hs) as [->|[h ->]]; [done|by exists held|by exists h].
  - exists (held_since r). by destruct r.
Qed.

(** The deadline, the identity, the sender and the attempt budget of a
    message never change, and its fencing token never goes back. *)
Theorem deadline_immutable_token_monotone pd ops d r r' :
  wf d → Forall op_valid ops → r ∈ delivery_msg d →
  r' ∈ delivery_msg (run pd ops d) → msg_id r' = msg_id r → msg_id r ∉ mints ops →
  same_identity r r' ∧ claim_id r <= claim_id r'.
Proof.
  intros Hd Hv Hr Hr' Hid Hm.
  apply (run_keeps pd (λ x, same_identity r x ∧ claim_id r <= claim_id x) ops d r r'); try done.
  intros x y Hs [Hi Hc]. split; [etrans; [exact Hi|by apply lstep_identity]|].
  apply lstep_token in Hs. lia.
Qed.

(** ** ack *)

Lemma ack_value i token now d :
  ack i token now d
  = (set_msgs (update_where (λ r, has_id i r && (claim_id r =? token) && has_state LEASED r)
                 (settle_row DELIVERED now) (delivery_msg d)) d,
     Returned (0 <? rowcount (λ r, has_id i r && (claim_id r =? token)%Z && has_state LEASED r)
                      (delivery_msg d))%nat).
Proof. reflexivity. Qed.

Lemma ack_refused i token now d :
  (∀ r, r ∈ delivery_msg d → msg_id r = i → claim_id r ≠ token ∨ state r ≠ LEASED) →
  ack i token now d = (d, Returned false).
Proof.
  intros H. rewrite ack_value.
  assert (∀ r, r ∈ delivery_msg d →
    has_id i r && (claim_id r =? token) && has_state LEASED r = false) as Hp.
  { intros r Hr. apply not_true_is_false.
    rewrite !andb_true_iff, has_id_spec, has_state_spec, Z.eqb_eq.
    intros [[Hid Hc] Hs]. by destruct (H r Hr Hid). }
  rewrite update_where_none by done. rewrite set_msgs_same. do 2 f_equal.
  apply Nat.ltb_ge, Nat.le_ngt. intros (r & Hr & Hpr)%rowcount_pos. by rewrite Hp in Hpr.
Qed.

(** Fencing: a claimant whose token the row has moved past — its lease
    lapsed and was reclaimed — is refused for ever, and its late [ack] changes
    nothing, whatever happened in between. *)
Theorem stale_token_refused pd ops d r token now :
  wf d → Forall op_valid ops → r ∈ delivery_msg d → token < claim_id r → msg_id r ∉ mints ops →
  ack (msg_id r) token now (run pd ops d) = (run pd ops d, Returned false).
Proof.
  intros Hd Hv Hr Htok Hm. apply ack_refused. intros r' Hr' Hid. left.
  assert (token < claim_id r'); [|lia].
  apply (run_keeps pd (λ x, token < claim_id x) ops d r r'); try done.
  intros x y Hs%lstep_token ?. lia.
Qed.

(** A message is acknowledged at most once: after an [ack] that returned
    True, every later [ack] of the message, under any token, returns False and
    changes nothing. *)
Theorem acked_at_most_once pd ops d d1 i token now token' now' :
  wf d → Forall op_valid ops → i ∉ mints ops →
  ack i token now d = (d1, Returned true) →
  ack i token' now' (run pd ops d1) = (run pd ops d1, Returned false).
Proof.
  intros Hd Hv Hm Hack.
  assert (wf d1) as Hd1.
  { pose proof (ack_respects [] i token now d Hd) as [H _]. by rewrite Hack in H. }
  rewrite ack_value in Hack. injection Hack as <- Hc. apply Nat.ltb_lt in Hc.
  apply rowcount_pos in Hc as (r & Hr & Hp).
  apply ack_refused. intros r' Hr' Hid. right.
  set (d1 := set_msgs _ d) in *.
  assert (settle_row DELIVERED now r ∈ delivery_msg d1) as Hr1.
  { apply list_elem_of_fmap. exists r. by rewrite Hp. }
  rewrite !andb_true_iff, has_id_spec in Hp. destruct Hp as [[Hi _] _].
  assert (terminal r') as Ht.
  { apply (run_keeps pd terminal ops d1 (settle_row DELIVERED now r) r'); simpl; try done.
    - intros x y Hs Ht. by destruct (lstep_terminal _ _ Hs Ht) as [->|[? ->]].
    - congruence.
    - congruence. }
  intros Hs. unfold terminal in Ht. by rewrite Hs in Ht.
Qed.

(** ** claim *)

Lemma claim_inv owner now limit recv d d1 ms :
  wf d → claim owner now limit recv d = (d1, Returned ms) →
  Forall readable (claim_selection now limit recv d)
  ∧ d1 = set_msgs ((λ r, if bool_decide (r ∈ claim_selection now limit recv d)
                         then lease_row owner (lease_until now) r else r) <$> delivery_msg d) d
  ∧ ms = (λ r, with_mode LIVE (lease_row owner (lease_until now) r))
           <$> claim_selection now limit recv d.
Proof.
  intros Hd Hc. destruct (decide (Forall readable (claim_selection now limit recv d))) as [H|H].
  - rewrite claim_returned in Hc by (done || apply Hd). by injection Hc as <- <-.
  - destruct (claim_raised owner now limit recv d (wf_ids _ Hd) H) as [e He]. congruence.
Qed.

(** A claimed message and the row it was read from. *)
Lemma claim_row owner now limit recv d d1 ms m :
  wf d → claim owner now limit recv d = (d1, Returned ms) → m ∈ ms →
  ∃ r, r ∈ delivery_msg d ∧ claimable now recv r = true
    ∧ m = with_mode LIVE (lease_row owner (lease_until now) r)
    ∧ lease_row owner (lease_until now) r ∈ delivery_msg d1.
Proof.
  intros Hd Hc Hm. destruct (claim_inv _ _ _ _ _ _ _ Hd Hc) as (_ & -> & ->).
  apply list_elem_of_fmap in Hm as (r & -> & Hsel).
  pose proof (claim_selection_elem _ _ _ _ _ Hsel) as [Hr Hcl].
  exists r. split_and!; try done. simpl. apply list_elem_of_fmap. exists r.
  by rewrite bool_decide_eq_true_2.
Qed.

Lemma claim_wf owner now limit recv d d1 o :
  wf d → claim owner now limit recv d = (d1, o) → wf d1.
Proof.
  intros Hd Hc. pose proof (claim_respects [] owner now limit recv d Hd) as [H _]. by rewrite Hc in H.
Qed.

(** What [claim] does, exactly: it selects the READY, live, due rows of
    this receiver whose deadline is still ahead, oldest availability first and
    ties by id, at most [limit] of them; it returns each under a token one
    higher and a lease of one lease period, in that order; it leases exactly
    those rows and touches no other table. *)
Theorem claim_exact owner now limit recv d :
  wf d → (∀ r, r ∈ delivery_msg d → readable r) →
  let sel := claim_selection now limit recv d in
  claim owner now limit recv d
  = (set_msgs ((λ r, if bool_decide (r ∈ sel) then lease_row owner (lease_until now) r else r)
                 <$> delivery_msg d) d,
     Returned ((λ r, with_mode LIVE (lease_row owner (lease_until now) r)) <$> sel))
  ∧ (∀ r, r ∈ sel → r ∈ delivery_msg d ∧ claimable now recv r = true)
  ∧ Sorted (time_text_le available_at msg_id) sel ∧ NoDup (msg_id <$> sel)
  ∧ (0 <= limit → Z.of_nat (length sel) <= limit)
  ∧ (limit < 0 → sel ≡ₚ select_where (claimable now recv) (delivery_msg d)).
Proof.
  intros Hd Hre sel.
  assert (∀ r, r ∈ sel → r ∈ delivery_msg d ∧ claimable now recv r = true) as Hsel
    by (intros r; apply claim_selection_elem).
  split_and!; [|done| | | |].
  - apply claim_returned; [apply Hd|]. apply Forall_forall. intros r Hr. by apply Hre, Hsel.
  - apply sql_limit_sorted, order_by_sorted.
  - apply (claim_pending now limit recv d), Hd.
  - intros Hl. unfold sel, claim_selection, sql_limit.
    destruct (limit <? 0) eqn:E; [apply Z.ltb_lt in E; lia|]. rewrite length_take. lia.
  - intros Hl. unfold sel, claim_selection, sql_limit.
    apply Z.ltb_lt in Hl as ->. apply order_by_perm.
Qed.

(** Two claims never hold a message under the same token: any claim that
    follows another claim of the same message, whatever calls lie between,
    returns it under a strictly larger token. *)
Theorem claims_are_fenced pd ops owner now limit recv d d1 ms m owner' now' limit' recv' d2 ms' m' :
  wf d → Forall op_valid ops → msg_id m ∉ mints ops →
  claim owner now limit recv d = (d1, Returned ms) → m ∈ ms →
  claim owner' now' limit' recv' (run pd ops d1) = (d2, Returned ms') → m' ∈ ms' →
  msg_id m' = msg_id m → claim_id m < claim_id m'.
Proof.
  intros Hd Hv Hmint Hc Hm Hc' Hm' Hid.
  assert (wf d1) as Hd1 by (by eapply claim_wf).
  destruct (claim_row _ _ _ _ _ _ _ _ Hd Hc Hm) as (r & Hr & _ & -> & Hr1).
  destruct (claim_row _ _ _ _ _ _ _ _ (wf_run pd ops d1 Hd1 Hv) Hc' Hm') as (r2 & Hr2 & _ & -> & _).
  assert (claim_id r + 1 <= claim_id r2).
  { apply (run_keeps pd (λ x, claim_id r + 1 <= claim_id x) ops d1
      (lease_row owner (lease_until now) r) r2); simpl; try done.
    intros x y Hs%lstep_token ?. lia. }
  simpl. lia.
Qed.

(** A message leased to one claimant is out of the reach of the others. *)
Lemma leased_not_claimable now recv r : state r = LEASED → claimable now recv r = false.
Proof.
  intros Hs. apply not_true_is_false. intros (Hr & _)%claimable_ready. congruence.
Qed.

(** ** reclaim *)

Lemma reclaim_inv now d d1 res :
  wf d → reclaim now d = (d1, Returned res) →
  reclaim_reads_ok now d ∧ d1 = reclaim_db now d ∧ res = reclaim_result now d.
Proof.
  intros Hd Hc. destruct (decide (reclaim_reads_ok now d)) as [H|H].
  - rewrite reclaim_returned in Hc by (done || apply Hd). by injection Hc as <- <-.
  - destruct (reclaim_raised now d (wf_ids _ Hd) H) as [e He]. congruence.
Qed.

Lemma reclaim_wf now d d1 o : wf d → reclaim now d = (d1, o) → wf d1.
Proof.
  intros Hd Hc. pose proof (reclaim_respects [] now d Hd) as [H _]. by rewrite Hc in H.
Qed.

Lemma release_counts_all A sel a b c :
  foldl (release_counts A) (a, b, c) sel
  = (a + Z.of_nat (rowcount (λ r, negb (uncertain A r)) sel),
     b + Z.of_nat (rowcount (λ r, negb (uncertain A r) && spends_attempt (last_outcome A r)) sel),
     c + Z.of_nat (rowcount (uncertain A) sel)).
Proof.
  unfold rowcount, select_where. revert a b c.
  induction sel as [|r sel IH]; intros a b c; simpl foldl.
  { simpl. by rewrite !Z.add_0_r. }
  change (release_counts A (a, b, c) r) with
    (if uncertain A r then (a, b, c + 1) else (a + 1, b + spent_by A r, c)).
  rewrite !filter_cons. unfold spent_by.
  destruct (uncertain A r); simpl; rewrite IH.
  - f_equal. lia.
  - destruct (spends_attempt (last_outcome A r)); simpl; f_equal; f_equal; lia.
Qed.

(** What [reclaim] does, exactly, when the rows it reads are readable:
    every row goes through release, ceiling and exhaustion in that order; the
    dead-letter table gains the letters of the rows that die and nothing else;
    and the report counts the leases put back, the attempts spent, the
    submissions quarantined, and names each death once. *)
Theorem reclaim_exact now d :
  wf d →
  (∀ r, r ∈ delivery_msg d → reclaim_reads now (delivery_attempt d) r = true → readable r) →
  let A := delivery_attempt d in
  let expired := select_where (lease_expired now) (delivery_msg d) in
  ∃ letters dead,
    reclaim now d
    = (set_dead_rows (delivery_dead d ++ letters)
         (set_msgs (reclaim_row now A <$> delivery_msg d) d),
       Returned {|
         rr_reoffered := Z.of_nat (rowcount (λ r, negb (uncertain A r)) expired);
         rr_incremented := Z.of_nat
           (rowcount (λ r, negb (uncertain A r) && spends_attempt (last_outcome A r)) expired);
         rr_quarantined := Z.of_nat (rowcount (uncertain A) expired);
         rr_dead := dead |})
    ∧ letters ≡ₚ omap (reclaim_letter now A) (delivery_msg d)
    ∧ dead ≡ₚ omap (reclaim_death now A) (delivery_msg d)
    ∧ NoDup (dl_msg_id <$> delivery_dead d ++ letters).
Proof.
  intros Hd Hre A expired. exists (reclaim_letters now d), (reclaim_dead now d).
  split_and!.
  - rewrite reclaim_returned; [|apply Hd|by apply reclaim_reads_ok_iff].
    rewrite reclaim_db_eq by done. unfold reclaim_result, reclaim_expired.
    by rewrite release_counts_all, !Z.add_0_l.
  - apply reclaim_letters_perm.
  - apply reclaim_dead_perm.
  - eapply deaths_fresh; [done|by apply reclaim_deaths].
Qed.

Lemma reclaim_row_in now d d1 res r :
  wf d → reclaim now d = (d1, Returned res) → r ∈ delivery_msg d →
  reclaim_row now (delivery_attempt d) r ∈ delivery_msg d1.
Proof.
  intros Hd (_ & -> & _)%reclaim_inv Hr; [|done]. simpl. by apply list_elem_of_fmap_2.
Qed.

(** Quarantine is permanent: when a lease lapses on a submission whose
    outcome is uncertain, no later claim ever returns that message again —
    whatever else happens — so it is never typed into the pane a second time. *)
Theorem quarantine_is_permanent pd ops now d d1 res r owner now' limit recv d2 ms :
  wf d → Forall op_valid ops → msg_id r ∉ mints ops →
  r ∈ delivery_msg d → lease_expired now r = true →
  last_outcome (delivery_attempt d) r = Some SUBMISSION_UNCERTAIN →
  reclaim now d = (d1, Returned res) →
  claim owner now' limit recv (run pd ops d1) = (d2, Returned ms) →
  ∀ m, m ∈ ms → msg_id m ≠ msg_id r.
Proof.
  intros Hd Hv Hm Hr He Ho Hrec Hc m Hms Hid.
  assert (wf d1) as Hd1 by (by eapply reclaim_wf).
  pose proof (reclaim_row_in _ _ _ _ _ Hd Hrec Hr) as Hr1.
  set (r1 := reclaim_row now (delivery_attempt d) r) in *.
  assert (unclaimable r1) as Hu.
  { unfold r1. rewrite reclaim_row_fate.
    destruct (reclaim_fate now (delivery_attempt d) r); [by left|].
    unfold release_pass, released, uncertain. rewrite He, bool_decide_eq_true_2 by done.
    apply quarantined_unclaimable. }
  assert (msg_id r1 = msg_id r) as Hid1
    by (apply si_id, lstep_opt_identity, reclaim_row_lstep, Hd, Hr).
  destruct (claim_row _ _ _ _ _ _ _ _ (wf_run pd ops d1 Hd1 Hv) Hc Hms) as (r2 & Hr2 & Hcl & -> & _).
  assert (unclaimable r2) as Hu2.
  { apply (run_keeps pd unclaimable ops d1 r1 r2); try done.
    - exact lstep_unclaimable.
    - by rewrite Hid1.
    - by rewrite Hid1. }
  by rewrite unclaimable_claim in Hcl.
Qed.

Lemma reclaim_row_due now A r :
  row_ok r → dead_by r + seconds (DELIVERY_LEASE_S shipped) <= now →
  terminal (reclaim_row now A r).
Proof.
  intros Hr Hnow. rewrite reclaim_row_fate.
  destruct (reclaim_fate now A r) as [reason|] eqn:Ef; [done|].
  destruct (decide (terminal (release_pass now A r))) as [?|Hn]; [done|exfalso].
  assert (state (release_pass now A r) = READY ∧ dead_by (release_pass now A r) = dead_by r) as [Hs Hdb].
  { destruct (release_pass_cases now A r) as [[Hex Heq]|[_ He]].
    - rewrite Heq in *. split; [|done]. apply not_terminal in Hn as [?|Hl]; [done|exfalso].
      destruct (proj1 (ro_lease _ Hr) Hl) as [e He]. pose proof (ro_bound _ Hr e He).
      unfold lease_expired in Hex. rewrite (proj2 (has_state_spec LEASED r) Hl), He in Hex.
      simpl in Hex. apply Z.ltb_ge in Hex. lia.
    - apply lease_ended_spec in He as (Hid & Hs & _). split; [done|apply Hid]. }
  unfold reclaim_fate in Ef. destruct (held_past_ceiling now _); [done|].
  unfold exhausted in Ef. rewrite (proj2 (has_state_spec READY _) Hs), Hdb in Ef.
  rewrite (proj2 (Z.leb_le (dead_by r) now)) in Ef; [|unfold seconds in Hnow; simpl in Hnow; lia].
  by rewrite orb_true_r in Ef.
Qed.

(** [C39] No message outlives its deadline: one [reclaim] pass run a lease
    period or more after a row's deadline leaves the row terminal — and when
    it was not terminal already, dead, with a dead letter. *)
Theorem message_ends_by_deadline now d r :
  wf d →
  (∀ x, x ∈ delivery_msg d → reclaim_reads now (delivery_attempt d) x = true → readable x) →
  r ∈ delivery_msg d → dead_by r + seconds (DELIVERY_LEASE_S shipped) <= now →
  ∃ d1 res r1, reclaim now d = (d1, Returned res) ∧ r1 ∈ delivery_msg d1
    ∧ msg_id r1 = msg_id r ∧ terminal r1
    ∧ (¬ terminal r → state r1 = DEAD ∧ msg_id r ∈ dl_msg_id <$> delivery_dead d1).
Proof.
  intros Hd Hre Hr Hnow. apply reclaim_reads_ok_iff in Hre.
  pose proof (reclaim_returned now d (wf_ids _ Hd) Hre) as Hrec.
  pose proof (reclaim_row_due now (delivery_attempt d) r (wf_rows _ Hd r Hr) Hnow) as Ht.
  exists (reclaim_db now d), (reclaim_result now d), (reclaim_row now (delivery_attempt d) r).
  assert (msg_id (reclaim_row now (delivery_attempt d) r) = msg_id r) as Hid
    by (apply si_id, lstep_opt_identity, reclaim_row_lstep, Hd, Hr).
  assert (reclaim_row now (delivery_attempt d) r ∈ delivery_msg (reclaim_db now d)) as Hin
    by (by apply (reclaim_row_in now d _ (reclaim_result now d))).
  split_and!; [done|done|done|done|]. intros Hn.
  assert (state (reclaim_row now (delivery_attempt d) r) = DEAD) as Hdead.
  { rewrite reclaim_row_fate in *. destruct (reclaim_fate now (delivery_attempt d) r); [done|].
    destruct (release_pass_cases now (delivery_attempt d) r) as [[_ Heq]|[_ He]].
    - by rewrite Heq in Ht.
    - apply lease_ended_spec in He as (_ & Hs & _). unfold terminal in Ht. by rewrite Hs in Ht. }
  split; [done|]. assert (wf (reclaim_db now d)) as Hd1 by (by eapply reclaim_wf).
  apply (wf_dead _ Hd1), elem_of_dead_ids. eexists. by split_and!.
Qed.

Lemma reclaim_reads_mono now now' A r :
  now <= now' → reclaim_reads now A r = true → reclaim_reads now' A r = true.
Proof.
  intros Hle. unfold reclaim_reads.
  assert (∀ x : row, lease_expired now x = true → lease_expired now' x = true) as He.
  { intros x. unfold lease_expired. rewrite !andb_true_iff. intros [? Hx]. split; [done|].
    destruct (lease_expires_at x); simpl in *; [|done]. lia. }
  assert (∀ x : row, held_past_ceiling now x = true → held_past_ceiling now' x = true) as Hh.
  { intros x. unfold held_past_ceiling. rewrite !andb_true_iff. intros [? Hx]. split; [done|].
    destruct (held_since x); simpl in *; [|done]. lia. }
  assert (∀ x : row, exhausted now x = true → exhausted now' x = true) as Hx.
  { intros x. unfold exhausted. rewrite !andb_true_iff, !orb_true_iff. intros [? [?|?]];
      (split; [done|]); [by left|right; lia]. }
  destruct (lease_expired now' r) eqn:E'; [done|]. simpl.
  assert (lease_expired now r = false) as E.
  { destruct (lease_expired now r) eqn:E; [|done]. apply He in E. congruence. }
  rewrite E. unfold release_pass. rewrite E, E'. simpl.
  destruct (held_past_ceiling now' r) eqn:Eh'; [done|]. simpl.
  assert (held_past_ceiling now r = false) as Eh.
  { destruct (held_past_ceiling now r) eqn:Eh; [|done]. apply Hh in Eh. congruence. }
  rewrite Eh. unfold veto_pass. rewrite Eh, Eh'. apply Hx.
Qed.

(** The poisoned-row hazard the migrator works around: if a row [reclaim]
    must read carries a mode this build does not know (or an empty
    identifier), [reclaim] raises, rolls everything back, and does so at every
    later instant: no lease of any message is put back and no message dies
    until the row is removed by other means. *)
Theorem unreadable_row_blocks_reclaim now now' d r :
  wf d → r ∈ delivery_msg d → ¬ readable r →
  reclaim_reads now (delivery_attempt d) r = true → now <= now' →
  ∃ e, reclaim now' d = (d, Raised e).
Proof.
  intros Hd Hr Hno Hreads Hle. apply reclaim_raised; [apply Hd|].
  intros Hok. apply Hno. apply (proj1 (reclaim_reads_ok_iff now' d) Hok r Hr).
  by eapply reclaim_reads_mono.
Qed.

(** ** enqueue *)

Lemma select_key_unique (t : list row) r :
  NoDup (idempotency_key <$> t) → r ∈ t → head (select_where (has_key (idempotency_key r)) t) = Some r.
Proof.
  intros Hnd Hr. destruct (select_where _ t) as [|x l] eqn:E.
  - assert (r ∈ select_where (has_key (idempotency_key r)) t) as Hin
      by (apply elem_of_select; split; [by apply bool_decide_eq_true|done]).
    rewrite E in Hin. by apply not_elem_of_nil in Hin.
  - assert (x ∈ select_where (has_key (idempotency_key r)) t) as Hin by (rewrite E; left).
    apply elem_of_select in Hin as [Hk%bool_decide_eq_true Hx]. simpl.
    by rewrite (NoDup_key_eq idempotency_key t x r).
Qed.

Lemma compute_dead_by_bounds now e life :
  0 <= life →
  now <= compute_dead_by now now e life <= now + seconds life
  ∧ (∀ x, e = Some x → 0 < x → compute_dead_by now now e life <= now + seconds x).
Proof.
  intros Hl. unfold compute_dead_by, seconds. rewrite Z.max_id.
  destruct e as [x|].
  - destruct (0 <? x) eqn:E; [apply Z.ltb_lt in E|apply Z.ltb_ge in E]; split; try lia;
      intros y [= <-] ?; lia.
  - split; [lia|by intros].
Qed.

(** What [enqueue] does on every branch: a new key appends one READY row,
    deadline at most one lifetime (and at most its own positive expiry) away,
    and returns it; a repeated key with the same payload digest changes nothing
    and returns the stored message; with another digest it is refused as a
    conflict; a clash on the minted id is refused and nothing is stored. *)
Theorem enqueue_exact pd now i draft d :
  wf d → draft_valid draft = true → i ≠ ""%string →
  let r0 := draft_row pd now i draft in
  (now <= dead_by r0 <= now + seconds (DELIVERY_MAX_LIFETIME_S shipped)
   ∧ ∀ e, ed_expire_after_s draft = Some e → 0 < e → dead_by r0 <= now + seconds e)
  ∧ ((∀ r, r ∈ delivery_msg d → idempotency_key r ≠ ed_idempotency_key draft) →
     ((∀ r, r ∈ delivery_msg d → msg_id r ≠ i) →
      enqueue pd now i draft d
      = (set_msgs (delivery_msg d ++ [r0]) d, Returned (with_mode LIVE r0)))
     ∧ ((∃ r, r ∈ delivery_msg d ∧ msg_id r = i) →
        ∃ w, enqueue pd now i draft d = (d, Raised (PersistentEnqueueRejection w))))
  ∧ (∀ r, r ∈ delivery_msg d → idempotency_key r = ed_idempotency_key draft → readable r →
     enqueue pd now i draft d
     = (d, if decide (payload_digest r = pd (ed_payload draft)) then Returned (with_mode LIVE r)
           else Raised (IdempotencyConflict (ed_idempotency_key draft)))).
Proof.
  intros Hd Hv Hi r0. split; [|split].
  - apply (compute_dead_by_bounds now); done.
  - intros Hkey.
    assert (existsb (has_key (ed_idempotency_key draft)) (delivery_msg d) = false) as Hk.
    { apply existsb_false. intros r Hr. by apply bool_decide_eq_false, Hkey. }
    split.
    + intros Hid.
      assert (existsb (has_id i) (delivery_msg d) = false) as Hi'.
      { apply existsb_false. intros r Hr. by apply bool_decide_eq_false, Hid. }
      assert (wf (set_msgs (delivery_msg d ++ [r0]) d)) as Hwf1.
      { apply wf_append; [done|by apply draft_row_born|done|done]. }
      assert (head (select_where (has_key (ed_idempotency_key draft)) (delivery_msg d ++ [r0]))
              = Some r0) as Hsel.
      { apply (select_key_unique _ r0); [apply Hwf1|]. apply elem_of_app. right. left. }
      assert (_row_to_message r0 = Returned (with_mode LIVE r0)) as Hread.
      { apply row_to_message_readable. split; [simpl; by destruct (ed_mode draft)|].
        unfold draft_valid in Hv. apply andb_true_iff in Hv as [Hv _].
        apply andb_true_iff in Hv as [Hv1 Hv2].
        unfold row_fields_valid. simpl. by rewrite Hv1, Hv2, bool_decide_eq_true_2. }
      unfold enqueue, mbind, M_bind, catch, transaction, insert_msg, fetch_key, gets, message_of,
        lift_outcome. simpl. fold r0. rewrite Hk, Hi'. simpl. rewrite Hsel, Hread. simpl.
      by rewrite decide_True.
    + intros (r & Hr & Hri).
      assert (existsb (has_id i) (delivery_msg d) = true) as Hi'.
      { apply existsb_exists. exists r. rewrite <- list_elem_of_In, has_id_spec. done. }
      eexists. unfold enqueue, mbind, M_bind, catch, transaction, insert_msg. simpl.
      by rewrite Hk, Hi'.
  - intros r Hr Hrk Hre.
    assert (existsb (has_key (ed_idempotency_key draft)) (delivery_msg d) = true) as Hk.
    { apply existsb_exists. exists r. rewrite <- list_elem_of_In. split; [done|].
      by apply bool_decide_eq_true. }
    unfold enqueue, mbind, M_bind, catch, transaction, insert_msg, fetch_key, gets, message_of,
      lift_outcome. simpl. rewrite Hk, <- Hrk, select_key_unique by (done || apply Hd).
    rewrite row_to_message_readable by done. simpl. by destruct (decide _).
Qed.

(** ** cancel_on_complete, settle_through, prune *)

(** A completion cancels exactly the READY live rows of the receiver that
    asked for it — never one under a claim — and a drain up to an id settles
    exactly the unsettled live rows up to it, both in one transaction and each
    reporting the ids it ended. *)
Theorem settlers_exact recv up_to now d :
  wf d →
  cancel_on_complete recv now d
  = (set_msgs (update_where (cancellable recv) (settle_row SUPERSEDED now) (delivery_msg d)) d,
     Returned (msg_id <$> select_where (cancellable recv) (delivery_msg d)))
  ∧ settle_through recv up_to now d
    = (set_msgs (update_where (settles_through recv up_to) (settle_row DELIVERED now)
                   (delivery_msg d)) d,
       Returned (msg_id <$> select_where (settles_through recv up_to) (delivery_msg d)))
  ∧ (∀ r, cancellable recv r = true → state r = READY)
  ∧ (∀ r, settles_through recv up_to r = true → ¬ terminal r).
Proof.
  intros Hd. split_and!.
  - apply cancel_returned, Hd.
  - apply settle_through_returned, Hd.
  - intros r. unfold cancellable. rewrite !andb_true_iff, has_state_spec. tauto.
  - intros r. unfold settles_through, terminal. rewrite !andb_true_iff, negb_true_iff.
    intros [_ ->]. done.
Qed.

(** Retention removes exactly the unprotected messages that ended before
    the horizon, with their attempts and letters and nobody else's, and the
    closed digests past the horizon that name no protected message; a live
    message is never removed, and the number returned counts both. *)
Theorem prune_exact now protected d :
  wf d →
  prune now protected d
  = (prune_db now protected d,
     Returned (Z.of_nat (rowcount (prunable now protected) (delivery_msg d)
                         + rowcount (prunable_digest now protected) (seat_digest d))))
  ∧ (∀ r, r ∈ delivery_msg d → ¬ terminal r → r ∈ delivery_msg (prune_db now protected d))
  ∧ (∀ a r, a ∈ delivery_attempt d → r ∈ delivery_msg (prune_db now protected d) →
       at_msg_id a = msg_id r → a ∈ delivery_attempt (prune_db now protected d)).
Proof.
  intros Hd. split_and!.
  - apply prune_returned; apply Hd.
  - intros r Hr Hn. apply elem_of_delete. split; [|done]. apply not_true_is_false.
    intros Hp. by apply prunable_terminal in Hp; [|apply Hd].
  - intros a r Ha [Hp Hr]%elem_of_delete Hid. apply elem_of_delete. split; [|done].
    apply bool_decide_eq_false. rewrite Hid.
    intros (x & Hk & [Hpx Hx]%elem_of_select)%list_elem_of_fmap.
    rewrite (NoDup_key_eq msg_id _ r x (wf_ids _ Hd) Hr Hx Hk) in Hp. congruence.
Qed.

Lemma store_invariant_witness : wf (run Sample.pd Sample.settles empty_db).
Proof. apply (store_invariant Sample.pd); [apply wf_empty|by repeat constructor]. Defined.

Lemma store_refines_life_witness :
  moved [] (delivery_msg Sample.leased) (delivery_msg (step Sample.pd (OpReclaim 100) Sample.leased)).
Proof.
  apply (store_refines_life Sample.pd (OpReclaim 100)); [apply Sample.wf_leased|exact I].
Defined.

Lemma terminal_is_final_witness :
  ∃ held, Sample.row_of "m2" (run Sample.pd [OpHold "m2" (Some 7)] Sample.settled)
          = set_held_since held (Sample.row_of "m2" Sample.settled).
Proof.
  apply (terminal_is_final Sample.pd [OpHold "m2" (Some 7)] Sample.settled);
    [apply Sample.wf_settled|by repeat constructor|by_eval|by_eval|by_eval|by_eval|by_eval].
Defined.

Lemma deadline_immutable_token_monotone_witness :
  let r := Sample.row_of "m1" Sample.ready in
  let r' := Sample.row_of "m1" (run Sample.pd [OpClaim "tick" 10 50 None] Sample.ready) in
  same_identity r r' ∧ claim_id r <= claim_id r'.
Proof.
  apply (deadline_immutable_token_monotone Sample.pd [OpClaim "tick" 10 50 None] Sample.ready);
    [apply Sample.wf_ready|by repeat constructor|by_eval|by_eval|by_eval|by_eval].
Defined.

(** The lease of m2 lapses and is put back: the old holder's token is stale. *)
Lemma stale_token_refused_witness :
  let d := run Sample.pd [OpReclaim (seconds 100)] Sample.leased in
  ack "m2" 1 (seconds 101) (run Sample.pd [OpClaim "tick" (seconds 200) 50 None] d)
  = (run Sample.pd [OpClaim "tick" (seconds 200) 50 None] d, Returned false).
Proof.
  apply (stale_token_refused Sample.pd [OpClaim "tick" (seconds 200) 50 None]
    (run Sample.pd [OpReclaim (seconds 100)] Sample.leased)
    (Sample.row_of "m2" (run Sample.pd [OpReclaim (seconds 100)] Sample.leased)));
    [apply wf_run; [apply Sample.wf_leased|by repeat constructor]|by repeat constructor
    |by_eval|by_eval|by_eval].
Defined.

Lemma acked_at_most_once_witness :
  ∃ d1, ack "m2" 1 30 Sample.leased = (d1, Returned true)
        ∧ ack "m2" 1 40 (run Sample.pd [OpReclaim (seconds 99)] d1)
          = (run Sample.pd [OpReclaim (seconds 99)] d1, Returned false).
Proof.
  eexists. split; [vm_compute; reflexivity|].
  eapply (acked_at_most_once Sample.pd [OpReclaim (seconds 99)] Sample.leased _ "m2" 1 30);
    [apply Sample.wf_leased|by repeat constructor|by_eval|vm_compute; reflexivity].
Defined.

Lemma claim_exact_witness :
  wf Sample.ready ∧ (claim "tick" 10 1 (Some "t1"%string) Sample.ready).1
  = set_msgs ((λ r, if bool_decide (r ∈ claim_selection 10 1 (Some "t1"%string) Sample.ready)
                    then lease_row "tick" (lease_until 10) r else r)
                <$> delivery_msg Sample.ready) Sample.ready.
Proof.
  split; [apply Sample.wf_ready|].
  rewrite (proj1 (claim_exact "tick" 10 1 (Some "t1"%string) Sample.ready Sample.wf_ready
    ltac:(apply Forall_forall; by_eval))). reflexivity.
Defined.

Lemma claims_are_fenced_witness :
  claim_id (Sample.row_of "m2" Sample.leased)
  < claim_id (Sample.row_of "m2" (run Sample.pd [OpReclaim (seconds 100);
      OpClaim "tick" (seconds 200) 50 None] Sample.leased)).
Proof.
  apply (claims_are_fenced Sample.pd [OpReclaim (seconds 100)] "tick" 10 50 (Some "t1"%string)
    Sample.ready Sample.leased
    ((with_mode LIVE) <$> delivery_msg Sample.leased)
    (with_mode LIVE (Sample.row_of "m2" Sample.leased)) "tick" (seconds 200) 50 None
    (run Sample.pd [OpReclaim (seconds 100); OpClaim "tick" (seconds 200) 50 None] Sample.leased)
    ((with_mode LIVE) <$> delivery_msg (run Sample.pd [OpReclaim (seconds 100);
      OpClaim "tick" (seconds 200) 50 None] Sample.leased))
    (with_mode LIVE (Sample.row_of "m2" (run Sample.pd [OpReclaim (seconds 100);
      OpClaim "tick" (seconds 200) 50 None] Sample.leased))));
    [apply Sample.wf_ready|by repeat constructor|by_eval|vm_compute; reflexivity|by_eval
    |vm_compute; reflexivity|by_eval|by_eval].
Defined.

Lemma reclaim_exact_witness :
  ∃ letters dead,
    reclaim (seconds 100) Sample.settled
    = (set_dead_rows (delivery_dead Sample.settled ++ letters)
         (set_msgs (reclaim_row (seconds 100) (delivery_attempt Sample.settled)
                      <$> delivery_msg Sample.settled) Sample.settled),
       Returned {| rr_reoffered := 0; rr_incremented := 0; rr_quarantined := 1; rr_dead := dead |}).
Proof.
  destruct (reclaim_exact (seconds 100) Sample.settled Sample.wf_settled) as (letters & dead & H & _).
  { intros r Hr _. revert r Hr. apply Forall_forall. by_eval. }
  exists letters, dead. exact H.
Defined.

Lemma quarantine_is_permanent_witness :
  ∃ d1 res d2 ms,
    reclaim (seconds 100) Sample.settled = (d1, Returned res)
    ∧ claim "tick" (seconds 300) 50 None (run Sample.pd [OpReclaim (seconds 200)] d1)
      = (d2, Returned ms)
    ∧ ∀ m, m ∈ ms → msg_id m ≠ "m1"%string.
Proof.
  do 4 eexists. split; [vm_compute; reflexivity|]. split; [vm_compute; reflexivity|].
  apply (quarantine_is_permanent Sample.pd [OpReclaim (seconds 200)] (seconds 100)
    Sample.settled (state_of (reclaim (seconds 100) Sample.settled))
    {| rr_reoffered := 0; rr_incremented := 0; rr_quarantined := 1; rr_dead := [] |}
    (Sample.row_of "m1" Sample.settled) "tick" (seconds 300) 50 None
    (state_of (claim "tick" (seconds 300) 50 None (run Sample.pd [OpReclaim (seconds 200)]
       (state_of (reclaim (seconds 100) Sample.settled))))));
    [apply Sample.wf_settled|by repeat constructor|by_eval|by_eval|vm_compute; reflexivity
    |vm_compute; reflexivity|vm_compute; reflexivity|vm_compute; reflexivity].
Defined.

Lemma message_ends_by_deadline_witness :
  ∃ d1 res r1, reclaim (seconds 1800) Sample.leased = (d1, Returned res) ∧ r1 ∈ delivery_msg d1
    ∧ msg_id r1 = "m1"%string ∧ terminal r1
    ∧ (¬ terminal (Sample.row_of "m1" Sample.leased) →
       state r1 = DEAD ∧ "m1"%string ∈ dl_msg_id <$> delivery_dead d1).
Proof.
  apply (message_ends_by_deadline (seconds 1800) Sample.leased (Sample.row_of "m1" Sample.leased));
    [apply Sample.wf_leased| |by_eval|by_eval].
  intros r Hr _. revert r Hr. apply Forall_forall. by_eval.
Defined.

Lemma unreadable_row_blocks_reclaim_witness :
  ∃ e, reclaim (seconds 500) Sample.shadow = (Sample.shadow, Raised e).
Proof.
  apply (unreadable_row_blocks_reclaim (seconds 100) (seconds 500) Sample.shadow
    (with_mode "shadow"%string (Sample.row_of "m1" Sample.leased)));
    [apply Sample.wf_shadow|by_eval|by_eval|vm_compute; reflexivity|by_eval].
Defined.

Lemma enqueue_exact_witness :
  enqueue Sample.pd 5 "m9" (Sample.draft "k1") Sample.ready
  = (Sample.ready, Returned (with_mode LIVE (Sample.row_of "m1" Sample.ready))).
Proof.
  rewrite (proj2 (proj2 (enqueue_exact Sample.pd 5 "m9" (Sample.draft "k1") Sample.ready
    Sample.wf_ready ltac:(by_eval) ltac:(done)))
    (Sample.row_of "m1" Sample.ready)); [vm_compute; reflexivity|by_eval|by_eval|by_eval].
Defined.

Lemma settlers_exact_witness :
  SqliteQueueStore.cancel_on_complete "t1" 5 Sample.ready
  = (set_msgs (update_where (cancellable "t1") (settle_row SUPERSEDED 5) (delivery_msg Sample.ready))
       Sample.ready,
     Returned (msg_id <$> select_where (cancellable "t1") (delivery_msg Sample.ready))).
Proof. apply (settlers_exact "t1" 0 5 Sample.ready Sample.wf_ready). Defined.

Lemma prune_exact_witness :
  Sample.row_of "m1" Sample.settled ∈ delivery_msg (prune_db (days 40) [] Sample.settled)
  ∧ delivery_msg (prune_db (days 40) [] Sample.settled) = [Sample.row_of "m1" Sample.settled].
Proof.
  split; [|vm_compute; reflexivity].
  apply (prune_exact (days 40) [] Sample.settled Sample.wf_settled); by_eval.
Defined.

(** ** Deaths *)

Lemma reclaim_dead_row now d d1 res x :
  wf d → reclaim now d = (d1, Returned res) → x ∈ rr_dead res →
  ∃ r, r ∈ delivery_msg d ∧ msg_id r = dr_msg_id x ∧ ¬ terminal r
    ∧ reclaim_row now (delivery_attempt d) r ∈ delivery_msg d1
    ∧ state (reclaim_row now (delivery_attempt d) r) = DEAD
    ∧ is_notice r = dr_is_notice x ∧ sender_id r = dr_sender_id x.
Proof.
  intros Hd Hrec Hx. pose proof (reclaim_inv _ _ _ _ Hd Hrec) as (_ & _ & ->).
  assert (x ∈ reclaim_dead now d) as Hin.
  { unfold reclaim_result in Hx. by destruct (foldl _ _ _) as [[? ?] ?]. }
  rewrite (reclaim_dead_perm now d) in Hin.
  apply list_elem_of_omap in Hin as (r & Hr & Hdeath). exists r.
  unfold reclaim_death in Hdeath. apply fmap_Some in Hdeath as (reason & Hf & ->).
  assert (same_identity r (release_pass now (delivery_attempt d) r)) as Hid.
  { destruct (release_pass_cases now (delivery_attempt d) r) as [[_ ->]|[_ He]]; [done|].
    by apply lease_ended_spec in He as [? _]. }
  split_and!; [done|by rewrite <- (si_id _ _ Hid)| | | |by rewrite <- (si_notice _ _ Hid)
              |by rewrite <- (si_sender _ _ Hid)].
  - assert (is_Some (reclaim_fate now (delivery_attempt d) r)) as Hs by (by eexists).
    apply reclaim_fate_alive in Hs.
    destruct (release_pass_cases now (delivery_attempt d) r) as [[_ Heq]|[Hl _]].
    + by rewrite Heq in Hs.
    + apply not_terminal. by right.
  - by eapply reclaim_row_in.
  - apply reclaim_row_dead. right. by eexists.
Qed.

(** A death is reported by exactly one [reclaim]: a message named in the
    report of one pass was live before it and dead after it, and no later pass,
    whatever happens in between, names it again.  A caller that loses the report
    has lost the announcement. *)
Theorem deaths_reported_once pd ops now d d1 res x now' d2 res' x' :
  wf d → Forall op_valid ops → dr_msg_id x ∉ mints ops →
  reclaim now d = (d1, Returned res) → x ∈ rr_dead res →
  reclaim now' (run pd ops d1) = (d2, Returned res') → x' ∈ rr_dead res' →
  dr_msg_id x' ≠ dr_msg_id x.
Proof.
  intros Hd Hv Hm Hrec Hx Hrec' Hx' Heq.
  assert (wf d1) as Hd1 by (by eapply reclaim_wf).
  destruct (reclaim_dead_row _ _ _ _ _ Hd Hrec Hx) as (r & Hr & Hid & _ & Hr1 & Hs1 & _).
  destruct (reclaim_dead_row _ _ _ _ _ (wf_run pd ops d1 Hd1 Hv) Hrec' Hx')
    as (r2 & Hr2 & Hid2 & Hn & _). apply Hn.
  set (r1 := reclaim_row now (delivery_attempt d) r) in *.
  assert (msg_id r1 = msg_id r) as Hid1
    by (apply si_id, lstep_opt_identity, reclaim_row_lstep, Hd, Hr).
  apply (run_keeps pd terminal ops d1 r1 r2); try done.
  - intros a b Hs Ht. by destruct (lstep_terminal _ _ Hs Ht) as [->|[? ->]].
  - unfold terminal. by rewrite Hs1.
  - congruence.
  - by rewrite Hid1, Hid.
Qed.

Lemma deaths_reported_once_witness :
  ∃ d1 res x d2 res', reclaim (seconds 1800) Sample.leased = (d1, Returned res) ∧ x ∈ rr_dead res
    ∧ reclaim (seconds 1900) (run Sample.pd [] d1) = (d2, Returned res')
    ∧ ∀ x', x' ∈ rr_dead res' → dr_msg_id x' ≠ dr_msg_id x.
Proof.
  exists (state_of (reclaim (seconds 1800) Sample.leased)).
  eexists. eexists. eexists. eexists.
  split; [vm_compute; reflexivity|]. split; [left|]. split; [vm_compute; reflexivity|].
  intros x' Hx'.
  eapply (deaths_reported_once Sample.pd [] (seconds 1800) Sample.leased
    (state_of (reclaim (seconds 1800) Sample.leased)) _ _ (seconds 1900));
    [apply Sample.wf_leased|constructor|by_eval|vm_compute; reflexivity|left
    |vm_compute; reflexivity|exact Hx'].
Defined.
