(* ===== verification/Ports.v ===== *)
(** * The ports the delivery plane is written against — [core/ports.py]

    [app/delivery] is coded against protocols; so are its definitions here.  [W]
    is the state of the world the implementations act on, and every port
    operation is a statement on [W] that may raise.  [OutboundLaws] is what the
    theorems of [Wake] and [Tick] use of the implementations: only the carrier
    and the injector reach the outside, once per call, and everything they send
    is in [outbound]. *)

From S2P Require Import Prelude Timing Delivery.

(** ** [core/findings.py]: a finding's code, its state and its row *)

Inductive FindingCode :=
| DIAG_BAD_TRANSITION
| DIAG_GHOST_TRANSITION
| DIAG_LEGACY_DISAGREE
| DIAG_MIGRATION_FAILED
| DIAG_QUEUE_ORPHAN_GUARD
| DIAG_BARRIER_OPEN_AT_FLIP
| DIAG_PANE_DISAGREE
| DIAG_PRODUCER_DISAGREE
| DIAG_STATUS_GUARD
| DIAG_DELIVERY_TIME_BOUND
| DIAG_SEAT_WAKE_UNREACHABLE
| DIAG_SHADOW_ROWS_RETIRED
| DIAG_LEGACY_ROW_ADOPTED
| DIAG_CERTIFIED_SOURCE_STALE
| DIAG_HERDR_STATUS_UNKNOWN.

Inductive FindingState := OPEN | RESOLVED.

#[export] Instance FindingCode_eq_dec : EqDecision FindingCode.
Proof. solve_decision. Defined.
#[export] Instance FindingState_eq_dec : EqDecision FindingState.
Proof. solve_decision. Defined.

Definition FindingCode_value (c : FindingCode) : string :=
  match c with
  | DIAG_BAD_TRANSITION => "DIAG-BAD-TRANSITION"
  | DIAG_GHOST_TRANSITION => "DIAG-GHOST-TRANSITION"
  | DIAG_LEGACY_DISAGREE => "DIAG-LEGACY-DISAGREE"
  | DIAG_MIGRATION_FAILED => "DIAG-MIGRATION-FAILED"
  | DIAG_QUEUE_ORPHAN_GUARD => "DIAG-QUEUE-ORPHAN-GUARD"
  | DIAG_BARRIER_OPEN_AT_FLIP => "DIAG-BARRIER-OPEN-AT-FLIP"
  | DIAG_PANE_DISAGREE => "DIAG-PANE-DISAGREE"
  | DIAG_PRODUCER_DISAGREE => "DIAG-PRODUCER-DISAGREE"
  | DIAG_STATUS_GUARD => "DIAG-STATUS-GUARD"
  | DIAG_DELIVERY_TIME_BOUND => "DIAG-DELIVERY-TIME-BOUND"
  | DIAG_SEAT_WAKE_UNREACHABLE => "DIAG-SEAT-WAKE-UNREACHABLE"
  | DIAG_SHADOW_ROWS_RETIRED => "DIAG-SHADOW-ROWS-RETIRED"
  | DIAG_LEGACY_ROW_ADOPTED => "DIAG-LEGACY-ROW-ADOPTED"
  | DIAG_CERTIFIED_SOURCE_STALE => "DIAG-CERTIFIED-SOURCE-STALE"
  | DIAG_HERDR_STATUS_UNKNOWN => "DIAG-HERDR-STATUS-UNKNOWN"
  end.

Definition FindingCode_members : list FindingCode :=
  [DIAG_BAD_TRANSITION; DIAG_GHOST_TRANSITION; DIAG_LEGACY_DISAGREE; DIAG_MIGRATION_FAILED;
   DIAG_QUEUE_ORPHAN_GUARD; DIAG_BARRIER_OPEN_AT_FLIP; DIAG_PANE_DISAGREE;
   DIAG_PRODUCER_DISAGREE; DIAG_STATUS_GUARD; DIAG_DELIVERY_TIME_BOUND;
   DIAG_SEAT_WAKE_UNREACHABLE; DIAG_SHADOW_ROWS_RETIRED; DIAG_LEGACY_ROW_ADOPTED;
   DIAG_CERTIFIED_SOURCE_STALE; DIAG_HERDR_STATUS_UNKNOWN].

Definition FindingCode_of (s : string) : option FindingCode :=
  head (filter (λ c, FindingCode_value c = s) FindingCode_members).

Lemma FindingCode_of_value c : FindingCode_of (FindingCode_value c) = Some c.
Proof. by destruct c. Qed.

(** [FindingRow string] is a stored row, whose [code] another build may have
    written; [Finding] is the model object. *)
Record FindingRow (Code : Type) := {
  fi_finding_id : string;
  fi_code : Code;
  fi_terminal_id : string;
  fi_dedupe_key : string;
  fi_detail : string;
  fi_sample_event_id : option string;
  fi_count : Z;
  fi_first_seen_at : Z;
  fi_last_seen_at : Z;
  fi_state : FindingState;
}.
Arguments fi_finding_id {Code} f. Arguments fi_code {Code} f.
Arguments fi_terminal_id {Code} f. Arguments fi_dedupe_key {Code} f.
Arguments fi_detail {Code} f. Arguments fi_sample_event_id {Code} f.
Arguments fi_count {Code} f. Arguments fi_first_seen_at {Code} f.
Arguments fi_last_seen_at {Code} f. Arguments fi_state {Code} f.

Abbreviation Finding := (FindingRow FindingCode).

#[export] Instance FindingRow_eq_dec `{EqDecision Code} : EqDecision (FindingRow Code).
Proof. solve_decision. Defined.

(** ** The ports *)

Class Clock (W : Type) := clock_now : M W Z.

Class QueueStore (W : Type) := {
  qs_enqueue : EnqueueDraft → M W QueueMessage;
  qs_claim : string → Z → Z → option string → M W (list QueueMessage);
  qs_reclaim : Z → M W ReclaimResult;
  qs_attempts_for : string → M W (list DeliveryAttempt);
  qs_record_attempt : DeliveryAttempt → M W ();
  qs_mark_dialog_hold : string → option Z → M W ();
  qs_open_digest : string → M W (option SeatDigest);
  qs_build_digest : string → list string → Z → M W SeatDigest;
  qs_extend_digest : string → Z → list string → Z → M W (option SeatDigest);
  qs_bump_wake_count : string → Z → Z → M W Z;
  qs_close_digest : string → Z → string → Z → M W bool;
  qs_open_digests : M W (list SeatDigest);
  qs_ready_receivers : M W (list string);
  qs_undelivered_ids : string → M W (list string);
  qs_senders_of : list string → M W (list string);
  qs_all_terminal : list string → M W bool;
  qs_cancel_on_complete : string → Z → M W (list string);
  qs_next_surrogate_id : M W Z;
  qs_find_recent_duplicate :
    string → string → string → Z → Z → bool → option Z → M W (option QueueMessage);
  qs_prune : Z → list string → M W Z;
}.

Class ReceiverDirectory (W : Type) := resolve : string → M W ReceiverResolution.

(** What [SeatCarrier.emit] is given. *)
Record SeatWake := {
  sw_terminal_id : string;
  sw_line : string;
  sw_sender_key : string;
  sw_sender_name : string;
  sw_msg_id : string;
}.

Class SeatCarrier (W : Type) := emit : SeatWake → M W WakeEmission.
Class PaneInjector (W : Type) := inject : string → string → M W InjectionResult.

Class FindingStore (W : Type) := {
  fs_record : FindingCode → string → string → string → M W ();
  fs_list_findings : option FindingState → M W (list Finding);
}.

(** [LegacyInboxAdopter]: the one port whose code reads legacy tables. *)
Class LegacyInboxAdopter (W : Type) := adopt_orphans : Z → M W (list LegacyAdoption).

(** What has been sent to the outside, oldest first. *)
Inductive sent :=
| Woke (w : SeatWake)
| Pasted (terminal_id line : string).

#[export] Instance SeatWake_eq_dec : EqDecision SeatWake.
Proof. solve_decision. Defined.
#[export] Instance sent_eq_dec : EqDecision sent.
Proof. solve_decision. Defined.

(** Two states between which nothing was sent. *)
Definition silent {W} (out : W → list sent) (w w' : W) : Prop := out w' = out w.

#[export] Instance silent_preorder {W} (out : W → list sent) : PreOrder (silent out).
Proof. unfold silent. split; [done|]. intros x y z H1 H2. congruence. Qed.

Class OutboundLaws (W : Type) `{Clock W, QueueStore W, ReceiverDirectory W, SeatCarrier W,
    PaneInjector W} := {
  outbound : W → list sent;
  clock_silent : keeps (silent outbound) clock_now;
  resolve_silent r : keeps (silent outbound) (resolve r);
  attempts_for_silent i : keeps (silent outbound) (qs_attempts_for i);
  senders_of_silent ids : keeps (silent outbound) (qs_senders_of ids);
  bump_silent r e now : keeps (silent outbound) (qs_bump_wake_count r e now);
  claim_silent o now l r : keeps (silent outbound) (qs_claim o now l r);
  reclaim_silent now : keeps (silent outbound) (qs_reclaim now);
  enqueue_silent d : keeps (silent outbound) (qs_enqueue d);
  record_attempt_silent a : keeps (silent outbound) (qs_record_attempt a);
  mark_dialog_hold_silent i h : keeps (silent outbound) (qs_mark_dialog_hold i h);
  open_digest_silent r : keeps (silent outbound) (qs_open_digest r);
  build_digest_silent r ids now : keeps (silent outbound) (qs_build_digest r ids now);
  extend_digest_silent r e ids now : keeps (silent outbound) (qs_extend_digest r e ids now);
  close_digest_silent r e via now : keeps (silent outbound) (qs_close_digest r e via now);
  open_digests_silent : keeps (silent outbound) qs_open_digests;
  ready_receivers_silent : keeps (silent outbound) qs_ready_receivers;
  undelivered_ids_silent r : keeps (silent outbound) (qs_undelivered_ids r);
  all_terminal_silent ids : keeps (silent outbound) (qs_all_terminal ids);
  emit_sends s w : outbound (emit s w).1 = outbound w ++ [Woke s];
  inject_sends t l w : outbound (inject t l w).1 = outbound w ++ [Pasted t l];
}.

#[export] Hint Resolve clock_silent resolve_silent attempts_for_silent senders_of_silent
  bump_silent claim_silent reclaim_silent enqueue_silent record_attempt_silent
  mark_dialog_hold_silent open_digest_silent build_digest_silent extend_digest_silent
  close_digest_silent open_digests_silent ready_receivers_silent undelivered_ids_silent
  all_terminal_silent : cao.
