(* ===== verification/Findings.v ===== *)
(** * The finding table — [adapters/store/findings.py]

    One row per standing problem: [record] increments the OPEN row of a
    [(code, terminal_id, dedupe_key)] or inserts it.  The table's
    [UNIQUE(code, terminal_id, dedupe_key, state)] is part of the model, because
    an UPDATE can violate it. *)

From S2P Require Import Prelude Timing Delivery Ports.

Module SqliteFindingStore.

Abbreviation finding_row := (FindingRow string).

Definition dedup_key {Code} (f : FindingRow Code) : Code * string * string * FindingState :=
  (fi_code f, fi_terminal_id f, fi_dedupe_key f, fi_state f).

Definition matches (code terminal_id dedupe_key : string) (s : FindingState) (f : finding_row) : bool :=
  bool_decide (dedup_key f = (code, terminal_id, dedupe_key, s)).

Definition with_code {A B} (c : B) (f : FindingRow A) : FindingRow B := {|
  fi_finding_id := fi_finding_id f; fi_code := c; fi_terminal_id := fi_terminal_id f;
  fi_dedupe_key := fi_dedupe_key f; fi_detail := fi_detail f;
  fi_sample_event_id := fi_sample_event_id f; fi_count := fi_count f;
  fi_first_seen_at := fi_first_seen_at f; fi_last_seen_at := fi_last_seen_at f;
  fi_state := fi_state f |}.

(** [FindingCode(..)] and the model's field constraints. *)
Definition _row_to_finding (f : finding_row) : outcome Finding :=
  match FindingCode_of (fi_code f) with
  | None => Raised (ValueError "FindingCode")
  | Some c =>
    if bool_decide (fi_finding_id f ≠ ""%string) && (1 <=? fi_count f)
    then Returned (with_code c f) else Raised (ValueError "Finding")
  end.

(** [SET count = count + 1, last_seen_at = ?, detail = ?] *)
Definition bump (now : Z) (detail : string) (f : finding_row) : finding_row := {|
  fi_finding_id := fi_finding_id f; fi_code := fi_code f; fi_terminal_id := fi_terminal_id f;
  fi_dedupe_key := fi_dedupe_key f; fi_detail := detail;
  fi_sample_event_id := fi_sample_event_id f; fi_count := fi_count f + 1;
  fi_first_seen_at := fi_first_seen_at f; fi_last_seen_at := now; fi_state := fi_state f |}.

Definition set_finding_state (s : FindingState) (f : finding_row) : finding_row := {|
  fi_finding_id := fi_finding_id f; fi_code := fi_code f; fi_terminal_id := fi_terminal_id f;
  fi_dedupe_key := fi_dedupe_key f; fi_detail := fi_detail f;
  fi_sample_event_id := fi_sample_event_id f; fi_count := fi_count f;
  fi_first_seen_at := fi_first_seen_at f; fi_last_seen_at := fi_last_seen_at f; fi_state := s |}.

Definition new_finding (new_id code terminal_id dedupe_key detail : string)
    (sample : option string) (now : Z) : finding_row := {|
  fi_finding_id := new_id; fi_code := code; fi_terminal_id := terminal_id;
  fi_dedupe_key := dedupe_key; fi_detail := detail; fi_sample_event_id := sample;
  fi_count := 1; fi_first_seen_at := now; fi_last_seen_at := now; fi_state := OPEN |}.

(** [INSERT INTO finding]: a clash of the primary key or of the UNIQUE key. *)
Definition insert_finding (f : finding_row) : M (list finding_row) () := λ t,
  if existsb (λ x, bool_decide (fi_finding_id x = fi_finding_id f)
                   || bool_decide (dedup_key x = dedup_key f)) t
  then (t, Raised (IntegrityError "finding")) else (t ++ [f], Returned ()).

Definition record (now : Z) (new_id : string) (code : FindingCode)
    (terminal_id dedupe_key detail : string) (sample : option string)
    : M (list finding_row) Finding :=
  let p := matches (FindingCode_value code) terminal_id dedupe_key OPEN in
  row ← transaction (
    n ← gets (rowcount p);
    modify (update_where p (bump now detail)) ;;
    (if (n =? 0)%nat
     then insert_finding (new_finding new_id (FindingCode_value code) terminal_id dedupe_key
                            detail sample now)
     else mret ()) ;;
    gets (λ t, head (select_where p t)));
  match row with
  | None => raise (TypeError "_row_to_finding")
  | Some f => lift_outcome (_row_to_finding f)
  end.

Definition listed (s : option FindingState) (code : option FindingCode) (f : finding_row) : bool :=
  match s with None => true | Some s => bool_decide (fi_state f = s) end
  && match code with None => true | Some c => bool_decide (fi_code f = FindingCode_value c) end.

Definition list_findings (s : option FindingState) (code : option FindingCode)
    : M (list finding_row) (list Finding) :=
  rows ← gets (λ t, order_by fi_first_seen_at fi_finding_id (select_where (listed s code) t));
  for_each rows [] (λ acc f, x ← lift_outcome (_row_to_finding f); mret (acc ++ [x])).

(** An UPDATE that would give two rows one UNIQUE key is an [IntegrityError]. *)
Definition resolve (finding_id : string) : M (list finding_row) bool :=
  let p := λ f, bool_decide (fi_finding_id f = finding_id) && bool_decide (fi_state f = OPEN) in
  transaction (
    n ← gets (rowcount p);
    clash ← gets (λ t, existsb (λ f, p f &&
      existsb (λ x, bool_decide (dedup_key x = dedup_key (set_finding_state RESOLVED f))) t) t);
    if (clash : bool) then raise (IntegrityError "finding") else
    modify (update_where p (set_finding_state RESOLVED)) ;;
    mret (0 <? n)%nat).

(** ** What the table keeps *)

Record findings_ok (t : list finding_row) : Prop := {
  fk_ids : NoDup (fi_finding_id <$> t);
  fk_keys : NoDup (dedup_key <$> t);
}.

Definition is_readable (f : finding_row) : Prop := ∃ x, _row_to_finding f = Returned x.

Section Record.
Context (code : FindingCode) (terminal_id dedupe_key : string).

Let p := matches (FindingCode_value code) terminal_id dedupe_key OPEN.

Lemma matches_bump now detail f : p (bump now detail f) = p f.
Proof using Type. done. Qed.

Lemma record_open now i detail sample t f :
  f ∈ t → p f = true →
  state_of (record now i code terminal_id dedupe_key detail sample t)
  = update_where p (bump now detail) t.
Proof using Type.
  intros Hf Hp. unfold record, transaction, mbind, M_bind, gets, modify. fold p.
  assert ((rowcount p t =? 0)%nat = false) as ->.
  { apply Nat.eqb_neq. assert (0 < rowcount p t)%nat by (apply rowcount_pos; by exists f). lia. }
  unfold mret, M_ret. simpl. by destruct (head _).
Qed.

(** Recording on a table of readable rows under an unused id returns, and every row of
    the table it leaves is readable and has an id of before or the new one. *)
Lemma record_returns now i detail sample t :
  i ≠ ""%string → (∀ f, f ∈ t → is_readable f ∧ fi_finding_id f ≠ i) →
  ∃ t' x, record now i code terminal_id dedupe_key detail sample t = (t', Returned x)
  ∧ ∀ f, f ∈ t' → is_readable f ∧ (fi_finding_id f = i ∨ fi_finding_id f ∈ fi_finding_id <$> t).
Proof.
  intros Hi Ht. set (new := new_finding i (FindingCode_value code) terminal_id dedupe_key detail sample now).
  assert (is_readable new) as Hnew.
  { eexists. unfold _row_to_finding. simpl. rewrite FindingCode_of_value. by rewrite bool_decide_eq_true_2. }
  assert (p new = true) as Hpnew by (by apply bool_decide_eq_true).
  assert (∃ t', (transaction (n ← gets (rowcount p); modify (update_where p (bump now detail)) ;;
      (if (n =? 0)%nat then insert_finding new else mret ()) ;; gets (λ t, head (select_where p t)))) t
    = (t', Returned (head (select_where p t'))) ∧ (∃ f, f ∈ t' ∧ p f = true)
    ∧ ∀ f, f ∈ t' → is_readable f ∧ (fi_finding_id f = i ∨ fi_finding_id f ∈ fi_finding_id <$> t))
    as (t' & E & (f & Hf & Hpf) & Ht').
  { unfold transaction, mbind, M_bind, gets, modify. destruct (Nat.eqb_spec (rowcount p t) 0) as [H0|H0].
    - assert (∀ f, f ∈ t → p f = false) as Hno.
      { intros f Hf. destruct (p f) eqn:Hpf; [|done]. assert (0 < rowcount p t)%nat by (apply rowcount_pos; by exists f). lia. }
      assert (update_where p (bump now detail) t = t) as ->.
      { unfold update_where. rewrite <- (list_fmap_id t) at 2. apply list_fmap_ext.
        intros k f Hf%list_elem_of_lookup_2. by rewrite Hno. }
      unfold insert_finding. assert (existsb (λ x, bool_decide (fi_finding_id x = fi_finding_id new)
        || bool_decide (dedup_key x = dedup_key new)) t = false) as ->.
      { apply existsb_false. intros f Hf. destruct (Ht f Hf) as [_ Hid]. rewrite bool_decide_eq_false_2 by done.
        exact (Hno f Hf). }
      eexists. split; [reflexivity|]. split; [exists new; split; [apply elem_of_app; right; left|done]|].
      intros f [Hf|Hf%list_elem_of_singleton]%elem_of_app; [split; [by apply Ht|right; by apply (list_elem_of_fmap_2 fi_finding_id)]|subst f].
      split; [done|by left].
    - eexists. split; [reflexivity|]. assert (0 < rowcount p t)%nat as (f & Hf & Hpf)%rowcount_pos by lia. split.
      + exists (bump now detail f). split; [|done]. unfold update_where. apply list_elem_of_fmap. exists f. by rewrite Hpf.
      + intros g (f0 & -> & Hf0)%list_elem_of_fmap. destruct (Ht f0 Hf0) as [Hr _].
        split; [|right; replace (fi_finding_id _) with (fi_finding_id f0) by (by destruct (p f0)); by apply list_elem_of_fmap_2].
        destruct (p f0); [|done]. destruct Hr as [x Hr]. unfold _row_to_finding in Hr. destruct (FindingCode_of _) as [c|] eqn:Hc; [|done].
        case_match eqn:Hb; [|done]. apply andb_true_iff in Hb as [Hb1 Hb2%Z.leb_le]. eexists. unfold _row_to_finding. simpl. rewrite Hc, Hb1.
        by rewrite (proj2 (Z.leb_le 1 (fi_count f0 + 1))) by lia. }
  assert (∃ g, head (select_where p t') = Some g ∧ g ∈ t') as (g & Hg & Hin).
  { assert (f ∈ select_where p t') as Hs by (by apply elem_of_select).
    destruct (select_where p t') as [|g l] eqn:Es; [by apply not_elem_of_nil in Hs|]. exists g. split; [done|].
    assert (g ∈ select_where p t') as [_ ?]%elem_of_select by (rewrite Es; left). done. }
  destruct (Ht' g Hin) as [[x Hx] _]. exists t', x. split; [|done].
  unfold record. fold p. fold new. rewrite (bind_returned _ _ _ _ _ E), Hg. unfold lift_outcome. by rewrite Hx.
Qed.

(** One call of [record] in a sequence, with the clock, the minted id, the
    detail and the sample of that call. *)
Definition call : Type := Z * string * string * option string.

Definition record_call (c : call) (t : list finding_row) : list finding_row :=
  let '(now, i, detail, sample) := c in
  state_of (record now i code terminal_id dedupe_key detail sample t).

Definition bump_call (f : finding_row) (c : call) : finding_row :=
  let '(now, _, detail, _) := c in bump now detail f.

Definition record_all (calls : list call) (t : list finding_row) : list finding_row :=
  foldl (λ t c, record_call c t) t calls.

Lemma record_all_open calls t :
  (∃ f, f ∈ t ∧ p f = true) →
  record_all calls t = update_where p (λ f, foldl bump_call f calls) t.
Proof.
  revert t. induction calls as [|[[[now i] detail] sample] calls IH]; intros t (f & Hf & Hp).
  - unfold update_where. simpl. rewrite <- (list_fmap_id t) at 1.
    apply list_fmap_ext. intros ? x _. by destruct (p x).
  - unfold record_all in *. simpl. rewrite (record_open now i detail sample t f) by done.
    rewrite IH.
    + unfold update_where. rewrite <- list_fmap_compose. apply list_fmap_ext.
      intros ? x _. simpl. destruct (p x) eqn:E; [by rewrite matches_bump, E|by rewrite E].
    + exists (bump now detail f). split; [|by rewrite matches_bump].
      unfold update_where. apply list_elem_of_fmap. exists f. by rewrite Hp.
Qed.

Lemma bump_calls_count calls f :
  let g := foldl bump_call f calls in
  fi_count g = fi_count f + Z.of_nat (length calls)
  ∧ fi_first_seen_at g = fi_first_seen_at f ∧ fi_sample_event_id g = fi_sample_event_id f
  ∧ fi_finding_id g = fi_finding_id f ∧ fi_state g = fi_state f
  ∧ fi_detail g = default (fi_detail f) ((λ c : call, c.1.2) <$> last calls)
  ∧ fi_last_seen_at g = default (fi_last_seen_at f) ((λ c : call, c.1.1.1) <$> last calls).
Proof using Type.
  revert f. induction calls as [|[[[now i] detail] sample] calls IH]; intros f; simpl.
  { split_and!; done || lia. }
  destruct (IH (bump now detail f)) as (-> & -> & -> & -> & -> & -> & ->).
  rewrite last_cons. split_and!; try done; simpl; [lia| |]; by destruct (last calls).
Qed.
End Record.

(** Repeats are counted, not accumulated: however many times one problem
    is recorded, the table gains exactly one OPEN row, whose count is the number
    of calls, whose first sighting and sample event are those of the first call
    — and whose [detail] is that of the LAST call, not of the first. *)
Theorem repeats_are_counted code terminal_id dedupe_key now i detail sample calls t :
  (∀ f, f ∈ t → fi_finding_id f ≠ i) →
  (∀ f, f ∈ t → dedup_key f ≠ (FindingCode_value code, terminal_id, dedupe_key, OPEN)) →
  ∃ f, record_all code terminal_id dedupe_key ((now, i, detail, sample) :: calls) t = t ++ [f]
    ∧ dedup_key f = (FindingCode_value code, terminal_id, dedupe_key, OPEN)
    ∧ fi_count f = 1 + Z.of_nat (length calls)
    ∧ fi_first_seen_at f = now ∧ fi_sample_event_id f = sample ∧ fi_finding_id f = i
    ∧ fi_detail f = default detail ((λ c : call, c.1.2) <$> last calls).
Proof.
  intros Hi Hk. set (p := matches (FindingCode_value code) terminal_id dedupe_key OPEN).
  set (f0 := new_finding i (FindingCode_value code) terminal_id dedupe_key detail sample now).
  assert (∀ f, f ∈ t → p f = false) as Hp by (intros f Hf; by apply bool_decide_eq_false, Hk).
  assert (record_call code terminal_id dedupe_key (now, i, detail, sample) t = t ++ [f0]) as H0.
  { unfold record_call, record, transaction, mbind, M_bind, gets, modify. fold p.
    assert (rowcount p t = 0%nat) as ->.
    { unfold rowcount, select_where. rewrite filter_none; [done|].
      intros x Hx. by rewrite Hp. }
    rewrite update_where_none by done. simpl. unfold insert_finding.
    destruct (existsb _ t) eqn:E.
    - apply existsb_exists in E as (x & Hx%list_elem_of_In & [He|He]%orb_true_iff);
        apply bool_decide_eq_true in He; [by destruct (Hi x Hx)|by destruct (Hk x Hx)].
    - simpl. by destruct (head _). }
  assert (p f0 = true) as Hf0 by (by apply bool_decide_eq_true).
  exists (foldl bump_call f0 calls).
  destruct (bump_calls_count calls f0) as (Hc & Hfs & Hs & Hid & Hst & Hd & _).
  split_and!; try done.
  - change (record_all code terminal_id dedupe_key calls
      (record_call code terminal_id dedupe_key (now, i, detail, sample) t)
      = t ++ [foldl bump_call f0 calls]).
    rewrite H0, record_all_open by (exists f0; split; [apply elem_of_app; right; left|done]).
    unfold update_where. rewrite fmap_app. simpl. fold p. rewrite Hf0. f_equal.
    fold (update_where p (λ f, foldl bump_call f calls) t). by apply update_where_none.
  - clear -f0. assert (dedup_key f0 = (FindingCode_value code, terminal_id, dedupe_key, OPEN)) as H by done.
    revert H. generalize f0. induction calls as [|[[[? ?] ?] ?] calls IH]; intros f Hf; [done|].
    simpl. by apply IH.
Qed.

(** [resolve] closes the OPEN finding it names — unless the same problem
    was already resolved once before: then the UNIQUE key makes the UPDATE fail,
    the call raises, and the finding stays OPEN (its sample event pinned and its
    dedupe key protected from retention). *)
Theorem resolve_exact t f :
  findings_ok t → f ∈ t → fi_state f = OPEN →
  ((∀ x, x ∈ t → dedup_key x ≠ dedup_key (set_finding_state RESOLVED f)) →
   resolve (fi_finding_id f) t
   = (update_where (λ x, bool_decide (fi_finding_id x = fi_finding_id f)
                         && bool_decide (fi_state x = OPEN)) (set_finding_state RESOLVED) t,
      Returned true))
  ∧ ((∃ x, x ∈ t ∧ dedup_key x = dedup_key (set_finding_state RESOLVED f)) →
     ∃ w, resolve (fi_finding_id f) t = (t, Raised (IntegrityError w))).
Proof.
  intros [Hids _] Hf Hopen.
  set (p := λ x : finding_row, bool_decide (fi_finding_id x = fi_finding_id f)
                               && bool_decide (fi_state x = OPEN)).
  assert (p f = true) as Hpf by (unfold p; by rewrite !bool_decide_eq_true_2).
  assert (∀ y, y ∈ t → p y = true → y = f) as Huniq.
  { intros y Hy [Hid%bool_decide_eq_true _]%andb_true_iff.
    by apply (NoDup_key_eq fi_finding_id t). }
  set (clash := existsb (λ f, p f &&
      existsb (λ x, bool_decide (dedup_key x = dedup_key (set_finding_state RESOLVED f))) t) t).
  assert (clash = true ↔ ∃ x, x ∈ t ∧ dedup_key x = dedup_key (set_finding_state RESOLVED f)) as Hclash.
  { unfold clash. rewrite existsb_exists. split.
    - intros (y & Hy%list_elem_of_In & [Hpy Hx]%andb_true_iff).
      rewrite (Huniq y Hy Hpy) in Hx.
      apply existsb_exists in Hx as (x & Hx%list_elem_of_In & Hk%bool_decide_eq_true). by exists x.
    - intros (x & Hx & Hk). exists f. rewrite <- list_elem_of_In. split; [done|].
      rewrite Hpf. apply existsb_exists. exists x. rewrite <- list_elem_of_In.
      by rewrite bool_decide_eq_true. }
  assert (resolve (fi_finding_id f) t
    = if clash then (t, Raised (IntegrityError "finding"))
      else (update_where p (set_finding_state RESOLVED) t, Returned (0 <? rowcount p t)%nat)) as ->.
  { unfold resolve, transaction, mbind, M_bind, gets, modify.
    change (existsb _ t) with clash. by destruct clash. }
  split.
  - intros Hno. destruct clash; [destruct (proj1 Hclash) as (x & Hx & Hk); [done|by destruct (Hno x)]|].
    do 2 f_equal. apply Nat.ltb_lt, rowcount_pos. by exists f.
  - intros Hx. rewrite (proj2 Hclash Hx). by eexists.
Qed.

(** The witness: recorded, resolved, recorded again — the second resolve raises. *)
Definition twice : list finding_row :=
  let rec1 := record 10 "f1" DIAG_LEGACY_ROW_ADOPTED "t1" "t1" "rows=1" None in
  let rec2 := record 30 "f2" DIAG_LEGACY_ROW_ADOPTED "t1" "t1" "rows=3" None in
  state_of ((rec1 ;; resolve "f1" ;; rec2) []).

Lemma repeats_are_counted_witness :
  ∃ f, record_all DIAG_LEGACY_ROW_ADOPTED "t1" "t1"
         [(10, "f1", "rows=1", None); (20, "f2", "rows=2", None); (30, "f3", "rows=9", None)]%string []
       = [f] ∧ fi_count f = 3 ∧ fi_detail f = "rows=9"%string.
Proof.
  destruct (repeats_are_counted DIAG_LEGACY_ROW_ADOPTED "t1" "t1" 10 "f1" "rows=1" None
    [(20, "f2", "rows=2", None); (30, "f3", "rows=9", None)]%string [])
    as (f & He & _ & Hc & _ & _ & _ & Hd).
  - by intros f Hf%not_elem_of_nil.
  - by intros f Hf%not_elem_of_nil.
  - exists f. split; [exact He|]. split; [exact Hc|exact Hd].
Defined.

Lemma resolve_exact_witness : ∃ w, resolve "f2" twice = (twice, Raised (IntegrityError w)).
Proof.
  set (row i d := new_finding i "DIAG-LEGACY-ROW-ADOPTED" "t1" "t1" d None).
  apply (resolve_exact twice (row "f2" "rows=3" 30)%string).
  - constructor; by_eval.
  - by_eval.
  - reflexivity.
  - exists (set_finding_state RESOLVED (row "f1" "rows=1" 10)%string). split; by_eval.
Defined.

End SqliteFindingStore.
