(* ===== verification/Wake.v ===== *)
(** * The digest's two carriers — [app/delivery/wake.py]

    [WakeService] over the ports: one epoch's digest goes to the native channel
    of a supervisor seat or to the composer of a worker, never to both. *)

From S2P Require Import Prelude Timing Delivery Ports.

Record WakeOutcomeReport := {
  wr_receiver_id : string;
  wr_epoch : Z;
  wr_carrier : string;
  wr_outcome : AttemptOutcome;
  wr_emitted : bool;
  wr_recordable : bool;
  wr_detail : string;
  wr_finding_reason : option string;
  wr_wake_count : Z;
  wr_line : string;
  wr_annotations : list string;
}.

(** ** Sorting and de-duplicating attempts *)

(** [attempts.sort(key=started_at, reverse=True)]: descending and stable. *)
Fixpoint insert_desc (a : DeliveryAttempt) (l : list DeliveryAttempt) : list DeliveryAttempt :=
  match l with
  | [] => [a]
  | b :: rest => if at_started_at a <=? at_started_at b then b :: insert_desc a rest else a :: l
  end.

Definition sort_desc (l : list DeliveryAttempt) : list DeliveryAttempt :=
  foldl (λ acc a, insert_desc a acc) [] l.

(** The loop that keeps one attempt per [started_at] until [limit] are kept. *)
Fixpoint distinct_starts (limit : nat) (seen : list Z) (distinct : list DeliveryAttempt)
    (l : list DeliveryAttempt) : list DeliveryAttempt :=
  match l with
  | [] => distinct
  | a :: rest =>
    if bool_decide (at_started_at a ∈ seen) then distinct_starts limit seen distinct rest
    else
      let distinct := distinct ++ [a] in
      if (length distinct =? limit)%nat then distinct
      else distinct_starts limit (at_started_at a :: seen) distinct rest
  end.

(** ** The service *)

Section WakeService.
Context {W : Type} `{Clock W, QueueStore W, ReceiverDirectory W, SeatCarrier W, PaneInjector W}.

Definition _wake_msg_id (digest : SeatDigest) (wake_count : Z) : string :=
  sd_receiver_id digest +:+ ":" +:+ pretty (sd_epoch digest) +:+ ":" +:+ pretty wake_count.

Definition _compose (digest : SeatDigest) (resolution : ReceiverResolution) : M W (string * Z) :=
  now ← clock_now;
  wake_count ← qs_bump_wake_count (sd_receiver_id digest) (sd_epoch digest) now;
  if wake_count =? 0 then mret (""%string, 0) else
  mret (build_digest_line (sd_epoch digest) (Z.of_nat (length (sd_msg_ids digest))) wake_count
          (sd_msg_ids digest), wake_count).

Definition _recent_wake_attempts (digest : SeatDigest) (limit : nat) : M W (list DeliveryAttempt) :=
  attempts ← for_each (sd_msg_ids digest) [] (λ acc msg_id,
    rows ← qs_attempts_for msg_id;
    mret (acc ++ filter (λ a, at_carrier a = CARRIER_SEAT_WAKE) rows));
  mret (distinct_starts limit [] [] (sort_desc attempts)).

Definition _streak_reason (digest : SeatDigest) : M W (option string) :=
  recent ← _recent_wake_attempts digest (UNVERIFIED_STREAK_LEASES - 1);
  if (length recent <? UNVERIFIED_STREAK_LEASES - 1)%nat then mret None
  else if forallb (λ a, bool_decide (at_outcome a = EMITTED_UNVERIFIED)) recent
  then mret (Some WAKE_UNVERIFIED_STREAK)
  else mret None.

Definition wake_seat (digest : SeatDigest) (resolution : ReceiverResolution) (line : string)
    (wake_count : Z) : M W WakeOutcomeReport :=
  senders ← qs_senders_of (sd_msg_ids digest);
  let sender := resolve_wake_sender senders (res_receiver_id resolution) in
  let annotations := if ws_substituted sender then [SENDER_SUBSTITUTED] else [] in
  emission ← emit {| sw_terminal_id := res_terminal_id resolution; sw_line := line;
                     sw_sender_key := ws_key sender; sw_sender_name := ws_name sender;
                     sw_msg_id := _wake_msg_id digest wake_count |};
  let annotations := annotations ++ we_annotations emission in
  let reason := if bool_decide (we_reason emission = None) && negb (we_verified emission)
                then Some "wake_unverified"%string else we_reason emission in
  let classification := classify_wake_reason reason in
  finding_reason ←
    (if decide (wc_outcome classification = EMITTED_UNVERIFIED) then _streak_reason digest
     else mret (if wc_finding classification then Some (wc_reason classification) else None));
  mret {|
    wr_receiver_id := sd_receiver_id digest;
    wr_epoch := sd_epoch digest;
    wr_carrier := CARRIER_SEAT_WAKE;
    wr_outcome := wc_outcome classification;
    wr_emitted := wc_emitted classification;
    wr_recordable := true;
    wr_detail := str_join "|" (filter (λ s, s ≠ ""%string)
      ([wc_reason classification] ++ annotations ++ [we_detail emission]));
    wr_finding_reason := finding_reason;
    wr_wake_count := wake_count;
    wr_line := line;
    wr_annotations := annotations |}.

Definition inject_worker (digest : SeatDigest) (resolution : ReceiverResolution) (line : string)
    (wake_count : Z) : M W WakeOutcomeReport :=
  if res_is_supervisor resolution then
    let classification := classify_wake_reason (Some WAKE_PASTE_ATTEMPTED) in
    mret {|
      wr_receiver_id := sd_receiver_id digest;
      wr_epoch := sd_epoch digest;
      wr_carrier := CARRIER_PANE;
      wr_outcome := wc_outcome classification;
      wr_emitted := false;
      wr_recordable := true;
      wr_detail := WAKE_PASTE_ATTEMPTED;
      wr_finding_reason := Some WAKE_PASTE_ATTEMPTED;
      wr_wake_count := wake_count;
      wr_line := "";
      wr_annotations := [] |}
  else
    result ← inject (res_terminal_id resolution) line;
    mret {|
      wr_receiver_id := sd_receiver_id digest;
      wr_epoch := sd_epoch digest;
      wr_carrier := CARRIER_PANE;
      wr_outcome := ij_outcome result;
      wr_emitted := bool_decide (ij_outcome result = OUT_DELIVERED);
      wr_recordable := true;
      wr_detail := ij_detail result;
      wr_finding_reason := None;
      wr_wake_count := wake_count;
      wr_line := line;
      wr_annotations := [] |}.

Definition deliver (digest : SeatDigest) (claimed : list QueueMessage) : M W WakeOutcomeReport :=
  resolution ← resolve (sd_receiver_id digest);
  if negb (res_live resolution) then
    mret {|
      wr_receiver_id := sd_receiver_id digest;
      wr_epoch := sd_epoch digest;
      wr_carrier := CARRIER_PANE;
      wr_outcome := PANE_ABSENT;
      wr_emitted := false;
      wr_recordable := true;
      wr_detail := WAKE_PANE_ABSENT;
      wr_finding_reason := None;
      wr_wake_count := 0;
      wr_line := "";
      wr_annotations := [] |}
  else
    '(line, wake_count) ← _compose digest resolution;
    if wake_count =? 0 then
      mret {|
        wr_receiver_id := sd_receiver_id digest;
        wr_epoch := sd_epoch digest;
        wr_carrier := if res_is_supervisor resolution then CARRIER_SEAT_WAKE else CARRIER_PANE;
        wr_outcome := OUT_DELIVERED;
        wr_emitted := false;
        wr_recordable := false;
        wr_detail := "epoch_closed";
        wr_finding_reason := None;
        wr_wake_count := 0;
        wr_line := "";
        wr_annotations := [] |}
    else if res_is_supervisor resolution
    then wake_seat digest resolution line wake_count
    else inject_worker digest resolution line wake_count.
End WakeService.

(** ** What reaches the outside *)

Lemma silent_run {W A} (out : W → list sent) (m : M W A) w w' o :
  keeps (silent out) m → m w = (w', o) → out w' = out w.
Proof. intros Hm He. specialize (Hm w). by rewrite He in Hm. Qed.

(** Case analysis on the next statement of a sequence. *)
Lemma bind_run {S A B} (m : M S A) (f : A → M S B) s s' o :
  (m ≫= f) s = (s', o) →
  (∃ e, m s = (s', Raised e) ∧ o = Raised e)
  ∨ ∃ s1 a, m s = (s1, Returned a) ∧ f a s1 = (s', o).
Proof.
  unfold mbind, M_bind. destruct (m s) as [s1 [a|e]]; intros Hr; [right; by exists s1, a|left].
  injection Hr as -> <-. by exists e.
Qed.

Section WakeFacts.
Context {W : Type} `{OutboundLaws W}.

Lemma compose_run digest resolution w w' o :
  _compose digest resolution w = (w', o) →
  outbound w' = outbound w
  ∧ ∀ line n, o = Returned (line, n) → n ≠ 0 →
      line = build_digest_line (sd_epoch digest) (Z.of_nat (length (sd_msg_ids digest))) n
               (sd_msg_ids digest).
Proof.
  unfold _compose. intros Hc.
  assert (keeps (silent outbound) (_compose digest resolution)) as Hk
    by (unfold _compose; eauto 10 with cao).
  split; [by eapply silent_run|]. intros line n -> Hn.
  apply bind_run in Hc as [(? & _ & ?)|(w1 & now & _ & Hc)]; [done|].
  apply bind_run in Hc as [(? & _ & ?)|(w2 & k & _ & Hc)]; [done|].
  destruct (k =? 0); injection Hc as <- <- <-; done.
Qed.

Lemma streak_silent digest : keeps (silent outbound) (_streak_reason digest).
Proof.
  unfold _streak_reason, _recent_wake_attempts.
  apply keeps_bind; [apply _| |intros; repeat case_match; eauto with cao].
  apply keeps_bind; [apply _| |eauto with cao].
  apply keeps_for_each; [apply _|eauto with cao].
Qed.

Lemma wake_seat_run digest resolution line n w w' o :
  wake_seat digest resolution line n w = (w', o) →
  (outbound w' = outbound w ∧ ∃ e, o = Raised e)
  ∨ ∃ senders s,
      outbound w' = outbound w ++ [Woke s]
      ∧ sw_terminal_id s = res_terminal_id resolution ∧ sw_line s = line
      ∧ sw_sender_key s = ws_key (resolve_wake_sender senders (res_receiver_id resolution))
      ∧ sw_msg_id s = _wake_msg_id digest n.
Proof.
  unfold wake_seat. intros Hs.
  apply bind_run in Hs as [(e & Hs & ->)|(w1 & senders & Hs & Hk)].
  { left. split; [|by eexists]. eapply silent_run; [apply senders_of_silent|exact Hs]. }
  right. exists senders. apply silent_run with (out := outbound) in Hs; [|apply senders_of_silent].
  set (sender := resolve_wake_sender senders (res_receiver_id resolution)) in *.
  set (s := {| sw_terminal_id := res_terminal_id resolution; sw_line := line;
               sw_sender_key := ws_key sender; sw_sender_name := ws_name sender;
               sw_msg_id := _wake_msg_id digest n |}) in *.
  exists s. split; [|done]. pose proof (emit_sends s w1) as He. rewrite Hs in He.
  apply bind_run in Hk as [(e & Hem & ->)|(w2 & emission & Hem & Hk)]; rewrite Hem in He; [done|].
  rewrite <- He. eapply silent_run; [|exact Hk].
  apply keeps_bind; [apply _| |eauto with cao].
  destruct (decide _); [apply streak_silent|eauto with cao].
Qed.

Lemma deliver_sends digest claimed w w' o :
  deliver digest claimed w = (w', o) →
  (outbound w' = outbound w ∧ ∀ r, o = Returned r → wr_emitted r = false)
  ∨ ∃ w1 res n line x,
      resolve (sd_receiver_id digest) w = (w1, Returned res) ∧ res_live res = true
      ∧ line = build_digest_line (sd_epoch digest) (Z.of_nat (length (sd_msg_ids digest))) n
                 (sd_msg_ids digest)
      ∧ n ≠ 0 ∧ outbound w' = outbound w ++ [x]
      ∧ match x with
        | Woke s => res_is_supervisor res = true ∧ sw_terminal_id s = res_terminal_id res
            ∧ sw_line s = line ∧ sw_msg_id s = _wake_msg_id digest n
            ∧ (res_receiver_id res ≠ DELIVERY_SENDER_ADDRESS →
               sw_sender_key s ≠ res_receiver_id res)
        | Pasted t l => res_is_supervisor res = false ∧ t = res_terminal_id res ∧ l = line
        end.
Proof.
  unfold deliver. intros Hd.
  apply bind_run in Hd as [(e & Hr & ->)|(w1 & res & Hr & Hd)].
  { left. split; [|done]. eapply silent_run; [apply resolve_silent|exact Hr]. }
  pose proof (silent_run outbound _ _ _ _ (resolve_silent _) Hr) as Ho1.
  destruct (res_live res) eqn:Hlive; simpl in Hd; [|left; by injection Hd as <- <-; split; [|intros ? [= <-]]].
  apply bind_run in Hd as [(e & Hc & ->)|(w2 & [line n] & Hc & Hd)].
  { left. split; [|done]. apply compose_run in Hc as [Hc _]. congruence. }
  apply compose_run in Hc as [Ho2 Hline].
  destruct (n =? 0) eqn:Hn; [left; injection Hd as <- <-; split; [congruence|by intros ? [= <-]]|].
  apply Z.eqb_neq in Hn. specialize (Hline line n eq_refl Hn).
  destruct (res_is_supervisor res) eqn:Hsup.
  - apply wake_seat_run in Hd as [[Hs (e & ->)]|(senders & s & Hs & Ht & Hl & Hk & Hm)].
    + left. split; [congruence|done].
    + right. exists w1, res, n, line, (Woke s). split_and!; try done; [congruence|].
      rewrite Hk. apply resolve_wake_sender_key.
  - unfold inject_worker in Hd. rewrite Hsup in Hd. right.
    exists w1, res, n, line, (Pasted (res_terminal_id res) line). split_and!; try done.
    pose proof (inject_sends (res_terminal_id res) line w2) as Hi.
    apply bind_run in Hd as [(e & He & ->)|(w3 & result & He & Hd)]; rewrite He in Hi; simpl in Hi.
    + congruence.
    + injection Hd as <- <-. congruence.
Qed.
(** One epoch, one carrier: a delivery sends at most one thing.  It sends
    through the native channel only for a live supervisor seat, and then under
    a sender that is not the receiver (unless the receiver is the delivery
    address itself); it pastes only into the terminal of a
    live receiver that is NOT a supervisor; what it sends carries the line of
    the ordinal it just took; and when it sends nothing, no emission is
    reported. *)
Theorem deliver_single_carrier digest claimed w w' o :
  deliver digest claimed w = (w', o) →
  (outbound w' = outbound w ∧ ∀ r, o = Returned r → wr_emitted r = false)
  ∨ ∃ w1 res n line x,
      resolve (sd_receiver_id digest) w = (w1, Returned res) ∧ res_live res = true
      ∧ line = build_digest_line (sd_epoch digest) (Z.of_nat (length (sd_msg_ids digest))) n
                 (sd_msg_ids digest)
      ∧ n ≠ 0 ∧ outbound w' = outbound w ++ [x]
      ∧ match x with
        | Woke s => res_is_supervisor res = true ∧ sw_terminal_id s = res_terminal_id res
            ∧ sw_line s = line ∧ sw_msg_id s = _wake_msg_id digest n
            ∧ (res_receiver_id res ≠ DELIVERY_SENDER_ADDRESS →
               sw_sender_key s ≠ res_receiver_id res)
        | Pasted t l => res_is_supervisor res = false ∧ t = res_terminal_id res ∧ l = line
        end.
Proof. apply deliver_sends. Qed.
End WakeFacts.
