(* ===== verification/Tick.v ===== *)
(** * The delivery tick — [app/delivery/tick.py]

    One tick: adopt orphaned legacy rows, reclaim, serve every receiver, close
    finished epochs.  The state of a tick is the world its ports act on, the
    report it fills in, and the count of completed ticks. *)

From S2P Require Import Prelude Timing Delivery Ports Wake.

Definition TICK_LEASE_OWNER : string := "delivery-tick".
Definition CLAIM_LIMIT : Z := 64.
Definition ADOPT_LIMIT : Z := 64.
Definition _TIME_BOUND_REASONS : list DeadReason := [MAX_LIFETIME; VETO_CEILING; EXPIRED].

Record TickReport := {
  tr_adopted : list LegacyAdoption;
  tr_reoffered : Z;
  tr_incremented : Z;
  tr_dead : list DeadRow;
  tr_notices_enqueued : Z;
  tr_epochs_opened : Z;
  tr_epochs_closed : Z;
  tr_wakes : list WakeOutcomeReport;
  tr_pruned : Z;
}.

Definition empty_report : TickReport := {|
  tr_adopted := []; tr_reoffered := 0; tr_incremented := 0; tr_dead := [];
  tr_notices_enqueued := 0; tr_epochs_opened := 0; tr_epochs_closed := 0;
  tr_wakes := []; tr_pruned := 0 |}.

Definition emitted (r : TickReport) : Z := Z.of_nat (length (filter (λ w, wr_emitted w = true) (tr_wakes r))).

(** Assignments to the report's fields. *)
Definition add_adopted (l : list LegacyAdoption) (r : TickReport) : TickReport := {|
  tr_adopted := l; tr_reoffered := tr_reoffered r; tr_incremented := tr_incremented r;
  tr_dead := tr_dead r; tr_notices_enqueued := tr_notices_enqueued r;
  tr_epochs_opened := tr_epochs_opened r; tr_epochs_closed := tr_epochs_closed r;
  tr_wakes := tr_wakes r; tr_pruned := tr_pruned r |}.
Definition add_reclaimed (x : ReclaimResult) (r : TickReport) : TickReport := {|
  tr_adopted := tr_adopted r; tr_reoffered := rr_reoffered x; tr_incremented := rr_incremented x;
  tr_dead := rr_dead x; tr_notices_enqueued := tr_notices_enqueued r;
  tr_epochs_opened := tr_epochs_opened r; tr_epochs_closed := tr_epochs_closed r;
  tr_wakes := tr_wakes r; tr_pruned := tr_pruned r |}.
Definition count_notice (r : TickReport) : TickReport := {|
  tr_adopted := tr_adopted r; tr_reoffered := tr_reoffered r; tr_incremented := tr_incremented r;
  tr_dead := tr_dead r; tr_notices_enqueued := tr_notices_enqueued r + 1;
  tr_epochs_opened := tr_epochs_opened r; tr_epochs_closed := tr_epochs_closed r;
  tr_wakes := tr_wakes r; tr_pruned := tr_pruned r |}.
Definition count_opened (r : TickReport) : TickReport := {|
  tr_adopted := tr_adopted r; tr_reoffered := tr_reoffered r; tr_incremented := tr_incremented r;
  tr_dead := tr_dead r; tr_notices_enqueued := tr_notices_enqueued r;
  tr_epochs_opened := tr_epochs_opened r + 1; tr_epochs_closed := tr_epochs_closed r;
  tr_wakes := tr_wakes r; tr_pruned := tr_pruned r |}.
Definition count_closed (r : TickReport) : TickReport := {|
  tr_adopted := tr_adopted r; tr_reoffered := tr_reoffered r; tr_incremented := tr_incremented r;
  tr_dead := tr_dead r; tr_notices_enqueued := tr_notices_enqueued r;
  tr_epochs_opened := tr_epochs_opened r; tr_epochs_closed := tr_epochs_closed r + 1;
  tr_wakes := tr_wakes r; tr_pruned := tr_pruned r |}.
Definition add_wake (w : WakeOutcomeReport) (r : TickReport) : TickReport := {|
  tr_adopted := tr_adopted r; tr_reoffered := tr_reoffered r; tr_incremented := tr_incremented r;
  tr_dead := tr_dead r; tr_notices_enqueued := tr_notices_enqueued r;
  tr_epochs_opened := tr_epochs_opened r; tr_epochs_closed := tr_epochs_closed r;
  tr_wakes := tr_wakes r ++ [w]; tr_pruned := tr_pruned r |}.

Record tick_state (W : Type) := {
  ts_world : W;
  ts_report : TickReport;
  ts_ticks : Z;
}.
Arguments ts_world {W} t. Arguments ts_report {W} t. Arguments ts_ticks {W} t.

Section DeliveryTick.
Context {W : Type} `{Clock W, QueueStore W, ReceiverDirectory W, SeatCarrier W, PaneInjector W}.
(** [None] when the tick was built without one. *)
Context (_findings : option (FindingStore W)) (_adopter : option (LegacyInboxAdopter W)).

Abbreviation T := (tick_state W).

(** A statement on the world, inside a tick. *)
Definition on_world {A} (m : M W A) : M T A :=
  zoom ts_world (λ w t, {| ts_world := w; ts_report := ts_report t; ts_ticks := ts_ticks t |}) m.

Definition report (f : TickReport → TickReport) : M T () :=
  modify (λ t, {| ts_world := ts_world t; ts_report := f (ts_report t); ts_ticks := ts_ticks t |}).

Definition record_finding (code : FindingCode) (terminal_id dedupe_key detail : string) : M T () :=
  match _findings with
  | None => mret ()
  | Some fs => on_world (@fs_record W fs code terminal_id dedupe_key detail)
  end.

(** *** adopt *)

(** [by_receiver.setdefault(..).append(..)]: receivers in first-seen order. *)
Definition adopted_for (receiver : string) (l : list LegacyAdoption) : list LegacyAdoption :=
  filter (λ a, la_receiver_id a = receiver) l.

Definition _raise_adoption_findings (adoptions : list LegacyAdoption) : M T () :=
  for_each (dict_fromkeys (la_receiver_id <$> adoptions)) () (λ _ receiver_id,
    let rows := adopted_for receiver_id adoptions in
    record_finding DIAG_LEGACY_ROW_ADOPTED receiver_id receiver_id
      ("rows=" +:+ pretty (length rows) +:+ " first_legacy_id="
         +:+ pretty (default 0 (la_legacy_message_id <$> head rows)))).

Definition adopt : M T () :=
  match _adopter with
  | None => mret ()
  | Some adopter =>
    adoptions ← catch (l ← on_world (@adopt_orphans W adopter ADOPT_LIMIT); mret (Some l))
                      (λ _, mret None);
    match adoptions with
    | None => mret ()
    | Some adoptions =>
      report (add_adopted adoptions) ;;
      _raise_adoption_findings adoptions
    end
  end.

(** *** reclaim *)

Definition notice_key (row : DeadRow) : string := "delivery-notice:" +:+ dr_msg_id row.

Definition notice_draft (row : DeadRow) : EnqueueDraft := {|
  ed_idempotency_key := notice_key row;
  ed_receiver_id := dr_sender_id row;
  ed_sender_id := "";
  ed_kind := NOTE;
  ed_payload := "[cao] undelivered: message " +:+ dr_msg_id row +:+ " to " +:+ dr_receiver_id row
    +:+ " ended " +:+ DeadReason_value (dr_reason row) +:+ " after " +:+ pretty (dr_attempts row)
    +:+ " attempts. Detail: cao diag " +:+ dr_msg_id row;
  ed_mode := LIVE;
  ed_max_attempts := DELIVERY_MAX_ATTEMPTS shipped;
  ed_expire_after_s := None; ed_supersede_key := None; ed_content_hash := None;
  ed_park_warm := false; ed_barrier_id := None; ed_barrier_member_key := None;
  ed_enqueue_generation := None; ed_cancel_on_complete := false; ed_is_notice := true;
  ed_legacy_message_id := None |}.

Definition _announce_death (row : DeadRow) : M T () :=
  (if bool_decide (dr_reason row ∈ _TIME_BOUND_REASONS)
   then record_finding DIAG_DELIVERY_TIME_BOUND (dr_receiver_id row) (dr_msg_id row)
          ("reason=" +:+ DeadReason_value (dr_reason row) +:+ " attempts=" +:+ pretty (dr_attempts row))
   else mret ()) ;;
  if dr_is_notice row || is_service_sender (Some (dr_sender_id row)) then mret () else
  catch (on_world (qs_enqueue (notice_draft row)) ;; report count_notice) (λ _, mret ()).

Definition reclaim (now : Z) : M T () :=
  result ← on_world (qs_reclaim now);
  report (add_reclaimed result) ;;
  for_each (rr_dead result) () (λ _ row, _announce_death row).

(** *** serve *)

Definition _epoch_for (receiver_id : string) (now : Z) : M T (option SeatDigest) :=
  ids ← on_world (qs_undelivered_ids receiver_id);
  match ids with
  | [] => mret None
  | _ =>
    open_digest ← on_world (qs_open_digest receiver_id);
    match open_digest with
    | None =>
      report count_opened ;;
      digest ← on_world (qs_build_digest receiver_id ids now);
      mret (Some digest)
    | Some open_digest =>
      extended ← on_world (qs_extend_digest receiver_id (sd_epoch open_digest) ids now);
      mret (Some (default open_digest extended))
    end
  end.

Definition attempt_for (wake : WakeOutcomeReport) (now : Z) (m : QueueMessage) : DeliveryAttempt := {|
  at_msg_id := msg_id m; at_claim_id := claim_id m; at_carrier := wr_carrier wake;
  at_started_at := now; at_outcome := wr_outcome wake; at_detail := wr_detail wake |}.

Definition _record_attempts (wake : WakeOutcomeReport) (claimed : list QueueMessage) (now : Z) : M T () :=
  for_each claimed () (λ _ m,
    on_world (qs_record_attempt (attempt_for wake now m)) ;;
    if decide (wr_outcome wake = VETO_DIALOG) then
      (if decide (held_since m = None) then on_world (qs_mark_dialog_hold (msg_id m) (Some now))
       else mret ())
    else if decide (held_since m = None) then mret ()
    else on_world (qs_mark_dialog_hold (msg_id m) None)).

Definition _raise_wake_finding (wake : WakeOutcomeReport) : M T () :=
  match wr_finding_reason wake with
  | None => mret ()
  | Some reason =>
    record_finding DIAG_SEAT_WAKE_UNREACHABLE (wr_receiver_id wake)
      (wr_receiver_id wake +:+ ":" +:+ pretty (wr_epoch wake))
      ("reason=" +:+ reason +:+ " carrier=" +:+ wr_carrier wake +:+ " epoch=" +:+ pretty (wr_epoch wake))
  end.

Definition _serve_receiver (receiver_id : string) (now : Z) : M T () :=
  claimed ← on_world (qs_claim TICK_LEASE_OWNER now CLAIM_LIMIT (Some receiver_id));
  digest ← _epoch_for receiver_id now;
  match digest, claimed with
  | None, _ => mret ()
  | Some _, [] => mret ()
  | Some digest, _ =>
    wake ← on_world (deliver digest claimed);
    report (add_wake wake) ;;
    (if wr_recordable wake then _record_attempts wake claimed now else mret ()) ;;
    _raise_wake_finding wake
  end.

(** *** epoch closure *)

Definition closed_via (resolution : ReceiverResolution) : string :=
  if res_live resolution && res_pane_present resolution then "cancelled" else "abandoned".

Definition _close_finished_epochs (now : Z) : M T () :=
  digests ← on_world qs_open_digests;
  for_each digests () (λ _ digest,
    finished ← on_world (qs_all_terminal (sd_msg_ids digest));
    if negb finished then mret () else
    resolution ← on_world (resolve (sd_receiver_id digest));
    closed ← on_world (qs_close_digest (sd_receiver_id digest) (sd_epoch digest)
                         (closed_via resolution) now);
    if (closed : bool) then report count_closed else mret ()).

Definition serve (now : Z) : M T () :=
  receivers ← on_world qs_ready_receivers;
  for_each receivers () (λ _ receiver_id,
    catch (_serve_receiver receiver_id now) (λ _, mret ())) ;;
  _close_finished_epochs now.

(** *** one tick *)

Definition run_once (now : option Z) : M T TickReport :=
  report (λ _, empty_report) ;;
  adopt ;;
  stamp ← match now with Some n => mret n | None => on_world clock_now end;
  reclaim stamp ;;
  serve stamp ;;
  modify (λ t, {| ts_world := ts_world t; ts_report := ts_report t; ts_ticks := ts_ticks t + 1 |}) ;;
  gets ts_report.

(** One turn of the task's loop: an exception is logged and the task goes on. *)
Definition _run_body : M T () := catch (run_once None ;; mret ()) (λ _, mret ()).

(** *** retention *)

Definition _protected_ids : M T (list string) :=
  match _findings with
  | None => mret []
  | Some fs =>
    open ← on_world (@fs_list_findings W fs (Some OPEN));
    mret (fi_dedupe_key <$> open)
  end.

Definition prune (now : option Z) : M T Z :=
  stamp ← match now with Some n => mret n | None => on_world clock_now end;
  protected ← _protected_ids;
  on_world (qs_prune stamp protected).

End DeliveryTick.

(** * What a tick guarantees, over any implementation of its ports

    The theorems of this file are proved against the classes of [Ports]: the
    implementations only have to satisfy [OutboundLaws]. *)

(** ** Statements inside a tick *)

Section OnWorld.
Context {W : Type}.

Lemma on_world_run {A} (m : M W A) (t : tick_state W) :
  on_world m t
  = ({| ts_world := (m (ts_world t)).1; ts_report := ts_report t; ts_ticks := ts_ticks t |},
     (m (ts_world t)).2).
Proof. unfold on_world, zoom. by destruct (m (ts_world t)). Qed.

(** A relation on worlds, seen on tick states. *)
Definition on_ts (R : relation W) : relation (tick_state W) := λ t t', R (ts_world t) (ts_world t').

#[export] Instance on_ts_preorder R : PreOrder R → PreOrder (on_ts R).
Proof.
  intros HR. unfold on_ts. split.
  - intros t. reflexivity.
  - intros x y z H1 H2. by etrans.
Qed.

Lemma on_world_keeps {A} R (m : M W A) : keeps R m → keeps (on_ts R) (on_world m).
Proof. intros Hm t. rewrite on_world_run. apply Hm. Qed.

Lemma report_keeps R `{!PreOrder R} f : keeps (on_ts R) (report (W:=W) f).
Proof. intros t. unfold on_ts. simpl. reflexivity. Qed.
End OnWorld.

#[export] Hint Resolve on_world_keeps report_keeps on_ts_preorder : cao.

Lemma catch_swallows {S} (m : M S ()) s :
  catch m (λ _, mret ()) s = (state_of (m s), Returned ()).
Proof. unfold catch, state_of. by destruct (m s) as [s' [[]|e]]. Qed.

Lemma for_each_total {S A} (xs : list A) (body : A → M S ()) s :
  (∀ x s, value_of (body x s) = Returned ()) →
  for_each xs () (λ _ x, body x) s = (foldl (λ s x, state_of (body x s)) s xs, Returned ()).
Proof.
  intros Hb. revert s. induction xs as [|x xs IH]; intros s; simpl; [done|].
  specialize (Hb x s). unfold value_of in Hb. destruct (body x s) as [s' o] eqn:E.
  simpl in Hb. subst. erewrite bind_returned by exact E. by rewrite IH.
Qed.

Section TickFacts.
Context {W : Type} `{OutboundLaws W}.
Context (_findings : option (FindingStore W)) (_adopter : option (LegacyInboxAdopter W)).

(** One receiver cannot stop the fleet: once the receivers are read,
    [serve] serves every one of them, in order, each from the state the one
    before it left, whatever exceptions they raise, and then closes the finished
    epochs; only the closing itself can make [serve] raise. *)
Theorem serve_isolates_receivers now t :
  let '(t1, o) := on_world qs_ready_receivers t in
  match o with
  | Raised e => serve _findings now t = (t1, Raised e)
  | Returned receivers =>
    serve _findings now t
    = _close_finished_epochs now
        (foldl (λ t r, state_of (_serve_receiver _findings r now t)) t1 receivers)
  end.
Proof.
  destruct (on_world qs_ready_receivers t) as [t1 [receivers|e]] eqn:E.
  - unfold serve. erewrite bind_returned by exact E.
    erewrite bind_returned.
    2: { apply (for_each_total receivers (λ r, catch (_serve_receiver _findings r now) (λ _, mret ()))).
         intros r s. by rewrite catch_swallows. }
    f_equal. clear E. revert t1. induction receivers as [|r rs IH]; intros t1; simpl; [done|].
    rewrite catch_swallows. apply IH.
  - unfold serve. by apply bind_raised.
Qed.

(** ** What leaves the process *)

Context (directory : string → outcome ReceiverResolution).
Context (Hdir : ∀ r w, resolve r w = (w, directory r)).
Context (Hfind : ∀ fs, _findings = Some fs →
  (∀ c t k d, keeps (silent outbound) (@fs_record W fs c t k d))).
Context (Hadopt : ∀ ad, _adopter = Some ad →
  ∀ n, keeps (silent outbound) (@adopt_orphans W ad n)).

(** A thing that may be sent: a wake to a live supervisor seat, a paste into
    the terminal of a live receiver that is not one. *)
Definition permitted (x : sent) : Prop :=
  ∃ r res, directory r = Returned res ∧ res_live res = true
    ∧ match x with
      | Woke s => res_is_supervisor res = true ∧ sw_terminal_id s = res_terminal_id res
      | Pasted t _ => res_is_supervisor res = false ∧ t = res_terminal_id res
      end.

Definition sends_permitted (w w' : W) : Prop :=
  ∃ l, outbound w' = outbound w ++ l ∧ Forall permitted l.

#[local] Instance sends_permitted_preorder : PreOrder sends_permitted.
Proof.
  split.
  - intros w. exists []. split; [by rewrite app_nil_r|constructor].
  - intros x y z (l & Hl & Hp) (l' & Hl' & Hp'). exists (l ++ l').
    split; [by rewrite Hl', Hl, app_assoc|by apply Forall_app].
Qed.

Lemma silent_permitted {A} (m : M W A) :
  keeps (silent outbound) m → keeps (on_ts sends_permitted) (on_world m).
Proof.
  intros Hm. apply on_world_keeps. intros w. exists []. split; [|constructor].
  rewrite app_nil_r. apply Hm.
Qed.

Lemma deliver_permitted digest claimed :
  keeps (on_ts sends_permitted) (on_world (deliver digest claimed)).
Proof using Hdir.
  apply on_world_keeps. intros w. destruct (deliver digest claimed w) as [w' o] eqn:E. simpl.
  destruct (deliver_sends digest claimed w w' o E) as [[Ho _]|(w1 & res & n & line & x & Hr & Hl & _ & _ & Ho & Hx)].
  - exists []. split; [by rewrite app_nil_r|constructor].
  - exists [x]. split; [done|]. constructor; [|constructor].
    rewrite Hdir in Hr. injection Hr as -> Hr.
    exists (sd_receiver_id digest), res. split_and!; [done|done|]. destruct x; tauto.
Qed.

#[local] Hint Resolve silent_permitted deliver_permitted : cao.

Lemma record_finding_permitted c t k d :
  keeps (on_ts sends_permitted) (record_finding _findings c t k d).
Proof using Hfind.
  unfold record_finding. destruct _findings as [fs|]; [|apply keeps_ret; apply _].
  apply silent_permitted. by apply Hfind.
Qed.
#[local] Hint Resolve record_finding_permitted : cao.

Ltac permitted := intros; eauto 20 with cao typeclass_instances; fail.

Lemma loop_permitted {A} (xs : list A) (body : A → M (tick_state W) ()) :
  (∀ x, keeps (on_ts sends_permitted) (body x)) →
  keeps (on_ts sends_permitted) (for_each xs () (λ _ x, body x)).
Proof. intros Hb. apply keeps_for_each; [apply _|]. intros [] x _. apply Hb. Qed.

Lemma adopt_permitted : keeps (on_ts sends_permitted) (adopt _findings _adopter).
Proof using Hfind Hadopt.
  unfold adopt. destruct _adopter as [ad|]; [|permitted].
  assert (keeps (silent outbound) (@adopt_orphans W ad ADOPT_LIMIT)) by (by apply Hadopt).
  apply keeps_bind; [apply _|permitted|]. intros [l|]; [|permitted].
  apply keeps_bind; [apply _|permitted|]. intros _. apply loop_permitted. permitted.
Qed.

Lemma reclaim_permitted now : keeps (on_ts sends_permitted) (reclaim _findings now).
Proof using Hfind.
  unfold reclaim. apply keeps_bind; [apply _|permitted|]. intros result.
  apply keeps_bind; [apply _|permitted|]. intros _. apply loop_permitted.
  intros row. unfold _announce_death. permitted.
Qed.

Lemma serve_receiver_permitted r now :
  keeps (on_ts sends_permitted) (_serve_receiver _findings r now).
Proof using Hfind Hdir.
  unfold _serve_receiver. apply keeps_bind; [apply _|permitted|]. intros claimed.
  apply keeps_bind; [apply _| |].
  { unfold _epoch_for. permitted. }
  intros [digest|]; [|permitted]. destruct claimed as [|m ms]; [permitted|].
  apply keeps_bind; [apply _|permitted|]. intros wake.
  apply keeps_bind; [apply _|permitted|]. intros _.
  apply keeps_bind; [apply _| |].
  - destruct (wr_recordable wake); [|permitted]. apply loop_permitted. permitted.
  - intros _. unfold _raise_wake_finding. permitted.
Qed.

Lemma serve_permitted now : keeps (on_ts sends_permitted) (serve _findings now).
Proof using Hfind Hdir.
  unfold serve. apply keeps_bind; [apply _|permitted|]. intros rs.
  apply keeps_bind; [apply _| |].
  - apply loop_permitted. intros r. apply keeps_catch; [apply _|apply serve_receiver_permitted|permitted].
  - intros _. unfold _close_finished_epochs. apply keeps_bind; [apply _|permitted|].
    intros ds. apply loop_permitted. permitted.
Qed.

(** No tick ever types into a supervisor's pane: whatever a whole tick
    does, and however it ends, everything it sends is a native wake to a live
    supervisor seat or a paste into the terminal of a live receiver that is not
    a supervisor. *)
Theorem tick_never_pastes_a_seat now t :
  ∃ l, outbound (ts_world (state_of (run_once _findings _adopter now t)))
       = outbound (ts_world t) ++ l ∧ Forall permitted l.
Proof.
  assert (keeps (on_ts sends_permitted) (run_once _findings _adopter now)) as Hk; [|apply Hk].
  unfold run_once. apply keeps_bind; [apply _|permitted|]. intros _.
  apply keeps_bind; [apply _|apply adopt_permitted|]. intros _.
  apply keeps_bind; [apply _|destruct now; permitted|]. intros stamp.
  apply keeps_bind; [apply _|apply reclaim_permitted|]. intros _.
  apply keeps_bind; [apply _|apply serve_permitted|]. intros _.
  apply keeps_bind; [apply _| |permitted].
  apply keeps_modify. intros t'. unfold on_ts. simpl. reflexivity.
Qed.
End TickFacts.
