(* ===== verification/Wiring.v ===== *)
(** * The seam legacy reaches the queue through — [app/delivery/wiring.py], [app/delivery/facts.py]

    [write_through] for a new send, [adopt_legacy_row] for a row the legacy
    inbox still holds, [record_completion] for a receiver's own completion.
    Nothing is installed until the composition root installs a runtime. *)

From S2P Require Import Prelude Timing Delivery Ports.

Record LegacyEnqueue := {
  le_legacy_message_id : Z;
  le_receiver_id : string;
  le_sender_id : string;
  le_message : string;
  le_status : string;
  le_created_at : Z;
  le_orchestration_type : string;
  le_is_callback : bool;
  le_expire_after_s : option Z;
  le_supersede_key : option string;
  le_content_hash : option string;
  le_park_warm : bool;
  le_barrier_id : option Z;
  le_barrier_member_key : option string;
  le_enqueue_generation : option Z;
}.

Record DeliveryRuntime (W : Type) := {
  rt_store : QueueStore W;
  rt_clock : Clock W;
}.
Arguments rt_store {W} d. Arguments rt_clock {W} d.

(** The draft both writers build; they differ in the key and the id. *)
Definition fact_draft (fact : LegacyEnqueue) (key : string) (legacy_id : Z) : EnqueueDraft := {|
  ed_idempotency_key := key;
  ed_receiver_id := le_receiver_id fact;
  ed_sender_id := le_sender_id fact;
  ed_kind := if le_is_callback fact then CALLBACK else NOTE;
  ed_payload := le_message fact;
  ed_mode := LIVE;
  ed_max_attempts := DELIVERY_MAX_ATTEMPTS shipped;
  ed_expire_after_s := le_expire_after_s fact;
  ed_supersede_key := le_supersede_key fact;
  ed_content_hash := le_content_hash fact;
  ed_park_warm := le_park_warm fact;
  ed_barrier_id := le_barrier_id fact;
  ed_barrier_member_key := le_barrier_member_key fact;
  ed_enqueue_generation := le_enqueue_generation fact;
  ed_cancel_on_complete := false;
  ed_is_notice := false;
  ed_legacy_message_id := Some legacy_id;
|}.

Definition live_key (surrogate : Z) : string := "live-inbox:" +:+ pretty surrogate.
Definition adopted_key (legacy_id : Z) : string := "adopted-inbox:" +:+ pretty legacy_id.

Section Wiring.
Context {W : Type} (_runtime : option (DeliveryRuntime W)).

Definition queue_owns_delivery : bool := bool_decide (is_Some _runtime).
Definition queue_owns_new_traffic : bool := bool_decide (is_Some _runtime).

(** [EnqueueDraft(..)]: pydantic refuses an invalid draft before the store sees it. *)
Definition build_draft (d : EnqueueDraft) : M W EnqueueDraft :=
  if draft_valid d then mret d else raise (ValueError "EnqueueDraft").

Definition write_through (fact : LegacyEnqueue) : M W (option (Z * string)) :=
  match _runtime with
  | None => mret None
  | Some runtime =>
    catch (
      now ← @clock_now W (rt_clock runtime);
      duplicate ← @qs_find_recent_duplicate W (rt_store runtime) (le_sender_id fact)
        (le_receiver_id fact) (default ""%string (le_content_hash fact))
        (DELIVERY_DEDUP_WINDOW_S shipped) now (le_park_warm fact) (le_barrier_id fact);
      match duplicate ≫= (λ d, (λ i, (i, msg_id d)) <$> legacy_message_id d) with
      | Some existing => mret (Some existing)
      | None =>
        surrogate ← @qs_next_surrogate_id W (rt_store runtime);
        draft ← build_draft (fact_draft fact (live_key surrogate) surrogate);
        message ← @qs_enqueue W (rt_store runtime) draft;
        mret (Some (surrogate, msg_id message))
      end)
    (λ _, mret None)
  end.

Definition adopt_legacy_row (fact : LegacyEnqueue) : M W (option string) :=
  match _runtime with
  | None => mret None
  | Some runtime =>
    catch (
      draft ← build_draft (fact_draft fact (adopted_key (le_legacy_message_id fact))
                             (le_legacy_message_id fact));
      message ← @qs_enqueue W (rt_store runtime) draft;
      mret (Some (msg_id message)))
    (λ e, match e with
          | PersistentEnqueueRejection _ | IdempotencyConflict _ => raise e
          | _ => mret None
          end)
  end.

Definition record_completion (receiver_id : string) : M W (list string) :=
  match _runtime with
  | None => mret []
  | Some runtime =>
    catch (
      now ← @clock_now W (rt_clock runtime);
      @qs_cancel_on_complete W (rt_store runtime) receiver_id now)
    (λ _, mret [])
  end.

End Wiring.
