(* ===== verification/World.v ===== *)
(** * The world the plane runs in: the ports implemented

    [world] is the queue's tables, the finding table, what has been sent, the
    clock and the supply of minted ids.  The store ports are the two SQLite
    stores; the directory, the native carrier and the pane injector are code of
    other subsystems and stay parameters — functions of what has been sent so
    far, so that they may answer differently every time. *)

From S2P Require Import Prelude Timing Delivery QueueRows QueueStore Ports Findings Wake Tick.

Record world := {
  w_db : db;
  w_findings : list (FindingRow string);
  w_sent : list sent;
  w_now : Z;
  w_minted : nat;
}.

Definition set_db (d : db) (w : world) : world :=
  {| w_db := d; w_findings := w_findings w; w_sent := w_sent w; w_now := w_now w;
     w_minted := w_minted w |}.
Definition set_findings (f : list (FindingRow string)) (w : world) : world :=
  {| w_db := w_db w; w_findings := f; w_sent := w_sent w; w_now := w_now w;
     w_minted := w_minted w |}.
Definition add_sent (x : sent) (w : world) : world :=
  {| w_db := w_db w; w_findings := w_findings w; w_sent := w_sent w ++ [x]; w_now := w_now w;
     w_minted := w_minted w |}.
Definition count_minted (w : world) : world :=
  {| w_db := w_db w; w_findings := w_findings w; w_sent := w_sent w; w_now := w_now w;
     w_minted := S (w_minted w) |}.
Definition set_now (n : Z) (w : world) : world :=
  {| w_db := w_db w; w_findings := w_findings w; w_sent := w_sent w; w_now := n;
     w_minted := w_minted w |}.

Definition on_db {A} (m : M db A) : M world A := zoom w_db set_db m.
Definition on_findings {A} (m : M (list (FindingRow string)) A) : M world A :=
  zoom w_findings set_findings m.

Lemma on_db_run {A} (m : M db A) w :
  on_db m w = (set_db (m (w_db w)).1 w, (m (w_db w)).2).
Proof. unfold on_db, zoom. by destruct (m (w_db w)). Qed.

Lemma on_findings_run {A} (m : M (list (FindingRow string)) A) w :
  on_findings m w = (set_findings (m (w_findings w)).1 w, (m (w_findings w)).2).
Proof. unfold on_findings, zoom. by destruct (m (w_findings w)). Qed.

Section World.
Context (_payload_digest : string → string) (mint : nat → string).
Context (directory : string → outcome ReceiverResolution).
Context (carrier : list sent → SeatWake → outcome WakeEmission).
Context (injector : list sent → string → string → outcome InjectionResult).
(** [Some e]: the finding store raises [e] — the file is locked, for instance. *)
Context (findings_fault : option exn).

(** The next id of the stream; one drawn and not used is skipped. *)
Definition minting {A} (m : string → M world A) : M world A := λ w,
  m (mint (w_minted w)) (count_minted w).

#[export] Instance world_clock : Clock world := gets w_now.

#[export] Instance world_store : QueueStore world := {|
  qs_enqueue draft := minting (λ i w,
    on_db (SqliteQueueStore.enqueue _payload_digest (w_now w) i draft) w);
  qs_claim owner now limit recv := on_db (SqliteQueueStore.claim owner now limit recv);
  qs_reclaim now := on_db (SqliteQueueStore.reclaim now);
  qs_attempts_for i := on_db (SqliteQueueStore.attempts_for i);
  qs_record_attempt a := on_db (SqliteQueueStore.record_attempt a);
  qs_mark_dialog_hold i held := on_db (SqliteQueueStore.mark_dialog_hold i held);
  qs_open_digest recv := on_db (SqliteQueueStore.open_digest recv);
  qs_build_digest recv ids now := on_db (SqliteQueueStore.build_digest recv ids now);
  qs_extend_digest recv epoch ids now := on_db (SqliteQueueStore.extend_digest recv epoch ids now);
  qs_bump_wake_count recv epoch now := on_db (SqliteQueueStore.bump_wake_count recv epoch now);
  qs_close_digest recv epoch via now := on_db (SqliteQueueStore.close_digest recv epoch via now);
  qs_open_digests := on_db SqliteQueueStore.open_digests;
  qs_ready_receivers := on_db SqliteQueueStore.ready_receivers;
  qs_undelivered_ids recv := on_db (SqliteQueueStore.undelivered_ids recv);
  qs_senders_of ids := on_db (SqliteQueueStore.senders_of ids);
  qs_all_terminal ids := on_db (SqliteQueueStore.all_terminal ids);
  qs_cancel_on_complete recv now := on_db (SqliteQueueStore.cancel_on_complete recv now);
  qs_next_surrogate_id := on_db SqliteQueueStore.next_surrogate_id;
  qs_find_recent_duplicate sender recv hash window now park barrier :=
    on_db (SqliteQueueStore.find_recent_duplicate sender recv hash window now park barrier);
  qs_prune now protected := on_db (SqliteQueueStore.prune now protected);
|}.

#[export] Instance world_directory : ReceiverDirectory world := λ r, lift_outcome (directory r).

#[export] Instance world_carrier : SeatCarrier world := λ s w,
  (add_sent (Woke s) w, carrier (w_sent w) s).

#[export] Instance world_injector : PaneInjector world := λ t l w,
  (add_sent (Pasted t l) w, injector (w_sent w) t l).

#[export] Instance world_findings : FindingStore world := {|
  fs_record code terminal_id dedupe_key detail :=
    match findings_fault with
    | Some e => raise e
    | None => minting (λ i w,
        (on_findings (SqliteFindingStore.record (w_now w) i code terminal_id dedupe_key detail None)
           ;; mret ()) w)
    end;
  fs_list_findings s := on_findings (SqliteFindingStore.list_findings s None);
|}.

Lemma on_db_silent {A} (m : M db A) : keeps (silent w_sent) (on_db m).
Proof. intros w. by rewrite on_db_run. Qed.

(** The stores discharge the interface the service and the tick rely on. *)
#[export] Instance world_laws : OutboundLaws world.
Proof.
  refine {| outbound := w_sent |}; intros; try apply on_db_silent; try done.
  intros w. simpl. unfold minting. by rewrite on_db_run.
Defined.
End World.
