(* ===== verification/WorldThms.v ===== *)
(** * The plane end to end

    Theorems about the ports' clients over the two SQLite stores: what legacy's
    writes leave in the queue, what a death leaves behind, what a completion
    cancels, and what retention spares. *)

From S2P Require Import Prelude Timing Delivery QueueRows QueueStore QueueLoops QueueLife QueueInv QueueThms Ports Findings Wake Tick Wiring World.
Import SqliteQueueStore.

(** ** The completion-cancel and who may arm it *)

(** The drafts the system builds: a send, an adoption, a dead-letter notice. *)
Inductive built_draft : EnqueueDraft → Prop :=
| built_send fact n : built_draft (fact_draft fact (live_key n) n)
| built_adoption fact :
    built_draft (fact_draft fact (adopted_key (le_legacy_message_id fact)) (le_legacy_message_id fact))
| built_notice row : built_draft (notice_draft row).

Definition op_built (o : op) : Prop :=
  match o with OpEnqueue _ _ draft => built_draft draft ∧ draft_valid draft = true | _ => True end.

Lemma op_built_valid o : op_built o → op_valid o.
Proof. destruct o; simpl; tauto. Qed.

Definition uncancellable (t : list row) : Prop :=
  ∀ r, r ∈ t → Delivery.cancel_on_complete r = false.

Lemma exec_uncancellable pd o d :
  wf d → op_built o → uncancellable (delivery_msg d) →
  uncancellable (delivery_msg (step pd o d)).
Proof.
  intros Hd Ho Hu. destruct (exec_respects pd o (op_built_valid o Ho) d Hd) as [_ [Hfrom _]].
  assert (∀ r r', r ∈ delivery_msg d → lstep_opt r r' → Delivery.cancel_on_complete r' = false) as Hold.
  { intros r r' Hr Hs. rewrite (si_cancel _ _ (lstep_opt_identity _ _ Hs)). by apply Hu. }
  destruct o as [now i draft| | | | | | | | | | | | | |];
    try (intros r' Hr'; destruct (Hfrom r' Hr') as [(r & Hr & Hs)|[_ Hm]];
         [by eapply Hold|by apply not_elem_of_nil in Hm]).
  clear Hfrom. unfold step. simpl exec. destruct Ho as [Hb _].
  assert (state_of ((enqueue pd now i draft ≫= λ _, mret ()) d)
          = state_of (enqueue pd now i draft d)) as ->
    by (apply bind_state; intros ?; apply keeps_ret; apply _).
  rewrite enqueue_state. destruct (existsb (has_key _) _); [done|].
  destruct (existsb (has_id i) _); [done|].
  intros r [Hr|Hr%list_elem_of_singleton]%elem_of_app; [by apply Hu|].
  subst. by destruct Hb.
Qed.

Lemma run_uncancellable pd ops d :
  wf d → Forall op_built ops → uncancellable (delivery_msg d) →
  uncancellable (delivery_msg (run pd ops d)).
Proof.
  revert d. induction ops as [|o ops IH]; intros d Hd Hb Hu; [done|].
  apply Forall_cons in Hb as [Ho Hb]. apply IH; [|done|by apply exec_uncancellable].
  by apply (exec_respects pd o (op_built_valid o Ho) d Hd).
Qed.

(** The completion-cancel never cancels anything in this system: none of
    the three places that build a draft sets [cancel_on_complete], so over any
    run of a store that started empty, a receiver's completion settles no
    message and changes nothing. *)
Theorem completion_cancel_is_inert pd ops recv now :
  Forall op_built ops →
  SqliteQueueStore.cancel_on_complete recv now (run pd ops empty_db)
  = (run pd ops empty_db, Returned []).
Proof.
  intros Hb. set (d := run pd ops empty_db).
  assert (wf d) as Hd.
  { apply wf_run; [apply wf_empty|]. eapply Forall_impl; [exact Hb|exact op_built_valid]. }
  assert (uncancellable (delivery_msg d)) as Hu.
  { apply run_uncancellable; [apply wf_empty|done|]. by intros r Hr%not_elem_of_nil. }
  rewrite cancel_returned by apply Hd.
  assert (∀ r, r ∈ delivery_msg d → cancellable recv r = false) as Hc.
  { intros r Hr. unfold cancellable. rewrite (Hu r Hr), andb_false_r. done. }
  rewrite update_where_none, set_msgs_same by done. unfold select_where.
  by rewrite filter_none by (intros r Hr; by rewrite Hc).
Qed.

Definition sample_fact (recv body : string) : LegacyEnqueue := {|
  le_legacy_message_id := 0; le_receiver_id := recv; le_sender_id := "w1"; le_message := body;
  le_status := "pending"; le_created_at := 0; le_orchestration_type := ""; le_is_callback := false;
  le_expire_after_s := None; le_supersede_key := None; le_content_hash := None;
  le_park_warm := false; le_barrier_id := None; le_barrier_member_key := None;
  le_enqueue_generation := None |}.

Lemma completion_cancel_is_inert_witness :
  let d := run Sample.pd [OpEnqueue 0 "m1" (fact_draft (sample_fact "t1" "x") (live_key 1) 1)] empty_db in
  SqliteQueueStore.cancel_on_complete "t1" 5 d = (d, Returned []).
Proof.
  apply completion_cancel_is_inert. constructor; [|constructor]. split; [apply built_send|done].
Defined.

(** ** Deaths and notices *)

Section Deaths.
Context (pd : string → string) (mint : nat → string).
Context (Hmint : ∀ j k, mint j = mint k → j = k) (Hnamed : ∀ k, mint k ≠ ""%string).










End Deaths.

(** A concrete environment: [seat] is a live supervisor seat, every other
    receiver a live worker; the carriers accept everything. *)
Module Env.

Definition mint (k : nat) : string := "id" +:+ pretty k.


Definition directory (r : string) : outcome ReceiverResolution := Returned {|
  res_receiver_id := r; res_terminal_id := "term-" +:+ r;
  res_is_supervisor := bool_decide (r = "seat"%string); res_pane_present := true;
  res_display_name := r |}.

Definition carrier (_ : list sent) (_ : SeatWake) : outcome WakeEmission :=
  Returned {| we_reason := None; we_verified := true; we_annotations := []; we_detail := "" |}.
Definition injector (_ : list sent) (_ _ : string) : outcome InjectionResult :=
  Returned {| ij_outcome := OUT_DELIVERED; ij_detail := "" |}.

#[export] Instance store : QueueStore world := world_store Sample.pd mint.
#[export] Instance dir : ReceiverDirectory world := world_directory directory.
#[export] Instance seat_carrier : SeatCarrier world := world_carrier carrier.
#[export] Instance pane_injector : PaneInjector world := world_injector injector.
#[export] Instance laws : OutboundLaws world := world_laws Sample.pd mint directory carrier injector.

(** The SQLite finding store, working and locked. *)
Definition findings : FindingStore world := world_findings mint None.
Definition locked : FindingStore world :=
  world_findings mint (Some (ExternalError "database is locked")).

Definition start (d : db) (now : Z) : tick_state world := {|
  ts_world := {| w_db := d; w_findings := []; w_sent := []; w_now := now; w_minted := 0 |};
  ts_report := empty_report; ts_ticks := 0 |}.

(** Successive ticks, each at the instant and with the finding store given. *)
Definition ticks (l : list (Z * FindingStore world)) (t : tick_state world) : tick_state world :=
  foldl (λ t x, state_of (run_once (Some x.2) None (Some x.1) t)) t l.

End Env.
Import Env.

Definition due_deaths : list DeadRow :=
  (λ i, {| dr_msg_id := i; dr_receiver_id := "t1"; dr_sender_id := "w1";
           dr_reason := MAX_LIFETIME; dr_is_notice := false; dr_attempts := 1 |})
    <$> ["m1"; "m2"]%string.



(** A finding that cannot be written silences the dead: when recording
    raises for the first message a pass killed, the tick's reclaim step raises
    with the store's deaths already committed, so no notice is enqueued for that
    message or for any other that died in the pass — and, a death being
    reported once, no later tick will enqueue one. *)
Theorem failed_finding_silences_deaths pd mint e now t w1 res row rest :
  @qs_reclaim world (world_store pd mint) now (ts_world t) = (w1, Returned res) →
  rr_dead res = row :: rest → dr_reason row ∈ _TIME_BOUND_REASONS →
  ∃ t', @Tick.reclaim world (world_store pd mint) (Some (world_findings mint (Some e))) now t
        = (t', Raised e)
    ∧ w_db (ts_world t') = state_of (SqliteQueueStore.reclaim now (w_db (ts_world t))).
Proof.
  intros Hrec Hdead Hr. unfold Tick.reclaim.
  eexists. erewrite bind_returned by (rewrite on_world_run, Hrec; reflexivity).
  erewrite bind_returned by reflexivity. rewrite Hdead. simpl for_each. split.
  - apply bind_raised. unfold _announce_death. apply bind_raised.
    rewrite bool_decide_eq_true_2 by done. reflexivity.
  - simpl. simpl in Hrec. rewrite on_db_run in Hrec. by injection Hrec as <- _.
Qed.

(** Two messages die together while the finding table is locked: two ticks later
    both are dead and neither sender has been told. *)
Lemma failed_finding_silences_deaths_witness :
  (∃ t', @Tick.reclaim world (world_store Sample.pd mint)
           (Some (world_findings mint (Some (ExternalError "database is locked"))))
           (seconds 1800) (start Sample.leased 0)
         = (t', Raised (ExternalError "database is locked"))
     ∧ w_db (ts_world t')
       = state_of (SqliteQueueStore.reclaim (seconds 1800) (w_db (ts_world (start Sample.leased 0)))))
  ∧ let t := ticks [(seconds 1800, locked); (seconds 1810, findings)] (start Sample.leased 0) in
    state <$> delivery_msg (w_db (ts_world t)) = [DEAD; DEAD].
Proof.
  split; [|vm_compute; reflexivity].
  eapply (failed_finding_silences_deaths Sample.pd mint (ExternalError "database is locked")
    (seconds 1800) (start Sample.leased 0) _
    {| rr_reoffered := 2; rr_incremented := 2; rr_quarantined := 0; rr_dead := due_deaths |});
    [vm_compute; reflexivity|reflexivity|by_eval].
Defined.

(** ** The carriers, in the concrete environment *)

#[export] Instance env_clock : Clock world := world_clock.

Definition sample_digest (recv : string) : SeatDigest :=
  SqliteQueueStore.fresh_digest recv 1 ["m1"; "m2"]%string 0.

Definition with_epoch (recv : string) : world :=
  set_db (set_digests [sample_digest recv] Sample.ready)
    (ts_world (start Sample.ready 0)).

(** The seat is woken, not pasted. *)
Lemma deliver_single_carrier_witness :
  let w := with_epoch "seat" in let r := deliver (sample_digest "seat") [] w in
  (w_sent r.1 = w_sent w ∧ ∀ x, r.2 = Returned x → wr_emitted x = false)
  ∨ ∃ w1 res n line x, resolve "seat" w = (w1, Returned res) ∧ res_live res = true
      ∧ line = build_digest_line 1 2 n ["m1"; "m2"]%string
      ∧ n ≠ 0 ∧ w_sent r.1 = w_sent w ++ [x]
      ∧ match x with
        | Woke s => res_is_supervisor res = true ∧ sw_terminal_id s = res_terminal_id res
            ∧ sw_line s = line ∧ sw_msg_id s = _wake_msg_id (sample_digest "seat") n
            ∧ (res_receiver_id res ≠ DELIVERY_SENDER_ADDRESS → sw_sender_key s ≠ res_receiver_id res)
        | Pasted t l => res_is_supervisor res = false ∧ t = res_terminal_id res ∧ l = line
        end.
Proof.
  intros w r.
  exact (deliver_single_carrier (sample_digest "seat") [] w r.1 r.2 (surjective_pairing r)).
Defined.

(** A finding store that keeps nothing, for a tick built without one to inspect. *)
Definition quiet_findings : FindingStore world := {|
  fs_record _ _ _ _ := mret (); fs_list_findings _ := mret [] |}.

Lemma tick_never_pastes_a_seat_witness :
  ∃ l, outbound (ts_world (state_of (run_once (Some quiet_findings) None (Some 10)
                                       (start Sample.ready 0))))
       = outbound (ts_world (start Sample.ready 0)) ++ l ∧ Forall (permitted directory) l.
Proof.
  refine (tick_never_pastes_a_seat (Some quiet_findings) None directory _ _ _ (Some 10)
            (start Sample.ready 0)).
  - intros r w. reflexivity.
  - intros fs [= <-] c t k d w. reflexivity.
  - done.
Defined.

(** What that tick sent. *)
Example one_tick_pastes_the_worker :
  w_sent (ts_world (ticks [(10, findings)] (start Sample.ready 0)))
  = [Pasted "term-t1" (build_digest_line 1 2 1 ["m1"; "m2"]%string)].
Proof. vm_compute. reflexivity. Qed.

(** A message that arrives while an epoch's messages are leased makes the next
    tick wake the same epoch again, ten seconds later and inside the lease of
    the first two: the ordinal advances once per claim, not once per lease
    period. *)
Lemma epoch_woken_twice_in_one_lease :
  let t1 := ticks [(10, findings)] (start Sample.ready 0) in
  let w := ts_world t1 in
  let t2 := {| ts_world := set_db (step Sample.pd (OpEnqueue (seconds 5) "m3" (Sample.draft "k3")) (w_db w)) w;
               ts_report := ts_report t1; ts_ticks := ts_ticks t1 |} in
  let t3 := ticks [(seconds 10, findings)] t2 in
  w_sent (ts_world t3)
  = [Pasted "term-t1" (build_digest_line 1 2 1 ["m1"; "m2"]%string);
     Pasted "term-t1" (build_digest_line 1 3 2 ["m1"; "m2"; "m3"]%string)]
  ∧ lease_expires_at <$> delivery_msg (w_db (ts_world t3))
    = [Some (10 + seconds 60); Some (10 + seconds 60); Some (seconds 70)].
Proof. vm_compute. split; reflexivity. Qed.
