(* ===== verification/WorkerStates.v ===== *)
(** * Worker states and events — [core/states.py], [core/events.py], [app/worker_truth/mapping.py]

    The seven states a worker is projected into, the 49-cell transition table,
    the order of the degraded reasons; the event vocabulary and what a draft
    must satisfy; and what an event means about a state, in both directions of
    the legacy vocabulary. *)

From stdpp Require Export gmap.
From S2P Require Import Prelude.
#[global] Open Scope Z_scope.

(** ** [core/states.py] *)

Inductive WorkerState := STARTING | IDLE | BUSY | AWAITING_INPUT | CAPPED | DEGRADED | EXITED.

#[export] Instance WorkerState_eq_dec : EqDecision WorkerState.
Proof. solve_decision. Defined.

Definition WorkerState_value (s : WorkerState) : string :=
  match s with
  | STARTING => "starting" | IDLE => "idle" | BUSY => "busy"
  | AWAITING_INPUT => "awaiting_input" | CAPPED => "capped"
  | DEGRADED => "degraded" | EXITED => "exited"
  end.

Inductive DegradedReason :=
| RENDER_UNCERTAIN | PANE_UNREADABLE | NO_SIGNAL | PRODUCER_ERROR | ROLLOUT_MISSING
| CONFLICTING_SOURCES.

#[export] Instance DegradedReason_eq_dec : EqDecision DegradedReason.
Proof. solve_decision. Defined.

Definition DegradedReason_value (r : DegradedReason) : string :=
  match r with
  | RENDER_UNCERTAIN => "render_uncertain" | PANE_UNREADABLE => "pane_unreadable"
  | NO_SIGNAL => "no_signal" | PRODUCER_ERROR => "producer_error"
  | ROLLOUT_MISSING => "rollout_missing" | CONFLICTING_SOURCES => "conflicting_sources"
  end.

Definition DegradedReason_members : list DegradedReason :=
  [RENDER_UNCERTAIN; PANE_UNREADABLE; NO_SIGNAL; PRODUCER_ERROR; ROLLOUT_MISSING;
   CONFLICTING_SOURCES].

(** [Enum(value)]: the member of that value, or a [ValueError]. *)
Definition member_of {A} (value : A → string) (members : list A) (s : string) : option A :=
  head (filter (λ m, value m = s) members).

Definition DegradedReason_of : string → option DegradedReason :=
  member_of DegradedReason_value DegradedReason_members.

Definition DEGRADED_REASON_RANK (r : DegradedReason) : Z :=
  match r with
  | PRODUCER_ERROR => 6 | ROLLOUT_MISSING => 5 | CONFLICTING_SOURCES => 4
  | PANE_UNREADABLE => 3 | RENDER_UNCERTAIN => 2 | NO_SIGNAL => 1
  end.

Inductive TransitionClass := ALLOWED | NO_OP | ANOMALOUS.

#[export] Instance TransitionClass_eq_dec : EqDecision TransitionClass.
Proof. solve_decision. Defined.

Definition TransitionClass_value (c : TransitionClass) : string :=
  match c with ALLOWED => "Allowed" | NO_OP => "NoOp" | ANOMALOUS => "Anomalous" end.

Definition _ORDER : list WorkerState :=
  [STARTING; IDLE; BUSY; AWAITING_INPUT; CAPPED; DEGRADED; EXITED].

Definition WorkerState_of : string → option WorkerState := member_of WorkerState_value _ORDER.

Definition _ROWS : list (WorkerState * list TransitionClass) :=
  let _A := ALLOWED in let _N := NO_OP in let _X := ANOMALOUS in
  [ (STARTING,       [_N; _A; _A; _A; _A; _A; _A]);
    (IDLE,           [_X; _N; _A; _A; _A; _A; _A]);
    (BUSY,           [_X; _A; _N; _A; _A; _A; _A]);
    (AWAITING_INPUT, [_X; _A; _A; _N; _A; _A; _A]);
    (CAPPED,         [_X; _A; _X; _X; _N; _A; _A]);
    (DEGRADED,       [_X; _A; _A; _A; _A; _N; _A]);
    (EXITED,         [_A; _X; _X; _X; _X; _X; _N]) ].

(** The dict comprehension over [_ROWS] and [zip(_ORDER, row)]. *)
Definition TRANSITIONS : list ((WorkerState * WorkerState) * TransitionClass) :=
  '(from_state, row) ← _ROWS; (λ '(to_state, c), ((from_state, to_state), c)) <$> zip _ORDER row.

Definition dict_get {K V} `{EqDecision K} (k : K) (d : list (K * V)) : option V :=
  snd <$> head (filter (λ kv, kv.1 = k) d).

(** [strict] is [strict_mode_enabled()]. *)
Definition validate (strict : bool) (from_state to_state : WorkerState) : outcome TransitionClass :=
  match dict_get (from_state, to_state) TRANSITIONS with
  | None => Raised (RuntimeError "KeyError")
  | Some c =>
    if bool_decide (c = ANOMALOUS) && strict
    then Raised (ValueError "anomalous worker transition") else Returned c
  end.

Definition reason_rises (current : option DegradedReason) (incoming : DegradedReason) : bool :=
  match current with
  | None => true
  | Some r => DEGRADED_REASON_RANK r <? DEGRADED_REASON_RANK incoming
  end.

(** ** [core/events.py]: the vocabulary *)

Definition FLEET_TERMINAL_ID : string := "__fleet__".
Definition PROJECTION_ORIGIN : string := "worker_truth".

Inductive Producer := HOOK | JSONL | PANE | SERVER.
Inductive Confidence := AUTHORITATIVE | DERIVED.

Inductive EventKind :=
| SESSION_STARTED | SESSION_RESUMED | TURN_STARTED | TURN_ENDED | TOOL_CALLED | TOOL_RESULT
| PROMPT_AWAITING | PROMPT_ANSWERED | SUBMISSION_CONFIRMED | USAGE_CAPPED | PROCESS_EXITED
| STATUS_LEGACY_PUBLISHED | STATUS_PANE_CLASSIFIED | PANE_MISSING | PANE_RECOVERED.

Inductive DecisionKind :=
| STATUS_TRANSITION | STATUS_REASON_CHANGED | STATUS_RECOVERED | DELIVERY_ATTEMPT
| TEARDOWN_DECIDED | TEARDOWN_INTENDED | FLEET_OVERRIDE | PROBE_FAILED.

Inductive AnyKind := Event (k : EventKind) | Decision_ (k : DecisionKind).

#[export] Instance Producer_eq_dec : EqDecision Producer.
Proof. solve_decision. Defined.
#[export] Instance Confidence_eq_dec : EqDecision Confidence.
Proof. solve_decision. Defined.
#[export] Instance EventKind_eq_dec : EqDecision EventKind.
Proof. solve_decision. Defined.
#[export] Instance DecisionKind_eq_dec : EqDecision DecisionKind.
Proof. solve_decision. Defined.
#[export] Instance AnyKind_eq_dec : EqDecision AnyKind.
Proof. solve_decision. Defined.

Definition Producer_value (p : Producer) : string :=
  match p with HOOK => "hook" | JSONL => "jsonl" | PANE => "pane" | SERVER => "server" end.

Definition Producer_of : string → option Producer :=
  member_of Producer_value [HOOK; JSONL; PANE; SERVER].

Definition Confidence_value (c : Confidence) : string :=
  match c with AUTHORITATIVE => "authoritative" | DERIVED => "derived" end.

Definition Confidence_of : string → option Confidence :=
  member_of Confidence_value [AUTHORITATIVE; DERIVED].

Definition EventKind_value (k : EventKind) : string :=
  match k with
  | SESSION_STARTED => "session.started" | SESSION_RESUMED => "session.resumed"
  | TURN_STARTED => "turn.started" | TURN_ENDED => "turn.ended"
  | TOOL_CALLED => "tool.called" | TOOL_RESULT => "tool.result"
  | PROMPT_AWAITING => "prompt.awaiting" | PROMPT_ANSWERED => "prompt.answered"
  | SUBMISSION_CONFIRMED => "submission.confirmed" | USAGE_CAPPED => "usage.capped"
  | PROCESS_EXITED => "process.exited" | STATUS_LEGACY_PUBLISHED => "status.legacy_published"
  | STATUS_PANE_CLASSIFIED => "status.pane_classified" | PANE_MISSING => "pane.missing"
  | PANE_RECOVERED => "pane.recovered"
  end.

Definition EventKind_members : list EventKind :=
  [SESSION_STARTED; SESSION_RESUMED; TURN_STARTED; TURN_ENDED; TOOL_CALLED; TOOL_RESULT;
   PROMPT_AWAITING; PROMPT_ANSWERED; SUBMISSION_CONFIRMED; USAGE_CAPPED; PROCESS_EXITED;
   STATUS_LEGACY_PUBLISHED; STATUS_PANE_CLASSIFIED; PANE_MISSING; PANE_RECOVERED].

Definition DecisionKind_value (k : DecisionKind) : string :=
  match k with
  | STATUS_TRANSITION => "status.transition" | STATUS_REASON_CHANGED => "status.reason_changed"
  | STATUS_RECOVERED => "status.recovered" | DELIVERY_ATTEMPT => "delivery.attempt"
  | TEARDOWN_DECIDED => "teardown.decided" | TEARDOWN_INTENDED => "teardown.intended"
  | FLEET_OVERRIDE => "fleet.override" | PROBE_FAILED => "probe.failed"
  end.

Definition DecisionKind_members : list DecisionKind :=
  [STATUS_TRANSITION; STATUS_REASON_CHANGED; STATUS_RECOVERED; DELIVERY_ATTEMPT;
   TEARDOWN_DECIDED; TEARDOWN_INTENDED; FLEET_OVERRIDE; PROBE_FAILED].

Definition DecisionKind_of : string → option DecisionKind :=
  member_of DecisionKind_value DecisionKind_members.

Definition AnyKind_value (k : AnyKind) : string :=
  match k with Event e => EventKind_value e | Decision_ d => DecisionKind_value d end.

Definition parse_kind (value : string) : outcome AnyKind :=
  match member_of EventKind_value EventKind_members value with
  | Some k => Returned (Event k)
  | None =>
    match DecisionKind_of value with
    | Some k => Returned (Decision_ k)
    | None => Raised (ValueError "DecisionKind")
    end
  end.

(** A payload is a dict of JSON values; the code reads strings out of it and
    writes strings and nulls.  [PJson] is any other value, as its JSON text. *)
Inductive pvalue := PStr (s : string) | PNull | PJson (text : string).
Abbreviation payload := (gmap string pvalue).

#[export] Instance pvalue_eq_dec : EqDecision pvalue.
Proof. solve_decision. Defined.

Definition payload_str (key : string) (p : payload) : option string :=
  match p !! key with Some (PStr s) => Some s | _ => None end.

Definition opt_str {A} (value : A → string) (o : option A) : pvalue :=
  match o with Some a => PStr (value a) | None => PNull end.

(** ** [core/events.py]: drafts and stored events *)

Record EventDraft := {
  ed_terminal_id : string;
  ed_kind : AnyKind;
  ed_producer : Producer;
  ed_confidence : Confidence;
  ed_observed_at : Z;
  ed_payload : payload;
  ed_source_ref : option string;
  ed_run_id : option string;
  ed_msg_id : option string;
  ed_decision : option DecisionKind;
  ed_evidence : option string;
  ed_event_key : option string;      (* [idempotency_key] *)
}.

Record WorkerEvent := {
  we_draft : EventDraft;
  we_event_id : string;
  we_seq : Z;
  we_ingested_at : Z;
}.

#[export] Instance EventDraft_eq_dec : EqDecision EventDraft.
Proof. solve_decision. Defined.
#[export] Instance WorkerEvent_eq_dec : EqDecision WorkerEvent.
Proof. solve_decision. Defined.

Definition we_terminal_id (e : WorkerEvent) : string := ed_terminal_id (we_draft e).
Definition we_kind (e : WorkerEvent) : AnyKind := ed_kind (we_draft e).
Definition we_payload (e : WorkerEvent) : payload := ed_payload (we_draft e).
Definition we_decision (e : WorkerEvent) : option DecisionKind := ed_decision (we_draft e).

Definition _check_decision_shape (d : EventDraft) : bool :=
  match ed_kind d with
  | Decision_ k => bool_decide (ed_decision d = Some k)
  | Event _ => bool_decide (ed_decision d = None) && bool_decide (ed_evidence d = None)
  end.

(** [EventDraft(..)]: [terminal_id] is not empty, and the decision shape. *)
Definition draft_ok (d : EventDraft) : bool :=
  bool_decide (ed_terminal_id d ≠ ""%string) && _check_decision_shape d.

Definition make_draft (d : EventDraft) : outcome EventDraft :=
  if draft_ok d then Returned d else Raised (ValueError "EventDraft").

(** [WorkerEvent(..)]: the draft's checks again, an id, and a sequence from 1. *)
Definition make_event (d : EventDraft) (event_id : string) (seq ingested_at : Z)
    : outcome WorkerEvent :=
  if draft_ok d && bool_decide (event_id ≠ ""%string) && (1 <=? seq)
  then Returned {| we_draft := d; we_event_id := event_id; we_seq := seq;
                   we_ingested_at := ingested_at |}
  else Raised (ValueError "WorkerEvent").

(** ** [app/worker_truth/mapping.py] *)

Definition _IMPLIED (k : EventKind) : option WorkerState :=
  match k with
  | SESSION_STARTED => Some STARTING
  | SESSION_RESUMED => Some IDLE
  | TURN_STARTED => Some BUSY
  | TURN_ENDED => Some IDLE
  | TOOL_CALLED => Some BUSY
  | TOOL_RESULT => Some BUSY
  | PROMPT_AWAITING => Some AWAITING_INPUT
  | PROMPT_ANSWERED => Some BUSY
  | SUBMISSION_CONFIRMED => Some BUSY
  | USAGE_CAPPED => Some CAPPED
  | PROCESS_EXITED => Some EXITED
  | PANE_MISSING => Some DEGRADED
  | STATUS_LEGACY_PUBLISHED | STATUS_PANE_CLASSIFIED | PANE_RECOVERED => None
  end.

Definition LEGACY_STATUS_MAP : list (string * WorkerState) :=
  [ ("unknown", DEGRADED); ("idle", IDLE); ("processing", BUSY); ("completed", IDLE);
    ("waiting_user_answer", AWAITING_INPUT); ("render_uncertain", DEGRADED);
    ("error", EXITED) ]%string.

Definition FORWARD_STATUS_MAP (s : WorkerState) : string :=
  match s with
  | STARTING => "processing" | IDLE => "idle" | BUSY => "processing"
  | AWAITING_INPUT => "waiting_user_answer" | CAPPED => "processing"
  | DEGRADED => "render_uncertain" | EXITED => "error"
  end.

Definition LOSSY_FORWARD_STATES : list WorkerState := [STARTING; CAPPED].

Definition legacy_status (s : WorkerState) (causing_kind : option AnyKind)
    (degraded_reason : option DegradedReason) : string :=
  if bool_decide (s = IDLE) && bool_decide (causing_kind = Some (Event TURN_ENDED))
  then "completed"
  else if bool_decide (s = DEGRADED) && bool_decide (degraded_reason = Some NO_SIGNAL)
  then "unknown"
  else FORWARD_STATUS_MAP s.

Definition legacy_state (latched_status : string) : option WorkerState :=
  dict_get latched_status LEGACY_STATUS_MAP.

Definition ANSWERED_STATES : list WorkerState := [IDLE; BUSY].

Definition answered_state (p : payload) : option WorkerState :=
  match payload_str "latched_status" p with
  | None => None
  | Some raw =>
    match legacy_state raw with
    | Some s => if bool_decide (s ∈ ANSWERED_STATES) then Some s else None
    | None => None
    end
  end.

Definition implied_state (k : AnyKind) : option WorkerState :=
  match k with Event e => _IMPLIED e | Decision_ _ => None end.

Definition PANE_MISSING_REASON : DegradedReason := PANE_UNREADABLE.

(** ** The vocabularies read back *)

Lemma member_of_value {A} (value : A → string) members s a :
  member_of value members s = Some a → value a = s.
Proof. unfold member_of. intros H%head_Some_elem_of. by apply list_elem_of_filter in H as [? _]. Qed.

Lemma WorkerState_of_value s : WorkerState_of (WorkerState_value s) = Some s.
Proof. by destruct s. Qed.

Lemma DegradedReason_of_value r : DegradedReason_of (DegradedReason_value r) = Some r.
Proof. by destruct r. Qed.

Lemma DecisionKind_of_value k : DecisionKind_of (DecisionKind_value k) = Some k.
Proof. by destruct k. Qed.

Lemma Producer_of_value p : Producer_of (Producer_value p) = Some p.
Proof. by destruct p. Qed.

Lemma Confidence_of_value c : Confidence_of (Confidence_value c) = Some c.
Proof. by destruct c. Qed.

Lemma parse_kind_value k : parse_kind (AnyKind_value k) = Returned k.
Proof. by destruct k as [[]|[]]. Qed.

(** The table is total, and only a strict build refuses a cell. *)
Lemma validate_lax from_state to_state :
  ∃ c, validate false from_state to_state = Returned c ∧
       (c = NO_OP ↔ from_state = to_state).
Proof. by destruct from_state, to_state; eexists. Qed.

Lemma no_signal_never_rises r : reason_rises (Some r) NO_SIGNAL = false.
Proof. by destruct r. Qed.

(** The status the projection publishes reads back as the state it came
    from: for every causing event and every degraded reason, [legacy_state] of
    [legacy_status] is the state again, except for exactly the two states with
    no legacy member, [starting] and [capped], which read back as [busy]. *)
Theorem legacy_round_trip s causing_kind degraded_reason :
  legacy_state (legacy_status s causing_kind degraded_reason)
  = Some (if decide (s ∈ LOSSY_FORWARD_STATES) then BUSY else s).
Proof.
  unfold legacy_status.
  destruct s; simpl; try done; repeat case_bool_decide; done.
Qed.
