(* ===== verification/EventLog.v ===== *)
(** * The worker event log — [adapters/store/event_log.py]

    Two tables: the append-only [worker_event] and the high-water marks
    [worker_event_seq].  The clock reading and the minted id are arguments; the
    checks that run after the commit are composed in [Truth.append].  The
    payload column is held as the dict it encodes. *)

From S2P Require Import Prelude Ports WorkerStates.

Record EventRow := {
  er_event_id : string;
  er_terminal_id : string;
  er_seq : Z;
  er_kind : string;
  er_producer : string;
  er_confidence : string;
  er_observed_at : Z;
  er_ingested_at : Z;
  er_payload : payload;
  er_source_ref : option string;
  er_run_id : option string;
  er_msg_id : option string;
  er_decision : option string;
  er_evidence : option string;
  er_idempotency_key : option string;
}.

#[export] Instance EventRow_eq_dec : EqDecision EventRow.
Proof. solve_decision. Defined.

Record log := {
  lg_events : list EventRow;
  lg_seqs : gmap string Z;
}.

Module SqliteEventStore.

Definition set_events (t : list EventRow) (l : log) : log :=
  {| lg_events := t; lg_seqs := lg_seqs l |}.
Definition set_seq (terminal_id : string) (seq : Z) (l : log) : log :=
  {| lg_events := lg_events l; lg_seqs := <[terminal_id := seq]> (lg_seqs l) |}.

(** The values bound by the INSERT. *)
Definition event_row (d : EventDraft) (event_id : string) (seq ingested_at : Z) : EventRow := {|
  er_event_id := event_id;
  er_terminal_id := ed_terminal_id d;
  er_seq := seq;
  er_kind := AnyKind_value (ed_kind d);
  er_producer := Producer_value (ed_producer d);
  er_confidence := Confidence_value (ed_confidence d);
  er_observed_at := ed_observed_at d;
  er_ingested_at := ingested_at;
  er_payload := ed_payload d;
  er_source_ref := ed_source_ref d;
  er_run_id := ed_run_id d;
  er_msg_id := ed_msg_id d;
  er_decision := DecisionKind_value <$> ed_decision d;
  er_evidence := ed_evidence d;
  er_idempotency_key := ed_event_key d;
|}.

Definition some_or {A} (what : string) (o : option A) : outcome A :=
  match o with Some a => Returned a | None => Raised (ValueError what) end.

Definition _row_to_event (row : EventRow) : outcome WorkerEvent :=
  match parse_kind (er_kind row), Producer_of (er_producer row),
        Confidence_of (er_confidence row), DecisionKind_of <$> er_decision row with
  | Raised e, _, _, _ => Raised e
  | _, None, _, _ => Raised (ValueError "Producer")
  | _, _, None, _ => Raised (ValueError "Confidence")
  | _, _, _, Some None => Raised (ValueError "DecisionKind")
  | Returned kind, Some producer, Some confidence, decision =>
    make_event
      {| ed_terminal_id := er_terminal_id row; ed_kind := kind; ed_producer := producer;
         ed_confidence := confidence; ed_observed_at := er_observed_at row;
         ed_payload := er_payload row; ed_source_ref := er_source_ref row;
         ed_run_id := er_run_id row; ed_msg_id := er_msg_id row;
         ed_decision := mjoin decision; ed_evidence := er_evidence row;
         ed_event_key := er_idempotency_key row |}
      (er_event_id row) (er_seq row) (er_ingested_at row)
  end.

Definition has_key (key : string) (row : EventRow) : bool :=
  bool_decide (er_idempotency_key row = Some key).

(** The constraints of [worker_event]: PRIMARY KEY, UNIQUE(terminal_id, seq),
    and the partial unique index on the idempotency key. *)
Definition clashes (row x : EventRow) : bool :=
  bool_decide (er_event_id x = er_event_id row)
  || bool_decide ((er_terminal_id x, er_seq x) = (er_terminal_id row, er_seq row))
  || match er_idempotency_key row with Some k => has_key k x | None => false end.

Definition insert_event (row : EventRow) : M log () := λ l,
  if existsb (clashes row) (lg_events l)
  then (l, Raised (IntegrityError "worker_event"))
  else (set_events (lg_events l ++ [row]) l, Returned ()).

Definition high_water (terminal_id : string) : M log Z :=
  gets (λ l, default 0 (lg_seqs l !! terminal_id)).

(** The transaction of [append], and the event built after it.  The result says
    whether a row was written: a replayed key returns before the checks run.
    [_after_seq_bump] is the seam between the two statements; [Some e] raises
    there. *)
Definition append_in (_after_seq_bump : option exn) (ingested_at : Z) (event_id : string)
    (draft : EventDraft) : M log (WorkerEvent * bool) :=
  r ← transaction (
    existing ← match ed_event_key draft with
               | None => mret None
               | Some k => gets (λ l, head (select_where (has_key k) (lg_events l)))
               end;
    match existing with
    | Some row => e ← lift_outcome (_row_to_event row); mret (inl e)
    | None =>
      hw ← high_water (ed_terminal_id draft);
      let seq := hw + 1 in
      modify (set_seq (ed_terminal_id draft) seq) ;;
      match _after_seq_bump with Some e => raise e | None => mret () end ;;
      insert_event (event_row draft event_id seq ingested_at) ;;
      mret (inr seq)
    end);
  match r with
  | inl e => mret (e, false)
  | inr seq => e ← lift_outcome (make_event draft event_id seq ingested_at); mret (e, true)
  end.

(** [kinds] is the filter's set; [order] is by sequence within a terminal, by
    ingestion time and id across the fleet. *)
Definition in_scope (terminal_id : option string) (since_seq : Z) (since : option Z)
    (kinds : option (list AnyKind)) (r : EventRow) : bool :=
  match terminal_id with Some t => bool_decide (er_terminal_id r = t) | None => true end
  && (if since_seq =? 0 then true else since_seq <? er_seq r)
  && match since with Some s => s <=? er_ingested_at r | None => true end
  && match kinds with
     | Some ks => bool_decide (er_kind r ∈ AnyKind_value <$> ks)
     | None => true
     end.

Definition read (terminal_id : option string) (since_seq : Z) (since : option Z)
    (kinds : option (list AnyKind)) (limit : option Z) : M log (list WorkerEvent) :=
  rows ← gets (λ l,
    let found := select_where (in_scope terminal_id since_seq since kinds) (lg_events l) in
    let sorted := match terminal_id with
                  | Some _ => order_by er_seq (λ _, ""%string) found
                  | None => order_by er_ingested_at er_event_id found
                  end in
    match limit with Some n => sql_limit n sorted | None => sorted end);
  for_each rows [] (λ acc row, e ← lift_outcome (_row_to_event row); mret (acc ++ [e])).

Definition get (event_id : string) : M log (option WorkerEvent) :=
  row ← gets (λ l, head (filter (λ r, er_event_id r = event_id) (lg_events l)));
  match row with
  | None => mret None
  | Some row => e ← lift_outcome (_row_to_event row); mret (Some e)
  end.

(** The sub-select of [prune] over the finding table. *)
Definition open_evidence (findings : list (FindingRow string)) : list string :=
  omap (λ f, if decide (fi_state f = OPEN) then fi_sample_event_id f else None) findings.

Definition prunable (older_than : Z) (findings : list (FindingRow string)) (r : EventRow) : bool :=
  (er_ingested_at r <? older_than) && bool_decide (er_event_id r ∉ open_evidence findings).

Definition prune (older_than : Z) (findings : list (FindingRow string)) : M log Z :=
  let p := prunable older_than findings in
  transaction (
    n ← gets (λ l, rowcount p (lg_events l));
    modify (λ l, set_events (delete_where p (lg_events l)) l) ;;
    mret (Z.of_nat n)).

End SqliteEventStore.

(** ** What the log keeps *)

Import SqliteEventStore.

(** The high-water mark of a terminal, and the sequences its rows carry. *)
Definition hw (l : log) (t : string) : Z := default 0%Z (lg_seqs l !! t).
Definition seqs_of (t : string) (rows : list EventRow) : list Z :=
  er_seq <$> filter (λ r, er_terminal_id r = t) rows.

(** [l'] is [l] with rows appended whose sequences continue, terminal by
    terminal, from the old mark to the new one. *)
Definition appends (l l' : log) : Prop :=
  ∃ new, lg_events l' = lg_events l ++ new ∧
    ∀ t, hw l t <= hw l' t ∧ seqs_of t new = seqZ (hw l t + 1) (hw l' t - hw l t).

Record log_ok (l : log) : Prop := {
  lo_ids : NoDup (er_event_id <$> lg_events l);
  lo_range : ∀ r, r ∈ lg_events l → 1 <= er_seq r <= hw l (er_terminal_id r);
  lo_sorted : ∀ t, StronglySorted Z.lt (seqs_of t (lg_events l));
  lo_keys : ∀ r r' k, r ∈ lg_events l → r' ∈ lg_events l →
    er_idempotency_key r = Some k → er_idempotency_key r' = Some k → r = r';
  lo_marks : ∀ t, 0 <= hw l t;
}.

(** Every sequence of [l'] was in [l] already or is above [l]'s mark. *)
Definition reuses_none (l l' : log) : Prop :=
  (∀ t, hw l t <= hw l' t) ∧
  ∀ r, r ∈ lg_events l' → r ∈ lg_events l ∨ hw l (er_terminal_id r) < er_seq r.

Lemma seqs_of_app t a b : seqs_of t (a ++ b) = seqs_of t a ++ seqs_of t b.
Proof. unfold seqs_of. by rewrite filter_app, fmap_app. Qed.

#[export] Instance appends_preorder : PreOrder appends.
Proof.
  split.
  - intros l. exists []. split; [by rewrite app_nil_r|]. intros t. split; [done|].
    by rewrite Z.sub_diag.
  - intros a b c (n1 & E1 & H1) (n2 & E2 & H2). exists (n1 ++ n2). split.
    { by rewrite E2, E1, app_assoc. }
    intros t. specialize (H1 t) as [Hle1 S1]. specialize (H2 t) as [Hle2 S2].
    split; [lia|]. rewrite seqs_of_app, S1, S2.
    replace (hw c t - hw a t) with ((hw b t - hw a t) + (hw c t - hw b t)) by lia.
    rewrite seqZ_app by lia. do 2 f_equal. lia.
Qed.

#[export] Instance reuses_none_preorder : PreOrder reuses_none.
Proof.
  split.
  - intros l. split; [done|]. by left.
  - intros a b c [M1 H1] [M2 H2]. split; [intros t; specialize (M1 t); specialize (M2 t); lia|].
    intros r [Hr|Hr]%H2.
    + apply H1 in Hr as [?|?]; [by left|by right].
    + right. specialize (M1 (er_terminal_id r)). lia.
Qed.

Lemma appends_reuses_none l l' : appends l l' → reuses_none l l'.
Proof.
  intros (new & E & H). split; [intros t; apply H|].
  intros r. rewrite E, elem_of_app. intros [?|Hr]; [by left|right].
  destruct (H (er_terminal_id r)) as [_ Hs].
  assert (er_seq r ∈ seqs_of (er_terminal_id r) new) as Hin.
  { apply list_elem_of_fmap_2. by apply list_elem_of_filter. }
  rewrite Hs in Hin. apply elem_of_seqZ in Hin. lia.
Qed.

Lemma row_to_event_row d event_id seq at_ :
  _row_to_event (event_row d event_id seq at_) = make_event d event_id seq at_.
Proof.
  unfold _row_to_event, event_row. simpl.
  rewrite parse_kind_value, Producer_of_value, Confidence_of_value. destruct d as [? ? ? ? ? ? ? ? ? dec ? ?].
  destruct dec as [k|]; simpl; [by rewrite DecisionKind_of_value|done].
Qed.

(** The row a replayed key finds. *)
Definition replayed (d : EventDraft) (l : log) : option EventRow :=
  match ed_event_key d with
  | None => None
  | Some k => head (select_where (has_key k) (lg_events l))
  end.

Definition appended (d : EventDraft) (event_id : string) (at_ : Z) (l : log) : log :=
  let seq := hw l (ed_terminal_id d) + 1 in
  {| lg_events := lg_events l ++ [event_row d event_id seq at_];
     lg_seqs := <[ed_terminal_id d := seq]> (lg_seqs l) |}.

Lemma append_in_eq crash at_ event_id d l :
  append_in crash at_ event_id d l =
  match replayed d l with
  | Some row =>
    (l, match _row_to_event row with Returned e => Returned (e, false) | Raised x => Raised x end)
  | None =>
    match crash with
    | Some x => (l, Raised x)
    | None =>
      let seq := hw l (ed_terminal_id d) + 1 in
      if existsb (clashes (event_row d event_id seq at_)) (lg_events l)
      then (l, Raised (IntegrityError "worker_event"))
      else (appended d event_id at_ l,
            match make_event d event_id seq at_ with
            | Returned e => Returned (e, true)
            | Raised x => Raised x
            end)
    end
  end.
Proof.
  unfold append_in, replayed, appended, transaction, high_water, hw, gets, modify, raise, insert_event,
    mbind, M_bind, mret, M_ret, lift_outcome.
  destruct (ed_event_key d) as [k|]; simpl.
  - destruct (head _) as [row|]; simpl.
    + by destruct (_row_to_event row).
    + destruct crash; simpl; [done|].
      destruct (existsb _ _); simpl; [done|]. by destruct (make_event _ _ _ _).
  - destruct crash; simpl; [done|].
    destruct (existsb _ _); simpl; [done|]. by destruct (make_event _ _ _ _).
Qed.

Lemma hw_appended d event_id at_ l t :
  hw (appended d event_id at_ l) t
  = if decide (t = ed_terminal_id d) then hw l t + 1 else hw l t.
Proof.
  unfold hw, appended. simpl. destruct (decide (t = ed_terminal_id d)) as [->|Hne].
  - by rewrite lookup_insert_eq.
  - by rewrite lookup_insert_ne.
Qed.

Lemma appended_appends d event_id at_ l : appends l (appended d event_id at_ l).
Proof.
  exists [event_row d event_id (hw l (ed_terminal_id d) + 1) at_]. split; [done|].
  intros t. rewrite hw_appended. unfold seqs_of. simpl.
  destruct (decide (t = ed_terminal_id d)) as [->|Hne].
  - split; [lia|]. rewrite filter_cons_True by done.
    replace (_ + 1 - _) with 1 by lia. by rewrite seqZ_cons by lia.
  - split; [done|]. rewrite filter_cons_False by done.
    by rewrite Z.sub_diag.
Qed.

Lemma append_in_appends crash at_ event_id d : keeps appends (append_in crash at_ event_id d).
Proof.
  intros l. rewrite append_in_eq.
  destruct (replayed d l); [reflexivity|]. destruct crash; [reflexivity|]. simpl.
  destruct (existsb _ _); simpl; [reflexivity|apply appended_appends].
Qed.

Lemma replayed_Some d l row :
  replayed d l = Some row → row ∈ lg_events l ∧ ∃ k, ed_event_key d = Some k ∧ er_idempotency_key row = Some k.
Proof.
  unfold replayed. destruct (ed_event_key d) as [k|]; [|done].
  intros H%head_Some_elem_of. apply elem_of_select in H as [H%bool_decide_eq_true ?]. eauto.
Qed.

Lemma replayed_None d l k r :
  replayed d l = None → ed_event_key d = Some k → r ∈ lg_events l → er_idempotency_key r ≠ Some k.
Proof.
  unfold replayed. intros H E Hr Hk. rewrite E in H. apply head_None in H.
  assert (r ∈ select_where (has_key k) (lg_events l)) as Hin.
  { apply elem_of_select. split; [by apply bool_decide_eq_true|done]. }
  rewrite H in Hin. by apply not_elem_of_nil in Hin.
Qed.

(** In a well-formed log only the minted id can clash: the sequence and the key
    are free by construction. *)
Lemma no_clash d event_id at_ l :
  log_ok l → replayed d l = None →
  existsb (clashes (event_row d event_id (hw l (ed_terminal_id d) + 1) at_)) (lg_events l)
  = bool_decide (event_id ∈ er_event_id <$> lg_events l).
Proof.
  intros Hok Hrep. apply eq_bool_prop_intro. rewrite !Is_true_true, bool_decide_eq_true, existsb_exists.
  split.
  - intros (x & Hx%list_elem_of_In & Hc). unfold clashes in Hc. simpl in Hc.
    apply orb_true_iff in Hc as [[Hc|Hc]%orb_true_iff|Hc].
    + apply bool_decide_eq_true in Hc as <-. by apply list_elem_of_fmap_2.
    + apply bool_decide_eq_true in Hc as [= Ht Hs].
      apply (lo_range l Hok) in Hx. rewrite Ht in Hx. lia.
    + destruct (ed_event_key d) as [k|] eqn:Ek; [|done].
      apply bool_decide_eq_true in Hc. by eapply replayed_None in Hc.
  - intros (x & -> & Hx)%list_elem_of_fmap. exists x. split; [by apply list_elem_of_In|].
    unfold clashes. simpl. by rewrite bool_decide_eq_true_2.
Qed.

Lemma sublist_filter_mono {A} (P : A → Prop) `{∀ x, Decision (P x)} l l' :
  l' `sublist_of` l → filter P l' `sublist_of` filter P l.
Proof.
  induction 1 as [|x l1 l2 Hl IH|x l1 l2 Hl IH]; [done| |].
  - rewrite !filter_cons. destruct (decide (P x)); [by constructor|done].
  - rewrite (filter_cons P x). destruct (decide (P x)); [by constructor|done].
Qed.

Lemma log_ok_appended d event_id at_ l :
  log_ok l → replayed d l = None → event_id ∉ er_event_id <$> lg_events l →
  log_ok (appended d event_id at_ l).
Proof.
  intros Hok Hrep Hid. split; simpl.
  - rewrite fmap_app. apply NoDup_app. split_and!; [apply (lo_ids l Hok)| |apply NoDup_singleton].
    intros x Hx Hx'%list_elem_of_singleton. simpl in Hx'. by subst.
  - intros r [Hr|Hr]%elem_of_app; [|apply list_elem_of_singleton in Hr as ->]; rewrite hw_appended; simpl.
    + apply (lo_range l Hok) in Hr. destruct (decide _) as [E|]; [|lia].
      rewrite E in *. lia.
    + rewrite decide_True by done. pose proof (lo_marks l Hok (ed_terminal_id d)). lia.
  - intros t. rewrite seqs_of_app. destruct (decide (ed_terminal_id d = t)) as [E|Hne].
    + unfold seqs_of at 2. rewrite filter_cons_True by done. simpl.
      apply StronglySorted_snoc; [apply (lo_sorted l Hok)|].
      intros y (r & -> & [Hr Hin]%list_elem_of_filter)%list_elem_of_fmap.
      apply (lo_range l Hok) in Hin. rewrite Hr, <- E in Hin. lia.
    + unfold seqs_of at 2. rewrite filter_cons_False by done. simpl. rewrite app_nil_r.
      apply (lo_sorted l Hok).
  - intros r r' k [Hr|Hr]%elem_of_app [Hr'|Hr']%elem_of_app K K';
      try (apply list_elem_of_singleton in Hr as ->); try (apply list_elem_of_singleton in Hr' as ->);
      simpl in *; [by eapply (lo_keys l Hok)| | |done].
    + exfalso. by eapply replayed_None in Hr.
    + exfalso. by eapply replayed_None in Hr'.
  - intros t. rewrite hw_appended. pose proof (lo_marks l Hok t). destruct (decide _); lia.
Qed.

Lemma append_in_ok crash at_ event_id d l :
  log_ok l → log_ok (append_in crash at_ event_id d l).1.
Proof.
  intros Hok. rewrite append_in_eq. destruct (replayed d l) eqn:E; [done|].
  destruct crash; [done|]. simpl. rewrite no_clash by done.
  case_bool_decide; [done|]. by apply log_ok_appended.
Qed.

Lemma prune_eq older_than findings l :
  prune older_than findings l
  = (set_events (delete_where (prunable older_than findings) (lg_events l)) l,
     Returned (Z.of_nat (rowcount (prunable older_than findings) (lg_events l)))).
Proof. done. Qed.

Lemma rowcount_split {R} (p : R → bool) t :
  length t = (rowcount p t + length (delete_where p t))%nat.
Proof.
  unfold rowcount, select_where, delete_where. induction t as [|r t IH]; [done|].
  rewrite !filter_cons. destruct (p r); simpl; lia.
Qed.

Lemma log_ok_pruned rows l :
  log_ok l → rows `sublist_of` lg_events l → log_ok (set_events rows l).
Proof.
  intros Hok Hs.
  assert (∀ r, r ∈ rows → r ∈ lg_events l) as Hin by (by apply sublist_subseteq).
  split; simpl; unfold hw; simpl.
  - eapply NoDup_key_sublist; [apply (lo_ids l Hok)|done].
  - intros r Hr. by apply (lo_range l Hok), Hin.
  - intros t. eapply StronglySorted_sublist; [|apply (lo_sorted l Hok t)].
    by apply fmap_sublist, sublist_filter_mono.
  - intros r r' k Hr Hr'. apply (lo_keys l Hok); auto.
  - apply (lo_marks l Hok).
Qed.

Lemma prune_reuses_none older_than findings : keeps reuses_none (prune older_than findings).
Proof.
  intros l. rewrite prune_eq. split; [done|]. simpl.
  intros r [_ ?]%elem_of_delete. by left.
Qed.

(** ** Reading a log every row of which this build can read *)

Definition readable (l : log) : Prop :=
  ∀ r, r ∈ lg_events l → ∃ e, _row_to_event r = Returned e.

(** [e] is the event of a row of the log. *)
Definition stored (e : WorkerEvent) (l : log) : Prop :=
  ∃ r, r ∈ lg_events l ∧ _row_to_event r = Returned e.

Lemma row_to_event_inv r e :
  _row_to_event r = Returned e →
  r = event_row (we_draft e) (we_event_id e) (we_seq e) (we_ingested_at e)
  ∧ draft_ok (we_draft e) = true ∧ we_event_id e ≠ ""%string ∧ 1 <= we_seq e.
Proof.
  unfold _row_to_event, make_event. intros H.
  destruct (parse_kind (er_kind r)) as [k|] eqn:Ek; [|done].
  destruct (Producer_of (er_producer r)) as [p|] eqn:Ep; [|done].
  destruct (Confidence_of (er_confidence r)) as [c|] eqn:Ec; [|done].
  assert (AnyKind_value k = er_kind r) as Hk.
  { unfold parse_kind in Ek. destruct (member_of EventKind_value _ _) as [x|] eqn:E1.
    - injection Ek as <-. by apply member_of_value in E1.
    - destruct (DecisionKind_of _) as [x|] eqn:E2; [|done]. injection Ek as <-.
      by apply member_of_value in E2. }
  apply member_of_value in Ep, Ec.
  destruct r as [i t s k' p' c' o g pl sr ru ms de ev ky]; simpl in *; subst.
  destruct de as [de|]; simpl in H.
  - destruct (DecisionKind_of de) as [d|] eqn:Ed; [|done]. apply member_of_value in Ed. subst.
    simpl in H. destruct (draft_ok _ && _ && _) eqn:G; [|done].
    apply andb_true_iff in G as [[? ?%bool_decide_eq_true]%andb_true_iff ?%Z.leb_le]. by simplify_eq.
  - destruct (draft_ok _ && _ && _) eqn:G; [|done].
    apply andb_true_iff in G as [[? ?%bool_decide_eq_true]%andb_true_iff ?%Z.leb_le]. by simplify_eq.
Qed.

Lemma for_each_collect {S A B} (f : A → outcome B) (xs : list A) acc (s : S) :
  (∀ x, x ∈ xs → ∃ b, f x = Returned b) →
  ∃ ys, for_each xs acc (λ acc x, b ← lift_outcome (f x); mret (acc ++ [b])) s
        = (s, Returned (acc ++ ys))
      ∧ Forall2 (λ x y, f x = Returned y) xs ys.
Proof.
  revert acc. induction xs as [|x xs IH]; intros acc H; simpl.
  { exists []. by rewrite app_nil_r. }
  destruct (H x) as [b Hb]; [left|].
  destruct (IH (acc ++ [b])) as (ys & E & Hys); [intros y Hy; apply H; by right|].
  exists (b :: ys). split; [|by constructor].
  erewrite bind_returned.
  - rewrite E. by rewrite <- app_assoc.
  - unfold lift_outcome, mbind, M_bind. by rewrite Hb.
Qed.

(** The rows of one terminal, read whole: its stored events in order. *)
Lemma read_terminal t since_seq l :
  readable l →
  ∃ es, read (Some t) since_seq None None None l = (l, Returned es)
      ∧ (∀ e, e ∈ es ↔ stored e l ∧ we_terminal_id e = t ∧ (since_seq = 0 ∨ since_seq < we_seq e))
      ∧ Sorted Z.le (we_seq <$> es).
Proof.
  intros Hr. set (p := in_scope (Some t) since_seq None None).
  set (rows := order_by er_seq (λ _, ""%string) (select_where p (lg_events l))).
  assert (∀ r, r ∈ rows ↔ p r = true ∧ r ∈ lg_events l) as Hin
    by (intros r; unfold rows; by rewrite elem_of_order_by, elem_of_select).
  destruct (for_each_collect (S := log) _row_to_event rows [] l) as (es & E & H2).
  { intros r [_ H]%Hin. by apply Hr. }
  exists es. split_and!; [exact E| |].
  - intros e. split.
    + intros (i & Hi)%list_elem_of_lookup.
      destruct (Forall2_lookup_r _ _ _ _ _ H2 Hi) as (r & Hri & Hre).
      apply list_elem_of_lookup_2, Hin in Hri as [Hp Hl].
      pose proof (row_to_event_inv r e Hre) as (-> & _).
      unfold p, in_scope in Hp. simpl in Hp.
      rewrite !andb_true_r in Hp. apply andb_true_iff in Hp as [Ht%bool_decide_eq_true Hs].
      split_and!; [by eexists|done|]. destruct (since_seq =? 0) eqn:Ez; [left; lia|right; lia].
    + intros ((r & Hl & Hre) & Ht & Hs).
      assert (r ∈ rows) as (i & Hi)%list_elem_of_lookup.
      { apply Hin. split; [|done]. pose proof (row_to_event_inv r e Hre) as (-> & _).
        unfold p, in_scope. simpl. rewrite !andb_true_r. apply andb_true_iff.
        split; [by apply bool_decide_eq_true|]. destruct (since_seq =? 0) eqn:Ez; [done|].
        apply Z.ltb_lt. lia. }
      destruct (Forall2_lookup_l _ _ _ _ _ H2 Hi) as (e' & He' & Hre').
      rewrite Hre in Hre'. injection Hre' as <-. by eapply list_elem_of_lookup_2.
  - assert (we_seq <$> es = er_seq <$> rows) as ->.
    { symmetry. clear E Hin. induction H2 as [|r e rs es' Hre _ IH]; [done|].
      rewrite !fmap_cons. f_equal; [|exact IH]. by pose proof (row_to_event_inv r e Hre) as (-> & _). }
    pose proof (order_by_sorted er_seq (λ _, ""%string) (select_where p (lg_events l))) as Hs.
    fold rows in Hs. clear -Hs. induction Hs as [|r rs Hs IH Hd]; simpl; [constructor|].
    constructor; [done|]. destruct Hd as [|r' rs' Hd]; simpl; constructor.
    destruct Hd as [?|[? _]]; lia.
Qed.

Lemma Sorted_last_max (l : list Z) x y :
  Sorted Z.le l → last l = Some x → y ∈ l → y <= x.
Proof.
  intros Hs%Sorted_StronglySorted; [|intros ???; lia].
  induction Hs as [|z l Hs IH Hz]; [done|]. intros Hl Hy.
  destruct l as [|z' l]; [simpl in Hl; apply list_elem_of_singleton in Hy; simplify_eq; lia|].
  apply elem_of_cons in Hy as [->|Hy]; [|by apply IH].
  rewrite Forall_forall in Hz. apply Hz. apply last_Some_elem_of. exact Hl.
Qed.

(** A log with two terminals, one of whose rows carries a key. *)
Module LogSample.
Definition observed (t : string) (k : EventKind) (key : option string) : EventDraft := {|
  ed_terminal_id := t; ed_kind := Event k; ed_producer := HOOK; ed_confidence := AUTHORITATIVE;
  ed_observed_at := 5; ed_payload := ∅; ed_source_ref := None; ed_run_id := None;
  ed_msg_id := None; ed_decision := None; ed_evidence := None; ed_event_key := key |}.

Definition empty : log := {| lg_events := []; lg_seqs := ∅ |}.
Definition two : log :=
  appended (observed "b" TURN_STARTED None) "e2" 20
    (appended (observed "a" PROMPT_AWAITING (Some "k1"%string)) "e1" 10 empty).
End LogSample.

Lemma empty_log_ok : log_ok LogSample.empty.
Proof.
  split; simpl.
  - constructor.
  - intros r []%not_elem_of_nil.
  - intros t. constructor.
  - intros r r' k []%not_elem_of_nil.
  - intros t. unfold hw, LogSample.empty. simpl. rewrite lookup_empty. done.
Qed.

Lemma two_log_ok : log_ok LogSample.two.
Proof.
  apply log_ok_appended; [apply log_ok_appended; [apply empty_log_ok| |]| |];
    first [by_eval|done].
Qed.

(** What one append does.  Under a key the log already holds it returns the
    stored event, leaves both tables as they were and issues no sequence; a
    failure between the high-water bump and the insert, or a clash of the minted
    id, rolls both statements back; otherwise exactly one row is appended and
    its sequence is the successor of the terminal's mark, so that no
    constraint of the table but the id's can ever fire. *)
Theorem append_exact crash at_ event_id d l :
  log_ok l → draft_ok d = true → event_id ≠ ""%string →
  match replayed d l with
  | Some row =>
    append_in crash at_ event_id d l
    = (l, match _row_to_event row with Returned e => Returned (e, false) | Raised x => Raised x end)
    ∧ row ∈ lg_events l ∧ er_idempotency_key row = ed_event_key d
  | None =>
    match crash with
    | Some x => append_in crash at_ event_id d l = (l, Raised x)
    | None =>
      let seq := hw l (ed_terminal_id d) + 1 in
      if decide (event_id ∈ er_event_id <$> lg_events l)
      then append_in crash at_ event_id d l = (l, Raised (IntegrityError "worker_event"))
      else append_in crash at_ event_id d l
           = (appended d event_id at_ l,
              Returned ({| we_draft := d; we_event_id := event_id; we_seq := seq;
                           we_ingested_at := at_ |}, true))
           ∧ log_ok (appended d event_id at_ l)
    end
  end.
Proof.
  intros Hok Hd Hid. rewrite append_in_eq. destruct (replayed d l) as [row|] eqn:E.
  { apply replayed_Some in E as (? & k & -> & ->). done. }
  destruct crash as [x|]; [done|]. simpl. rewrite no_clash by done.
  destruct (decide _) as [Hin|Hin]; [by rewrite bool_decide_eq_true_2|].
  rewrite bool_decide_eq_false_2 by done. split; [|by apply log_ok_appended].
  unfold make_event. pose proof (lo_marks l Hok (ed_terminal_id d)).
  rewrite Hd, bool_decide_eq_true_2 by done. simpl.
  by rewrite (proj2 (Z.leb_le _ _)) by lia.
Qed.

Lemma append_exact_witness :
  let d := LogSample.observed "a" TURN_ENDED None in
  append_in None 30 "e3" d LogSample.two
  = (appended d "e3" 30 LogSample.two,
     Returned ({| we_draft := d; we_event_id := "e3"; we_seq := 2; we_ingested_at := 30 |}, true))
  ∧ log_ok (appended d "e3" 30 LogSample.two).
Proof.
  pose proof (append_exact None 30 "e3" (LogSample.observed "a" TURN_ENDED None) LogSample.two
    two_log_ok eq_refl ltac:(done)) as H.
  vm_compute (replayed _ _) in H. cbv iota zeta in H.
  rewrite decide_False in H by by_eval. exact H.
Defined.

(** Retention removes exactly the events ingested before the horizon that
    no open finding names, reports how many, and leaves every high-water mark:
    the sequences issued afterwards continue above everything ever issued. *)
Theorem log_prune_exact older_than findings l :
  log_ok l →
  ∃ l', prune older_than findings l
        = (l', Returned (Z.of_nat (length (lg_events l) - length (lg_events l'))))
    ∧ log_ok l' ∧ (∀ t, hw l' t = hw l t)
    ∧ ∀ r, r ∈ lg_events l' ↔ r ∈ lg_events l ∧
        (older_than <= er_ingested_at r ∨
         ∃ f, f ∈ findings ∧ fi_state f = OPEN ∧ fi_sample_event_id f = Some (er_event_id r)).
Proof.
  intros Hok. eexists. rewrite prune_eq. split_and!.
  - do 3 f_equal. simpl. pose proof (rowcount_split (prunable older_than findings) (lg_events l)). lia.
  - apply log_ok_pruned; [done|apply delete_where_sublist].
  - done.
  - intros r. simpl. rewrite elem_of_delete. unfold prunable, open_evidence.
    rewrite andb_false_iff, Z.ltb_ge, bool_decide_eq_false.
    rewrite (and_comm _ (r ∈ _)). apply and_iff_compat_l, or_iff_compat_l.
    split.
    + intros H%dec_stable. apply list_elem_of_omap in H as (f & Hf & Hs).
      destruct (decide _) in Hs; [|done]. eauto.
    + intros (f & Hf & Ho & Hs) Hn. apply Hn, list_elem_of_omap. exists f.
      by rewrite decide_True.
Qed.

Lemma log_prune_exact_witness :
  ∃ l', prune 30 [] LogSample.two = (l', Returned 2) ∧ lg_events l' = []
        ∧ (∀ t, hw l' t = hw LogSample.two t).
Proof.
  destruct (log_prune_exact 30 [] LogSample.two two_log_ok) as (l' & E & _ & H & _).
  exists l'. split_and!; [|revert E; vm_compute; by intros [= <-]|exact H].
  rewrite E. do 2 f_equal. revert E. vm_compute. by intros [= <-].
Defined.
