(* ===== verification/StateStore.v ===== *)
(** * The projection table — [adapters/store/state.py]

    [worker_state_shadow], one row per terminal.  The projector owns six of its
    columns and the probes the other five; the theorem of this file is that the
    two sets of writers never touch each other's columns, which is why the
    probes need no lock. *)

From S2P Require Import Prelude WorkerStates.

(** [StateRow string string] is a stored row, whose state another build may have
    written; [StoredProjection] is the model object. *)
Record StateRow (State Reason : Type) := {
  st_state : State;
  st_since : Z;
  st_last_event_seq : Z;
  st_degraded_reason : option Reason;
  st_prior_state : option State;
  st_last_probe_at : option Z;
  st_last_source_probe_at : option Z;
  st_pane_pid : option Z;
  st_pane_present : bool;
  st_miss_count : Z;
}.
Arguments st_state {_ _} s. Arguments st_since {_ _} s. Arguments st_last_event_seq {_ _} s.
Arguments st_degraded_reason {_ _} s. Arguments st_prior_state {_ _} s.
Arguments st_last_probe_at {_ _} s. Arguments st_last_source_probe_at {_ _} s.
Arguments st_pane_pid {_ _} s. Arguments st_pane_present {_ _} s. Arguments st_miss_count {_ _} s.

Abbreviation shadow_row := (StateRow string string).
Abbreviation StoredProjection := (StateRow WorkerState DegradedReason).

#[export] Instance StateRow_eq_dec `{EqDecision A, EqDecision B} : EqDecision (StateRow A B).
Proof. solve_decision. Defined.

(** The table, by its primary key. *)
Abbreviation shadow := (gmap string shadow_row).

Module SqliteStateStore.

(** The two halves of a row: the projector's columns and the probes'. *)
Definition with_liveness {A B C D} (own : StateRow C D) (p : StateRow A B) : StateRow A B := {|
  st_state := st_state p; st_since := st_since p; st_last_event_seq := st_last_event_seq p;
  st_degraded_reason := st_degraded_reason p; st_prior_state := st_prior_state p;
  st_last_probe_at := st_last_probe_at own;
  st_last_source_probe_at := st_last_source_probe_at own;
  st_pane_pid := st_pane_pid own; st_pane_present := st_pane_present own;
  st_miss_count := st_miss_count own |}.

(** [_optional_state], [_optional_reason]: NULL stays None. *)
Definition optional {A} (parse : string → option A) (o : option string) : option (option A) :=
  match o with None => Some None | Some s => Some <$> parse s end.

Definition _row_to_projection (row : shadow_row) : outcome StoredProjection :=
  match WorkerState_of (st_state row), optional DegradedReason_of (st_degraded_reason row),
        optional WorkerState_of (st_prior_state row) with
  | None, _, _ => Raised (ValueError "WorkerState")
  | _, None, _ => Raised (ValueError "DegradedReason")
  | _, _, None => Raised (ValueError "WorkerState")
  | Some s, Some r, Some p => Returned
    {| st_state := s; st_since := st_since row; st_last_event_seq := st_last_event_seq row;
       st_degraded_reason := r; st_prior_state := p;
       st_last_probe_at := st_last_probe_at row;
       st_last_source_probe_at := st_last_source_probe_at row;
       st_pane_pid := st_pane_pid row; st_pane_present := st_pane_present row;
       st_miss_count := st_miss_count row |}
  end.

(** The values [upsert] binds. *)
Definition projection_row (p : StoredProjection) : shadow_row := {|
  st_state := WorkerState_value (st_state p); st_since := st_since p;
  st_last_event_seq := st_last_event_seq p;
  st_degraded_reason := DegradedReason_value <$> st_degraded_reason p;
  st_prior_state := WorkerState_value <$> st_prior_state p;
  st_last_probe_at := st_last_probe_at p;
  st_last_source_probe_at := st_last_source_probe_at p;
  st_pane_pid := st_pane_pid p; st_pane_present := st_pane_present p;
  st_miss_count := st_miss_count p |}.

Definition get (terminal_id : string) : M shadow (option StoredProjection) :=
  row ← gets (λ t, t !! terminal_id);
  match row with
  | None => mret None
  | Some row => p ← lift_outcome (_row_to_projection row); mret (Some p)
  end.

(** [INSERT .. ON CONFLICT(terminal_id) DO UPDATE SET <assignments>] *)
Definition insert_or (terminal_id : string) (fresh : shadow_row) (assign : shadow_row → shadow_row)
    : M shadow () :=
  modify (λ t, <[terminal_id := match t !! terminal_id with
                                | None => fresh
                                | Some old => assign old
                                end]> t).

Definition upsert (terminal_id : string) (projection : StoredProjection) : M shadow () :=
  let row := projection_row projection in
  insert_or terminal_id row (λ old, with_liveness old row).

(** A row a probe inserts: the columns it names, the DDL's defaults elsewhere. *)
Definition probe_row (stamp : Z) (probe source : option Z) (pane_present : bool)
    (pane_pid : option Z) (miss_count : Z) : shadow_row := {|
  st_state := WorkerState_value STARTING; st_since := stamp; st_last_event_seq := 0;
  st_degraded_reason := None; st_prior_state := None;
  st_last_probe_at := probe; st_last_source_probe_at := source;
  st_pane_pid := pane_pid; st_pane_present := pane_present; st_miss_count := miss_count |}.

Definition touch_probe (terminal_id : string) (probed_at : Z) (pane_present : bool)
    (pane_pid : option Z) (miss_count : Z) : M shadow () :=
  let fresh := probe_row probed_at (Some probed_at) None pane_present pane_pid miss_count in
  insert_or terminal_id fresh (λ old, {|
    st_state := st_state old; st_since := st_since old;
    st_last_event_seq := st_last_event_seq old;
    st_degraded_reason := st_degraded_reason old; st_prior_state := st_prior_state old;
    st_last_probe_at := st_last_probe_at fresh;
    st_last_source_probe_at := st_last_source_probe_at old;
    st_pane_pid := st_pane_pid fresh; st_pane_present := st_pane_present fresh;
    st_miss_count := st_miss_count fresh |}).

Definition touch_source_probe (terminal_id : string) (probed_at : Z) : M shadow () :=
  let fresh := probe_row probed_at None (Some probed_at) false None 0 in
  insert_or terminal_id fresh (λ old, {|
    st_state := st_state old; st_since := st_since old;
    st_last_event_seq := st_last_event_seq old;
    st_degraded_reason := st_degraded_reason old; st_prior_state := st_prior_state old;
    st_last_probe_at := st_last_probe_at old;
    st_last_source_probe_at := st_last_source_probe_at fresh;
    st_pane_pid := st_pane_pid old; st_pane_present := st_pane_present old;
    st_miss_count := st_miss_count old |}).

(** [ORDER BY terminal_id] *)
Definition all_terminals : M shadow (list (string * StoredProjection)) :=
  rows ← gets (λ t, merge_sort (λ a b, text_le a.1 b.1) (map_to_list t));
  for_each rows [] (λ acc r,
    p ← lift_outcome (_row_to_projection r.2); mret (acc ++ [(r.1, p)])).

End SqliteStateStore.

Import SqliteStateStore.

(** ** Two sets of writers, two sets of columns *)

(** A call of one of the two probe methods. *)
Inductive touch :=
| Probed (probed_at : Z) (pane_present : bool) (pane_pid : option Z) (miss_count : Z)
| SourceProbed (probed_at : Z).

Definition touched (terminal_id : string) (x : touch) : M shadow () :=
  match x with
  | Probed at_ present pid miss => touch_probe terminal_id at_ present pid miss
  | SourceProbed at_ => touch_source_probe terminal_id at_
  end.

(** The projector's own columns of a row. *)
Definition owned {A B} (r : StateRow A B) : A * Z * Z * option B * option A :=
  (st_state r, st_since r, st_last_event_seq r, st_degraded_reason r, st_prior_state r).

Definition liveness {A B} (r : StateRow A B) : option Z * option Z * option Z * bool * Z :=
  (st_last_probe_at r, st_last_source_probe_at r, st_pane_pid r, st_pane_present r, st_miss_count r).

Definition never_probed {A B} (r : StateRow A B) : Prop := liveness r = (None, None, None, false, 0).

Lemma row_to_projection_row p : _row_to_projection (projection_row p) = Returned p.
Proof.
  unfold _row_to_projection, projection_row. simpl. rewrite WorkerState_of_value.
  destruct p as [s si sq r pr lp ls pid pp mc]. simpl.
  destruct r as [r|], pr as [pr|]; simpl;
    rewrite ?DegradedReason_of_value, ?WorkerState_of_value; done.
Qed.

Lemma projection_row_of row p : _row_to_projection row = Returned p → projection_row p = row.
Proof.
  unfold _row_to_projection, projection_row, optional. intros H.
  destruct (WorkerState_of (st_state row)) as [s|] eqn:Es; [|done].
  destruct row as [st si sq r pr lp ls pid pp mc]. simpl in *.
  apply member_of_value in Es. subst st.
  destruct r as [r|]; simpl in H.
  - destruct (DegradedReason_of r) as [r'|] eqn:Er; [|done]. apply member_of_value in Er. subst r.
    destruct pr as [pr|]; simpl in H; [|by simplify_eq/=].
    destruct (WorkerState_of pr) as [q|] eqn:Ep; [|done]. apply member_of_value in Ep. subst pr.
    simpl in H. by simplify_eq/=.
  - destruct pr as [pr|]; simpl in H; [|by simplify_eq/=].
    destruct (WorkerState_of pr) as [q|] eqn:Ep; [|done]. apply member_of_value in Ep. subst pr.
    simpl in H. by simplify_eq/=.
Qed.

(** Writing back the row that was read changes nothing. *)
Lemma upsert_same id row p t :
  t !! id = Some row → _row_to_projection row = Returned p → (upsert id p t).1 = t.
Proof.
  intros E H%projection_row_of. unfold upsert, insert_or, modify. simpl. rewrite E, H.
  apply insert_id. rewrite E. by destruct row.
Qed.

Lemma insert_or_lookup id fresh assign t :
  (insert_or id fresh assign t).1 !! id
  = Some (match t !! id with None => fresh | Some old => assign old end).
Proof. simpl. by rewrite lookup_insert_eq. Qed.

Lemma insert_or_other id id' fresh assign t :
  id ≠ id' → (insert_or id fresh assign t).1 !! id' = t !! id'.
Proof. intros. simpl. by rewrite lookup_insert_ne. Qed.

(** The probes need no lock.  A probe changes no column the projector owns
    and the projector no column a probe owns, whichever row the projector had
    loaded; so a probe that lands between the projector's read and its write
    leaves the same table as one that lands after it, and no heartbeat is lost
    to a stale snapshot. *)
Theorem probes_and_projector_commute id x p t :
  t !! id ≠ None ∨ never_probed p →
  (touched id x ;; upsert id p) t = (upsert id p ;; touched id x) t
  ∧ (∀ old, t !! id = Some old →
       (∃ r, (touched id x t).1 !! id = Some r ∧ owned r = owned old)
       ∧ ∃ r, (upsert id p t).1 !! id = Some r
              ∧ owned r = owned (projection_row p) ∧ liveness r = liveness old)
  ∧ ∀ id', id ≠ id' →
       (touched id x t).1 !! id' = t !! id' ∧ (upsert id p t).1 !! id' = t !! id'.
Proof.
  intros H. split_and!.
  - unfold touched, upsert, touch_probe, touch_source_probe, insert_or, modify, mbind, M_bind.
    destruct x; simpl; rewrite !lookup_insert_eq, !insert_insert_eq; do 2 f_equal;
      destruct (t !! id) as [old|]; try done; destruct H as [H|H]; try done;
      unfold never_probed, liveness in H; simplify_eq/=;
      unfold with_liveness, projection_row; simpl; congruence.
  - intros old E. split.
    + destruct x; eexists; (split; [apply insert_or_lookup|]); by rewrite E.
    + eexists. split; [apply insert_or_lookup|]. by rewrite E.
  - intros id' Hne. split; [destruct x|]; by apply insert_or_other.
Qed.

Lemma probes_and_projector_commute_witness :
  let p := {| st_state := BUSY; st_since := 7; st_last_event_seq := 3; st_degraded_reason := None;
              st_prior_state := None; st_last_probe_at := None; st_last_source_probe_at := None;
              st_pane_pid := None; st_pane_present := false; st_miss_count := 0 |} in
  (touched "a" (SourceProbed 9) ;; upsert "a" p) ∅ = (upsert "a" p ;; touched "a" (SourceProbed 9)) ∅.
Proof.
  apply (probes_and_projector_commute "a" (SourceProbed 9)
    {| st_state := BUSY; st_since := 7; st_last_event_seq := 3; st_degraded_reason := None;
       st_prior_state := None; st_last_probe_at := None; st_last_source_probe_at := None;
       st_pane_pid := None; st_pane_present := false; st_miss_count := 0 |} ∅).
  by right.
Defined.
