(* ===== verification/Truth.v ===== *)
(** * The worker-truth plane: its state, its checks and its publisher

    [app/worker_truth/checks.py], [health.py], [publisher.py],
    [projector.StaticSourceRegistry], and [SqliteEventStore.append] with the
    checks that run after its commit.  [truth] is everything the plane reads or
    writes.  The clock's readings, the minted ids, the operator's allowlist, the
    legacy egress and the condition sink are parameters. *)

From S2P Require Import Prelude Timing Text Ports Findings WorkerStates EventLog StateStore.

(** ** [projector.StaticSourceRegistry] *)

Record registry := { rg_terminal_ids : gset string; rg_fallback_disabled_ids : gset string }.

Module StaticSourceRegistry.
Definition add (t : string) (r : registry) : registry :=
  {| rg_terminal_ids := {[t]} ∪ rg_terminal_ids r;
     rg_fallback_disabled_ids := rg_fallback_disabled_ids r |}.
Definition discard (t : string) (r : registry) : registry :=
  {| rg_terminal_ids := rg_terminal_ids r ∖ {[t]};
     rg_fallback_disabled_ids := rg_fallback_disabled_ids r |}.
Definition forget (t : string) (r : registry) : registry :=
  {| rg_terminal_ids := rg_terminal_ids r ∖ {[t]};
     rg_fallback_disabled_ids := rg_fallback_disabled_ids r ∖ {[t]} |}.
Definition set_fallback_disabled (t : string) (r : registry) : registry :=
  {| rg_terminal_ids := rg_terminal_ids r;
     rg_fallback_disabled_ids := {[t]} ∪ rg_fallback_disabled_ids r |}.
Definition clear_fallback_disabled (t : string) (r : registry) : registry :=
  {| rg_terminal_ids := rg_terminal_ids r;
     rg_fallback_disabled_ids := rg_fallback_disabled_ids r ∖ {[t]} |}.
Definition is_authoritative (t : string) (r : registry) : bool :=
  bool_decide (t ∈ rg_terminal_ids r).
Definition fallback_disabled (t : string) (r : registry) : bool :=
  bool_decide (t ∈ rg_fallback_disabled_ids r).
End StaticSourceRegistry.

(** ** What leaves the plane *)

(** One call of [StatusEgress.publish]. *)
Record published := {
  pb_terminal_id : string;
  pb_status : string;
  pb_event_id : option string;
  pb_worker_state : string;
  pb_since : Z;
}.

Inductive outward := Published (p : published) | Reclassified (terminal_id : string).

(** ** The state *)

Record truth := {
  tw_log : log;
  tw_states : shadow;
  tw_findings : list (FindingRow string);
  tw_sources : registry;
  tw_marks : gmap string bool;                (* [SourceHealth._projected] *)
  tw_open : gmap string (string * string);    (* [ProducerDisagreementCheck._open] *)
  tw_out : list outward;                      (* oldest first *)
  tw_ticks : nat;                             (* clock readings taken *)
  tw_minted : nat;                            (* ids minted *)
}.

Definition set_log (x : log) (w : truth) : truth :=
  {| tw_log := x; tw_states := tw_states w; tw_findings := tw_findings w;
     tw_sources := tw_sources w; tw_marks := tw_marks w; tw_open := tw_open w;
     tw_out := tw_out w; tw_ticks := tw_ticks w; tw_minted := tw_minted w |}.
Definition set_states (x : shadow) (w : truth) : truth :=
  {| tw_log := tw_log w; tw_states := x; tw_findings := tw_findings w;
     tw_sources := tw_sources w; tw_marks := tw_marks w; tw_open := tw_open w;
     tw_out := tw_out w; tw_ticks := tw_ticks w; tw_minted := tw_minted w |}.
Definition set_truth_findings (x : list (FindingRow string)) (w : truth) : truth :=
  {| tw_log := tw_log w; tw_states := tw_states w; tw_findings := x;
     tw_sources := tw_sources w; tw_marks := tw_marks w; tw_open := tw_open w;
     tw_out := tw_out w; tw_ticks := tw_ticks w; tw_minted := tw_minted w |}.
Definition set_sources (x : registry) (w : truth) : truth :=
  {| tw_log := tw_log w; tw_states := tw_states w; tw_findings := tw_findings w;
     tw_sources := x; tw_marks := tw_marks w; tw_open := tw_open w;
     tw_out := tw_out w; tw_ticks := tw_ticks w; tw_minted := tw_minted w |}.
Definition set_marks (x : gmap string bool) (w : truth) : truth :=
  {| tw_log := tw_log w; tw_states := tw_states w; tw_findings := tw_findings w;
     tw_sources := tw_sources w; tw_marks := x; tw_open := tw_open w;
     tw_out := tw_out w; tw_ticks := tw_ticks w; tw_minted := tw_minted w |}.
Definition set_open (x : gmap string (string * string)) (w : truth) : truth :=
  {| tw_log := tw_log w; tw_states := tw_states w; tw_findings := tw_findings w;
     tw_sources := tw_sources w; tw_marks := tw_marks w; tw_open := x;
     tw_out := tw_out w; tw_ticks := tw_ticks w; tw_minted := tw_minted w |}.
Definition send_out (x : outward) (w : truth) : truth :=
  {| tw_log := tw_log w; tw_states := tw_states w; tw_findings := tw_findings w;
     tw_sources := tw_sources w; tw_marks := tw_marks w; tw_open := tw_open w;
     tw_out := tw_out w ++ [x]; tw_ticks := tw_ticks w; tw_minted := tw_minted w |}.
Definition tick (w : truth) : truth :=
  {| tw_log := tw_log w; tw_states := tw_states w; tw_findings := tw_findings w;
     tw_sources := tw_sources w; tw_marks := tw_marks w; tw_open := tw_open w;
     tw_out := tw_out w; tw_ticks := S (tw_ticks w); tw_minted := tw_minted w |}.
Definition count_id (w : truth) : truth :=
  {| tw_log := tw_log w; tw_states := tw_states w; tw_findings := tw_findings w;
     tw_sources := tw_sources w; tw_marks := tw_marks w; tw_open := tw_open w;
     tw_out := tw_out w; tw_ticks := tw_ticks w; tw_minted := S (tw_minted w) |}.

Definition on_log {A} (m : M log A) : M truth A := zoom tw_log set_log m.
Definition on_states {A} (m : M shadow A) : M truth A := zoom tw_states set_states m.
Definition on_truth_findings {A} (m : M (list (FindingRow string)) A) : M truth A :=
  zoom tw_findings set_truth_findings m.

(** ** [health.py]: [SourceHealth], the write side *)

Definition mark (t : string) (projected : bool) : M truth () :=
  modify (λ w, set_marks (<[t := projected]> (tw_marks w)) w).
Definition forget_mark (t : string) : M truth () :=
  modify (λ w, set_marks (delete t (tw_marks w)) w).
Definition reset_marks : M truth () := modify (set_marks ∅).

(** ** [checks.py]: the structural checks *)

Record CheckOutcome := {
  co_dedupe_key : string;
  co_detail : string;
  co_terminal_id : option string;
  co_sample_event_id : option string;
}.

Definition EVIDENCE_REQUIRING_DECISIONS : list DecisionKind :=
  [STATUS_TRANSITION; STATUS_REASON_CHANGED; STATUS_RECOVERED; FLEET_OVERRIDE].

Definition TRANSITION_ROW_KINDS : list DecisionKind := [STATUS_TRANSITION; STATUS_RECOVERED].

(** Python's truth of an optional string. *)
Definition truthy (o : option string) : bool :=
  match o with Some s => bool_decide (s ≠ ""%string) | None => false end.

Definition ghost_transition_check (e : WorkerEvent) : option CheckOutcome :=
  match we_decision e with
  | None => None
  | Some d =>
    if bool_decide (d ∉ EVIDENCE_REQUIRING_DECISIONS) then None
    else if truthy (ed_evidence (we_draft e)) then None
    else Some {| co_dedupe_key := DecisionKind_value d;
                 co_detail := DecisionKind_value d +:+ " appended with no evidence event_id";
                 co_terminal_id := None; co_sample_event_id := None |}
  end.

Definition bad_transition_check (e : WorkerEvent) : option CheckOutcome :=
  if negb (match we_decision e with
           | Some d => bool_decide (d ∈ TRANSITION_ROW_KINDS)
           | None => false
           end) then None
  else match payload_str "from" (we_payload e), payload_str "to" (we_payload e) with
  | Some from_raw, Some to_raw =>
    match WorkerState_of from_raw, WorkerState_of to_raw with
    | Some f, Some t =>
      if bool_decide (dict_get (f, t) TRANSITIONS = Some ANOMALOUS)
      then Some {| co_dedupe_key := from_raw +:+ "->" +:+ to_raw;
                   co_detail := "anomalous transition " +:+ from_raw +:+ " -> " +:+ to_raw
                                +:+ " applied";
                   co_terminal_id := None; co_sample_event_id := None |}
      else None
    | _, _ => None
    end
  | _, _ => None
  end.

(** [register_phase1_checks] *)
Definition registered_checks : list (FindingCode * (WorkerEvent → option CheckOutcome)) :=
  [(DIAG_GHOST_TRANSITION, ghost_transition_check); (DIAG_BAD_TRANSITION, bad_transition_check)].

Definition _RECENT_EVENT_WINDOW : Z := 256.

(** [f"{age.total_seconds():.0f}"], to nearest, ties to even. *)
Definition whole_seconds (age : Z) : Z :=
  let q := age / 1000000 in
  let r := age mod 1000000 in
  if r <? 500000 then q else if 500000 <? r then q + 1 else if Z.even q then q else q + 1.

(** [_onset]'s walk back over [reversed(rows[:-1])]. *)
Fixpoint onset_walk (mapped : WorkerState) (first : WorkerEvent) (earlier : list WorkerEvent)
    : WorkerEvent :=
  match earlier with
  | [] => first
  | row :: rest =>
    match legacy_state <$> payload_str "latched_status" (we_payload row) with
    | Some (Some s) => if bool_decide (s = mapped) then onset_walk mapped row rest else first
    | _ => first
    end
  end.

Definition _onset (rows : list WorkerEvent) (newest : WorkerEvent) (mapped : WorkerState)
    (state_since : Z) : Z * WorkerEvent :=
  let first := onset_walk mapped newest (tail (reverse rows)) in
  (Z.max (we_ingested_at first) state_since, first).

Definition _asserted_state (e : WorkerEvent) : option WorkerState :=
  if bool_decide (we_kind e = Event STATUS_LEGACY_PUBLISHED)
  then match payload_str "latched_status" (we_payload e) with
       | Some raw => legacy_state raw
       | None => None
       end
  else implied_state (we_kind e).

(** ** The operations *)

Section Truth.
Context (clock : nat → Z) (mint : nat → string).
(** [SourceHealth.admits]: [None] when unset; it may raise. *)
Context (admits : option (string → outcome bool)).
(** [StatusEgress.publish] and [ConditionSink.reclassify] are legacy code. *)
Context (egress : list outward → published → outcome ()).
Context (tm : Timing).

Definition now : M truth Z := λ w, (tick w, Returned (clock (tw_ticks w))).
Definition new_ulid : M truth string := λ w, (count_id w, Returned (mint (tw_minted w))).

(** [FindingStore.record].  The store draws an id only when it inserts; one is
    drawn here at every call, and one that is not used is skipped. *)
Definition record_finding (code : FindingCode) (terminal_id dedupe_key detail : string)
    (sample : option string) : M truth () :=
  at_ ← now;
  i ← new_ulid;
  on_truth_findings (SqliteFindingStore.record at_ i code terminal_id dedupe_key detail sample) ;;
  mret ().

(** [CheckRegistry.on_append] *)
Definition on_append (event : WorkerEvent) : M truth () :=
  for_each registered_checks tt (λ _ '(code, check),
    match check event with
    | None => mret tt
    | Some o =>
      catch (record_finding code (default (we_terminal_id event) (co_terminal_id o))
               (co_dedupe_key o) (co_detail o)
               (Some (default (we_event_id event) (co_sample_event_id o))))
            (λ _, mret tt)
    end).

(** [SqliteEventStore.append]; [_run_checks] swallows what [on_append] raises. *)
Definition append (draft : EventDraft) : M truth WorkerEvent :=
  ingested_at ← now;
  event_id ← new_ulid;
  r ← on_log (SqliteEventStore.append_in None ingested_at event_id draft);
  if (r.2 : bool) then catch (on_append r.1) (λ _, mret tt) ;; mret r.1
  else mret r.1.

(** [SourceHealth.is_projected]: never raises. *)
Definition is_projected (t : string) : M truth bool :=
  projected ← gets (λ w, default false (tw_marks w !! t));
  if negb projected then mret false
  else match admits with
       | None => mret true
       | Some f => mret (match f t with Returned b => b | Raised _ => false end)
       end.

(** [StatusPublisher.__call__]: never raises. *)
Definition publish_transition (t : string) (s : WorkerState) (causing_kind : option AnyKind)
    (degraded_reason : option DegradedReason) (event_id : option string) (since : Z)
    : M truth bool :=
  p ← is_projected t;
  if negb p then mret false
  else
    let x := {| pb_terminal_id := t;
                pb_status := legacy_status s causing_kind degraded_reason;
                pb_event_id := event_id; pb_worker_state := WorkerState_value s;
                pb_since := since |} in
    out ← gets tw_out;
    modify (send_out (Published x)) ;;
    mret (match egress out x with Returned _ => true | Raised _ => false end).

(** [PaneDisagreementCheck]: the body, and the call that swallows its failures. *)
Definition pane_evaluate (t : string) : M truth bool :=
  projection ← on_states (SqliteStateStore.get t);
  match projection with
  | None => mret false
  | Some projection =>
    high ← on_log (SqliteEventStore.high_water t);
    rows ← on_log (SqliteEventStore.read (Some t) (Z.max 0 (high - _RECENT_EVENT_WINDOW)) None
                     (Some [Event STATUS_PANE_CLASSIFIED]) None);
    match last rows with
    | None => mret false
    | Some newest =>
      match payload_str "latched_status" (we_payload newest) with
      | None => mret false
      | Some raw =>
        match legacy_state raw with
        | None => mret false
        | Some mapped =>
          if bool_decide (mapped = st_state projection) then mret false else
          let '(onset, sample) := _onset rows newest mapped (st_since projection) in
          at_ ← now;
          let age := at_ - onset in
          if age <=? seconds (PANE_HEARTBEAT_S tm) then mret false else
          record_finding DIAG_PANE_DISAGREE t
            (WorkerState_value (st_state projection) +:+ "|" +:+ raw)
            ("projected " +:+ WorkerState_value (st_state projection) +:+ " vs pane " +:+ raw
             +:+ " for " +:+ pretty (whole_seconds age) +:+ "s")
            (Some (we_event_id sample)) ;;
          mret true
        end
      end
    end
  end.

Definition pane_disagreement (t : string) : M truth bool :=
  catch (pane_evaluate t) (λ _, mret false).

(** [ProducerDisagreementCheck] *)
Definition forget_episode (t : string) : M truth () :=
  modify (λ w, set_open (delete t (tw_open w)) w).

Definition producer_evaluate (event : WorkerEvent) (standing : WorkerState) : M truth bool :=
  if bool_decide (ed_confidence (we_draft event) ≠ DERIVED) then mret false else
  match _asserted_state event with
  | None => mret false
  | Some asserted =>
    if bool_decide (asserted = standing)
    then forget_episode (we_terminal_id event) ;; mret false
    else
      let episode := (WorkerState_value standing, WorkerState_value asserted) in
      open ← gets (λ w, tw_open w !! we_terminal_id event);
      if bool_decide (open = Some episode) then mret false else
      modify (λ w, set_open (<[we_terminal_id event := episode]> (tw_open w)) w) ;;
      record_finding DIAG_PRODUCER_DISAGREE (we_terminal_id event)
        (WorkerState_value standing +:+ "|" +:+ WorkerState_value asserted)
        ("projected " +:+ WorkerState_value standing +:+ " from the authoritative source while "
         +:+ Producer_value (ed_producer (we_draft event)) +:+ " asserted "
         +:+ WorkerState_value asserted +:+ " (" +:+ AnyKind_value (we_kind event) +:+ ", muted)")
        (Some (we_event_id event)) ;;
      mret true
  end.

Definition producer_disagreement (event : WorkerEvent) (standing : WorkerState) : M truth bool :=
  catch (producer_evaluate event standing) (λ _, mret false).

End Truth.
