(* ===== verification/Projector.v ===== *)
(** * The projector — [app/worker_truth/projector.py], and its driver [adapters/truth/wiring.py]

    [project] folds one stored event into the projection, [sweep] degrades the
    terminals that have gone silent, [emit] is the one path from a producer to
    the log and the fold.  The projector's lock makes a fold and one terminal's
    turn of a sweep each one step; the theorems take the steps in any order. *)

From S2P Require Import Prelude Timing Text Ports WorkerStates EventLog StateStore Truth.

Abbreviation ProjectedState := StoredProjection.

(** [ProjectedState(terminal_id, since=at)]: the dataclass's defaults. *)
Definition fresh_state (at_ : Z) : ProjectedState := {|
  st_state := STARTING; st_since := at_; st_last_event_seq := 0; st_degraded_reason := None;
  st_prior_state := None; st_last_probe_at := None; st_last_source_probe_at := None;
  st_pane_pid := None; st_pane_present := false; st_miss_count := 0 |}.

(** [replace(row, ..)], by the fields the rules change. *)
Definition moved_to (s : WorkerState) (since : Z) (seq : Z) (reason : option DegradedReason)
    (prior : option WorkerState) (row : ProjectedState) : ProjectedState := {|
  st_state := s; st_since := since; st_last_event_seq := seq; st_degraded_reason := reason;
  st_prior_state := prior; st_last_probe_at := st_last_probe_at row;
  st_last_source_probe_at := st_last_source_probe_at row; st_pane_pid := st_pane_pid row;
  st_pane_present := st_pane_present row; st_miss_count := st_miss_count row |}.

Definition advanced (seq : Z) (row : ProjectedState) : ProjectedState :=
  moved_to (st_state row) (st_since row) seq (st_degraded_reason row) (st_prior_state row) row.

Definition relabelled (reason : DegradedReason) (seq : Z) (row : ProjectedState) : ProjectedState :=
  moved_to (st_state row) (st_since row) seq (Some reason) (st_prior_state row) row.

Definition DERIVED_ALWAYS_KINDS : list EventKind :=
  [PROMPT_AWAITING; PROMPT_ANSWERED; USAGE_CAPPED; PROCESS_EXITED; PANE_RECOVERED].

Record ProjectionOutcome := {
  po_terminal_id : string;
  po_rule : string;
  po_applied : bool;
  po_from_state : option WorkerState;
  po_to_state : option WorkerState;
  po_classification : option TransitionClass;
  po_decision_event_id : option string;
}.

Definition outcome_of (t rule : string) (applied : bool) (from_state to_state : option WorkerState)
    (c : option TransitionClass) (decision : option string) : ProjectionOutcome :=
  {| po_terminal_id := t; po_rule := rule; po_applied := applied; po_from_state := from_state;
     po_to_state := to_state; po_classification := c; po_decision_event_id := decision |}.

Record _PublishIntent := {
  pi_terminal_id : string;
  pi_state : WorkerState;
  pi_causing_kind : option AnyKind;
  pi_degraded_reason : option DegradedReason;
  pi_event_id : option string;
  pi_since : Z;
}.

Definition _payload_reason (e : WorkerEvent) : option DegradedReason :=
  match payload_str "degraded_reason" (we_payload e) with
  | Some raw => DegradedReason_of raw
  | None => None
  end.

(** The state an event asserts, and the reason if that state is degraded. *)
Definition _target (e : WorkerEvent) : option WorkerState * option DegradedReason :=
  let by_kind :=
    let target := implied_state (we_kind e) in
    if bool_decide (target ≠ Some DEGRADED) then (target, None)
    else match _payload_reason e with
         | Some override => (target, Some override)
         | None =>
           if bool_decide (we_kind e = Event PANE_MISSING) then (target, Some PANE_MISSING_REASON)
           else (target, Some RENDER_UNCERTAIN)
         end in
  if bool_decide (we_kind e = Event STATUS_LEGACY_PUBLISHED)
  then match payload_str "latched_status" (we_payload e) with
       | None => (None, None)
       | Some raw =>
         let target := legacy_state raw in
         (target, if bool_decide (target = Some DEGRADED) then Some RENDER_UNCERTAIN else None)
       end
  else if bool_decide (we_kind e = Event PROMPT_ANSWERED)
  then match answered_state (we_payload e) with
       | Some resolved => (Some resolved, None)
       | None => by_kind
       end
  else by_kind.

Definition _last_signal (row : ProjectedState) : Z :=
  let bound (o : option Z) (m : Z) := match o with Some s => Z.max s m | None => m end in
  bound (st_last_probe_at row) (bound (st_last_source_probe_at row) (st_since row)).

Section Projector.
Context (clock : nat → Z) (mint : nat → string).
Context (admits : option (string → outcome bool)).
Context (egress : list outward → published → outcome ()).
Context (reclassify : string → outcome ()).
Context (strict : bool) (tm : Timing).

Abbreviation now := (now clock).
Abbreviation append := (append clock mint).

Definition _source_healthy (row : ProjectedState) : M truth bool :=
  match st_last_source_probe_at row with
  | None => mret false
  | Some p => at_ ← now; mret (at_ - p <=? seconds (NO_SIGNAL_S tm))
  end.

Definition _fallback_disabled (t : string) : M truth bool :=
  gets (λ w, StaticSourceRegistry.fallback_disabled t (tw_sources w)).

Definition _projected (t : string) (row : ProjectedState) : M truth bool :=
  disabled ← match st_last_source_probe_at row with
             | None => mret false
             | Some _ => _fallback_disabled t
             end;
  if (disabled : bool) then mret true else
  authoritative ← gets (λ w, StaticSourceRegistry.is_authoritative t (tw_sources w));
  if negb authoritative then mret false else _source_healthy row.

Definition derived_always (k : AnyKind) : bool :=
  match k with Event k => bool_decide (k ∈ DERIVED_ALWAYS_KINDS) | Decision_ _ => false end.

Definition _is_muted (row : ProjectedState) (event : WorkerEvent) : M truth bool :=
  if bool_decide (ed_confidence (we_draft event) ≠ DERIVED) then mret false
  else if derived_always (we_kind event) then mret false
  else _projected (we_terminal_id event) row.

Definition _load (t : string) (at_ : Z) : M truth ProjectedState :=
  existing ← on_states (SqliteStateStore.get t);
  mret (match existing with Some p => p | None => fresh_state at_ end).

Definition upsert (t : string) (row : ProjectedState) : M truth () :=
  on_states (SqliteStateStore.upsert t row).

Definition decision_draft (decision : DecisionKind) (cause : WorkerEvent) (p : payload)
    (observed_at : Z) : EventDraft := {|
  ed_terminal_id := we_terminal_id cause; ed_kind := Decision_ decision; ed_producer := SERVER;
  ed_confidence := AUTHORITATIVE; ed_observed_at := observed_at; ed_payload := p;
  ed_source_ref := None; ed_run_id := ed_run_id (we_draft cause);
  ed_msg_id := ed_msg_id (we_draft cause); ed_decision := Some decision;
  ed_evidence := Some (we_event_id cause); ed_event_key := None |}.

Definition _append_decision (decision : DecisionKind) (cause : WorkerEvent) (p : payload)
    (observed_at : option Z) : M truth string :=
  at_ ← match observed_at with Some o => mret o | None => now end;
  draft ← lift_outcome (make_draft (decision_draft decision cause p at_));
  stored ← append draft;
  mret (we_event_id stored).

Definition dict (l : list (string * pvalue)) : payload := list_to_map l.

Definition _diagonal (row : ProjectedState) (event : WorkerEvent) (target : WorkerState)
    (reason : option DegradedReason) : M truth ProjectionOutcome :=
  let t := we_terminal_id event in
  match reason with
  | Some r =>
    if bool_decide (target = DEGRADED) && reason_rises (st_degraded_reason row) r then
      upsert t (relabelled r (we_seq event) row) ;;
      decision_id ← _append_decision STATUS_REASON_CHANGED event
        (dict [("from_reason", opt_str DegradedReason_value (st_degraded_reason row));
               ("to_reason", PStr (DegradedReason_value r)); ("rule", PStr "reason_rise")]%string) None;
      mret (outcome_of t "reason_rise" true (Some (st_state row)) (Some target) (Some NO_OP)
              (Some decision_id))
    else
      upsert t (advanced (we_seq event) row) ;;
      mret (outcome_of t "diagonal_noop" false (Some (st_state row)) (Some target) (Some NO_OP) None)
  | None =>
    upsert t (advanced (we_seq event) row) ;;
    mret (outcome_of t "diagonal_noop" false (Some (st_state row)) (Some target) (Some NO_OP) None)
  end.

Definition _transition (row : ProjectedState) (event : WorkerEvent) : M truth ProjectionOutcome :=
  let t := we_terminal_id event in
  match _target event with
  | (None, _) =>
    upsert t (advanced (we_seq event) row) ;;
    mret (outcome_of t "no_implied_state" false (Some (st_state row)) None None None)
  | (Some target, reason) =>
    classification ← lift_outcome (validate strict (st_state row) target);
    if bool_decide (classification = NO_OP) then _diagonal row event target reason else
    let degrades := bool_decide (target = DEGRADED) in
    upsert t (moved_to target (we_ingested_at event) (we_seq event)
                (if degrades then reason else None)
                (if degrades then Some (st_state row) else None) row) ;;
    decision_id ← _append_decision STATUS_TRANSITION event
      (dict [("from", PStr (WorkerState_value (st_state row)));
             ("to", PStr (WorkerState_value target)); ("rule", PStr "applied");
             ("classification", PStr (TransitionClass_value classification));
             ("degraded_reason", opt_str DegradedReason_value reason)]%string) None;
    mret (outcome_of t "applied" true (Some (st_state row)) (Some target) (Some classification)
            (Some decision_id))
  end.

Definition _recover (row : ProjectedState) (event : WorkerEvent) : M truth ProjectionOutcome :=
  let t := we_terminal_id event in
  if bool_decide (st_state row ≠ DEGRADED) then
    upsert t (advanced (we_seq event) row) ;;
    mret (outcome_of t "recovery_not_degraded" false (Some (st_state row)) None None None)
  else
    let target := default IDLE (st_prior_state row) in
    classification ← lift_outcome (validate strict (st_state row) target);
    upsert t (moved_to target (we_ingested_at event) (we_seq event) None None row) ;;
    decision_id ← _append_decision STATUS_RECOVERED event
      (dict [("from", PStr (WorkerState_value (st_state row)));
             ("to", PStr (WorkerState_value target)); ("rule", PStr "recovered");
             ("classification", PStr (TransitionClass_value classification));
             ("restored_reason", opt_str DegradedReason_value (st_degraded_reason row))]%string) None;
    mret (outcome_of t "recovered" true (Some (st_state row)) (Some target) (Some classification)
            (Some decision_id)).

Definition _publish_intent (o : ProjectionOutcome) (causing_kind : option AnyKind)
    : M truth (option _PublishIntent) :=
  match po_applied o, po_to_state o with
  | true, Some to_state =>
    current ← on_states (SqliteStateStore.get (po_terminal_id o));
    mret (match current with
          | None => None
          | Some current => Some
            {| pi_terminal_id := po_terminal_id o; pi_state := to_state;
               pi_causing_kind := causing_kind;
               pi_degraded_reason := st_degraded_reason current;
               pi_event_id := po_decision_event_id o; pi_since := st_since current |}
          end)
  | _, _ => mret None
  end.

Definition _deliver (intent : option _PublishIntent) : M truth () :=
  match intent with
  | None => mret ()
  | Some i =>
    publish_transition admits egress (pi_terminal_id i) (pi_state i) (pi_causing_kind i)
      (pi_degraded_reason i) (pi_event_id i) (pi_since i) ;;
    mret ()
  end.

Definition project (event : WorkerEvent) : M truth ProjectionOutcome :=
  let t := we_terminal_id event in
  if bool_decide (we_decision event ≠ None)
  then mret (outcome_of t "decision_row" false None None None None)
  else
    row ← _load t (we_ingested_at event);
    projected ← _projected t row;
    mark t projected ;;
    muted ← _is_muted row event;
    o ← (if (muted : bool) then
           upsert t (advanced (we_seq event) row) ;;
           producer_disagreement clock mint event (st_state row) ;;
           mret (outcome_of t "derived_muted_by_healthy_source" false (Some (st_state row))
                   None None None)
         else if bool_decide (we_kind event = Event PANE_RECOVERED) then _recover row event
         else _transition row event);
    intent ← _publish_intent o (Some (we_kind event));
    pane_disagreement clock mint tm t ;;
    _deliver intent ;;
    mret o.

(** ** The sweep *)

Definition _last_event (t : string) (last_event_seq : Z) : M truth (option WorkerEvent) :=
  if last_event_seq <=? 0 then mret None else
  rows ← on_log (SqliteEventStore.read (Some t) (last_event_seq - 1) None None None);
  mret (last (filter (λ e, we_decision e = None) rows)).

Definition _note_certified_stale (t : string) (row : ProjectedState) (last_event : WorkerEvent)
    : M truth () :=
  match st_last_source_probe_at row with
  | None => mret tt
  | Some _ =>
    disabled ← _fallback_disabled t;
    if negb disabled then mret tt else
    catch (record_finding clock mint DIAG_CERTIFIED_SOURCE_STALE t t
             ("certified source silent since " +:+ isoformat (we_ingested_at last_event)
              +:+ "; projected state held at " +:+ WorkerState_value DEGRADED +:+ "("
              +:+ DegradedReason_value NO_SIGNAL +:+ ")")
             (Some (we_event_id last_event)))
          (λ _, mret tt)
  end.

Definition _degrade_no_signal (t : string) (row : ProjectedState) (last_event : WorkerEvent)
    (at_ : Z) : M truth ProjectionOutcome :=
  if bool_decide (st_state row = DEGRADED) && negb (reason_rises (st_degraded_reason row) NO_SIGNAL)
  then
    upsert t row ;;
    _note_certified_stale t row last_event ;;
    mret (outcome_of t "no_signal_already_degraded" false (Some (st_state row)) (Some DEGRADED)
            (Some NO_OP) None)
  else
    classification ← lift_outcome (validate strict (st_state row) DEGRADED);
    upsert t (moved_to DEGRADED at_ (st_last_event_seq row) (Some NO_SIGNAL)
                (Some (st_state row)) row) ;;
    decision_id ← _append_decision STATUS_TRANSITION last_event
      (dict [("from", PStr (WorkerState_value (st_state row)));
             ("to", PStr (WorkerState_value DEGRADED)); ("rule", PStr "no_signal_sweep");
             ("classification", PStr (TransitionClass_value classification));
             ("degraded_reason", PStr (DegradedReason_value NO_SIGNAL));
             ("silent_since", PStr (isoformat (we_ingested_at last_event)))]%string) (Some at_);
    _note_certified_stale t row last_event ;;
    mret (outcome_of t "no_signal_sweep" true (Some (st_state row)) (Some DEGRADED)
            (Some classification) (Some decision_id)).

(** One terminal's turn: the critical section, then the delivery. *)
Definition sweep_one (at_ : Z) (t : string) : M truth (option ProjectionOutcome) :=
  current ← on_states (SqliteStateStore.get t);
  match current with
  | None => forget_mark t ;; mret None
  | Some row =>
    projected ← _projected t row;
    mark t projected ;;
    if bool_decide (st_state row = EXITED) then mret None else
    if at_ - _last_signal row <=? seconds (NO_SIGNAL_S tm) then mret None else
    last_event ← _last_event t (st_last_event_seq row);
    match last_event with
    | None => mret None
    | Some last_event =>
      o ← _degrade_no_signal t row last_event at_;
      intent ← _publish_intent o None;
      _deliver intent ;;
      mret (Some o)
    end
  end.

Definition roster : M truth (list string) :=
  rows ← on_states SqliteStateStore.all_terminals;
  mret (fst <$> rows).

(** [ConditionSink.reclassify]: legacy code; what it raises escapes the sweep. *)
Definition _reclassify (t : string) : M truth () :=
  modify (send_out (Reclassified t)) ;; lift_outcome (reclassify t).

Definition sweep : M truth (list ProjectionOutcome) :=
  at_ ← now;
  terminals ← roster;
  outcomes ← for_each terminals [] (λ acc t,
    o ← sweep_one at_ t;
    mret (match o with Some o => acc ++ [o] | None => acc end));
  judged ← roster;
  for_each judged tt (λ _ t, pane_disagreement clock mint tm t ;; mret tt) ;;
  relabel ← roster;
  for_each relabel tt (λ _ t, _reclassify t) ;;
  mret outcomes.

(** ** [adapters/truth/wiring.py]: [emit] and [_fold] *)

(** [rt_folder]: whether the composition root wired the projector. *)
Record ProducerRuntime := { rt_folder : bool }.

Definition _fold (runtime : ProducerRuntime) (event : WorkerEvent) : M truth () :=
  if rt_folder runtime then catch (project event ;; mret tt) (λ _, mret tt) else mret tt.

Definition emit (runtime : option ProducerRuntime) (draft : EventDraft)
    : M truth (option WorkerEvent) :=
  match runtime with
  | None => mret None
  | Some rt =>
    stored ← catch (e ← append draft; mret (Some e)) (λ _, mret None);
    match stored with
    | None => mret None
    | Some e => _fold rt e ;; mret (Some e)
    end
  end.

End Projector.
