(* ===== verification/TruthInv.v ===== *)
(** * The worker-truth plane as a transition system: its log

    [top] is one step of the plane by any of its threads — an append, a fold of
    a stored event, one terminal's turn of a sweep, a probe, a prune — and
    [trun] a sequence of them in any order.  An [emit] is an append and, later
    and possibly after other steps, a fold of the event it returned. *)

From S2P Require Import Prelude Timing Ports Findings WorkerStates EventLog StateStore Truth Projector.

(** A relation on the log alone. *)
Definition log_rel (Q : relation log) (w w' : truth) : Prop := Q (tw_log w) (tw_log w').

#[export] Instance log_rel_preorder Q `{!PreOrder Q} : PreOrder (log_rel Q).
Proof. unfold log_rel. split; [intros w; reflexivity|]. intros a b c; apply transitivity. Qed.

(** One structural step of a [keeps] proof. *)
Ltac keeps_step :=
  first
    [ solve [auto 3 with truth]
    | apply keeps_ret; apply _ | apply keeps_raise; apply _ | apply keeps_gets; apply _
    | apply keeps_lift_outcome; apply _
    | apply keeps_bind; [apply _| |intros ?] | apply keeps_catch; [apply _| |intros ?]
    | apply keeps_for_each; [apply _|intros ???]
    | match goal with |- keeps _ (match ?x with _ => _ end) => destruct x end ].
Ltac keeps_steps := repeat keeps_step.

(** Apply a lemma of [Frame]: the instance, then its hypotheses. *)
Ltac by_frame L := apply L; first [apply _ | assumption].

Create HintDb truth discriminated.

(** From [w] to [w'] only the clock, the supply of ids, the findings and the
    open episodes moved. *)
Definition quiet (w w' : truth) : Prop :=
  tw_log w' = tw_log w ∧ tw_states w' = tw_states w ∧ tw_out w' = tw_out w
  ∧ tw_marks w' = tw_marks w ∧ tw_sources w' = tw_sources w
  ∧ (tw_minted w ≤ tw_minted w')%nat ∧ (tw_ticks w ≤ tw_ticks w')%nat.

#[export] Instance quiet_preorder : PreOrder quiet.
Proof.
  unfold quiet. split; [done|]. intros a b c (?&?&?&?&?&?&?) (?&?&?&?&?&?&?).
  split_and!; first [congruence|lia].
Qed.

Ltac by_quiet := unfold quiet; simpl; split_and!; first [done|lia].
#[export] Hint Extern 0 (quiet _ _) => by_quiet : truth.

(** ** What the plane's statements can do to a relation

    [R] is a preorder that does not see the clock, the supply of ids, the
    findings or the open episodes.  It is kept by everything as soon as it is kept
    by the statements that are left: an append to the log, a write of a projection
    row, a mark, and a call to the outside. *)

Section Frame.
Context (R : relation truth) `{!PreOrder R}.
Context (clock : nat → Z) (mint : nat → string).
Context (admits : option (string → outcome bool)) (egress : list outward → published → outcome ()).
Context (reclassify : string → outcome ()) (strict : bool) (tm : Timing).

Context (Hquiet : ∀ w w', quiet w w' → R w w').

Lemma frame_modify f : (∀ w, quiet w (f w)) → keeps R (modify f).
Proof. intros H w. by apply Hquiet, H. Qed.

Lemma frame_now : keeps R (now clock).
Proof. intros w. apply Hquiet. by_quiet. Qed.

Lemma frame_new_ulid : keeps R (new_ulid mint).
Proof. intros w. apply Hquiet. by_quiet. Qed.

Lemma frame_on_findings {A} (m : M (list (FindingRow string)) A) : keeps R (on_truth_findings m).
Proof.
  intros w. unfold on_truth_findings, zoom. destruct (m (tw_findings w)). apply Hquiet. by_quiet.
Qed.

(** A statement that only reads the log, or only reads the projection. *)
Lemma frame_read_log {A} (m : M log A) : keeps eq m → keeps R (on_log m).
Proof.
  intros H w. unfold on_log, zoom. specialize (H (tw_log w)).
  destruct (m (tw_log w)); simpl in *; subst. apply Hquiet. by_quiet.
Qed.

Lemma frame_read_states {A} (m : M shadow A) : keeps eq m → keeps R (on_states m).
Proof.
  intros H w. unfold on_states, zoom. specialize (H (tw_states w)).
  destruct (m (tw_states w)); simpl in *; subst. apply Hquiet. by_quiet.
Qed.

Lemma read_keeps terminal since_seq since kinds limit :
  keeps eq (SqliteEventStore.read terminal since_seq since kinds limit).
Proof. unfold SqliteEventStore.read. keeps_steps. Qed.

Lemma high_water_keeps t : keeps eq (SqliteEventStore.high_water t).
Proof. apply keeps_gets. apply _. Qed.

Lemma get_event_keeps i : keeps eq (SqliteEventStore.get i).
Proof. unfold SqliteEventStore.get. keeps_steps. Qed.

Lemma get_state_keeps t : keeps eq (SqliteStateStore.get t).
Proof. unfold SqliteStateStore.get. keeps_steps. Qed.

Lemma all_terminals_keeps : keeps eq SqliteStateStore.all_terminals.
Proof. unfold SqliteStateStore.all_terminals. keeps_steps. Qed.

Hint Resolve frame_modify frame_now frame_new_ulid frame_on_findings
  frame_read_log frame_read_states read_keeps high_water_keeps get_event_keeps get_state_keeps
  all_terminals_keeps : truth.

Lemma frame_record_finding code t key detail sample :
  keeps R (record_finding clock mint code t key detail sample).
Proof. unfold record_finding. keeps_steps. Qed.

Hint Resolve frame_record_finding : truth.

Lemma frame_on_append e : keeps R (on_append clock mint e).
Proof. unfold on_append. keeps_steps. Qed.

Lemma frame_pane t : keeps R (pane_disagreement clock mint tm t).
Proof. unfold pane_disagreement, pane_evaluate. keeps_steps. Qed.

Lemma frame_producer e s : keeps R (producer_disagreement clock mint e s).
Proof. unfold producer_disagreement, producer_evaluate, forget_episode. keeps_steps. Qed.

Lemma frame_projected t row : keeps R (_projected clock tm t row).
Proof. unfold _projected, _fallback_disabled, _source_healthy. keeps_steps. Qed.

Lemma frame_is_projected t : keeps R (is_projected admits t).
Proof. unfold is_projected. keeps_steps. Qed.

Lemma frame_publish_intent o k : keeps R (_publish_intent o k).
Proof. unfold _publish_intent. keeps_steps. Qed.

Hint Resolve frame_on_append frame_pane frame_producer frame_projected frame_is_projected
  frame_publish_intent : truth.

Lemma frame_is_muted row e : keeps R (_is_muted clock tm row e).
Proof. unfold _is_muted. keeps_steps. Qed.

Lemma frame_load t at_ : keeps R (_load t at_).
Proof. unfold _load. keeps_steps. Qed.

Lemma frame_last_event t seq : keeps R (_last_event t seq).
Proof. unfold _last_event. keeps_steps. Qed.

Lemma frame_note t row e : keeps R (_note_certified_stale clock mint t row e).
Proof. unfold _note_certified_stale, _fallback_disabled. keeps_steps. Qed.

Hint Resolve frame_is_muted frame_load frame_last_event frame_note : truth.

Context (Hout : ∀ x w, R w (send_out x w)).

Lemma frame_deliver i : keeps R (_deliver admits egress i).
Proof.
  assert (∀ x, keeps R (modify (send_out x))) by (intros x w; apply Hout).
  unfold _deliver, publish_transition. keeps_steps.
Qed.

Hint Resolve frame_deliver : truth.

Lemma frame_append d :
  (∀ at_ i, keeps R (on_log (SqliteEventStore.append_in None at_ i d))) →
  keeps R (append clock mint d).
Proof. intros H. unfold append. keeps_steps. Qed.

Context (Happend : ∀ d, keeps R (append clock mint d)).

Lemma frame_decision k e p o : keeps R (_append_decision clock mint k e p o).
Proof. unfold _append_decision. keeps_steps. Qed.

Hint Resolve frame_decision : truth.

Context (Hupsert : ∀ t row, keeps R (upsert t row)).
Context (Hmarks : ∀ x w, R w (set_marks x w)).

Lemma frame_mark t b : keeps R (mark t b).
Proof. intros w. apply Hmarks. Qed.

Lemma frame_forget_mark t : keeps R (forget_mark t).
Proof. intros w. apply Hmarks. Qed.

Hint Resolve frame_mark frame_forget_mark : truth.

Lemma frame_project e : keeps R (project clock mint admits egress strict tm e).
Proof. unfold project, _recover, _transition, _diagonal. keeps_steps. Qed.

Lemma frame_sweep_one at_ t : keeps R (sweep_one clock mint admits egress strict tm at_ t).
Proof. unfold sweep_one, _degrade_no_signal. keeps_steps. Qed.
End Frame.

(** ** Steps and runs *)

Inductive top :=
| TAppend (draft : EventDraft)
| TFold (event_id : string)
| TSweep (at_ : Z) (terminal_id : string)
| TTouch (terminal_id : string) (x : touch)
| TJudge (terminal_id : string)
| TPrune (older_than : Z)
| TSources (r : registry).

Section Run.
Context (clock : nat → Z) (mint : nat → string).
Context (admits : option (string → outcome bool)) (egress : list outward → published → outcome ()).
Context (strict : bool) (tm : Timing).

(** [Projector.project] of the stored event of that id. *)
Definition fold_stored (event_id : string) : M truth () :=
  e ← on_log (SqliteEventStore.get event_id);
  match e with
  | None => mret tt
  | Some e => project clock mint admits egress strict tm e ;; mret tt
  end.

Definition prune_log (older_than : Z) : M truth () := λ w,
  (on_log (SqliteEventStore.prune older_than (tw_findings w)) ;; mret tt) w.

Definition texec (o : top) : M truth () :=
  match o with
  | TAppend draft => append clock mint draft ;; mret tt
  | TFold event_id => fold_stored event_id
  | TSweep at_ t => sweep_one clock mint admits egress strict tm at_ t ;; mret tt
  | TTouch t x => on_states (touched t x)
  | TJudge t => pane_disagreement clock mint tm t ;; mret tt
  | TPrune older_than => prune_log older_than
  | TSources r => modify (set_sources r)
  end.

Definition trun (ops : list top) (w : truth) : truth := foldl (λ w o, (texec o w).1) w ops.

Definition no_prune (o : top) : bool := match o with TPrune _ => false | _ => true end.

(** A run keeps every preorder its steps keep. *)
Lemma trun_keeps (R : relation truth) `{!PreOrder R} (P : top → Prop) ops w :
  (∀ o, P o → keeps R (texec o)) → Forall P ops → R w (trun ops w).
Proof.
  intros H. revert w. induction ops as [|o ops IH]; intros w Hp; [reflexivity|].
  apply Forall_cons in Hp as [Ho Hp]. simpl. etrans; [apply (H o Ho)|by apply IH].
Qed.

Lemma trun_invariant (I : truth → Prop) (P : top → Prop) ops w :
  (∀ o w, P o → I w → I (texec o w).1) → Forall P ops → I w → I (trun ops w).
Proof.
  intros H. revert w. induction ops as [|o ops IH]; intros w Hp Hi; [done|].
  apply Forall_cons in Hp as [Ho Hp]. simpl. apply IH; [done|]. by apply H.
Qed.

Lemma log_rel_quiet (Q : relation log) `{!PreOrder Q} w w' : tw_log w' = tw_log w → log_rel Q w w'.
Proof. intros H. unfold log_rel. by rewrite H. Qed.

Lemma on_log_keeps {A} (Q : relation log) (m : M log A) :
  keeps Q m → keeps (log_rel Q) (on_log m).
Proof.
  intros H w. unfold on_log, zoom, log_rel. specialize (H (tw_log w)).
  by destruct (m (tw_log w)).
Qed.

Lemma on_states_log {A} (Q : relation log) `{!PreOrder Q} (m : M shadow A) :
  keeps (log_rel Q) (on_states m).
Proof. intros w. unfold on_states, zoom. destruct (m (tw_states w)). by apply log_rel_quiet. Qed.

(** Whatever the log's two writers keep, every step of the plane keeps. *)
Lemma texec_log (Q : relation log) `{!PreOrder Q} o :
  (∀ at_ i d, keeps Q (SqliteEventStore.append_in None at_ i d)) →
  (∀ at_ fs, no_prune o = false → keeps Q (SqliteEventStore.prune at_ fs)) →
  keeps (log_rel Q) (texec o).
Proof.
  intros Ha Hp.
  assert (∀ w w', quiet w w' → log_rel Q w w') as Hq by (intros w w' [H _]; by apply log_rel_quiet).
  assert (∀ x w, log_rel Q w (set_marks x w)) as Hm by (intros; by apply log_rel_quiet).
  assert (∀ x w, log_rel Q w (send_out x w)) as Ho by (intros; by apply log_rel_quiet).
  assert (∀ d, keeps (log_rel Q) (append clock mint d)) as Happ.
  { intros d. apply frame_append; [apply _|exact Hq|]. intros at_ i. by apply on_log_keeps. }
  assert (∀ t row, keeps (log_rel Q) (upsert t row)) as Hup by (intros; by apply on_states_log).
  destruct o as [d|i|at_ t|t x|t|older|r]; simpl.
  - apply keeps_bind; [apply _|apply Happ|intros ?; keeps_steps].
  - unfold fold_stored. apply keeps_bind; [apply _| |intros [e|]; [|keeps_steps]].
    + apply frame_read_log; [done|apply get_event_keeps].
    + apply keeps_bind; [apply _| |intros ?; keeps_steps]. by_frame frame_project.
  - apply keeps_bind; [apply _| |intros ?; keeps_steps]. by_frame frame_sweep_one.
  - by apply on_states_log.
  - apply keeps_bind; [apply _| |intros ?; keeps_steps]. by_frame frame_pane.
  - intros w. unfold prune_log. apply keeps_bind; [apply _| |intros ?; keeps_steps].
    apply on_log_keeps. by apply Hp.
  - intros w. by apply log_rel_quiet.
Qed.
End Run.
