(* ===== verification/Fold.v ===== *)
(** * The fold as a function of the row and the event

    [judge] says what one event does to one projection row; [project_exact]
    proves that [Projector.project], with its store, its checks, its marks and
    its publisher, does exactly that to the two tables. *)

From S2P Require Import Prelude Timing Text Ports WorkerStates EventLog StateStore Truth Projector TruthInv.

(** ** What is not the tables *)

Lemma on_log_run {A} (m : M log A) w :
  on_log m w = (set_log (m (tw_log w)).1 w, (m (tw_log w)).2).
Proof. unfold on_log, zoom. by destruct (m (tw_log w)). Qed.

Lemma on_states_run {A} (m : M shadow A) w :
  on_states m w = (set_states (m (tw_states w)).1 w, (m (tw_states w)).2).
Proof. unfold on_states, zoom. by destruct (m (tw_states w)). Qed.

Lemma catch_mret {S A} (m : M S A) (a : A) s : ∃ b, (catch m (λ _, mret a) s).2 = Returned b.
Proof. unfold catch. destruct (m s) as [s' [b|e]]; by eexists. Qed.

(** What a terminal's row reads as, absent rows included. *)
Definition loaded (s : shadow) (t : string) (at_ : Z) : outcome ProjectedState :=
  match s !! t with
  | None => Returned (fresh_state at_)
  | Some r => SqliteStateStore._row_to_projection r
  end.

Lemma get_state_eq s t :
  SqliteStateStore.get t s
  = (s, match s !! t with
        | None => Returned None
        | Some r => match SqliteStateStore._row_to_projection r with
                    | Returned p => Returned (Some p)
                    | Raised e => Raised e
                    end
        end).
Proof.
  unfold SqliteStateStore.get, gets, mbind, M_bind, lift_outcome, mret, M_ret.
  destruct (s !! t) as [r|]; [|done]. by destruct (SqliteStateStore._row_to_projection r).
Qed.

(** ** Who owns a terminal's status *)

Definition healthy_at (tm : Timing) (at_ : Z) (row : ProjectedState) : bool :=
  match st_last_source_probe_at row with
  | None => false
  | Some p => at_ - p <=? seconds (NO_SIGNAL_S tm)
  end.

(** A certified terminal whose source has ever delivered, or one whose
    authoritative source is healthy. *)
Definition owns (tm : Timing) (r : registry) (at_ : Z) (t : string) (row : ProjectedState) : bool :=
  (bool_decide (is_Some (st_last_source_probe_at row)) && StaticSourceRegistry.fallback_disabled t r)
  || (StaticSourceRegistry.is_authoritative t r && healthy_at tm at_ row).

Section Fold.
Context (clock : nat → Z) (mint : nat → string).
Context (admits : option (string → outcome bool)) (egress : list outward → published → outcome ()).
Context (tm : Timing).

Lemma projected_eq t row w :
  ∃ w', _projected clock tm t row w
        = (w', Returned (owns tm (tw_sources w) (clock (tw_ticks w)) t row))
        ∧ (w' = w ∨ w' = tick w).
Proof.
  unfold _projected, owns, healthy_at, _source_healthy, _fallback_disabled, gets, mbind, M_bind,
    mret, M_ret, now.
  destruct (st_last_source_probe_at row) as [p|]; simpl.
  - destruct (StaticSourceRegistry.fallback_disabled t (tw_sources w)); simpl; [by eauto|].
    destruct (StaticSourceRegistry.is_authoritative t (tw_sources w)); simpl; by eauto.
  - destruct (StaticSourceRegistry.is_authoritative t (tw_sources w)); simpl; by eauto.
Qed.

(** Source-level precedence: which events are logged and not applied. *)
Definition mutes (r : registry) (at_ : Z) (row : ProjectedState) (e : WorkerEvent) : bool :=
  bool_decide (ed_confidence (we_draft e) = DERIVED) && negb (derived_always (we_kind e))
  && owns tm r at_ (we_terminal_id e) row.

Lemma is_muted_eq row e w :
  ∃ w', _is_muted clock tm row e w
        = (w', Returned (mutes (tw_sources w) (clock (tw_ticks w)) row e))
        ∧ (w' = w ∨ w' = tick w).
Proof.
  unfold _is_muted, mutes.
  destruct (ed_confidence (we_draft e)); simpl; [by eauto|].
  destruct (derived_always (we_kind e)); simpl; [by eauto|]. apply projected_eq.
Qed.

(** ** The verdict *)

Record verdict := {
  vd_row : ProjectedState;
  vd_rule : string;
  vd_to : option WorkerState;
  vd_class : option TransitionClass;
  vd_decision : option (DecisionKind * payload);
}.

Definition stands (rule : string) (to_state : option WorkerState) (c : option TransitionClass)
    (row : ProjectedState) (e : WorkerEvent) : verdict :=
  {| vd_row := advanced (we_seq e) row; vd_rule := rule; vd_to := to_state; vd_class := c;
     vd_decision := None |}.

Definition class_of (from_state to_state : WorkerState) : TransitionClass :=
  default ALLOWED (dict_get (from_state, to_state) TRANSITIONS).

Definition judge (muted : bool) (row : ProjectedState) (e : WorkerEvent) : verdict :=
  let s := st_state row in
  if muted then stands "derived_muted_by_healthy_source" None None row e
  else if bool_decide (we_kind e = Event PANE_RECOVERED) then
    if bool_decide (s ≠ DEGRADED) then stands "recovery_not_degraded" None None row e
    else
      let target := default IDLE (st_prior_state row) in
      {| vd_row := moved_to target (we_ingested_at e) (we_seq e) None None row;
         vd_rule := "recovered"; vd_to := Some target; vd_class := Some (class_of s target);
         vd_decision := Some (STATUS_RECOVERED, dict
           [("from", PStr (WorkerState_value s)); ("to", PStr (WorkerState_value target));
            ("rule", PStr "recovered");
            ("classification", PStr (TransitionClass_value (class_of s target)));
            ("restored_reason", opt_str DegradedReason_value (st_degraded_reason row))]%string) |}
  else
    match _target e with
    | (None, _) => stands "no_implied_state" None None row e
    | (Some target, reason) =>
      if decide (target = s) then
        match reason with
        | Some r =>
          if bool_decide (target = DEGRADED) && reason_rises (st_degraded_reason row) r
          then {| vd_row := relabelled r (we_seq e) row; vd_rule := "reason_rise";
                  vd_to := Some target; vd_class := Some NO_OP;
                  vd_decision := Some (STATUS_REASON_CHANGED, dict
                    [("from_reason", opt_str DegradedReason_value (st_degraded_reason row));
                     ("to_reason", PStr (DegradedReason_value r));
                     ("rule", PStr "reason_rise")]%string) |}
          else stands "diagonal_noop" (Some target) (Some NO_OP) row e
        | None => stands "diagonal_noop" (Some target) (Some NO_OP) row e
        end
      else
        let degrades := bool_decide (target = DEGRADED) in
        {| vd_row := moved_to target (we_ingested_at e) (we_seq e)
                       (if degrades then reason else None) (if degrades then Some s else None) row;
           vd_rule := "applied"; vd_to := Some target; vd_class := Some (class_of s target);
           vd_decision := Some (STATUS_TRANSITION, dict
             [("from", PStr (WorkerState_value s)); ("to", PStr (WorkerState_value target));
              ("rule", PStr "applied");
              ("classification", PStr (TransitionClass_value (class_of s target)));
              ("degraded_reason", opt_str DegradedReason_value reason)]%string) |}
    end.

Definition verdict_outcome (t : string) (row : ProjectedState) (v : verdict) (id : string)
    : ProjectionOutcome :=
  outcome_of t (vd_rule v) (bool_decide (is_Some (vd_decision v))) (Some (st_state row)) (vd_to v)
    (vd_class v) (if vd_decision v is Some _ then Some id else None).

Lemma validate_class s s' : validate false s s' = Returned (class_of s s').
Proof. by destruct s, s'. Qed.

Lemma class_of_no_op s s' : bool_decide (class_of s s' = NO_OP) = bool_decide (s' = s).
Proof. by destruct s, s'. Qed.

(** ** The pieces of [project] *)

(** The next id the stream mints is one the log does not hold. *)
Definition fresh_id (w : truth) : Prop :=
  mint (tw_minted w) ≠ ""%string ∧ mint (tw_minted w) ∉ er_event_id <$> lg_events (tw_log w).

Lemma append_eq d w :
  log_ok (tw_log w) → draft_ok d = true → ed_event_key d = None → fresh_id w →
  let id := mint (tw_minted w) in
  let at_ := clock (tw_ticks w) in
  ∃ w', append clock mint d w
        = (w', Returned {| we_draft := d; we_event_id := id;
                           we_seq := hw (tw_log w) (ed_terminal_id d) + 1; we_ingested_at := at_ |})
      ∧ tw_log w' = appended d id at_ (tw_log w)
      ∧ tw_states w' = tw_states w ∧ tw_out w' = tw_out w ∧ tw_marks w' = tw_marks w
      ∧ (S (tw_minted w) ≤ tw_minted w')%nat.
Proof.
  intros Hok Hd Hk [Hid Hfresh] id at_.
  pose proof (append_in_eq None at_ id d (tw_log w)) as E.
  unfold replayed in E. rewrite Hk in E. simpl in E.
  rewrite no_clash in E by (try done; unfold replayed; by rewrite Hk).
  rewrite bool_decide_eq_false_2 in E by done.
  unfold make_event in E. pose proof (lo_marks _ Hok (ed_terminal_id d)).
  rewrite Hd, bool_decide_eq_true_2 in E by done.
  rewrite (proj2 (Z.leb_le _ _)) in E by lia. simpl in E.
  set (ev := {| we_draft := d; we_event_id := id; we_seq := _; we_ingested_at := at_ |}) in *.
  set (w1 := set_log (appended d id at_ (tw_log w)) (count_id (tick w))).
  assert (append clock mint d w
          = (catch (on_append clock mint ev) (λ _, mret tt) ;; mret ev) w1) as ->.
  { unfold append. erewrite bind_returned by reflexivity. erewrite bind_returned by reflexivity.
    change (tw_minted (tick w)) with (tw_minted w). fold id at_.
    erewrite bind_returned by (rewrite on_log_run; cbn [tw_log count_id tick]; rewrite E; reflexivity).
    done. }
  destruct (catch_mret (on_append clock mint ev) tt w1) as [[] Hc].
  pose proof (frame_on_append quiet clock mint (λ _ _ H, H) ev) as Hq.
  assert (quiet w1 (catch (on_append clock mint ev) (λ _, mret tt) w1).1) as (H1&H2&H3&H4&_&H5&_).
  { apply keeps_catch; [apply _|exact Hq|]. intros ?. apply keeps_ret. apply _. }
  destruct (catch _ _ w1) as [w2 r] eqn:Ec. simpl in *. subst r.
  exists w2. by erewrite bind_returned by exact Ec.
Qed.

Lemma decision_eq k e p o w :
  log_ok (tw_log w) → we_terminal_id e ≠ ""%string → fresh_id w →
  let id := mint (tw_minted w) in
  ∃ w' at1 at2, _append_decision clock mint k e p o w = (w', Returned id)
    ∧ tw_log w' = appended (decision_draft k e p at1) id at2 (tw_log w)
    ∧ at1 = default (clock (tw_ticks w)) o
    ∧ tw_states w' = tw_states w ∧ tw_out w' = tw_out w ∧ tw_marks w' = tw_marks w
      ∧ (S (tw_minted w) ≤ tw_minted w')%nat.
Proof.
  intros Hok Ht Hf id.
  assert (∀ at1, draft_ok (decision_draft k e p at1) = true) as Hd.
  { intros at1. unfold draft_ok, _check_decision_shape. simpl.
    by rewrite !bool_decide_eq_true_2. }
  destruct o as [at1|].
  - destruct (append_eq (decision_draft k e p at1) w) as (w' & E & H); [done..|].
    exists w', at1, (clock (tw_ticks w)). split; [|tauto].
    unfold _append_decision, make_draft.
    erewrite bind_returned by reflexivity. cbv beta. rewrite Hd.
    erewrite bind_returned by reflexivity. by erewrite bind_returned by exact E.
  - destruct (append_eq (decision_draft k e p (clock (tw_ticks w))) (tick w)) as (w' & E & H);
      [done..|].
    exists w', (clock (tw_ticks w)), (clock (S (tw_ticks w))). split; [|tauto].
    unfold _append_decision, make_draft.
    erewrite bind_returned by reflexivity. cbv beta. rewrite Hd. erewrite bind_returned by reflexivity.
    by erewrite bind_returned by exact E.
Qed.

Lemma upsert_run t row w :
  upsert t row w = (set_states (SqliteStateStore.upsert t row (tw_states w)).1 w, Returned tt).
Proof. unfold upsert. by rewrite on_states_run. Qed.

(** What a verdict leaves in the tables. *)
Definition effect (v : verdict) (e : WorkerEvent) (w w' : truth) : Prop :=
  tw_states w' = (SqliteStateStore.upsert (we_terminal_id e) (vd_row v) (tw_states w)).1 ∧
  tw_out w' = tw_out w ∧ tw_marks w' = tw_marks w ∧
  (tw_minted w + (if vd_decision v is Some _ then 1 else 0) ≤ tw_minted w')%nat ∧
  match vd_decision v with
  | None => tw_log w' = tw_log w
  | Some (k, p) => ∃ at1 at2,
      tw_log w' = appended (decision_draft k e p at1) (mint (tw_minted w)) at2 (tw_log w)
  end.

Lemma write_only v e (o : ProjectionOutcome) w :
  vd_decision v = None →
  ∃ w', (upsert (we_terminal_id e) (vd_row v) ;; mret o) w = (w', Returned o) ∧ effect v e w w'.
Proof.
  intros Hd. eexists. split; [erewrite bind_returned by apply upsert_run; reflexivity|].
  unfold effect. rewrite Hd. by_quiet.
Qed.

Lemma write_and_decide v e k p (o : string → ProjectionOutcome) w :
  vd_decision v = Some (k, p) →
  log_ok (tw_log w) → we_terminal_id e ≠ ""%string → fresh_id w →
  ∃ w', (upsert (we_terminal_id e) (vd_row v) ;;
         id ← _append_decision clock mint k e p None; mret (o id)) w
        = (w', Returned (o (mint (tw_minted w)))) ∧ effect v e w w'.
Proof.
  intros Hd Hok Ht Hf.
  set (w1 := set_states (SqliteStateStore.upsert (we_terminal_id e) (vd_row v) (tw_states w)).1 w).
  destruct (decision_eq k e p None w1) as (w' & at1 & at2 & E & El & _ & Es & Eo & Em & En); [done..|].
  exists w'. split.
  - erewrite bind_returned by apply upsert_run. by erewrite bind_returned by exact E.
  - unfold effect. rewrite Hd. split_and!; [done|done|done| |by exists at1, at2].
    simpl in En. lia.
Qed.

Ltac by_decision :=
  cbv zeta; lazymatch goal with
  | Hok : log_ok _, Ht : _ ≠ ""%string, Hf : fresh_id ?w |-
      ∃ w', _ = (_, Returned (verdict_outcome ?t ?row ?V _)) ∧ effect _ ?e _ _ =>
    destruct (write_and_decide V e _ _ (verdict_outcome t row V) w eq_refl Hok Ht Hf)
      as (w' & E & F); exists w'; split; [exact E|exact F]
  end.

(** The middle of [project]: one rule runs. *)
Lemma rule_eq muted row e w :
  log_ok (tw_log w) → we_terminal_id e ≠ ""%string → fresh_id w →
  let v := judge muted row e in
  ∃ w', (if muted then
           upsert (we_terminal_id e) (advanced (we_seq e) row) ;;
           producer_disagreement clock mint e (st_state row) ;;
           mret (outcome_of (we_terminal_id e) "derived_muted_by_healthy_source" false
                   (Some (st_state row)) None None None)
         else if bool_decide (we_kind e = Event PANE_RECOVERED)
         then _recover clock mint false row e else _transition clock mint false row e) w
        = (w', Returned (verdict_outcome (we_terminal_id e) row v (mint (tw_minted w))))
      ∧ effect v e w w'.
Proof.
  intros Hok Ht Hf. unfold judge. destruct muted.
  { destruct (catch_mret (producer_evaluate clock mint e (st_state row)) false
      (set_states (SqliteStateStore.upsert (we_terminal_id e) (advanced (we_seq e) row) (tw_states w)).1 w))
      as [b Hb].
    pose proof (frame_producer quiet clock mint (λ _ _ H, H) e (st_state row)
      (set_states (SqliteStateStore.upsert (we_terminal_id e) (advanced (we_seq e) row) (tw_states w)).1 w))
      as (Q1 & Q2 & Q3 & Q4 & _ & Q5 & _).
    unfold producer_disagreement in *.
    destruct (catch _ _ _) as [w2 r] eqn:Ec in Hb, Q1, Q2, Q3, Q4, Q5. simpl in *. subst r.
    exists w2. split; [|unfold effect; simpl; split_and!; first [done|lia]].
    erewrite bind_returned by apply upsert_run. by erewrite bind_returned by exact Ec. }
  destruct (bool_decide (we_kind e = Event PANE_RECOVERED)).
  { unfold _recover. case_bool_decide as Hs.
    - by apply (write_only (stands "recovery_not_degraded" None None row e)).
    - rewrite validate_class. erewrite bind_returned by reflexivity. cbv beta zeta.
      by_decision. }
  unfold _transition. destruct (_target e) as [[target|] reason];
    [|by apply (write_only (stands "no_implied_state" None None row e))].
  rewrite validate_class. erewrite bind_returned by reflexivity. cbv beta zeta.
  rewrite class_of_no_op. destruct (decide (target = st_state row)) as [Heq|Hne].
  - rewrite bool_decide_eq_true_2 by done. unfold _diagonal.
    destruct reason as [r|];
      [|by apply (write_only (stands "diagonal_noop" (Some target) (Some NO_OP) row e))].
    destruct (bool_decide (target = DEGRADED) && reason_rises (st_degraded_reason row) r).
    + by_decision.
    + by apply (write_only (stands "diagonal_noop" (Some target) (Some NO_OP) row e)).
  - rewrite bool_decide_eq_false_2 by done. by_decision.
Qed.

(** ** The publication *)

Definition admitted (t : string) : bool :=
  match admits with
  | None => true
  | Some f => match f t with Returned b => b | Raised _ => false end
  end.

(** What the fold publishes for a verdict, the terminal being [owned]. *)
Definition publication (owned_ : bool) (t : string) (kind : option AnyKind) (v : verdict) (id : string)
    : list outward :=
  match vd_decision v with
  | Some _ =>
    if owned_ && admitted t then
      [Published {| pb_terminal_id := t;
                    pb_status := legacy_status (st_state (vd_row v)) kind
                                   (st_degraded_reason (vd_row v));
                    pb_event_id := Some id;
                    pb_worker_state := WorkerState_value (st_state (vd_row v));
                    pb_since := st_since (vd_row v) |}]
    else []
  | None => []
  end.

Lemma is_projected_eq t w :
  is_projected admits t w
  = (w, Returned (default false (tw_marks w !! t) && admitted t)).
Proof.
  unfold is_projected, admitted, gets, mbind, M_bind, mret, M_ret.
  destruct (default false (tw_marks w !! t)); simpl; [|done]. by destruct admits.
Qed.

Lemma deliver_eq i w :
  ∃ w', _deliver admits egress (Some i) w = (w', Returned tt)
    ∧ tw_log w' = tw_log w ∧ tw_states w' = tw_states w ∧ tw_minted w' = tw_minted w
    ∧ tw_marks w' = tw_marks w
    ∧ tw_out w' = tw_out w ++
        (if default false (tw_marks w !! pi_terminal_id i) && admitted (pi_terminal_id i) then
           [Published {| pb_terminal_id := pi_terminal_id i;
                         pb_status := legacy_status (pi_state i) (pi_causing_kind i)
                                        (pi_degraded_reason i);
                         pb_event_id := pi_event_id i;
                         pb_worker_state := WorkerState_value (pi_state i);
                         pb_since := pi_since i |}]
         else []).
Proof.
  unfold _deliver, publish_transition.
  destruct (default false (tw_marks w !! pi_terminal_id i) && admitted (pi_terminal_id i)) eqn:E.
  - eexists. split; [|split_and!]; cycle 1.
    + shelve.
    + shelve.
    + shelve.
    + shelve.
    + shelve.
    + erewrite (bind_returned (is_projected _ _ ≫= _)); [done|].
      erewrite bind_returned by apply is_projected_eq. rewrite E. done.
    Unshelve. all: done.
  - exists w. rewrite app_nil_r. split; [|done].
    erewrite (bind_returned (is_projected _ _ ≫= _)); [done|].
    erewrite bind_returned by apply is_projected_eq. rewrite E. done.
Qed.

(** The row just written reads back, with the probes' columns of the old one. *)
Lemma upserted_reads s t p :
  ∃ q, SqliteStateStore.get t (SqliteStateStore.upsert t p s).1
       = ((SqliteStateStore.upsert t p s).1, Returned (Some q))
     ∧ st_state q = st_state p ∧ st_since q = st_since p
     ∧ st_degraded_reason q = st_degraded_reason p.
Proof.
  rewrite get_state_eq. unfold SqliteStateStore.upsert. rewrite insert_or_lookup.
  destruct (s !! t) as [old|].
  - exists (SqliteStateStore.with_liveness old p).
    assert (∀ r, SqliteStateStore._row_to_projection
              (SqliteStateStore.with_liveness r (SqliteStateStore.projection_row p))
            = Returned (SqliteStateStore.with_liveness r p)) as ->; [|done].
    intros r. pose proof (row_to_projection_row (SqliteStateStore.with_liveness r p)) as H.
    exact H.
  - exists p. by rewrite row_to_projection_row.
Qed.

Lemma set_states_id w : set_states (tw_states w) w = w.
Proof. by destruct w. Qed.

Lemma load_eq t at_ row w :
  loaded (tw_states w) t at_ = Returned row → _load t at_ w = (w, Returned row).
Proof.
  unfold loaded, _load, mbind, M_bind. rewrite on_states_run, get_state_eq. simpl.
  rewrite set_states_id. destruct (tw_states w !! t) as [r|]; [|by intros [= <-]].
  by intros ->.
Qed.

Lemma verdict_to muted row e : is_Some (vd_decision (judge muted row e)) →
  vd_to (judge muted row e) = Some (st_state (vd_row (judge muted row e))).
Proof.
  unfold judge. destruct muted; [by intros []|].
  destruct (bool_decide _). { case_bool_decide; [by intros []|done]. }
  destruct (_target e) as [[target|] reason]; [|by intros []].
  destruct (decide (target = st_state row)) as [->|]; [|done].
  destruct reason as [r|]; [|by intros []].
  destruct (_ && _); [done|by intros []].
Qed.

(** What is published, once the row of the verdict is in the table. *)
Lemma intent_eq t row v kind id s0 w :
  (is_Some (vd_decision v) → vd_to v = Some (st_state (vd_row v))) →
  tw_states w = (SqliteStateStore.upsert t (vd_row v) s0).1 →
  ∃ i, _publish_intent (verdict_outcome t row v id) kind w = (w, Returned i)
    ∧ ∀ w1, ∃ w2, _deliver admits egress i w1 = (w2, Returned tt)
        ∧ tw_log w2 = tw_log w1 ∧ tw_states w2 = tw_states w1 ∧ tw_minted w2 = tw_minted w1
        ∧ tw_marks w2 = tw_marks w1
        ∧ tw_out w2 = tw_out w1 ++ publication (default false (tw_marks w1 !! t)) t kind v id.
Proof.
  intros Hto Es. unfold publication. destruct (vd_decision v) as [d|] eqn:Ed.
  - destruct (upserted_reads s0 t (vd_row v)) as (q & Hq & H1 & H2 & H3).
    assert (SqliteStateStore.get t (tw_states w) = (tw_states w, Returned (Some q))) as Hg
      by (rewrite Es; exact Hq).
    set (i := {| pi_terminal_id := t; pi_state := st_state (vd_row v);
                 pi_causing_kind := kind; pi_degraded_reason := st_degraded_reason q;
                 pi_event_id := Some id; pi_since := st_since q |}).
    exists (Some i). split.
    { unfold _publish_intent, verdict_outcome. simpl. rewrite Ed, Hto by done. simpl.
      erewrite bind_returned by (rewrite on_states_run, Hg; reflexivity). simpl.
      by rewrite set_states_id. }
    intros w1. destruct (deliver_eq i w1) as (w2 & E2 & L2 & S2 & N2 & M2 & O2). exists w2.
    split_and!; [exact E2|done|done|done|done|]. rewrite O2. simpl. by rewrite H2, H3.
  - exists None. split; [unfold _publish_intent, verdict_outcome; simpl; by rewrite Ed|].
    intros w1. exists w1. by rewrite app_nil_r.
Qed.

(** The tail of [project]. *)
Lemma tail_eq e row v o w0 w :
  (is_Some (vd_decision v) → vd_to v = Some (st_state (vd_row v))) →
  o = verdict_outcome (we_terminal_id e) row v (mint (tw_minted w0)) →
  effect v e w0 w →
  ∃ w', (intent ← _publish_intent o (Some (we_kind e));
         pane_disagreement clock mint tm (we_terminal_id e) ;; _deliver admits egress intent ;; mret o) w
        = (w', Returned o)
    ∧ tw_log w' = tw_log w ∧ tw_states w' = tw_states w ∧ (tw_minted w ≤ tw_minted w')%nat
    ∧ tw_out w' = tw_out w ++
        publication (default false (tw_marks w !! we_terminal_id e)) (we_terminal_id e) (Some (we_kind e)) v
          (mint (tw_minted w0)).
Proof.
  intros Hto -> (Es & Eo & Em & _ & _). set (t := we_terminal_id e) in *.
  destruct (catch_mret (pane_evaluate clock mint tm t) false w) as [b Hb].
  pose proof (frame_pane quiet clock mint tm (λ _ _ H, H) t w) as (Q1 & Q2 & Q3 & Q4 & _ & Q5 & _).
  unfold pane_disagreement in *.
  destruct (catch _ _ _) as [w1 r] eqn:Ec in Hb, Q1, Q2, Q3, Q4, Q5. simpl in *. subst r.
  destruct (intent_eq t row v (Some (we_kind e)) (mint (tw_minted w0)) _ w Hto Es) as (i & Ei & Hi).
  destruct (Hi w1) as (w2 & E2 & L2 & S2 & N2 & _ & O2).
  exists w2. split_and!; [|congruence|congruence|lia|by rewrite O2, Q3, Q4].
  erewrite bind_returned by exact Ei. erewrite bind_returned by exact Ec.
  by erewrite bind_returned by exact E2.
Qed.

(** What one fold of an owned or unowned terminal leaves, the muting given. *)
Record folded (row : ProjectedState) (e : WorkerEvent) (k : nat) (w w' : truth) : Prop := {
  fo_states : tw_states w' = (SqliteStateStore.upsert (we_terminal_id e)
    (vd_row (judge (mutes (tw_sources w) (clock k) row e) row e)) (tw_states w)).1;
  fo_log : match vd_decision (judge (mutes (tw_sources w) (clock k) row e) row e) with
           | None => tw_log w' = tw_log w
           | Some (d, p) => ∃ at1 at2, tw_log w'
               = appended (decision_draft d e p at1) (mint (tw_minted w)) at2 (tw_log w)
           end;
  fo_out : tw_out w' = tw_out w ++ publication
    (owns tm (tw_sources w) (clock (tw_ticks w)) (we_terminal_id e) row) (we_terminal_id e)
    (Some (we_kind e)) (judge (mutes (tw_sources w) (clock k) row e) row e) (mint (tw_minted w));
  fo_minted : (tw_minted w + (if vd_decision (judge (mutes (tw_sources w) (clock k) row e) row e)
                              is Some _ then 1 else 0) ≤ tw_minted w')%nat;
}.

Lemma project_run row e w :
  we_decision e = None → we_terminal_id e ≠ ""%string →
  log_ok (tw_log w) → fresh_id w →
  loaded (tw_states w) (we_terminal_id e) (we_ingested_at e) = Returned row →
  ∃ w' k, (tw_ticks w ≤ k ≤ S (tw_ticks w))%nat ∧ folded row e k w w' ∧
    project clock mint admits egress false tm e w
    = (w', Returned (verdict_outcome (we_terminal_id e) row
         (judge (mutes (tw_sources w) (clock k) row e) row e) (mint (tw_minted w)))).
Proof.
  set (t := we_terminal_id e). intros Hdec Ht Hok Hf Hload.
  destruct (projected_eq t row w) as (w1 & E1 & H1).
  set (own := owns tm (tw_sources w) (clock (tw_ticks w)) t row) in *.
  set (w2 := set_marks (<[t := own]> (tw_marks w1)) w1).
  destruct (is_muted_eq row e w2) as (w3 & E3 & H3).
  assert (tw_sources w2 = tw_sources w ∧ tw_log w3 = tw_log w ∧ tw_states w3 = tw_states w
    ∧ tw_out w3 = tw_out w ∧ tw_minted w3 = tw_minted w ∧ tw_marks w3 !! t = Some own)
    as (Hs & Hl3 & Hs3 & Ho3 & Hm3 & Hk3).
  { assert (tw_marks w2 !! t = Some own) as Hmk by apply lookup_insert_eq.
    by destruct H1 as [-> | ->], H3 as [-> | ->]. }
  rewrite Hs in E3. set (k := tw_ticks w2) in *.
  set (muted := mutes (tw_sources w) (clock k) row e) in *.
  destruct (rule_eq muted row e w3) as (w4 & E4 & F4).
  { by rewrite Hl3. } { done. } { unfold fresh_id. by rewrite Hl3, Hm3. }
  pose proof F4 as (Es4 & Eo4 & Em4 & En4 & El4).
  destruct (tail_eq e row (judge muted row e) _ w3 w4 (verdict_to muted row e) eq_refl F4)
    as (w5 & E5 & L5 & S5 & N5 & O5).
  exists w5, k. split_and!.
  - unfold k, w2. by destruct H1 as [-> | ->]; simpl; lia.
  - unfold k, w2. by destruct H1 as [-> | ->]; simpl; lia.
  - split; fold t own k muted.
    + by rewrite S5, Es4, Hs3.
    + rewrite L5. rewrite Hl3, Hm3 in El4. exact El4.
    + rewrite O5, Eo4, Ho3, Em4, Hm3. fold t. by rewrite Hk3.
    + rewrite Hm3 in En4. fold muted in En4. lia.
  - unfold project. rewrite Hdec, bool_decide_eq_false_2 by (by intros []).
    erewrite bind_returned by (by apply load_eq). erewrite bind_returned by exact E1.
    erewrite bind_returned by reflexivity. erewrite bind_returned by exact E3.
    erewrite bind_returned by exact E4. rewrite Hm3 in E5 |- *. exact E5.
Qed.

(** ** The sweep *)

(** The last worker-truth event of [t] from the cursor on, if there is one. *)
Definition heard (l : log) (t : string) (cursor : Z) (o : option WorkerEvent) : Prop :=
  match o with
  | None => cursor <= 0 ∨
      ∀ e, stored e l → we_terminal_id e = t → we_decision e = None → we_seq e < cursor
  | Some e =>
      0 < cursor ∧ stored e l ∧ we_terminal_id e = t ∧ we_decision e = None ∧ cursor <= we_seq e ∧
      ∀ e', stored e' l → we_terminal_id e' = t → we_decision e' = None → we_seq e' <= we_seq e
  end.

Lemma set_log_id w : set_log (tw_log w) w = w.
Proof. by destruct w. Qed.

Lemma stored_seq e l : stored e l → 1 <= we_seq e.
Proof. intros (r & _ & H). apply row_to_event_inv in H. tauto. Qed.

Lemma last_event_eq t cursor w :
  readable (tw_log w) →
  ∃ o, _last_event t cursor w = (w, Returned o) ∧ heard (tw_log w) t cursor o.
Proof.
  intros Hr. unfold _last_event. destruct (cursor <=? 0) eqn:Ec.
  { exists None. split; [done|]. left. lia. }
  destruct (read_terminal t (cursor - 1) (tw_log w) Hr) as (es & E & Hes & Hsorted).
  eexists. split.
  { erewrite bind_returned by (rewrite on_log_run, E; reflexivity). simpl.
    by rewrite set_log_id. }
  assert (∀ e, stored e (tw_log w) → we_terminal_id e = t → cursor <= we_seq e → e ∈ es) as Hin.
  { intros e Hs Ht Hc. apply Hes. split_and!; [done|done|right; lia]. }
  assert (Sorted Z.le (we_seq <$> filter (λ e, we_decision e = None) es)) as Hs.
  { apply StronglySorted_Sorted. apply Sorted_StronglySorted in Hsorted; [|intros ???; lia].
    eapply StronglySorted_sublist; [|exact Hsorted]. apply fmap_sublist, sublist_filter. }
  destruct (last (filter _ es)) as [e|] eqn:El; simpl.
  - pose proof (last_Some_elem_of _ _ El) as [Hd He]%list_elem_of_filter.
    apply Hes in He as (Hst & Ht & Hc).
    assert (cursor <= we_seq e) by (pose proof (stored_seq e _ Hst); lia).
    split_and!; [lia|done|done|done|done|].
    intros e' Hs' Ht' Hd'. destruct (Z.le_gt_cases cursor (we_seq e')) as [Hc'|]; [|lia].
    eapply Sorted_last_max; [exact Hs|by rewrite fmap_last, El|].
    apply list_elem_of_fmap_2, list_elem_of_filter. split; [done|by apply Hin].
  - right. apply last_None in El. intros e Hst Ht Hd.
    destruct (Z.le_gt_cases cursor (we_seq e)) as [Hc|]; [|lia].
    assert (e ∈ filter (λ e, we_decision e = None) es) as Hf
      by (apply list_elem_of_filter; split; [done|by apply Hin]).
    rewrite El in Hf. by apply not_elem_of_nil in Hf.
Qed.

Definition silence (row : ProjectedState) (last_event : WorkerEvent) (at_ : Z) : verdict := {|
  vd_row := moved_to DEGRADED at_ (st_last_event_seq row) (Some NO_SIGNAL)
              (Some (st_state row)) row;
  vd_rule := "no_signal_sweep"; vd_to := Some DEGRADED;
  vd_class := Some (class_of (st_state row) DEGRADED);
  vd_decision := Some (STATUS_TRANSITION, dict
    [("from", PStr (WorkerState_value (st_state row))); ("to", PStr (WorkerState_value DEGRADED));
     ("rule", PStr "no_signal_sweep");
     ("classification", PStr (TransitionClass_value (class_of (st_state row) DEGRADED)));
     ("degraded_reason", PStr (DegradedReason_value NO_SIGNAL));
     ("silent_since", PStr (isoformat (we_ingested_at last_event)))]%string) |}.

(** Which rule one terminal's turn of a sweep comes to. *)
Inductive turn :=
| Untouched
| Reconfirmed
| Silenced (last_event : WorkerEvent).

Definition sweep_turn (row : ProjectedState) (at_ : Z) (o : option WorkerEvent) : turn :=
  if bool_decide (st_state row = EXITED) then Untouched
  else if at_ - _last_signal row <=? seconds (NO_SIGNAL_S tm) then Untouched
  else match o with
       | None => Untouched
       | Some e => if bool_decide (st_state row = DEGRADED) then Reconfirmed else Silenced e
       end.

Lemma note_quiet t row e w :
  ∃ w', _note_certified_stale clock mint t row e w = (w', Returned tt) ∧ quiet w w'.
Proof.
  pose proof (frame_note quiet clock mint (λ _ _ H, H) t row e w) as Hq.
  assert (∃ u, (_note_certified_stale clock mint t row e w).2 = Returned u) as [[] Hu].
  { unfold _note_certified_stale. destruct (st_last_source_probe_at row); [|by eexists].
    erewrite bind_returned by reflexivity. destruct (negb _); [by eexists|]. apply catch_mret. }
  destruct (_note_certified_stale _ _ _ _ _ _) as [w' r]. simpl in *. subst. eauto.
Qed.

(** What one turn leaves. *)
Record swept (row : ProjectedState) (t : string) (at_ : Z) (x : turn) (w w' : truth)
    (r : option ProjectionOutcome) : Prop := {
  sw_mark : tw_marks w' !! t = Some (owns tm (tw_sources w) (clock (tw_ticks w)) t row);
  sw_states : tw_states w'
    = match x with
      | Silenced e => (SqliteStateStore.upsert t (vd_row (silence row e at_)) (tw_states w)).1
      | _ => tw_states w
      end;
  sw_log : match x with
           | Silenced e => ∃ p at2, vd_decision (silence row e at_) = Some (STATUS_TRANSITION, p) ∧
               tw_log w' = appended (decision_draft STATUS_TRANSITION e p at_)
                             (mint (tw_minted w)) at2 (tw_log w)
           | _ => tw_log w' = tw_log w
           end;
  sw_out : tw_out w' = tw_out w ++
    match x with
    | Silenced e => publication (owns tm (tw_sources w) (clock (tw_ticks w)) t row) t None
                      (silence row e at_) (mint (tw_minted w))
    | _ => []
    end;
  sw_result : r = match x with
                  | Untouched => None
                  | Reconfirmed => Some (outcome_of t "no_signal_already_degraded" false
                                           (Some DEGRADED) (Some DEGRADED) (Some NO_OP) None)
                  | Silenced e => Some (verdict_outcome t row (silence row e at_)
                                          (mint (tw_minted w)))
                  end;
  sw_minted : (tw_minted w + (if x is Silenced _ then 1 else 0) ≤ tw_minted w')%nat;
}.

Lemma sweep_run row stored_row at_ t w :
  t ≠ ""%string → log_ok (tw_log w) → readable (tw_log w) → fresh_id w →
  tw_states w !! t = Some stored_row → SqliteStateStore._row_to_projection stored_row = Returned row →
  (st_state row = DEGRADED → is_Some (st_degraded_reason row)) →
  ∃ w' r o, sweep_one clock mint admits egress false tm at_ t w = (w', Returned r)
    ∧ heard (tw_log w) t (st_last_event_seq row) o
    ∧ swept row t at_ (sweep_turn row at_ o) w w' r.
Proof.
  intros Ht Hok Hr Hf Hrow Hread Hdeg.
  destruct (projected_eq t row w) as (w1 & E1 & H1).
  set (own := owns tm (tw_sources w) (clock (tw_ticks w)) t row) in *.
  set (w2 := set_marks (<[t := own]> (tw_marks w1)) w1).
  assert (tw_log w2 = tw_log w ∧ tw_states w2 = tw_states w ∧ tw_out w2 = tw_out w
    ∧ tw_minted w2 = tw_minted w ∧ tw_marks w2 !! t = Some own) as (L2 & S2 & O2 & N2 & M2).
  { assert (tw_marks w2 !! t = Some own) by apply lookup_insert_eq.
    by destruct H1 as [-> | ->]. }
  destruct (last_event_eq t (st_last_event_seq row) w2) as (o & Eo & Ho); [by rewrite L2|].
  rewrite L2 in Ho.
  assert (∀ R (K : _ → M truth R), (row' ← on_states (SqliteStateStore.get t); K row') w = K (Some row) w) as Hget.
  { intros R K. erewrite bind_returned.
    2:{ rewrite on_states_run, get_state_eq, Hrow, Hread. reflexivity. }
    simpl. by rewrite set_states_id. }
  unfold sweep_one. rewrite Hget. erewrite bind_returned by exact E1.
  erewrite bind_returned by reflexivity. fold w2. clearbody w2. unfold sweep_turn.
  destruct (bool_decide (st_state row = EXITED)).
  { exists w2, None, o. split_and!; [done|done|]. split; simpl; rewrite ?app_nil_r; try done. lia. }
  destruct (at_ - _last_signal row <=? seconds (NO_SIGNAL_S tm)).
  { exists w2, None, o. split_and!; [done|done|]. split; simpl; rewrite ?app_nil_r; try done. lia. }
  erewrite bind_returned by exact Eo. destruct o as [e|]; cycle 1.
  { exists w2, None, None. split_and!; [done|done|]. split; simpl; rewrite ?app_nil_r; try done. lia. }
  unfold _degrade_no_signal. case_bool_decide as Hd; simpl.
  - destruct (Hdeg Hd) as [reason Hreason]. rewrite Hreason, no_signal_never_rises. simpl.
    set (w3 := set_states (SqliteStateStore.upsert t row (tw_states w2)).1 w2).
    assert (tw_states w3 = tw_states w) as S3.
    { change (tw_states w3) with (SqliteStateStore.upsert t row (tw_states w2)).1.
      rewrite S2. by eapply upsert_same. }
    destruct (note_quiet t row e w3) as (w4 & E4 & L4 & S4 & O4 & M4 & _ & N4 & _).
    eexists w4, _, (Some e). split_and!; [|done|].
    + erewrite bind_returned.
      2:{ erewrite bind_returned by apply upsert_run. by erewrite bind_returned by exact E4. }
      erewrite bind_returned by reflexivity. by erewrite bind_returned by reflexivity.
    + change (tw_minted w3) with (tw_minted w2) in N4. split; simpl; rewrite ?app_nil_r;
        [by rewrite M4|by rewrite S4|by rewrite L4|by rewrite O4|by rewrite Hd|lia].
  - rewrite validate_class.
    set (w3 := set_states (SqliteStateStore.upsert t (vd_row (silence row e at_)) (tw_states w2)).1 w2).
    destruct Ho as (Hc & Hst & Hte & Hde & Hseq & Hmax).
    destruct (decision_eq STATUS_TRANSITION e (dict
      [("from", PStr (WorkerState_value (st_state row))); ("to", PStr (WorkerState_value DEGRADED));
       ("rule", PStr "no_signal_sweep");
       ("classification", PStr (TransitionClass_value (class_of (st_state row) DEGRADED)));
       ("degraded_reason", PStr (DegradedReason_value NO_SIGNAL));
       ("silent_since", PStr (isoformat (we_ingested_at e)))]%string) (Some at_) w3)
      as (w4 & at1 & at2 & E4 & L4 & -> & S4 & O4 & M4 & N4).
    { change (tw_log w3) with (tw_log w2). by rewrite L2. } { by rewrite Hte. }
    { unfold fresh_id. change (tw_log w3) with (tw_log w2). change (tw_minted w3) with (tw_minted w2).
      by rewrite L2, N2. }
    destruct (note_quiet t row e w4) as (w5 & E5 & L5 & S5 & O5 & M5 & _ & N5 & _).
    change (tw_minted w3) with (tw_minted w2) in *. change (tw_log w3) with (tw_log w2) in L4.
    change (tw_marks w3) with (tw_marks w2) in M4. change (tw_out w3) with (tw_out w2) in O4.
    rewrite N2 in E4, L4. set (v := silence row e at_). set (id := mint (tw_minted w)) in *.
    assert (tw_states w5 = (SqliteStateStore.upsert t (vd_row v) (tw_states w)).1) as Ss5.
    { rewrite S5, S4. unfold w3. by rewrite S2. }
    destruct (intent_eq t row v None id _ w5 (λ _, eq_refl) Ss5) as (i & Ei & Hi).
    destruct (Hi w5) as (w6 & E6 & L6 & S6 & N6 & M6 & O6).
    assert (tw_marks w5 !! t = Some own) as Mk by (by rewrite M5, M4).
    eexists w6, _, (Some e). split_and!; [|by split_and!|].
    + erewrite bind_returned.
      2:{ erewrite bind_returned by reflexivity. cbv beta.
          erewrite bind_returned by (rewrite upsert_run; reflexivity).
          erewrite bind_returned by exact E4. by erewrite bind_returned by exact E5. }
      erewrite bind_returned by exact Ei. by erewrite bind_returned by exact E6.
    + split; simpl.
      * by rewrite M6.
      * by rewrite S6, Ss5.
      * eexists _, at2. split; [done|]. rewrite L6, L5, L4, L2. done.
      * rewrite O6, O5, O4, O2, Mk. done.
      * done.
      * lia.
Qed.
End Fold.
