(* ===== verification/TruthThms.v ===== *)
(** * What the worker-truth plane guarantees, over any run of its threads

    The log's sequences, the worker's life, who publishes, and what a published
    status can be traced to. *)

From S2P Require Import Prelude Timing Text Ports WorkerStates EventLog StateStore Truth Projector TruthInv Fold.
Import SqliteEventStore.

(** ** The life of a worker: the abstract specification *)

(** What a row says of its worker: a state, or degraded for a reason with the
    state to come back to. *)
Inductive life := Up (s : WorkerState) | Down (reason : DegradedReason) (prior : WorkerState).

Definition shape (p : ProjectedState) : Prop :=
  match st_state p with
  | DEGRADED => is_Some (st_degraded_reason p) ∧ ∃ q, st_prior_state p = Some q ∧ q ≠ DEGRADED
  | _ => st_degraded_reason p = None ∧ st_prior_state p = None
  end.

Definition life_of (p : ProjectedState) : life :=
  match st_state p, st_degraded_reason p, st_prior_state p with
  | DEGRADED, Some r, Some q => Down r q
  | s, _, _ => Up s
  end.

(** One step of a worker's life, with the instant since which it stands. *)
Inductive wstep : life * Z → life * Z → Prop :=
| ws_stay x : wstep x x
| ws_move s s' a b : s ≠ s' → wstep (Up s, a) (Up s', b)
| ws_fall s r a b : wstep (Up s, a) (Down r s, b)
| ws_rise r r' q a : DEGRADED_REASON_RANK r < DEGRADED_REASON_RANK r' →
    wstep (Down r q, a) (Down r' q, a)
| ws_leave r q s a b : wstep (Down r q, a) (Up s, b).

Definition stands_at (p : ProjectedState) : life * Z := (life_of p, st_since p).

Lemma shape_cases p :
  shape p →
  (st_state p ≠ DEGRADED ∧ st_degraded_reason p = None ∧ st_prior_state p = None
   ∧ life_of p = Up (st_state p))
  ∨ ∃ r q, st_state p = DEGRADED ∧ st_degraded_reason p = Some r ∧ st_prior_state p = Some q
     ∧ q ≠ DEGRADED ∧ life_of p = Down r q.
Proof.
  unfold shape, life_of. destruct (st_state p) eqn:E; intros H; try (by left; destruct H).
  right. destruct H as [[r Hr] (q & Hq & Hne)]. rewrite Hr, Hq. eauto 10.
Qed.

Lemma life_advanced seq p : shape p → shape (advanced seq p) ∧ stands_at (advanced seq p) = stands_at p.
Proof. by unfold shape, stands_at, life_of, advanced. Qed.

Lemma moved_up s since seq p : s ≠ DEGRADED →
  shape (moved_to s since seq None None p) ∧ stands_at (moved_to s since seq None None p) = (Up s, since).
Proof. intros H. unfold shape, stands_at, life_of. by destruct s. Qed.

Lemma moved_down r q since seq p : q ≠ DEGRADED →
  shape (moved_to DEGRADED since seq (Some r) (Some q) p)
  ∧ stands_at (moved_to DEGRADED since seq (Some r) (Some q) p) = (Down r q, since).
Proof. intros H. unfold shape, stands_at, life_of. simpl. eauto 10. Qed.

Lemma target_reason e target reason :
  _target e = (Some target, reason) → (target = DEGRADED ↔ is_Some reason).
Proof.
  assert (∀ s p, answered_state p = Some s → s ≠ DEGRADED) as Hans.
  { intros s p. unfold answered_state. destruct (payload_str _ _); [|done].
    destruct (legacy_state _); [|done]. case_bool_decide as H; [|done]. intros [= <-] ->.
    unfold ANSWERED_STATES in H. apply elem_of_cons in H as [?|H]; [done|].
    by apply list_elem_of_singleton in H. }
  unfold _target. destruct (bool_decide (we_kind e = Event STATUS_LEGACY_PUBLISHED)).
  { destruct (payload_str _ _); [|done]. case_bool_decide as Hd; intros [= E <-].
    - rewrite E in Hd. by injection Hd as ->.
    - split; [intros ->; by rewrite E in Hd|by intros []]. }
  assert (∀ t r, (if bool_decide (implied_state (we_kind e) ≠ Some DEGRADED)
      then (implied_state (we_kind e), None)
      else match _payload_reason e with
           | Some override => (implied_state (we_kind e), Some override)
           | None => if bool_decide (we_kind e = Event PANE_MISSING)
                     then (implied_state (we_kind e), Some PANE_MISSING_REASON)
                     else (implied_state (we_kind e), Some RENDER_UNCERTAIN)
           end) = (Some t, r) → (t = DEGRADED ↔ is_Some r)) as Hk.
  { intros t r. case_bool_decide as Hd.
    - intros [= E <-]. split; [intros ->; by rewrite E in Hd|by intros []].
    - rewrite Hd.
      destruct (_payload_reason e); [|case_bool_decide]; by intros [= <- <-]. }
  destruct (bool_decide (we_kind e = Event PROMPT_ANSWERED)); [|apply Hk].
  destruct (answered_state (we_payload e)) as [s|] eqn:E; [|apply Hk].
  intros [= <- <-]. split; [intros ->; by apply Hans in E|by intros []].
Qed.

(** Every verdict is one step of the life, whatever the event. *)
Lemma judge_wstep muted row e :
  shape row →
  let p := vd_row (judge muted row e) in shape p ∧ wstep (stands_at row) (stands_at p).
Proof.
  intros Hs p. pose proof (life_advanced (we_seq e) row Hs) as [Ha1 Ha2].
  assert (shape (advanced (we_seq e) row) ∧ wstep (stands_at row) (stands_at (advanced (we_seq e) row)))
    as Hstay by (rewrite Ha2; split; [done|constructor]).
  unfold p, judge. destruct muted; [exact Hstay|].
  destruct (bool_decide (we_kind e = Event PANE_RECOVERED)).
  { case_bool_decide as Hd; [exact Hstay|]. simpl.
    destruct (shape_cases row Hs) as [[? _]|(r & q & _ & _ & -> & Hq & Hl)]; [done|]. simpl.
    destruct (moved_up q (we_ingested_at e) (we_seq e) row Hq) as [H1 H2]. split; [done|].
    rewrite H2. unfold stands_at. rewrite Hl. constructor. }
  destruct (_target e) as [[target|] reason] eqn:Et; [|exact Hstay].
  pose proof (target_reason e target reason Et) as Hr.
  destruct (decide (target = st_state row)) as [Heq|Hne].
  - destruct reason as [r|]; [|exact Hstay].
    destruct (bool_decide (target = DEGRADED) && reason_rises (st_degraded_reason row) r) eqn:Er;
      [|exact Hstay]. simpl.
    apply andb_true_iff in Er as [Ht%bool_decide_eq_true Hrise].
    destruct (shape_cases row Hs) as [[? _]|(r0 & q & Hst & Hr0 & Hq0 & Hq & Hl)]; [congruence|].
    rewrite Hr0 in Hrise. simpl in Hrise. apply Z.ltb_lt in Hrise.
    unfold relabelled. rewrite Hst, Hq0. destruct (moved_down r q (st_since row) (we_seq e) row Hq) as [H1 H2].
    split; [done|]. rewrite H2. unfold stands_at. rewrite Hl. by constructor.
  - simpl. case_bool_decide as Ht.
    + destruct reason as [r|]; [|by destruct Hr as [[] _]].
      destruct (shape_cases row Hs) as [(Hst & _ & _ & Hl)|(? & ? & ? & _)]; [|congruence].
      subst target. destruct (moved_down r (st_state row) (we_ingested_at e) (we_seq e) row Hst) as [H1 H2].
      split; [done|]. rewrite H2. unfold stands_at. rewrite Hl. constructor.
    + destruct (moved_up target (we_ingested_at e) (we_seq e) row Ht) as [H1 H2].
      split; [done|]. rewrite H2. unfold stands_at.
      destruct (shape_cases row Hs) as [(_ & _ & _ & ->)|(? & ? & _ & _ & _ & _ & ->)]; by constructor.
Qed.

Lemma silence_wstep row e at_ :
  shape row → st_state row ≠ DEGRADED →
  let p := vd_row (silence row e at_) in shape p ∧ wstep (stands_at row) (stands_at p).
Proof.
  intros Hs Hd. simpl.
  destruct (moved_down NO_SIGNAL (st_state row) at_ (st_last_event_seq row) row Hd) as [H1 H2].
  split; [done|]. rewrite H2. unfold stands_at.
  destruct (shape_cases row Hs) as [(_ & _ & _ & ->)|(? & ? & ? & _)]; [constructor|done].
Qed.

(** ** The plane's invariant *)

Section Plane.
Context (clock : nat → Z) (mint : nat → string).
Context (admits : option (string → outcome bool)) (egress : list outward → published → outcome ()).
Context (tm : Timing).

(** Ids are distinct and not empty: [Ulid.ulids_increase] is why. *)
Context (Hmint : ∀ n, mint n ≠ ""%string) (Hdistinct : ∀ n m, mint n = mint m → n = m).

Record states_ok (s : shadow) : Prop := {
  so_rows : ∀ t r, s !! t = Some r →
    ∃ p, SqliteStateStore._row_to_projection r = Returned p ∧ shape p;
  so_keys : s !! ""%string = None;
}.

Record plane_ok (w : truth) : Prop := {
  pk_log : log_ok (tw_log w);
  pk_readable : readable (tw_log w);
  pk_ids : ∀ r, r ∈ lg_events (tw_log w) → ∃ n, (n < tw_minted w)%nat ∧ er_event_id r = mint n;
  pk_states : states_ok (tw_states w);
}.

Lemma plane_fresh w : plane_ok w → fresh_id mint w.
Proof.
  intros Hw. split; [apply Hmint|]. intros (r & E & Hr)%list_elem_of_fmap.
  destruct (pk_ids w Hw r Hr) as (n & Hn & Er). rewrite Er in E. apply Hdistinct in E. lia.
Qed.

Lemma plane_ok_quiet w w' :
  plane_ok w → tw_log w' = tw_log w → states_ok (tw_states w') →
  (tw_minted w ≤ tw_minted w')%nat → plane_ok w'.
Proof.
  intros [H1 H2 H3 H4] El Hs Hn. split; rewrite ?El; try done.
  intros r Hr. destruct (H3 r Hr) as (n & ? & ?). exists n. split; [lia|done].
Qed.

Lemma plane_ok_appended d at_ w w' :
  plane_ok w → draft_ok d = true → replayed d (tw_log w) = None →
  tw_log w' = appended d (mint (tw_minted w)) at_ (tw_log w) →
  states_ok (tw_states w') → (S (tw_minted w) ≤ tw_minted w')%nat → plane_ok w'.
Proof.
  intros Hw Hd Hrep El Hs Hn. pose proof (plane_fresh w Hw) as [Hid Hfresh].
  destruct Hw as [H1 H2 H3 H4]. split; rewrite ?El; try done.
  - by apply log_ok_appended.
  - intros r [Hr|Hr]%elem_of_app; [by apply H2|]. apply list_elem_of_singleton in Hr as ->.
    rewrite row_to_event_row. unfold make_event. pose proof (lo_marks _ H1 (ed_terminal_id d)).
    rewrite Hd, bool_decide_eq_true_2, (proj2 (Z.leb_le _ _)) by (done || lia). by eexists.
  - intros r [Hr|Hr]%elem_of_app.
    + destruct (H3 r Hr) as (n & ? & ?). exists n. split; [lia|done].
    + apply list_elem_of_singleton in Hr as ->. exists (tw_minted w). split; [lia|done].
Qed.

(** What a row reads as afterwards: one step on. *)
Definition states_step (s s' : shadow) : Prop := ∀ t,
  match s !! t, s' !! t with
  | Some r, Some r' => ∃ p p', SqliteStateStore._row_to_projection r = Returned p ∧
      SqliteStateStore._row_to_projection r' = Returned p' ∧ wstep (stands_at p) (stands_at p')
  | None, Some r' => ∃ p' since, SqliteStateStore._row_to_projection r' = Returned p' ∧
      wstep (Up STARTING, since) (stands_at p')
  | Some _, None => False
  | None, None => True
  end.

Lemma states_step_refl s : states_ok s → states_step s s.
Proof.
  intros Hs t. destruct (s !! t) as [r|] eqn:E; [|done].
  destruct (so_rows s Hs t r E) as (p & Hp & _). exists p, p. split_and!; [done|done|constructor].
Qed.

(** Rows agreeing on the projector's columns stand at one point of the life. *)
Lemma owned_stands r p q :
  SqliteStateStore._row_to_projection r = Returned q → owned r = owned (SqliteStateStore.projection_row p) →
  stands_at q = stands_at p ∧ (shape p → shape q).
Proof.
  intros H%projection_row_of Ho. subst r. unfold owned, SqliteStateStore.projection_row in Ho.
  simpl in Ho. injection Ho as H1 H2 _ H3 H4.
  assert (st_state q = st_state p) as E1.
  { apply (f_equal WorkerState_of) in H1. rewrite !WorkerState_of_value in H1. congruence. }
  assert (st_degraded_reason q = st_degraded_reason p) as E2.
  { apply (f_equal (fmap DegradedReason_of)) in H3. rewrite <- !option_fmap_compose in H3.
    destruct (st_degraded_reason q), (st_degraded_reason p); simpl in H3; try done.
    rewrite !DegradedReason_of_value in H3. congruence. }
  assert (st_prior_state q = st_prior_state p) as E3.
  { apply (f_equal (fmap WorkerState_of)) in H4. rewrite <- !option_fmap_compose in H4.
    destruct (st_prior_state q), (st_prior_state p); simpl in H4; try done.
    rewrite !WorkerState_of_value in H4. congruence. }
  unfold stands_at, life_of, shape. by rewrite E1, E2, E3, H2.
Qed.

Lemma upsert_reads t p s :
  ∃ q, (∃ r, (SqliteStateStore.upsert t p s).1 !! t = Some r ∧
             SqliteStateStore._row_to_projection r = Returned q) ∧
       stands_at q = stands_at p ∧ (shape p → shape q).
Proof.
  destruct (upserted_reads s t p) as (q & Hq & _). rewrite get_state_eq in Hq.
  destruct ((SqliteStateStore.upsert t p s).1 !! t) as [r|] eqn:E; [|done].
  destruct (SqliteStateStore._row_to_projection r) as [q'|] eqn:Er; [|done].
  injection Hq as ->. exists q. split; [by exists r|]. apply (owned_stands r); [done|].
  unfold SqliteStateStore.upsert in E. rewrite insert_or_lookup in E. injection E as <-.
  by destruct (s !! t).
Qed.

(** A write of one row that is one step on from what was there. *)
Lemma upsert_step t p s (from : life * Z) :
  states_ok s → t ≠ ""%string → shape p → wstep from (stands_at p) →
  match s !! t with
  | Some r => ∃ q, SqliteStateStore._row_to_projection r = Returned q ∧ from = stands_at q
  | None => from.1 = Up STARTING
  end →
  states_ok (SqliteStateStore.upsert t p s).1 ∧ states_step s (SqliteStateStore.upsert t p s).1.
Proof.
  intros Hs Ht Hp Hstep Hfrom.
  destruct (upsert_reads t p s) as (q & (r & Hr & Hq) & Hst & Hsh).
  assert (∀ t', t ≠ t' → (SqliteStateStore.upsert t p s).1 !! t' = s !! t') as Hother
    by (intros; by apply insert_or_other).
  split; [split|].
  - intros t' r' Hr'. destruct (decide (t = t')) as [<-|Hne].
    + rewrite Hr in Hr'. injection Hr' as <-. eauto.
    + rewrite Hother in Hr' by done. by apply (so_rows s Hs) in Hr'.
  - rewrite Hother by done. apply (so_keys s Hs).
  - intros t'. destruct (decide (t = t')) as [<-|Hne].
    + rewrite Hr. destruct (s !! t) as [r0|].
      * destruct Hfrom as (q0 & Hq0 & ->). exists q0, q. by rewrite Hst.
      * destruct from as [x since]. simpl in Hfrom. subst x. exists q, since. by rewrite Hst.
    + rewrite Hother by done. apply states_step_refl, Hs.
Qed.

(** The row a probe of an unknown terminal leaves, as the model object. *)
Definition first_sight (x : touch) : ProjectedState :=
  match x with
  | Probed a present pid miss => {|
      st_state := STARTING; st_since := a; st_last_event_seq := 0; st_degraded_reason := None;
      st_prior_state := None; st_last_probe_at := Some a; st_last_source_probe_at := None;
      st_pane_pid := pid; st_pane_present := present; st_miss_count := miss |}
  | SourceProbed a => {|
      st_state := STARTING; st_since := a; st_last_event_seq := 0; st_degraded_reason := None;
      st_prior_state := None; st_last_probe_at := None; st_last_source_probe_at := Some a;
      st_pane_pid := None; st_pane_present := false; st_miss_count := 0 |}
  end.

Lemma touched_step t x s : states_ok s → t ≠ ""%string →
  states_ok (touched t x s).1 ∧ states_step s (touched t x s).1.
Proof.
  intros Hs Ht.
  assert (∀ t', t ≠ t' → (touched t x s).1 !! t' = s !! t') as Hother
    by (intros; destruct x; by apply insert_or_other).
  destruct (s !! t) as [r|] eqn:E.
  - destruct (so_rows s Hs t r E) as (p & Hp & Hshape).
    assert (∃ r', (touched t x s).1 !! t = Some r' ∧ owned r' = owned r) as (r' & Hr' & Ho).
    { destruct x; eexists; (split; [apply insert_or_lookup|]); by rewrite E. }
    assert (∃ q, SqliteStateStore._row_to_projection r' = Returned q) as [q Hq].
    { unfold owned in Ho. injection Ho as H1 H2 H3 H4 H5.
      unfold SqliteStateStore._row_to_projection in Hp |- *. rewrite H1, H4, H5.
      destruct (WorkerState_of _); [|done].
      destruct (SqliteStateStore.optional DegradedReason_of _); [|done].
      destruct (SqliteStateStore.optional WorkerState_of _); [|done]. by eexists. }
    destruct (owned_stands r' p q Hq) as [Hst Hsh].
    { rewrite Ho. by rewrite (projection_row_of r p Hp). }
    split; [split|].
    + intros t' r0 Hr0. destruct (decide (t = t')) as [<-|Hne].
      * rewrite Hr' in Hr0. injection Hr0 as <-. eauto.
      * rewrite Hother in Hr0 by done. by apply (so_rows s Hs) in Hr0.
    + rewrite Hother by done. apply (so_keys s Hs).
    + intros t'. destruct (decide (t = t')) as [<-|Hne].
      * rewrite E, Hr'. exists p, q. rewrite Hst. split_and!; [done|done|constructor].
      * rewrite Hother by done. apply states_step_refl, Hs.
  - set (at_ := match x with Probed a _ _ _ => a | SourceProbed a => a end).
    set (p := first_sight x).
    assert ((touched t x s).1 = (SqliteStateStore.upsert t p s).1) as ->.
    { destruct x; simpl; by rewrite E. }
    apply (upsert_step t p s (Up STARTING, at_)); [done|done|by destruct x| |by rewrite E].
    destruct x; constructor.
Qed.

(** What a producer may append, and which terminals a probe may touch. *)
Definition op_ok (o : top) : Prop :=
  match o with
  | TAppend d => draft_ok d = true
  | TTouch t _ => t ≠ ""%string
  | _ => True
  end.

Lemma append_run d w :
  plane_ok w → draft_ok d = true →
  ∃ w' e, append clock mint d w = (w', Returned e) ∧ plane_ok w'
    ∧ tw_states w' = tw_states w ∧ tw_out w' = tw_out w ∧ tw_marks w' = tw_marks w
    ∧ (∃ r, r ∈ lg_events (tw_log w') ∧ _row_to_event r = Returned e)
    ∧ match replayed d (tw_log w) with
      | Some r => _row_to_event r = Returned e ∧ tw_log w' = tw_log w
      | None => ∃ at_, tw_log w' = appended d (mint (tw_minted w)) at_ (tw_log w)
      end.
Proof.
  intros Hw Hd. pose proof (plane_fresh w Hw) as [Hid Hfresh].
  set (id := mint (tw_minted w)) in *. set (at_ := clock (tw_ticks w)).
  pose proof (append_in_eq None at_ id d (tw_log w)) as E.
  destruct (replayed d (tw_log w)) as [r|] eqn:Hrep.
  - pose proof (replayed_Some d _ r Hrep) as [Hr _].
    destruct (pk_readable w Hw r Hr) as [e He]. rewrite He in E.
    set (w1 := set_log (tw_log w) (count_id (tick w))).
    exists w1, e. split_and!; [| |done|done|done|by exists r|done|done].
    + unfold append. erewrite bind_returned by reflexivity. erewrite bind_returned by reflexivity.
      change (tw_minted (tick w)) with (tw_minted w). fold id at_.
      erewrite bind_returned by (rewrite on_log_run; cbn [tw_log count_id tick]; rewrite E; reflexivity).
      done.
    + eapply plane_ok_quiet; [exact Hw|done|apply (pk_states w Hw)|simpl; lia].
  - cbv zeta in E. rewrite no_clash in E by (try done; apply (pk_log w Hw)).
    rewrite bool_decide_eq_false_2 in E by done. simpl in E.
    unfold make_event in E. pose proof (lo_marks _ (pk_log w Hw) (ed_terminal_id d)).
    rewrite Hd, bool_decide_eq_true_2, (proj2 (Z.leb_le _ _)) in E by (done || lia). simpl in E.
    set (ev := {| we_draft := d; we_event_id := id; we_seq := _; we_ingested_at := at_ |}) in *.
    set (w1 := set_log (appended d id at_ (tw_log w)) (count_id (tick w))).
    destruct (catch_mret (on_append clock mint ev) tt w1) as [[] Hc].
    assert (quiet w1 (catch (on_append clock mint ev) (λ _, mret tt) w1).1) as (H1&H2&H3&H4&_&H5&_).
    { apply keeps_catch; [apply _|exact (frame_on_append quiet clock mint (λ _ _ H, H) ev)|]. intros ?. apply keeps_ret. apply _. }
    destruct (catch _ _ w1) as [w2 r] eqn:Ec. simpl in *. subst r.
    exists w2, ev. split_and!; [| |done|done|done| |by exists at_].
    + unfold append. erewrite bind_returned by reflexivity. erewrite bind_returned by reflexivity.
      change (tw_minted (tick w)) with (tw_minted w). fold id at_.
      erewrite bind_returned by (rewrite on_log_run; cbn [tw_log count_id tick]; rewrite E; reflexivity).
      simpl. by erewrite bind_returned by exact Ec.
    + eapply plane_ok_appended; [exact Hw|exact Hd|exact Hrep|exact H1| |simpl in H5; lia].
      rewrite H2. apply (pk_states w Hw).
    + exists (event_row d id (hw (tw_log w) (ed_terminal_id d) + 1) at_).
      split; [rewrite H1; apply elem_of_app; right; left|].
      rewrite row_to_event_row. unfold make_event.
      by rewrite Hd, bool_decide_eq_true_2, (proj2 (Z.leb_le _ _)) by (done || lia).
Qed.

Lemma get_event_eq i l :
  readable l →
  ∃ o, SqliteEventStore.get i l = (l, Returned o) ∧
    match o with
    | Some e => stored e l ∧ we_event_id e = i
    | None => i ∉ er_event_id <$> lg_events l
    end.
Proof.
  intros Hr. unfold SqliteEventStore.get. erewrite bind_returned by reflexivity.
  destruct (head _) as [r|] eqn:E.
  - apply head_Some_elem_of, list_elem_of_filter in E as [Hi Hin].
    destruct (Hr r Hin) as [e He]. exists (Some e).
    split; [|split; [by exists r|]].
    + unfold lift_outcome, mbind, M_bind. by rewrite He.
    + by pose proof (row_to_event_inv r e He) as (-> & _).
  - exists None. split; [done|]. apply head_None in E.
    intros (r & -> & Hin)%list_elem_of_fmap.
    assert (r ∈ filter (λ r0, er_event_id r0 = er_event_id r) (lg_events l)) as Hf
      by (by apply list_elem_of_filter).
    rewrite E in Hf. by apply not_elem_of_nil in Hf.
Qed.

Abbreviation texec := (texec clock mint admits egress false tm).
Abbreviation trun := (trun clock mint admits egress false tm).

Lemma stored_draft_ok e l : stored e l → draft_ok (we_draft e) = true.
Proof. intros (r & _ & H). apply row_to_event_inv in H. tauto. Qed.

Lemma stored_terminal e l : stored e l → we_terminal_id e ≠ ""%string.
Proof.
  intros H%stored_draft_ok. unfold draft_ok in H. by apply andb_true_iff in H as [?%bool_decide_eq_true _].
Qed.

Lemma decision_draft_ok k e p at_ : we_terminal_id e ≠ ""%string → draft_ok (decision_draft k e p at_) = true.
Proof.
  intros H. unfold draft_ok, _check_decision_shape. simpl. by rewrite !bool_decide_eq_true_2.
Qed.

(** What a stored worker-truth event is folded from. *)
Lemma plane_loaded w e :
  plane_ok w → ∃ row, loaded (tw_states w) (we_terminal_id e) (we_ingested_at e) = Returned row
    ∧ shape row
    ∧ match tw_states w !! we_terminal_id e with
      | Some r => ∃ q, SqliteStateStore._row_to_projection r = Returned q ∧ stands_at row = stands_at q
      | None => life_of row = Up STARTING
      end.
Proof.
  intros Hw. unfold loaded. destruct (tw_states w !! we_terminal_id e) as [r|] eqn:E.
  - destruct (so_rows _ (pk_states w Hw) _ r E) as (p & Hp & Hs). exists p. split_and!; eauto.
  - by exists (fresh_state (we_ingested_at e)).
Qed.

(** One fold of a stored worker-truth event. *)
Lemma fold_step e w :
  plane_ok w → stored e (tw_log w) → we_decision e = None →
  ∃ row w' k o, project clock mint admits egress false tm e w = (w', Returned o)
    ∧ loaded (tw_states w) (we_terminal_id e) (we_ingested_at e) = Returned row
    ∧ shape row ∧ folded clock mint admits tm row e k w w' ∧ plane_ok w'
    ∧ states_step (tw_states w) (tw_states w').
Proof.
  intros Hw Hst Hdec. pose proof (stored_terminal e _ Hst) as Ht.
  destruct (plane_loaded w e Hw) as (row & Hload & Hshape & Hfrom).
  destruct (project_run clock mint admits egress tm row e w Hdec Ht (pk_log w Hw) (plane_fresh w Hw) Hload)
    as (w' & k & _ & Hf & E).
  exists row, w', k. eexists. split_and!; [exact E|done|done|done| |].
  all: pose proof Hf as [Fs Fl _ Fn].
  all: set (v := judge (mutes tm (tw_sources w) (clock k) row e) row e) in *.
  all: destruct (judge_wstep (mutes tm (tw_sources w) (clock k) row e) row e Hshape) as [Hsh Hstep].
  all: destruct (upsert_step (we_terminal_id e) (vd_row v) (tw_states w) (stands_at row)
      (pk_states w Hw) Ht Hsh Hstep) as [Hok Hss].
  1,3: by destruct (tw_states w !! we_terminal_id e); [|unfold stands_at].
  - destruct (vd_decision v) as [[d p]|].
    + destruct Fl as (at1 & at2 & Fl).
      eapply plane_ok_appended; [exact Hw|by apply decision_draft_ok|done|exact Fl|by rewrite Fs|lia].
    + eapply plane_ok_quiet; [exact Hw|exact Fl|by rewrite Fs|lia].
  - by rewrite Fs.
Qed.

Lemma plane_row_keys w t r : plane_ok w → tw_states w !! t = Some r → t ≠ ""%string.
Proof. intros Hw E ->. pose proof (so_keys _ (pk_states w Hw)). congruence. Qed.

(** One terminal's turn of a sweep, its row being in the table. *)
Lemma sweep_step at_ t r w :
  plane_ok w → tw_states w !! t = Some r →
  ∃ row w' o x, SqliteStateStore._row_to_projection r = Returned row ∧ shape row
    ∧ heard (tw_log w) t (st_last_event_seq row) o
    ∧ sweep_one clock mint admits egress false tm at_ t w = (w', Returned x)
    ∧ swept clock mint admits tm row t at_ (sweep_turn tm row at_ o) w w' x ∧ plane_ok w'
    ∧ states_step (tw_states w) (tw_states w').
Proof.
  intros Hw E. pose proof (plane_row_keys w t r Hw E) as Ht.
  destruct (so_rows _ (pk_states w Hw) _ r E) as (row & Hrow & Hshape).
  assert (st_state row = DEGRADED → is_Some (st_degraded_reason row)) as Hreason.
  { intros Hd. unfold shape in Hshape. rewrite Hd in Hshape. tauto. }
  destruct (sweep_run clock mint admits egress tm row r at_ t w Ht (pk_log w Hw) (pk_readable w Hw)
    (plane_fresh w Hw) E Hrow Hreason) as (w' & x & o & Ex & Ho & Hsw).
  exists row, w', o, x. split_and!; [done|done|done|done|done| |].
  all: pose proof Hsw as [_ Ss Sl _ _ Sn].
  all: destruct (sweep_turn tm row at_ o) as [| |e] eqn:Et.
  all: try (eapply plane_ok_quiet; [exact Hw|exact Sl|rewrite Ss; apply (pk_states w Hw)|lia]).
  all: try (rewrite Ss; apply states_step_refl, (pk_states w Hw)).
  all: assert (st_state row ≠ DEGRADED ∧ o = Some e) as [Hd ->]
    by (unfold sweep_turn in Et; repeat case_match; simplify_eq;
        split; [by eapply bool_decide_eq_false_1|done]).
  all: destruct Ho as (_ & Hst & Hte & _).
  all: destruct (silence_wstep row e at_ Hshape Hd) as [Hsh Hstep].
  all: destruct (upsert_step t (vd_row (silence row e at_)) (tw_states w) (stands_at row)
      (pk_states w Hw) Ht Hsh Hstep) as [Hok Hss].
  1,3: by rewrite E; eauto.
  - destruct Sl as (p & at2 & Hd' & Sl). eapply plane_ok_appended;
      [exact Hw|apply decision_draft_ok; by eapply stored_terminal|done|exact Sl|by rewrite Ss|lia].
  - by rewrite Ss.
Qed.

(** Every step of the plane keeps the invariant and moves every worker by at
    most one step of its life. *)
Lemma plane_step o w :
  op_ok o → plane_ok w →
  plane_ok (texec o w).1 ∧ states_step (tw_states w) (tw_states (texec o w).1).
Proof.
  intros Hop Hw. pose proof (states_step_refl _ (pk_states w Hw)) as Hrefl.
  destruct o as [d|i|at_ t|t x|t|older|r]; simpl in Hop |- *.
  - destruct (append_run d w Hw Hop) as (w' & e & E & Hw' & Es & _).
    erewrite bind_returned by exact E. simpl. by rewrite Es.
  - unfold fold_stored. destruct (get_event_eq i (tw_log w) (pk_readable w Hw)) as (o & E & Ho).
    erewrite bind_returned by (rewrite on_log_run, E; reflexivity). simpl. rewrite set_log_id.
    destruct o as [e|]; [|done].
    destruct (we_decision e) as [d|] eqn:Hd.
    + unfold project. rewrite Hd, bool_decide_eq_true_2 by done.
      erewrite bind_returned by reflexivity. done.
    + destruct (fold_step e w Hw (proj1 Ho) Hd) as (row & w' & k & x & Ep & _ & _ & _ & ? & ?).
      by erewrite bind_returned by exact Ep.
  - destruct (tw_states w !! t) as [r|] eqn:Et.
    + destruct (sweep_step at_ t r w Hw Et) as (row & w' & o & x & _ & _ & _ & E & _ & ? & ?).
      by erewrite bind_returned by exact E.
    + assert (sweep_one clock mint admits egress false tm at_ t w
              = (set_marks (delete t (tw_marks w)) w, Returned None)) as E.
      { unfold sweep_one. erewrite bind_returned by (rewrite on_states_run, get_state_eq, Et; reflexivity).
        simpl. by rewrite set_states_id. }
      erewrite bind_returned by exact E. simpl. split; [|done].
      eapply plane_ok_quiet; [exact Hw|done|apply (pk_states w Hw)|done].
  - rewrite on_states_run. simpl. destruct (touched_step t x _ (pk_states w Hw) Hop) as [Hok Hss].
    split; [|exact Hss]. by eapply plane_ok_quiet; [exact Hw|done|exact Hok|done].
  - pose proof (frame_pane quiet clock mint tm (λ _ _ H, H) t w) as (Q1 & Q2 & _ & _ & _ & Q3 & _).
    unfold mbind, M_bind. destruct (pane_disagreement clock mint tm t w) as [w' []]; simpl in *;
      (split; [eapply plane_ok_quiet; [exact Hw|done|rewrite Q2; apply (pk_states w Hw)|done]|by rewrite Q2]).
  - split; [|done]. pose proof (delete_where_sublist (prunable older (tw_findings w)) (lg_events (tw_log w))) as Hsub.
    destruct Hw as [H1 H2 H3 H4]. split; simpl; [by apply log_ok_pruned|..|done].
    + intros r' [_ Hr]%elem_of_delete. by apply H2.
    + intros r' [_ Hr]%elem_of_delete. by apply H3.
  - split; [|done]. by eapply plane_ok_quiet; [exact Hw|done|apply (pk_states w Hw)|done].
Qed.

Lemma plane_run ops w : Forall op_ok ops → plane_ok w → plane_ok (trun ops w).
Proof. intros H Hw. eapply trun_invariant; [|exact H|exact Hw]. intros o w' Ho Hw'. by apply plane_step. Qed.
End Plane.

(** ** What a published status can be traced to *)

(** The decisions only the projector writes. *)
Definition PROJECTOR_KINDS : list DecisionKind :=
  [STATUS_TRANSITION; STATUS_REASON_CHANGED; STATUS_RECOVERED].

Definition is_projector_row (r : EventRow) : Prop :=
  ∃ k, k ∈ PROJECTOR_KINDS ∧ er_decision r = Some (DecisionKind_value k).

(** [r] cites an earlier worker-truth row of the same terminal. *)
Definition cites (l : log) (r : EventRow) : Prop :=
  ∃ c, c ∈ lg_events l ∧ er_evidence r = Some (er_event_id c)
    ∧ er_terminal_id c = er_terminal_id r ∧ er_decision c = None ∧ er_seq c < er_seq r.

Record traceable (w : truth) : Prop := {
  tr_cites : ∀ r, r ∈ lg_events (tw_log w) → is_projector_row r → cites (tw_log w) r;
  tr_out : ∀ p, Published p ∈ tw_out w →
    ∃ r, r ∈ lg_events (tw_log w) ∧ is_projector_row r
      ∧ pb_event_id p = Some (er_event_id r) ∧ er_terminal_id r = pb_terminal_id p;
}.

Lemma traceable_same w w' :
  traceable w → tw_log w' = tw_log w → tw_out w' = tw_out w → traceable w'.
Proof. intros [H1 H2] El Eo. split; by rewrite ?El, ?Eo. Qed.

Lemma traceable_appended d id at_ w w' out :
  traceable w → tw_log w' = appended d id at_ (tw_log w) → tw_out w' = tw_out w ++ out →
  (is_projector_row (event_row d id (hw (tw_log w) (ed_terminal_id d) + 1) at_) →
   cites (tw_log w) (event_row d id (hw (tw_log w) (ed_terminal_id d) + 1) at_)) →
  (∀ p, Published p ∈ out →
     is_projector_row (event_row d id (hw (tw_log w) (ed_terminal_id d) + 1) at_)
     ∧ pb_event_id p = Some id ∧ pb_terminal_id p = ed_terminal_id d) →
  traceable w'.
Proof.
  intros [H1 H2] El Eo Hc Hp.
  assert (∀ r, r ∈ lg_events (tw_log w) → r ∈ lg_events (tw_log w')) as Hin
    by (intros r Hr; rewrite El; apply elem_of_app; by left).
  assert (∀ r, cites (tw_log w) r → cites (tw_log w') r) as Hcites
    by (intros r (c & Hcin & ?); exists c; split; [by apply Hin|done]).
  split.
  - intros r. rewrite El at 1. intros [Hr|Hr]%elem_of_app Hk; apply Hcites; [by apply H1|].
    apply list_elem_of_singleton in Hr as ->. by apply Hc.
  - intros p. rewrite Eo. intros [Hr|Hr]%elem_of_app.
    + destruct (H2 p Hr) as (r & Hin' & ?). exists r. split; [by apply Hin|done].
    + destruct (Hp p Hr) as (Hk & E1 & E2).
      exists (event_row d id (hw (tw_log w) (ed_terminal_id d) + 1) at_).
      split_and!; [|done|by rewrite E1|done]. rewrite El. apply elem_of_app. right. left.
Qed.

Lemma stored_cites e k p at_ id at2 l :
  log_ok l → stored e l → we_decision e = None →
  cites l (event_row (decision_draft k e p at_) id (hw l (we_terminal_id e) + 1) at2).
Proof.
  intros Hok (r & Hr & He) Hd. pose proof (row_to_event_inv r e He) as (Er & _).
  exists r. pose proof (lo_range l Hok r Hr) as Hrange. subst r. simpl in *.
  split_and!; [done|done|done|unfold we_decision in Hd; by rewrite Hd|].
  unfold we_terminal_id. lia.
Qed.

Lemma published_by own t kind v id p admits :
  Published p ∈ publication admits own t kind v id →
  is_Some (vd_decision v) ∧ pb_event_id p = Some id ∧ pb_terminal_id p = t.
Proof.
  unfold publication. destruct (vd_decision v); [|by intros ?%not_elem_of_nil].
  destruct (_ && _); [|by intros ?%not_elem_of_nil].
  intros H%list_elem_of_singleton. by injection H as ->.
Qed.

Lemma judge_kinds muted row e k p :
  vd_decision (judge muted row e) = Some (k, p) → k ∈ PROJECTOR_KINDS.
Proof.
  unfold judge. destruct muted; [done|].
  destruct (bool_decide _). { case_bool_decide; [done|]. intros [= <- _]. by_eval. }
  destruct (_target e) as [[target|] reason]; [|done].
  destruct (decide _).
  - destruct reason; [|done]. destruct (_ && _); [|done]. intros [= <- _]. by_eval.
  - intros [= <- _]. by_eval.
Qed.

Section Trace.
Context (clock : nat → Z) (mint : nat → string).
Context (admits : option (string → outcome bool)) (egress : list outward → published → outcome ()).
Context (tm : Timing).
Context (Hmint : ∀ n, mint n ≠ ""%string) (Hdistinct : ∀ n m, mint n = mint m → n = m).

(** Producers leave the projector's kinds to it, and nothing is pruned. *)
Definition op_traceable (o : top) : Prop :=
  op_ok o ∧ no_prune o = true ∧
  match o with TAppend d => ∀ k, ed_decision d = Some k → k ∉ PROJECTOR_KINDS | _ => True end.

Lemma trace_step o w :
  op_traceable o → plane_ok mint w → traceable w →
  traceable (texec clock mint admits egress false tm o w).1.
Proof.
  intros (Hop & Hnp & Hkind) Hw Htr.
  destruct o as [d|i|at_ t|t x|t|older|r]; simpl in Hop, Hnp |- *.
  - destruct (append_run clock mint Hmint Hdistinct d w Hw Hop)
      as (w' & e & E & _ & _ & Eo & _ & _ & El).
    erewrite bind_returned by exact E. simpl. destruct (replayed d (tw_log w)) as [r|].
    { destruct El as [_ El]. by eapply traceable_same. }
    destruct El as [at_ El]. eapply (traceable_appended d _ at_ w w' []); [done|exact El|by rewrite app_nil_r| |].
    + intros (k & Hk & Hd). simpl in Hd. destruct (ed_decision d) as [k'|] eqn:Ek; [|done].
      exfalso. apply (Hkind k' eq_refl). injection Hd as Hd.
      apply (f_equal DecisionKind_of) in Hd. rewrite !DecisionKind_of_value in Hd.
      by injection Hd as ->.
    + by intros p ?%not_elem_of_nil.
  - unfold fold_stored. destruct (get_event_eq i (tw_log w) (pk_readable _ w Hw)) as (o & E & Ho).
    erewrite bind_returned by (rewrite on_log_run, E; reflexivity). simpl. rewrite set_log_id.
    destruct o as [e|]; [|done]. destruct Ho as [Hst _].
    destruct (we_decision e) as [d|] eqn:Hd.
    { unfold project. rewrite Hd, bool_decide_eq_true_2 by done.
      by erewrite bind_returned by reflexivity. }
    destruct (fold_step clock mint admits egress tm Hmint Hdistinct e w Hw Hst Hd)
      as (row & w' & k & o & Ep & _ & _ & [_ Fl Fo _] & _).
    erewrite bind_returned by exact Ep. simpl.
    set (v := judge _ row e) in *. destruct (vd_decision v) as [[d p]|] eqn:Ev.
    + destruct Fl as (at1 & at2 & Fl). eapply traceable_appended; [done|exact Fl|exact Fo| |].
      * intros _. by apply stored_cites; [apply (pk_log _ w Hw)|..].
      * intros q (_ & H1 & H2)%published_by. split_and!; [|done|done].
        exists d. split; [by eapply judge_kinds|done].
    + eapply traceable_same; [done|exact Fl|]. rewrite Fo. unfold publication. rewrite Ev.
      apply app_nil_r.
  - destruct (tw_states w !! t) as [r|] eqn:Et.
    + destruct (sweep_step clock mint admits egress tm Hmint Hdistinct at_ t r w Hw Et)
        as (row & w' & o & x & _ & _ & Ho & E & [_ _ Sl So _ _] & _).
      erewrite bind_returned by exact E. simpl.
      destruct (sweep_turn tm row at_ o) as [| |e] eqn:Eturn;
        [by eapply traceable_same; [|exact Sl|rewrite So; apply app_nil_r]..|].
      assert (o = Some e) as -> by (unfold sweep_turn in Eturn; repeat case_match; by simplify_eq).
      destruct Ho as (_ & Hst & Hte & Hde & _).
      destruct Sl as (p & at2 & Hv & Sl). eapply traceable_appended; [done|exact Sl|exact So| |].
      * intros _. by apply stored_cites; [apply (pk_log _ w Hw)|..].
      * intros q (_ & H1 & H2)%published_by. split_and!; [|done|by rewrite H2].
        exists STATUS_TRANSITION. split; [by_eval|done].
    + assert (sweep_one clock mint admits egress false tm at_ t w
              = (set_marks (delete t (tw_marks w)) w, Returned None)) as E.
      { unfold sweep_one. erewrite bind_returned by (rewrite on_states_run, get_state_eq, Et; reflexivity).
        simpl. by rewrite set_states_id. }
      erewrite bind_returned by exact E. by eapply traceable_same.
  - rewrite on_states_run. by eapply traceable_same.
  - pose proof (frame_pane quiet clock mint tm (λ _ _ H, H) t w) as (Q1 & _ & Q3 & _).
    unfold mbind, M_bind. destruct (pane_disagreement clock mint tm t w) as [w' []]; simpl in *;
      by eapply traceable_same.
  - done.
  - by eapply traceable_same.
Qed.
End Trace.

(** ** A sample plane

    One certified terminal ["h"] and one transcript terminal ["a"], whose hook
    producer retries under its key. *)
Module TruthSample.
Definition clock (n : nat) : Z := seconds 1000 + seconds (Z.of_nat n).
Definition mint (n : nat) : string := "e" +:+ pretty n.
Definition egress (out : list outward) (p : published) : outcome () := Returned tt.

Definition start : truth := {|
  tw_log := LogSample.empty; tw_states := ∅; tw_findings := [];
  tw_sources := {| rg_terminal_ids := {[ "a"%string; "h"%string ]}; rg_fallback_disabled_ids := {[ "h"%string ]} |};
  tw_marks := ∅; tw_open := ∅; tw_out := []; tw_ticks := 0; tw_minted := 0 |}.

Definition saw (t : string) (k : EventKind) (p : Producer) (c : Confidence) (key : option string) : EventDraft := {|
  ed_terminal_id := t; ed_kind := Event k; ed_producer := p; ed_confidence := c;
  ed_observed_at := seconds 999; ed_payload := ∅; ed_source_ref := None; ed_run_id := None;
  ed_msg_id := None; ed_decision := None; ed_evidence := None; ed_event_key := key |}.

Definition asked : EventDraft := saw "a" PROMPT_AWAITING HOOK AUTHORITATIVE (Some "k1"%string).
Definition ended : EventDraft := saw "a" TURN_ENDED JSONL AUTHORITATIVE None.
Definition pasted : EventDraft := saw "a" TURN_STARTED PANE DERIVED None.

Abbreviation exec := (TruthInv.texec clock mint None egress false shipped).
Abbreviation run_ops := (TruthInv.trun clock mint None egress false shipped).

(** The source speaks, a dialog opens and the turn ends. *)
Definition ops : list top :=
  [TTouch "a" (SourceProbed (seconds 1000)); TAppend asked; TFold "e0"; TAppend ended; TFold "e2"].
Definition later : truth := run_ops ops start.

(** The same for a certified terminal that then goes silent. *)
Definition certified_ops : list top :=
  [TTouch "h" (SourceProbed (seconds 1000)); TAppend (saw "h" TURN_STARTED JSONL AUTHORITATIVE None);
   TFold "e0"].
Definition certified : truth := run_ops certified_ops start.
End TruthSample.

Lemma sample_mint : (∀ n, TruthSample.mint n ≠ ""%string)
  ∧ ∀ n m, TruthSample.mint n = TruthSample.mint m → n = m.
Proof. split; [done|]. intros n m H. apply (inj pretty). by apply (inj (String.append "e")). Qed.

Lemma sample_start_ok : plane_ok TruthSample.mint TruthSample.start.
Proof.
  split; simpl.
  - apply empty_log_ok.
  - intros r []%not_elem_of_nil.
  - intros r []%not_elem_of_nil.
  - split; simpl; [|by rewrite lookup_empty]. intros t r. by rewrite lookup_empty.
Qed.

Example sample_later :
  (tw_states TruthSample.later !! "a"%string) ≫= (λ r, Some (st_state r, st_last_event_seq r))
  = Some ("idle"%string, 3).
Proof. vm_compute. reflexivity. Qed.

Lemma sample_later_ok : plane_ok TruthSample.mint TruthSample.later.
Proof.
  apply plane_run; [apply sample_mint|apply sample_mint| |apply sample_start_ok].
  by repeat constructor.
Qed.

Lemma sample_certified_ok : plane_ok TruthSample.mint TruthSample.certified.
Proof.
  apply plane_run; [apply sample_mint|apply sample_mint| |apply sample_start_ok].
  by repeat constructor.
Qed.

(** ** Theorems *)

(** Sequences are contiguous and never reused, whatever the interleaving of
    producers, folds, sweeps, probes and prunes, and whatever raises: a run
    keeps the log well formed; every row it leaves was there before or carries
    a sequence above the terminal's old mark; and without a prune it only
    appends rows, each terminal's continuing exactly from its old mark to its
    new one, without a gap. *)
Theorem sequences_contiguous clock mint admits egress strict tm ops w :
  log_ok (tw_log w) →
  let l' := tw_log (trun clock mint admits egress strict tm ops w) in
  log_ok l' ∧ reuses_none (tw_log w) l' ∧
  (Forall (λ o, no_prune o = true) ops →
   ∃ new, lg_events l' = lg_events (tw_log w) ++ new ∧
     ∀ t, hw (tw_log w) t <= hw l' t ∧
          seqs_of t new = seqZ (hw (tw_log w) t + 1) (hw l' t - hw (tw_log w) t)).
Proof.
  intros Hok l'. assert (Forall (λ _ : top, True) ops) as Htrue by (by apply Forall_true).
  assert (PreOrder (λ l l', log_ok l → log_ok l')) as Hpre by (split; repeat intro; auto).
  split_and!.
  - eapply (trun_keeps clock mint admits egress strict tm (log_rel (λ l l', log_ok l → log_ok l')) (λ _, True) ops w);
      [|exact Htrue|exact Hok].
    intros o _. apply texec_log; [done|..].
    + intros at_ i d l. apply append_in_ok.
    + intros at_ fs _ l Hl. rewrite prune_eq. apply log_ok_pruned; [done|apply delete_where_sublist].
  - apply (trun_keeps clock mint admits egress strict tm (log_rel reuses_none) (λ _, True) ops w); [|exact Htrue].
    intros o _. apply texec_log; [apply _|..].
    + intros at_ i d l. by apply appends_reuses_none, append_in_appends.
    + intros at_ fs _. apply prune_reuses_none.
  - apply (trun_keeps clock mint admits egress strict tm (log_rel appends)
      (λ o, no_prune o = true) ops w).
    intros o Ho. apply texec_log; [apply _|..].
    + intros at_ i d. apply append_in_appends.
    + intros at_ fs Hf. congruence.
Qed.

Lemma sequences_contiguous_witness :
  let l' := tw_log TruthSample.later in
  log_ok l' ∧ seqs_of "a" (lg_events l') = [1; 2; 3; 4].
Proof.
  split; [|vm_compute; reflexivity].
  apply (sequences_contiguous TruthSample.clock TruthSample.mint None TruthSample.egress false shipped
    TruthSample.ops TruthSample.start empty_log_ok).
Defined.

(** [C2] The plane refines the life of a worker.  Whatever its threads did
    before and in whatever order, every row stays well shaped — a reason and a
    state to come back to exactly while degraded, and never degraded as the
    state to come back to — every event the log stores stays readable, and the
    next step of any thread moves every worker by at most one step of its life:
    the instant it stands since moves only with the state, a reason only rises,
    and a worker first seen starts from [starting]. *)
Theorem worker_refines_life clock mint admits egress tm ops o w :
  (∀ n, mint n ≠ ""%string) → (∀ n m, mint n = mint m → n = m) →
  Forall op_ok ops → op_ok o → plane_ok mint w →
  let w1 := trun clock mint admits egress false tm ops w in
  plane_ok mint w1
  ∧ states_step (tw_states w1) (tw_states (texec clock mint admits egress false tm o w1).1).
Proof.
  intros Hm Hd Hops Ho Hw w1.
  assert (plane_ok mint w1) as Hw1 by (by apply plane_run).
  split; [done|]. by apply plane_step.
Qed.

Lemma worker_refines_life_witness :
  plane_ok TruthSample.mint TruthSample.later
  ∧ states_step (tw_states TruthSample.later) (tw_states (TruthSample.exec (TFold "e0") TruthSample.later).1).
Proof.
  apply (worker_refines_life TruthSample.clock TruthSample.mint None TruthSample.egress shipped
    TruthSample.ops (TFold "e0") TruthSample.start).
  - apply sample_mint.
  - apply sample_mint.
  - by repeat constructor.
  - done.
  - apply sample_start_ok.
Defined.

(** The fold does exactly what [judge] says.  For a worker-truth event of a
    terminal whose row is readable or absent, [project] returns, and: the row
    becomes [judge]'s (the probes' columns apart); the log gains one decision
    row citing the event when the verdict has one, and nothing otherwise; and
    the status is published once, naming that decision, exactly when there is
    one, the projection owns the terminal and the operator admits it.  The
    muting [judge] is given is source precedence at a reading of the clock. *)
Theorem project_exact clock mint admits egress tm row e w :
  let t := we_terminal_id e in
  we_decision e = None → t ≠ ""%string →
  log_ok (tw_log w) → fresh_id mint w →
  loaded (tw_states w) t (we_ingested_at e) = Returned row →
  ∃ w' k, let own := owns tm (tw_sources w) (clock (tw_ticks w)) t row in
    let v := judge (mutes tm (tw_sources w) (clock k) row e) row e in
    let id := mint (tw_minted w) in
    (tw_ticks w ≤ k ≤ S (tw_ticks w))%nat ∧
    project clock mint admits egress false tm e w = (w', Returned (verdict_outcome t row v id)) ∧
    tw_states w' = (SqliteStateStore.upsert t (vd_row v) (tw_states w)).1 ∧
    match vd_decision v with
    | None => tw_log w' = tw_log w
    | Some (d, p) => ∃ at1 at2,
        tw_log w' = appended (decision_draft d e p at1) id at2 (tw_log w)
    end ∧
    tw_out w' = tw_out w ++ publication admits own t (Some (we_kind e)) v id.
Proof.
  intros t Hdec Ht Hok Hf Hload.
  destruct (project_run clock mint admits egress tm row e w Hdec Ht Hok Hf Hload)
    as (w' & k & Hk & [Fs Fl Fo _] & E).
  by exists w', k.
Qed.

Lemma project_exact_witness :
  let e := {| we_draft := TruthSample.pasted; we_event_id := "x"; we_seq := 5; we_ingested_at := seconds 1010 |} in
  ∃ w', project TruthSample.clock TruthSample.mint None TruthSample.egress false shipped e TruthSample.later
        = (w', Returned (outcome_of "a" "derived_muted_by_healthy_source" false (Some IDLE) None None None))
      ∧ tw_log w' = tw_log TruthSample.later ∧ tw_out w' = tw_out TruthSample.later.
Proof.
  destruct (loaded (tw_states TruthSample.later) "a" (seconds 1010)) as [row|] eqn:E;
    [|by vm_compute in E].
  destruct (project_exact TruthSample.clock TruthSample.mint None TruthSample.egress shipped row
    {| we_draft := TruthSample.pasted; we_event_id := "x"; we_seq := 5; we_ingested_at := seconds 1010 |}
    TruthSample.later eq_refl ltac:(done) (pk_log _ _ sample_later_ok)
    (plane_fresh _ (proj1 sample_mint) (proj2 sample_mint) _ sample_later_ok) E)
    as (w' & k & Hk & Ep & _ & El & Eo).
  vm_compute in E. injection E as <-.
  assert (mutes shipped (tw_sources TruthSample.later) (TruthSample.clock k)
    {| st_state := IDLE; st_since := 1004000000; st_last_event_seq := 3; st_degraded_reason := None;
       st_prior_state := None; st_last_probe_at := None; st_last_source_probe_at := Some 1000000000;
       st_pane_pid := None; st_pane_present := false; st_miss_count := 0 |}
    {| we_draft := TruthSample.pasted; we_event_id := "x"; we_seq := 5;
       we_ingested_at := seconds 1010 |} = true) as Hm.
  { vm_compute in Hk. assert (k = 8%nat ∨ k = 9%nat) as [-> | ->] by lia; by vm_compute. }
  rewrite Hm in Ep, El, Eo. exists w'. split_and!; [exact Ep|exact El|].
  rewrite Eo. apply app_nil_r.
Defined.

(** A retried producer call folds its old event again.  [append] is
    replay-safe: the retry stores no row and returns the event already there.
    But [emit] folds whatever [append] returned, so when the worker has moved on
    since, an authoritative event of the retry puts the worker back into the
    state it asserted then, since the instant it was ingested then, with its
    old sequence as the cursor, and logs one more transition. *)
Theorem retry_refolds clock mint admits egress tm d e row target w :
  (∀ n, mint n ≠ ""%string) → (∀ n m, mint n = mint m → n = m) → plane_ok mint w →
  draft_ok d = true →
  (∃ r, replayed d (tw_log w) = Some r ∧ _row_to_event r = Returned e) →
  we_decision e = None → ed_confidence (we_draft e) = AUTHORITATIVE →
  we_kind e ≠ Event PANE_RECOVERED → _target e = (Some target, None) →
  loaded (tw_states w) (we_terminal_id e) (we_ingested_at e) = Returned row →
  st_state row ≠ target →
  ∃ w' q, emit clock mint admits egress false tm (Some {| rt_folder := true |}) d w
          = (w', Returned (Some e))
    ∧ loaded (tw_states w') (we_terminal_id e) 0 = Returned q
    ∧ st_state q = target ∧ st_since q = we_ingested_at e ∧ st_last_event_seq q = we_seq e
    ∧ ∃ x, lg_events (tw_log w') = lg_events (tw_log w) ++ [x]
        ∧ er_kind x = DecisionKind_value STATUS_TRANSITION
        ∧ er_evidence x = Some (we_event_id e).
Proof.
  intros Hm Hdist Hw Hd (r & Hrep & Hre) Hdec Hauth Hkind Htarget Hload Hne.
  pose proof (replayed_Some d _ r Hrep) as [Hr _].
  assert (stored e (tw_log w)) as Hst by (by exists r).
  destruct (append_run clock mint Hm Hdist d w Hw Hd) as (w1 & e' & E1 & Hw1 & Es & Eo & Em & _ & Hlog).
  rewrite Hrep in Hlog. destruct Hlog as [He' El]. rewrite Hre in He'. injection He' as <-.
  destruct (project_run clock mint admits egress tm row e w1 Hdec (stored_terminal e _ Hst)
    (pk_log _ _ Hw1) (plane_fresh mint Hm Hdist w1 Hw1) ltac:(by rewrite Es))
    as (w2 & k & _ & [Fs Fl _ _] & E2).
  assert (mutes tm (tw_sources w1) (clock k) row e = false) as Hmute
    by (unfold mutes; by rewrite Hauth).
  rewrite Hmute in Fs, Fl, E2.
  assert (judge false row e = {| vd_row := moved_to target (we_ingested_at e) (we_seq e) None
      (if bool_decide (target = DEGRADED) then Some (st_state row) else None) row;
    vd_rule := "applied"; vd_to := Some target; vd_class := Some (class_of (st_state row) target);
    vd_decision := vd_decision (judge false row e) |} ∧ ∃ p, vd_decision (judge false row e)
      = Some (STATUS_TRANSITION, p)) as [Hj [p Hp]].
  { unfold judge. rewrite bool_decide_eq_false_2 by done. rewrite Htarget, decide_False by done.
    split; [|by eexists]. simpl. by destruct (bool_decide (target = DEGRADED)). }
  rewrite Hp in Fl. destruct Fl as (at1 & at2 & Fl).
  rewrite Hj, Es in Fs. simpl vd_row in Fs.
  set (p' := moved_to _ _ _ _ _ _) in Fs.
  assert (∃ q, loaded (tw_states w2) (we_terminal_id e) 0 = Returned q ∧ st_state q = st_state p'
    ∧ st_since q = st_since p' ∧ st_last_event_seq q = st_last_event_seq p') as (q & Hq & Q1 & Q2 & Q3).
  { unfold loaded. rewrite Fs. unfold SqliteStateStore.upsert. rewrite insert_or_lookup.
    destruct (tw_states w !! we_terminal_id e) as [old|].
    - exists (SqliteStateStore.with_liveness old p'). split; [|done].
      exact (row_to_projection_row (SqliteStateStore.with_liveness old p')).
    - exists p'. by rewrite row_to_projection_row. }
  exists w2, q. split_and!; [|exact Hq|exact Q1|exact Q2|exact Q3|].
  - unfold emit.
    erewrite bind_returned by (unfold catch; erewrite bind_returned by exact E1; reflexivity).
    cbv beta iota. unfold _fold. cbn [rt_folder].
    by erewrite bind_returned by (unfold catch; erewrite bind_returned by exact E2; reflexivity).
  - eexists. rewrite Fl, El. split; [reflexivity|]. done.
Qed.

(** The sample plane had gone on to [idle] at sequence 3 ([sample_later]); the
    retry of the hook's first event takes it back. *)
Lemma retry_refolds_witness :
  let e := {| we_draft := TruthSample.asked; we_event_id := "e0"; we_seq := 1;
              we_ingested_at := 1000000000 |} in
  ∃ w' q, emit TruthSample.clock TruthSample.mint None TruthSample.egress false shipped
            (Some {| rt_folder := true |}) TruthSample.asked TruthSample.later
          = (w', Returned (Some e))
    ∧ loaded (tw_states w') (we_terminal_id e) 0 = Returned q
    ∧ st_state q = AWAITING_INPUT ∧ st_last_event_seq q = 1.
Proof.
  intros e.
  assert (∃ row, loaded (tw_states TruthSample.later) "a" 1000000000 = Returned row
                 ∧ st_state row = IDLE) as (row & E & Hs).
  { eexists {| st_state := IDLE; st_since := 1004000000; st_last_event_seq := 3;
                st_degraded_reason := None; st_prior_state := None; st_last_probe_at := None;
                st_last_source_probe_at := Some 1000000000; st_pane_pid := None;
                st_pane_present := false; st_miss_count := 0 |}.
    split; [vm_compute; reflexivity|done]. }
  destruct (retry_refolds TruthSample.clock TruthSample.mint None TruthSample.egress shipped
    TruthSample.asked e row AWAITING_INPUT TruthSample.later)
    as (w' & q & E1 & E2 & E3 & _ & E4 & _).
  - apply sample_mint.
  - apply sample_mint.
  - apply sample_later_ok.
  - vm_compute. reflexivity.
  - exists (event_row TruthSample.asked "e0" 1 1000000000). split; vm_compute; reflexivity.
  - done.
  - done.
  - done.
  - vm_compute. reflexivity.
  - exact E.
  - by rewrite Hs.
  - exists w', q. split_and!; [exact E1|exact E2|exact E3|exact E4].
Defined.

(** Silence hands a terminal back to the pane, unless it is certified.
    When a sweep finds that nothing — no probe, no source, no move — has been
    heard for longer than the horizon, a terminal whose source is not certified
    is marked unprojected and the sweep publishes nothing for it, so the pane
    is its only publisher; a certified terminal whose source has ever delivered
    stays projected, and publishes [unknown] once, in the sweep that degrades
    it. *)
Theorem silence_hands_back clock mint admits egress tm at_ t r row w :
  (∀ n, mint n ≠ ""%string) → (∀ n m, mint n = mint m → n = m) → plane_ok mint w →
  at_ <= clock (tw_ticks w) →
  tw_states w !! t = Some r → SqliteStateStore._row_to_projection r = Returned row →
  st_state row ≠ EXITED → seconds (NO_SIGNAL_S tm) < at_ - _last_signal row →
  ∃ w' x, sweep_one clock mint admits egress false tm at_ t w = (w', Returned x) ∧
    if bool_decide (is_Some (st_last_source_probe_at row))
       && StaticSourceRegistry.fallback_disabled t (tw_sources w)
    then tw_marks w' !! t = Some true ∧
      (tw_out w' = tw_out w ∨
       ∃ id, tw_out w' = tw_out w ++
               [Published {| pb_terminal_id := t; pb_status := "unknown"; pb_event_id := Some id;
                             pb_worker_state := "degraded"; pb_since := at_ |}]
             ∧ st_state row ≠ DEGRADED)
    else tw_marks w' !! t = Some false ∧ tw_out w' = tw_out w.
Proof.
  intros Hm Hd Hw Hclock E Hrow Hx Hsilent.
  destruct (sweep_step clock mint admits egress tm Hm Hd at_ t r w Hw E)
    as (row' & w' & o & x & Hrow' & Hshape & Ho & Es & [Wm _ _ Wo _ _] & _).
  rewrite Hrow in Hrow'. injection Hrow' as <-. exists w', x. split; [exact Es|].
  assert (healthy_at tm (clock (tw_ticks w)) row = false) as Hh.
  { unfold healthy_at. destruct (st_last_source_probe_at row) as [p|] eqn:Ep; [|done].
    apply Z.leb_gt. unfold _last_signal in Hsilent. rewrite Ep in Hsilent.
    destruct (st_last_probe_at row); lia. }
  unfold owns in Wm, Wo. rewrite Hh, andb_false_r, orb_false_r in Wm, Wo.
  destruct (bool_decide _ && _).
  - split; [done|]. destruct (sweep_turn tm row at_ o) as [| |e] eqn:Et;
      [left; by rewrite Wo, app_nil_r..|].
    unfold publication in Wo. simpl in Wo. destruct (admitted admits t); [right|left; by rewrite Wo, app_nil_r].
    eexists. split; [exact Wo|]. unfold sweep_turn in Et. intros Hdeg.
    rewrite (bool_decide_eq_true_2 (st_state row = DEGRADED)) in Et by done.
    by repeat case_match.
  - split; [done|]. rewrite Wo. destruct (sweep_turn tm row at_ o); by rewrite app_nil_r.
Qed.

Lemma silence_hands_back_witness :
  ∃ w' x, sweep_one (λ n, seconds 2000) TruthSample.mint None TruthSample.egress false shipped
            (seconds 2000) "h" TruthSample.certified = (w', Returned x)
    ∧ tw_marks w' !! "h"%string = Some true.
Proof.
  destruct (tw_states TruthSample.certified !! "h"%string) as [r|] eqn:E; [|by vm_compute in E].
  destruct (SqliteStateStore._row_to_projection r) as [row|] eqn:Er;
    [|vm_compute in E; injection E as <-; by vm_compute in Er].
  destruct (silence_hands_back (λ n, seconds 2000) TruthSample.mint None TruthSample.egress shipped
    (seconds 2000) "h" r row TruthSample.certified) as (w' & x & H1 & H2).
  - apply sample_mint.
  - apply sample_mint.
  - apply sample_certified_ok.
  - done.
  - exact E.
  - exact Er.
  - vm_compute in E. injection E as <-. vm_compute in Er. by injection Er as <-.
  - vm_compute in E. injection E as <-. vm_compute in Er. by injection Er as <-.
  - exists w', x. split; [exact H1|].
    vm_compute in E. injection E as <-. vm_compute in Er. injection Er as <-.
    exact (proj1 H2).
Defined.

(** [C28] Every published status can be traced to the worker.  Take any run in which
    nothing is pruned and no producer appends rows of the projector's own kinds.  Each
    status the plane has handed to the egress names a decision row of its own terminal
    in the log, and every such row — published or not — cites an earlier worker-truth
    row of the same terminal: no transition is a ghost, and no chain of evidence leads
    back to the projector itself.  (A prune removes rows that were cited.) *)
Theorem publishes_are_traceable clock mint admits egress tm ops w :
  (∀ n, mint n ≠ ""%string) → (∀ n m, mint n = mint m → n = m) →
  Forall op_traceable ops → plane_ok mint w → traceable w →
  let w' := trun clock mint admits egress false tm ops w in
  (∀ p, Published p ∈ tw_out w' →
     ∃ r, r ∈ lg_events (tw_log w') ∧ is_projector_row r
       ∧ pb_event_id p = Some (er_event_id r) ∧ er_terminal_id r = pb_terminal_id p
       ∧ cites (tw_log w') r)
  ∧ ∀ r, r ∈ lg_events (tw_log w') → is_projector_row r → cites (tw_log w') r.
Proof.
  intros Hm Hd Hops Hw Htr w'.
  assert (plane_ok mint w' ∧ traceable w') as [_ [H1 H2]].
  { apply (trun_invariant clock mint admits egress false tm (λ w, plane_ok mint w ∧ traceable w)
      op_traceable ops w); [|done|done].
    intros o w0 Ho [Hw0 Htr0]. split; [|by apply trace_step].
    by apply plane_step; [..|apply Ho|]. }
  split; [|exact H1]. intros p Hp. destruct (H2 p Hp) as (r & Hr & Hk & E1 & E2).
  exists r. split_and!; [done|done|done|done|by apply H1].
Qed.

Lemma publishes_are_traceable_witness :
  length (tw_out TruthSample.later) = 2%nat ∧
  ∀ p, Published p ∈ tw_out TruthSample.later →
     ∃ r, r ∈ lg_events (tw_log TruthSample.later) ∧ is_projector_row r
       ∧ pb_event_id p = Some (er_event_id r) ∧ er_terminal_id r = pb_terminal_id p
       ∧ cites (tw_log TruthSample.later) r.
Proof.
  split; [vm_compute; reflexivity|].
  apply (publishes_are_traceable TruthSample.clock TruthSample.mint None TruthSample.egress shipped
    TruthSample.ops TruthSample.start).
  - apply sample_mint.
  - apply sample_mint.
  - by repeat constructor.
  - apply sample_start_ok.
  - split; simpl; [by intros r ?%not_elem_of_nil|by intros p ?%not_elem_of_nil].
Defined.
