(* ===== verification/Sha256.v ===== *)
(** * [hashlib.sha256(..).hexdigest()]

    The digest of the standard library, as FIPS 180-4 defines it, over byte
    strings.  Words are 32-bit integers, [w32] their wrap-around. *)

From S2P Require Import Prelude.

Definition w32 (x : Z) : Z := Z.land x 0xFFFFFFFF.
Definition rotr (n x : Z) : Z := Z.lor (Z.shiftr x n) (w32 (Z.shiftl x (32 - n))).

Definition big_sigma0 (x : Z) : Z := Z.lxor (rotr 2 x) (Z.lxor (rotr 13 x) (rotr 22 x)).
Definition big_sigma1 (x : Z) : Z := Z.lxor (rotr 6 x) (Z.lxor (rotr 11 x) (rotr 25 x)).
Definition small_sigma0 (x : Z) : Z := Z.lxor (rotr 7 x) (Z.lxor (rotr 18 x) (Z.shiftr x 3)).
Definition small_sigma1 (x : Z) : Z := Z.lxor (rotr 17 x) (Z.lxor (rotr 19 x) (Z.shiftr x 10)).
Definition choose (e f g : Z) : Z := Z.lxor (Z.land e f) (Z.land (Z.lxor e 0xFFFFFFFF) g).
Definition majority (a b c : Z) : Z :=
  Z.lxor (Z.land a b) (Z.lxor (Z.land a c) (Z.land b c)).

(** The constants: the first 32 bits of the fractional parts of the cube roots of
    the first sixty-four primes, and of the square roots of the first eight. *)
Definition is_prime (n : Z) : bool :=
  forallb (λ k, negb (n mod Z.of_nat k =? 0)) (seq 2 (Z.to_nat (Z.sqrt n) - 1)).
Definition primes : list Z :=
  Eval vm_compute in take 64 (filter (λ n, is_prime n = true) (Z.of_nat <$> seq 2 400)).

(** The greatest [r] below [2^bits] with [r^3 <= v], found bit by bit. *)
Fixpoint cube_root (bits : nat) (v r : Z) : Z :=
  match bits with
  | O => r
  | S bits =>
      let r' := r + 2 ^ Z.of_nat bits in
      cube_root bits v (if r' * r' * r' <=? v then r' else r)
  end.

Definition round_constants : list Z :=
  Eval vm_compute in (λ p, w32 (cube_root 36 (Z.shiftl p 96) 0)) <$> primes.
Definition initial_hash : list Z :=
  Eval vm_compute in (λ p, w32 (Z.sqrt (Z.shiftl p 64))) <$> take 8 primes.

(** ** Message to blocks of sixteen words *)

Definition bytes_of (s : string) : list Z := (λ c, Z.of_N (N_of_ascii c)) <$> String.list_ascii_of_string s.

Definition be_bytes (n : nat) (v : Z) : list Z :=
  (λ i, Z.land (Z.shiftr v (8 * Z.of_nat i)) 0xFF) <$> rev (seq 0 n).

Definition padded (m : list Z) : list Z :=
  let zeros := Z.to_nat ((55 - Z.of_nat (length m)) mod 64) in
  m ++ [0x80] ++ replicate zeros 0 ++ be_bytes 8 (8 * Z.of_nat (length m)).

Fixpoint words (bs : list Z) : list Z :=
  match bs with
  | a :: b :: c :: d :: rest =>
      Z.lor (Z.shiftl a 24) (Z.lor (Z.shiftl b 16) (Z.lor (Z.shiftl c 8) d)) :: words rest
  | _ => []
  end.

(** ** One block *)

(** [recent] holds the last sixteen words, newest first. *)
Definition next_word (recent : list Z) : Z :=
  w32 (small_sigma1 (nth 1 recent 0) + nth 6 recent 0
       + small_sigma0 (nth 14 recent 0) + nth 15 recent 0).

Fixpoint schedule (n : nat) (newest_first : list Z) : list Z :=
  match n with
  | O => rev newest_first
  | S n => schedule n (next_word newest_first :: newest_first)
  end.

Definition mix (st : list Z) (kw : Z * Z) : list Z :=
  match st with
  | [a; b; c; d; e; f; g; h] =>
      let t1 := h + big_sigma1 e + choose e f g + kw.1 + kw.2 in
      let t2 := big_sigma0 a + majority a b c in
      [w32 (t1 + t2); a; b; c; w32 (d + t1); e; f; g]
  | _ => st
  end.

Definition compress (st block : list Z) : list Z :=
  let w := schedule 48 (rev block) in
  zip_with (λ x y, w32 (x + y)) st (foldl mix st (zip round_constants w)).

Fixpoint blocks (n : nat) (ws st : list Z) : list Z :=
  match n with
  | O => st
  | S n => blocks n (drop 16 ws) (compress st (take 16 ws))
  end.

Definition sha256 (m : list Z) : list Z :=
  let ws := words (padded m) in
  blocks (length ws `div` 16) ws initial_hash.

(** ** [hexdigest] *)

Definition hex_digit (v : Z) : ascii :=
  ascii_of_N (Z.to_N (if v <? 10 then 48 + v else 87 + v)).

Fixpoint hex (n : nat) (v : Z) (acc : string) : string :=
  match n with
  | O => acc
  | S n => hex n (Z.shiftr v 4) (String (hex_digit (Z.land v 15)) acc)
  end.

Definition hexdigest (st : list Z) : string := foldr (λ w acc, hex 8 w acc) "" st.

Definition sha256_hex (s : string) : string := hexdigest (sha256 (bytes_of s)).

(** The published test vectors. *)
Example sha256_abc :
  sha256_hex "abc" = "ba7816bf8f01cfea414140de5dae2223b00361a396177a9cb410ff61f20015ad"%string.
Proof. vm_compute. reflexivity. Qed.

Example sha256_empty :
  sha256_hex "" = "e3b0c44298fc1c149afbf4c8996fb92427ae41e4649b934ca495991b7852b855"%string.
Proof. vm_compute. reflexivity. Qed.

Example sha256_two_blocks :
  sha256_hex "abcdbcdecdefdefgefghfghighijhijkijkljklmklmnlmnomnopnopq"
  = "248d6a61d20638b8e5c026930c3e6039a33ce45964ff2167f6ecedd419db06c1"%string.
Proof. vm_compute. reflexivity. Qed.

#[global] Opaque sha256_hex.
