(* ===== verification/Chars.v ===== *)
(** * Python's [str] over UTF-8 bytes

    A [string] of this development is the UTF-8 encoding of a Python [str].
    [len], slicing and [split] count characters, not bytes; this file is the
    difference. *)

From S2P Require Import Prelude Text.

(** ** Characters *)

Definition byte_of (c : ascii) : Z := Z.of_N (N_of_ascii c).
Definition is_continuation (c : ascii) : bool := Z.land (byte_of c) 0xC0 =? 0x80.

(** The characters of [s], each as its bytes: a byte and the continuation bytes
    that follow it. *)
Fixpoint chars (s : string) : list string :=
  match s with
  | EmptyString => []
  | String b rest =>
      match chars rest with
      | String c x :: cs =>
          if is_continuation c then String b (String c x) :: cs
          else String b "" :: String c x :: cs
      | cs => String b "" :: cs
      end
  end.

Definition join_with (sep : string) (l : list string) : string :=
  match l with
  | [] => ""
  | x :: l => foldl (λ acc y, acc +:+ sep +:+ y) x l
  end.
Definition concat_text (l : list string) : string := foldr String.append "" l.

(** [len(s)] and [s[:n]] for [n >= 0] *)
Definition py_len (s : string) : nat := length (chars s).
Definition py_take (n : nat) (s : string) : string := concat_text (take n (chars s)).

(** ** White space *)

Definition utf8 (cp : Z) : string :=
  let b v := ascii_of_N (Z.to_N v) in
  let tail v := b (0x80 + Z.land v 0x3F) in
  if cp <? 0x80 then String (b cp) ""
  else if cp <? 0x800 then String (b (0xC0 + Z.shiftr cp 6)) (String (tail cp) "")
  else if cp <? 0x10000
       then String (b (0xE0 + Z.shiftr cp 12)) (String (tail (Z.shiftr cp 6)) (String (tail cp) ""))
  else String (b (0xF0 + Z.shiftr cp 18))
         (String (tail (Z.shiftr cp 12)) (String (tail (Z.shiftr cp 6)) (String (tail cp) ""))).

(** The code points of [str.isspace]. *)
Definition space_points : list Z :=
  [0x09; 0x0A; 0x0B; 0x0C; 0x0D; 0x1C; 0x1D; 0x1E; 0x1F; 0x20; 0x85; 0xA0; 0x1680;
   0x2000; 0x2001; 0x2002; 0x2003; 0x2004; 0x2005; 0x2006; 0x2007; 0x2008; 0x2009; 0x200A;
   0x2028; 0x2029; 0x202F; 0x205F; 0x3000].
Definition spaces : list string := Eval vm_compute in utf8 <$> space_points.
Definition is_space (c : string) : bool := bool_decide (c ∈ spaces).

(** [not s.strip()] *)
Definition blank (s : string) : bool := forallb is_space (chars s).

(** [s.split()]: the words between runs of white space. *)
Fixpoint split_words (cs : list string) (word : string) : list string :=
  match cs with
  | [] => if bool_decide (word = "") then [] else [word]
  | c :: cs =>
      if is_space c
      then (if bool_decide (word = "") then [] else [word]) ++ split_words cs ""
      else split_words cs (word +:+ c)
  end.
Definition py_split (s : string) : list string := split_words (chars s) "".

(** [sub in s], [s.startswith(p)] *)
Definition startswith (s p : string) : bool := String.prefix p s.

Example chars_counts : py_len "· → …" = 5%nat ∧ String.length "· → …" = 10%nat.
Proof. by vm_compute. Qed.
Example split_unicode : py_split (" a" +:+ utf8 0x2003 +:+ "b  c ") = ["a"; "b"; "c"]%string.
Proof. by vm_compute. Qed.

(** ** Lemmas *)

Lemma concat_chars s : concat_text (chars s) = s.
Proof.
  induction s as [|b s IH]; [done|]. simpl. revert IH.
  destruct (chars s) as [|[|c x] cs]; simpl; intros <-; [done|done|].
  by destruct (is_continuation c).
Qed.

(** *** Cutting between characters *)

Fixpoint continued (x : string) : bool :=
  match x with EmptyString => true | String b x => is_continuation b && continued x end.
(** A byte and its continuation bytes; a byte that begins a character. *)
Definition whole (c : string) : Prop := match c with EmptyString => False | String _ x => continued x = true end.
Definition begins (c : string) : Prop :=
  match c with EmptyString => False | String b _ => is_continuation b = false end.
Definition cut (cs : list string) : Prop := Forall whole cs ∧ Forall begins (tail cs).

Lemma chars_cut s : cut (chars s).
Proof.
  induction s as [|b s [Hw Hb]]; [by split|]. simpl.
  destruct (chars s) as [|[|c x] cs]; simpl in *.
  - split; by repeat constructor.
  - by apply Forall_cons in Hw as [[] _].
  - apply Forall_cons in Hw as [Hx Hw]. simpl in Hx. destruct (is_continuation c) eqn:E; split; simpl.
    + constructor; [|done]. simpl. by rewrite E.
    + done.
    + by repeat constructor.
    + by constructor.
Qed.

Lemma chars_concat cs : cut cs → chars (concat_text cs) = cs.
Proof.
  induction cs as [|c cs IH]; [done|]. intros [[Hc Hw]%Forall_cons Hb]. simpl in Hb.
  destruct c as [|b x]; [done|]. simpl in Hc.
  assert (chars (concat_text cs) = cs) as Hcs.
  { apply IH. split; [done|]. destruct cs; [done|]. by apply Forall_cons in Hb as [_ ?]. }
  clear IH. change (chars (String b (x +:+ concat_text cs)) = String b x :: cs).
  revert Hcs. generalize (concat_text cs) as t. intros t Ht. revert b. induction x as [|c x IHx]; intros b.
  - change ("" +:+ t) with t. simpl. rewrite Ht. destruct cs as [|[|c x] cs]; [done|by apply Forall_cons in Hw as [[] _]|].
    apply Forall_cons in Hb as [Hbc _]. simpl in Hbc. by rewrite Hbc.
  - simpl in Hc. apply andb_true_iff in Hc as [Hc Hx]. specialize (IHx Hx c).
    change (String c x +:+ t) with (String c (x +:+ t)). cbn [chars] in *. rewrite IHx. by rewrite Hc.
Qed.

Lemma concat_app l1 l2 : concat_text (l1 ++ l2) = concat_text l1 +:+ concat_text l2.
Proof. induction l1 as [|x l1 IH]; [done|]. simpl. by rewrite IH, string_app_assoc. Qed.

Lemma cut_take n cs : cut cs → cut (take n cs).
Proof.
  intros [Hw Hb]. split; [by apply Forall_take|]. destruct n, cs; simpl in *; try done. by apply Forall_take.
Qed.

Lemma cut_snoc cs c : cut cs → whole c → begins c → cut (cs ++ [c]).
Proof.
  intros [Hw Hb] Hc Hbc. split; [by apply Forall_app; split; [|constructor]|].
  destruct cs; simpl; [by constructor|]. apply Forall_app. split; [done|by constructor].
Qed.

(** *** Text with no stray continuation byte *)

(** No ASCII byte, and not the beginning either, is followed by a continuation
    byte: true of every UTF-8 encoding. *)
Fixpoint utf8_like (after_ascii : bool) (s : string) : bool :=
  match s with
  | EmptyString => true
  | String b s => negb (after_ascii && is_continuation b) && utf8_like (byte_of b <? 0x80)%Z s
  end.

(** An ASCII byte is a character of its own. *)
Definition lone (c : string) : Prop :=
  match c with EmptyString => True | String b x => (byte_of b < 0x80)%Z → x = "" end.

Lemma utf8_lone f s : utf8_like f s = true → Forall lone (chars s)
  ∧ (f = true → match chars s with [] => True | c :: _ => begins c end).
Proof.
  revert f. induction s as [|b s IH]; intros f H; [by split|]. simpl in *.
  apply andb_true_iff in H as [Hb Hs]. destruct (IH _ Hs) as [Hl Hf]. clear IH Hs.
  assert (f = true → is_continuation b = false) as Hfb
    by (intros ->; by destruct (is_continuation b)).
  pose proof (chars_cut s) as [Hw _].
  destruct (chars s) as [|[|c x] cs]; [| |destruct (is_continuation c) eqn:E].
  - split; [by repeat constructor|done].
  - by apply Forall_cons in Hw as [[] _].
  - apply Forall_cons in Hl as [_ Hl]. split; [|done]. constructor; [|done]. simpl. intros Hlt.
    apply Z.ltb_lt in Hlt. specialize (Hf Hlt). simpl in Hf. congruence.
  - split; [|done]. by constructor.
Qed.

Lemma utf8_app f a b : utf8_like f a = true → utf8_like true b = true → utf8_like f (a +:+ b) = true.
Proof.
  revert f. induction a as [|c a IH]; intros f Ha Hb; simpl in *.
  - destruct b as [|c b]; [done|]. simpl in *. apply andb_true_iff in Hb as [Hc Hb].
    rewrite Hb, andb_true_r. by destruct f.
  - apply andb_true_iff in Ha as [Hc Ha]. rewrite Hc. by apply IH.
Qed.
