(* ===== verification/Gate.v ===== *)
(** * The review gate's pure domain — [core/gate.py]

    Closed vocabularies, the value types with pydantic's field constraints as
    [_valid] predicates, the transition functions, the content address of a
    round, and the admissibility rule of an answer.  The prose of messages and
    [reason] fields is left out; a [GateQuestionError] keeps its code, a
    [GateError] a label.  Instants are microseconds;
    an [Z] is an aware [datetime]. *)

From S2P Require Import Prelude Text Sha256 Chars.

(** ** Vocabularies *)

Inductive RunState := RUN_OPEN | RUN_AWAITING_ANSWER | RUN_CLOSED_YES | RUN_CLOSED_NO | RUN_ABANDONED.
Inductive RoundState :=
  ROUND_OPEN | ROUND_BUILT | ROUND_ADJUDICATING | ROUND_YES | ROUND_NO | ROUND_ABANDONED.
Inductive EffectKind := SPAWN | MERGE | PUSH | REDEPLOY.
Inductive EffectOutcome := APPLIED | REFUSED | UNCERTAIN.
Inductive DispatchRole := BUILDER | LEDGER | ADJUDICATE | OTHER.
Inductive DispatchState :=
  PREPARED | DISPATCHED | AWAITING_ANSWER | RETURNED | FAILED | ABANDONED.
Inductive Severity := BLOCKER | SHOULD | NIT.
Inductive DispositionKind := FIXED | WITHDRAWN.
Inductive ConsumerState := UPDATED | NOT_APPLICABLE | DEFERRED.
Inductive QuestionState := Q_PENDING | Q_ESCALATED | Q_ANSWERED | Q_EXPIRED.
Inductive ContinuationKind := ASSIGNMENT | JOURNAL_CHECKPOINT.
Inductive NoticeIntentState := NI_PENDING | NI_SENT | NI_FAILED.
Inductive AnswerDeliveryState := AD_PENDING | AD_SENT | AD_CONSUMED | AD_FAILED.
Inductive NoticeClass := EXPECTED | ANOMALY.
Inductive QuestionRefusal :=
| DISPATCH_UNKNOWN | DISPATCH_SETTLED | QUESTION_EMPTY | QUESTION_OPEN | QUESTION_NOT_FOUND
| QUESTION_SETTLED | QUESTION_EXPIRED | OWNER_MISMATCH | EPOCH_SUPERSEDED | ANSWER_CONFLICT
| DEFAULT_REQUIRED | ILLEGAL_TRANSITION.

#[export] Instance RunState_eq_dec : EqDecision RunState. Proof. solve_decision. Defined.
#[export] Instance RoundState_eq_dec : EqDecision RoundState. Proof. solve_decision. Defined.
#[export] Instance EffectKind_eq_dec : EqDecision EffectKind. Proof. solve_decision. Defined.
#[export] Instance EffectOutcome_eq_dec : EqDecision EffectOutcome. Proof. solve_decision. Defined.
#[export] Instance DispatchRole_eq_dec : EqDecision DispatchRole. Proof. solve_decision. Defined.
#[export] Instance DispatchState_eq_dec : EqDecision DispatchState. Proof. solve_decision. Defined.
#[export] Instance Severity_eq_dec : EqDecision Severity. Proof. solve_decision. Defined.
#[export] Instance DispositionKind_eq_dec : EqDecision DispositionKind. Proof. solve_decision. Defined.
#[export] Instance ConsumerState_eq_dec : EqDecision ConsumerState. Proof. solve_decision. Defined.
#[export] Instance QuestionState_eq_dec : EqDecision QuestionState. Proof. solve_decision. Defined.
#[export] Instance ContinuationKind_eq_dec : EqDecision ContinuationKind. Proof. solve_decision. Defined.
#[export] Instance NoticeIntentState_eq_dec : EqDecision NoticeIntentState. Proof. solve_decision. Defined.
#[export] Instance AnswerDeliveryState_eq_dec : EqDecision AnswerDeliveryState.
Proof. solve_decision. Defined.
#[export] Instance NoticeClass_eq_dec : EqDecision NoticeClass. Proof. solve_decision. Defined.
#[export] Instance QuestionRefusal_eq_dec : EqDecision QuestionRefusal. Proof. solve_decision. Defined.

Local Open Scope string_scope.
Local Open Scope Z_scope.

Definition RunState_value (s : RunState) : string :=
  match s with
  | RUN_OPEN => "open" | RUN_AWAITING_ANSWER => "awaiting_answer"
  | RUN_CLOSED_YES => "closed_yes" | RUN_CLOSED_NO => "closed_no" | RUN_ABANDONED => "abandoned"
  end.
Definition RoundState_value (s : RoundState) : string :=
  match s with
  | ROUND_OPEN => "open" | ROUND_BUILT => "built" | ROUND_ADJUDICATING => "adjudicating"
  | ROUND_YES => "yes" | ROUND_NO => "no" | ROUND_ABANDONED => "abandoned"
  end.
Definition DispatchRole_value (r : DispatchRole) : string :=
  match r with
  | BUILDER => "builder" | LEDGER => "ledger" | ADJUDICATE => "adjudicate" | OTHER => "other"
  end.
Definition DispatchState_value (s : DispatchState) : string :=
  match s with
  | PREPARED => "prepared" | DISPATCHED => "dispatched" | AWAITING_ANSWER => "awaiting_answer"
  | RETURNED => "returned" | FAILED => "failed" | ABANDONED => "abandoned"
  end.
Definition Severity_value (s : Severity) : string :=
  match s with BLOCKER => "blocker" | SHOULD => "should" | NIT => "nit" end.
Definition NoticeClass_value (c : NoticeClass) : string :=
  match c with EXPECTED => "expected" | ANOMALY => "anomaly" end.
Definition QuestionRefusal_value (r : QuestionRefusal) : string :=
  match r with
  | DISPATCH_UNKNOWN => "E_DISPATCH_UNKNOWN" | DISPATCH_SETTLED => "E_DISPATCH_SETTLED"
  | QUESTION_EMPTY => "E_QUESTION_EMPTY" | QUESTION_OPEN => "E_QUESTION_OPEN"
  | QUESTION_NOT_FOUND => "E_QUESTION_NOT_FOUND" | QUESTION_SETTLED => "E_QUESTION_SETTLED"
  | QUESTION_EXPIRED => "E_QUESTION_EXPIRED" | OWNER_MISMATCH => "E_OWNER_MISMATCH"
  | EPOCH_SUPERSEDED => "E_EPOCH_SUPERSEDED" | ANSWER_CONFLICT => "E_ANSWER_CONFLICT"
  | DEFAULT_REQUIRED => "E_DEFAULT_REQUIRED" | ILLEGAL_TRANSITION => "E_ILLEGAL_TRANSITION"
  end.

(** [GateQuestionError(code, ..)] *)
Definition refusal (r : QuestionRefusal) : exn := GateQuestionError (QuestionRefusal_value r).

(** ** Value types

    [nonempty] is [Field(min_length=1)].  A [_valid] predicate is what the
    constructor of the model checks; a constructor that fails is a [ValueError]. *)

Definition nonempty (s : string) : bool := negb (bool_decide (s = "")).

Record RepoBinding := { rb_name : string; rb_commit : string }.
Definition RepoBinding_valid (b : RepoBinding) : bool := nonempty (rb_name b) && nonempty (rb_commit b).

Record DiffEntry := {
  de_pre_path : option string;
  de_post_path : option string;
  de_mode : string;
  de_pre_object_id : option string;
  de_post_object_id : option string;
  de_deleted : bool;
}.

Record ArtifactManifest := {
  am_manifest_version : Z;
  am_repo_bindings : list RepoBinding;
  am_base_sha : string;
  am_head_sha : string;
  am_branch : string;
  am_worktree_path : string;
  am_entries : list DiffEntry;
  am_blueprint_sha : string;
  am_ac_list_sha : string;
}.
Definition ArtifactManifest_valid (m : ArtifactManifest) : bool :=
  (1 <=? am_manifest_version m) && forallb RepoBinding_valid (am_repo_bindings m)
  && nonempty (am_base_sha m) && nonempty (am_head_sha m) && nonempty (am_branch m)
  && nonempty (am_worktree_path m) && nonempty (am_blueprint_sha m) && nonempty (am_ac_list_sha m).

Record ExecutionTarget := { et_host : string; et_scratch_root : string }.
Definition ExecutionTarget_valid (t : ExecutionTarget) : bool := nonempty (et_host t).

Record EffectIntent := {
  ei_effect_id : string;
  ei_kind : EffectKind;
  ei_round_id : option string;
  ei_dispatch_id : option string;
  ei_approval_ref : option string;
  ei_requested_at : Z;
}.
Definition EffectIntent_valid (i : EffectIntent) : bool := nonempty (ei_effect_id i).

Record EffectResult := {
  er_effect_id : string;
  er_outcome : EffectOutcome;
  er_evidence_ref : string;
  er_settled_at : option Z;
}.
Definition EffectResult_valid (r : EffectResult) : bool := nonempty (er_effect_id r).

Record Dispatch := {
  dp_dispatch_id : string;
  dp_round_id : option string;
  dp_role : DispatchRole;
  dp_position : string;
  dp_routing_revision : string;
  dp_conversation_id : option string;
  dp_terminal_incarnation : option string;
  dp_request_id : string;
  dp_effect_id : option string;
  dp_pins : list string;
  dp_brief_blob_sha : string;
  dp_state : DispatchState;
  dp_outcome : option string;
}.
Definition Dispatch_valid (d : Dispatch) : bool :=
  nonempty (dp_dispatch_id d) && nonempty (dp_position d) && nonempty (dp_request_id d).

Record Disposition := {
  di_kind : DispositionKind;
  di_reviewed_artifact_sha : string;
  di_killer_test : option string;
  di_killer_mutant : option string;
  di_actor : option string;
  di_reason : option string;
  di_at : Z;
}.

Record OpenFinding := {
  of_finding_id : string;
  of_raised_in_round : string;
  of_severity : Severity;
  of_statement : string;
  of_dispositions : list Disposition;
}.
Definition OpenFinding_valid (f : OpenFinding) : bool :=
  nonempty (of_finding_id f) && nonempty (of_raised_in_round f) && nonempty (of_statement f).
Definition of_is_open (f : OpenFinding) : bool := (length (of_dispositions f) =? 0)%nat.

Record ConsumerDisposition := { cd_symbol : string; cd_site : string; cd_state : ConsumerState }.
Definition ConsumerDisposition_valid (c : ConsumerDisposition) : bool :=
  nonempty (cd_symbol c) && nonempty (cd_site c).

Record ConsumerCoverage := {
  cc_xref_sha : string;
  cc_reviewed_artifact_sha : string;
  cc_consumers : list ConsumerDisposition;
  cc_unresolved_dynamic : list string;
}.
Definition ConsumerCoverage_valid (c : ConsumerCoverage) : bool :=
  nonempty (cc_xref_sha c) && nonempty (cc_reviewed_artifact_sha c)
  && forallb ConsumerDisposition_valid (cc_consumers c).

Record GateRun := {
  rn_run_id : string;
  rn_wp : string;
  rn_lane : string;
  rn_workflow_source_sha : string;
  rn_input_sha : string;
  rn_owner_conversation : string;
  rn_owner_epoch : Z;
  rn_max_rounds : Z;
  rn_row_version : Z;
  rn_state : RunState;
}.
Definition GateRun_valid (r : GateRun) : bool :=
  nonempty (rn_run_id r) && nonempty (rn_wp r) && nonempty (rn_lane r)
  && nonempty (rn_owner_conversation r) && (0 <=? rn_owner_epoch r) && (0 <? rn_max_rounds r)
  && (1 <=? rn_row_version r).

Record GateRound := {
  gr_round_id : string;
  gr_run_id : string;
  gr_round_no : Z;
  gr_predecessor_round_id : option string;
  gr_build_inputs : ArtifactManifest;
  gr_review_snapshot : option ArtifactManifest;
  gr_execution_target : ExecutionTarget;
  gr_test_command : string;
  gr_evidence_tier : string;
  gr_fixture_corpus_sha : option string;
  gr_fixture_frame_count : option Z;
  gr_subject_sha : option string;
  gr_report_bytes_sha : option string;
  gr_verdict_report_sha : option string;
  gr_state : RoundState;
  gr_generation : Z;
  gr_row_version : Z;
  gr_created_at : Z;
  gr_closed_at : option Z;
}.
Definition GateRound_valid (r : GateRound) : bool :=
  nonempty (gr_round_id r) && nonempty (gr_run_id r) && (1 <=? gr_round_no r)
  && ArtifactManifest_valid (gr_build_inputs r)
  && match gr_review_snapshot r with None => true | Some m => ArtifactManifest_valid m end
  && ExecutionTarget_valid (gr_execution_target r)
  && (0 <=? gr_generation r) && (1 <=? gr_row_version r).

Record RoundQuestion := {
  rq_question_id : string;
  rq_dispatch_id : string;
  rq_round_id : option string;
  rq_client_request_id : string;
  rq_owner_conversation : string;
  rq_owner_epoch : Z;
  rq_continuation_kind : ContinuationKind;
  rq_continuation_ref : string;
  rq_asked_at : Z;
  rq_expires_at : Z;
  rq_question : string;
  rq_options : list string;
  rq_answer_schema : option string;
  rq_default_answer : option string;
  rq_blocking : bool;
  rq_state : QuestionState;
  rq_answer_event_id : option string;
  rq_consumed_at : option Z;
  rq_user_prompt_id : option string;
  rq_dispatch_prior_state : option DispatchState;
  rq_row_version : Z;
}.
Definition RoundQuestion_valid (q : RoundQuestion) : bool :=
  nonempty (rq_question_id q) && nonempty (rq_dispatch_id q) && nonempty (rq_client_request_id q)
  && nonempty (rq_owner_conversation q) && (0 <=? rq_owner_epoch q) && nonempty (rq_question q)
  && (1 <=? rq_row_version q).
Definition rq_is_open (q : RoundQuestion) : bool :=
  bool_decide (rq_state q ∈ [Q_PENDING; Q_ESCALATED]).

Record QuestionAnswer := {
  qa_answer_event_id : string;
  qa_question_id : string;
  qa_answer : string;
  qa_answered_by : string;
  qa_answered_at : Z;
  qa_client_request_id : string;
}.
Definition QuestionAnswer_valid (a : QuestionAnswer) : bool :=
  nonempty (qa_answer_event_id a) && nonempty (qa_question_id a) && nonempty (qa_answered_by a)
  && nonempty (qa_client_request_id a).

Record AnswerAdmissibility := { aa_admissible : bool; aa_code : option QuestionRefusal }.

Record RoundProjection := {
  rp_run : GateRun;
  rp_round : GateRound;
  rp_dispatches : list Dispatch;
  rp_effect_intents : list EffectIntent;
  rp_effect_results : list EffectResult;
  rp_open_findings : list OpenFinding;
  rp_consumer_coverage : list ConsumerCoverage;
  rp_questions : list RoundQuestion;
}.

Record ClaimOwnershipResult := {
  co_accepted : bool;
  co_runs_rewritten : Z;
  co_questions_rewritten : Z;
  co_transfer_id : option string;
}.

(** ** Transitions and invariants *)

Definition validate_max_rounds (max_rounds : Z) : outcome Z :=
  if max_rounds <=? 0 then Raised (GateError "max_rounds") else Returned max_rounds.

(** [legal.get(current, frozenset())] *)
Definition legal_run (current : RunState) : list RunState :=
  match current with
  | RUN_OPEN => [RUN_CLOSED_YES; RUN_CLOSED_NO; RUN_ABANDONED]
  | RUN_AWAITING_ANSWER => [RUN_OPEN; RUN_ABANDONED]
  | RUN_CLOSED_YES | RUN_CLOSED_NO | RUN_ABANDONED => []
  end.
Definition next_run_state (current target : RunState) : outcome RunState :=
  if bool_decide (target = RUN_AWAITING_ANSWER) then Raised (GateError "AWAITING_ANSWER")
  else if negb (bool_decide (target ∈ legal_run current))
  then Raised (GateError "illegal run transition") else Returned target.

Definition legal_round (current : RoundState) : list RoundState :=
  match current with
  | ROUND_OPEN => [ROUND_BUILT; ROUND_ABANDONED]
  | ROUND_BUILT => [ROUND_ADJUDICATING; ROUND_ABANDONED]
  | ROUND_ADJUDICATING => [ROUND_YES; ROUND_NO; ROUND_ABANDONED]
  | ROUND_YES | ROUND_NO | ROUND_ABANDONED => []
  end.
Definition next_round_state (current target : RoundState) : outcome RoundState :=
  if negb (bool_decide (target ∈ legal_round current))
  then Raised (GateError "illegal round transition") else Returned target.

Definition run_awaiting_answer (dispatch_states : list DispatchState) : bool :=
  existsb (λ s, bool_decide (s = AWAITING_ANSWER)) dispatch_states.

(** [not x] of an optional string *)
Definition falsy (x : option string) : bool :=
  match x with None => true | Some s => negb (nonempty s) end.

Definition validate_disposition (d : Disposition) : outcome Disposition :=
  match di_kind d with
  | FIXED =>
      if negb (nonempty (di_reviewed_artifact_sha d)) then Raised (GateError "reviewed artifact sha")
      else if falsy (di_killer_test d) || falsy (di_killer_mutant d)
      then Raised (GateError "killer evidence") else Returned d
  | WITHDRAWN =>
      if falsy (di_actor d) || falsy (di_reason d) then Raised (GateError "actor and reason")
      else Returned d
  end.

(** ** The content address *)

Definition NUL : string := String (ascii_of_nat 0) "".
Definition RECORD_SEPARATOR : string := String (ascii_of_nat 30) "".

(** One call of [_feed]: what it adds to the hashed bytes. *)
Definition _feed (r : string * string) : string := r.1 +:+ NUL +:+ r.2 +:+ RECORD_SEPARATOR.

Definition repo_field (b : RepoBinding) : string := rb_name b +:+ "@" +:+ rb_commit b.
Definition or_empty (o : option string) : string := default "" o.
Definition entry_field (e : DiffEntry) : string :=
  join_with "|" [or_empty (de_pre_path e); or_empty (de_post_path e); de_mode e;
                 or_empty (de_pre_object_id e); or_empty (de_post_object_id e);
                 if de_deleted e then "1" else "0"].

(** The calls of [_feed], in order. *)
Definition artifact_records (m : ArtifactManifest) : list (string * string) :=
  [("manifest_version", pretty (am_manifest_version m))]
  ++ ((λ b, ("repo", repo_field b)) <$> am_repo_bindings m)
  ++ [("base", am_base_sha m); ("head", am_head_sha m); ("branch", am_branch m)]
  ++ ((λ e, ("entry", entry_field e)) <$> am_entries m)
  ++ [("blueprint", am_blueprint_sha m); ("ac_list", am_ac_list_sha m)].
Definition artifact_bytes (m : ArtifactManifest) : string :=
  concat_text (_feed <$> artifact_records m).

Definition compute_artifact_sha (m : ArtifactManifest) : string := sha256_hex (artifact_bytes m).

Definition render_scratch_root (target : ExecutionTarget) (round_id : string) : outcome string :=
  if negb (nonempty round_id) then Raised (GateError "scratch root without a round id") else
  let host := et_host target in
  if startswith host "grok-box" || startswith host "box-"
  then Returned ("~/box-scratch/" +:+ round_id +:+ "/")
  else if bool_decide (host = "laptop") then Returned ("/data/cao-scratch/" +:+ round_id +:+ "/")
  else Raised (GateError "no scratch root for host").

Definition may_accept_round (r : GateRound) (declared_subject_sha declared_report_bytes_sha
    cas_report_bytes_sha : string) : outcome () :=
  if negb (bool_decide (gr_state r = ROUND_YES)) then Raised (GateError "accepted only from YES") else
  match gr_review_snapshot r with
  | None => Raised (GateError "no frozen review snapshot")
  | Some snapshot =>
      let subject := compute_artifact_sha snapshot in
      if negb (bool_decide (declared_subject_sha = subject))
      then Raised (GateError "declared subject hash")
      else if negb (bool_decide (declared_report_bytes_sha = cas_report_bytes_sha))
      then Raised (GateError "declared report bytes hash")
      else Returned ()
  end.

Definition epoch_supersedes (current_epoch new_epoch : Z) : bool := current_epoch <? new_epoch.

(** ** The question primitive *)

Definition LIVE_DISPATCH_STATES : list DispatchState := [PREPARED; DISPATCHED; AWAITING_ANSWER].
Definition dispatch_may_be_suspended (s : DispatchState) : bool :=
  bool_decide (s ∈ LIVE_DISPATCH_STATES).

Definition legal_question (current : QuestionState) : list QuestionState :=
  match current with
  | Q_PENDING => [Q_ESCALATED; Q_ANSWERED; Q_EXPIRED]
  | Q_ESCALATED => [Q_ANSWERED; Q_EXPIRED]
  | Q_ANSWERED | Q_EXPIRED => []
  end.
Definition next_question_state (current target : QuestionState) : outcome QuestionState :=
  if negb (bool_decide (target ∈ legal_question current))
  then Raised (refusal ILLEGAL_TRANSITION) else Returned target.

Definition validate_ask (blocking : bool) (default_answer : option string) (question : string)
    (asked_at expires_at : Z) : outcome () :=
  if blank question then Raised (refusal QUESTION_EMPTY)
  else if negb blocking && falsy default_answer then Raised (refusal DEFAULT_REQUIRED)
  else if expires_at <=? asked_at then Raised (refusal QUESTION_EXPIRED)
  else Returned ().

Definition answer_admissible (q : RoundQuestion) (caller_conversation : string)
    (caller_epoch now : Z) : AnswerAdmissibility :=
  if bool_decide (rq_state q ∈ [Q_ANSWERED; Q_EXPIRED])
  then {| aa_admissible := false; aa_code := Some QUESTION_SETTLED |}
  else if rq_expires_at q <=? now
  then {| aa_admissible := false; aa_code := Some QUESTION_EXPIRED |}
  else if negb (bool_decide (caller_conversation = rq_owner_conversation q))
  then {| aa_admissible := false; aa_code := Some OWNER_MISMATCH |}
  else if epoch_supersedes caller_epoch (rq_owner_epoch q)
  then {| aa_admissible := false; aa_code := Some EPOCH_SUPERSEDED |}
  else {| aa_admissible := true; aa_code := None |}.
