(* ===== verification/GateRows.v ===== *)
(** * The gate's tables and the statements on them

    The tables of [adapters/store/migrator.py] that hold the gate record, as
    lists of rows in rowid order, with the primary keys and unique indexes an
    INSERT is checked against.  A row is the model object it was written from,
    next to the columns the model does not have; the JSON columns are the values
    they encode. *)

From S2P Require Import Prelude Gate.

(** ** Rows that are not model objects *)

Record run_row := { rr_run : GateRun; rr_created_at : Z }.

Record finding_base := {
  fb_finding_id : string;
  fb_raised_in_round : string;
  fb_run_id : string;
  fb_severity : Severity;
  fb_statement : string;
  fb_created_at : Z;
}.

Record disposition_row := { dr_finding_id : string; dr_seq : Z; dr_disposition : Disposition }.

Record coverage_row := { cr_round_id : string; cr_coverage : ConsumerCoverage }.

Record delivery_intent := {
  ad_answer_event_id : string;
  ad_state : AnswerDeliveryState;
  ad_settled_at : option Z;
}.

Record notice_intent := {
  ni_question_id : string;
  ni_state : NoticeIntentState;
  ni_msg_id : option string;
  ni_attempts : Z;
  ni_last_error : option string;
  ni_settled_at : option Z;
}.

Record transfer_row := {
  ot_transfer_id : string;
  ot_prior_conversation : string;
  ot_prior_epoch : Z;
  ot_new_conversation : string;
  ot_new_epoch : Z;
  ot_run_id : option string;
  ot_runs_rewritten : Z;
  ot_questions_rewritten : Z;
  ot_claimed_by : string;
  ot_claimed_at : Z;
  ot_client_request_id : string;
}.

(** ** The database *)

Record gate := {
  gate_run : list run_row;
  gate_round : list GateRound;
  gate_dispatch : list Dispatch;
  gate_effect_intent : list EffectIntent;
  gate_effect_result : list EffectResult;
  gate_open_finding : list finding_base;
  gate_disposition : list disposition_row;
  gate_consumer_coverage : list coverage_row;
  round_question : list RoundQuestion;
  question_answer : list QuestionAnswer;
  answer_delivery_intent : list delivery_intent;
  question_notice_intent : list notice_intent;
  ownership_transfer : list transfer_row;
}.

Definition empty_gate : gate := {|
  gate_run := []; gate_round := []; gate_dispatch := []; gate_effect_intent := [];
  gate_effect_result := []; gate_open_finding := []; gate_disposition := [];
  gate_consumer_coverage := []; round_question := []; question_answer := [];
  answer_delivery_intent := []; question_notice_intent := []; ownership_transfer := [] |}.

Definition set_runs (t : list run_row) (g : gate) : gate := {|
  gate_run := t; gate_round := gate_round g; gate_dispatch := gate_dispatch g;
  gate_effect_intent := gate_effect_intent g; gate_effect_result := gate_effect_result g;
  gate_open_finding := gate_open_finding g; gate_disposition := gate_disposition g;
  gate_consumer_coverage := gate_consumer_coverage g; round_question := round_question g;
  question_answer := question_answer g; answer_delivery_intent := answer_delivery_intent g;
  question_notice_intent := question_notice_intent g; ownership_transfer := ownership_transfer g |}.
Definition set_rounds (t : list GateRound) (g : gate) : gate := {|
  gate_run := gate_run g; gate_round := t; gate_dispatch := gate_dispatch g;
  gate_effect_intent := gate_effect_intent g; gate_effect_result := gate_effect_result g;
  gate_open_finding := gate_open_finding g; gate_disposition := gate_disposition g;
  gate_consumer_coverage := gate_consumer_coverage g; round_question := round_question g;
  question_answer := question_answer g; answer_delivery_intent := answer_delivery_intent g;
  question_notice_intent := question_notice_intent g; ownership_transfer := ownership_transfer g |}.
Definition set_dispatches (t : list Dispatch) (g : gate) : gate := {|
  gate_run := gate_run g; gate_round := gate_round g; gate_dispatch := t;
  gate_effect_intent := gate_effect_intent g; gate_effect_result := gate_effect_result g;
  gate_open_finding := gate_open_finding g; gate_disposition := gate_disposition g;
  gate_consumer_coverage := gate_consumer_coverage g; round_question := round_question g;
  question_answer := question_answer g; answer_delivery_intent := answer_delivery_intent g;
  question_notice_intent := question_notice_intent g; ownership_transfer := ownership_transfer g |}.
Definition set_intents (t : list EffectIntent) (g : gate) : gate := {|
  gate_run := gate_run g; gate_round := gate_round g; gate_dispatch := gate_dispatch g;
  gate_effect_intent := t; gate_effect_result := gate_effect_result g;
  gate_open_finding := gate_open_finding g; gate_disposition := gate_disposition g;
  gate_consumer_coverage := gate_consumer_coverage g; round_question := round_question g;
  question_answer := question_answer g; answer_delivery_intent := answer_delivery_intent g;
  question_notice_intent := question_notice_intent g; ownership_transfer := ownership_transfer g |}.
Definition set_results (t : list EffectResult) (g : gate) : gate := {|
  gate_run := gate_run g; gate_round := gate_round g; gate_dispatch := gate_dispatch g;
  gate_effect_intent := gate_effect_intent g; gate_effect_result := t;
  gate_open_finding := gate_open_finding g; gate_disposition := gate_disposition g;
  gate_consumer_coverage := gate_consumer_coverage g; round_question := round_question g;
  question_answer := question_answer g; answer_delivery_intent := answer_delivery_intent g;
  question_notice_intent := question_notice_intent g; ownership_transfer := ownership_transfer g |}.
Definition set_open_findings (t : list finding_base) (g : gate) : gate := {|
  gate_run := gate_run g; gate_round := gate_round g; gate_dispatch := gate_dispatch g;
  gate_effect_intent := gate_effect_intent g; gate_effect_result := gate_effect_result g;
  gate_open_finding := t; gate_disposition := gate_disposition g;
  gate_consumer_coverage := gate_consumer_coverage g; round_question := round_question g;
  question_answer := question_answer g; answer_delivery_intent := answer_delivery_intent g;
  question_notice_intent := question_notice_intent g; ownership_transfer := ownership_transfer g |}.
Definition set_dispositions (t : list disposition_row) (g : gate) : gate := {|
  gate_run := gate_run g; gate_round := gate_round g; gate_dispatch := gate_dispatch g;
  gate_effect_intent := gate_effect_intent g; gate_effect_result := gate_effect_result g;
  gate_open_finding := gate_open_finding g; gate_disposition := t;
  gate_consumer_coverage := gate_consumer_coverage g; round_question := round_question g;
  question_answer := question_answer g; answer_delivery_intent := answer_delivery_intent g;
  question_notice_intent := question_notice_intent g; ownership_transfer := ownership_transfer g |}.
Definition set_coverages (t : list coverage_row) (g : gate) : gate := {|
  gate_run := gate_run g; gate_round := gate_round g; gate_dispatch := gate_dispatch g;
  gate_effect_intent := gate_effect_intent g; gate_effect_result := gate_effect_result g;
  gate_open_finding := gate_open_finding g; gate_disposition := gate_disposition g;
  gate_consumer_coverage := t; round_question := round_question g;
  question_answer := question_answer g; answer_delivery_intent := answer_delivery_intent g;
  question_notice_intent := question_notice_intent g; ownership_transfer := ownership_transfer g |}.
Definition set_questions (t : list RoundQuestion) (g : gate) : gate := {|
  gate_run := gate_run g; gate_round := gate_round g; gate_dispatch := gate_dispatch g;
  gate_effect_intent := gate_effect_intent g; gate_effect_result := gate_effect_result g;
  gate_open_finding := gate_open_finding g; gate_disposition := gate_disposition g;
  gate_consumer_coverage := gate_consumer_coverage g; round_question := t;
  question_answer := question_answer g; answer_delivery_intent := answer_delivery_intent g;
  question_notice_intent := question_notice_intent g; ownership_transfer := ownership_transfer g |}.
Definition set_answers (t : list QuestionAnswer) (g : gate) : gate := {|
  gate_run := gate_run g; gate_round := gate_round g; gate_dispatch := gate_dispatch g;
  gate_effect_intent := gate_effect_intent g; gate_effect_result := gate_effect_result g;
  gate_open_finding := gate_open_finding g; gate_disposition := gate_disposition g;
  gate_consumer_coverage := gate_consumer_coverage g; round_question := round_question g;
  question_answer := t; answer_delivery_intent := answer_delivery_intent g;
  question_notice_intent := question_notice_intent g; ownership_transfer := ownership_transfer g |}.
Definition set_deliveries (t : list delivery_intent) (g : gate) : gate := {|
  gate_run := gate_run g; gate_round := gate_round g; gate_dispatch := gate_dispatch g;
  gate_effect_intent := gate_effect_intent g; gate_effect_result := gate_effect_result g;
  gate_open_finding := gate_open_finding g; gate_disposition := gate_disposition g;
  gate_consumer_coverage := gate_consumer_coverage g; round_question := round_question g;
  question_answer := question_answer g; answer_delivery_intent := t;
  question_notice_intent := question_notice_intent g; ownership_transfer := ownership_transfer g |}.
Definition set_notices (t : list notice_intent) (g : gate) : gate := {|
  gate_run := gate_run g; gate_round := gate_round g; gate_dispatch := gate_dispatch g;
  gate_effect_intent := gate_effect_intent g; gate_effect_result := gate_effect_result g;
  gate_open_finding := gate_open_finding g; gate_disposition := gate_disposition g;
  gate_consumer_coverage := gate_consumer_coverage g; round_question := round_question g;
  question_answer := question_answer g; answer_delivery_intent := answer_delivery_intent g;
  question_notice_intent := t; ownership_transfer := ownership_transfer g |}.
Definition set_transfers (t : list transfer_row) (g : gate) : gate := {|
  gate_run := gate_run g; gate_round := gate_round g; gate_dispatch := gate_dispatch g;
  gate_effect_intent := gate_effect_intent g; gate_effect_result := gate_effect_result g;
  gate_open_finding := gate_open_finding g; gate_disposition := gate_disposition g;
  gate_consumer_coverage := gate_consumer_coverage g; round_question := round_question g;
  question_answer := question_answer g; answer_delivery_intent := answer_delivery_intent g;
  question_notice_intent := question_notice_intent g; ownership_transfer := t |}.

Definition on_runs {A} (m : M (list run_row) A) : M gate A := zoom gate_run set_runs m.
Definition on_rounds {A} (m : M (list GateRound) A) : M gate A := zoom gate_round set_rounds m.
Definition on_dispatches {A} (m : M (list Dispatch) A) : M gate A := zoom gate_dispatch set_dispatches m.
Definition on_intents {A} (m : M (list EffectIntent) A) : M gate A :=
  zoom gate_effect_intent set_intents m.
Definition on_results {A} (m : M (list EffectResult) A) : M gate A :=
  zoom gate_effect_result set_results m.
Definition on_open_findings {A} (m : M (list finding_base) A) : M gate A :=
  zoom gate_open_finding set_open_findings m.
Definition on_dispositions {A} (m : M (list disposition_row) A) : M gate A :=
  zoom gate_disposition set_dispositions m.
Definition on_coverages {A} (m : M (list coverage_row) A) : M gate A :=
  zoom gate_consumer_coverage set_coverages m.
Definition on_questions {A} (m : M (list RoundQuestion) A) : M gate A :=
  zoom round_question set_questions m.
Definition on_answers {A} (m : M (list QuestionAnswer) A) : M gate A := zoom question_answer set_answers m.
Definition on_deliveries {A} (m : M (list delivery_intent) A) : M gate A :=
  zoom answer_delivery_intent set_deliveries m.
Definition on_notices {A} (m : M (list notice_intent) A) : M gate A :=
  zoom question_notice_intent set_notices m.
Definition on_transfers {A} (m : M (list transfer_row) A) : M gate A :=
  zoom ownership_transfer set_transfers m.

(** ** Statements on one table *)

Section SQL.
Context {R : Type}.

(** [INSERT]; [clash x] says that [x] forbids the new row by a primary key or a
    unique index. *)
Definition insert_row (table : string) (clash : R → bool) (r : R) : M (list R) () := λ t,
  if existsb clash t then (t, Raised (IntegrityError table)) else (t ++ [r], Returned ()).

(** [INSERT .. ON CONFLICT DO NOTHING]; whether it inserted. *)
Definition insert_or_ignore (clash : R → bool) (r : R) : M (list R) bool := λ t,
  if existsb clash t then (t, Returned false) else (t ++ [r], Returned true).

(** [INSERT .. ON CONFLICT DO UPDATE SET] every other column. *)
Definition upsert_row (clash : R → bool) (r : R) : M (list R) () := λ t,
  if existsb clash t then (update_where clash (λ _, r) t, Returned ()) else (t ++ [r], Returned ()).

(** [UPDATE .. WHERE p], with its row count. *)
Definition update_rows (p : R → bool) (f : R → R) : M (list R) nat := λ t,
  (update_where p f t, Returned (rowcount p t)).

(** [SELECT .. WHERE p] and [fetchone()] *)
Definition fetch_one (p : R → bool) : M (list R) (option R) := gets (λ t, head (select_where p t)).
Definition fetch_all (p : R → bool) : M (list R) (list R) := gets (select_where p).
End SQL.

(** [MAX(column)]: NULL on no rows. *)
Definition sql_max (l : list Z) : option Z :=
  match l with [] => None | x :: l => Some (foldl Z.max x l) end.

(** The constructor of a model: [ValidationError], a [ValueError], when a field
    constraint fails. *)
Definition construct {A} (valid : A → bool) (model : string) (a : A) : outcome A :=
  if valid a then Returned a else Raised (ValueError model).

(** ** Column assignments *)

Definition run_with (r : GateRun) (owner_conversation : string) (owner_epoch row_version : Z)
    (st : RunState) : GateRun := {|
  rn_run_id := rn_run_id r; rn_wp := rn_wp r; rn_lane := rn_lane r;
  rn_workflow_source_sha := rn_workflow_source_sha r; rn_input_sha := rn_input_sha r;
  rn_owner_conversation := owner_conversation; rn_owner_epoch := owner_epoch;
  rn_max_rounds := rn_max_rounds r; rn_row_version := row_version; rn_state := st |}.
Definition on_run (f : GateRun → GateRun) (x : run_row) : run_row :=
  {| rr_run := f (rr_run x); rr_created_at := rr_created_at x |}.

Definition round_with (r : GateRound) (snapshot : option ArtifactManifest)
    (subject report verdict : option string) (st : RoundState) (row_version : Z)
    (closed_at : option Z) : GateRound := {|
  gr_round_id := gr_round_id r; gr_run_id := gr_run_id r; gr_round_no := gr_round_no r;
  gr_predecessor_round_id := gr_predecessor_round_id r; gr_build_inputs := gr_build_inputs r;
  gr_review_snapshot := snapshot; gr_execution_target := gr_execution_target r;
  gr_test_command := gr_test_command r; gr_evidence_tier := gr_evidence_tier r;
  gr_fixture_corpus_sha := gr_fixture_corpus_sha r;
  gr_fixture_frame_count := gr_fixture_frame_count r;
  gr_subject_sha := subject; gr_report_bytes_sha := report; gr_verdict_report_sha := verdict;
  gr_state := st; gr_generation := gr_generation r; gr_row_version := row_version;
  gr_created_at := gr_created_at r; gr_closed_at := closed_at |}.

Definition set_dispatch_state (s : DispatchState) (d : Dispatch) : Dispatch := {|
  dp_dispatch_id := dp_dispatch_id d; dp_round_id := dp_round_id d; dp_role := dp_role d;
  dp_position := dp_position d; dp_routing_revision := dp_routing_revision d;
  dp_conversation_id := dp_conversation_id d; dp_terminal_incarnation := dp_terminal_incarnation d;
  dp_request_id := dp_request_id d; dp_effect_id := dp_effect_id d; dp_pins := dp_pins d;
  dp_brief_blob_sha := dp_brief_blob_sha d; dp_state := s; dp_outcome := dp_outcome d |}.

Definition question_with (q : RoundQuestion) (owner_conversation : string) (owner_epoch : Z)
    (st : QuestionState) (answer_event_id : option string) (consumed_at : option Z)
    (prior : option DispatchState) (row_version : Z) : RoundQuestion := {|
  rq_question_id := rq_question_id q; rq_dispatch_id := rq_dispatch_id q;
  rq_round_id := rq_round_id q; rq_client_request_id := rq_client_request_id q;
  rq_owner_conversation := owner_conversation; rq_owner_epoch := owner_epoch;
  rq_continuation_kind := rq_continuation_kind q; rq_continuation_ref := rq_continuation_ref q;
  rq_asked_at := rq_asked_at q; rq_expires_at := rq_expires_at q; rq_question := rq_question q;
  rq_options := rq_options q; rq_answer_schema := rq_answer_schema q;
  rq_default_answer := rq_default_answer q; rq_blocking := rq_blocking q; rq_state := st;
  rq_answer_event_id := answer_event_id; rq_consumed_at := consumed_at;
  rq_user_prompt_id := rq_user_prompt_id q; rq_dispatch_prior_state := prior;
  rq_row_version := row_version |}.

(** [state = ?, row_version = row_version + 1], with the answer it names, if any. *)
Definition settle_question (s : QuestionState) (answer_event_id : option string) (q : RoundQuestion)
    : RoundQuestion :=
  question_with q (rq_owner_conversation q) (rq_owner_epoch q) s
    (match answer_event_id with None => rq_answer_event_id q | some => some end)
    (rq_consumed_at q) (rq_dispatch_prior_state q) (rq_row_version q + 1).

Definition set_consumed (at_ : Z) (q : RoundQuestion) : RoundQuestion :=
  question_with q (rq_owner_conversation q) (rq_owner_epoch q) (rq_state q) (rq_answer_event_id q)
    (Some at_) (rq_dispatch_prior_state q) (rq_row_version q).

Definition set_owner (conversation : string) (epoch : Z) (q : RoundQuestion) : RoundQuestion :=
  question_with q conversation epoch (rq_state q) (rq_answer_event_id q) (rq_consumed_at q)
    (rq_dispatch_prior_state q) (rq_row_version q + 1).

(** ** Keys *)

Definition is_id {R} (key : R → string) (i : string) (r : R) : bool := bool_decide (key r = i).
Definition q_open (q : RoundQuestion) : bool :=
  bool_decide (rq_state q = Q_PENDING) || bool_decide (rq_state q = Q_ESCALATED).
