(* ===== verification/Wp.v ===== *)
(** * Weakest preconditions for statements

    [wp m s Q E]: run from [s], [m] returns a value and a state that satisfy [Q],
    or raises an exception and leaves a state that satisfy [E].  One rule per
    construct; [wp_steps] applies them along the syntax of the statement. *)

From S2P Require Import Prelude GateRows.

Definition wp {S A} (m : M S A) (s : S) (Q : A → S → Prop) (E : exn → S → Prop) : Prop :=
  match m s with (s', Returned a) => Q a s' | (s', Raised e) => E e s' end.

Section Rules.
Context {S : Type}.
Implicit Types (s : S) (E : exn → S → Prop).

Lemma wp_ret {A} (a : A) s Q E : Q a s → wp (mret a) s Q E.
Proof. done. Qed.
Lemma wp_raise {A} e s (Q : A → S → Prop) E : E e s → wp (raise e) s Q E.
Proof. done. Qed.
Lemma wp_gets {A} (f : S → A) s Q E : Q (f s) s → wp (gets f) s Q E.
Proof. done. Qed.
Lemma wp_modify f s (Q : () → S → Prop) E : Q () (f s) → wp (modify f) s Q E.
Proof. done. Qed.

Lemma wp_assoc {A B C} (m : M S A) (f : A → M S B) (k : B → M S C) s Q E :
  wp ((m ≫= f) ≫= k) s Q E → wp (m ≫= λ x, f x ≫= k) s Q E.
Proof. unfold wp, mbind, M_bind. by destruct (m s) as [? []]. Qed.

Lemma wp_lift {A} (o : outcome A) s Q E :
  (∀ a, o = Returned a → Q a s) → (∀ e, o = Raised e → E e s) → wp (lift_outcome o) s Q E.
Proof. destruct o; unfold wp, lift_outcome; auto. Qed.

Lemma wp_bind {A B} (m : M S A) (f : A → M S B) s Q E :
  wp m s (λ a s', wp (f a) s' Q E) E → wp (m ≫= f) s Q E.
Proof. unfold wp, mbind, M_bind. by destruct (m s) as [? []]. Qed.

Lemma wp_transaction {A} (m : M S A) s Q E : wp m s Q (λ e _, E e s) → wp (transaction m) s Q E.
Proof. unfold wp, transaction. by destruct (m s) as [? []]. Qed.

Lemma wp_catch {A} (m : M S A) h s Q E : wp m s Q (λ e s', wp (h e) s' Q E) → wp (catch m h) s Q E.
Proof. unfold wp, catch. by destruct (m s) as [? []]. Qed.

Lemma wp_zoom {T A} (get : T → S) (put : S → T → T) (m : M S A) (t : T) Q (E : exn → T → Prop) :
  wp m (get t) (λ a s', Q a (put s' t)) (λ e s', E e (put s' t)) → wp (zoom get put m) t Q E.
Proof. unfold wp, zoom. by destruct (m (get t)) as [? []]. Qed.

Lemma wp_mono {A} (m : M S A) s (Q Q' : A → S → Prop) E E' :
  wp m s Q E → (∀ a s', Q a s' → Q' a s') → (∀ e s', E e s' → E' e s') → wp m s Q' E'.
Proof. unfold wp. destruct (m s) as [? []]; auto. Qed.

(** A loop under an invariant of the rows still to come. *)
Lemma wp_for_each {A B} (body : B → A → M S B) (I : list A → B → S → Prop) (Q : B → S → Prop) E :
  (∀ x xs acc s, I (x :: xs) acc s → wp (body acc x) s (λ acc' s', I xs acc' s') E) →
  (∀ acc s, I [] acc s → Q acc s) →
  ∀ xs acc s, I xs acc s → wp (for_each xs acc body) s Q E.
Proof.
  intros Hb HQ xs. induction xs as [|x xs IH]; intros acc s HI; simpl; [by apply HQ|].
  apply wp_bind. eapply wp_mono; [by apply Hb| |done]. intros acc' s' HI'. by apply IH.
Qed.

(** From [wp] to the result itself. *)
Lemma wp_returns {A} (m : M S A) s s' a :
  wp m s (λ b t, b = a ∧ t = s') (λ _ _, False) → m s = (s', Returned a).
Proof. unfold wp. destruct (m s) as [? []]; [|done]. by intros [-> ->]. Qed.

Lemma wp_raises {A} (m : M S A) s s' e :
  wp m s (λ _ _, False) (λ b t, b = e ∧ t = s') → m s = (s', Raised e).
Proof. unfold wp. destruct (m s) as [? []]; [done|]. by intros [-> ->]. Qed.

Lemma wp_known_value {A} (m : M S A) s s' o :
  wp m s (λ a t, o = Returned a ∧ t = s') (λ e t, o = Raised e ∧ t = s') → m s = (s', o).
Proof. unfold wp. destruct (m s) as [? []]; by intros [-> ->]. Qed.

Lemma wp_known {A B} (m : M S A) (f : A → M S B) s s' a Q E :
  m s = (s', Returned a) → wp (f a) s' Q E → wp (m ≫= f) s Q E.
Proof. intros Hm H. unfold wp. by rewrite (bind_returned m f s s' a Hm). Qed.

Lemma wp_state {A} (m : M S A) s (P : S → Prop) :
  wp m s (λ _, P) (λ _, P) → P (state_of (m s)).
Proof. unfold wp, state_of. by destruct (m s) as [? []]. Qed.
End Rules.

(** ** Statements on one table *)

Section TableRules.
Context {R : Type}.
Implicit Types (t : list R).

Lemma wp_insert_row what clash r t (Q : () → list R → Prop) E :
  (existsb clash t = false → Q () (t ++ [r])) →
  (existsb clash t = true → E (IntegrityError what) t) → wp (insert_row what clash r) t Q E.
Proof. intros H1 H2. unfold wp, insert_row. destruct (existsb clash t); auto. Qed.

Lemma wp_insert_or_ignore clash r t (Q : bool → list R → Prop) E :
  (existsb clash t = false → Q true (t ++ [r])) → (existsb clash t = true → Q false t) →
  wp (insert_or_ignore clash r) t Q E.
Proof. intros H1 H2. unfold wp, insert_or_ignore. destruct (existsb clash t); auto. Qed.

Lemma wp_upsert_row clash r t (Q : () → list R → Prop) E :
  (existsb clash t = false → Q () (t ++ [r])) →
  (existsb clash t = true → Q () (update_where clash (λ _, r) t)) → wp (upsert_row clash r) t Q E.
Proof. intros H1 H2. unfold wp, upsert_row. destruct (existsb clash t); auto. Qed.

Lemma wp_update_rows p f t (Q : nat → list R → Prop) E :
  Q (rowcount p t) (update_where p f t) → wp (update_rows p f) t Q E.
Proof. done. Qed.

Lemma wp_fetch_one p t (Q : option R → list R → Prop) E :
  (∀ o, head (select_where p t) = o → Q o t) → wp (fetch_one p) t Q E.
Proof. intros H. by apply H. Qed.

Lemma wp_fetch_all p t (Q : list R → list R → Prop) E :
  Q (select_where p t) t → wp (fetch_all p) t Q E.
Proof. done. Qed.
End TableRules.

(** A SELECT on one table of a larger state leaves that state alone. *)
Section Reads.
Context {T R : Type} (get : T → list R) (put : list R → T → T).

Lemma wp_zoom_read {A} (f : list R → A) (t : T) (Q : A → T → Prop) E :
  put (get t) t = t → Q (f (get t)) t → wp (zoom get put (gets f)) t Q E.
Proof. intros Ht HQ. unfold wp, zoom, gets. by rewrite Ht. Qed.

Lemma wp_zoom_fetch_one p (t : T) (Q : option R → T → Prop) E :
  put (get t) t = t → (∀ o, head (select_where p (get t)) = o → Q o t) →
  wp (zoom get put (fetch_one p)) t Q E.
Proof. intros Ht HQ. unfold wp, zoom, fetch_one, gets. rewrite Ht. by apply HQ. Qed.

Lemma wp_zoom_fetch_all p (t : T) (Q : list R → T → Prop) E :
  put (get t) t = t → Q (select_where p (get t)) t → wp (zoom get put (fetch_all p)) t Q E.
Proof. intros Ht HQ. unfold wp, zoom, fetch_all, gets. by rewrite Ht. Qed.
End Reads.

Ltac put_get := match goal with
  | |- _ = ?t => first [reflexivity | destruct t; reflexivity]
  end.

(** One rule, chosen by the statement. *)
Ltac wp_step :=
  match goal with
  | |- wp (mbind _ _) _ _ _ => apply wp_bind
  | |- wp (mret _) _ _ _ => apply wp_ret
  | |- wp (raise _) _ _ _ => apply wp_raise
  | |- wp (lift_outcome _) _ _ _ => apply wp_lift; [intros ? ?|intros ? ?]
  | |- wp (transaction _) _ _ _ => apply wp_transaction
  | |- wp (catch _ _) _ _ _ => apply wp_catch
  | |- wp (gets _) _ _ _ => apply wp_gets
  | |- wp (zoom _ _ (gets _)) _ _ _ => apply wp_zoom_read; [put_get|]
  | |- wp (zoom _ _ (fetch_one _)) _ _ _ => apply wp_zoom_fetch_one; [put_get|intros [?|] ?]
  | |- wp (zoom _ _ (fetch_all _)) _ _ _ => apply wp_zoom_fetch_all; [put_get|]
  | |- wp (zoom _ _ _) _ _ _ => apply wp_zoom
  | |- wp (insert_row _ _ _) _ _ _ => apply wp_insert_row; intros ?
  | |- wp (insert_or_ignore _ _) _ _ _ => apply wp_insert_or_ignore; intros ?
  | |- wp (upsert_row _ _) _ _ _ => apply wp_upsert_row; intros ?
  | |- wp (update_rows _ _) _ _ _ => apply wp_update_rows
  | |- wp (fetch_one _) _ _ _ => apply wp_fetch_one; intros [?|] ?
  | |- wp (fetch_all _) _ _ _ => apply wp_fetch_all
  | |- wp (match ?x with _ => _ end) _ _ _ => destruct x eqn:?
  end; cbn beta.
