(* ===== verification/GateStore.v ===== *)
(** * The gate store — [adapters/store/gate.py]

    One definition per method of [SqliteGateStore], statement by statement.  The
    minted ULIDs and the readings of [self._clock] are arguments. *)

From S2P Require Import Prelude Chars Gate GateRows.

Module SqliteGateStore.

(** ** Rows to model objects *)

Definition _row_to_run (x : run_row) : outcome GateRun := construct GateRun_valid "GateRun" (rr_run x).
Definition _row_to_round (r : GateRound) : outcome GateRound := construct GateRound_valid "GateRound" r.
Definition _row_to_dispatch (d : Dispatch) : outcome Dispatch := construct Dispatch_valid "Dispatch" d.
Definition _row_to_intent (i : EffectIntent) : outcome EffectIntent :=
  construct EffectIntent_valid "EffectIntent" i.
Definition _row_to_result (r : EffectResult) : outcome EffectResult :=
  construct EffectResult_valid "EffectResult" r.
Definition _row_to_disposition (x : disposition_row) : Disposition := dr_disposition x.
Definition _row_to_coverage (x : coverage_row) : outcome ConsumerCoverage :=
  construct ConsumerCoverage_valid "ConsumerCoverage" (cr_coverage x).
Definition _row_to_question (q : RoundQuestion) : outcome RoundQuestion :=
  construct RoundQuestion_valid "RoundQuestion" q.
Definition _row_to_answer (a : QuestionAnswer) : outcome QuestionAnswer :=
  construct QuestionAnswer_valid "QuestionAnswer" a.

(** [None if row is None else _row_to_x(row)] *)
Definition optional_row {A R} (convert : R → outcome A) (row : option R) : M gate (option A) :=
  match row with
  | None => mret None
  | Some r => a ← lift_outcome (convert r); mret (Some a)
  end.

(** [[_row_to_x(r) for r in rows]] *)
Definition convert_rows {A R} (convert : R → outcome A) (rows : list R) : M gate (list A) :=
  for_each rows [] (λ acc r, a ← lift_outcome (convert r); mret (acc ++ [a])).

Definition _restored_state (q : RoundQuestion) : DispatchState :=
  match rq_dispatch_prior_state q with Some s => s | None => DISPATCHED end.

(** ** Locked helpers *)

Definition run_is (i : string) (x : run_row) : bool := is_id rn_run_id i (rr_run x).

Definition _get_run_locked (run_id : string) : M gate GateRun :=
  row ← on_runs (fetch_one (run_is run_id));
  match row with
  | None => raise (GateError "no such run")
  | Some r => lift_outcome (_row_to_run r)
  end.

Definition _get_round_locked (round_id : string) : M gate GateRound :=
  row ← on_rounds (fetch_one (is_id gr_round_id round_id));
  match row with
  | None => raise (GateError "no such round")
  | Some r => lift_outcome (_row_to_round r)
  end.

Definition _load_question_locked (question_id : string) : M gate RoundQuestion :=
  row ← on_questions (fetch_one (is_id rq_question_id question_id));
  match row with
  | None => raise (refusal QUESTION_NOT_FOUND)
  | Some q => lift_outcome (_row_to_question q)
  end.

Definition disposition_le (a b : disposition_row) : Prop := dr_seq a <= dr_seq b.
#[export] Instance disposition_le_dec a b : Decision (disposition_le a b).
Proof. unfold disposition_le. apply _. Defined.

(** [ORDER BY seq] *)
Definition dispositions_of (finding_id : string) (t : list disposition_row) : list disposition_row :=
  merge_sort disposition_le (select_where (is_id dr_finding_id finding_id) t).

Definition finding_of (base : finding_base) (ds : list disposition_row) : OpenFinding := {|
  of_finding_id := fb_finding_id base; of_raised_in_round := fb_raised_in_round base;
  of_severity := fb_severity base; of_statement := fb_statement base;
  of_dispositions := _row_to_disposition <$> ds |}.

Definition _load_finding_locked (finding_id : string) : M gate OpenFinding :=
  base ← on_open_findings (fetch_one (is_id fb_finding_id finding_id));
  match base with
  | None => raise (GateError "no such finding")
  | Some base =>
      ds ← gets (λ g, dispositions_of finding_id (gate_disposition g));
      lift_outcome (construct OpenFinding_valid "OpenFinding" (finding_of base ds))
  end.

(** ** Run and round lifecycle *)

Definition open_run (new_id : string) (now : Z) (wp lane owner_conversation : string)
    (owner_epoch max_rounds : Z) (workflow_source_sha input_sha : string) : M gate GateRun :=
  lift_outcome (validate_max_rounds max_rounds) ;;
  run ← lift_outcome (construct GateRun_valid "GateRun"
    {| rn_run_id := new_id; rn_wp := wp; rn_lane := lane;
       rn_workflow_source_sha := workflow_source_sha; rn_input_sha := input_sha;
       rn_owner_conversation := owner_conversation; rn_owner_epoch := owner_epoch;
       rn_max_rounds := max_rounds; rn_row_version := 1; rn_state := RUN_OPEN |});
  transaction (on_runs (insert_row "gate_run" (run_is new_id)
    {| rr_run := run; rr_created_at := now |})) ;;
  mret run.

(** PRIMARY KEY(round_id), UNIQUE(run_id, round_no) *)
Definition round_clash (r x : GateRound) : bool :=
  bool_decide (gr_round_id x = gr_round_id r)
  || (bool_decide (gr_run_id x = gr_run_id r) && bool_decide (gr_round_no x = gr_round_no r)).

(** [SELECT COALESCE(MAX(round_no), 0)] *)
Definition last_round_no (run_id : string) (t : list GateRound) : Z :=
  default 0 (sql_max (gr_round_no <$> select_where (is_id gr_run_id run_id) t)).

Definition open_round (new_id : string) (now : Z) (run_id : string) (build_inputs : ArtifactManifest)
    (execution_target : ExecutionTarget) (predecessor_round_id : option string)
    (test_command evidence_tier : string) (generation : Z) : M gate GateRound :=
  transaction (
    m ← on_rounds (gets (last_round_no run_id));
    round ← lift_outcome (construct GateRound_valid "GateRound"
      {| gr_round_id := new_id; gr_run_id := run_id; gr_round_no := m + 1;
         gr_predecessor_round_id := predecessor_round_id; gr_build_inputs := build_inputs;
         gr_review_snapshot := None; gr_execution_target := execution_target;
         gr_test_command := test_command; gr_evidence_tier := evidence_tier;
         gr_fixture_corpus_sha := None; gr_fixture_frame_count := None; gr_subject_sha := None;
         gr_report_bytes_sha := None; gr_verdict_report_sha := None; gr_state := ROUND_OPEN;
         gr_generation := generation; gr_row_version := 1; gr_created_at := now;
         gr_closed_at := None |});
    on_rounds (insert_row "gate_round" (round_clash round) round) ;;
    mret round).

(** [WHERE round_id = ? AND row_version = ?] *)
Definition round_at (i : string) (version : Z) (r : GateRound) : bool :=
  is_id gr_round_id i r && bool_decide (gr_row_version r = version).
Definition run_at (i : string) (version : Z) (x : run_row) : bool :=
  run_is i x && bool_decide (rn_row_version (rr_run x) = version).

(** [if changed.rowcount == 0: raise]; then the row as it now is. *)
Definition changed_round (round_id : string) (changed : nat) : M gate GateRound :=
  if (changed =? 0)%nat then raise (GateError "row-version conflict")
  else _get_round_locked round_id.

Definition freeze_row (snapshot : ArtifactManifest) (r : GateRound) : GateRound :=
  round_with r (Some snapshot) (gr_subject_sha r) (gr_report_bytes_sha r) (gr_verdict_report_sha r)
    ROUND_BUILT (gr_row_version r + 1) (gr_closed_at r).

Definition freeze_review_snapshot (round_id : string) (snapshot : ArtifactManifest)
    (expected_row_version : Z) : M gate GateRound :=
  transaction (
    current ← _get_round_locked round_id;
    match gr_review_snapshot current with
    | Some _ => raise (GateError "already frozen")
    | None =>
        lift_outcome (next_round_state (gr_state current) ROUND_BUILT) ;;
        changed ← on_rounds (update_rows (round_at round_id expected_row_version)
                               (freeze_row snapshot));
        changed_round round_id changed
    end).

(** [target in (YES, NO, ABANDONED)] *)
Definition closes (target : RoundState) : bool :=
  bool_decide (target ∈ [ROUND_YES; ROUND_NO; ROUND_ABANDONED]).

Definition move_row (target : RoundState) (now : Z) (r : GateRound) : GateRound :=
  round_with r (gr_review_snapshot r) (gr_subject_sha r) (gr_report_bytes_sha r)
    (gr_verdict_report_sha r) target (gr_row_version r + 1)
    (if closes target then Some now else None).

Definition transition_round (round_id : string) (target : RoundState)
    (expected_row_version now : Z) : M gate GateRound :=
  transaction (
    current ← _get_round_locked round_id;
    lift_outcome (next_round_state (gr_state current) target) ;;
    changed ← on_rounds (update_rows (round_at round_id expected_row_version) (move_row target now));
    changed_round round_id changed).

Definition move_run (target : RunState) (r : GateRun) : GateRun :=
  run_with r (rn_owner_conversation r) (rn_owner_epoch r) (rn_row_version r + 1) target.

Definition transition_run (run_id : string) (target : RunState) (expected_row_version : Z)
    : M gate GateRun :=
  transaction (
    current ← _get_run_locked run_id;
    lift_outcome (next_run_state (rn_state current) target) ;;
    changed ← on_runs (update_rows (run_at run_id expected_row_version) (on_run (move_run target)));
    if (changed =? 0)%nat then raise (GateError "row-version conflict")
    else _get_run_locked run_id).

Definition report_row (subject_sha report_bytes_sha verdict_report_sha : string) (r : GateRound)
    : GateRound :=
  round_with r (gr_review_snapshot r) (Some subject_sha) (Some report_bytes_sha)
    (Some verdict_report_sha) (gr_state r) (gr_row_version r + 1) (gr_closed_at r).

Definition set_round_report (round_id subject_sha report_bytes_sha verdict_report_sha : string)
    (expected_row_version : Z) : M gate GateRound :=
  transaction (
    _get_round_locked round_id ;;
    changed ← on_rounds (update_rows (round_at round_id expected_row_version)
                           (report_row subject_sha report_bytes_sha verdict_report_sha));
    changed_round round_id changed).

(** ** Dispatches *)

Definition record_dispatch (d : Dispatch) : M gate Dispatch :=
  transaction (on_dispatches (upsert_row (is_id dp_dispatch_id (dp_dispatch_id d)) d)) ;;
  mret d.

Definition ensure_dispatch (d : Dispatch) : M gate bool :=
  transaction (on_dispatches (insert_or_ignore (is_id dp_dispatch_id (dp_dispatch_id d)) d)).

Definition get_dispatch (dispatch_id : string) : M gate (option Dispatch) :=
  row ← on_dispatches (fetch_one (is_id dp_dispatch_id dispatch_id));
  optional_row _row_to_dispatch row.

(** ** Effects *)

Definition record_effect_intent (i : EffectIntent) : M gate EffectIntent :=
  row ← transaction (
    on_intents (insert_or_ignore (is_id ei_effect_id (ei_effect_id i)) i) ;;
    on_intents (fetch_one (is_id ei_effect_id (ei_effect_id i))));
  match row with
  | None => raise (TypeError "_row_to_intent")
  | Some row => lift_outcome (_row_to_intent row)
  end.

Definition record_effect_result (r : EffectResult) : M gate EffectResult :=
  transaction (
    exists_ ← on_intents (fetch_one (is_id ei_effect_id (er_effect_id r)));
    match exists_ with
    | None => raise (GateError "no effect intent")
    | Some _ => on_results (upsert_row (is_id er_effect_id (er_effect_id r)) r)
    end) ;;
  mret r.

(** ** Findings *)

Definition raise_finding (new_id : string) (now : Z) (raised_in_round : string) (severity : Severity)
    (statement : string) : M gate OpenFinding :=
  transaction (
    run_row ← on_rounds (fetch_one (is_id gr_round_id raised_in_round));
    match run_row with
    | None => raise (GateError "no such round")
    | Some r =>
        on_open_findings (insert_row "gate_open_finding" (is_id fb_finding_id new_id)
          {| fb_finding_id := new_id; fb_raised_in_round := raised_in_round;
             fb_run_id := gr_run_id r; fb_severity := severity; fb_statement := statement;
             fb_created_at := now |})
    end) ;;
  lift_outcome (construct OpenFinding_valid "OpenFinding"
    {| of_finding_id := new_id; of_raised_in_round := raised_in_round; of_severity := severity;
       of_statement := statement; of_dispositions := [] |}).

(** PRIMARY KEY (finding_id, seq) *)
Definition disposition_clash (x y : disposition_row) : bool :=
  bool_decide (dr_finding_id y = dr_finding_id x) && bool_decide (dr_seq y = dr_seq x).

Definition last_seq (finding_id : string) (t : list disposition_row) : Z :=
  default 0 (sql_max (dr_seq <$> select_where (is_id dr_finding_id finding_id) t)).

Definition append_disposition (finding_id : string) (d : Disposition) : M gate OpenFinding :=
  transaction (
    base ← on_open_findings (fetch_one (is_id fb_finding_id finding_id));
    match base with
    | None => raise (GateError "no such finding")
    | Some _ =>
        seq ← on_dispositions (gets (last_seq finding_id));
        let x := {| dr_finding_id := finding_id; dr_seq := seq + 1; dr_disposition := d |} in
        on_dispositions (insert_row "gate_disposition" (disposition_clash x) x) ;;
        _load_finding_locked finding_id
    end).

Definition set_consumer_coverage (round_id : string) (c : ConsumerCoverage) : M gate () :=
  transaction (
    exists_ ← on_rounds (fetch_one (is_id gr_round_id round_id));
    match exists_ with
    | None => raise (GateError "no such round")
    | Some _ => on_coverages (upsert_row (is_id cr_round_id round_id)
                                {| cr_round_id := round_id; cr_coverage := c |})
    end).

(** ** The question primitive *)

(** [WHERE client_request_id = ? AND dispatch_id = ?] *)
Definition asked_as (client_request_id dispatch_id : string) (q : RoundQuestion) : bool :=
  is_id rq_client_request_id client_request_id q && is_id rq_dispatch_id dispatch_id q.
(** [WHERE dispatch_id = ? AND state IN ('PENDING','ESCALATED')] *)
Definition open_on (dispatch_id : string) (q : RoundQuestion) : bool :=
  is_id rq_dispatch_id dispatch_id q && q_open q.

(** PRIMARY KEY(question_id), and [ux_question_open]. *)
Definition question_clash (q x : RoundQuestion) : bool :=
  is_id rq_question_id (rq_question_id q) x || (q_open q && open_on (rq_dispatch_id q) x).

Definition fresh_notice (question_id : string) : notice_intent := {|
  ni_question_id := question_id; ni_state := NI_PENDING; ni_msg_id := None; ni_attempts := 0;
  ni_last_error := None; ni_settled_at := None |}.

(** The row an ask writes: the record, and the state it suspended. *)
Definition suspending (prior : DispatchState) (q : RoundQuestion) : RoundQuestion :=
  question_with q (rq_owner_conversation q) (rq_owner_epoch q) (rq_state q) (rq_answer_event_id q)
    (rq_consumed_at q) (Some prior) (rq_row_version q).

Definition ask_question (new_id : string) (dispatch_id : string) (round_id : option string)
    (client_request_id owner_conversation : string) (owner_epoch : Z)
    (continuation_kind : ContinuationKind) (continuation_ref question : string)
    (options : list string) (blocking : bool) (asked_at expires_at : Z)
    (answer_schema default_answer : option string) : M gate (RoundQuestion * bool) :=
  transaction (
    prior ← on_questions (fetch_one (asked_as client_request_id dispatch_id));
    match prior with
    | Some q => q ← lift_outcome (_row_to_question q); mret (q, true)
    | None =>
    dispatch_row ← on_dispatches (fetch_one (is_id dp_dispatch_id dispatch_id));
    match dispatch_row with
    | None => raise (refusal DISPATCH_UNKNOWN)
    | Some d =>
    let prior_state := dp_state d in
    if negb (dispatch_may_be_suspended prior_state) then raise (refusal DISPATCH_SETTLED) else
    open_row ← on_questions (fetch_one (open_on dispatch_id));
    match open_row with
    | Some _ => raise (refusal QUESTION_OPEN)
    | None =>
    record ← lift_outcome (construct RoundQuestion_valid "RoundQuestion"
      {| rq_question_id := new_id; rq_dispatch_id := dispatch_id; rq_round_id := round_id;
         rq_client_request_id := client_request_id; rq_owner_conversation := owner_conversation;
         rq_owner_epoch := owner_epoch; rq_continuation_kind := continuation_kind;
         rq_continuation_ref := continuation_ref; rq_asked_at := asked_at;
         rq_expires_at := expires_at; rq_question := question; rq_options := options;
         rq_answer_schema := answer_schema; rq_default_answer := default_answer;
         rq_blocking := blocking; rq_state := Q_PENDING; rq_answer_event_id := None;
         rq_consumed_at := None; rq_user_prompt_id := None; rq_dispatch_prior_state := None;
         rq_row_version := 1 |});
    let row := suspending prior_state record in
    catch (on_questions (insert_row "round_question" (question_clash row) row))
      (λ e, match e with IntegrityError _ => raise (refusal QUESTION_OPEN) | e => raise e end) ;;
    on_dispatches (update_rows (is_id dp_dispatch_id dispatch_id)
      (set_dispatch_state AWAITING_ANSWER)) ;;
    on_notices (insert_row "question_notice_intent" (is_id ni_question_id new_id)
      (fresh_notice new_id)) ;;
    mret (record, false)
    end end end).

Definition get_question (question_id : string) : M gate (option RoundQuestion) :=
  row ← on_questions (fetch_one (is_id rq_question_id question_id));
  optional_row _row_to_question row.

Definition open_question_for_dispatch (dispatch_id : string) : M gate (option RoundQuestion) :=
  row ← on_questions (fetch_one (open_on dispatch_id));
  optional_row _row_to_question row.

(** [WHERE question_id = ? AND state IN ('PENDING','ESCALATED')] *)
Definition open_question (question_id : string) (q : RoundQuestion) : bool :=
  is_id rq_question_id question_id q && q_open q.

Definition answered_as (question_id client_request_id : string) (a : QuestionAnswer) : bool :=
  is_id qa_question_id question_id a && is_id qa_client_request_id client_request_id a.

Definition answer_question (new_id question_id answer answered_by client_request_id
    caller_conversation : string) (caller_epoch now : Z) : M gate (RoundQuestion * QuestionAnswer) :=
  transaction (
    row ← on_questions (fetch_one (is_id rq_question_id question_id));
    match row with
    | None => raise (refusal QUESTION_NOT_FOUND)
    | Some row =>
    record ← lift_outcome (_row_to_question row);
    prior ← on_answers (fetch_one (answered_as question_id client_request_id));
    match prior with
    | Some prior =>
        recorded ← lift_outcome (_row_to_answer prior);
        if negb (bool_decide (qa_answer recorded = answer)) then raise (refusal ANSWER_CONFLICT)
        else mret (record, recorded)
    | None =>
    let verdict := answer_admissible record caller_conversation caller_epoch now in
    if negb (aa_admissible verdict)
    then match aa_code verdict with None => raise AssertionError | Some c => raise (refusal c) end
    else
    lift_outcome (next_question_state (rq_state record) Q_ANSWERED) ;;
    event ← lift_outcome (construct QuestionAnswer_valid "QuestionAnswer"
      {| qa_answer_event_id := new_id; qa_question_id := question_id; qa_answer := answer;
         qa_answered_by := answered_by; qa_answered_at := now;
         qa_client_request_id := client_request_id |});
    on_answers (insert_row "question_answer" (is_id qa_answer_event_id new_id) event) ;;
    changed ← on_questions (update_rows (open_question question_id)
                              (settle_question Q_ANSWERED (Some new_id)));
    if negb (changed =? 1)%nat then raise (refusal QUESTION_SETTLED) else
    on_deliveries (insert_row "answer_delivery_intent" (is_id ad_answer_event_id new_id)
      {| ad_answer_event_id := new_id; ad_state := AD_PENDING; ad_settled_at := None |}) ;;
    mret (settle_question Q_ANSWERED (Some new_id) record, event)
    end end).

Definition pending_question (question_id : string) (q : RoundQuestion) : bool :=
  is_id rq_question_id question_id q && bool_decide (rq_state q = Q_PENDING).

Definition escalate_question (question_id : string) (now : Z) : M gate RoundQuestion :=
  transaction (
    row ← on_questions (fetch_one (is_id rq_question_id question_id));
    match row with
    | None => raise (refusal QUESTION_NOT_FOUND)
    | Some row =>
        record ← lift_outcome (_row_to_question row);
        if rq_expires_at record <=? now then raise (refusal QUESTION_EXPIRED) else
        lift_outcome (next_question_state (rq_state record) Q_ESCALATED) ;;
        on_questions (update_rows (pending_question question_id) (settle_question Q_ESCALATED None)) ;;
        mret (settle_question Q_ESCALATED None record)
    end).

Definition is_due (now : Z) (q : RoundQuestion) : bool := q_open q && (rq_expires_at q <=? now).

(** [UPDATE gate_dispatch SET state = ? WHERE dispatch_id = ? AND state = 'awaiting_answer'] *)
Definition awaiting (dispatch_id : string) (d : Dispatch) : bool :=
  is_id dp_dispatch_id dispatch_id d && bool_decide (dp_state d = AWAITING_ANSWER).
Definition release_dispatch (q : RoundQuestion) : M gate nat :=
  on_dispatches (update_rows (awaiting (rq_dispatch_id q)) (set_dispatch_state (_restored_state q))).

Definition expire_due_questions (now : Z) : M gate (list RoundQuestion) :=
  transaction (
    rows ← on_questions (fetch_all (is_due now));
    for_each rows [] (λ expired row,
      record ← lift_outcome (_row_to_question row);
      changed ← on_questions (update_rows (open_question (rq_question_id record))
                                (settle_question Q_EXPIRED None));
      if negb (changed =? 1)%nat then mret expired else
      release_dispatch record ;;
      mret (expired ++ [settle_question Q_EXPIRED None record]))).

Definition notice_sent (msg_id : string) (now : Z) (n : notice_intent) : notice_intent := {|
  ni_question_id := ni_question_id n; ni_state := NI_SENT; ni_msg_id := Some msg_id;
  ni_attempts := ni_attempts n + 1; ni_last_error := None; ni_settled_at := Some now |}.
Definition notice_failed (error : string) (n : notice_intent) : notice_intent := {|
  ni_question_id := ni_question_id n; ni_state := NI_FAILED; ni_msg_id := ni_msg_id n;
  ni_attempts := ni_attempts n + 1; ni_last_error := Some error; ni_settled_at := ni_settled_at n |}.

Definition mark_notice_sent (question_id msg_id : string) (now : Z) : M gate () :=
  transaction (on_notices (update_rows (is_id ni_question_id question_id) (notice_sent msg_id now)) ;;
    mret ()).
Definition mark_notice_failed (question_id error : string) : M gate () :=
  transaction (on_notices (update_rows (is_id ni_question_id question_id)
    (notice_failed (py_take 500 error))) ;; mret ()).

Definition consumed (now : Z) (x : delivery_intent) : delivery_intent := {|
  ad_answer_event_id := ad_answer_event_id x; ad_state := AD_CONSUMED; ad_settled_at := Some now |}.

Definition mark_answer_consumed (answer_event_id : string) (now : Z) : M gate () :=
  transaction (
    row ← on_answers (fetch_one (is_id qa_answer_event_id answer_event_id));
    match row with
    | None => raise (refusal QUESTION_NOT_FOUND)
    | Some a =>
        on_deliveries (update_rows (is_id ad_answer_event_id answer_event_id) (consumed now)) ;;
        on_questions (update_rows (is_id rq_question_id (qa_question_id a)) (set_consumed now)) ;;
        question ← _load_question_locked (qa_question_id a);
        release_dispatch question ;;
        mret ()
    end).

(** [ORDER BY question_id DESC] *)
Definition question_ge (a b : RoundQuestion) : Prop := text_le (rq_question_id b) (rq_question_id a).
#[export] Instance question_ge_dec a b : Decision (question_ge a b).
Proof. unfold question_ge. apply _. Defined.

Definition listed_for (owner_conversation : option string) (states : list QuestionState)
    (round_id : option string) (q : RoundQuestion) : bool :=
  match owner_conversation with None => true | Some c => is_id rq_owner_conversation c q end
  && match states with [] => true | _ => bool_decide (rq_state q ∈ states) end
  && match round_id with None => true | Some r => bool_decide (rq_round_id q = Some r) end.

Definition questions_for_owner (owner_conversation : option string) (states : list QuestionState)
    (round_id : option string) (limit : Z) : M gate (list RoundQuestion) :=
  rows ← on_questions (gets (λ t, sql_limit limit
    (merge_sort question_ge (select_where (listed_for owner_conversation states round_id) t))));
  convert_rows _row_to_question rows.

(** ** Ownership *)

Definition owned_by (conversation : string) (x : run_row) : bool :=
  is_id rn_owner_conversation conversation (rr_run x).

(** [SELECT MAX(owner_epoch) .. WHERE owner_conversation = ?] *)
Definition highest_epoch (conversation : string) (t : list run_row) : option Z :=
  sql_max ((λ x, rn_owner_epoch (rr_run x)) <$> select_where (owned_by conversation) t).

Definition claimed_run (conversation : string) (run_id : option string) (x : run_row) : bool :=
  owned_by conversation x && match run_id with None => true | Some i => run_is i x end.

(** [round_id IN (SELECT round_id FROM gate_round WHERE run_id = ?)]; a NULL
    [round_id] is in no list. *)
Definition round_in_run (run_id : string) (rounds : list GateRound) (q : RoundQuestion) : bool :=
  match rq_round_id q with
  | None => false
  | Some r => bool_decide (r ∈ gr_round_id <$> select_where (is_id gr_run_id run_id) rounds)
  end.

Definition claimed_question (conversation : string) (run_id : option string)
    (rounds : list GateRound) (q : RoundQuestion) : bool :=
  is_id rq_owner_conversation conversation q && q_open q
  && match run_id with None => true | Some i => round_in_run i rounds q end.

Definition own_run (conversation : string) (epoch : Z) (r : GateRun) : GateRun :=
  run_with r conversation epoch (rn_row_version r + 1) (rn_state r).

(** PRIMARY KEY(transfer_id), UNIQUE(client_request_id) *)
Definition transfer_clash (x y : transfer_row) : bool :=
  is_id ot_transfer_id (ot_transfer_id x) y || is_id ot_client_request_id (ot_client_request_id x) y.

Definition claim_ownership (new_id : string) (now : Z) (prior_conversation new_conversation : string)
    (new_epoch : Z) (run_id : option string) (client_request_id claimed_by : string)
    : M gate ClaimOwnershipResult :=
  transaction (
    prior ← on_transfers (fetch_one (is_id ot_client_request_id client_request_id));
    match prior with
    | Some x => mret {| co_accepted := true; co_runs_rewritten := ot_runs_rewritten x;
                        co_questions_rewritten := ot_questions_rewritten x;
                        co_transfer_id := Some (ot_transfer_id x) |}
    | None =>
    highest ← on_runs (gets (highest_epoch prior_conversation));
    let prior_epoch := default (-1) highest in
    if (0 <=? prior_epoch) && negb (epoch_supersedes prior_epoch new_epoch)
    then mret {| co_accepted := false; co_runs_rewritten := 0; co_questions_rewritten := 0;
                 co_transfer_id := None |}
    else
    runs_changed ← on_runs (update_rows (claimed_run prior_conversation run_id)
                              (on_run (own_run new_conversation new_epoch)));
    rounds ← on_rounds (gets id);
    questions_changed ← on_questions (update_rows (claimed_question prior_conversation run_id rounds)
                                        (set_owner new_conversation new_epoch));
    let x := {| ot_transfer_id := new_id; ot_prior_conversation := prior_conversation;
                ot_prior_epoch := Z.max prior_epoch 0; ot_new_conversation := new_conversation;
                ot_new_epoch := new_epoch; ot_run_id := run_id;
                ot_runs_rewritten := Z.of_nat runs_changed;
                ot_questions_rewritten := Z.of_nat questions_changed; ot_claimed_by := claimed_by;
                ot_claimed_at := now; ot_client_request_id := client_request_id |} in
    on_transfers (insert_row "ownership_transfer" (transfer_clash x) x) ;;
    mret {| co_accepted := true; co_runs_rewritten := Z.of_nat runs_changed;
            co_questions_rewritten := Z.of_nat questions_changed; co_transfer_id := Some new_id |}
    end).

(** ** Reads *)

Definition get_run (run_id : string) : M gate (option GateRun) :=
  row ← on_runs (fetch_one (run_is run_id));
  optional_row _row_to_run row.

Definition get_round (round_id : string) : M gate (option GateRound) :=
  row ← on_rounds (fetch_one (is_id gr_round_id round_id));
  optional_row _row_to_round row.

Definition round_le (a b : GateRound) : Prop := gr_round_no a <= gr_round_no b.
#[export] Instance round_le_dec a b : Decision (round_le a b).
Proof. unfold round_le. apply _. Defined.

Definition rounds_for_run (run_id : string) : M gate (list GateRound) :=
  rows ← on_rounds (gets (λ t, merge_sort round_le (select_where (is_id gr_run_id run_id) t)));
  convert_rows _row_to_round rows.

Definition finding_le (a b : finding_base) : Prop := fb_created_at a <= fb_created_at b.
#[export] Instance finding_le_dec a b : Decision (finding_le a b).
Proof. unfold finding_le. apply _. Defined.

Definition open_findings_for_run (run_id : string) : M gate (list OpenFinding) :=
  rows ← on_open_findings (gets (λ t,
    merge_sort finding_le (select_where (is_id fb_run_id run_id) t)));
  findings ← for_each rows [] (λ acc r,
    f ← _load_finding_locked (fb_finding_id r); mret (acc ++ [f]));
  mret (filter (λ f, of_is_open f = true) findings).

(** [sorted(set(..))] *)
Definition sorted_ids (ids : list string) : list string := merge_sort text_le (remove_dups ids).

(** [ORDER BY question_id] *)
Definition question_le (a b : RoundQuestion) : Prop := question_ge b a.
#[export] Instance question_le_dec a b : Decision (question_le a b).
Proof. unfold question_le. apply _. Defined.

Definition project_round (round_id : string) : M gate (option RoundProjection) :=
  round_row ← on_rounds (fetch_one (is_id gr_round_id round_id));
  match round_row with
  | None => mret None
  | Some round_row =>
  round ← lift_outcome (_row_to_round round_row);
  run ← get_run (gr_run_id round);
  match run with
  | None => mret None
  | Some run =>
  let of_round {R} (f : R → option string) (r : R) := bool_decide (f r = Some round_id) in
  dispatch_rows ← on_dispatches (fetch_all (of_round dp_round_id));
  dispatches ← convert_rows _row_to_dispatch dispatch_rows;
  intent_rows ← on_intents (fetch_all (of_round ei_round_id));
  intents ← convert_rows _row_to_intent intent_rows;
  let all_effect_ids := (ei_effect_id <$> intents) ++ omap dp_effect_id dispatches in
  results ← for_each (sorted_ids all_effect_ids) [] (λ acc eid,
    rr ← on_results (fetch_one (is_id er_effect_id eid));
    match rr with
    | None => mret acc
    | Some rr => r ← lift_outcome (_row_to_result rr); mret (acc ++ [r])
    end);
  open_findings ← open_findings_for_run (gr_run_id round);
  coverage_rows ← on_coverages (fetch_all (is_id cr_round_id round_id));
  coverage ← convert_rows _row_to_coverage coverage_rows;
  question_rows ← on_questions (gets (λ t,
    merge_sort question_le (select_where (of_round rq_round_id) t)));
  questions ← convert_rows _row_to_question question_rows;
  mret (Some {| rp_run := run; rp_round := round; rp_dispatches := dispatches;
                rp_effect_intents := intents; rp_effect_results := results;
                rp_open_findings := open_findings; rp_consumer_coverage := coverage;
                rp_questions := questions |})
  end end.

End SqliteGateStore.
