(* ===== verification/GateRender.v ===== *)
(** * Briefs, envelopes and the run view — [app/gate/render.py]

    Pure functions of a projection.  Every digest is computed; every scratch root
    is generated. *)

From S2P Require Import Prelude Text Sha256 Chars Gate.

Local Open Scope string_scope.
Local Open Scope list_scope.
Local Open Scope Z_scope.

Inductive EnvelopeKind := KIND_RESULT | KIND_QUESTION | KIND_VIOLATION | KIND_CONDITION.
#[export] Instance EnvelopeKind_eq_dec : EqDecision EnvelopeKind. Proof. solve_decision. Defined.

Definition EnvelopeKind_value (k : EnvelopeKind) : string :=
  match k with
  | KIND_RESULT => "result" | KIND_QUESTION => "question"
  | KIND_VIOLATION => "violation" | KIND_CONDITION => "condition"
  end.

Definition _MAX_SUMMARY_LINES : nat := 2.
Definition _RENDERER_VERSION : string := "2b".
Definition _MAX_LINE_BYTES : nat := 160.

Record CallbackEnvelope := {
  ce_kind : EnvelopeKind;
  ce_lines : list string;
  ce_visible_bytes : Z;
  ce_pin_count : Z;
  ce_pin_digest : string;
  ce_classification : NoticeClass;
  ce_renderer_version : string;
}.
Definition CallbackEnvelope_valid (e : CallbackEnvelope) : bool :=
  (length (ce_lines e) <=? 4)%nat && (0 <=? ce_visible_bytes e) && (0 <=? ce_pin_count e).

(** [sum(len(line) for line in lines) + len(lines)] *)
Definition visible (lines : list string) : Z :=
  Z.of_nat (sum_list (py_len <$> lines) + length lines).

(** The constructor, with its three constraints. *)
Definition envelope (kind : EnvelopeKind) (lines : list string) (pin_count : Z) (pin_digest : string)
    (classification : NoticeClass) : outcome CallbackEnvelope :=
  let e := {| ce_kind := kind; ce_lines := lines; ce_visible_bytes := visible lines;
              ce_pin_count := pin_count; ce_pin_digest := pin_digest;
              ce_classification := classification; ce_renderer_version := _RENDERER_VERSION |} in
  if CallbackEnvelope_valid e then Returned e else Raised (ValueError "CallbackEnvelope").

(** ** Pins *)

Definition pin_bytes (pins : list string) : string := concat_text ((λ p, p +:+ NUL) <$> pins).
Definition compute_pin_digest (pins : list string) : string := py_take 8 (sha256_hex (pin_bytes pins)).

(** [dict.setdefault(pin, None)] over the pins of every dispatch. *)
Definition first_seen (l : list string) : list string :=
  foldl (λ seen p, if bool_decide (p ∈ seen) then seen else seen ++ [p]) [] l.
Definition _round_pins (p : RoundProjection) : list string :=
  first_seen (rp_dispatches p ≫= dp_pins).

(** ** The brief *)

Definition ascii_upper (c : ascii) : ascii :=
  let n := byte_of c in if (97 <=? n) && (n <=? 122) then ascii_of_N (Z.to_N (n - 32)) else c.
Fixpoint upper (s : string) : string :=
  match s with EmptyString => EmptyString | String c s => String (ascii_upper c) (upper s) end.

Definition newline : string := String (ascii_of_nat 10) "".
Definition text_of (lines : list string) : string := join_with newline lines +:+ newline.

Definition _open_findings_block (findings : list OpenFinding) : list string :=
  match findings with
  | [] => ["Open findings carried in: none"]
  | _ => ("Open findings carried in: " +:+ pretty (length findings))
         :: ((λ f, "  - [" +:+ upper (Severity_value (of_severity f)) +:+ "] " +:+ of_statement f)
             <$> findings)
  end.

(** [x or '(none)'] *)
Definition or_none (s : string) : string := if nonempty s then s else "(none)".

Definition render_brief (p : RoundProjection) (role : DispatchRole) : outcome string :=
  let round := rp_round p in
  let run := rp_run p in
  let m := gr_build_inputs round in
  let artifact_sha := compute_artifact_sha m in
  match render_scratch_root (gr_execution_target round) (gr_round_id round) with
  | Raised e => Raised e
  | Returned scratch =>
      let repos := join_with ", " ((λ b, rb_name b +:+ "@" +:+ py_take 8 (rb_commit b))
                                     <$> am_repo_bindings m) in
      Returned (text_of (
        ["# GATE BRIEF · " +:+ rn_wp run +:+ " · " +:+ rn_lane run +:+ " · "
           +:+ upper (DispatchRole_value role);
         "run=" +:+ rn_run_id run +:+ " round=" +:+ pretty (gr_round_no round) +:+ " ("
           +:+ gr_round_id round +:+ ")";
         "artifact_sha=" +:+ artifact_sha;
         "base=" +:+ py_take 8 (am_base_sha m) +:+ "..head=" +:+ py_take 8 (am_head_sha m)
           +:+ " branch=" +:+ am_branch m;
         "repos: " +:+ repos;
         "blueprint_sha=" +:+ py_take 8 (am_blueprint_sha m) +:+ " ac_list_sha="
           +:+ py_take 8 (am_ac_list_sha m);
         "execution_target: host=" +:+ et_host (gr_execution_target round) +:+ " scratch=" +:+ scratch;
         "test_command=" +:+ or_none (gr_test_command round);
         "evidence_tier=" +:+ or_none (gr_evidence_tier round)]
        ++ _open_findings_block (rp_open_findings p)))
  end.

(** ** Envelopes *)

Definition pins_ok (count : nat) (digest : string) : string :=
  "[pins ok: " +:+ pretty count +:+ " @ " +:+ digest +:+ "]".

Definition render_callback (p : RoundProjection) (kind : EnvelopeKind) (summary : list string)
    (artifact_ref : string) : outcome CallbackEnvelope :=
  if (_MAX_SUMMARY_LINES <? length summary)%nat then Raised (GateError "summary lines") else
  let round := rp_round p in
  let run := rp_run p in
  let pins := _round_pins p in
  let digest := compute_pin_digest pins in
  let identity := rn_lane run +:+ " · " +:+ rn_wp run +:+ " r" +:+ pretty (gr_round_no round)
                  +:+ " · " +:+ gr_round_id round in
  let pointer := "→ " +:+ artifact_ref +:+ " " +:+ pins_ok (length pins) digest in
  envelope kind (identity :: summary ++ [pointer]) (Z.of_nat (length pins)) digest EXPECTED.

Record IdentityRef := { id_who : string; id_context : string; id_ref : string }.
Definition IdentityRef_valid (i : IdentityRef) : bool := nonempty (id_who i) && nonempty (id_ref i).

(** [IdentityRef.line] *)
Definition identity_line (i : IdentityRef) : string :=
  join_with " · " ([id_who i] ++ (if nonempty (id_context i) then [id_context i] else []) ++ [id_ref i]).

Definition _clip (text : string) (limit : nat) : string :=
  let flat := join_with " " (py_split text) in
  if (py_len flat <=? limit)%nat then flat else py_take (limit - 1) flat +:+ "…".

Definition _question_summary (q : RoundQuestion) : list string :=
  take _MAX_SUMMARY_LINES
    (_clip (rq_question q) _MAX_LINE_BYTES
     :: match rq_options q with
        | [] => []
        | options => [_clip ("options: " +:+ join_with " | " options) _MAX_LINE_BYTES]
        end).

Definition render_question_envelope (q : RoundQuestion) (identity : IdentityRef)
    (artifact_ref : string) : outcome CallbackEnvelope :=
  let digest := compute_pin_digest [] in
  let ref := if nonempty artifact_ref then artifact_ref else "cao gate answer " +:+ rq_question_id q in
  let pointer := "→ " +:+ ref +:+ " expires=" +:+ isoformat (rq_expires_at q) +:+ " "
                 +:+ pins_ok 0 digest in
  envelope KIND_QUESTION (identity_line identity :: _question_summary q ++ [pointer]) 0 digest EXPECTED.

Definition render_anomaly_envelope (q : RoundQuestion) (identity : IdentityRef)
    : outcome CallbackEnvelope :=
  let digest := compute_pin_digest [] in
  let summary := [_clip ("UNANSWERED, expired at " +:+ isoformat (rq_expires_at q)) _MAX_LINE_BYTES;
                  _clip ("asked: " +:+ rq_question q) _MAX_LINE_BYTES] in
  let pointer := "→ cao gate question " +:+ rq_question_id q +:+ " " +:+ pins_ok 0 digest in
  envelope KIND_CONDITION (identity_line identity :: summary ++ [pointer]) 0 digest ANOMALY.

(** ** [cao gate show] *)

Record RoundView := {
  rv_round_id : string;
  rv_round_no : Z;
  rv_state : string;
  rv_artifact_sha : string;
  rv_review_snapshot_sha : option string;
  rv_subject_sha : option string;
  rv_report_bytes_sha : option string;
  rv_verdict_report_sha : option string;
  rv_scratch_root : string;
  rv_host : string;
  rv_dispatches : list (string * string * string);
  rv_open_findings : list (string * string);
}.

Definition round_view (p : RoundProjection) : outcome RoundView :=
  let r := rp_round p in
  match render_scratch_root (gr_execution_target r) (gr_round_id r) with
  | Raised e => Raised e
  | Returned scratch => Returned {|
      rv_round_id := gr_round_id r; rv_round_no := gr_round_no r;
      rv_state := RoundState_value (gr_state r);
      rv_artifact_sha := compute_artifact_sha (gr_build_inputs r);
      rv_review_snapshot_sha := compute_artifact_sha <$> gr_review_snapshot r;
      rv_subject_sha := gr_subject_sha r; rv_report_bytes_sha := gr_report_bytes_sha r;
      rv_verdict_report_sha := gr_verdict_report_sha r; rv_scratch_root := scratch;
      rv_host := et_host (gr_execution_target r);
      rv_dispatches := (λ d, (DispatchRole_value (dp_role d), dp_position d,
                              DispatchState_value (dp_state d))) <$> rp_dispatches p;
      rv_open_findings := (λ f, (Severity_value (of_severity f), of_statement f))
                            <$> rp_open_findings p |}
  end.

(** The payload's rounds; the run's own columns are read off the run. *)
Definition run_show_payload (run : GateRun) (projections : list RoundProjection)
    : outcome (list RoundView) :=
  foldr (λ p acc, match round_view p, acc with
                  | Raised e, _ => Raised e
                  | _, Raised e => Raised e
                  | Returned v, Returned vs => Returned (v :: vs)
                  end) (Returned []) projections.

Definition round_lines (v : RoundView) : list string :=
  ("  round " +:+ pretty (rv_round_no v) +:+ " [" +:+ rv_state v +:+ "] artifact_sha="
     +:+ py_take 12 (rv_artifact_sha v) +:+ " host=" +:+ rv_host v)
  :: ((λ d : string * string * string,
         "    dispatch " +:+ d.1.1 +:+ " -> " +:+ d.1.2 +:+ " [" +:+ d.2 +:+ "]") <$> rv_dispatches v)
  ++ ((λ f : string * string, "    OPEN [" +:+ upper f.1 +:+ "] " +:+ f.2) <$> rv_open_findings v).

Definition render_run_show (run : GateRun) (projections : list RoundProjection) : outcome string :=
  match run_show_payload run projections with
  | Raised e => Raised e
  | Returned rounds => Returned (text_of (
      ["run " +:+ rn_run_id run +:+ " · " +:+ rn_wp run +:+ " · " +:+ rn_lane run +:+ " ["
         +:+ RunState_value (rn_state run) +:+ "]";
       "owner=" +:+ rn_owner_conversation run +:+ "@" +:+ pretty (rn_owner_epoch run)
         +:+ " max_rounds=" +:+ pretty (rn_max_rounds run)]
      ++ (rounds ≫= round_lines)))
  end.
