(* ===== verification/GateService.v ===== *)
(** * The gate's commands — [app/gate/service.py] and [app/gate/questions.py]

    [GateRoundService] and [GateQuestionService] over the store: each command is
    the reads, checks and store calls of its method, and each store call is one
    transaction.  Readings of the clock and minted ULIDs are arguments.  The
    notifier is a port: what it answers may depend on the calls made so far. *)

From S2P Require Import Prelude Chars Gate GateRows GateStore GateRender.
Import SqliteGateStore.

Module GateRoundService.

Definition _require_round (round_id : string) : M gate GateRound :=
  round ← get_round round_id;
  match round with
  | None => raise (GateError "no such round")
  | Some r => mret r
  end.

Definition require_run (run_id : string) : M gate GateRun :=
  run ← get_run run_id;
  match run with
  | None => raise (GateError "no such run")
  | Some r => mret r
  end.

Definition open_run (new_id : string) (now : Z) (wp lane owner_conversation : string)
    (owner_epoch max_rounds : Z) (workflow_source_sha input_sha : string) : M gate GateRun :=
  lift_outcome (validate_max_rounds max_rounds) ;;
  SqliteGateStore.open_run new_id now wp lane owner_conversation owner_epoch max_rounds
    workflow_source_sha input_sha.

(** The reads of [open_round], up to the call of the store. *)
Definition may_open_round (run_id : string) : M gate () :=
  run ← require_run run_id;
  if negb (bool_decide (rn_state run = RUN_OPEN)) then raise (GateError "run is not open") else
  rounds ← rounds_for_run run_id;
  let existing := filter (λ r, gr_state r ≠ ROUND_ABANDONED) rounds in
  if rn_max_rounds run <=? Z.of_nat (length existing) then raise (GateError "max_rounds reached")
  else mret ().

Definition open_round (new_id : string) (now : Z) (run_id : string) (build_inputs : ArtifactManifest)
    (execution_target : ExecutionTarget) (predecessor_round_id : option string)
    (test_command evidence_tier : string) (generation : Z) : M gate GateRound :=
  may_open_round run_id ;;
  SqliteGateStore.open_round new_id now run_id build_inputs execution_target predecessor_round_id
    test_command evidence_tier generation.

Definition freeze_review_snapshot (round_id : string) (snapshot : ArtifactManifest) : M gate GateRound :=
  round ← _require_round round_id;
  match gr_review_snapshot round with
  | Some _ => raise (GateError "already frozen")
  | None =>
      lift_outcome (next_round_state (gr_state round) ROUND_BUILT) ;;
      SqliteGateStore.freeze_review_snapshot round_id snapshot (gr_row_version round)
  end.

Definition begin_adjudication (now : Z) (round_id : string) : M gate GateRound :=
  round ← _require_round round_id;
  lift_outcome (next_round_state (gr_state round) ROUND_ADJUDICATING) ;;
  transition_round round_id ROUND_ADJUDICATING (gr_row_version round) now.

Definition verdict_state (verdict_yes : bool) : RoundState :=
  if verdict_yes then ROUND_YES else ROUND_NO.

Definition settle_adjudication (now : Z) (round_id : string) (verdict_yes : bool)
    (subject_sha report_bytes_sha verdict_report_sha : string) : M gate GateRound :=
  round ← _require_round round_id;
  let target := verdict_state verdict_yes in
  lift_outcome (next_round_state (gr_state round) target) ;;
  stamped ← set_round_report round_id subject_sha report_bytes_sha verdict_report_sha
              (gr_row_version round);
  transition_round round_id target (gr_row_version stamped) now.

Definition accept_round (round_id declared_subject_sha declared_report_bytes_sha
    cas_report_bytes_sha : string) : M gate () :=
  round ← _require_round round_id;
  lift_outcome (may_accept_round round declared_subject_sha declared_report_bytes_sha
                  cas_report_bytes_sha).

Definition abandon_run (run_id : string) : M gate GateRun :=
  run ← require_run run_id;
  lift_outcome (next_run_state (rn_state run) RUN_ABANDONED) ;;
  transition_run run_id RUN_ABANDONED (rn_row_version run).

Definition close_run (run_id : string) (verdict_yes : bool) : M gate GateRun :=
  run ← require_run run_id;
  let target := if verdict_yes then RUN_CLOSED_YES else RUN_CLOSED_NO in
  lift_outcome (next_run_state (rn_state run) target) ;;
  transition_run run_id target (rn_row_version run).

Definition record_dispatch (d : Dispatch) : M gate Dispatch := SqliteGateStore.record_dispatch d.
Definition record_effect_intent (i : EffectIntent) : M gate EffectIntent :=
  SqliteGateStore.record_effect_intent i.
Definition record_effect_result (r : EffectResult) : M gate EffectResult :=
  SqliteGateStore.record_effect_result r.

Definition raise_finding (new_id : string) (now : Z) (raised_in_round : string) (severity : Severity)
    (statement : string) : M gate OpenFinding :=
  SqliteGateStore.raise_finding new_id now raised_in_round severity statement.

Definition close_finding (finding_id : string) (d : Disposition) : M gate OpenFinding :=
  lift_outcome (validate_disposition d) ;;
  append_disposition finding_id d.

Definition set_consumer_coverage (round_id : string) (c : ConsumerCoverage) : M gate () :=
  SqliteGateStore.set_consumer_coverage round_id c.

Definition claim_ownership (new_id : string) (now : Z) (prior_conversation new_conversation : string)
    (new_epoch : Z) (client_request_id claimed_by : string) (run_id : option string)
    : M gate ClaimOwnershipResult :=
  SqliteGateStore.claim_ownership new_id now prior_conversation new_conversation new_epoch run_id
    client_request_id claimed_by.

Definition project_round (round_id : string) : M gate (option RoundProjection) :=
  SqliteGateStore.project_round round_id.

Definition run_effective_state (run_id : string) : M gate RunState :=
  run ← require_run run_id;
  if negb (bool_decide (rn_state run = RUN_OPEN)) then mret (rn_state run) else
  rounds ← rounds_for_run run_id;
  dispatch_states ← for_each rounds [] (λ acc r,
    p ← SqliteGateStore.project_round (gr_round_id r);
    mret (match p with None => acc | Some p => acc ++ (dp_state <$> rp_dispatches p) end));
  mret (if run_awaiting_answer dispatch_states then RUN_AWAITING_ANSWER else RUN_OPEN).

End GateRoundService.

(** ** Questions *)

(** One call of [QuestionNotifier.notify]. *)
Record notice_call := {
  nc_question : RoundQuestion;
  nc_kind : string;
  nc_classification : string;
  nc_lines : list string;
}.

(** The store, and the calls made to the notifier, oldest first. *)
Record desk := { dk_gate : gate; dk_notified : list notice_call }.
Definition set_dk_gate (g : gate) (d : desk) : desk := {| dk_gate := g; dk_notified := dk_notified d |}.
Definition on_gate {A} (m : M gate A) : M desk A := zoom dk_gate set_dk_gate m.

Module GateQuestionService.

Definition OPEN_STATES : list QuestionState := [Q_PENDING; Q_ESCALATED].

(** A second, in microseconds: [timedelta(seconds=int(expires_in_s))]. *)
Definition seconds (s : Z) : Z := s * 1000000.

Section Service.
(** [None] is no notifier wired; [repr] is the text of an exception. *)
Context (notifier : option (list notice_call → notice_call → outcome (option string))).
Context (repr : exn → string).

Definition _ensure_dispatch (dispatch_id position : string) (round_id : option string) : M gate () :=
  d ← lift_outcome (construct Dispatch_valid "Dispatch"
    {| dp_dispatch_id := dispatch_id; dp_round_id := round_id; dp_role := OTHER;
       dp_position := position; dp_routing_revision := ""; dp_conversation_id := None;
       dp_terminal_incarnation := None; dp_request_id := dispatch_id; dp_effect_id := None;
       dp_pins := []; dp_brief_blob_sha := ""; dp_state := PREPARED; dp_outcome := None |});
  ensure_dispatch d ;; mret ().

Definition _identity (q : RoundQuestion) : M gate IdentityRef :=
  let made who context := lift_outcome (construct IdentityRef_valid "IdentityRef"
    {| id_who := who; id_context := context; id_ref := rq_question_id q |}) in
  match rq_round_id q with
  | None => made "cao-gate"%string ""%string
  | Some round_id =>
      p ← project_round round_id;
      match p with
      | None => made "cao-gate"%string ""%string
      | Some p => made (rn_lane (rp_run p))
                    (rn_wp (rp_run p) +:+ " r" +:+ pretty (gr_round_no (rp_round p)))
      end
  end.

(** [self._notifier.notify(..)] *)
Definition notify_port (f : list notice_call → notice_call → outcome (option string))
    (c : notice_call) : M desk (option string) := λ d,
  ({| dk_gate := dk_gate d; dk_notified := dk_notified d ++ [c] |}, f (dk_notified d) c).

Definition _notify (settled_at : Z) (q : RoundQuestion) (kind : EnvelopeKind) : M desk () :=
  match notifier with
  | None => mret ()
  | Some f =>
      identity ← on_gate (_identity q);
      envelope ← lift_outcome (
        if bool_decide (kind = KIND_QUESTION) then render_question_envelope q identity ""
        else render_anomaly_envelope q identity);
      let c := {| nc_question := q; nc_kind := EnvelopeKind_value kind;
                  nc_classification := NoticeClass_value (ce_classification envelope);
                  nc_lines := ce_lines envelope |} in
      reply ← catch (r ← notify_port f c; mret (inl r)) (λ e, mret (inr e));
      match reply with
      | inr e => on_gate (mark_notice_failed (rq_question_id q) (repr e))
      | inl None => on_gate (mark_notice_failed (rq_question_id q) "notifier returned no id")
      | inl (Some msg_id) => on_gate (mark_notice_sent (rq_question_id q) msg_id settled_at)
      end
  end.

Definition ask (new_id : string) (now settled_at : Z) (dispatch_id question client_request_id
    owner_conversation : string) (owner_epoch : Z) (round_id : option string)
    (options : list string) (blocking : bool) (expires_in_s : Z)
    (continuation_kind : ContinuationKind) (continuation_ref : string)
    (answer_schema default_answer position : option string) : M desk (RoundQuestion * bool) :=
  let expires_at := now + seconds expires_in_s in
  lift_outcome (validate_ask blocking default_answer question now expires_at) ;;
  match position with
  | None => mret ()
  | Some position => on_gate (_ensure_dispatch dispatch_id position round_id)
  end ;;
  asked ← on_gate (ask_question new_id dispatch_id round_id client_request_id owner_conversation
    owner_epoch continuation_kind
    (if nonempty continuation_ref then continuation_ref else dispatch_id) question options blocking
    now expires_at answer_schema default_answer);
  let '(record, replayed) := asked in
  (if (replayed : bool) then mret () else _notify settled_at record KIND_QUESTION) ;;
  mret (record, replayed).

Definition answer (new_id : string) (now : Z) (question_id answer_ answered_by client_request_id
    caller_conversation : string) (caller_epoch : Z) : M desk (RoundQuestion * QuestionAnswer) :=
  on_gate (answer_question new_id question_id answer_ answered_by client_request_id
    caller_conversation caller_epoch now).

Definition escalate (now settled_at : Z) (question_id : string) : M desk RoundQuestion :=
  record ← on_gate (escalate_question question_id now);
  _notify settled_at record KIND_QUESTION ;;
  mret record.

Definition consume_answer (now : Z) (answer_event_id : string) : M desk () :=
  on_gate (mark_answer_consumed answer_event_id now).

(** [settled_at i] is the clock when the notice of question [i] is settled. *)
Definition sweep_expired (now : Z) (settled_at : string → Z) : M desk (list RoundQuestion) :=
  expired ← on_gate (expire_due_questions now);
  for_each expired () (λ _ record, _notify (settled_at (rq_question_id record)) record KIND_CONDITION) ;;
  mret expired.

Definition get (question_id : string) : M gate (option RoundQuestion) := get_question question_id.

Definition require (question_id : string) : M gate RoundQuestion :=
  record ← get_question question_id;
  match record with
  | None => raise (refusal QUESTION_NOT_FOUND)
  | Some q => mret q
  end.

Definition list_open (owner_conversation : option string) (states : list QuestionState)
    (round_id : option string) (limit : Z) : M gate (list RoundQuestion) :=
  questions_for_owner owner_conversation states round_id limit.

Definition is_suspended (dispatch_id : string) : M gate bool :=
  q ← open_question_for_dispatch dispatch_id;
  mret (match q with None => false | Some _ => true end).

End Service.
End GateQuestionService.
