(* ===== verification/GateLife.v ===== *)
(** * What the gate is: the lives of its rows and its transitions

    The abstract specification.  A run, a round and a question each have a life,
    a step relation; [gtrans] is one transition of the whole record, a committed
    transaction seen from outside: which rows it needs, which rows it adds, and
    which rows it moves along their lives. *)

From S2P Require Import Prelude Gate GateRows GateStore.
Import SqliteGateStore.

(** ** Lives *)

Inductive run_step (r : GateRun) : GateRun → Prop :=
| RunEnded target : target ∈ legal_run (rn_state r) → target ≠ RUN_AWAITING_ANSWER →
    run_step r (move_run target r)
| RunClaimed conversation epoch : rn_owner_epoch r < epoch →
    run_step r (own_run conversation epoch r).

Inductive round_step (r : GateRound) : GateRound → Prop :=
| RoundFrozen snapshot : gr_state r = ROUND_OPEN → gr_review_snapshot r = None →
    ArtifactManifest_valid snapshot = true → round_step r (freeze_row snapshot r)
| RoundAdjudicated now : gr_state r = ROUND_BUILT → round_step r (move_row ROUND_ADJUDICATING now r)
| RoundSettled target now : gr_state r = ROUND_ADJUDICATING → target ∈ [ROUND_YES; ROUND_NO] →
    round_step r (move_row target now r)
| RoundReported subject report verdict : round_step r (report_row subject report verdict r).

Inductive question_step (q : RoundQuestion) : RoundQuestion → Prop :=
| QEscalated : rq_state q = Q_PENDING → question_step q (settle_question Q_ESCALATED None q)
| QAnswered event : q_open q = true → question_step q (settle_question Q_ANSWERED (Some event) q)
| QExpired : q_open q = true → question_step q (settle_question Q_EXPIRED None q)
| QClaimed conversation epoch : q_open q = true → question_step q (set_owner conversation epoch q)
| QConsumed at_ : rq_state q = Q_ANSWERED → question_step q (set_consumed at_ q).

(** Beside the questions: a suspension, a release into the state a question of this
    dispatch keeps, or the row a call records in its place. *)
Inductive dispatch_step (recorded : option Dispatch) (questions : list RoundQuestion) (d : Dispatch) : Dispatch → Prop :=
| DSuspended : dispatch_may_be_suspended (dp_state d) = true →
    dispatch_step recorded questions d (set_dispatch_state AWAITING_ANSWER d)
| DReleased q s : dp_state d = AWAITING_ANSWER → q ∈ questions → rq_dispatch_id q = dp_dispatch_id d →
    rq_dispatch_prior_state q = Some s → dispatch_may_be_suspended s = true →
    dispatch_step recorded questions d (set_dispatch_state s d)
| DRecorded d' : recorded = Some d' → Dispatch_valid d' = true → dp_dispatch_id d' = dp_dispatch_id d →
    dispatch_step recorded questions d d'.

(** ** Newborn rows *)

Record run_born (r : GateRun) : Prop := {
  rb_valid : GateRun_valid r = true;
  rb_open : rn_state r = RUN_OPEN;
  rb_version : rn_row_version r = 1;
}.

Record round_born (t : list GateRound) (r : GateRound) : Prop := {
  ob_valid : GateRound_valid r = true;
  ob_open : gr_state r = ROUND_OPEN;
  ob_unfrozen : gr_review_snapshot r = None;
  ob_not_closed : gr_closed_at r = None;
  ob_no_report : gr_subject_sha r = None ∧ gr_report_bytes_sha r = None ∧ gr_verdict_report_sha r = None;
  ob_version : gr_row_version r = 1;
  ob_next : gr_round_no r = last_round_no (gr_run_id r) t + 1;
}.

(** [prior] is the state of the dispatch the question suspends. *)
Record question_born (prior : DispatchState) (q : RoundQuestion) : Prop := {
  qb_pending : rq_state q = Q_PENDING;
  qb_unanswered : rq_answer_event_id q = None;
  qb_unconsumed : rq_consumed_at q = None;
  qb_prior : rq_dispatch_prior_state q = Some prior;
  qb_live : dispatch_may_be_suspended prior = true;
  qb_window : rq_asked_at q < rq_expires_at q;
  qb_default : rq_blocking q = false → falsy (rq_default_answer q) = false;
}.

(** ** Releasing several dispatches at once *)

(** What the releases of the questions [due] do to one dispatch. *)
Definition release_with (due : list RoundQuestion) (d : Dispatch) : Dispatch :=
  match head (filter (λ q, rq_dispatch_id q = dp_dispatch_id d) due) with
  | Some q => if bool_decide (dp_state d = AWAITING_ANSWER)
              then set_dispatch_state (_restored_state q) d else d
  | None => d
  end.

(** ** Transitions *)

(** [UPDATE .. WHERE key = ?] *)
Definition at_key {R} (key : R → string) (i : string) (f : R → R) (t : list R) : list R :=
  update_where (is_id key i) f t.

Definition run_id_of (x : run_row) : string := rn_run_id (rr_run x).

(** [recorded] is the row of a call that records a dispatch. *)
Inductive gtrans (recorded : option Dispatch) (g : gate) : gate → Prop :=
| T_open_run x : run_born (rr_run x) → run_id_of x ∉ run_id_of <$> gate_run g →
    gtrans recorded g (set_runs (gate_run g ++ [x]) g)
| T_open_round r : round_born (gate_round g) r → gr_round_id r ∉ gr_round_id <$> gate_round g →
    gtrans recorded g (set_rounds (gate_round g ++ [r]) g)
| T_run x f : x ∈ gate_run g → run_step (rr_run x) (f (rr_run x)) →
    gtrans recorded g (set_runs (at_key run_id_of (run_id_of x) (on_run f) (gate_run g)) g)
| T_round r f : r ∈ gate_round g → round_step r (f r) →
    gtrans recorded g (set_rounds (at_key gr_round_id (gr_round_id r) f (gate_round g)) g)
| T_new_dispatch d : Dispatch_valid d = true → dp_dispatch_id d ∉ dp_dispatch_id <$> gate_dispatch g →
    gtrans recorded g (set_dispatches (gate_dispatch g ++ [d]) g)
| T_dispatch d : recorded = Some d → Dispatch_valid d = true → dp_dispatch_id d ∈ dp_dispatch_id <$> gate_dispatch g →
    gtrans recorded g (set_dispatches (at_key dp_dispatch_id (dp_dispatch_id d) (λ _, d) (gate_dispatch g)) g)
| T_intent i : EffectIntent_valid i = true → ei_effect_id i ∉ ei_effect_id <$> gate_effect_intent g →
    gtrans recorded g (set_intents (gate_effect_intent g ++ [i]) g)
| T_new_result r : EffectResult_valid r = true →
    er_effect_id r ∈ ei_effect_id <$> gate_effect_intent g →
    er_effect_id r ∉ er_effect_id <$> gate_effect_result g →
    gtrans recorded g (set_results (gate_effect_result g ++ [r]) g)
| T_result r : EffectResult_valid r = true → er_effect_id r ∈ er_effect_id <$> gate_effect_result g →
    gtrans recorded g (set_results (at_key er_effect_id (er_effect_id r) (λ _, r) (gate_effect_result g)) g)
| T_finding b : (∃ r, r ∈ gate_round g ∧ gr_round_id r = fb_raised_in_round b
                      ∧ gr_run_id r = fb_run_id b) →
    fb_finding_id b ∉ fb_finding_id <$> gate_open_finding g →
    gtrans recorded g (set_open_findings (gate_open_finding g ++ [b]) g)
| T_disposition x b : b ∈ gate_open_finding g → fb_finding_id b = dr_finding_id x →
    fb_statement b ≠ "" → validate_disposition (dr_disposition x) = Returned (dr_disposition x) →
    dr_seq x = last_seq (dr_finding_id x) (gate_disposition g) + 1 →
    gtrans recorded g (set_dispositions (gate_disposition g ++ [x]) g)
| T_new_coverage x : ConsumerCoverage_valid (cr_coverage x) = true →
    cr_round_id x ∈ gr_round_id <$> gate_round g →
    cr_round_id x ∉ cr_round_id <$> gate_consumer_coverage g →
    gtrans recorded g (set_coverages (gate_consumer_coverage g ++ [x]) g)
| T_coverage x : ConsumerCoverage_valid (cr_coverage x) = true →
    cr_round_id x ∈ cr_round_id <$> gate_consumer_coverage g →
    gtrans recorded g (set_coverages (at_key cr_round_id (cr_round_id x) (λ _, x) (gate_consumer_coverage g)) g)
| T_ask q d : d ∈ gate_dispatch g → dp_dispatch_id d = rq_dispatch_id q →
    question_born (dp_state d) q →
    rq_question_id q ∉ rq_question_id <$> round_question g →
    (∀ x, x ∈ round_question g → q_open x = true → rq_dispatch_id x ≠ rq_dispatch_id q) →
    (∀ x, x ∈ round_question g →
       (rq_client_request_id x, rq_dispatch_id x) ≠ (rq_client_request_id q, rq_dispatch_id q)) →
    gtrans recorded g (set_notices (question_notice_intent g ++ [fresh_notice (rq_question_id q)])
      (set_dispatches (at_key dp_dispatch_id (rq_dispatch_id q) (set_dispatch_state AWAITING_ANSWER)
                         (gate_dispatch g))
        (set_questions (round_question g ++ [q]) g)))
| T_answer a q : q ∈ round_question g → rq_question_id q = qa_question_id a → q_open q = true →
    qa_answered_at a < rq_expires_at q →
    qa_answer_event_id a ∉ qa_answer_event_id <$> question_answer g →
    gtrans recorded g (set_deliveries (answer_delivery_intent g
                ++ [{| ad_answer_event_id := qa_answer_event_id a; ad_state := AD_PENDING;
                       ad_settled_at := None |}])
      (set_questions (at_key rq_question_id (qa_question_id a)
                        (settle_question Q_ANSWERED (Some (qa_answer_event_id a))) (round_question g))
        (set_answers (question_answer g ++ [a]) g)))
| T_escalate q : q ∈ round_question g → rq_state q = Q_PENDING →
    gtrans recorded g (set_questions (at_key rq_question_id (rq_question_id q)
                (settle_question Q_ESCALATED None) (round_question g)) g)
| T_expire now :
    gtrans recorded g (set_dispatches (release_with (select_where (is_due now) (round_question g))
                                <$> gate_dispatch g)
      (set_questions (update_where (is_due now) (settle_question Q_EXPIRED None) (round_question g)) g))
| T_notice i f : (∀ n, ni_question_id (f n) = ni_question_id n) →
    gtrans recorded g (set_notices (at_key ni_question_id i f (question_notice_intent g)) g)
| T_consume a q now : a ∈ question_answer g → q ∈ round_question g →
    rq_question_id q = qa_question_id a →
    gtrans recorded g (set_dispatches (update_where (awaiting (rq_dispatch_id q))
                                (set_dispatch_state (_restored_state q)) (gate_dispatch g))
      (set_questions (at_key rq_question_id (rq_question_id q) (set_consumed now) (round_question g))
        (set_deliveries (at_key ad_answer_event_id (qa_answer_event_id a) (consumed now)
                           (answer_delivery_intent g)) g)))
| T_claim x prior run_id :
    prior = ot_prior_conversation x → run_id = ot_run_id x →
    (∀ y, y ∈ gate_run g → owned_by prior y = true → rn_owner_epoch (rr_run y) < ot_new_epoch x) →
    ot_client_request_id x ∉ ot_client_request_id <$> ownership_transfer g →
    ot_transfer_id x ∉ ot_transfer_id <$> ownership_transfer g →
    gtrans recorded g (set_transfers (ownership_transfer g ++ [x])
      (set_questions (update_where (claimed_question prior run_id (gate_round g))
                        (set_owner (ot_new_conversation x) (ot_new_epoch x)) (round_question g))
        (set_runs (update_where (claimed_run prior run_id)
                     (on_run (own_run (ot_new_conversation x) (ot_new_epoch x))) (gate_run g)) g))).

Lemma gtrans_any recorded g g' : gtrans None g g' → gtrans recorded g g'.
Proof. by destruct 1; econstructor. Qed.

(** ** The invariant *)

(** The numbers [1, 2, .., n]. *)
Definition numbered (l : list Z) : Prop := l = seqZ 1 (Z.of_nat (length l)).

Record run_ok (r : GateRun) : Prop := {
  rk_bound : 0 < rn_max_rounds r;
  rk_epoch : 0 <= rn_owner_epoch r;
  rk_written : rn_state r ≠ RUN_AWAITING_ANSWER;
}.

Record round_ok (r : GateRound) : Prop := {
  ok_valid : GateRound_valid r = true;
  ok_frozen : gr_review_snapshot r = None ↔ gr_state r = ROUND_OPEN;
  ok_closed : is_Some (gr_closed_at r) ↔ gr_state r ∈ [ROUND_YES; ROUND_NO];
  ok_never_abandoned : gr_state r ≠ ROUND_ABANDONED;
}.

Record runs_ok (t : list run_row) : Prop := {
  ro_ids : NoDup (run_id_of <$> t);
  ro_rows : ∀ x, x ∈ t → run_ok (rr_run x);
}.

Record rounds_ok (t : list GateRound) : Prop := {
  uo_ids : NoDup (gr_round_id <$> t);
  uo_numbers : ∀ i, numbered (gr_round_no <$> select_where (is_id gr_run_id i) t);
  uo_rows : ∀ r, r ∈ t → round_ok r;
}.

Record dispatches_ok (t : list Dispatch) : Prop := {
  do_ids : NoDup (dp_dispatch_id <$> t);
  do_rows : ∀ d, d ∈ t → Dispatch_valid d = true;
}.

Record effects_ok (intents : list EffectIntent) (results : list EffectResult) : Prop := {
  eo_intents : NoDup (ei_effect_id <$> intents);
  eo_results : NoDup (er_effect_id <$> results);
  eo_intended : ∀ r, r ∈ results → er_effect_id r ∈ ei_effect_id <$> intents;
  eo_rows : (∀ i, i ∈ intents → EffectIntent_valid i = true)
            ∧ ∀ r, r ∈ results → EffectResult_valid r = true;
}.

Record closures_ok (rounds : list GateRound) (findings : list finding_base)
    (dispositions : list disposition_row) : Prop := {
  co_ids : NoDup (fb_finding_id <$> findings);
  co_raised : ∀ b, b ∈ findings →
    (fb_raised_in_round b, fb_run_id b) ∈ (λ r, (gr_round_id r, gr_run_id r)) <$> rounds;
  co_found : ∀ x, x ∈ dispositions → dr_finding_id x ∈ fb_finding_id <$> findings;
  co_evidence : ∀ x, x ∈ dispositions →
    validate_disposition (dr_disposition x) = Returned (dr_disposition x);
  co_numbers : ∀ i, numbered (dr_seq <$> select_where (is_id dr_finding_id i) dispositions);
}.

Record coverages_ok (rounds : list GateRound) (t : list coverage_row) : Prop := {
  vo_ids : NoDup (cr_round_id <$> t);
  vo_rounds : ∀ x, x ∈ t → cr_round_id x ∈ gr_round_id <$> rounds;
  vo_rows : ∀ x, x ∈ t → ConsumerCoverage_valid (cr_coverage x) = true;
}.

Record question_ok (q : RoundQuestion) : Prop := {
  qk_answered : is_Some (rq_answer_event_id q) ↔ rq_state q = Q_ANSWERED;
  qk_consumed : is_Some (rq_consumed_at q) → rq_state q = Q_ANSWERED;
  qk_prior : ∃ s, rq_dispatch_prior_state q = Some s ∧ dispatch_may_be_suspended s = true;
  qk_window : rq_asked_at q < rq_expires_at q;
  qk_default : rq_blocking q = false → falsy (rq_default_answer q) = false;
}.

Definition request_key (q : RoundQuestion) : string * string :=
  (rq_client_request_id q, rq_dispatch_id q).

Record questions_ok (dispatches : list Dispatch) (questions : list RoundQuestion)
    (answers : list QuestionAnswer) (deliveries : list delivery_intent)
    (notices : list notice_intent) : Prop := {
  qo_ids : NoDup (rq_question_id <$> questions);
  qo_keys : NoDup (request_key <$> questions);
  qo_slot : NoDup (rq_dispatch_id <$> select_where q_open questions);
  qo_rows : ∀ q, q ∈ questions → question_ok q;
  qo_bound : ∀ q, q ∈ questions → rq_dispatch_id q ∈ dp_dispatch_id <$> dispatches;
  qo_answer_ids : NoDup (qa_answer_event_id <$> answers);
  qo_answers : ∀ e i, (e, i) ∈ (λ a, (qa_answer_event_id a, qa_question_id a)) <$> answers
    ↔ ∃ q, q ∈ questions ∧ rq_question_id q = i ∧ rq_answer_event_id q = Some e;
  qo_deliveries : ad_answer_event_id <$> deliveries = qa_answer_event_id <$> answers;
  qo_notices : ni_question_id <$> notices = rq_question_id <$> questions;
}.

Record transfers_ok (t : list transfer_row) : Prop := {
  to_ids : NoDup (ot_transfer_id <$> t);
  to_requests : NoDup (ot_client_request_id <$> t);
}.

Record gate_ok (g : gate) : Prop := {
  gk_runs : runs_ok (gate_run g);
  gk_rounds : rounds_ok (gate_round g);
  gk_dispatches : dispatches_ok (gate_dispatch g);
  gk_effects : effects_ok (gate_effect_intent g) (gate_effect_result g);
  gk_findings : closures_ok (gate_round g) (gate_open_finding g) (gate_disposition g);
  gk_coverages : coverages_ok (gate_round g) (gate_consumer_coverage g);
  gk_questions : questions_ok (gate_dispatch g) (round_question g) (question_answer g)
                   (answer_delivery_intent g) (question_notice_intent g);
  gk_transfers : transfers_ok (ownership_transfer g);
}.
