(* ===== verification/GateExec.v ===== *)
(** * The gate's transactions refine its transitions

    [gop] is one transaction of a gate service: one call of a mutating method of
    [SqliteGateStore] with the arguments and the checks the services give it.
    Commands of several threads interleave at this grain.  From a state that
    satisfies the invariant every transaction either leaves the state alone or
    makes one transition of [gtrans]. *)

From S2P Require Import Prelude Chars Gate GateRows GateStore GateRender GateService GateLife Wp.
Import SqliteGateStore.

Inductive gop :=
| GOpenRun (new_id : string) (now : Z) (wp lane owner : string) (epoch max_rounds : Z)
    (workflow_source_sha input_sha : string)
| GOpenRound (new_id : string) (now : Z) (run_id : string) (build_inputs : ArtifactManifest)
    (target : ExecutionTarget) (predecessor : option string) (test_command evidence_tier : string)
    (generation : Z)
| GFreeze (round_id : string) (snapshot : ArtifactManifest) (version : Z)
| GAdjudicate (round_id : string) (version now : Z)
| GSettle (round_id : string) (verdict_yes : bool) (version now : Z)
| GReport (round_id subject_sha report_bytes_sha verdict_report_sha : string) (version : Z)
| GAbandon (run_id : string) (version : Z)
| GClose (run_id : string) (verdict_yes : bool) (version : Z)
| GDispatch (d : Dispatch)
| GEnsure (d : Dispatch)
| GIntent (i : EffectIntent)
| GResult (r : EffectResult)
| GRaise (new_id : string) (now : Z) (round_id : string) (severity : Severity) (statement : string)
| GCloseFinding (finding_id : string) (d : Disposition)
| GCoverage (round_id : string) (c : ConsumerCoverage)
| GAsk (new_id dispatch_id : string) (round_id : option string) (client_request_id owner : string)
    (epoch : Z) (kind : ContinuationKind) (ref question : string) (options : list string)
    (blocking : bool) (asked_at expires_at : Z) (schema default_answer : option string)
| GAnswer (new_id question_id answer answered_by client_request_id conversation : string)
    (epoch now : Z)
| GEscalate (question_id : string) (now : Z)
| GExpire (now : Z)
| GNoticeSent (question_id msg_id : string) (now : Z)
| GNoticeFailed (question_id error : string)
| GConsume (answer_event_id : string) (now : Z)
| GClaim (new_id : string) (now : Z) (prior new_conversation : string) (epoch : Z)
    (run_id : option string) (client_request_id claimed_by : string).

(** A model object that reaches the store has passed its constructor. *)
Definition gexec (o : gop) : M gate () :=
  match o with
  | GOpenRun i now wp lane owner epoch max src inp =>
      open_run i now wp lane owner epoch max src inp ;; mret ()
  | GOpenRound i now run_id inputs target pred tc tier gen =>
      open_round i now run_id inputs target pred tc tier gen ;; mret ()
  | GFreeze i snapshot v =>
      lift_outcome (construct ArtifactManifest_valid "ArtifactManifest" snapshot) ;;
      freeze_review_snapshot i snapshot v ;; mret ()
  | GAdjudicate i v now => transition_round i ROUND_ADJUDICATING v now ;; mret ()
  | GSettle i yes v now => transition_round i (GateRoundService.verdict_state yes) v now ;; mret ()
  | GReport i s r w v => set_round_report i s r w v ;; mret ()
  | GAbandon i v => transition_run i RUN_ABANDONED v ;; mret ()
  | GClose i yes v => transition_run i (if yes then RUN_CLOSED_YES else RUN_CLOSED_NO) v ;; mret ()
  | GDispatch d => lift_outcome (construct Dispatch_valid "Dispatch" d) ;; record_dispatch d ;; mret ()
  | GEnsure d => lift_outcome (construct Dispatch_valid "Dispatch" d) ;; ensure_dispatch d ;; mret ()
  | GIntent i => lift_outcome (construct EffectIntent_valid "EffectIntent" i) ;;
                 record_effect_intent i ;; mret ()
  | GResult r => lift_outcome (construct EffectResult_valid "EffectResult" r) ;;
                 record_effect_result r ;; mret ()
  | GRaise i now round_id sev st => raise_finding i now round_id sev st ;; mret ()
  | GCloseFinding i d => lift_outcome (validate_disposition d) ;; append_disposition i d ;; mret ()
  | GCoverage i c => lift_outcome (construct ConsumerCoverage_valid "ConsumerCoverage" c) ;;
                     set_consumer_coverage i c
  | GAsk i d r k owner epoch kind ref q opts blocking at_ until schema def =>
      lift_outcome (validate_ask blocking def q at_ until) ;;
      ask_question i d r k owner epoch kind ref q opts blocking at_ until schema def ;; mret ()
  | GAnswer i q a by_ k conv epoch now => answer_question i q a by_ k conv epoch now ;; mret ()
  | GEscalate q now => escalate_question q now ;; mret ()
  | GExpire now => expire_due_questions now ;; mret ()
  | GNoticeSent q m now => mark_notice_sent q m now
  | GNoticeFailed q e => mark_notice_failed q e
  | GConsume a now => mark_answer_consumed a now
  | GClaim i now prior new epoch run_id k by_ => claim_ownership i now prior new epoch run_id k by_ ;; mret ()
  end.

Definition gstep (o : gop) (g : gate) : gate := state_of (gexec o g).
Definition gruns (ops : list gop) (g : gate) : gate := foldl (λ g o, gstep o g) g ops.

(** The row a call records. *)
Definition recorded (o : gop) : option Dispatch := match o with GDispatch d => Some d | _ => None end.

(** ** Reading a table by its key *)

Lemma head_select_Some {R} (p : R → bool) t r :
  head (select_where p t) = Some r → r ∈ t ∧ p r = true.
Proof. intros H%head_Some_elem_of. apply elem_of_select in H as [??]. done. Qed.

Lemma head_select_None {R} (p : R → bool) t :
  head (select_where p t) = None → ∀ r, r ∈ t → p r = false.
Proof.
  intros H%head_None r Hr. destruct (p r) eqn:E; [|done].
  assert (r ∈ select_where p t) as Hin by (by apply elem_of_select).
  rewrite H in Hin. by apply not_elem_of_nil in Hin.
Qed.

Lemma is_id_true {R} (key : R → string) i r : is_id key i r = true ↔ key r = i.
Proof. apply bool_decide_eq_true. Qed.
Lemma is_id_false {R} (key : R → string) i r : is_id key i r = false ↔ key r ≠ i.
Proof. apply bool_decide_eq_false. Qed.

Lemma no_key {R} (key : R → string) i (t : list R) :
  (∀ r, r ∈ t → is_id key i r = false) → i ∉ key <$> t.
Proof. intros H (r & -> & Hr)%list_elem_of_fmap. by apply H, is_id_false in Hr. Qed.

Lemma is_key {R} (key : R → string) i (t : list R) :
  existsb (is_id key i) t = true → i ∈ key <$> t.
Proof.
  intros (r & Hr%list_elem_of_In & <-%is_id_true)%existsb_exists. by apply list_elem_of_fmap_2.
Qed.

Lemma update_where_eq {R} (p : R → bool) (f f' : R → R) t :
  (∀ r, r ∈ t → p r = true → f r = f' r) → update_where p f t = update_where p f' t.
Proof.
  intros H. unfold update_where. apply list_fmap_ext. intros i r Hr%list_elem_of_lookup_2.
  destruct (p r) eqn:E; auto.
Qed.

(** Under a unique key, [WHERE key = ? AND more] names the row [r] or none. *)
Lemma at_key_and {R} (key : R → string) (more : R → bool) (f : R → R) (t : list R) r :
  NoDup (key <$> t) → r ∈ t → more r = true →
  update_where (λ x, is_id key (key r) x && more x) f t = at_key key (key r) f t.
Proof.
  intros Hnd Hr Hm. apply update_where_ext. intros x Hx.
  destruct (is_id key (key r) x) eqn:E; [|done]. apply is_id_true in E.
  by rewrite (NoDup_key_eq key t x r).
Qed.

Lemma rowcount_zero {R} (p : R → bool) t : (rowcount p t =? 0)%nat = false → ∃ r, r ∈ t ∧ p r = true.
Proof. intros H%Nat.eqb_neq. apply rowcount_pos. lia. Qed.

Lemma construct_Returned {A} (valid : A → bool) what a b :
  construct valid what a = Returned b → b = a ∧ valid a = true.
Proof. unfold construct. by destruct (valid a); intros [= <-]. Qed.

Lemma next_round_Returned c target s :
  next_round_state c target = Returned s → target ∈ legal_round c.
Proof. unfold next_round_state. by case_bool_decide. Qed.

Lemma next_run_Returned c target s :
  next_run_state c target = Returned s → target ∈ legal_run c ∧ target ≠ RUN_AWAITING_ANSWER.
Proof. unfold next_run_state. case_bool_decide; [done|]. by case_bool_decide. Qed.

Lemma next_question_Returned c target s :
  next_question_state c target = Returned s → target ∈ legal_question c.
Proof. unfold next_question_state. by case_bool_decide. Qed.

(** ** One transaction, one transition *)

(** [m] run from [g] leaves [g] or makes one transition, however it ends. *)
Definition refines (g : gate) {A} (m : M gate A) : Prop :=
  wp m g (λ _ g', g' = g ∨ gtrans None g g') (λ _ g', g' = g ∨ gtrans None g g').

Ltac txn_step :=
  first [ wp_step
        | progress unfold on_runs, on_rounds, on_dispatches, on_intents, on_results, on_open_findings,
            on_dispositions, on_coverages, on_questions, on_answers, on_deliveries, on_notices,
            on_transfers, changed_round, _get_round_locked, _get_run_locked, _load_question_locked ].
(** Every step, and every end that leaves the state alone. *)
Ltac txn := repeat txn_step; try (left; reflexivity).

(** Read a table through the writes of the others. *)
Ltac tables := cbn [gate_run gate_round gate_dispatch gate_effect_intent gate_effect_result
  gate_open_finding gate_disposition gate_consumer_coverage round_question question_answer
  answer_delivery_intent question_notice_intent ownership_transfer
  set_runs set_rounds set_dispatches set_intents set_results set_open_findings set_dispositions
  set_coverages set_questions set_answers set_deliveries set_notices set_transfers] in *.

(** Membership in a written list, by cases. *)
Ltac in_list H :=
  repeat (apply elem_of_cons in H; destruct H as [H|H]); try (by apply not_elem_of_nil in H).

Section Refine.
Context (g : gate) (Hg : gate_ok g).

Lemma refine_open_run i now wp_ lane owner epoch max src inp :
  refines g (open_run i now wp_ lane owner epoch max src inp).
Proof using Hg.
  unfold refines, open_run. txn.
  right. simpl. apply construct_Returned in H0 as [-> Hv].
  apply (T_open_run None g {| rr_run := _; rr_created_at := now |}); [by constructor|].
  apply no_key. by apply existsb_false.
Qed.

Lemma refine_open_round i now run_id inputs target pred tc tier gen :
  refines g (open_round i now run_id inputs target pred tc tier gen).
Proof using Hg.
  unfold refines, open_round. txn. right. simpl.
  apply construct_Returned in H as [-> Hv]. apply (T_open_round None g); [by constructor|].
  apply no_key. intros r Hr. pose proof (proj1 (existsb_false _ _) H0 r Hr) as Hc.
  by apply orb_false_iff in Hc as [? _].
Qed.
(** The row a SELECT by key and a version-guarded UPDATE agree on. *)
Lemma round_versioned i v r f :
  head (select_where (is_id gr_round_id i) (gate_round g)) = Some r →
  (rowcount (round_at i v) (gate_round g) =? 0)%nat = false →
  r ∈ gate_round g ∧ gr_round_id r = i
  ∧ update_where (round_at i v) f (gate_round g) = at_key gr_round_id (gr_round_id r) f (gate_round g).
Proof using Hg.
  intros (Hr & <-%is_id_true)%head_select_Some (x & Hx & [He%is_id_true Hv]%andb_true_iff)%rowcount_zero.
  split_and!; [done..|]. apply at_key_and; [apply Hg|done|].
  by rewrite <- (NoDup_key_eq gr_round_id (gate_round g) x r) by (done || apply Hg).
Qed.

Lemma run_versioned i v x f :
  head (select_where (run_is i) (gate_run g)) = Some x →
  (rowcount (run_at i v) (gate_run g) =? 0)%nat = false →
  x ∈ gate_run g ∧ run_id_of x = i
  ∧ update_where (run_at i v) f (gate_run g) = at_key run_id_of (run_id_of x) f (gate_run g).
Proof using Hg.
  intros (Hr & <-%(is_id_true run_id_of))%head_select_Some (y & Hy & [He%(is_id_true run_id_of) Hv]%andb_true_iff)%rowcount_zero.
  split_and!; [done..|].
  apply (at_key_and run_id_of (λ x, bool_decide (rn_row_version (rr_run x) = v))); [apply Hg|done|].
  by rewrite <- (NoDup_key_eq run_id_of (gate_run g) y x) by (done || apply Hg).
Qed.

Lemma refine_freeze i snapshot v :
  ArtifactManifest_valid snapshot = true → refines g (freeze_review_snapshot i snapshot v).
Proof using Hg.
  intros Hs. unfold refines, freeze_review_snapshot. txn. right.
  apply construct_Returned in H0 as [-> _]. apply next_round_Returned in H1.
  destruct (round_versioned i v g0 (freeze_row snapshot)) as (Hr & _ & ->); [done..|].
  apply T_round; [done|]. apply RoundFrozen; [|done..].
  destruct (gr_state g0); simpl in H1; try done; in_list H1; done.
Qed.

Lemma refine_transition_round i target v now :
  target ∈ [ROUND_ADJUDICATING; ROUND_YES; ROUND_NO] → refines g (transition_round i target v now).
Proof using Hg.
  intros Ht. unfold refines, transition_round. txn. right.
  apply construct_Returned in H0 as [-> _]. apply next_round_Returned in H1.
  destruct (round_versioned i v g0 (move_row target now)) as (Hr & _ & ->); [done..|].
  apply T_round; [done|].
  destruct (gr_state g0) eqn:E; simpl in H1; in_list H1; subst target; in_list Ht; try done.
  - by apply RoundAdjudicated.
  - apply RoundSettled; [done|by left].
  - apply RoundSettled; [done|right; by left].
Qed.

Lemma refine_report i subject report verdict v :
  refines g (set_round_report i subject report verdict v).
Proof using Hg.
  unfold refines, set_round_report. txn. right.
  destruct (round_versioned i v g0 (report_row subject report verdict)) as (Hr & _ & ->); [done..|].
  apply T_round; [done|]. apply RoundReported.
Qed.

Lemma refine_transition_run i target v : refines g (transition_run i target v).
Proof using Hg.
  unfold refines, transition_run. txn. right.
  apply construct_Returned in H0 as [-> _]. apply next_run_Returned in H1 as [Hl Hn].
  destruct (run_versioned i v r (on_run (move_run target))) as (Hr & _ & ->); [done..|].
  apply T_run; [done|]. by apply RunEnded.
Qed.

Lemma refine_record_dispatch d : Dispatch_valid d = true →
  wp (record_dispatch d) g (λ _ g', g' = g ∨ gtrans (Some d) g g') (λ _ g', g' = g ∨ gtrans (Some d) g g').
Proof using Hg.
  intros Hd. unfold record_dispatch. txn; right; simpl.
  - apply T_new_dispatch; [done|]. apply no_key. by apply existsb_false.
  - apply T_dispatch; [done..|]. by apply is_key.
Qed.

Lemma refine_ensure_dispatch d : Dispatch_valid d = true → refines g (ensure_dispatch d).
Proof using Hg.
  intros Hd. unfold refines, ensure_dispatch. txn.
  - right. apply T_new_dispatch; [done|]. apply no_key. by apply existsb_false.
  - left. put_get.
Qed.

Lemma refine_intent i : EffectIntent_valid i = true → refines g (record_effect_intent i).
Proof using Hg.
  intros Hi. unfold refines, record_effect_intent.
  txn; try (left; put_get); right; (apply T_intent; [done|]; apply no_key; by apply existsb_false).
Qed.

Lemma refine_result r : EffectResult_valid r = true → refines g (record_effect_result r).
Proof using Hg.
  intros Hr. unfold refines, record_effect_result. txn; right.
  - apply T_new_result; [done| |apply no_key; by apply existsb_false].
    apply head_select_Some in H as [He <-%is_id_true]. by apply list_elem_of_fmap_2.
  - apply T_result; [done|]. by apply is_key.
Qed.

Lemma refine_raise i now round_id sev st : refines g (raise_finding i now round_id sev st).
Proof using Hg.
  unfold refines, raise_finding. txn.
  all: right; apply head_select_Some in H as [Hr <-%is_id_true];
    apply T_finding; [by eexists|apply no_key; by apply existsb_false].
Qed.

Lemma refine_close i d :
  validate_disposition d = Returned d → refines g (append_disposition i d).
Proof using Hg.
  intros Hd. unfold refines, append_disposition, _load_finding_locked. txn. right. simpl in *.
  rewrite H1 in H. injection H as ->. apply construct_Returned in H2 as [_ Hv].
  apply head_select_Some in H1 as [Hb <-%is_id_true].
  apply (T_disposition None g _ f); try done.
  intros He. unfold OpenFinding_valid in Hv. simpl in Hv. rewrite He in Hv.
  by rewrite andb_false_r in Hv.
Qed.

Lemma refine_coverage i c : ConsumerCoverage_valid c = true → refines g (set_consumer_coverage i c).
Proof using Hg.
  intros Hc. unfold refines, set_consumer_coverage. txn; right.
  - apply head_select_Some in H as [Hr <-%is_id_true].
    apply T_new_coverage; [done|exact (list_elem_of_fmap_2 gr_round_id _ _ Hr)
      |apply no_key; by apply existsb_false].
  - apply (T_coverage None g {| cr_round_id := i; cr_coverage := c |}); [done|]. by apply is_key.
Qed.

Lemma validate_ask_Returned blocking def q at_ until u :
  validate_ask blocking def q at_ until = Returned u →
  at_ < until ∧ (blocking = false → falsy def = false).
Proof using Type.
  unfold validate_ask. destruct (blank q); [done|].
  destruct blocking, (falsy def); simpl; destruct (Z.leb_spec until at_); try done; by split; [lia|].
Qed.

Lemma refine_ask i d r k owner epoch kind ref q opts blocking at_ until schema def u :
  validate_ask blocking def q at_ until = Returned u →
  refines g (ask_question i d r k owner epoch kind ref q opts blocking at_ until schema def).
Proof using Hg.
  intros [Hw Hd]%validate_ask_Returned. unfold refines, ask_question. txn. right.
  apply construct_Returned in H2 as [-> _]. apply head_select_Some in H0 as [Hin Hid%is_id_true].
  apply negb_false_iff in Heqb.
  pose proof (head_select_None _ _ H) as Hk. pose proof (head_select_None _ _ H1) as Ho.
  match type of H3 with existsb (question_clash ?q) _ = _ => apply (T_ask None g q d0) end;
    [done|done|by constructor| | |].
  - apply no_key. intros x Hx. pose proof (proj1 (existsb_false _ _) H3 x Hx) as Hc.
    by apply orb_false_iff in Hc as [? _].
  - intros x Hx Hopen He. specialize (Ho x Hx). unfold open_on in Ho.
    rewrite Hopen, andb_true_r in Ho. by apply is_id_false in Ho.
  - intros x Hx [= Hkx Hdx]. specialize (Hk x Hx). unfold asked_as, is_id in Hk.
    by rewrite Hkx, Hdx, !bool_decide_eq_true_2 in Hk.
Qed.

Lemma admissible_open q conv epoch now :
  aa_admissible (answer_admissible q conv epoch now) = true →
  rq_is_open q = true ∧ now < rq_expires_at q ∧ conv = rq_owner_conversation q
  ∧ rq_owner_epoch q <= epoch.
Proof using Type.
  unfold answer_admissible, rq_is_open, epoch_supersedes.
  destruct (rq_state q); simpl; try done;
    (destruct (Z.leb_spec (rq_expires_at q) now); [done|]; simpl);
    (case_bool_decide; simpl; [|done]);
    (destruct (Z.ltb_spec epoch (rq_owner_epoch q)); [done|]); done.
Qed.

Lemma open_states q : rq_is_open q = q_open q.
Proof using Type. unfold rq_is_open, q_open. by destruct (rq_state q). Qed.

Lemma question_open_at r f :
  r ∈ round_question g → q_open r = true →
  update_where (open_question (rq_question_id r)) f (round_question g)
  = at_key rq_question_id (rq_question_id r) f (round_question g).
Proof using Hg. intros Hr Ho. apply (at_key_and rq_question_id q_open); [apply Hg|done|done]. Qed.

Lemma refine_answer i q a by_ k conv epoch now : refines g (answer_question i q a by_ k conv epoch now).
Proof using Hg.
  unfold refines, answer_question. txn. right.
  apply construct_Returned in H0 as [-> _]. apply construct_Returned in H3 as [-> _].
  apply head_select_Some in H as [Hq Hid%is_id_true].
  apply negb_false_iff, admissible_open in Heqb as (Hopen & Hexp & _). rewrite open_states in Hopen.
  tables. subst q. rewrite question_open_at by done.
  match type of H4 with existsb _ _ = _ =>
    apply (T_answer None g {| qa_answer_event_id := i; qa_question_id := rq_question_id r; qa_answer := a;
      qa_answered_by := by_; qa_answered_at := now; qa_client_request_id := k |} r) end; try done.
  apply no_key. by apply existsb_false.
Qed.

Lemma refine_escalate i now : refines g (escalate_question i now).
Proof using Hg.
  unfold refines, escalate_question. txn. right.
  apply construct_Returned in H0 as [-> _]. apply head_select_Some in H as [Hq <-%is_id_true].
  apply next_question_Returned in H1.
  assert (rq_state r = Q_PENDING) as Hp by (destruct (rq_state r); simpl in H1; in_list H1; done).
  unfold pending_question. tables.
  rewrite (at_key_and rq_question_id (λ q, bool_decide (rq_state q = Q_PENDING)));
    [by apply T_escalate|apply Hg|done|by apply bool_decide_eq_true].
Qed.

Lemma refine_notice i f : (∀ n, ni_question_id (f n) = ni_question_id n) →
  gtrans None g (set_notices (update_where (is_id ni_question_id i) f (question_notice_intent g)) g).
Proof using Type. intros Hf. by apply T_notice. Qed.

Lemma refine_consume e now : refines g (mark_answer_consumed e now).
Proof using Hg.
  unfold refines, mark_answer_consumed, release_dispatch. txn. right. tables.
  apply construct_Returned in H1 as [-> _]. apply head_select_Some in H as [Ha <-%is_id_true].
  apply head_select_Some in H0 as [(x & -> & Hx)%list_elem_of_fmap Hid].
  destruct (is_id rq_question_id (qa_question_id q) x) eqn:E; [|by rewrite E in Hid].
  apply is_id_true in E. rewrite <- E. by apply (T_consume None g q x now).
Qed.

(** ** The expiry sweep *)

Definition mark_expired (done : list RoundQuestion) (x : RoundQuestion) : RoundQuestion :=
  if bool_decide (rq_question_id x ∈ rq_question_id <$> done)
  then settle_question Q_EXPIRED None x else x.

Definition after_expiry (done : list RoundQuestion) : gate :=
  set_dispatches (release_with done <$> gate_dispatch g)
    (set_questions (mark_expired done <$> round_question g) g).

Lemma after_expiry_nil : after_expiry [] = g.
Proof using Type.
  clear Hg. unfold after_expiry, release_with, mark_expired. simpl. rewrite !list_fmap_id. by destruct g.
Qed.

Lemma release_with_snoc done x d :
  rq_dispatch_id x ∉ rq_dispatch_id <$> done →
  release_with (done ++ [x]) d
  = (let d' := release_with done d in
     if awaiting (rq_dispatch_id x) d' then set_dispatch_state (_restored_state x) d' else d').
Proof using Type.
  intros Hx. unfold release_with, awaiting, is_id. rewrite filter_app.
  destruct (decide (rq_dispatch_id x = dp_dispatch_id d)) as [He|He].
  - rewrite (filter_none _ done), filter_cons_True by
      (done || (intros y Hy Hyd; apply Hx; rewrite He, <- Hyd; by apply list_elem_of_fmap_2)).
    simpl. rewrite (bool_decide_eq_true_2 (dp_dispatch_id d = rq_dispatch_id x)) by done. done.
  - rewrite filter_cons_False, app_nil_r by done.
    destruct (head _) as [q|]; [destruct (bool_decide (dp_state d = AWAITING_ANSWER))|]; simpl;
      by rewrite bool_decide_eq_false_2 by congruence.
Qed.

Lemma mark_expired_snoc done x y :
  rq_question_id x ∉ rq_question_id <$> done → q_open x = true →
  (rq_question_id x = rq_question_id y → x = y) →
  mark_expired (done ++ [x]) y
  = (let y' := mark_expired done y in
     if open_question (rq_question_id x) y' then settle_question Q_EXPIRED None y' else y').
Proof using Type.
  intros Hx Ho Hinj. unfold mark_expired, open_question, is_id. rewrite fmap_app. simpl.
  destruct (decide (rq_question_id y ∈ rq_question_id <$> done)) as [Hd|Hd].
  - rewrite !(bool_decide_eq_true_2 (rq_question_id y ∈ _)) by (done || (apply elem_of_app; by left)).
    simpl. rewrite bool_decide_eq_false_2 by congruence. done.
  - rewrite (bool_decide_eq_false_2 (rq_question_id y ∈ rq_question_id <$> done)) by done.
    destruct (decide (rq_question_id x = rq_question_id y)) as [He|He].
    + rewrite <- (Hinj He), Ho, !bool_decide_eq_true_2; [done|done|]. apply elem_of_app. right. by left.
    + rewrite !bool_decide_eq_false_2; [done|congruence|].
      intros [?|?%list_elem_of_singleton]%elem_of_app; congruence.
Qed.

Lemma mark_expired_ids done (t : list RoundQuestion) : rq_question_id <$> (mark_expired done <$> t) = rq_question_id <$> t.
Proof using Type.
  rewrite <- list_fmap_compose. apply list_fmap_ext. intros j y _. simpl.
  unfold mark_expired. by case_bool_decide.
Qed.

Lemma rowcount_key {R} (key : R → string) (more : R → bool) (t : list R) r :
  NoDup (key <$> t) → r ∈ t → more r = true →
  rowcount (λ x, is_id key (key r) x && more x) t = 1%nat.
Proof using Type.
  intros Hnd Hr Hm. unfold rowcount, select_where.
  induction t as [|x t IH]; [by apply not_elem_of_nil in Hr|].
  rewrite fmap_cons in Hnd. apply NoDup_cons in Hnd as [Hx Hnd].
  apply elem_of_cons in Hr as [->|Hr].
  - rewrite filter_cons_True by (by rewrite Hm, andb_true_r; apply is_id_true).
    rewrite filter_none; [done|]. intros y Hy [He%is_id_true _]%andb_true_iff.
    apply Hx. rewrite <- He. by apply list_elem_of_fmap_2.
  - rewrite filter_cons_False; [by apply IH|]. intros [He%is_id_true _]%andb_true_iff.
    apply Hx. rewrite He. by apply list_elem_of_fmap_2.
Qed.

Lemma due_once now :
  let due := select_where (is_due now) (round_question g) in
  NoDup (rq_question_id <$> due) ∧ NoDup (rq_dispatch_id <$> due)
  ∧ ∀ x, x ∈ due → x ∈ round_question g ∧ q_open x = true.
Proof using Hg.
  intros due. assert (due `sublist_of` round_question g) as Hs by apply select_where_sublist.
  split_and!.
  - by apply (NoDup_key_sublist _ (round_question g)); [apply Hg|].
  - apply (NoDup_key_sublist _ (select_where q_open (round_question g))); [apply Hg|].
    unfold due, select_where. rewrite <- (list_filter_filter_l (λ r, is_due now r = true)
      (λ r, q_open r = true)); [apply sublist_filter|].
    by intros x [? _]%andb_true_iff.
  - intros x [[Ho _]%andb_true_iff Hx]%elem_of_select. done.
Qed.

Lemma sweep_row due done x rest :
  NoDup (rq_question_id <$> due) → NoDup (rq_dispatch_id <$> due) → due = done ++ x :: rest →
  x ∈ round_question g → q_open x = true →
  rowcount (open_question (rq_question_id x)) (round_question (after_expiry done)) = 1%nat
  ∧ set_dispatches
      (update_where (awaiting (rq_dispatch_id x)) (set_dispatch_state (_restored_state x))
         (gate_dispatch (after_expiry done)))
      (set_questions (update_where (open_question (rq_question_id x)) (settle_question Q_EXPIRED None)
                        (round_question (after_expiry done))) (after_expiry done))
    = after_expiry (done ++ [x]).
Proof using Hg.
  intros Hids Hslots -> Hx Hopen. rewrite fmap_app in Hids, Hslots.
  apply NoDup_app in Hids as (_ & Hid & _). apply NoDup_app in Hslots as (_ & Hslot & _).
  assert (rq_question_id x ∉ rq_question_id <$> done) as Hx1 by (intros ?; eapply Hid; [done|by left]).
  assert (rq_dispatch_id x ∉ rq_dispatch_id <$> done) as Hx2 by (intros ?; eapply Hslot; [done|by left]).
  assert (mark_expired done x = x) as Hself.
  { unfold mark_expired. by rewrite bool_decide_eq_false_2. }
  unfold after_expiry. tables. split.
  - rewrite <- Hself at 1. apply rowcount_key.
    + rewrite mark_expired_ids. apply Hg.
    + apply list_elem_of_fmap. exists x. by rewrite Hself.
    + by rewrite Hself.
  - match goal with |- set_dispatches ?A (set_questions ?B _) = _ =>
      transitivity (set_dispatches A (set_questions B g)); [reflexivity|] end.
    unfold update_where. rewrite <- !list_fmap_compose. f_equal; [|f_equal].
    + apply list_fmap_ext. intros j d _. simpl. by rewrite release_with_snoc.
    + apply list_fmap_ext. intros j y Hy%list_elem_of_lookup_2. simpl.
      rewrite mark_expired_snoc; [done|done|done|]. intros He.
      by apply (NoDup_key_eq rq_question_id (round_question g)); [apply Hg|..].
Qed.

Lemma after_expiry_all now :
  after_expiry (select_where (is_due now) (round_question g))
  = set_dispatches (release_with (select_where (is_due now) (round_question g)) <$> gate_dispatch g)
      (set_questions (update_where (is_due now) (settle_question Q_EXPIRED None) (round_question g)) g).
Proof using Hg.
  unfold after_expiry, update_where. f_equal. f_equal. apply list_fmap_ext.
  intros j x Hx%list_elem_of_lookup_2. unfold mark_expired. destruct (is_due now x) eqn:E.
  - rewrite bool_decide_eq_true_2; [done|]. apply list_elem_of_fmap_2. by apply elem_of_select.
  - rewrite bool_decide_eq_false_2; [done|].
    intros (y & Hid & [Hy Hin]%elem_of_select)%list_elem_of_fmap.
    rewrite (NoDup_key_eq rq_question_id (round_question g) x y) in E by (done || apply Hg).
    congruence.
Qed.

(** The sweep settles every due question and releases its dispatch, or, when it
    cannot read one of them, raises and settles none. *)
Lemma expire_wp now :
  let due := select_where (is_due now) (round_question g) in
  wp (expire_due_questions now) g
    (λ expired s, expired = settle_question Q_EXPIRED None <$> due ∧ s = after_expiry due
                  ∧ ∀ x, x ∈ due → RoundQuestion_valid x = true)
    (λ e s, e = ValueError "RoundQuestion" ∧ s = g ∧ ∃ x, x ∈ due ∧ RoundQuestion_valid x = false).
Proof using Hg.
  intros due. unfold expire_due_questions. repeat (txn_step; unfold on_questions). fold due.
  destruct (due_once now) as (Hids & Hslots & Hin). fold due in Hids, Hslots, Hin.
  apply (wp_for_each _ (λ rest acc s, ∃ done, due = done ++ rest ∧ s = after_expiry done
    ∧ acc = settle_question Q_EXPIRED None <$> done ∧ ∀ x, x ∈ done → RoundQuestion_valid x = true)).
  - intros x rest acc s (done & Hdue & -> & -> & Hval).
    assert (x ∈ due) as Hxin by (rewrite Hdue; apply elem_of_app; right; by left).
    destruct (Hin x Hxin) as [Hx Hopen].
    destruct (sweep_row due done x rest Hids Hslots Hdue Hx Hopen) as [Hrc Hst].
    unfold release_dispatch. repeat txn_step.
    all: unfold _row_to_question, construct in H; destruct (RoundQuestion_valid x) eqn:Hv; simplify_eq;
      try (split_and!; [done..|by exists x]); try (rewrite Hrc in Heqb; done).
    exists (done ++ [a]). rewrite <- app_assoc, fmap_app. split_and!; [done|by rewrite <- Hst|done|].
    intros y [?|Hy%list_elem_of_singleton]%elem_of_app; [auto|by subst].
  - intros acc s (done & Hdue & -> & -> & Hval). rewrite app_nil_r in Hdue. by subst done.
  - exists []. split_and!; [done|by rewrite after_expiry_nil|done|by intros ? ?%not_elem_of_nil].
Qed.

Lemma refine_expire now : refines g (expire_due_questions now).
Proof using Hg.
  unfold refines. eapply wp_mono; [apply expire_wp|..].
  - intros r s (_ & -> & _). right. rewrite after_expiry_all. apply T_expire.
  - intros e s (_ & -> & _). by left.
Qed.

(** ** Ownership *)

Lemma sql_max_spec l : match sql_max l with
  | None => l = []
  | Some m => m ∈ l ∧ ∀ x, x ∈ l → x <= m
  end.
Proof using Type.
  destruct l as [|y l]; simpl; [done|].
  assert (∀ l y, (foldl Z.max y l = y ∨ foldl Z.max y l ∈ l) ∧ y <= foldl Z.max y l
                 ∧ ∀ x, x ∈ l → x <= foldl Z.max y l) as H.
  { clear. induction l as [|z l IH]; intros y; simpl.
    - split_and!; [by left|lia|by intros ? ?%not_elem_of_nil].
    - destruct (IH (Z.max y z)) as (H1 & H2 & H3). split_and!; [|lia|].
      + destruct H1 as [H1|H1]; [|right; by right].
        destruct (Z.max_spec y z) as [[_ Hm]|[_ Hm]]; rewrite Hm in H1 at 2;
          [right; rewrite H1; by left|by left].
      + intros x [->|Hx]%elem_of_cons; [lia|by apply H3]. }
  destruct (H l y) as (H1 & H2 & H3). split.
  - destruct H1 as [->|H1]; [by left|by right].
  - intros x [->|Hx]%elem_of_cons; [done|by apply H3].
Qed.

Lemma claim_epochs prior epoch :
  (0 <=? default (-1) (highest_epoch prior (gate_run g)))
    && negb (epoch_supersedes (default (-1) (highest_epoch prior (gate_run g))) epoch) = false →
  ∀ y, y ∈ gate_run g → owned_by prior y = true → rn_owner_epoch (rr_run y) < epoch.
Proof using Hg.
  intros Hc y Hy Ho. unfold highest_epoch in Hc.
  assert (rn_owner_epoch (rr_run y)
    ∈ (λ x, rn_owner_epoch (rr_run x)) <$> select_where (owned_by prior) (gate_run g)) as Hin.
  { apply (list_elem_of_fmap_2 (λ x, rn_owner_epoch (rr_run x))). by apply elem_of_select. }
  pose proof (sql_max_spec ((λ x, rn_owner_epoch (rr_run x))
    <$> select_where (owned_by prior) (gate_run g))) as Hm.
  destruct (sql_max _) as [m|]; [|rewrite Hm in Hin; by apply not_elem_of_nil in Hin].
  simpl in Hc. destruct Hm as [_ Hmax]. specialize (Hmax _ Hin).
  pose proof (rk_epoch _ (ro_rows _ (gk_runs _ Hg) y Hy)).
  unfold epoch_supersedes in Hc. destruct (Z.leb_spec 0 m); [|lia].
  destruct (Z.ltb_spec m epoch); [lia|done].
Qed.

Lemma refine_claim i now prior new epoch run_id k by_ :
  refines g (claim_ownership i now prior new epoch run_id k by_).
Proof using Hg.
  unfold refines, claim_ownership. txn. right. tables.
  pose proof (claim_epochs prior epoch Heqb) as He.
  match goal with |- gtrans _ _ (set_transfers (_ ++ [?x]) _) => apply (T_claim None g x) end; try done.
  all: apply no_key; intros x Hx; pose proof (proj1 (existsb_false _ _) H0 x Hx) as Hc;
    by apply orb_false_iff in Hc as [? ?].
Qed.

Lemma refines_ret {A} (m : M gate A) : refines g m → refines g (m ;; mret ()).
Proof using Type. intros H. unfold refines. apply wp_bind. by eapply wp_mono; [apply H|..]. Qed.

Lemma refines_checked {A B} (o : outcome A) (m : M gate B) :
  (∀ a, o = Returned a → refines g m) → refines g (lift_outcome o ;; m).
Proof using Type.
  intros H. unfold refines. apply wp_bind, wp_lift; [|by left]. intros a Ha. by eapply H.
Qed.

Lemma refines_any {A} recorded (m : M gate A) : refines g m →
  wp m g (λ _ g', g' = g ∨ gtrans recorded g g') (λ _ g', g' = g ∨ gtrans recorded g g').
Proof using Type.
  intros H. by eapply wp_mono; [exact H|..]; intros ? g' [?|?%(gtrans_any recorded)]; auto.
Qed.

Lemma gexec_refines o :
  wp (gexec o) g (λ _ g', g' = g ∨ gtrans (recorded o) g g') (λ _ g', g' = g ∨ gtrans (recorded o) g g').
Proof using Hg.
  assert (∀ {A} (valid : A → bool) what a b, construct valid what a = Returned b → valid a = true)
    as Hc by (by intros A valid what a b [_ ?]%construct_Returned).
  destruct o; lazymatch goal with
    | |- wp (gexec (GDispatch _)) _ _ _ => unfold gexec
    | _ => apply refines_any; unfold gexec; repeat (apply refines_checked; intros ? ?); try apply refines_ret
    end.
  - apply refine_open_run.
  - apply refine_open_round.
  - apply refine_freeze. by eapply Hc.
  - apply refine_transition_round. by left.
  - apply refine_transition_round. destruct verdict_yes; right; [by left|right; by left].
  - apply refine_report.
  - apply refine_transition_run.
  - apply refine_transition_run.
  - apply wp_bind, wp_lift; [|by left]. intros ? ?%Hc. apply wp_bind.
    by eapply wp_mono; [by apply refine_record_dispatch|..].
  - apply refine_ensure_dispatch. by eapply Hc.
  - apply refine_intent. by eapply Hc.
  - apply refine_result. by eapply Hc.
  - apply refine_raise.
  - apply refine_close. unfold validate_disposition in *. repeat case_match; congruence.
  - apply refine_coverage. by eapply Hc.
  - by eapply refine_ask.
  - apply refine_answer.
  - apply refine_escalate.
  - apply refine_expire.
  - unfold refines, mark_notice_sent. txn. right. by apply T_notice.
  - unfold refines, mark_notice_failed. txn. right. by apply T_notice.
  - apply refine_consume.
  - apply refine_claim.
Qed.

End Refine.

Lemma gstep_refines o g : gate_ok g → gstep o g = g ∨ gtrans (recorded o) g (gstep o g).
Proof.
  intros Hg. unfold gstep. apply (wp_state (gexec o) g (λ g', g' = g ∨ gtrans (recorded o) g g')).
  by apply gexec_refines.
Qed.
