(* ===== verification/GateInv.v ===== *)
(** * Every transition of the gate keeps its invariant *)

From S2P Require Import Prelude Gate GateRows GateStore GateLife GateExec.
Import SqliteGateStore.

(** ** Tables under an update *)

Section Update.
Context {R : Type}.
Implicit Types (t : list R) (p q : R → bool) (f : R → R).

Lemma elem_of_update p f t r :
  r ∈ update_where p f t ↔ ∃ x, x ∈ t ∧ r = (if p x then f x else x).
Proof.
  unfold update_where. rewrite list_elem_of_fmap. split; intros (x & ? & ?); exists x; auto.
Qed.

(** A column the update does not touch. *)
Lemma column_update {K} (k : R → K) p f t :
  (∀ x, x ∈ t → p x = true → k (f x) = k x) → k <$> update_where p f t = k <$> t.
Proof.
  intros H. unfold update_where. rewrite <- list_fmap_compose. apply list_fmap_ext.
  intros i x Hx%list_elem_of_lookup_2. simpl. destruct (p x) eqn:E; auto.
Qed.

(** A column of the rows a condition selects, when neither is touched. *)
Lemma column_select {K} (k : R → K) q p f t :
  (∀ x, x ∈ t → p x = true → k (f x) = k x ∧ q (f x) = q x) →
  k <$> select_where q (update_where p f t) = k <$> select_where q t.
Proof.
  intros H. unfold select_where. induction t as [|x t IH]; [done|]. simpl.
  assert (∀ y, y = (if p x then f x else x) → k y = k x ∧ q y = q x) as Hx.
  { intros y ->. destruct (p x) eqn:E; [apply H; [by left|done]|done]. }
  specialize (Hx _ eq_refl) as [Hk Hq].
  rewrite !filter_cons, Hq. destruct (decide (q x = true)); simpl; [rewrite Hk; f_equal|];
    apply IH; intros y Hy; apply H; by right.
Qed.

Lemma select_snoc q t r :
  select_where q (t ++ [r]) = select_where q t ++ (if q r then [r] else []).
Proof.
  unfold select_where. rewrite filter_app. f_equal. destruct (q r) eqn:E.
  - by rewrite filter_cons_True.
  - rewrite filter_cons_False; [done|by rewrite E].
Qed.

Lemma NoDup_snoc {K} (k : R → K) t r : NoDup (k <$> t) → k r ∉ k <$> t → NoDup (k <$> t ++ [r]).
Proof.
  intros Hn Hr. rewrite fmap_app. apply NoDup_app. split_and!; [done| |apply NoDup_singleton].
  intros x Hx ->%list_elem_of_singleton. done.
Qed.

Lemma forall_snoc (P : R → Prop) t r : (∀ x, x ∈ t → P x) → P r → ∀ x, x ∈ t ++ [r] → P x.
Proof. intros Ht Hr x [?| ->%list_elem_of_singleton]%elem_of_app; auto. Qed.

Lemma forall_update (P : R → Prop) p f t :
  (∀ x, x ∈ t → P x) → (∀ x, x ∈ t → p x = true → P x → P (f x)) →
  ∀ x, x ∈ update_where p f t → P x.
Proof. intros Ht Hf x (y & Hy & ->)%elem_of_update. destruct (p y) eqn:E; auto. Qed.

(** Under a unique key, [WHERE key = key(r)] selects [r]. *)
Lemma at_key_row (key : R → string) t r :
  NoDup (key <$> t) → r ∈ t → ∀ x, x ∈ t → is_id key (key r) x = true → x = r.
Proof. intros Hn Hr x Hx He%is_id_true. by apply (NoDup_key_eq key t). Qed.
End Update.

(** ** Numbering *)

Lemma numbered_last l : numbered l → default 0 (sql_max l) = Z.of_nat (length l).
Proof.
  intros Hl. pose proof (sql_max_spec l) as Hm. destruct (sql_max l) as [m|]; simpl; [|by subst].
  destruct Hm as [Hin Hmax]. pose proof (Hl : l = _) as Hseq.
  assert (∀ x, x ∈ l ↔ 1 <= x < 1 + Z.of_nat (length l)) as Hel.
  { intros x. rewrite Hseq at 1. apply elem_of_seqZ. }
  apply Hel in Hin. assert (Z.of_nat (length l) ∈ l) as Hn by (apply Hel; lia).
  specialize (Hmax _ Hn). lia.
Qed.

Lemma numbered_snoc l : numbered l → numbered (l ++ [default 0 (sql_max l) + 1]).
Proof.
  intros Hl. rewrite numbered_last by done. unfold numbered. rewrite length_app. simpl.
  replace (Z.of_nat (length l + 1)) with (Z.of_nat (length l) + 1) by lia.
  rewrite seqZ_app by lia. rewrite <- Hl. f_equal. unfold seqZ. simpl. f_equal. lia.
Qed.

(** ** Runs and rounds *)

Lemma GateRun_valid_bounds r : GateRun_valid r = true → 0 < rn_max_rounds r ∧ 0 <= rn_owner_epoch r.
Proof. unfold GateRun_valid. rewrite !andb_true_iff, Z.ltb_lt, Z.leb_le. tauto. Qed.

Lemma run_born_ok r : run_born r → run_ok r.
Proof.
  intros [Hv Ho _]. apply GateRun_valid_bounds in Hv as [? ?]. constructor; [done..|]. by rewrite Ho.
Qed.

Lemma run_step_ok r r' : run_step r r' → run_ok r → run_ok r'.
Proof. intros [t _ Ht|c e He] [? ? ?]; constructor; simpl; [done..|done|lia|done]. Qed.

Lemma run_step_id r r' : run_step r r' → rn_run_id r' = rn_run_id r.
Proof. by intros []. Qed.

Lemma round_step_same r r' :
  round_step r r' →
  gr_round_id r' = gr_round_id r ∧ gr_run_id r' = gr_run_id r ∧ gr_round_no r' = gr_round_no r.
Proof. by intros []. Qed.

Lemma version_valid r snapshot s1 s2 s3 st closed :
  GateRound_valid r = true → match snapshot with None => true | Some m => ArtifactManifest_valid m end = true →
  GateRound_valid (round_with r snapshot s1 s2 s3 st (gr_row_version r + 1) closed) = true.
Proof.
  unfold GateRound_valid. rewrite !andb_true_iff. simpl. rewrite !Z.leb_le. intuition lia.
Qed.

Lemma snapshot_valid r :
  GateRound_valid r = true →
  match gr_review_snapshot r with None => true | Some m => ArtifactManifest_valid m end = true.
Proof. unfold GateRound_valid. rewrite !andb_true_iff. tauto. Qed.

Lemma round_step_ok r r' : round_step r r' → round_ok r → round_ok r'.
Proof.
  intros Hs [Hv Hf Hc Ha]. pose proof (snapshot_valid r Hv) as Hsnap.
  destruct Hs as [snapshot Ho Hn Hval|now Hb|target now Hj Ht|s1 s2 s3].
  - constructor; simpl; [by apply version_valid|done| |done].
    rewrite Ho in Hc. rewrite Hc. split; intros H; in_list H; done.
  - assert (gr_review_snapshot r ≠ None) as Hnn by (rewrite Hf, Hb; done).
    constructor; simpl; [by apply version_valid|done| |done].
    split; [by intros []|]. intros H; in_list H; done.
  - assert (gr_review_snapshot r ≠ None) as Hnn by (rewrite Hf, Hj; done).
    constructor; simpl; [by apply version_valid| | |by in_list Ht; subst].
    + split; [done|]. intros ->. in_list Ht; done.
    + in_list Ht; subst target; simpl; split; intros _;
        first [by left|by right; left|by eexists].
  - constructor; simpl; [by apply version_valid|done..].
Qed.

Lemma round_born_ok t r : round_born t r → round_ok r.
Proof.
  intros [Hv Ho Hu Hc _ _ _]. constructor; [done|by rewrite Ho, Hu| |by rewrite Ho].
  rewrite Hc, Ho. split; [by intros []|]. intros H; in_list H; done.
Qed.

Lemma runs_ok_snoc t x :
  runs_ok t → run_born (rr_run x) → run_id_of x ∉ run_id_of <$> t → runs_ok (t ++ [x]).
Proof.
  intros [Hi Hr] Hb Hx. constructor; [by apply NoDup_snoc|].
  apply (forall_snoc (λ x, run_ok (rr_run x))); [done|by apply run_born_ok].
Qed.

Lemma runs_ok_update t p f :
  runs_ok t → (∀ x, x ∈ t → p x = true → run_step (rr_run x) (f (rr_run x))) →
  runs_ok (update_where p (on_run f) t).
Proof.
  intros [Hi Hr] Hs. constructor.
  - rewrite column_update; [done|]. intros x Hx Hp. by apply run_step_id, Hs.
  - apply (forall_update (λ x, run_ok (rr_run x))); [done|].
    intros x Hx Hp. apply run_step_ok. by apply Hs.
Qed.

Lemma rounds_ok_snoc t r :
  rounds_ok t → round_born t r → gr_round_id r ∉ gr_round_id <$> t → rounds_ok (t ++ [r]).
Proof.
  intros [Hi Hn Hr] Hb Hx. constructor; [by apply NoDup_snoc| |].
  - intros i. rewrite select_snoc, fmap_app. destruct (is_id gr_run_id i r) eqn:E;
      [|by rewrite app_nil_r].
    apply is_id_true in E. simpl. rewrite (ob_next _ _ Hb), E. unfold last_round_no.
    by apply numbered_snoc.
  - apply forall_snoc; [done|]. by eapply round_born_ok.
Qed.

Lemma rounds_ok_at_key t r f :
  rounds_ok t → r ∈ t → round_step r (f r) → rounds_ok (at_key gr_round_id (gr_round_id r) f t).
Proof.
  intros [Hi Hn Hr] Hin Hs. pose proof (at_key_row gr_round_id t r Hi Hin) as Hrow.
  pose proof (round_step_same _ _ Hs) as (H1 & H2 & H3). unfold at_key. constructor.
  - rewrite column_update; [done|]. by intros x Hx ->%Hrow.
  - intros i. rewrite column_select; [done|]. intros x Hx ->%Hrow; [|done].
    unfold is_id. by rewrite H2.
  - apply forall_update; [done|]. intros x Hx ->%Hrow; [|done]. by apply round_step_ok.
Qed.

(** ** The tables that hang from rounds *)

Lemma closures_ok_rounds rounds rounds' findings ds :
  closures_ok rounds findings ds →
  (∀ k, k ∈ (λ r, (gr_round_id r, gr_run_id r)) <$> rounds →
        k ∈ (λ r, (gr_round_id r, gr_run_id r)) <$> rounds') →
  closures_ok rounds' findings ds.
Proof. intros [? Hr ? ? ?] Hk. constructor; [done| |done..]. intros b Hb. by apply Hk, Hr. Qed.

Lemma coverages_ok_rounds rounds rounds' t :
  coverages_ok rounds t → (∀ k, k ∈ gr_round_id <$> rounds → k ∈ gr_round_id <$> rounds') →
  coverages_ok rounds' t.
Proof. intros [? Hr ?] Hk. constructor; [done| |done]. intros x Hx. by apply Hk, Hr. Qed.

(** ** Questions *)

Lemma open_not_answered q : q_open q = true → rq_state q ≠ Q_ANSWERED.
Proof. unfold q_open. by destruct (rq_state q). Qed.

Lemma question_step_ok q q' : question_step q q' → question_ok q → question_ok q'.
Proof.
  intros Hs [Ha Hc Hp Hw Hd].
  assert (rq_state q ≠ Q_ANSWERED → rq_answer_event_id q = None ∧ rq_consumed_at q = None) as Hno.
  { intros Hn. split; apply eq_None_not_Some; intros H; apply Hn; [by apply Ha|by apply Hc]. }
  destruct Hs as [Hs|e Ho|Ho|c ep Ho|at_ Hs];
    try (assert (rq_state q ≠ Q_ANSWERED) as Hn by (first [by apply open_not_answered|by rewrite Hs]);
         destruct (Hno Hn) as [He Hcons]);
    constructor; simpl; rewrite ?He, ?Hcons; try done; try (split; [by intros []|done]).
Qed.

(** What an update may not touch of a question. *)
Definition same_question (q q' : RoundQuestion) : Prop :=
  rq_question_id q' = rq_question_id q ∧ request_key q' = request_key q
  ∧ rq_dispatch_id q' = rq_dispatch_id q ∧ (q_open q' = true → q_open q = true).

Lemma question_step_same q q' : question_step q q' → same_question q q'.
Proof.
  intros []; unfold same_question; simpl; split_and!; try done.
  intros _. unfold q_open. by rewrite H.
Qed.

Lemma slot_update p f t :
  (∀ q, q ∈ t → p q = true → same_question q (f q)) →
  rq_dispatch_id <$> select_where q_open (update_where p f t)
    `sublist_of` rq_dispatch_id <$> select_where q_open t.
Proof.
  intros H. unfold select_where. induction t as [|q t IH]; [done|]. simpl.
  assert (same_question q (if p q then f q else q)) as (_ & _ & Hd & Ho).
  { destruct (p q) eqn:E; [apply H; [by left|done]|done]. }
  assert (∀ x, x ∈ t → p x = true → same_question x (f x)) as H' by (intros; apply H; [by right|done]).
  specialize (IH H'). rewrite !filter_cons.
  destruct (decide (q_open (if p q then f q else q) = true)) as [Hq|Hq];
    destruct (decide (q_open q = true)) as [Hq'|Hq']; simpl; rewrite ?Hd.
  - by constructor.
  - by destruct Hq'; apply Ho.
  - by constructor.
  - done.
Qed.

Section Questions.
Context (ds : list Dispatch) (qs : list RoundQuestion) (ans : list QuestionAnswer)
  (del : list delivery_intent) (nts : list notice_intent).
Context (Hok : questions_ok ds qs ans del nts).

Lemma questions_ok_update ds' p f del' nts' :
  (∀ k, k ∈ dp_dispatch_id <$> ds → k ∈ dp_dispatch_id <$> ds') →
  (∀ q, q ∈ qs → p q = true → question_step q (f q) ∧ rq_answer_event_id (f q) = rq_answer_event_id q) →
  ad_answer_event_id <$> del' = ad_answer_event_id <$> del →
  ni_question_id <$> nts' = ni_question_id <$> nts →
  questions_ok ds' (update_where p f qs) ans del' nts'.
Proof using Hok.
  intros Hds Hf Hdel Hnts. destruct Hok as [Hi Hk Hs Hr Hb Hai Ha Hd Hn].
  assert (∀ q, q ∈ qs → p q = true → same_question q (f q)) as Hsame.
  { intros q Hq Hp. by apply question_step_same, Hf. }
  assert (rq_question_id <$> update_where p f qs = rq_question_id <$> qs) as Hids.
  { apply column_update. intros q Hq Hp. by apply Hsame. }
  constructor; rewrite ?Hids, ?Hdel, ?Hnts; try done.
  - rewrite column_update; [done|]. intros q Hq Hp. by apply Hsame.
  - eapply sublist_NoDup; [exact Hs|]. by apply slot_update.
  - apply forall_update; [done|]. intros q Hq Hp. apply question_step_ok. by apply Hf.
  - intros q (x & Hx & ->)%elem_of_update. apply Hds. destruct (p x) eqn:E; [|by apply Hb].
    destruct (Hsame x Hx E) as (_ & _ & -> & _). by apply Hb.
  - intros e i. rewrite Ha. setoid_rewrite elem_of_update. split.
    + intros (q & Hq & Hi' & He). exists (if p q then f q else q). split; [by exists q|].
      destruct (p q) eqn:E; [|done]. destruct (Hsame q Hq E) as (-> & _).
      by destruct (Hf q Hq E) as [_ ->].
    + intros (q & (x & Hx & ->) & Hi' & He). exists x. split; [done|].
      destruct (p x) eqn:E; [|done]. destruct (Hsame x Hx E) as (Hxi & _).
      destruct (Hf x Hx E) as [_ Hxe]. by rewrite <- Hxi, <- Hxe.
Qed.

Lemma questions_ok_frame ds' nts' :
  (∀ k, k ∈ dp_dispatch_id <$> ds → k ∈ dp_dispatch_id <$> ds') →
  ni_question_id <$> nts' = ni_question_id <$> nts → questions_ok ds' qs ans del nts'.
Proof using Hok.
  intros Hds Hn. rewrite <- (update_where_none (λ _, false) id qs) by done.
  by apply questions_ok_update.
Qed.

Lemma questions_ok_ask ds' prior q :
  (∀ k, k ∈ dp_dispatch_id <$> ds → k ∈ dp_dispatch_id <$> ds') →
  rq_dispatch_id q ∈ dp_dispatch_id <$> ds → question_born prior q →
  rq_question_id q ∉ rq_question_id <$> qs →
  (∀ x, x ∈ qs → q_open x = true → rq_dispatch_id x ≠ rq_dispatch_id q) →
  (∀ x, x ∈ qs → request_key x ≠ request_key q) →
  questions_ok ds' (qs ++ [q]) ans del (nts ++ [fresh_notice (rq_question_id q)]).
Proof using Hok.
  intros Hds Hd [Hst He Hc Hp Hlive Hw Hdef] Hi Hslot Hkey.
  destruct Hok as [Hi0 Hk0 Hs0 Hr0 Hb0 Hai Ha Hdel Hn]. constructor; try done.
  - by apply NoDup_snoc.
  - apply NoDup_snoc; [done|]. intros (x & Hx & Hin)%list_elem_of_fmap. by apply (Hkey x).
  - rewrite select_snoc. unfold q_open at 2. rewrite Hst, bool_decide_eq_true_2 by done. simpl.
    apply NoDup_snoc; [done|]. intros (x & Hx & [Hox Hxq]%elem_of_select)%list_elem_of_fmap.
    by apply (Hslot x).
  - apply forall_snoc; [done|]. constructor; [|by rewrite Hc; intros []|by exists prior|done..].
    rewrite He, Hst. split; [by intros []|done].
  - apply forall_snoc; [|by apply Hds]. intros x Hx. by apply Hds, Hb0.
  - intros e i. rewrite Ha. setoid_rewrite elem_of_app. split.
    + intros (x & Hx & ?). exists x. split; [by left|done].
    + intros (x & [Hx|Hx%list_elem_of_singleton] & Hxi & Hxe); [by exists x|]. subst x. congruence.
  - rewrite !fmap_app, Hn. done.
Qed.

Lemma questions_ok_answer a q :
  q ∈ qs → rq_question_id q = qa_question_id a → q_open q = true →
  qa_answer_event_id a ∉ qa_answer_event_id <$> ans →
  questions_ok ds
    (at_key rq_question_id (qa_question_id a)
       (settle_question Q_ANSWERED (Some (qa_answer_event_id a))) qs)
    (ans ++ [a])
    (del ++ [{| ad_answer_event_id := qa_answer_event_id a; ad_state := AD_PENDING;
                ad_settled_at := None |}]) nts.
Proof using Hok.
  intros Hq Hid Hopen Hfresh. destruct Hok as [Hi Hk Hs Hr Hb Hai Ha Hd Hn].
  set (f := settle_question Q_ANSWERED (Some (qa_answer_event_id a))).
  rewrite <- Hid. pose proof (at_key_row rq_question_id qs q Hi Hq) as Hrow. unfold at_key.
  assert (∀ x, x ∈ qs → is_id rq_question_id (rq_question_id q) x = true → question_step x (f x)) as Hst.
  { intros x Hx ->%Hrow; [|done]. by constructor. }
  assert (rq_question_id <$> update_where (is_id rq_question_id (rq_question_id q)) f qs
          = rq_question_id <$> qs) as Hids by (by apply column_update).
  constructor; rewrite ?Hids; try done.
  - by rewrite column_update.
  - eapply sublist_NoDup; [exact Hs|]. apply slot_update. intros x Hx Hp.
    by apply question_step_same, Hst.
  - apply forall_update; [done|]. intros x Hx Hp. by apply question_step_ok, Hst.
  - intros x (y & Hy & ->)%elem_of_update. destruct (is_id _ _ y); exact (Hb y Hy).
  - by apply NoDup_snoc.
  - intros e i. rewrite fmap_app, elem_of_app, Ha. setoid_rewrite elem_of_update. split.
    + intros [(x & Hx & Hxi & Hxe)| [= -> ->]%list_elem_of_singleton].
      * exists x. split; [exists x; split; [done|]|done].
        destruct (is_id rq_question_id (rq_question_id q) x) eqn:E; [|done].
        apply Hrow in E; [|done]. subst x. exfalso. apply (open_not_answered q Hopen).
        apply (qk_answered _ (Hr q Hq)). by rewrite Hxe.
      * exists (f q). split; [exists q; split; [done|]|by split].
        by rewrite (proj2 (is_id_true rq_question_id _ q) eq_refl).
    + intros (x & (y & Hy & ->) & Hxi & Hxe).
      destruct (is_id rq_question_id (rq_question_id q) y) eqn:E; [|left; by exists y].
      right. injection Hxe as <-. simpl in Hxi. apply is_id_true in E.
      apply list_elem_of_singleton. congruence.
  - by rewrite !fmap_app, Hd.
Qed.
End Questions.

(** ** The record *)

Lemma release_with_id due d : dp_dispatch_id (release_with due d) = dp_dispatch_id d.
Proof. unfold release_with. destruct (head _); [|done]. by case_bool_decide. Qed.

Lemma release_with_valid due d : Dispatch_valid (release_with due d) = Dispatch_valid d.
Proof. unfold release_with. destruct (head _); [|done]. by case_bool_decide. Qed.

Lemma dispatches_ok_fmap (f : Dispatch → Dispatch) t :
  dispatches_ok t → (∀ d, d ∈ t → dp_dispatch_id (f d) = dp_dispatch_id d) →
  (∀ d, d ∈ t → Dispatch_valid (f d) = true) → dispatches_ok (f <$> t).
Proof.
  intros [Hi Hr] Hid Hv. constructor.
  - assert (dp_dispatch_id <$> (f <$> t) = dp_dispatch_id <$> t) as ->; [|done].
    rewrite <- list_fmap_compose. apply list_fmap_ext. intros j d Hd%list_elem_of_lookup_2. by apply Hid.
  - intros d (x & -> & Hx)%list_elem_of_fmap. by apply Hv.
Qed.

Lemma dispatch_ids_fmap (f : Dispatch → Dispatch) (t : list Dispatch) :
  (∀ d, d ∈ t → dp_dispatch_id (f d) = dp_dispatch_id d) →
  ∀ k, k ∈ dp_dispatch_id <$> t → k ∈ dp_dispatch_id <$> (f <$> t).
Proof.
  intros Hid k (d & -> & Hd)%list_elem_of_fmap. rewrite <- (Hid d Hd).
  by apply list_elem_of_fmap_2, list_elem_of_fmap_2.
Qed.

Lemma elem_of_snoc {A} (x y : A) (l : list A) : x ∈ l → x ∈ l ++ [y].
Proof. intros. apply elem_of_app. by left. Qed.

Lemma column_snoc {R K} (k : R → K) (t : list R) r x : x ∈ k <$> t → x ∈ k <$> t ++ [r].
Proof. rewrite fmap_app. apply elem_of_snoc. Qed.

(** An update that replaces or moves a row under its own key. *)
Lemma dispatches_ok_update t p f :
  dispatches_ok t → (∀ d, d ∈ t → p d = true → dp_dispatch_id (f d) = dp_dispatch_id d) →
  (∀ d, d ∈ t → p d = true → Dispatch_valid (f d) = true) →
  dispatches_ok (update_where p f t) ∧
  ∀ k, k ∈ dp_dispatch_id <$> t → k ∈ dp_dispatch_id <$> update_where p f t.
Proof.
  intros Hok Hid Hv. unfold update_where. split.
  - apply dispatches_ok_fmap; [done|..]; intros d Hd; destruct (p d) eqn:E; auto. by apply Hok.
  - apply dispatch_ids_fmap. intros d Hd. destruct (p d) eqn:E; auto.
Qed.

Ltac frame Hg :=
  first [ exact (gk_runs _ Hg) | exact (gk_rounds _ Hg) | exact (gk_dispatches _ Hg)
        | exact (gk_effects _ Hg) | exact (gk_findings _ Hg) | exact (gk_coverages _ Hg)
        | exact (gk_questions _ Hg) | exact (gk_transfers _ Hg) ].

Section Preserved.
Context (recorded : option Dispatch) (g g' : gate) (Hg : gate_ok g) (Ht : gtrans recorded g g').

Lemma gtrans_runs : runs_ok (gate_run g').
Proof using Hg Ht.
  destruct Ht; tables; try frame Hg.
  - by apply runs_ok_snoc; [frame Hg|..].
  - apply (runs_ok_update _ _ f); [frame Hg|]. intros y Hy Hp.
    apply (at_key_row run_id_of (gate_run g) x) in Hp; [by subst|apply (gk_runs _ Hg)|done..].
  - apply runs_ok_update; [frame Hg|]. intros y Hy [Ho _]%andb_true_iff.
    apply RunClaimed. subst. by apply H1.
Qed.

Lemma gtrans_rounds : rounds_ok (gate_round g').
Proof using Hg Ht.
  destruct Ht; tables; try frame Hg.
  - by apply rounds_ok_snoc; [frame Hg|..].
  - by apply rounds_ok_at_key; [frame Hg|..].
Qed.

(** The update of one dispatch, or of those that await. *)
Lemma release_ok p s :
  dispatches_ok (update_where p (set_dispatch_state s) (gate_dispatch g))
  ∧ ∀ k, k ∈ dp_dispatch_id <$> gate_dispatch g →
         k ∈ dp_dispatch_id <$> update_where p (set_dispatch_state s) (gate_dispatch g).
Proof using Hg.
  apply dispatches_ok_update; [frame Hg|done|]. intros d Hd _. exact (do_rows _ (gk_dispatches _ Hg) d Hd).
Qed.

Lemma replace_ok d :
  Dispatch_valid d = true →
  dispatches_ok (at_key dp_dispatch_id (dp_dispatch_id d) (λ _, d) (gate_dispatch g))
  ∧ ∀ k, k ∈ dp_dispatch_id <$> gate_dispatch g →
         k ∈ dp_dispatch_id <$> at_key dp_dispatch_id (dp_dispatch_id d) (λ _, d) (gate_dispatch g).
Proof using Hg.
  intros Hd. apply dispatches_ok_update; [frame Hg| |done]. by intros x Hx <-%is_id_true.
Qed.

Lemma gtrans_dispatches : dispatches_ok (gate_dispatch g').
Proof using Hg Ht.
  destruct Ht; tables; try frame Hg; try apply release_ok.
  - constructor; [by apply NoDup_snoc; [apply (gk_dispatches _ Hg)|]|].
    apply forall_snoc; [apply (gk_dispatches _ Hg)|done].
  - by apply replace_ok.
  - apply dispatches_ok_fmap; [frame Hg|..]; intros d Hd;
      [apply release_with_id|rewrite release_with_valid; by apply (gk_dispatches _ Hg)].
Qed.

Lemma gtrans_effects : effects_ok (gate_effect_intent g') (gate_effect_result g').
Proof using Hg Ht.
  destruct Ht; tables; try frame Hg; destruct (gk_effects _ Hg) as [Hi Hr Hin [Hvi Hvr]]; constructor;
    try done.
  - by apply NoDup_snoc.
  - intros x Hx. by apply column_snoc, Hin.
  - split; [by apply forall_snoc|done].
  - by apply NoDup_snoc.
  - by apply forall_snoc.
  - split; [done|by apply forall_snoc].
  - unfold at_key. rewrite column_update; [done|]. by intros x Hx <-%is_id_true.
  - apply forall_update; [done|]. by intros x Hx <-%is_id_true.
  - split; [done|]. by apply forall_update.
Qed.

Lemma round_keys_update r f :
  r ∈ gate_round g → round_step r (f r) →
  (λ r, (gr_round_id r, gr_run_id r)) <$> at_key gr_round_id (gr_round_id r) f (gate_round g)
  = (λ r, (gr_round_id r, gr_run_id r)) <$> gate_round g.
Proof using Hg.
  intros Hr Hs. apply column_update. intros x Hx Hp.
  apply (at_key_row gr_round_id (gate_round g) r) in Hp; [|apply (gk_rounds _ Hg)|done..]. subst x.
  by destruct (round_step_same _ _ Hs) as (-> & -> & _).
Qed.

Lemma gtrans_closures : closures_ok (gate_round g') (gate_open_finding g') (gate_disposition g').
Proof using Hg Ht.
  destruct Ht; tables; try frame Hg.
  - apply (closures_ok_rounds (gate_round g)); [frame Hg|]. intros k. apply column_snoc.
  - apply (closures_ok_rounds (gate_round g)); [frame Hg|]. by rewrite round_keys_update.
  - destruct (gk_findings _ Hg) as [Hi Hr Hf He Hn], H as (r & Hin & Hraised & Hrun). constructor; try done.
    + by apply NoDup_snoc.
    + apply forall_snoc; [done|]. rewrite <- Hrun, <- Hraised.
      exact (list_elem_of_fmap_2 (λ r, (gr_round_id r, gr_run_id r)) _ _ Hin).
    + intros x Hx. by apply column_snoc, Hf.
  - destruct (gk_findings _ Hg) as [Hi Hr Hf He Hn]. constructor; try done.
    + apply forall_snoc; [done|]. rewrite <- H0. by apply list_elem_of_fmap_2.
    + by apply forall_snoc.
    + intros i. rewrite select_snoc, fmap_app.
      destruct (is_id dr_finding_id i x) eqn:E; [|by rewrite app_nil_r].
      apply is_id_true in E. simpl. rewrite H3, E. by apply numbered_snoc.
Qed.

Lemma gtrans_coverages : coverages_ok (gate_round g') (gate_consumer_coverage g').
Proof using Hg Ht.
  destruct Ht; tables; try frame Hg.
  - apply (coverages_ok_rounds (gate_round g)); [frame Hg|]. intros k. apply column_snoc.
  - apply (coverages_ok_rounds (gate_round g)); [frame Hg|]. intros k (x & -> & Hx)%list_elem_of_fmap.
    assert ((gr_round_id x, gr_run_id x) ∈ (λ r, (gr_round_id r, gr_run_id r))
      <$> at_key gr_round_id (gr_round_id r) f (gate_round g)) as (y & [= -> _] & Hy)%list_elem_of_fmap.
    { rewrite round_keys_update by done. by apply (list_elem_of_fmap_2 (λ r, (gr_round_id r, gr_run_id r))). }
    by apply list_elem_of_fmap_2.
  - destruct (gk_coverages _ Hg) as [Hi Hr Hv]. constructor;
      [by apply NoDup_snoc|by apply forall_snoc..].
  - destruct (gk_coverages _ Hg) as [Hi Hr Hv]. constructor.
    + unfold at_key. rewrite column_update; [done|]. by intros y Hy <-%is_id_true.
    + apply forall_update; [done|]. by intros y Hy <-%is_id_true.
    + by apply forall_update.
Qed.

Lemma gtrans_questions :
  questions_ok (gate_dispatch g') (round_question g') (question_answer g')
    (answer_delivery_intent g') (question_notice_intent g').
Proof using Hg Ht.
  pose proof (gk_questions _ Hg) as Hq. destruct Ht; tables; try frame Hg.
  - apply (questions_ok_frame _ _ _ _ _ Hq); [|done]. intros k. apply column_snoc.
  - apply (questions_ok_frame _ _ _ _ _ Hq); [by apply replace_ok|done].
  - eapply (questions_ok_ask _ _ _ _ _ Hq); try done; [apply release_ok|].
    rewrite <- H0. by apply list_elem_of_fmap_2.
  - by eapply (questions_ok_answer _ _ _ _ _ Hq).
  - apply (questions_ok_update _ _ _ _ _ Hq); try done. intros x Hx Hp.
    apply (at_key_row rq_question_id (round_question g) q) in Hp; [|apply Hq|done..]. subst x.
    split; [by apply QEscalated|done].
  - apply (questions_ok_update _ _ _ _ _ Hq); try done; [apply dispatch_ids_fmap; intros d _; apply release_with_id|].
    intros x Hx [Ho _]%andb_true_iff. split; [by apply QExpired|done].
  - apply (questions_ok_frame _ _ _ _ _ Hq); [done|]. unfold at_key. by rewrite column_update.
  - apply (questions_ok_update _ _ _ _ _ Hq); try done; [apply release_ok| |unfold at_key; by rewrite column_update].
    intros x Hx Hp.
    apply (at_key_row rq_question_id (round_question g) q) in Hp; [|apply Hq|done..]. subst x.
    split; [|done]. apply QConsumed. apply (qk_answered _ (qo_rows _ _ _ _ _ Hq q Hx)).
    assert ((qa_answer_event_id a, qa_question_id a)
      ∈ (λ a, (qa_answer_event_id a, qa_question_id a)) <$> question_answer g) as Hin
      by (by apply (list_elem_of_fmap_2 (λ a, (qa_answer_event_id a, qa_question_id a)))).
    apply (qo_answers _ _ _ _ _ Hq) in Hin as (y & Hy & Hyi & Hye).
    rewrite <- H1 in Hyi. apply (NoDup_key_eq rq_question_id (round_question g)) in Hyi;
      [subst y; by rewrite Hye|apply Hq|done..].
  - apply (questions_ok_update _ _ _ _ _ Hq); try done. intros y Hy [[_ Ho]%andb_true_iff _]%andb_true_iff.
    split; [by apply QClaimed|done].
Qed.

Lemma gtrans_transfers : transfers_ok (ownership_transfer g').
Proof using Hg Ht.
  destruct Ht; tables; try frame Hg. destruct (gk_transfers _ Hg). constructor; by apply NoDup_snoc.
Qed.

Lemma gtrans_ok : gate_ok g'.
Proof using Hg Ht.
  constructor; [apply gtrans_runs|apply gtrans_rounds|apply gtrans_dispatches|apply gtrans_effects
    |apply gtrans_closures|apply gtrans_coverages|apply gtrans_questions|apply gtrans_transfers].
Qed.
End Preserved.

(** ** Runs of transactions *)

Lemma gate_ok_empty : gate_ok empty_gate.
Proof.
  do 2 constructor; simpl; try apply NoDup_nil_2; try done; try (by intros ? ?%not_elem_of_nil).
  - split; by intros ? ?%not_elem_of_nil.
  - intros e i. split; [by intros ?%not_elem_of_nil|by intros (? & ?%not_elem_of_nil & _)].
Qed.

Lemma gstep_ok o g : gate_ok g → gate_ok (gstep o g).
Proof. intros Hg. destruct (gstep_refines o g Hg) as [->|Ht]; [done|]. by eapply gtrans_ok. Qed.

Lemma gruns_ok ops g : gate_ok g → gate_ok (gruns ops g).
Proof. revert g. induction ops as [|o ops IH]; intros g Hg; [done|]. by apply IH, gstep_ok. Qed.

(** An invariant of the transitions holds along every run. *)
Lemma gruns_ind (P : gate → gate → Prop) `{!PreOrder P} :
  (∀ recorded g g', gate_ok g → gtrans recorded g g' → P g g') → ∀ ops g, gate_ok g → P g (gruns ops g).
Proof.
  intros HP ops. induction ops as [|o ops IH]; intros g Hg; [reflexivity|]. simpl.
  etrans; [|apply IH; by apply gstep_ok].
  destruct (gstep_refines o g Hg) as [->|Ht]; [reflexivity|]. by eapply HP.
Qed.

