(* ===== verification/GateThms.v ===== *)
(** * The gate's guarantees

    Over any sequence of transactions by any number of threads ([gruns]).  The
    properties of single commands are in [GateCommands]. *)

From S2P Require Import Prelude Gate GateRows GateStore GateLife Wp GateExec GateInv.
Import SqliteGateStore.

(** ** Rows move along their lives *)

(** Every row is still there, in its place, after at most one step; the rest is
    newborn. *)
Definition evolved {R} (step : relation R) (born : R → Prop) (t t' : list R) : Prop :=
  ∃ (f : R → R) (news : list R), t' = (f <$> t) ++ news
    ∧ (∀ r, r ∈ t → f r = r ∨ step r (f r)) ∧ ∀ r, r ∈ news → born r.

Definition run_row_step (x y : run_row) : Prop := run_step (rr_run x) (rr_run y).
Definition run_row_born (x : run_row) : Prop := run_born (rr_run x).

Section Evolved.
Context {R : Type} (step : relation R) (born : R → Prop).

Lemma evolved_refl t : evolved step born t t.
Proof using Type.
  exists id, []. rewrite list_fmap_id, app_nil_r. split_and!; [done|by left|by intros ? ?%not_elem_of_nil].
Qed.

Lemma evolved_snoc t r : born r → evolved step born t (t ++ [r]).
Proof using Type.
  intros Hr. exists id, [r]. rewrite list_fmap_id.
  split_and!; [done|by left|by intros x ->%list_elem_of_singleton].
Qed.

Lemma evolved_fmap f t : (∀ r, r ∈ t → f r = r ∨ step r (f r)) → evolved step born t (f <$> t).
Proof using Type.
  intros Hf. exists f, []. rewrite app_nil_r. split_and!; [done..|by intros ? ?%not_elem_of_nil].
Qed.

Lemma evolved_update p f t :
  (∀ r, r ∈ t → p r = true → step r (f r)) → evolved step born t (update_where p f t).
Proof using Type. intros Hf. apply evolved_fmap. intros r Hr. destruct (p r) eqn:E; auto. Qed.

Lemma evolved_at_key (key : R → string) f t r :
  NoDup (key <$> t) → r ∈ t → step r (f r) → evolved step born t (at_key key (key r) f t).
Proof using Type.
  intros Hn Hr Hs. apply evolved_update. by intros x Hx ->%(at_key_row key t r).
Qed.

Lemma evolved_in t t' r :
  evolved step born t t' → r ∈ t → ∃ r', r' ∈ t' ∧ (r' = r ∨ step r r').
Proof using Type.
  intros (f & news & -> & Hf & _) Hr. exists (f r). split; [|by apply Hf].
  apply elem_of_app. left. by apply list_elem_of_fmap_2.
Qed.
End Evolved.

Section Lives.
Context (recorded : option Dispatch) (g g' : gate) (Hg : gate_ok g) (Ht : gtrans recorded g g').

Lemma gtrans_run_lives : evolved run_row_step run_row_born (gate_run g) (gate_run g').
Proof using Hg Ht.
  destruct Ht; tables; try apply evolved_refl.
  - by apply evolved_snoc.
  - by apply (evolved_at_key _ _ run_id_of); [apply (gk_runs _ Hg)|..].
  - apply evolved_update. intros y Hy [Ho _]%andb_true_iff. apply RunClaimed. subst. by apply H1.
Qed.

Lemma gtrans_round_lives :
  evolved round_step (round_born (gate_round g)) (gate_round g) (gate_round g').
Proof using Hg Ht.
  destruct Ht; tables; try apply evolved_refl.
  - by apply evolved_snoc.
  - by apply evolved_at_key; [apply (gk_rounds _ Hg)|..].
Qed.

Lemma gtrans_question_lives :
  evolved question_step (λ q, ∃ prior, question_born prior q) (round_question g) (round_question g').
Proof using Hg Ht.
  pose proof (qo_ids _ _ _ _ _ (gk_questions _ Hg)) as Hi.
  assert (∀ a, a ∈ question_answer g → ∀ q, q ∈ round_question g →
    rq_question_id q = qa_question_id a → rq_state q = Q_ANSWERED) as Hans.
  { intros a Ha q Hq Hid. pose proof (gk_questions _ Hg) as Hok.
    assert ((qa_answer_event_id a, qa_question_id a)
      ∈ (λ a, (qa_answer_event_id a, qa_question_id a)) <$> question_answer g) as Hin
      by (by apply (list_elem_of_fmap_2 (λ a, (qa_answer_event_id a, qa_question_id a)))).
    apply (qo_answers _ _ _ _ _ Hok) in Hin as (y & Hy & Hyi & Hye).
    apply (qk_answered _ (qo_rows _ _ _ _ _ Hok q Hq)).
    assert (y = q) as -> by (apply (NoDup_key_eq rq_question_id (round_question g)); congruence).
    by rewrite Hye. }
  destruct Ht; tables; try apply evolved_refl.
  - apply evolved_snoc. by eexists.
  - rewrite <- H0. apply evolved_at_key; [done..|by apply QAnswered].
  - apply evolved_at_key; [done..|by apply QEscalated].
  - apply evolved_update. by intros y Hy [? _]%andb_true_iff; apply QExpired.
  - apply evolved_at_key; [done..|]. apply QConsumed. by eapply Hans.
  - apply evolved_update. by intros y Hy [[_ ?]%andb_true_iff _]%andb_true_iff; apply QClaimed.
Qed.

Lemma gtrans_dispatch_lives :
  evolved (dispatch_step recorded (round_question g)) (λ d, Dispatch_valid d = true) (gate_dispatch g) (gate_dispatch g').
Proof using Hg Ht.
  assert (∀ q d, q ∈ round_question g → rq_dispatch_id q = dp_dispatch_id d → dp_state d = AWAITING_ANSWER →
    dispatch_step recorded (round_question g) d (set_dispatch_state (_restored_state q) d)) as Hrel.
  { intros q d Hq Hid Hs. destruct (qk_prior _ (qo_rows _ _ _ _ _ (gk_questions _ Hg) q Hq)) as (s & Hp & Hl).
    unfold _restored_state. rewrite Hp. by eapply DReleased. }
  pose proof (do_ids _ (gk_dispatches _ Hg)) as Hi. destruct Ht; tables; try apply evolved_refl.
  - by apply evolved_snoc.
  - apply evolved_update. intros x Hx He%is_id_true. by apply DRecorded.
  - rewrite <- H0. apply evolved_at_key; [done..|]. apply DSuspended. apply H1.
  - apply evolved_fmap. intros d Hd. unfold release_with.
    destruct (head _) as [q|] eqn:Hq; [|by left]. case_bool_decide; [right|by left].
    apply head_Some_elem_of in Hq as [Hid [_ Hin]%elem_of_select]%list_elem_of_filter. by apply Hrel.
  - apply evolved_update. intros d Hd [Hid%is_id_true ?%bool_decide_eq_true]%andb_true_iff. by apply Hrel.
Qed.

(** What is only ever added to. *)
Lemma gtrans_history :
  question_answer g `prefix_of` question_answer g'
  ∧ gate_open_finding g `prefix_of` gate_open_finding g'
  ∧ gate_disposition g `prefix_of` gate_disposition g'
  ∧ gate_effect_intent g `prefix_of` gate_effect_intent g'
  ∧ ownership_transfer g `prefix_of` ownership_transfer g'.
Proof using Ht. destruct Ht; tables; split_and!; try done; by eexists. Qed.
End Lives.

(** [C3] The gate refines its abstract specification.  Take a record that satisfies the
    invariant and any transaction of the gate's services ([gop]): one mutating call of
    the store with the arguments and the checks a service gives it, so no transition
    of a round to BUILT without a review snapshot and none to ABANDONED, and no
    question that was not validated.  Committed or refused, it either leaves the
    record alone or makes one transition of [gtrans]; in it every run, round and
    question stays in its place and moves by at most one step of its life, and the
    new ones are newborn.  A dispatch is suspended from a live state, released from
    waiting into the live state that a question of its own remembers, or, by a call
    of [record_dispatch] only, replaced by the valid row of the same identity that
    the call brings.  Answers, findings, dispositions, effect intents and ownership
    transfers are only added to. *)
Theorem gate_refines_life o g :
  gate_ok g →
  (gstep o g = g ∨ gtrans (recorded o) g (gstep o g))
  ∧ evolved run_row_step run_row_born (gate_run g) (gate_run (gstep o g))
  ∧ evolved round_step (round_born (gate_round g)) (gate_round g) (gate_round (gstep o g))
  ∧ evolved question_step (λ q, ∃ prior, question_born prior q)
      (round_question g) (round_question (gstep o g))
  ∧ evolved (dispatch_step (recorded o) (round_question g)) (λ d, Dispatch_valid d = true) (gate_dispatch g) (gate_dispatch (gstep o g))
  ∧ question_answer g `prefix_of` question_answer (gstep o g)
  ∧ gate_open_finding g `prefix_of` gate_open_finding (gstep o g)
  ∧ gate_disposition g `prefix_of` gate_disposition (gstep o g)
  ∧ gate_effect_intent g `prefix_of` gate_effect_intent (gstep o g)
  ∧ ownership_transfer g `prefix_of` ownership_transfer (gstep o g).
Proof.
  intros Hg. destruct (gstep_refines o g Hg) as [->|Ht].
  - split_and!; try apply evolved_refl; [by left|done..].
  - split_and!; [by right|by eapply gtrans_run_lives|by eapply gtrans_round_lives
      |by eapply gtrans_question_lives|by eapply gtrans_dispatch_lives|by eapply gtrans_history..].
Qed.

(** [C26] The invariant of the record holds after any sequence of transactions
    from an empty store: keys are unique; a run's rounds are numbered 1, 2, ..;
    a round has a review snapshot exactly when it is past [OPEN], a closing time
    exactly when it is settled, and is never [ABANDONED]; a dispatch has at most
    one open question; a question is [ANSWERED] exactly when it names an answer,
    and the answers are exactly those the questions name; every answer has its
    delivery intent and every question its notice intent; every effect result
    has its intent; and every disposition carries its evidence. *)
Theorem gate_invariant ops : gate_ok (gruns ops empty_gate).
Proof. apply gruns_ok, gate_ok_empty. Qed.

(** ** Following a row through a run *)

(** Every row of [t] has a row of [t'] it is [R]-related to. *)
Definition followed {X} (R : relation X) (t t' : list X) : Prop :=
  ∀ r, r ∈ t → ∃ r', r' ∈ t' ∧ R r r'.

Lemma followed_evolved {X} (R step : relation X) born t t' `{!Reflexive R} :
  (∀ r r', r ∈ t → step r r' → R r r') → evolved step born t t' → followed R t t'.
Proof.
  intros HR He r Hr. destruct (evolved_in step born t t' r He Hr) as (r' & Hr' & Hs).
  exists r'. split; [done|]. destruct Hs as [->|Hs]; [reflexivity|by apply HR].
Qed.

Section Follow.
Context {X : Type} (table : gate → list X) (R : relation X) `{!PreOrder R}.

#[local] Instance followed_preorder : PreOrder (λ g g', followed R (table g) (table g')).
Proof using All.
  split.
  - intros g r Hr. exists r. by split.
  - intros g1 g2 g3 H1 H2 r Hr. destruct (H1 r Hr) as (r' & Hr' & Hrr).
    destruct (H2 r' Hr') as (r'' & ? & ?). exists r''. split; [done|by etrans].
Qed.

Lemma follow_run ops g :
  (∀ recorded g g', gate_ok g → gtrans recorded g g' → followed R (table g) (table g')) →
  gate_ok g → followed R (table g) (table (gruns ops g)).
Proof using All. intros H Hg. by apply (gruns_ind (λ g g', followed R (table g) (table g'))). Qed.
End Follow.

(** ** Questions *)

Definition question_kept (q q' : RoundQuestion) : Prop :=
  rq_question_id q' = rq_question_id q ∧ rq_dispatch_id q' = rq_dispatch_id q
  ∧ rq_question q' = rq_question q ∧ rq_expires_at q' = rq_expires_at q
  ∧ rq_dispatch_prior_state q' = rq_dispatch_prior_state q
  ∧ (q_open q = false → q_open q' = false ∧ rq_state q' = rq_state q
                        ∧ rq_answer_event_id q' = rq_answer_event_id q).

#[export] Instance question_kept_preorder : PreOrder question_kept.
Proof.
  split; [by intros q; split_and!; auto|].
  intros a b c (?&?&?&?&?&Hk1) (?&?&?&?&?&Hk2). split_and!; try congruence.
  intros Ho. destruct (Hk1 Ho) as (Ho' & <- & <-). by apply Hk2.
Qed.

Lemma question_step_kept q q' : question_step q q' → question_kept q q'.
Proof.
  intros Hs. split_and!; try by destruct Hs. intros Ho. destruct Hs as [Hs|e Hs|Hs|c ep Hs|at_ Hs];
    unfold q_open in *; simpl; try (rewrite Hs in Ho; done); try congruence. by rewrite Hs.
Qed.

Lemma follow_questions ops g :
  gate_ok g → followed question_kept (round_question g) (round_question (gruns ops g)).
Proof.
  intros Hg. apply (follow_run round_question); [apply _| |done]. clear. intros recorded g g' Hg Ht.
  eapply followed_evolved; [apply _| |by eapply gtrans_question_lives].
  intros q q' _. apply question_step_kept.
Qed.

(** A question settles once.  Whatever happens after it was answered or
    expired — late answers, sweeps, escalations, claims, retries — it keeps its
    state and the answer it names, and the answers table holds for it exactly
    that answer, or none if it expired. *)
Theorem questions_settle_once ops g q :
  gate_ok g → q ∈ round_question g → q_open q = false →
  ∃ q', q' ∈ round_question (gruns ops g) ∧ rq_question_id q' = rq_question_id q
    ∧ rq_state q' = rq_state q ∧ rq_answer_event_id q' = rq_answer_event_id q
    ∧ ∀ a, a ∈ question_answer (gruns ops g) → qa_question_id a = rq_question_id q →
           rq_answer_event_id q = Some (qa_answer_event_id a).
Proof.
  intros Hg Hq Ho. destruct (follow_questions ops g Hg q Hq) as (q' & Hq' & Hid & _ & _ & _ & _ & Hk).
  destruct (Hk Ho) as (_ & Hs & He). exists q'. split_and!; try done. intros a Ha Hqa.
  pose proof (gk_questions _ (gruns_ok ops g Hg)) as Hok.
  assert ((qa_answer_event_id a, qa_question_id a)
    ∈ (λ a, (qa_answer_event_id a, qa_question_id a)) <$> question_answer (gruns ops g)) as Hin
    by (by apply (list_elem_of_fmap_2 (λ a, (qa_answer_event_id a, qa_question_id a)))).
  apply (qo_answers _ _ _ _ _ Hok) in Hin as (x & Hx & Hxi & Hxe).
  rewrite <- He, <- Hxe. f_equal.
  apply (NoDup_key_eq rq_question_id (round_question (gruns ops g))); [apply Hok|done..|congruence].
Qed.

(** ** Ownership *)

Definition owner_kept (r r' : GateRun) : Prop :=
  rn_run_id r' = rn_run_id r ∧ rn_max_rounds r' = rn_max_rounds r
  ∧ rn_owner_epoch r <= rn_owner_epoch r'
  ∧ (rn_owner_conversation r' = rn_owner_conversation r ∨ rn_owner_epoch r < rn_owner_epoch r')
  ∧ rn_row_version r <= rn_row_version r'
  ∧ (rn_state r ≠ RUN_OPEN → rn_state r' = rn_state r).

#[export] Instance owner_kept_preorder : PreOrder (λ x y, owner_kept (rr_run x) (rr_run y)).
Proof.
  split.
  - intros x. unfold owner_kept. split_and!; auto; lia.
  - intros a b c (?&?&?&Ho1&?&Hs1) (?&?&?&Ho2&?&Hs2). unfold owner_kept. split_and!; try congruence; try lia.
    + destruct Ho1 as [E1|?]; [|right; lia]. destruct Ho2 as [E2|?]; [left; congruence|right; lia].
    + intros Hn. specialize (Hs1 Hn). rewrite Hs2; congruence.
Qed.

Lemma follow_runs ops g :
  gate_ok g →
  followed (λ x y, owner_kept (rr_run x) (rr_run y)) (gate_run g) (gate_run (gruns ops g)).
Proof.
  intros Hg. apply (follow_run gate_run); [apply _| |done].
  clear. intros recorded g g' Hg Ht. eapply followed_evolved; [apply _| |by eapply gtrans_run_lives].
  intros x y Hx Hs. unfold owner_kept. pose proof (rk_written _ (ro_rows _ (gk_runs _ Hg) x Hx)) as Hw.
  destruct Hs as [t Hl Hn|c e He]; simpl; split_and!; auto; try lia.
  intros Hst. by destruct (rn_state (rr_run x)); [..|apply not_elem_of_nil in Hl
    |apply not_elem_of_nil in Hl|apply not_elem_of_nil in Hl].
Qed.

(** Ownership of a run is monotone: over any sequence of transactions a
    run's owner epoch never decreases, a change of owner comes with a strictly
    greater epoch, the bound on its rounds never changes, and a run that has
    been closed or abandoned stays so. *)
Theorem ownership_is_monotone ops g x :
  gate_ok g → x ∈ gate_run g →
  ∃ x', x' ∈ gate_run (gruns ops g) ∧ owner_kept (rr_run x) (rr_run x').
Proof. intros Hg Hx. by apply follow_runs. Qed.

(** ** Rounds *)

Definition round_kept (r r' : GateRound) : Prop :=
  gr_round_id r' = gr_round_id r ∧ gr_run_id r' = gr_run_id r ∧ gr_round_no r' = gr_round_no r
  ∧ gr_build_inputs r' = gr_build_inputs r
  ∧ (∀ m, gr_review_snapshot r = Some m → gr_review_snapshot r' = Some m)
  ∧ (gr_state r ∈ [ROUND_YES; ROUND_NO] → gr_state r' = gr_state r).

#[export] Instance round_kept_preorder : PreOrder round_kept.
Proof.
  split; [by intros r; split_and!; auto|].
  intros a b c (?&?&?&?&Hs1&Hv1) (?&?&?&?&Hs2&Hv2). split_and!; try congruence; [auto|].
  intros Hn. specialize (Hv1 Hn). rewrite <- Hv1 in Hn. by rewrite Hv2.
Qed.

Lemma follow_rounds ops g :
  gate_ok g → followed round_kept (gate_round g) (gate_round (gruns ops g)).
Proof.
  intros Hg. apply (follow_run gate_round); [apply _| |done]. clear. intros recorded g g' Hg Ht.
  eapply followed_evolved; [apply _| |by eapply gtrans_round_lives].
  intros r r' _ Hs. destruct Hs as [s Ho Hn Hv|now Hb|t now Hj Ht'|s1 s2 s3]; split_and!; simpl; try done.
  - by rewrite Hn.
  - intros Hst. rewrite Ho in Hst. by in_list Hst.
  - intros Hst. rewrite Hb in Hst. by in_list Hst.
  - intros Hst. rewrite Hj in Hst. by in_list Hst.
Qed.
