(* ===== verification/GateCommands.v ===== *)
(** * The gate's commands, branch by branch

    What the commands of [GateRoundService] and [GateQuestionService] return and
    leave behind, on a record that satisfies the invariant. *)

From S2P Require Import Prelude Gate GateRows GateStore GateRender GateService GateLife Wp GateExec GateInv GateThms.
Import SqliteGateStore.

(** ** Reading rows that the invariant makes readable *)

(** SELECT by a unique key finds the row it names. *)
Lemma select_key {R} (key : R → string) (t : list R) r :
  NoDup (key <$> t) → r ∈ t → head (select_where (is_id key (key r)) t) = Some r.
Proof.
  intros Hn Hr. destruct (head (select_where _ t)) as [x|] eqn:E.
  - apply head_select_Some in E as [Hx He]. by rewrite (at_key_row key t r Hn Hr x Hx He).
  - pose proof (head_select_None _ _ E r Hr) as Hf. by apply is_id_false in Hf.
Qed.

Lemma select_no_key {R} (key : R → string) (t : list R) i :
  i ∉ key <$> t → head (select_where (is_id key i) t) = None.
Proof.
  intros Hi. destruct (head _) as [x|] eqn:E; [|done].
  apply head_select_Some in E as [Hx <-%is_id_true]. destruct Hi. by apply list_elem_of_fmap_2.
Qed.

Section Read.
Context (g : gate) (Hg : gate_ok g).

Lemma read_round r :
  r ∈ gate_round g → get_round (gr_round_id r) g = (g, Returned (Some r)).
Proof using Hg.
  intros Hr. apply wp_returns. unfold get_round, optional_row. repeat txn_step; try done.
  all: rewrite (select_key gr_round_id) in H by (done || apply Hg); simplify_eq.
  - apply construct_Returned in H0 as [-> _]. done.
  - unfold _row_to_round, construct in H0.
    by rewrite (ok_valid _ (uo_rows _ (gk_rounds _ Hg) g0 Hr)) in H0.
Qed.

Lemma require_round r :
  r ∈ gate_round g → GateRoundService._require_round (gr_round_id r) g = (g, Returned r).
Proof using Hg.
  intros Hr. unfold GateRoundService._require_round.
  by rewrite (bind_returned _ _ _ _ _ (read_round r Hr)).
Qed.
End Read.

(** ** Acceptance *)

(** What is accepted is what was frozen.  Once a round's review snapshot is
    frozen, no transaction of any thread changes it, and an accept of the round
    at any later time succeeds exactly when the round has been settled YES, the
    declared subject is the content address of THAT snapshot, and the declared
    report bytes are those the CAS holds; it never writes.  The two hashes
    [settle_adjudication] stored on the round take no part in the decision. *)
Theorem accepted_is_what_was_frozen ops g r m subject bytes cas :
  gate_ok g → r ∈ gate_round g → gr_review_snapshot r = Some m →
  let g' := gruns ops g in
  let accept := GateRoundService.accept_round (gr_round_id r) subject bytes cas g' in
  state_of accept = g'
  ∧ (value_of accept = Returned () ↔
     (∃ r', r' ∈ gate_round g' ∧ gr_round_id r' = gr_round_id r ∧ gr_state r' = ROUND_YES)
     ∧ subject = compute_artifact_sha m ∧ bytes = cas).
Proof.
  intros Hg Hr Hm g' accept. pose proof (gruns_ok ops g Hg : gate_ok g') as Hg'.
  destruct (follow_rounds ops g Hg r Hr) as (r' & Hr' & Hid & _ & _ & _ & Hs & _). fold g' in Hr'.
  assert (accept = (g', may_accept_round r' subject bytes cas)) as ->.
  { unfold accept, GateRoundService.accept_round. rewrite <- Hid.
    by rewrite (bind_returned _ _ _ _ _ (require_round g' Hg' r' Hr')). }
  split; [done|]. unfold value_of, may_accept_round. simpl. rewrite (Hs m Hm). split.
  - repeat (case_bool_decide; simpl; try done). intros _. split_and!; [by exists r'|done..].
  - intros ((x & Hx & Hxi & Hxs) & -> & ->).
    assert (r' = x) as -> by (apply (NoDup_key_eq gr_round_id (gate_round g'));
      [apply Hg'|done..|congruence]).
    by rewrite !bool_decide_eq_true_2.
Qed.

(** ** Answering *)

Section Answer.
Context (g : gate) (Hg : gate_ok g) (q : RoundQuestion) (Hq : q ∈ round_question g)
  (Hv : RoundQuestion_valid q = true).
Context (i text by_ request conversation : string) (epoch now : Z).

Let call : M gate (RoundQuestion * QuestionAnswer) :=
  answer_question i (rq_question_id q) text by_ request conversation epoch now.

(** The answer this request has already recorded, if any. *)
Let prior : option QuestionAnswer :=
  head (select_where (answered_as (rq_question_id q) request) (question_answer g)).

Definition new_answer : QuestionAnswer := {|
  qa_answer_event_id := i; qa_question_id := rq_question_id q; qa_answer := text;
  qa_answered_by := by_; qa_answered_at := now; qa_client_request_id := request |}.

Ltac answer_branch :=
  unfold call, answer_question, prior in *; repeat txn_step; tables;
  repeat match goal with
  | H : head (select_where (is_id rq_question_id _) _) = _ |- _ =>
      rewrite (select_key rq_question_id) in H by (done || apply Hg); simplify_eq
  | H : _row_to_question _ = _ |- _ =>
      unfold _row_to_question, construct in H; rewrite Hv in H; simplify_eq
  end; try (by split); simplify_eq/=.

Lemma answer_replayed a :
  prior = Some a → QuestionAnswer_valid a = true → qa_answer a = text →
  call g = (g, Returned (q, a)).
Proof using Hg Hq Hv.
  intros Hp Ha Ht. apply wp_returns. answer_branch;
    unfold _row_to_answer, construct in *; rewrite ?Ha in *; simplify_eq; [|done].
  by rewrite bool_decide_eq_true_2 in Heqb.
Qed.

Lemma answer_conflicts a :
  prior = Some a → QuestionAnswer_valid a = true → qa_answer a ≠ text →
  call g = (g, Raised (refusal ANSWER_CONFLICT)).
Proof using Hg Hq Hv.
  intros Hp Ha Ht. apply wp_raises. answer_branch;
    unfold _row_to_answer, construct in *; rewrite ?Ha in *; simplify_eq.
  by rewrite bool_decide_eq_false_2 in Heqb.
Qed.

Lemma answer_refused c :
  prior = None → aa_code (answer_admissible q conversation epoch now) = Some c →
  call g = (g, Raised (refusal c)).
Proof using Hg Hq Hv.
  intros Hp Hc. assert (aa_admissible (answer_admissible q conversation epoch now) = false) as Hno.
  { revert Hc. unfold answer_admissible. by repeat case_match. }
  apply wp_raises. answer_branch. all: rewrite Hno in *; simplify_eq/=; try done.
Qed.

Lemma answer_recorded :
  prior = None → aa_admissible (answer_admissible q conversation epoch now) = true →
  QuestionAnswer_valid new_answer = true →
  i ∉ qa_answer_event_id <$> question_answer g →
  call g = (set_deliveries (answer_delivery_intent g
                ++ [{| ad_answer_event_id := i; ad_state := AD_PENDING; ad_settled_at := None |}])
              (set_questions (at_key rq_question_id (rq_question_id q)
                                (settle_question Q_ANSWERED (Some i)) (round_question g))
                (set_answers (question_answer g ++ [new_answer]) g)),
            Returned (settle_question Q_ANSWERED (Some i) q, new_answer)).
Proof using Hg Hq Hv.
  intros Hp Ha Hval Hi. destruct (admissible_open q conversation epoch now Ha) as (Ho & _).
  rewrite open_states in Ho.
  assert (next_question_state (rq_state q) Q_ANSWERED = Returned Q_ANSWERED) as Hnext.
  { unfold q_open in Ho. by destruct (rq_state q). }
  pose proof (rowcount_key rq_question_id q_open (round_question g) q
    (qo_ids _ _ _ _ _ (gk_questions _ Hg)) Hq Ho) as Hrc.
  assert (∀ {R} (key : R → string) (t : list R), key <$> t = qa_answer_event_id <$> question_answer g →
    existsb (is_id key i) t = true → False) as Hfresh.
  { intros R key t Hk He%is_key. rewrite Hk in He. done. }
  apply wp_returns. answer_branch.
  all: unfold open_question in *; rewrite ?Ha, ?Hnext, ?Hrc in *; simplify_eq/=.
  all: try match goal with H : construct _ _ _ = _ |- _ => unfold construct in H;
    change (QuestionAnswer_valid _) with (QuestionAnswer_valid new_answer) in H;
    rewrite Hval in H; simplify_eq/= end.
  - by rewrite (at_key_and rq_question_id q_open) by (done || apply (gk_questions _ Hg)).
  - by eapply (Hfresh _ _ _ (qo_deliveries _ _ _ _ _ (gk_questions _ Hg))).
  - by eapply (Hfresh _ _ _ eq_refl).
Qed.
End Answer.

(** [answer_question] on every branch.  A request that has already recorded
    an answer gets that answer back, or [E_ANSWER_CONFLICT] if it now says
    something else; an answer that is late (the question settled, or expired by
    the clock even before a sweep), not the owner's, or from a superseded epoch
    is refused with the code of the first check that fails; each refusal and each
    replay writes nothing.  Otherwise the answer is appended, the question is
    settled with its id, and a pending delivery intent is recorded. *)
Theorem answer_exact g q i text by_ request conversation epoch now :
  gate_ok g → q ∈ round_question g → RoundQuestion_valid q = true →
  let call := answer_question i (rq_question_id q) text by_ request conversation epoch now g in
  let prior := head (select_where (answered_as (rq_question_id q) request) (question_answer g)) in
  let a := new_answer q i text by_ request now in
  (∀ p, prior = Some p → QuestionAnswer_valid p = true →
     call = (g, if bool_decide (qa_answer p = text) then Returned (q, p)
                else Raised (refusal ANSWER_CONFLICT)))
  ∧ (∀ c, prior = None → aa_code (answer_admissible q conversation epoch now) = Some c →
       call = (g, Raised (refusal c)))
  ∧ (prior = None →
     q_open q = true → now < rq_expires_at q → conversation = rq_owner_conversation q →
     rq_owner_epoch q <= epoch → QuestionAnswer_valid a = true →
     i ∉ qa_answer_event_id <$> question_answer g →
     call = (set_deliveries (answer_delivery_intent g
                ++ [{| ad_answer_event_id := i; ad_state := AD_PENDING; ad_settled_at := None |}])
              (set_questions (at_key rq_question_id (rq_question_id q)
                                (settle_question Q_ANSWERED (Some i)) (round_question g))
                (set_answers (question_answer g ++ [a]) g)),
             Returned (settle_question Q_ANSWERED (Some i) q, a)))
  ∧ (aa_code (answer_admissible q conversation epoch now) = None ↔
     q_open q = true ∧ now < rq_expires_at q ∧ conversation = rq_owner_conversation q
     ∧ rq_owner_epoch q <= epoch).
Proof.
  intros Hg Hq Hv call prior a.
  assert (aa_code (answer_admissible q conversation epoch now) = None
          ↔ aa_admissible (answer_admissible q conversation epoch now) = true) as Hc
    by (unfold answer_admissible; by repeat case_match).
  assert (aa_admissible (answer_admissible q conversation epoch now) = true ↔
    q_open q = true ∧ now < rq_expires_at q ∧ conversation = rq_owner_conversation q
    ∧ rq_owner_epoch q <= epoch) as Ha.
  { rewrite <- open_states. split; [apply admissible_open|]. intros (Ho & Hn & -> & He).
    unfold answer_admissible, rq_is_open, epoch_supersedes in *.
    rewrite bool_decide_eq_false_2 by (intros Hs; in_list Hs; by rewrite Hs in Ho).
    destruct (Z.leb_spec (rq_expires_at q) now); [lia|]. rewrite bool_decide_eq_true_2 by done. simpl.
    destruct (Z.ltb_spec epoch (rq_owner_epoch q)); [lia|done]. }
  split_and!; [..|by rewrite Hc].
  - intros p Hp Hpv. case_bool_decide; [by apply answer_replayed|by apply (answer_conflicts g Hg q Hq Hv) with p].
  - intros c Hp Hcode. by apply answer_refused.
  - intros Hp Ho Hn Hcv He Hval Hi. apply answer_recorded; try done. by apply Ha.
Qed.

(** ** Suspending and releasing a dispatch *)

Lemma wp_result {S A} (m : M S A) s s' a Q E : wp m s Q E → m s = (s', Returned a) → Q a s'.
Proof. unfold wp. intros H Hr. by rewrite Hr in H. Qed.

Section Suspension.
Context (g : gate) (Hg : gate_ok g).

(** What a fresh ask has done. *)
Definition freshly_asked (i d : string) (until : Z) (q : RoundQuestion) (g1 : gate) : Prop :=
  ∃ row, row ∈ gate_dispatch g ∧ dp_dispatch_id row = d ∧ rq_question_id q = i ∧ rq_dispatch_id q = d
    ∧ q_open q = true ∧ rq_expires_at q = until
    ∧ gate_dispatch g1 = at_key dp_dispatch_id d (set_dispatch_state AWAITING_ANSWER) (gate_dispatch g)
    ∧ round_question g1 = round_question g ++ [suspending (dp_state row) q]
    ∧ question_answer g1 = question_answer g ∧ i ∉ rq_question_id <$> round_question g.

Lemma ask_inv i d r k owner epoch kind ref text opts blocking at_ until schema def q g1 :
  ask_question i d r k owner epoch kind ref text opts blocking at_ until schema def g
    = (g1, Returned (q, false)) → freshly_asked i d until q g1.
Proof using Type.
  clear Hg. intros H. refine (wp_result _ _ _ _ (λ x g1, x.2 = false → freshly_asked i d until x.1 g1)
    (λ _ _, True) _ H eq_refl). clear H.
  unfold ask_question. repeat txn_step; tables; try done.
  apply construct_Returned in H2 as [-> _]. apply head_select_Some in H0 as [Hin Hid%is_id_true].
  intros _. exists d0. split_and!; try done.
  apply no_key. intros x Hx. pose proof (proj1 (existsb_false _ _) H3 x Hx) as Hc.
  by apply orb_false_iff in Hc as [? _].
Qed.

(** Suspended and released, the dispatches are what they were. *)
Lemma suspend_release d s :
  d ∈ gate_dispatch g → dp_state d = s →
  update_where (awaiting (dp_dispatch_id d)) (set_dispatch_state s)
    (at_key dp_dispatch_id (dp_dispatch_id d) (set_dispatch_state AWAITING_ANSWER) (gate_dispatch g))
  = gate_dispatch g.
Proof using Hg.
  intros Hd <-. unfold at_key, update_where. rewrite <- list_fmap_compose.
  rewrite <- (list_fmap_id (gate_dispatch g)) at 2. apply list_fmap_ext.
  intros j x Hx%list_elem_of_lookup_2. simpl.
  destruct (is_id dp_dispatch_id (dp_dispatch_id d) x) eqn:E.
  - assert (x = d) as -> by (by apply (at_key_row dp_dispatch_id (gate_dispatch g)); [apply Hg|..]).
    unfold awaiting, is_id. simpl. rewrite !bool_decide_eq_true_2 by done. by destruct d.
  - unfold awaiting. by rewrite E.
Qed.
(** What an answer that returned has done. *)
Definition answered (i question_id : string) (a : QuestionAnswer) (g2 : gate) : Prop :=
  qa_question_id a = question_id
  ∧ ((g2 = g ∧ a ∈ question_answer g)
     ∨ (qa_answer_event_id a = i ∧ gate_dispatch g2 = gate_dispatch g
        ∧ round_question g2 = update_where (open_question question_id)
                                (settle_question Q_ANSWERED (Some i)) (round_question g)
        ∧ question_answer g2 = question_answer g ++ [a])).

Lemma answer_inv i question_id text by_ k conv epoch now q a g2 :
  answer_question i question_id text by_ k conv epoch now g = (g2, Returned (q, a)) →
  answered i question_id a g2.
Proof using Type.
  clear Hg. intros H. refine (wp_result _ _ _ _ (λ x g2, answered i question_id x.2 g2)
    (λ _ _, True) _ H). clear H.
  unfold answer_question. repeat txn_step; tables; try done.
  - apply construct_Returned in H2 as [-> _]. apply head_select_Some in H1 as [Ha [Hq _]%andb_true_iff].
    split; [by apply is_id_true in Hq|]. left. by split.
  - apply construct_Returned in H3 as [-> _]. split; [done|]. right. by split_and!.
Qed.

(** What a receipt that returned has done. *)
Lemma consume_inv e now u g3 :
  mark_answer_consumed e now g = (g3, Returned u) →
  ∃ a q, a ∈ question_answer g ∧ qa_answer_event_id a = e ∧ q ∈ round_question g
    ∧ rq_question_id q = qa_question_id a
    ∧ gate_dispatch g3 = update_where (awaiting (rq_dispatch_id q))
                           (set_dispatch_state (_restored_state q)) (gate_dispatch g).
Proof using Type.
  clear Hg. intros H. refine (wp_result _ _ _ _ (λ _ g3, ∃ a q, a ∈ question_answer g
    ∧ qa_answer_event_id a = e ∧ q ∈ round_question g ∧ rq_question_id q = qa_question_id a
    ∧ gate_dispatch g3 = update_where (awaiting (rq_dispatch_id q))
        (set_dispatch_state (_restored_state q)) (gate_dispatch g)) (λ _ _, True) _ H). clear H.
  unfold mark_answer_consumed, release_dispatch. repeat txn_step; tables; try done.
  apply construct_Returned in H1 as [-> _]. apply head_select_Some in H as [Ha Hid%is_id_true].
  apply head_select_Some in H0 as [(x & -> & Hx)%list_elem_of_fmap Hqid].
  exists q, x. destruct (is_id rq_question_id (qa_question_id q) x) eqn:E; [|by rewrite E in Hqid].
  apply is_id_true in E. by split_and!.
Qed.
End Suspension.

Lemma state_of_returned {S A} (m : M S A) s s' a : m s = (s', Returned a) → state_of (m s) = s'.
Proof. by intros ->. Qed.

(** A transaction keeps the invariant. *)
Lemma refines_ok g {A} (m : M gate A) g' a :
  gate_ok g → refines g m → m g = (g', Returned a) → gate_ok g'.
Proof.
  intros Hg Hm Hr. pose proof (wp_result _ _ _ _ _ _ Hm Hr) as [->|Ht]; [done|].
  by eapply gtrans_ok.
Qed.

Section Undo.
Context (g g1 : gate) (Hg : gate_ok g) (Hg1 : gate_ok g1).
Context (i d : string) (until : Z) (q : RoundQuestion) (Hask : freshly_asked g i d until q g1).

(** The stored question remembers the dispatch's state. *)
Lemma asked_row : ∃ row, row ∈ gate_dispatch g ∧ dp_dispatch_id row = d
  ∧ gate_dispatch g1 = at_key dp_dispatch_id d (set_dispatch_state AWAITING_ANSWER) (gate_dispatch g)
  ∧ suspending (dp_state row) q ∈ round_question g1 ∧ rq_question_id q = i ∧ rq_dispatch_id q = d.
Proof using Hask.
  destruct Hask as (row & Hrow & Hid & Hq & Hqd & _ & _ & Hds & Hqs & _).
  exists row. split_and!; try done. rewrite Hqs. apply elem_of_app. right. by left.
Qed.

Lemma asked_unanswered a : a ∈ question_answer g1 → qa_question_id a = i → False.
Proof using Hask Hg.
  destruct Hask as (row & _ & _ & _ & _ & _ & _ & _ & _ & -> & Hfresh). intros Ha Hi.
  assert ((qa_answer_event_id a, qa_question_id a)
    ∈ (λ a, (qa_answer_event_id a, qa_question_id a)) <$> question_answer g) as Hin
    by (by apply (list_elem_of_fmap_2 (λ a, (qa_answer_event_id a, qa_question_id a)))).
  apply (qo_answers _ _ _ _ _ (gk_questions _ Hg)) in Hin as (x & Hx & Hxi & _).
  apply Hfresh. rewrite <- Hi, <- Hxi. by apply list_elem_of_fmap_2.
Qed.

(** Whichever question of [g2] carries the id [i], releasing it gives the
    dispatches of [g] back. *)
Lemma release_restores q2 :
  rq_dispatch_id q2 = d →
  (∀ row, row ∈ gate_dispatch g → dp_dispatch_id row = d → _restored_state q2 = dp_state row) →
  update_where (awaiting (rq_dispatch_id q2)) (set_dispatch_state (_restored_state q2)) (gate_dispatch g1)
  = gate_dispatch g.
Proof using Hask Hg.
  intros Hd Hr. destruct asked_row as (row & Hrow & Hid & -> & _). rewrite Hd, <- Hid.
  apply (suspend_release g Hg); [done|]. by rewrite (Hr row).
Qed.

End Undo.

Section UndoBoth.
Context (g g1 : gate) (Hg : gate_ok g) (Hg1 : gate_ok g1).
Context (i d : string) (until : Z) (q : RoundQuestion) (Hask : freshly_asked g i d until q g1).

Lemma undone_by_receipt e text by_ k conv epoch now t q2 a u g2 g3 :
  answer_question e i text by_ k conv epoch now g1 = (g2, Returned (q2, a)) →
  mark_answer_consumed (qa_answer_event_id a) t g2 = (g3, Returned u) →
  gate_dispatch g3 = gate_dispatch g.
Proof using Hg Hg1 Hask.
  intros Ha Hc. pose proof (refines_ok _ _ _ _ Hg1 (refine_answer g1 Hg1 _ _ _ _ _ _ _ _) Ha) as Hg2.
  destruct (answer_inv _ _ _ _ _ _ _ _ _ _ _ _ Ha) as [Hqa [[-> Hin]|(He & Hds & Hqs & Hans)]].
  { by destruct (asked_unanswered g g1 Hg i d until q Hask a). }
  destruct (consume_inv _ _ _ _ _ Hc) as (a' & q' & Ha' & Heq & Hq' & Hid & ->).
  assert (a' = a) as ->.
  { apply (NoDup_key_eq qa_answer_event_id (question_answer g2)); [apply (gk_questions _ Hg2)|done| |done].
    rewrite Hans. apply elem_of_app. right. by left. }
  destruct (asked_row _ _ _ _ _ _ Hask) as (row & Hrow & Hrid & _ & Hin & Hqi & Hqd).
  rewrite Hqs in Hq'. apply elem_of_update in Hq' as (y & Hy & Hyq).
  assert (y = suspending (dp_state row) q) as ->.
  { apply (NoDup_key_eq rq_question_id (round_question g1)); [apply (gk_questions _ Hg1)|done..|].
    transitivity i; [|by rewrite <- Hqi]. rewrite <- Hqa, <- Hid, Hyq. by destruct (open_question i y). }
  rewrite Hds. apply (release_restores g g1 Hg i d until q Hask).
  - rewrite Hyq. by destruct (open_question _ _).
  - intros x Hx Hxd. assert (x = row) as ->
      by (apply (NoDup_key_eq dp_dispatch_id (gate_dispatch g)); [apply Hg|done..|congruence]).
    rewrite Hyq. by destruct (open_question _ _).
Qed.

Lemma undone_by_expiry now r g2 x :
  until <= now → expire_due_questions now g1 = (g2, Returned r) →
  x ∈ gate_dispatch g → dp_dispatch_id x = d → x ∈ gate_dispatch g2.
Proof using Hg Hg1 Hask.
  intros Hn He Hx Hxd.
  pose proof (wp_result _ _ _ _ _ _ (expire_wp g1 Hg1 now) He) as (_ & -> & _).
  destruct (due_once g1 Hg1 now) as (_ & Hslots & _).
  set (due := select_where (is_due now) (round_question g1)) in *. unfold after_expiry. tables.
  destruct (asked_row _ _ _ _ _ _ Hask) as (row & Hrow & Hrid & Hds & Hin & Hqi & Hqd).
  assert (x = row) as ->
    by (apply (NoDup_key_eq dp_dispatch_id (gate_dispatch g)); [apply Hg|done..|congruence]).
  apply list_elem_of_fmap. exists (set_dispatch_state AWAITING_ANSWER row). split.
  - assert (suspending (dp_state row) q ∈ due) as Hdue.
    { apply elem_of_select. split; [|done]. destruct Hask as (_ & _ & _ & _ & _ & Ho & Hu & _).
      unfold is_due. apply andb_true_iff. split; [exact Ho|]. apply Z.leb_le. simpl. lia. }
    unfold release_with. rewrite (list_filter_iff _ (λ y, is_id rq_dispatch_id
      (rq_dispatch_id (suspending (dp_state row) q)) y = true))
      by (intros y; rewrite is_id_true; simpl; rewrite Hqd; by rewrite Hrid).
    change (filter _ due) with
      (select_where (is_id rq_dispatch_id (rq_dispatch_id (suspending (dp_state row) q))) due).
    rewrite select_key by done. simpl. by destruct row.
  - rewrite Hds. apply list_elem_of_fmap. exists row. split; [|done].
    by rewrite (proj2 (is_id_true dp_dispatch_id d row) Hrid).
Qed.
End UndoBoth.

(** A suspension is undone exactly.  An ask that was not a replay suspends
    its dispatch and remembers the state it was in; when the answer has been
    recorded and received, the table of dispatches is, row for row, what it was
    before the ask; and when instead the question expires, the dispatch is.  So a
    [PREPARED] lane comes back [PREPARED]. *)
Theorem suspension_is_undone g i d r k owner epoch kind ref text opts blocking at_ until schema def q g1 :
  gate_ok g → validate_ask blocking def text at_ until = Returned () →
  ask_question i d r k owner epoch kind ref text opts blocking at_ until schema def g
    = (g1, Returned (q, false)) →
  (∀ e words by_ k' conv ep now t q2 a g2 g3,
     answer_question e i words by_ k' conv ep now g1 = (g2, Returned (q2, a)) →
     mark_answer_consumed (qa_answer_event_id a) t g2 = (g3, Returned ()) →
     gate_dispatch g3 = gate_dispatch g)
  ∧ (∀ now expired g2 x, until <= now → expire_due_questions now g1 = (g2, Returned expired) →
       x ∈ gate_dispatch g → dp_dispatch_id x = d → x ∈ gate_dispatch g2).
Proof.
  intros Hg Hv Ha.
  pose proof (refines_ok _ _ _ _ Hg (refine_ask g Hg _ _ _ _ _ _ _ _ _ _ _ _ _ _ _ _ Hv) Ha) as Hg1.
  apply ask_inv in Ha. split.
  - intros. by eapply (undone_by_receipt g g1 Hg Hg1).
  - intros. by eapply (undone_by_expiry g g1 Hg Hg1).
Qed.

(** A receipt releases whatever its dispatch is waiting for.
    [mark_answer_consumed] does not look whether the answer was received before,
    nor whether the dispatch has asked something else since: when a receipt is
    retried (or comes late) while a newer question of the same dispatch is open,
    the dispatch leaves [AWAITING_ANSWER] and takes the state the OLD question
    had suspended, although the newer question is still open. *)
Theorem retried_receipt_releases g a q1 q2 d now :
  gate_ok g → a ∈ question_answer g → q1 ∈ round_question g → RoundQuestion_valid q1 = true →
  rq_question_id q1 = qa_question_id a →
  q2 ∈ round_question g → q_open q2 = true → rq_dispatch_id q2 = rq_dispatch_id q1 →
  d ∈ gate_dispatch g → dp_dispatch_id d = rq_dispatch_id q1 → dp_state d = AWAITING_ANSWER →
  ∃ g', mark_answer_consumed (qa_answer_event_id a) now g = (g', Returned ())
    ∧ q2 ∈ round_question g'
    ∧ ∀ x, x ∈ gate_dispatch g' → dp_dispatch_id x = rq_dispatch_id q2 →
           x = set_dispatch_state (_restored_state q1) d.
Proof.
  intros Hg Ha Hq1 Hv Hid Hq2 Ho Hslot Hd Hdid Hst.
  pose proof (gk_questions _ Hg) as Hok.
  assert (q2 ≠ q1) as Hne.
  { intros ->. assert ((qa_answer_event_id a, qa_question_id a)
      ∈ (λ a, (qa_answer_event_id a, qa_question_id a)) <$> question_answer g) as Hin
      by (by apply (list_elem_of_fmap_2 (λ a, (qa_answer_event_id a, qa_question_id a)))).
    apply (qo_answers _ _ _ _ _ Hok) in Hin as (x & Hx & Hxi & Hxe).
    assert (x = q1) as -> by (apply (NoDup_key_eq rq_question_id (round_question g)); [apply Hok|done..|congruence]).
    apply (open_not_answered q1 Ho), (qk_answered _ (qo_rows _ _ _ _ _ Hok q1 Hq1)). by rewrite Hxe. }
  set (g' := set_dispatches (update_where (awaiting (rq_dispatch_id q1))
                (set_dispatch_state (_restored_state q1)) (gate_dispatch g))
      (set_questions (at_key rq_question_id (rq_question_id q1) (set_consumed now) (round_question g))
        (set_deliveries (at_key ad_answer_event_id (qa_answer_event_id a) (consumed now)
                           (answer_delivery_intent g)) g))).
  assert (head (select_where (is_id rq_question_id (rq_question_id q1))
    (at_key rq_question_id (rq_question_id q1) (set_consumed now) (round_question g)))
    = Some (set_consumed now q1)) as Hread.
  { apply (select_key rq_question_id _ (set_consumed now q1)).
    - unfold at_key. rewrite column_update; [apply Hok|done].
    - apply elem_of_update. exists q1. split; [done|].
      by rewrite (proj2 (is_id_true rq_question_id _ q1) eq_refl). }
  exists g'. split_and!.
  - apply wp_returns. unfold mark_answer_consumed, release_dispatch. repeat txn_step; tables.
    all: rewrite (select_key qa_answer_event_id) in H by (done || apply Hok); simplify_eq/=.
    all: rewrite <- Hid in *; unfold at_key in Hread; rewrite Hread in H0; simplify_eq/=.
    all: change (_row_to_question (set_consumed now q1))
      with (construct (λ _, RoundQuestion_valid q1) "RoundQuestion" (set_consumed now q1)) in H1;
      unfold construct in H1; rewrite Hv in H1; simplify_eq/=. done.
  - unfold g'. tables. apply elem_of_update. exists q2. split; [done|].
    destruct (is_id rq_question_id (rq_question_id q1) q2) eqn:E; [|done].
    apply (at_key_row rq_question_id (round_question g)) in E; [done|apply Hok|done..].
  - unfold g'. tables. intros x (y & Hy & ->)%elem_of_update Hx.
    assert (dp_dispatch_id y = rq_dispatch_id q1) as Hyd by (by destruct (awaiting _ y); rewrite <- Hslot).
    assert (y = d) as -> by (apply (NoDup_key_eq dp_dispatch_id (gate_dispatch g)); [apply Hg|done..|congruence]).
    unfold awaiting, is_id. by rewrite !bool_decide_eq_true_2.
Qed.

(** A claim over a conversation that owns no run is not fenced.  The highest
    epoch [claim_ownership] compares with is read from [gate_run] alone; when the
    outgoing conversation owns questions only, any epoch is accepted, and every
    open question of it is handed over with that epoch, even one below the
    epoch it already had. *)
Theorem roundless_claim_is_unfenced g i now prior new epoch k by_ :
  gate_ok g → (∀ x, x ∈ gate_run g → owned_by prior x = false) →
  i ∉ ot_transfer_id <$> ownership_transfer g → k ∉ ot_client_request_id <$> ownership_transfer g →
  ∃ g' n, claim_ownership i now prior new epoch None k by_ g
      = (g', Returned {| co_accepted := true; co_runs_rewritten := 0; co_questions_rewritten := n;
                         co_transfer_id := Some i |})
    ∧ gate_run g' = gate_run g
    ∧ ∀ q, q ∈ round_question g → q_open q = true → rq_owner_conversation q = prior →
           set_owner new epoch q ∈ round_question g'.
Proof.
  intros Hg Hnone Hi Hk.
  assert (∀ p, (∀ x, x ∈ gate_run g → p x = false) → rowcount p (gate_run g) = 0%nat) as Hrc.
  { intros p Hp. unfold rowcount, select_where. rewrite filter_none; [done|].
    intros x Hx. by rewrite Hp. }
  assert (select_where (owned_by prior) (gate_run g) = []) as Hno.
  { apply filter_none. intros x Hx. by rewrite Hnone. }
  assert (∀ x, x ∈ gate_run g → claimed_run prior None x = false) as Hcl.
  { intros x Hx. unfold claimed_run. by rewrite Hnone. }
  eexists _, _. split_and!.
  - apply wp_returns. unfold claim_ownership. repeat txn_step; tables.
    + rewrite select_no_key in H by done. done.
    + unfold highest_epoch in Heqb. by rewrite Hno in Heqb.
    + split; [|reflexivity]. rewrite Hrc by done. reflexivity.
    + apply existsb_exists in H0 as (x & Hx%list_elem_of_In & [He|He]%orb_true_iff);
        apply is_id_true in He; simpl in He; [apply Hi|apply Hk]; rewrite <- He;
        by apply list_elem_of_fmap_2.
  - tables. by apply update_where_none.
  - tables. intros q Hq Ho <-. apply elem_of_update. exists q. split; [done|].
    unfold claimed_question. rewrite Ho, (proj2 (is_id_true _ _ q) eq_refl). done.
Qed.

(** ** Findings *)

Section Poison.
Context (g : gate) (Hg : gate_ok g) (b : finding_base).
Context (Hb : b ∈ gate_open_finding g) (Hempty : fb_statement b = ""%string).

Lemma poisoned_load :
  _load_finding_locked (fb_finding_id b) g = (g, Raised (ValueError "OpenFinding")).
Proof using All.
  apply wp_raises. unfold _load_finding_locked. repeat txn_step; try done.
  all: rewrite (select_key fb_finding_id) in H by (done || apply Hg); simplify_eq.
  all: unfold construct, OpenFinding_valid in H0; simpl in H0; rewrite Hempty in H0;
    rewrite andb_false_r in H0; simplify_eq.
  done.
Qed.

Lemma poisoned_findings :
  wp (open_findings_for_run (fb_run_id b)) g (λ _ _, False)
    (λ e s, e = ValueError "OpenFinding" ∧ s = g).
Proof using All.
  unfold open_findings_for_run. repeat (txn_step; unfold on_open_findings).
  match goal with |- wp (for_each ?rows _ _) _ _ _ => assert (b ∈ rows) as Hin end.
  { rewrite merge_sort_Permutation. apply elem_of_select. split; [|done]. by apply is_id_true. }
  apply (wp_for_each _ (λ rest _ s, s = g ∧ b ∈ rest ∧ ∀ y, y ∈ rest → y ∈ gate_open_finding g)).
  - intros x rest acc s (-> & Hx & Hsub). destruct (decide (fb_finding_id x = fb_finding_id b)) as [He|He].
    + rewrite He. unfold wp. by rewrite (bind_raised _ _ _ _ _ poisoned_load).
    + apply elem_of_cons in Hx as [->|Hx]; [done|]. assert (x ∈ gate_open_finding g) by (apply Hsub; by left).
      unfold _load_finding_locked. repeat txn_step.
      all: rewrite (select_key fb_finding_id) in H0 by (done || apply Hg); simplify_eq.
      * split_and!; [done..|]. intros y Hy. apply Hsub. by right.
      * unfold construct in H1. case_match; by simplify_eq.
  - intros acc s (_ & Hx & _). by apply not_elem_of_nil in Hx.
  - split_and!; [done..|]. intros y. rewrite merge_sort_Permutation. by intros [_ ?]%elem_of_select.
Qed.

Lemma poisoned_close d : append_disposition (fb_finding_id b) d g = (g, Raised (ValueError "OpenFinding")) ∨
  ∃ w, append_disposition (fb_finding_id b) d g = (g, Raised (IntegrityError w)).
Proof using All.
  assert (wp (append_disposition (fb_finding_id b) d) g (λ _ _, False)
    (λ e s, s = g ∧ (e = ValueError "OpenFinding" ∨ ∃ w, e = IntegrityError w))) as H.
  { unfold append_disposition, _load_finding_locked. repeat txn_step; tables.
    all: rewrite (select_key fb_finding_id) in H by (done || apply Hg); simplify_eq.
    all: try (rewrite (select_key fb_finding_id) in H1 by (done || apply Hg); simplify_eq).
    - unfold construct, OpenFinding_valid in H2. simpl in H2. rewrite Hempty, andb_false_r in H2. done.
    - unfold construct, OpenFinding_valid in H2. simpl in H2. rewrite Hempty, andb_false_r in H2.
      simplify_eq. split; [done|by left].
    - split; [done|right; by eexists]. }
  unfold wp in H. destruct (append_disposition _ d g) as [s [?|e]]; [done|].
  destruct H as [-> [->|[w ->]]]; [by left|right; by exists w].
Qed.
End Poison.

(** A conversion reads nothing but its row. *)
Lemma wp_convert_rows {A R} (convert : R → outcome A) rows (g : gate) Q E :
  (∀ l, Q l g) → (∀ e, E e g) → wp (convert_rows convert rows) g Q E.
Proof.
  intros HQ HE. apply (wp_for_each _ (λ _ _ s, s = g)); [|by intros acc s ->|done].
  intros x xs acc s ->. repeat txn_step; auto.
Qed.

Lemma poisoned_projection g b r :
  gate_ok g → b ∈ gate_open_finding g → fb_statement b = ""%string →
  r ∈ gate_round g → gr_run_id r = fb_run_id b → fb_run_id b ∈ run_id_of <$> gate_run g →
  wp (project_round (gr_round_id r)) g (λ _ _, False) (λ _ s, s = g).
Proof.
  intros Hg Hb He Hr Hrun (x & Hx & Hxin)%list_elem_of_fmap. unfold project_round, get_run, optional_row.
  repeat (txn_step; unfold on_dispatches, on_intents, on_results, on_coverages, on_questions); try done.
  all: try (rewrite (select_key gr_round_id) in H by (done || apply Hg); simplify_eq).
  all: try (apply construct_Returned in H0 as [-> _]).
  all: try (rewrite Hrun, Hx in *; rewrite (select_key run_id_of) in H1 by (done || apply Hg); done).
  all: apply wp_convert_rows; [intros ?|done]; repeat (txn_step; unfold on_intents, on_results).
  all: apply wp_convert_rows; [intros ?|done]; repeat (txn_step; unfold on_intents, on_results).
  all: apply (wp_for_each _ (λ _ _ s, s = g)); [| |done].
  all: try (intros ? ? ? ? ->; repeat (txn_step; unfold on_results); done).
  all: intros ? ? ->; apply wp_bind; rewrite Hrun; eapply wp_mono; [by apply poisoned_findings|done|].
  all: by intros ? ? [_ ->].
Qed.

Lemma findings_grow ops g b :
  gate_ok g → b ∈ gate_open_finding g → b ∈ gate_open_finding (gruns ops g).
Proof.
  intros Hg Hb.
  destruct (follow_run gate_open_finding eq ops g) with (r := b) as (b' & Hb' & <-); [|done..].
  clear. intros recorded g g' Hg Ht x Hx. exists x. split; [|done].
  destruct (gtrans_history recorded g g' Ht) as (_ & [l ->] & _). apply elem_of_app. by left.
Qed.

(** A finding with an empty statement poisons its run.  [raise_finding]
    commits the row and only then builds the [OpenFinding], whose constructor
    refuses an empty statement: the caller sees a [ValueError], the row stays.
    From then on, whatever happens, listing the open findings of that run and
    projecting any of its rounds raise, and the finding can never be closed. *)
Theorem empty_statement_poisons_run g r i now sev ops :
  gate_ok g → r ∈ gate_round g → gr_run_id r ∈ run_id_of <$> gate_run g →
  i ∉ fb_finding_id <$> gate_open_finding g →
  let b := {| fb_finding_id := i; fb_raised_in_round := gr_round_id r; fb_run_id := gr_run_id r;
              fb_severity := sev; fb_statement := ""; fb_created_at := now |} in
  let g1 := set_open_findings (gate_open_finding g ++ [b]) g in
  let g' := gruns ops g1 in
  raise_finding i now (gr_round_id r) sev "" g = (g1, Raised (ValueError "OpenFinding"))
  ∧ open_findings_for_run (gr_run_id r) g' = (g', Raised (ValueError "OpenFinding"))
  ∧ (∀ x, x ∈ gate_round g' → gr_run_id x = gr_run_id r →
       ∃ e, project_round (gr_round_id x) g' = (g', Raised e))
  ∧ ∀ d, ∃ e, append_disposition i d g' = (g', Raised e).
Proof.
  intros Hg Hr Hrun Hi b g1 g'.
  assert (raise_finding i now (gr_round_id r) sev "" g = (g1, Raised (ValueError "OpenFinding"))) as Hraise.
  { apply wp_raises. unfold raise_finding. repeat txn_step; tables; try done.
    all: try rewrite (select_key gr_round_id) in H by (done || apply Hg); simplify_eq/=.
    - unfold construct, OpenFinding_valid in H1. simpl in H1. by rewrite andb_false_r in H1.
    - unfold construct, OpenFinding_valid in H1. simpl in H1. rewrite andb_false_r in H1. by simplify_eq.
    - by apply is_key in H0. }
  assert (gate_ok g1) as Hg1.
  { eapply gtrans_ok; [done|]. apply (T_finding None g b); [by exists r|done]. }
  pose proof (gruns_ok ops g1 Hg1 : gate_ok g') as Hg'.
  assert (b ∈ gate_open_finding g') as Hb.
  { apply findings_grow; [done|]. apply elem_of_app. right. by left. }
  split_and!; [done|..].
  - pose proof (poisoned_findings g' Hg' b Hb eq_refl) as Hp. unfold wp in Hp.
    change (fb_run_id b) with (gr_run_id r) in Hp.
    destruct (open_findings_for_run _ g') as [? []]; [done|by destruct Hp as [-> ->]].
  - intros x Hx Hxr. apply list_elem_of_fmap in Hrun as (y & Hy & Hyin).
    destruct (follow_runs ops g1 Hg1 y Hyin) as (y' & Hy' & Hid & _). fold g' in Hy'.
    assert (wp (project_round (gr_round_id x)) g' (λ _ _, False) (λ _ s, s = g')) as Hp.
    { apply (poisoned_projection g' b x); try done. apply list_elem_of_fmap. exists y'.
      split; [|done]. simpl. rewrite Hy. unfold run_id_of. by rewrite Hid. }
    unfold wp in Hp. destruct (project_round _ g') as [? []]; [done|]. subst. by eexists.
  - intros d. destruct (poisoned_close g' Hg' b Hb eq_refl d) as [Hp|[w Hp]]; by eexists.
Qed.
