(* ===== verification/GateDesk.v ===== *)
(** * The gate's services as a whole

    [command] is one call of [GateRoundService] or [GateQuestionService].  What a
    command does to the record is a sequence of transactions; with that, what
    every sequence of commands keeps, and the bound on the rounds of a run. *)

From S2P Require Import Prelude Chars Gate GateRows GateStore GateRender GateService GateLife Wp GateExec GateInv GateThms GateCommands.
Import SqliteGateStore.

(** ** One command *)

Inductive command :=
| COpenRun (new_id : string) (now : Z) (wp lane owner : string) (epoch max_rounds : Z)
    (workflow_source_sha input_sha : string)
| COpenRound (new_id : string) (now : Z) (run_id : string) (build_inputs : ArtifactManifest)
    (target : ExecutionTarget) (predecessor : option string) (test_command evidence_tier : string)
    (generation : Z)
| CFreeze (round_id : string) (snapshot : ArtifactManifest)
| CAdjudicate (now : Z) (round_id : string)
| CSettle (now : Z) (round_id : string) (verdict_yes : bool)
    (subject_sha report_bytes_sha verdict_report_sha : string)
| CAccept (round_id subject_sha report_bytes_sha cas_sha : string)
| CAbandon (run_id : string)
| CClose (run_id : string) (verdict_yes : bool)
| CDispatch (d : Dispatch)
| CIntent (i : EffectIntent)
| CResult (r : EffectResult)
| CRaise (new_id : string) (now : Z) (round_id : string) (severity : Severity) (statement : string)
| CCloseFinding (finding_id : string) (d : Disposition)
| CCoverage (round_id : string) (c : ConsumerCoverage)
| CClaim (new_id : string) (now : Z) (prior new_conversation : string) (epoch : Z)
    (client_request_id claimed_by : string) (run_id : option string)
| CProject (round_id : string)
| CEffective (run_id : string)
| CAsk (new_id : string) (now settled_at : Z) (dispatch_id question client_request_id owner : string)
    (epoch : Z) (round_id : option string) (options : list string) (blocking : bool)
    (expires_in_s : Z) (kind : ContinuationKind) (ref : string)
    (schema default_answer position : option string)
| CAnswer (new_id : string) (now : Z) (question_id answer answered_by client_request_id conversation : string)
    (epoch : Z)
| CEscalate (now settled_at : Z) (question_id : string)
| CConsume (now : Z) (answer_event_id : string)
| CSweep (now : Z) (settled_at : string → Z)
| CListOpen (owner : option string) (states : list QuestionState) (round_id : option string) (limit : Z)
| CIsSuspended (dispatch_id : string).

(** A model object handed to a service has passed its constructor. *)
Definition given {A} (valid : A → bool) (model : string) (a : A) : M gate A :=
  lift_outcome (construct valid model a).

Section Run.
Context (notifier : option (list notice_call → notice_call → outcome (option string))).
Context (repr : exn → string).
Import GateRoundService GateQuestionService.

Definition run_command (c : command) : M desk () :=
  match c with
  | COpenRun i now wp lane owner epoch max src inp =>
      on_gate (GateRoundService.open_run i now wp lane owner epoch max src inp) ;; mret ()
  | COpenRound i now run_id m target pred tc tier gen =>
      on_gate (GateRoundService.open_round i now run_id m target pred tc tier gen) ;; mret ()
  | CFreeze i m => on_gate (given ArtifactManifest_valid "ArtifactManifest" m ;;
                            GateRoundService.freeze_review_snapshot i m) ;; mret ()
  | CAdjudicate now i => on_gate (begin_adjudication now i) ;; mret ()
  | CSettle now i yes s r v => on_gate (settle_adjudication now i yes s r v) ;; mret ()
  | CAccept i s r cas => on_gate (accept_round i s r cas)
  | CAbandon i => on_gate (abandon_run i) ;; mret ()
  | CClose i yes => on_gate (close_run i yes) ;; mret ()
  | CDispatch d => on_gate (given Dispatch_valid "Dispatch" d ;;
                            GateRoundService.record_dispatch d) ;; mret ()
  | CIntent i => on_gate (given EffectIntent_valid "EffectIntent" i ;;
                          GateRoundService.record_effect_intent i) ;; mret ()
  | CResult r => on_gate (given EffectResult_valid "EffectResult" r ;;
                          GateRoundService.record_effect_result r) ;; mret ()
  | CRaise i now r sev st => on_gate (GateRoundService.raise_finding i now r sev st) ;; mret ()
  | CCloseFinding i d => on_gate (close_finding i d) ;; mret ()
  | CCoverage i c => on_gate (given ConsumerCoverage_valid "ConsumerCoverage" c ;;
                              GateRoundService.set_consumer_coverage i c)
  | CClaim i now prior new epoch k by_ run_id =>
      on_gate (GateRoundService.claim_ownership i now prior new epoch k by_ run_id) ;; mret ()
  | CProject i => on_gate (GateRoundService.project_round i) ;; mret ()
  | CEffective i => on_gate (run_effective_state i) ;; mret ()
  | CAsk i now settled d q k owner epoch r opts blocking secs kind ref schema def pos =>
      ask notifier repr i now settled d q k owner epoch r opts blocking secs kind ref schema def pos ;;
      mret ()
  | CAnswer i now q a by_ k conv epoch => answer i now q a by_ k conv epoch ;; mret ()
  | CEscalate now settled q => escalate notifier repr now settled q ;; mret ()
  | CConsume now a => consume_answer now a
  | CSweep now settled => sweep_expired notifier repr now settled ;; mret ()
  | CListOpen owner states r limit => on_gate (list_open owner states r limit) ;; mret ()
  | CIsSuspended d => on_gate (is_suspended d) ;; mret ()
  end.

Definition run_commands (cs : list command) (d : desk) : desk :=
  foldl (λ d c, state_of (run_command c d)) d cs.
End Run.

(** ** A command is a sequence of transactions *)

(** [m] leaves the record alone. *)
Definition reads {A} (m : M gate A) : Prop := ∀ g, wp m g (λ _ s, s = g) (λ _ s, s = g).

(** [g'] is [g] after transactions that all satisfy [P]. *)
Definition after_some (P : gop → Prop) (g g' : gate) : Prop := ∃ ops, Forall P ops ∧ g' = gruns ops g.

#[export] Instance after_some_preorder P : PreOrder (after_some P).
Proof.
  split; [by intros g; exists []|].
  intros a b c (l1 & H1 & ->) (l2 & H2 & ->). exists (l1 ++ l2). split; [by apply Forall_app|].
  unfold gruns. by rewrite foldl_app.
Qed.

Lemma state_of_then {S A} (m : M S A) s : state_of ((m ;; mret ()) s) = state_of (m s).
Proof. unfold state_of, mbind, M_bind. by destruct (m s) as [? []]. Qed.

Section Traces.
Context (P : gop → Prop).

Lemma keeps_op {A} (o : gop) (m : M gate A) :
  P o → (∀ g, state_of (gexec o g) = state_of (m g)) → keeps (after_some P) m.
Proof using Type.
  intros Ho Hm g. exists [o]. split; [by constructor|].
  transitivity (state_of (m g)); [done|by rewrite <- Hm].
Qed.

Lemma keeps_read {A} (m : M gate A) : reads m → keeps (after_some P) m.
Proof using Type.
  intros Hm g. specialize (Hm g). unfold wp in Hm. exists []. split; [done|].
  by destruct (m g) as [? []]; subst.
Qed.

(** A checked object stores as itself. *)
Lemma keeps_given {A B} (valid : A → bool) model a (m : M gate B) o :
  P o → (∀ g, valid a = true → state_of (gexec o g) = state_of (m g)) →
  keeps (after_some P) (given valid model a ;; m).
Proof using Type.
  intros Ho Hm g. unfold given, construct. destruct (valid a) eqn:E.
  - exists [o]. split; [by constructor|]. transitivity (state_of (m g)); [done|]. symmetry. by apply Hm.
  - exists []. by split.
Qed.
End Traces.

(** ** The queries *)

Lemma reads_convert {A R} (convert : R → outcome A) rows : reads (convert_rows convert rows).
Proof. intros g. by apply wp_convert_rows. Qed.

Lemma reads_for_each {A B} (xs : list A) (acc : B) (body : B → A → M gate B) :
  (∀ acc x, reads (body acc x)) → reads (for_each xs acc body).
Proof.
  intros Hb g. apply (wp_for_each _ (λ _ _ s, s = g)); [|by intros acc' s ->|done].
  intros x rest acc' s ->. by apply Hb.
Qed.

Lemma reads_then {A B} (m : M gate A) (f : A → M gate B) :
  reads m → (∀ a, reads (f a)) → reads (m ≫= f).
Proof. intros Hm Hf g. apply wp_bind. eapply wp_mono; [apply Hm| |done]. intros a s ->. apply Hf. Qed.

Create HintDb reads.
#[local] Hint Resolve reads_convert : reads.

(** A SELECT, whatever follows. *)
Ltac reads_step := lazymatch goal with
  | |- reads (mbind _ _) => apply reads_then; [|intros ?]
  | |- reads (match ?x with _ => _ end) => destruct x
  | |- reads (for_each _ _ _) => apply reads_for_each; intros ? ?
  | |- reads (optional_row _ ?x) => unfold optional_row
  | |- _ => solve [auto with reads | intros ?; repeat txn_step; done]
  end.
Ltac reads := repeat reads_step.

Lemma reads_get_round i : reads (get_round i).
Proof. unfold get_round. reads. Qed.
Lemma reads_get_run i : reads (get_run i).
Proof. unfold get_run. reads. Qed.
#[local] Hint Resolve reads_get_round reads_get_run : reads.

Lemma reads_require_round i : reads (GateRoundService._require_round i).
Proof. unfold GateRoundService._require_round. reads. Qed.
Lemma reads_require_run i : reads (GateRoundService.require_run i).
Proof. unfold GateRoundService.require_run. reads. Qed.
Lemma reads_rounds_for_run i : reads (rounds_for_run i).
Proof. unfold rounds_for_run. reads. Qed.
Lemma reads_findings i : reads (open_findings_for_run i).
Proof. unfold open_findings_for_run, _load_finding_locked. reads. Qed.
#[local] Hint Resolve reads_require_round reads_require_run reads_rounds_for_run reads_findings : reads.

Lemma reads_project_round i : reads (project_round i).
Proof. unfold project_round. reads. Qed.
#[local] Hint Resolve reads_project_round : reads.

Lemma reads_may_open_round i : reads (GateRoundService.may_open_round i).
Proof. unfold GateRoundService.may_open_round. reads. Qed.
Lemma reads_effective i : reads (GateRoundService.run_effective_state i).
Proof. unfold GateRoundService.run_effective_state, GateRoundService.project_round. reads. Qed.
Lemma reads_accept i s r cas : reads (GateRoundService.accept_round i s r cas).
Proof. unfold GateRoundService.accept_round. reads. Qed.
Lemma reads_identity q : reads (GateQuestionService._identity q).
Proof. unfold GateQuestionService._identity. reads. Qed.
Lemma reads_list_open owner states r limit : reads (GateQuestionService.list_open owner states r limit).
Proof. unfold GateQuestionService.list_open, questions_for_owner. reads. Qed.
Lemma reads_suspended d : reads (GateQuestionService.is_suspended d).
Proof. unfold GateQuestionService.is_suspended, open_question_for_dispatch. reads. Qed.
#[local] Hint Resolve reads_may_open_round reads_effective reads_accept reads_identity
  reads_list_open reads_suspended : reads.

(** ** What each command runs *)

Lemma keeps_raised {S A B} (R : relation S) `{!PreOrder R} e (f : A → M S B) :
  keeps R (lift_outcome (Raised e) ≫= f).
Proof. intros s. reflexivity. Qed.

Lemma keeps_passed {S A B} (R : relation S) a (f : A → M S B) :
  keeps R (f a) → keeps R (lift_outcome (Returned a) ≫= f).
Proof. intros H s. apply H. Qed.

Section Commands.
Context (notifier : option (list notice_call → notice_call → outcome (option string))).
Context (repr : exn → string) (P : gop → Prop).

Definition desk_after (d d' : desk) : Prop := after_some P (dk_gate d) (dk_gate d').
#[export] Instance desk_after_preorder : PreOrder desk_after.
Proof using Type.
  unfold desk_after. split; [by intros d|]. intros a b c H1 H2. by etrans.
Qed.

Lemma desk_on_gate {A} (m : M gate A) : keeps (after_some P) m → keeps desk_after (on_gate m).
Proof using Type. apply keeps_zoom. by intros t s. Qed.

(** The transactions only [open_round] opens rounds with. *)
Definition opens_round (o : gop) : Prop := match o with GOpenRound _ _ _ _ _ _ _ _ _ => True | _ => False end.
Context (HP : ∀ o, ¬ opens_round o → P o).

Ltac one_op o := apply (keeps_op P o); [apply HP; simpl; tauto|intros ?; unfold gexec; by rewrite ?state_of_then].

Lemma keeps_notify settled q kind : keeps desk_after (GateQuestionService._notify notifier repr settled q kind).
Proof using HP.
  unfold GateQuestionService._notify. destruct notifier as [f|]; [|eauto with cao].
  apply keeps_bind; [apply _|apply desk_on_gate, keeps_read, reads_identity|intros who].
  apply keeps_bind; [apply _|eauto with cao|intros e].
  apply keeps_bind; [apply _| |intros [[m|]|x]]; try apply desk_on_gate.
  - apply keeps_catch; [apply _| |intros; by apply keeps_ret, _].
    apply keeps_bind; [apply _| |intros; by apply keeps_ret, _]. intros d. by exists [].
  - one_op (GNoticeSent (rq_question_id q) m settled).
  - one_op (GNoticeFailed (rq_question_id q) "notifier returned no id").
  - one_op (GNoticeFailed (rq_question_id q) (repr x)).
Qed.

(** Checks and queries, then the transaction itself. *)
Ltac checks := repeat lazymatch goal with
  | |- keeps _ (lift_outcome _ ;; _) => apply keeps_bind; [apply _|by eauto with cao|intros ?]
  | |- keeps _ (?m ≫= _) => apply keeps_bind; [apply _|by apply keeps_read; eauto with reads|intros ?]
  | |- keeps _ (match ?x with _ => _ end) => destruct x; try by eauto with cao
  end.
Ltac given_op o := apply (keeps_given P _ _ _ _ o); [apply HP; simpl; tauto|intros ? Hvalid;
  unfold gexec, construct; rewrite Hvalid; apply state_of_then || reflexivity].
Ltac query := apply keeps_read; auto with reads.

Lemma keeps_ask i now settled d q k owner epoch r opts blocking secs kind ref schema def pos :
  keeps desk_after (GateQuestionService.ask notifier repr i now settled d q k owner epoch r opts blocking
    secs kind ref schema def pos).
Proof using HP.
  unfold GateQuestionService.ask.
  destruct (validate_ask blocking def q now (now + GateQuestionService.seconds secs)) as [u|e] eqn:Hv;
    [|apply keeps_raised, _].
  apply keeps_passed, keeps_bind; [apply _| |intros _; apply keeps_bind; [apply _| |intros [record [|]]]].
  - destruct pos as [pos|]; [|by eauto with cao]. apply desk_on_gate.
    unfold GateQuestionService._ensure_dispatch.
    match goal with |- keeps _ (lift_outcome (construct ?v ?w ?x) ≫= _) =>
      destruct (construct v w x) as [y|] eqn:E; [|apply keeps_raised, _] end.
    pose proof E as [-> _]%construct_Returned. apply keeps_passed.
    match goal with |- keeps _ (ensure_dispatch ?x ≫= _) => apply (keeps_op P (GEnsure x)) end;
      [apply HP; simpl; tauto|intros g; unfold gexec; by rewrite E].
  - apply desk_on_gate. match goal with |- keeps _ (ask_question _ _ _ _ _ _ _ ?ref _ _ _ _ _ _ _) =>
      apply (keeps_op P (GAsk i d r k owner epoch kind ref q opts blocking now
        (now + GateQuestionService.seconds secs) schema def)) end;
      [apply HP; simpl; tauto|intros g; unfold gexec; rewrite Hv; apply state_of_then].
  - by eauto with cao.
  - apply keeps_bind; [apply _|apply keeps_notify|by eauto with cao].
Qed.

Lemma keeps_commands c :
  (∀ i now r m t p tc tier gen, c ≠ COpenRound i now r m t p tc tier gen) →
  keeps desk_after (run_command notifier repr c).
Proof using HP.
  intros Hc. destruct c; simpl; try (apply keeps_bind; [apply _| |intros; apply keeps_ret; apply _]);
    try apply desk_on_gate.
  - unfold GateRoundService.open_run. checks.
    one_op (GOpenRun new_id now wp lane owner epoch max_rounds workflow_source_sha input_sha).
  - by edestruct Hc.
  - unfold given. destruct (construct _ _ snapshot) as [y|] eqn:E; [|apply keeps_raised, _].
    apply keeps_passed. unfold GateRoundService.freeze_review_snapshot. checks.
    apply (keeps_op P (GFreeze round_id snapshot (gr_row_version a)));
      [apply HP; simpl; tauto|intros g; unfold gexec; rewrite E; apply state_of_then].
  - unfold GateRoundService.begin_adjudication. checks.
    one_op (GAdjudicate round_id (gr_row_version a) now).
  - unfold GateRoundService.settle_adjudication. checks.
    apply keeps_bind; [apply _|one_op (GReport round_id subject_sha report_bytes_sha verdict_report_sha (gr_row_version a))|intros stamped].
    one_op (GSettle round_id verdict_yes (gr_row_version stamped) now).
  - query.
  - unfold GateRoundService.abandon_run. checks. one_op (GAbandon run_id (rn_row_version a)).
  - unfold GateRoundService.close_run. checks. one_op (GClose run_id verdict_yes (rn_row_version a)).
  - given_op (GDispatch d).
  - given_op (GIntent i).
  - given_op (GResult r).
  - one_op (GRaise new_id now round_id severity statement).
  - unfold GateRoundService.close_finding.
    destruct (validate_disposition d) as [y|] eqn:E; [apply keeps_passed|apply keeps_raised, _].
    apply (keeps_op P (GCloseFinding finding_id d));
      [apply HP; simpl; tauto|intros g; unfold gexec; rewrite E; apply state_of_then].
  - given_op (GCoverage round_id c).
  - one_op (GClaim new_id now prior new_conversation epoch run_id client_request_id claimed_by).
  - apply keeps_read, reads_project_round.
  - query.
  - apply keeps_ask.
  - unfold GateQuestionService.answer.
    one_op (GAnswer new_id question_id answer answered_by client_request_id conversation epoch now).
  - unfold GateQuestionService.escalate.
    apply keeps_bind; [apply _|apply desk_on_gate; one_op (GEscalate question_id now)|intros].
    apply keeps_bind; [apply _|apply keeps_notify|by eauto with cao].
  - unfold GateQuestionService.consume_answer. one_op (GConsume answer_event_id now).
  - unfold GateQuestionService.sweep_expired.
    apply keeps_bind; [apply _|apply desk_on_gate; one_op (GExpire now)|intros].
    apply keeps_bind; [apply _| |by eauto with cao].
    apply keeps_for_each; [apply _|]. intros. apply keeps_notify.
  - query.
  - query.
Qed.
End Commands.

Lemma keeps_open_round notifier repr i now run_id m t p tc tier gen :
  keeps (desk_after (λ _, True)) (run_command notifier repr (COpenRound i now run_id m t p tc tier gen)).
Proof.
  simpl. apply keeps_bind; [apply _| |intros; apply keeps_ret; apply _]. apply desk_on_gate.
  unfold GateRoundService.open_round. apply keeps_bind; [apply _|apply keeps_read, reads_may_open_round|intros _].
  apply (keeps_op _ (GOpenRound i now run_id m t p tc tier gen)); [done|]. intros g. apply state_of_then.
Qed.

Lemma keeps_command notifier repr c : keeps (desk_after (λ _, True)) (run_command notifier repr c).
Proof. destruct c; try (by apply keeps_commands). apply keeps_open_round. Qed.

(** Every command of the two services, whatever it is given and however it
    ends, changes the record only through transactions of the store: its effect
    is that of some finite sequence of them.  So any sequence of commands keeps
    the invariant, and everything proved of [gruns] holds of it, with any
    notifier and under any interleaving of the transactions of other threads. *)
Theorem commands_are_transactions notifier repr cs d :
  ∃ ops, dk_gate (run_commands notifier repr cs d) = gruns ops (dk_gate d)
    ∧ (gate_ok (dk_gate d) → gate_ok (dk_gate (run_commands notifier repr cs d))).
Proof.
  assert (desk_after (λ _, True) d (run_commands notifier repr cs d)) as (ops & _ & Ho).
  { revert d. induction cs as [|c cs IH]; intros d; [reflexivity|]. simpl.
    etrans; [apply (keeps_command notifier repr c)|apply IH]. }
  exists ops. split; [done|]. intros Hg. rewrite Ho. by apply gruns_ok.
Qed.

(** ** The bound on the rounds of a run *)

Definition rounds_of (run_id : string) (g : gate) : nat :=
  length (select_where (is_id gr_run_id run_id) (gate_round g)).

(** Every round is of a run, and no run has more rounds than it may. *)
Record bounded (g : gate) : Prop := {
  bd_runs : ∀ i, i ∈ gr_run_id <$> gate_round g → i ∈ run_id_of <$> gate_run g;
  bd_rounds : ∀ x, x ∈ gate_run g →
    Z.of_nat (rounds_of (run_id_of x) g) <= rn_max_rounds (rr_run x);
}.

Lemma rounds_of_ids i g : rounds_of i g = length (filter (λ j, j = i) (gr_run_id <$> gate_round g)).
Proof.
  unfold rounds_of, select_where. induction (gate_round g) as [|r t IH]; [done|]. cbn [fmap list_fmap].
  destruct (decide (gr_run_id r = i)) as [He|He].
  - rewrite (filter_cons_True _ r), (filter_cons_True _ (gr_run_id r)) by (done || by apply is_id_true).
    simpl. by f_equal.
  - rewrite (filter_cons_False _ r), (filter_cons_False _ (gr_run_id r)); [done..|].
    by intros ?%is_id_true.
Qed.

(** Opening a run, and every step of one, keeps the bound. *)
Lemma runs_keep_bounded t t' g g' :
  evolved run_row_step run_row_born t t' → t = gate_run g → t' = gate_run g' → runs_ok t' →
  gr_run_id <$> gate_round g' = gr_run_id <$> gate_round g → bounded g → bounded g'.
Proof.
  intros (f & news & He & Hf & Hnew) -> -> Hok Hids [Hr Hb].
  assert (∀ x, x ∈ gate_run g → run_id_of (f x) = run_id_of x
    ∧ rn_max_rounds (rr_run (f x)) = rn_max_rounds (rr_run x)) as Hsame.
  { intros x Hx. destruct (Hf x Hx) as [->|Hs]; [done|]. unfold run_row_step, run_id_of in *. by destruct Hs. }
  assert (run_id_of <$> (f <$> gate_run g) = run_id_of <$> gate_run g) as Hcol.
  { rewrite <- list_fmap_compose. apply list_fmap_ext. intros j x Hx%list_elem_of_lookup_2. simpl.
    by apply Hsame. }
  split.
  - intros i Hi. rewrite Hids in Hi. rewrite He, fmap_app, Hcol. apply elem_of_app. left. by apply Hr.
  - intros x Hx. rewrite He in Hx. apply elem_of_app in Hx as [(y & -> & Hy)%list_elem_of_fmap|Hx].
    + destruct (Hsame y Hy) as [-> ->]. rewrite rounds_of_ids, Hids, <- rounds_of_ids. by apply Hb.
    + rewrite rounds_of_ids, Hids, filter_none.
      * destruct (GateRun_valid_bounds _ (rb_valid _ (Hnew x Hx))). simpl. lia.
      * intros i Hi%Hr ->. pose proof (ro_ids _ Hok) as Hn. rewrite He, fmap_app, Hcol in Hn.
        apply NoDup_app in Hn as (_ & Hn & _). eapply Hn; [done|]. by apply list_elem_of_fmap_2.
Qed.

Lemma rounds_unopened o g :
  gate_ok g → ¬ opens_round o → gr_run_id <$> gate_round (gstep o g) = gr_run_id <$> gate_round g.
Proof.
  intros Hg Ho. unfold gstep.
  apply (wp_state (gexec o) g (λ g', gr_run_id <$> gate_round g' = gr_run_id <$> gate_round g)).
  destruct o; unfold gexec.
  2: by destruct Ho.
  18: apply wp_bind; eapply wp_mono; [by apply expire_wp|by intros ? ? (_ & -> & _)|by intros ? ? (_ & -> & _)].
  all: unfold open_run, freeze_review_snapshot, transition_round, transition_run, set_round_report,
    record_dispatch, ensure_dispatch, record_effect_intent, record_effect_result, raise_finding,
    append_disposition, _load_finding_locked, set_consumer_coverage, ask_question, answer_question,
    escalate_question, mark_notice_sent, mark_notice_failed, mark_answer_consumed, release_dispatch,
    claim_ownership; repeat txn_step; tables; try done.
  all: by apply column_update.
Qed.

(** A transaction that opens no round keeps the bound. *)
Lemma unopened_bounded g g' :
  gate_ok g → after_some (λ o, ¬ opens_round o) g g' → bounded g → bounded g'.
Proof.
  intros Hg (ops & Hops & ->). revert g Hg. induction Hops as [|o ops Ho _ IH]; intros g Hg Hb; [done|].
  simpl. apply IH; [by apply gstep_ok|].
  apply (runs_keep_bounded (gate_run g) (gate_run (gstep o g)) g (gstep o g)); try done.
  - destruct (gstep_refines o g Hg) as [->|Ht]; [apply evolved_refl|by eapply gtrans_run_lives].
  - apply (gk_runs _ (gstep_ok o g Hg)).
  - by apply rounds_unopened.
Qed.

Lemma convert_rows_ok {R} (valid : R → bool) model rows (g : gate) :
  (∀ r, r ∈ rows → valid r = true) →
  convert_rows (construct valid model) rows g = (g, Returned rows).
Proof.
  intros Hv. apply wp_returns.
  apply (wp_for_each _ (λ rest acc s, s = g ∧ rows = acc ++ rest)).
  - intros x rest acc s (-> & ->). repeat txn_step; unfold construct in *.
    all: rewrite Hv in * by (apply elem_of_app; right; by left); simplify_eq. by rewrite <- app_assoc.
  - intros acc s (-> & ->). by rewrite app_nil_r.
  - done.
Qed.

Section OpenRound.
Context (g : gate) (Hg : gate_ok g) (x : run_row) (Hx : x ∈ gate_run g).
Context (Hvalid : GateRun_valid (rr_run x) = true).

Lemma read_run : get_run (run_id_of x) g = (g, Returned (Some (rr_run x))).
Proof using All.
  apply wp_returns. unfold get_run, optional_row. repeat txn_step.
  all: change (run_is (run_id_of x)) with (is_id run_id_of (run_id_of x)) in *.
  all: rewrite (select_key run_id_of) in H by (done || apply (gk_runs _ Hg)); simplify_eq.
  all: unfold _row_to_run, construct in H0; rewrite Hvalid in H0; by simplify_eq.
Qed.

Lemma read_rounds i :
  ∃ rounds, rounds_for_run i g = (g, Returned rounds) ∧ rounds ≡ₚ select_where (is_id gr_run_id i) (gate_round g).
Proof using Hg.
  set (rounds := merge_sort round_le (select_where (is_id gr_run_id i) (gate_round g))).
  exists rounds. split; [|apply merge_sort_Permutation]. unfold rounds_for_run.
  rewrite (bind_returned _ _ g g rounds) by (unfold on_rounds, zoom; simpl; clear; by destruct g).
  apply (convert_rows_ok GateRound_valid "GateRound" rounds g). intros r Hr.
  apply ok_valid, (uo_rows _ (gk_rounds _ Hg)). unfold rounds in Hr.
  rewrite merge_sort_Permutation in Hr. by apply elem_of_select in Hr as [_ ?].
Qed.

(** Whether a round of the run may be opened: the run is open, and has fewer
    rounds than its bound. *)
Definition round_admitted : outcome () :=
  if negb (bool_decide (rn_state (rr_run x) = RUN_OPEN)) then Raised (GateError "run is not open")
  else if rn_max_rounds (rr_run x) <=? Z.of_nat (rounds_of (run_id_of x) g)
  then Raised (GateError "max_rounds reached") else Returned ().

Lemma may_open_exact : GateRoundService.may_open_round (run_id_of x) g = (g, round_admitted).
Proof using All.
  apply wp_known_value. unfold GateRoundService.may_open_round, GateRoundService.require_run, round_admitted.
  apply wp_bind, (wp_known _ _ _ _ _ _ _ read_run). simpl. apply wp_ret.
  case_bool_decide; [simpl|done]. destruct (read_rounds (run_id_of x)) as (rounds & Hr & Hp).
  apply (wp_known _ _ _ _ _ _ _ Hr).
  rewrite filter_all.
  - rewrite (Permutation_length Hp). unfold rounds_of. by case_match.
  - intros r Hin. rewrite Hp in Hin. apply elem_of_select in Hin as [_ Hin].
    apply (ok_never_abandoned _ (uo_rows _ (gk_rounds _ Hg) r Hin)).
Qed.
End OpenRound.

Lemma may_open_inv i g :
  gate_ok g → GateRoundService.may_open_round i g = (g, Returned ()) →
  ∃ x, x ∈ gate_run g ∧ run_id_of x = i ∧ GateRun_valid (rr_run x) = true
    ∧ rn_state (rr_run x) = RUN_OPEN ∧ Z.of_nat (rounds_of i g) < rn_max_rounds (rr_run x).
Proof.
  intros Hg H.
  assert (wp (get_run i) g (λ o s, ∀ r, o = Some r → ∃ x, x ∈ gate_run g ∧ run_id_of x = i
    ∧ GateRun_valid (rr_run x) = true) (λ _ _, True)) as Hrun.
  { unfold get_run, optional_row. repeat txn_step; try done. intros r' _.
    apply construct_Returned in H1 as [-> Hv]. apply head_select_Some in H0 as [Hin Hid%is_id_true].
    by exists r. }
  assert (∃ x, x ∈ gate_run g ∧ run_id_of x = i ∧ GateRun_valid (rr_run x) = true) as (x & Hx & <- & Hv).
  { revert H Hrun. unfold wp, GateRoundService.may_open_round, GateRoundService.require_run, mbind, M_bind.
    destruct (get_run i g) as [s [[r|]|e]]; [|done..]. intros _ Hr. by apply (Hr r). }
  rewrite (may_open_exact g Hg x Hx Hv) in H. unfold round_admitted in H.
  case_bool_decide; [simpl in H|done]. exists x. split_and!; try done.
  destruct (Z.leb_spec (rn_max_rounds (rr_run x)) (Z.of_nat (rounds_of (run_id_of x) g))); [done|lia].
Qed.

Lemma rounds_of_snoc i r g :
  rounds_of i (set_rounds (gate_round g ++ [r]) g)
  = (rounds_of i g + if is_id gr_run_id i r then 1 else 0)%nat.
Proof. unfold rounds_of. tables. rewrite select_snoc, length_app. by case_match. Qed.

Lemma open_round_appends i now run_id m t p tc tier gen g :
  wp (SqliteGateStore.open_round i now run_id m t p tc tier gen) g
    (λ r g', g' = set_rounds (gate_round g ++ [r]) g ∧ gr_run_id r = run_id
             ∧ gr_round_id r = i ∧ gr_round_no r = last_round_no run_id (gate_round g) + 1)
    (λ _ g', g' = g).
Proof.
  unfold open_round. repeat txn_step; try done. apply construct_Returned in H as [-> _]. done.
Qed.

Lemma open_round_bounded i now run_id m t p tc tier gen g :
  gate_ok g → bounded g → bounded (state_of (GateRoundService.open_round i now run_id m t p tc tier gen g)).
Proof.
  intros Hg [Hr Hb]. unfold GateRoundService.open_round.
  destruct (GateRoundService.may_open_round run_id g) as [s o] eqn:E.
  assert (s = g) as ->.
  { pose proof (reads_may_open_round run_id g) as H. unfold wp in H. rewrite E in H. by destruct o. }
  destruct o as [[]|e]; [|by rewrite (bind_raised _ _ _ _ _ E)].
  rewrite (bind_returned _ _ _ _ _ E). destruct (may_open_inv _ _ Hg E) as (x & Hx & Hid & _ & _ & Hlt).
  apply wp_state. eapply wp_mono; [apply open_round_appends| |by intros ? ? ->].
  intros r g' (-> & Hrun & _). split; tables.
  - intros j. rewrite fmap_app, elem_of_app. intros [Hj| ->%list_elem_of_singleton]; [by apply Hr|].
    rewrite Hrun, <- Hid. by apply list_elem_of_fmap_2.
  - intros y Hy. rewrite rounds_of_snoc. destruct (is_id gr_run_id (run_id_of y) r) eqn:Ey.
    + apply is_id_true in Ey. assert (y = x) as ->
        by (apply (NoDup_key_eq run_id_of (gate_run g)); [apply (gk_runs _ Hg)|done..|congruence]).
      rewrite Hid. lia.
    + specialize (Hb y Hy). lia.
Qed.

(** No run gets more rounds than it may.  As long as each command runs to
    its end before the next begins, every run of the record has at most
    [max_rounds] rounds, and every round is of a run, after any commands of the
    two services from an empty record. *)
Theorem rounds_are_bounded notifier repr cs :
  bounded (dk_gate (run_commands notifier repr cs {| dk_gate := empty_gate; dk_notified := [] |})).
Proof.
  assert (∀ cs d, gate_ok (dk_gate d) → bounded (dk_gate d) →
    bounded (dk_gate (run_commands notifier repr cs d))) as H.
  { clear cs. intros cs. induction cs as [|c cs IH]; intros d Hg Hb; [done|]. simpl. apply IH.
    - destruct (keeps_command notifier repr c d) as (ops & _ & Ho). unfold state_of. rewrite Ho.
      by apply gruns_ok.
    - destruct c; try (eapply unopened_bounded; [exact Hg| |done];
        apply (keeps_commands notifier repr (λ o, ¬ opens_round o)); [done|by intros]).
      pose proof (open_round_bounded new_id now run_id build_inputs target predecessor test_command
        evidence_tier generation _ Hg Hb) as Ho. revert Ho. simpl. unfold state_of, mbind, M_bind, on_gate, zoom.
      by destruct (GateRoundService.open_round _ _ _ _ _ _ _ _ _ _) as [? []]. }
  apply H; [apply gate_ok_empty|]. split; by intros ? ?%not_elem_of_nil.
Qed.

Lemma last_round_exact i g :
  gate_ok g → last_round_no i (gate_round g) = Z.of_nat (rounds_of i g).
Proof.
  intros Hg. unfold last_round_no. rewrite numbered_last by apply (uo_numbers _ (gk_rounds _ Hg)).
  by rewrite length_fmap.
Qed.

Lemma last_round_max r i t : r ∈ t → gr_run_id r = i → gr_round_no r <= last_round_no i t.
Proof.
  intros Hr Hi. unfold last_round_no.
  assert (gr_round_no r ∈ gr_round_no <$> select_where (is_id gr_run_id i) t) as Hin
    by (apply list_elem_of_fmap_2, elem_of_select; by rewrite is_id_true).
  pose proof (sql_max_spec (gr_round_no <$> select_where (is_id gr_run_id i) t)) as Hm.
  destruct (sql_max _) as [k|]; [by apply Hm|]. rewrite Hm in Hin. by apply not_elem_of_nil in Hin.
Qed.

Lemma last_round_pos i g : gate_ok g → 0 <= last_round_no i (gate_round g).
Proof. intros Hg. rewrite last_round_exact by done. lia. Qed.

Lemma open_round_ok i now run_id m t p tc tier gen g :
  gate_ok g → i ∉ gr_round_id <$> gate_round g → i ≠ ""%string → run_id ≠ ""%string →
  ArtifactManifest_valid m = true → ExecutionTarget_valid t = true → 0 <= gen →
  ∃ r, SqliteGateStore.open_round i now run_id m t p tc tier gen g
       = (set_rounds (gate_round g ++ [r]) g, Returned r)
    ∧ gr_round_id r = i ∧ gr_run_id r = run_id
    ∧ gr_round_no r = Z.of_nat (rounds_of run_id g) + 1.
Proof.
  intros Hg Hi Hne Hrun Hm Ht Hgen.
  pose proof (open_round_appends i now run_id m t p tc tier gen g) as H.
  assert (wp (SqliteGateStore.open_round i now run_id m t p tc tier gen) g (λ _ _, True) (λ _ _, False)) as Hok.
  { unfold open_round. repeat txn_step; try done.
    - apply construct_Returned in H0 as [-> _].
      apply existsb_exists in H1 as (y & Hy%list_elem_of_In & [Hc|Hc]%orb_true_iff).
      + apply bool_decide_eq_true in Hc. apply Hi. simpl in Hc. rewrite <- Hc. by apply list_elem_of_fmap_2.
      + apply andb_true_iff in Hc as [Hr%bool_decide_eq_true Hn%bool_decide_eq_true]. simpl in Hr, Hn.
        pose proof (last_round_max y run_id (gate_round g) Hy Hr). lia.
    - unfold construct in H0. destruct (GateRound_valid _) eqn:Hv; [done|].
      pose proof (last_round_pos run_id g Hg). unfold GateRound_valid in Hv. simpl in Hv.
      unfold nonempty in Hv. rewrite Hm, Ht, !bool_decide_eq_false_2 in Hv by done. simpl in Hv.
      rewrite !andb_true_r in Hv.
      apply andb_false_iff in Hv as [Hv%Z.leb_gt|Hv%Z.leb_gt]; lia. }
  unfold wp in H, Hok. destruct (SqliteGateStore.open_round _ _ _ _ _ _ _ _ _ g) as [s [r|]]; [|done].
  destruct H as (-> & Hr & Hri & Hrn). exists r. rewrite Hrn, last_round_exact by done. by split_and!.
Qed.

(** The bound is checked, and then the round is opened, in two steps.  When
    a run has room for one more round, two callers that both pass the check of
    [open_round] before either of them opens a round both open one, numbered in
    turn, and the run ends up with one round more than [max_rounds]. *)
Theorem two_openers_overrun g x i1 i2 now m t p tc tier gen :
  gate_ok g → x ∈ gate_run g → GateRun_valid (rr_run x) = true → rn_state (rr_run x) = RUN_OPEN →
  Z.of_nat (rounds_of (run_id_of x) g) + 1 = rn_max_rounds (rr_run x) →
  i1 ≠ i2 → i1 ∉ gr_round_id <$> gate_round g → i2 ∉ gr_round_id <$> gate_round g →
  i1 ≠ ""%string → i2 ≠ ""%string →
  ArtifactManifest_valid m = true → ExecutionTarget_valid t = true → 0 <= gen →
  let opened i := SqliteGateStore.open_round i now (run_id_of x) m t p tc tier gen in
  GateRoundService.may_open_round (run_id_of x) g = (g, Returned ())
  ∧ (∀ i, GateRoundService.open_round i now (run_id_of x) m t p tc tier gen g = opened i g)
  ∧ ∃ r1 r2 g1 g2, opened i1 g = (g1, Returned r1) ∧ opened i2 g1 = (g2, Returned r2)
      ∧ gr_round_no r1 = rn_max_rounds (rr_run x) ∧ gr_round_no r2 = rn_max_rounds (rr_run x) + 1
      ∧ Z.of_nat (rounds_of (run_id_of x) g2) = rn_max_rounds (rr_run x) + 1.
Proof.
  intros Hg Hx Hv Ho Hroom Hne Hf1 Hf2 Hn1 Hn2 Hm Ht Hgen opened.
  assert (GateRoundService.may_open_round (run_id_of x) g = (g, Returned ())) as Hmay.
  { rewrite (may_open_exact g Hg x Hx Hv). unfold round_admitted. rewrite Ho.
    destruct (Z.leb_spec (rn_max_rounds (rr_run x)) (Z.of_nat (rounds_of (run_id_of x) g))); [lia|done]. }
  assert (run_id_of x ≠ ""%string) as Hrun.
  { intros He. unfold GateRun_valid, run_id_of in *. by rewrite He in Hv. }
  destruct (open_round_ok i1 now (run_id_of x) m t p tc tier gen g)
    as (r1 & Hr1 & Hi1 & Hrun1 & Hno1); try done.
  set (g1 := set_rounds (gate_round g ++ [r1]) g) in *.
  assert (gate_ok g1) as Hg1 by (by eapply (refines_ok g); [|apply refine_open_round|]).
  assert (rounds_of (run_id_of x) g1 = S (rounds_of (run_id_of x) g)) as Hc1.
  { unfold g1. rewrite rounds_of_snoc, (proj2 (is_id_true _ _ r1) Hrun1). lia. }
  destruct (open_round_ok i2 now (run_id_of x) m t p tc tier gen g1)
    as (r2 & Hr2 & Hi2 & Hrun2 & Hno2); try done.
  { unfold g1. tables. rewrite fmap_app, elem_of_app. intros [?|Hin%list_elem_of_singleton]; [done|congruence]. }
  split_and!; [done|intros i; unfold GateRoundService.open_round; by rewrite (bind_returned _ _ _ _ _ Hmay)|].
  exists r1, r2, g1, (set_rounds (gate_round g1 ++ [r2]) g1). split_and!; [done..|lia|lia|].
  rewrite rounds_of_snoc, (proj2 (is_id_true _ _ r2) Hrun2). lia.
Qed.
