(* ===== verification/GateSweep.v ===== *)
(** * The expiry sweep and its notices

    [sweep_expired] settles the questions that are due and then tells their owners.
    What one notice does, what the whole sweep does when every notice can be
    rendered, and what it leaves undone when one cannot. *)

From S2P Require Import Prelude Chars Gate GateRows GateStore GateRender GateService GateLife Wp GateExec GateInv GateThms GateCommands GateDesk.
Import SqliteGateStore GateQuestionService.

(** ** Queries that do not look at the notices *)

Definition framed {A} (m : M gate A) : Prop :=
  ∀ n g, m (set_notices n g) = (set_notices n (m g).1, (m g).2).

Lemma framed_ret {A} (a : A) : framed (mret a).
Proof. done. Qed.
Lemma framed_raise {A} e : framed (raise e : M gate A).
Proof. done. Qed.
Lemma framed_lift {A} (o : outcome A) : framed (lift_outcome o).
Proof. done. Qed.
Lemma framed_bind {A B} (m : M gate A) (f : A → M gate B) :
  framed m → (∀ a, framed (f a)) → framed (m ≫= f).
Proof.
  intros Hm Hf n g. unfold mbind, M_bind. rewrite Hm. destruct (m g) as [s [a|e]]; [apply Hf|done].
Qed.
Lemma framed_for_each {A B} (xs : list A) (acc : B) (body : B → A → M gate B) :
  (∀ acc x, framed (body acc x)) → framed (for_each xs acc body).
Proof.
  intros Hb. revert acc. induction xs as [|x xs IH]; intros acc; [done|]. simpl. by apply framed_bind.
Qed.
Lemma framed_convert {A R} (convert : R → outcome A) rows : framed (convert_rows convert rows).
Proof. apply framed_for_each. intros acc x. by apply framed_bind. Qed.

Create HintDb framed.
#[local] Hint Resolve framed_ret framed_raise framed_lift framed_convert : framed.
Ltac framed_step := lazymatch goal with
  | |- framed (mbind _ _) => apply framed_bind; [|intros ?]
  | |- framed (match ?x with _ => _ end) => destruct x
  | |- framed (for_each _ _ _) => apply framed_for_each; intros ? ?
  | |- framed (optional_row _ ?x) => unfold optional_row
  | |- _ => first [by auto with framed | by intros ? []]
  end.
Ltac framed := repeat framed_step.

Lemma framed_findings i : framed (open_findings_for_run i).
Proof. unfold open_findings_for_run, _load_finding_locked. framed. Qed.
#[local] Hint Resolve framed_findings : framed.
Lemma framed_project i : framed (project_round i).
Proof. unfold project_round, get_run. framed. Qed.
#[local] Hint Resolve framed_project : framed.
Lemma framed_identity q : framed (_identity q).
Proof. unfold _identity. framed. Qed.

Lemma identity_framed q n g who :
  _identity q g = (g, Returned who) → _identity q (set_notices n g) = (set_notices n g, Returned who).
Proof. intros H. by rewrite framed_identity, H. Qed.

(** ** One notice *)

Lemma anomaly_renders q who : ∃ e, render_anomaly_envelope q who = Returned e ∧ ce_classification e = ANOMALY.
Proof.
  unfold render_anomaly_envelope, envelope.
  match goal with |- context [CallbackEnvelope_valid ?e] =>
    assert (CallbackEnvelope_valid e = true) as ->; [|by eexists] end.
  unfold CallbackEnvelope_valid, visible. simpl. by rewrite (proj2 (Z.leb_le 0 _)) by lia.
Qed.

(** The call a notice of an expired question makes. *)
Definition announces (g : gate) (q : RoundQuestion) (c : notice_call) : Prop :=
  ∃ who e, _identity q g = (g, Returned who) ∧ render_anomaly_envelope q who = Returned e
    ∧ c = {| nc_question := q; nc_kind := "condition"; nc_classification := "anomaly"; nc_lines := ce_lines e |}.

(** What becomes of the notice rows once those of [told] have been attempted. *)
Definition told_row (told : list string) (old new : notice_intent) : Prop :=
  ni_question_id new = ni_question_id old
  ∧ if bool_decide (ni_question_id old ∈ told)
    then ni_attempts new = ni_attempts old + 1 ∧ ni_state new ∈ [NI_SENT; NI_FAILED]
    else new = old.

Lemma told_row_snoc told i h t t' :
  (∀ n, ni_question_id (h n) = ni_question_id n ∧ ni_attempts (h n) = ni_attempts n + 1
        ∧ ni_state (h n) ∈ [NI_SENT; NI_FAILED]) →
  i ∉ told → Forall2 (told_row told) t t' →
  Forall2 (told_row (told ++ [i])) t (update_where (is_id ni_question_id i) h t').
Proof.
  intros Hh Hi Ht. unfold update_where. apply Forall2_fmap_r. eapply Forall2_impl; [done|].
  intros old new [Hid Hrow]. unfold told_row, compose in *. destruct (Hh new) as (Hhid & Hha & Hhs).
  destruct (is_id ni_question_id i new) eqn:E.
  - apply is_id_true in E. rewrite <- Hid, E in Hrow. rewrite bool_decide_eq_false_2 in Hrow by done. subst old.
    rewrite bool_decide_eq_true_2 by (apply elem_of_app; right; rewrite E; by left). by repeat split.
  - apply is_id_false in E. split; [done|]. rewrite Hid in E.
    rewrite (bool_decide_ext _ (ni_question_id old ∈ told)); [done|].
    rewrite elem_of_app, list_elem_of_singleton. split; [intros [?|?]; [done|congruence]|by left].
Qed.

Section Notify.
Context (f : list notice_call → notice_call → outcome (option string)) (repr : exn → string).

Lemma notify_expired settled q g n calls c :
  announces g q c →
  ∃ h, _notify (Some f) repr settled q KIND_CONDITION {| dk_gate := set_notices n g; dk_notified := calls |}
    = ({| dk_gate := set_notices (update_where (is_id ni_question_id (rq_question_id q)) h n) g;
          dk_notified := calls ++ [c] |}, Returned ())
  ∧ ∀ x, ni_question_id (h x) = ni_question_id x ∧ ni_attempts (h x) = ni_attempts x + 1
         ∧ ni_state (h x) ∈ [NI_SENT; NI_FAILED].
Proof using Type.
  intros (who & e & Hw & He & ->). destruct (anomaly_renders q who) as (e' & He' & Hc).
  rewrite He in He'. injection He' as <-.
  unfold _notify. rewrite (bind_returned _ _ _ {| dk_gate := set_notices n g; dk_notified := calls |} who)
    by (unfold on_gate, zoom; simpl; by rewrite (identity_framed _ _ _ _ Hw)).
  simpl. rewrite He. unfold mbind, M_bind, lift_outcome, catch, notify_port. simpl. rewrite Hc. simpl.
  destruct (f calls _) as [[m|]|x]; simpl.
  - exists (notice_sent m settled). split; [done|]. intros x. split_and!; [done..|by left].
  - eexists (notice_failed _). split; [done|]. intros x. split_and!; [done..|right; by left].
  - eexists (notice_failed _). split; [done|]. intros y. split_and!; [done..|right; by left].
Qed.

(** A run of notices. *)
Lemma notify_all settled g calls told qs n0 n :
  Forall (λ q, ∃ c, announces g q c) qs → NoDup (told ++ (rq_question_id <$> qs)) →
  Forall2 (told_row told) n0 n →
  ∃ news n', for_each qs () (λ _ q, _notify (Some f) repr (settled (rq_question_id q)) q KIND_CONDITION)
      {| dk_gate := set_notices n g; dk_notified := calls |}
    = ({| dk_gate := set_notices n' g; dk_notified := calls ++ news |}, Returned ())
  ∧ Forall2 (announces g) qs news
  ∧ Forall2 (told_row (told ++ (rq_question_id <$> qs))) n0 n'.
Proof using Type.
  intros Hqs. revert calls told n. induction Hqs as [|q qs [c Hc] _ IH]; intros calls told n Hnd Ht.
  - exists [], n. simpl. rewrite !app_nil_r. by split_and!.
  - destruct (notify_expired (settled (rq_question_id q)) q g n calls c Hc) as (h & Hn & Hh).
    rewrite fmap_cons, cons_middle, app_assoc in Hnd. pose proof Hnd as (_ & _ & _)%NoDup_app.
    assert (rq_question_id q ∉ told) as Hi.
    { intros Hin. apply NoDup_app in Hnd as ((_ & Hd & _)%NoDup_app & _). by eapply Hd, list_elem_of_singleton. }
    destruct (IH (calls ++ [c]) (told ++ [rq_question_id q]) _ Hnd
      (told_row_snoc told (rq_question_id q) h n0 n Hh Hi Ht)) as (news & n' & Hrun & Hann & Htold).
    exists (c :: news), n'. split_and!; [|by constructor|by rewrite fmap_cons, cons_middle, app_assoc].
    etrans; [apply (bind_returned _ _ _ _ _ Hn)|]. change (c :: news) with ([c] ++ news). by rewrite (app_assoc calls [c] news).
Qed.
End Notify.

(** ** The sweep *)

(** What a sweep at [now] finds, and the record once it has settled them. *)
Definition due_at (now : Z) (g : gate) : list RoundQuestion := select_where (is_due now) (round_question g).
Definition expired_record (now : Z) (g : gate) : gate := after_expiry g (due_at now g).

Lemma expire_ok g now :
  gate_ok g → (∀ q, q ∈ due_at now g → RoundQuestion_valid q = true) →
  expire_due_questions now g
  = (expired_record now g, Returned (settle_question Q_EXPIRED None <$> due_at now g)).
Proof.
  intros Hg Hv. apply wp_returns. eapply wp_mono; [by apply expire_wp|by intros ? ? (-> & -> & _)|].
  intros e s (_ & _ & x & Hx & Hxv). by rewrite (Hv x Hx) in Hxv.
Qed.

(** What a sweep does to the record: all or nothing.  When every due
    question can be read, each of them is settled [EXPIRED], its dispatch leaves
    [AWAITING_ANSWER] for the state the question had suspended, everything else
    stays, and the settled questions are returned in table order.  When the row
    of one of them cannot be read the sweep raises and changes nothing: one bad
    row keeps every question in the store from expiring. *)
Theorem expiry_is_all_or_nothing g now :
  gate_ok g →
  ((∀ q, q ∈ due_at now g → RoundQuestion_valid q = true) →
     expire_due_questions now g =
       (set_dispatches (release_with (due_at now g) <$> gate_dispatch g)
          (set_questions (update_where (is_due now) (settle_question Q_EXPIRED None) (round_question g)) g),
        Returned (settle_question Q_EXPIRED None <$> due_at now g)))
  ∧ ((∃ q, q ∈ due_at now g ∧ RoundQuestion_valid q = false) →
     expire_due_questions now g = (g, Raised (ValueError "RoundQuestion"))).
Proof.
  intros Hg. split.
  - intros Hv. rewrite expire_ok by done. unfold expired_record, due_at. by rewrite after_expiry_all.
  - intros (q & Hq & Hbad). apply wp_raises.
    eapply wp_mono; [by apply expire_wp| |by intros ? ? (-> & -> & _)].
    intros r s (_ & _ & Hv). by rewrite (Hv q Hq) in Hbad.
Qed.

(** A sweep tells the owner of every expired question, once.  When each
    notice can be rendered, the notifier is called once for each question the
    sweep expired, in order and with an anomaly envelope, whatever it answered
    to the calls before; each of those questions' notice rows counts one more
    attempt and ends [SENT] or [FAILED]; no other notice row and no other table
    changes. *)
Theorem sweep_notifies_each_once f repr now settled g calls :
  gate_ok g → (∀ q, q ∈ due_at now g → RoundQuestion_valid q = true) →
  let expired := settle_question Q_EXPIRED None <$> due_at now g in
  let g1 := expired_record now g in
  (∀ q, q ∈ expired → ∃ who, _identity q g1 = (g1, Returned who)) →
  ∃ news notices,
    sweep_expired (Some f) repr now settled {| dk_gate := g; dk_notified := calls |}
      = ({| dk_gate := set_notices notices g1; dk_notified := calls ++ news |}, Returned expired)
    ∧ Forall2 (announces g1) expired news
    ∧ Forall2 (told_row (rq_question_id <$> expired)) (question_notice_intent g) notices.
Proof.
  intros Hg Hv expired g1 Hids.
  assert (rq_question_id <$> expired = rq_question_id <$> due_at now g) as Hsame.
  { unfold expired. rewrite <- list_fmap_compose. by apply list_fmap_ext. }
  destruct (notify_all f repr settled g1 calls [] expired (question_notice_intent g) (question_notice_intent g))
    as (news & n & Hrun & Hann & Htold).
  - apply Forall_forall. intros q Hq. destruct (Hids q Hq) as [who Hw].
    destruct (anomaly_renders q who) as (e & He & _). eexists. by exists who, e.
  - simpl. rewrite Hsame. by apply due_once.
  - apply Forall_Forall2_diag, Forall_forall. intros x _. split; [done|].
    rewrite bool_decide_eq_false_2; [done|]. by intros ?%not_elem_of_nil.
  - exists news, n. split_and!; try done. unfold sweep_expired.
    rewrite (bind_returned _ _ _ {| dk_gate := g1; dk_notified := calls |} expired)
      by (unfold on_gate, zoom; simpl; by rewrite expire_ok).
    by rewrite (bind_returned _ _ _ _ _ Hrun).
Qed.

Lemma expired_record_ok g now : gate_ok g → gate_ok (expired_record now g).
Proof.
  intros Hg. unfold expired_record, due_at. rewrite after_expiry_all by done.
  eapply gtrans_ok; [done|apply (T_expire None)].
Qed.

Lemma not_due_again g now later q :
  gate_ok g → q ∈ due_at later (expired_record now g) → rq_question_id q ∉ rq_question_id <$> due_at now g.
Proof.
  intros Hg [[Ho _]%andb_true_iff (x & -> & Hx)%list_elem_of_fmap]%elem_of_select.
  unfold mark_expired in Ho |- *. by case_bool_decide.
Qed.

Section Silent.
Context (g : gate) (Hg : gate_ok g) (b : finding_base) (r : GateRound).
Context (Hb : b ∈ gate_open_finding g) (Hempty : fb_statement b = ""%string).
Context (Hr : r ∈ gate_round g) (Hrun : gr_run_id r = fb_run_id b) (Hin : fb_run_id b ∈ run_id_of <$> gate_run g).

Lemma identity_raises q :
  rq_round_id q = Some (gr_round_id r) → ∃ e, _identity q g = (g, Raised e).
Proof using All.
  intros Hq. unfold _identity. rewrite Hq.
  pose proof (poisoned_projection g b r Hg Hb Hempty Hr Hrun Hin) as Hp. unfold wp in Hp.
  destruct (project_round (gr_round_id r) g) as [s [?|e]] eqn:E; [done|]. subst s.
  exists e. by apply bind_raised.
Qed.
End Silent.

(** One bad run silences a sweep.  The questions are settled before any
    owner is told, and only the call of the notifier is guarded: when the first
    due question belongs to a round of a run that has a finding with an empty
    statement, naming that round raises, the sweep raises with it, and no owner of
    any of the expired questions is told.  Their notice rows are as they were, and
    since the questions are no longer due no later sweep comes back to them. *)
Theorem bad_run_silences_sweep f repr now settled g calls b r q rest :
  gate_ok g → (∀ q, q ∈ due_at now g → RoundQuestion_valid q = true) →
  b ∈ gate_open_finding g → fb_statement b = ""%string →
  r ∈ gate_round g → gr_run_id r = fb_run_id b → fb_run_id b ∈ run_id_of <$> gate_run g →
  due_at now g = q :: rest → rq_round_id q = Some (gr_round_id r) →
  ∃ e, sweep_expired (Some f) repr now settled {| dk_gate := g; dk_notified := calls |}
       = ({| dk_gate := expired_record now g; dk_notified := calls |}, Raised e)
    ∧ question_notice_intent (expired_record now g) = question_notice_intent g
    ∧ ∀ later x, x ∈ due_at later (expired_record now g) →
        rq_question_id x ∉ rq_question_id <$> due_at now g.
Proof.
  intros Hg Hv Hb He Hr Hrun Hin Hdue Hq.
  destruct (identity_raises (expired_record now g) (expired_record_ok g now Hg) b r)
    with (q := settle_question Q_EXPIRED None q) as [e Hid]; try done.
  exists e. split_and!; [|done|intros later x; by apply not_due_again].
  unfold sweep_expired.
  rewrite (bind_returned _ _ _ {| dk_gate := expired_record now g; dk_notified := calls |}
    (settle_question Q_EXPIRED None <$> due_at now g))
    by (unfold on_gate, zoom; simpl; by rewrite expire_ok).
  apply bind_raised. rewrite Hdue. simpl. apply bind_raised. unfold _notify. apply bind_raised.
  unfold on_gate, zoom. simpl. by rewrite Hid.
Qed.
