(* ===== verification/GateText.v ===== *)
(** * The content address and the envelopes

    What the address of a round determines, and how large an envelope can be. *)

From S2P Require Import Prelude Text Sha256 Chars Gate GateRows GateStore GateRender GateService GateLife GateExec GateInv GateThms GateCommands GateDesk GateSweep.
Import SqliteGateStore.

(** ** The hashed bytes *)

Definition NUL_char : ascii := ascii_of_nat 0.
Definition RS_char : ascii := ascii_of_nat 30.

Lemma feed_split r : _feed r = r.1 +:+ String NUL_char (r.2 +:+ String RS_char "").
Proof. reflexivity. Qed.

(** A record can be told from what follows it. *)
Definition readable (r : string * string) : Prop := no_char NUL_char r.1 ∧ no_char RS_char r.2.

Lemma feeds_injective l1 l2 :
  Forall readable l1 → Forall readable l2 →
  concat_text (_feed <$> l1) = concat_text (_feed <$> l2) → l1 = l2.
Proof.
  intros H1. revert l2. induction H1 as [|[n v] l1 [Hn Hv] _ IH]; intros l2 H2 He.
  - destruct H2 as [|r l2 _ _]; [done|]. rewrite fmap_cons in He. simpl in He.
    rewrite feed_split in He. by destruct (r.1).
  - destruct H2 as [|[n2 v2] l2 [Hn2 Hv2] H2].
    { rewrite fmap_cons in He. simpl in He. rewrite feed_split in He. by destruct n. }
    rewrite !fmap_cons in He. simpl in He. rewrite !feed_split in He. simpl in *.
    rewrite <- !string_app_assoc in He. simpl in He.
    apply split_at_char in He as [-> He]; [|done..]. rewrite <- !string_app_assoc in He. simpl in He.
    apply split_at_char in He as [-> He]; [|done..]. f_equal. by apply IH.
Qed.

(** A block of records of one name ends where the next name begins. *)
Lemma block_injective {A} (tag next : string) (f : A → string) xs ys b b' rest rest' :
  tag ≠ next →
  ((λ x, (tag, f x)) <$> xs) ++ (next, b) :: rest = ((λ x, (tag, f x)) <$> ys) ++ (next, b') :: rest' →
  f <$> xs = f <$> ys ∧ b = b' ∧ rest = rest'.
Proof.
  intros Hne. revert ys. induction xs as [|x xs IH]; intros [|y ys] H; simpl in H; simplify_eq; [done|].
  destruct (IH ys H0) as (Hf & -> & ->).
  split_and!; [|done..]. change (f x :: (f <$> xs) = f y :: (f <$> ys)). by rewrite H, Hf.
Qed.

(** ** What is addressed *)

(** An entry as the address sees it: an absent field and an empty one are one. *)
Definition addressed_entry (e : DiffEntry) : string * string * string * string * string * bool :=
  (or_empty (de_pre_path e), or_empty (de_post_path e), de_mode e,
   or_empty (de_pre_object_id e), or_empty (de_post_object_id e), de_deleted e).

(** Everything of a manifest but its worktree path. *)
Definition addressed (m : ArtifactManifest) :=
  (am_manifest_version m, am_repo_bindings m, (am_base_sha m, am_head_sha m, am_branch m),
   addressed_entry <$> am_entries m, (am_blueprint_sha m, am_ac_list_sha m)).

(** No field holds the separator that ends it. *)
Record separable (m : ArtifactManifest) : Prop := {
  sp_records : Forall (λ r, no_char RS_char r.2) (artifact_records m);
  sp_repos : Forall (λ b, no_char "@" (rb_name b)) (am_repo_bindings m);
  sp_entries : Forall (λ e, no_char "|" (or_empty (de_pre_path e)) ∧ no_char "|" (or_empty (de_post_path e))
    ∧ no_char "|" (de_mode e) ∧ no_char "|" (or_empty (de_pre_object_id e))
    ∧ no_char "|" (or_empty (de_post_object_id e))) (am_entries m);
}.

Lemma artifact_records_readable m : separable m → Forall readable (artifact_records m).
Proof.
  intros [Hr _ _]. assert (Forall (λ r, no_char NUL_char r.1) (artifact_records m)) as Hn.
  { assert (∀ {A} (tag : string) (f : A → string) (l : list A), no_char NUL_char tag →
      Forall (λ r, no_char NUL_char r.1) ((λ x, (tag, f x)) <$> l)) as Hl
      by (intros; apply Forall_fmap, Forall_true; done).
    unfold artifact_records.
    repeat first [apply Forall_app; split|apply Forall_cons; split|apply Forall_nil|apply Hl]; try done;
      by vm_compute. }
  by apply Forall_and.
Qed.

Lemma repo_field_injective l1 l2 :
  Forall (λ b, no_char "@" (rb_name b)) l1 → Forall (λ b, no_char "@" (rb_name b)) l2 →
  repo_field <$> l1 = repo_field <$> l2 → l1 = l2.
Proof.
  intros H1. revert l2. induction H1 as [|[n c] l1 Hb _ IH]; intros l2 H2 He; destruct H2 as [|[n' c'] l2 Hb' H2];
    [done..|]. injection He as He Ht. unfold repo_field in He. simpl in *.
  apply split_at_char in He as [-> ->]; [|done..]. f_equal. by apply IH.
Qed.

Lemma entry_fields e : entry_field e =
  or_empty (de_pre_path e) +:+ String "|" (or_empty (de_post_path e) +:+ String "|" (de_mode e +:+ String "|"
    (or_empty (de_pre_object_id e) +:+ String "|" (or_empty (de_post_object_id e) +:+ String "|"
      (if de_deleted e then "1" else "0"))))).
Proof. unfold entry_field, join_with. simpl. by rewrite <- !string_app_assoc. Qed.

Lemma entry_field_injective l1 l2 m1 m2 :
  separable m1 → separable m2 → am_entries m1 = l1 → am_entries m2 = l2 →
  entry_field <$> l1 = entry_field <$> l2 → addressed_entry <$> l1 = addressed_entry <$> l2.
Proof.
  intros [_ _ H1] [_ _ H2] <- <-. revert H2. generalize (am_entries m2) as l2.
  induction H1 as [|e l1 (?&?&?&?&?) _ IH]; intros l2 Hall He; destruct Hall as [|e' l2 (?&?&?&?&?) Hall]; [done..|].
  cbn [fmap list_fmap] in *. injection He as He Ht. rewrite !entry_fields in He.
  do 5 (apply split_at_char in He as [? He]; [|done..]).
  f_equal; [|by apply IH]. unfold addressed_entry. destruct (de_deleted e), (de_deleted e'); congruence.
Qed.

Lemma entry_field_addressed (l1 l2 : list DiffEntry) :
  addressed_entry <$> l1 = addressed_entry <$> l2 → entry_field <$> l1 = entry_field <$> l2.
Proof.
  intros H. set (text := λ t : string * string * string * string * string * bool,
    let '(a, b, c, d, e, x) := t in join_with "|" [a; b; c; d; e; if (x : bool) then "1" else "0"]%string).
  assert (∀ l : list DiffEntry, entry_field <$> l = text <$> (addressed_entry <$> l)) as Ht.
  { intros l. by rewrite <- list_fmap_compose. }
  by rewrite !Ht, H.
Qed.

(** What the address of a round determines.  For manifests whose fields do
    not hold the separators that end them, the hashed bytes are equal exactly when
    the manifests agree on everything but the worktree path, an absent path or
    object id counting as an empty one; so two equal addresses of different
    content are a collision of SHA-256 itself. *)
Theorem artifact_address_injective m1 m2 :
  separable m1 → separable m2 →
  (artifact_bytes m1 = artifact_bytes m2 ↔ addressed m1 = addressed m2)
  ∧ (compute_artifact_sha m1 = compute_artifact_sha m2 → addressed m1 ≠ addressed m2 →
     artifact_bytes m1 ≠ artifact_bytes m2
     ∧ sha256_hex (artifact_bytes m1) = sha256_hex (artifact_bytes m2)).
Proof.
  intros H1 H2. assert (artifact_bytes m1 = artifact_bytes m2 ↔ addressed m1 = addressed m2) as H.
  { split.
    - intros He. apply feeds_injective in He; [|by apply artifact_records_readable..].
      unfold artifact_records in He. simpl in He. injection He as Hv He.
      apply block_injective in He as (Hrepo & Hb & He); [|done].
      injection He as Hh Hbr He. apply block_injective in He as (Hentry & Hbp & He); [|done].
      injection He as Hac. apply (inj pretty) in Hv.
      apply repo_field_injective in Hrepo; [|apply H1|apply H2].
      apply (entry_field_injective _ _ m1 m2 H1 H2) in Hentry; [|done..].
      unfold addressed. congruence.
    - intros He. unfold addressed in He. injection He as Hv Hr Hb Hh Hbr He Hbp Hac.
      unfold artifact_bytes, artifact_records. rewrite Hv, Hr, Hb, Hh, Hbr, Hbp, Hac.
      assert (∀ l : list DiffEntry, (λ e, ("entry", entry_field e)) <$> l = pair "entry" <$> (entry_field <$> l))%string
        as Hl by (intros l; by rewrite <- list_fmap_compose).
      by rewrite !Hl, (entry_field_addressed _ _ He). }
  split; [done|]. intros Hs Hne. split; [by rewrite H|done].
Qed.

(** ** Clipping *)

Lemma whole_ellipsis : whole "…" ∧ begins "…".
Proof. by vm_compute. Qed.

(** A clipped text has at most [limit] characters. *)
Lemma clip_length text limit : (0 < limit)%nat → (py_len (_clip text limit) <= limit)%nat.
Proof.
  intros Hl. unfold _clip. set (flat := join_with " " (py_split text)).
  destruct (Nat.leb_spec (py_len flat) limit) as [Hle|Hgt]; [done|].
  assert (py_take (limit - 1) flat +:+ "…" = concat_text (take (limit - 1) (chars flat) ++ ["…"])) as ->
    by (by rewrite concat_app).
  unfold py_len. rewrite chars_concat.
  - rewrite length_app, length_take. unfold py_len in Hgt. simpl. lia.
  - destruct whole_ellipsis. apply cut_snoc; [apply cut_take, chars_cut|done..].
Qed.

Definition newline_char : ascii := ascii_of_nat 10.
Definition one_line (s : string) : Prop := no_char newline_char s.

Lemma continued_one_line x : continued x = true → one_line x.
Proof.
  induction x as [|b x IH]; [done|]. simpl. intros [Hb Hx]%andb_true_iff.
  split; [|by apply IH]. intros ->. by vm_compute in Hb.
Qed.

(** A character is white space, or has no newline in it. *)
Lemma chars_lines s :
  utf8_like true s = true → Forall (λ c, is_space c = true ∨ one_line c) (chars s).
Proof.
  intros [Hl _]%utf8_lone. pose proof (chars_cut s) as [Hw _]. rewrite Forall_forall in *.
  intros [|b x] Hc; [by right|]. specialize (Hl _ Hc). specialize (Hw _ Hc). simpl in *.
  destruct (decide (b = newline_char)) as [->|Hb].
  - left. rewrite Hl by (by vm_compute). by vm_compute.
  - right. split; [done|]. by apply continued_one_line.
Qed.

Lemma split_words_lines cs w :
  Forall (λ c, is_space c = true ∨ one_line c) cs → one_line w → Forall one_line (split_words cs w).
Proof.
  intros Hcs. revert w. induction Hcs as [|c cs Hc _ IH]; intros w Hw; simpl.
  - case_bool_decide; by repeat constructor.
  - destruct (is_space c) eqn:E.
    + apply Forall_app. split; [case_bool_decide; by repeat constructor|by apply IH].
    + apply IH. destruct Hc as [?|Hc]; [done|]. by apply no_char_app.
Qed.

Lemma join_lines sep l : one_line sep → Forall one_line l → one_line (join_with sep l).
Proof.
  intros Hs Hl. destruct Hl as [|x l Hx Hl]; [done|]. simpl. revert x Hx.
  induction Hl as [|y l Hy _ IH]; intros x Hx; [done|]. simpl. apply IH.
  by repeat (apply no_char_app; split).
Qed.

Lemma concat_lines l : one_line (concat_text l) ↔ Forall one_line l.
Proof.
  induction l as [|x l IH]; simpl; [by split|]. unfold one_line in *.
  rewrite no_char_app, IH, Forall_cons. done.
Qed.

(** A clipped text is one line. *)
Lemma clip_one_line text limit : utf8_like true text = true → one_line (_clip text limit).
Proof.
  intros Ht. unfold _clip. set (flat := join_with " " (py_split text)).
  assert (one_line flat) as Hf.
  { apply join_lines; [by vm_compute|]. apply split_words_lines; [by apply chars_lines|done]. }
  case_match; [done|]. apply no_char_app. split; [|by vm_compute].
  rewrite <- (concat_chars flat) in Hf. apply concat_lines in Hf. apply concat_lines.
  by apply Forall_take.
Qed.

(** ** The envelopes of a question *)

(** A body line: one line of at most 160 characters. *)
Definition fits (l : string) : Prop := (py_len l <= _MAX_LINE_BYTES)%nat ∧ one_line l.

Lemma clip_fits text : utf8_like true text = true → fits (_clip text _MAX_LINE_BYTES).
Proof. intros Ht. split; [apply clip_length; by vm_compute; lia|by apply clip_one_line]. Qed.

(** The envelope an owner is sent: who is asking, at most two body lines, and
    where to look. *)
Definition well_laid (who : IdentityRef) (e : CallbackEnvelope) : Prop :=
  ∃ body pointer, ce_lines e = identity_line who :: body ++ [pointer]
    ∧ (length body <= _MAX_SUMMARY_LINES)%nat ∧ Forall fits body
    ∧ ce_visible_bytes e = visible (ce_lines e).

Lemma digit_text i : 0 <= i < 10 → utf8_like true (String (dec_digit i) "") = true.
Proof.
  intros Hi. assert (i ∈ seqZ 0 10) as Hin by (apply elem_of_seqZ; lia).
  assert (Forall (λ i, utf8_like true (String (dec_digit i) "") = true) (seqZ 0 10)) as Hall
    by (repeat constructor).
  rewrite Forall_forall in Hall. by apply Hall.
Qed.

Lemma padded_text n v : utf8_like true (zero_padded n v) = true.
Proof.
  unfold zero_padded. revert v. induction n as [|n IH]; intros v; [done|]. simpl.
  apply utf8_app; [apply IH|apply digit_text, Z.mod_pos_bound; lia].
Qed.

Lemma isoformat_text t : utf8_like true (isoformat t) = true.
Proof.
  unfold isoformat.
  repeat lazymatch goal with
  | |- utf8_like _ (_ +:+ _) = true => apply utf8_app
  | |- utf8_like _ (zero_padded _ _) = true => apply padded_text
  | |- utf8_like _ (if ?b then _ else _) = true => destruct b
  end; reflexivity.
Qed.

Lemma envelope_lines kind who body pointer n digest c :
  (length body <= _MAX_SUMMARY_LINES)%nat → Forall fits body → 0 <= n →
  ∃ e, envelope kind (identity_line who :: body ++ [pointer]) n digest c = Returned e
    ∧ ce_kind e = kind ∧ ce_classification e = c ∧ well_laid who e.
Proof.
  intros Hb Hf Hn. unfold envelope. match goal with |- context [CallbackEnvelope_valid ?e] =>
    assert (CallbackEnvelope_valid e = true) as Hv end.
  { unfold CallbackEnvelope_valid, visible. simpl. rewrite !andb_true_iff.
    split_and!; [apply Nat.leb_le|apply Z.leb_le; lia|by apply Z.leb_le].
    rewrite length_app. unfold _MAX_SUMMARY_LINES in Hb. simpl. lia. }
  rewrite Hv. eexists. split_and!; [done..|]. exists body, pointer. by split_and!.
Qed.

(** An envelope always fits the pane it is pasted into.  Rendering a
    question, or the notice of one that expired, never fails: it gives who is
    asking, one or two body lines of at most 160 characters with no line break in
    them, whatever the length of the question and of its options, and the pointer;
    so at most four lines, and [visible_bytes] counts them. *)
Theorem envelopes_fit q who ref :
  utf8_like true (rq_question q) = true → Forall (λ o, utf8_like true o = true) (rq_options q) →
  (∃ e, render_question_envelope q who ref = Returned e ∧ ce_kind e = KIND_QUESTION
        ∧ ce_classification e = EXPECTED ∧ well_laid who e)
  ∧ ∃ e, render_anomaly_envelope q who = Returned e ∧ ce_kind e = KIND_CONDITION
        ∧ ce_classification e = ANOMALY ∧ well_laid who e.
Proof.
  intros Hq Ho. split; apply envelope_lines; try done.
  - apply firstn_le_length.
  - apply Forall_take. constructor; [by apply clip_fits|].
    destruct (rq_options q) as [|o os] eqn:E; [done|]. rewrite <- E in *. constructor; [|done].
    apply clip_fits. apply utf8_app; [by vm_compute|].
    assert (∀ sep l, utf8_like true sep = true → Forall (λ o, utf8_like true o = true) l →
      utf8_like true (join_with sep l) = true) as Hjoin; [|apply Hjoin; [by vm_compute|done]].
    intros sep l Hs Hl. destruct Hl as [|x l Hx Hl]; [done|]. simpl. revert x Hx.
    induction Hl as [|y l Hy _ IH]; intros x Hx; [done|]. simpl. apply IH. by repeat apply utf8_app.
  - constructor; [|constructor; [|done]]; apply clip_fits, utf8_app; try done.
    apply isoformat_text.
Qed.

(** * A gate at work: the theorems at concrete records

    One run with one round, a dispatch and its question, at the points of its
    life the theorems speak of. *)

Local Open Scope string_scope.
Local Open Scope list_scope.
Local Open Scope Z_scope.

Definition manifest : ArtifactManifest := {|
  am_manifest_version := 1; am_repo_bindings := [{| rb_name := "core"; rb_commit := "c0ffee" |}];
  am_base_sha := "b0"; am_head_sha := "b1"; am_branch := "main"; am_worktree_path := "/w";
  am_entries := [{| de_pre_path := None; de_post_path := Some "a.py"; de_mode := "644";
                    de_pre_object_id := None; de_post_object_id := Some "o1"; de_deleted := false |}];
  am_blueprint_sha := "bp"; am_ac_list_sha := "ac" |}.
Definition laptop : ExecutionTarget := {| et_host := "laptop"; et_scratch_root := "" |}.
Definition builder (s : DispatchState) : Dispatch := {|
  dp_dispatch_id := "d1"; dp_round_id := Some "r1"; dp_role := BUILDER; dp_position := "p1";
  dp_routing_revision := "v1"; dp_conversation_id := None; dp_terminal_incarnation := None;
  dp_request_id := "q"; dp_effect_id := None; dp_pins := ["pin"]; dp_brief_blob_sha := "bb";
  dp_state := s; dp_outcome := None |}.

Definition prepared_ops : list gop :=
  [GOpenRun "run" 0 "wp" "lane" "ada" 0 2 "src" "inp";
   GOpenRound "r1" 1 "run" manifest laptop None "make test" "t1" 0;
   GDispatch (builder PREPARED)].
Definition ask_op (i k owner : string) (epoch : Z) (round_id : option string) : gop :=
  GAsk i "d1" round_id k owner epoch ASSIGNMENT "d1" "Which one?" ["a"; "b"] true 10 100 None None.

(** Records. *)
Definition prepared : gate := Eval vm_compute in gruns prepared_ops empty_gate.
Definition asked : gate := Eval vm_compute in gstep (ask_op "q1" "k1" "ada" 0 (Some "r1")) prepared.
Definition answered_ : gate :=
  Eval vm_compute in gstep (GAnswer "e1" "q1" "a" "ada" "k2" "ada" 0 20) asked.
Definition asked_again : gate :=
  Eval vm_compute in gruns [GConsume "e1" 30; ask_op "q2" "k3" "ada" 0 (Some "r1")] answered_.
Definition frozen : gate := Eval vm_compute in gstep (GFreeze "r1" manifest 1) prepared.
Definition asked_by_bob : gate := Eval vm_compute in gstep (ask_op "q1" "k1" "bob" 7 None) prepared.
Definition one_round : gate :=
  Eval vm_compute in gstep (GOpenRun "run" 0 "wp" "lane" "ada" 0 1 "src" "inp") empty_gate.
Definition bad_run : gate := Eval vm_compute in gstep (GRaise "f1" 5 "r1" NIT "") asked.

Lemma prepared_ok : gate_ok prepared.
Proof. apply (gruns_ok prepared_ops empty_gate), gate_ok_empty. Qed.
Lemma asked_ok : gate_ok asked.
Proof. exact (gstep_ok (ask_op "q1" "k1" "ada" 0 (Some "r1")) prepared prepared_ok). Qed.
Lemma answered_ok : gate_ok answered_.
Proof. exact (gstep_ok (GAnswer "e1" "q1" "a" "ada" "k2" "ada" 0 20) asked asked_ok). Qed.
Lemma asked_again_ok : gate_ok asked_again.
Proof. exact (gruns_ok [GConsume "e1" 30; ask_op "q2" "k3" "ada" 0 (Some "r1")] answered_ answered_ok). Qed.
Lemma frozen_ok : gate_ok frozen.
Proof. exact (gstep_ok (GFreeze "r1" manifest 1) prepared prepared_ok). Qed.
Lemma asked_by_bob_ok : gate_ok asked_by_bob.
Proof. exact (gstep_ok (ask_op "q1" "k1" "bob" 7 None) prepared prepared_ok). Qed.
Lemma one_round_ok : gate_ok one_round.
Proof. exact (gstep_ok (GOpenRun "run" 0 "wp" "lane" "ada" 0 1 "src" "inp") empty_gate gate_ok_empty). Qed.
Lemma bad_run_ok : gate_ok bad_run.
Proof. exact (gstep_ok (GRaise "f1" 5 "r1" NIT "") asked asked_ok). Qed.

(** Rows. *)
Definition run_of (max_rounds : Z) : run_row := {| rr_run := {|
  rn_run_id := "run"; rn_wp := "wp"; rn_lane := "lane"; rn_workflow_source_sha := "src";
  rn_input_sha := "inp"; rn_owner_conversation := "ada"; rn_owner_epoch := 0;
  rn_max_rounds := max_rounds; rn_row_version := 1; rn_state := RUN_OPEN |}; rr_created_at := 0 |}.
Definition round1 : GateRound := {|
  gr_round_id := "r1"; gr_run_id := "run"; gr_round_no := 1; gr_predecessor_round_id := None;
  gr_build_inputs := manifest; gr_review_snapshot := None; gr_execution_target := laptop;
  gr_test_command := "make test"; gr_evidence_tier := "t1"; gr_fixture_corpus_sha := None;
  gr_fixture_frame_count := None; gr_subject_sha := None; gr_report_bytes_sha := None;
  gr_verdict_report_sha := None; gr_state := ROUND_OPEN; gr_generation := 0; gr_row_version := 1;
  gr_created_at := 1; gr_closed_at := None |}.
Definition question (i k : string) (prior : DispatchState) : RoundQuestion := {|
  rq_question_id := i; rq_dispatch_id := "d1"; rq_round_id := Some "r1"; rq_client_request_id := k;
  rq_owner_conversation := "ada"; rq_owner_epoch := 0; rq_continuation_kind := ASSIGNMENT;
  rq_continuation_ref := "d1"; rq_asked_at := 10; rq_expires_at := 100; rq_question := "Which one?";
  rq_options := ["a"; "b"]; rq_answer_schema := None; rq_default_answer := None; rq_blocking := true;
  rq_state := Q_PENDING; rq_answer_event_id := None; rq_consumed_at := None; rq_user_prompt_id := None;
  rq_dispatch_prior_state := Some prior; rq_row_version := 1 |}.
Definition answer1 : QuestionAnswer := {|
  qa_answer_event_id := "e1"; qa_question_id := "q1"; qa_answer := "a"; qa_answered_by := "ada";
  qa_answered_at := 20; qa_client_request_id := "k2" |}.

Ltac row n := apply (list_elem_of_lookup_2 _ n); vm_compute; reflexivity.

Example question_asked : round_question asked = [question "q1" "k1" PREPARED].
Proof. vm_compute. reflexivity. Qed.

(** ** Witnesses *)

Lemma gate_refines_life_witness :
  gate_ok asked ∧ question_answer asked `prefix_of` question_answer (gstep (GAnswer "e1" "q1" "a" "ada" "k2" "ada" 0 20) asked).
Proof.
  split; [exact asked_ok|].
  by destruct (gate_refines_life (GAnswer "e1" "q1" "a" "ada" "k2" "ada" 0 20) asked asked_ok)
    as (_ & _ & _ & _ & _ & H & _).
Defined.

Lemma questions_settle_once_witness :
  q_open (settle_question Q_ANSWERED (Some "e1") (question "q1" "k1" PREPARED)) = false
  ∧ ∃ q', q' ∈ round_question (gruns [GAnswer "e2" "q1" "b" "ada" "k9" "ada" 0 21; GExpire 500] answered_)
      ∧ rq_state q' = Q_ANSWERED ∧ rq_answer_event_id q' = Some "e1".
Proof.
  split; [reflexivity|].
  destruct (questions_settle_once [GAnswer "e2" "q1" "b" "ada" "k9" "ada" 0 21; GExpire 500] answered_
    (settle_question Q_ANSWERED (Some "e1") (question "q1" "k1" PREPARED)) answered_ok)
    as (q' & Hq & _ & Hs & He & _); [row 0%nat|reflexivity|]. by exists q'.
Defined.

Lemma ownership_is_monotone_witness :
  run_of 2 ∈ gate_run asked
  ∧ ∃ x', x' ∈ gate_run (gruns [GClaim "t1" 50 "ada" "eve" 3 None "k8" "eve"] asked)
      ∧ owner_kept (rr_run (run_of 2)) (rr_run x').
Proof.
  assert (run_of 2 ∈ gate_run asked) as H by (row 0%nat). split; [exact H|].
  exact (ownership_is_monotone [GClaim "t1" 50 "ada" "eve" 3 None "k8" "eve"] asked (run_of 2) asked_ok H).
Defined.

Definition settling : list gop :=
  [GAdjudicate "r1" 2 5; GReport "r1" "s" "rep" "v" 3; GSettle "r1" true 4 6].

Definition frozen_round : GateRound := freeze_row manifest round1.

Lemma accepted_is_what_was_frozen_witness :
  frozen_round ∈ gate_round frozen
  ∧ value_of (GateRoundService.accept_round (gr_round_id frozen_round) (compute_artifact_sha manifest)
      "cas" "cas" (gruns settling frozen)) = Returned ().
Proof.
  assert (frozen_round ∈ gate_round frozen) as Hin by (row 0%nat). split; [exact Hin|].
  destruct (accepted_is_what_was_frozen settling frozen frozen_round manifest (compute_artifact_sha manifest)
    "cas" "cas" frozen_ok Hin eq_refl) as [_ H].
  apply H. split; [|split; reflexivity]. eexists. split; [row 0%nat|split; reflexivity].
Defined.

Lemma answer_exact_witness :
  let q := question "q1" "k1" PREPARED in
  answer_question "e1" "q1" "a" "eve" "k2" "eve" 0 20 asked = (asked, Raised (refusal OWNER_MISMATCH))
  ∧ ∃ g', answer_question "e1" "q1" "a" "ada" "k2" "ada" 0 20 asked
          = (g', Returned (settle_question Q_ANSWERED (Some "e1") q, answer1)).
Proof.
  split.
  - apply (answer_exact asked (question "q1" "k1" PREPARED) "e1" "a" "eve" "k2" "eve" 0 20 asked_ok);
      [row 0%nat|done..].
  - eexists. apply (answer_exact asked (question "q1" "k1" PREPARED) "e1" "a" "ada" "k2" "ada" 0 20 asked_ok);
      [row 0%nat|done..|by apply not_elem_of_nil].
Defined.

Lemma suspension_is_undone_witness :
  gate_dispatch asked ≠ gate_dispatch prepared
  ∧ gate_dispatch (gruns [GAnswer "e1" "q1" "a" "ada" "k2" "ada" 0 20; GConsume "e1" 30] asked)
    = gate_dispatch prepared.
Proof.
  split; [by vm_compute|].
  destruct (suspension_is_undone prepared "q1" "d1" (Some "r1") "k1" "ada" 0 ASSIGNMENT "d1" "Which one?"
    ["a"; "b"] true 10 100 None None
    (question_with (question "q1" "k1" PREPARED) "ada" 0 Q_PENDING None None None 1) asked) as [H _];
    [exact prepared_ok|vm_compute; reflexivity..|].
  apply (H "e1" "a" "ada" "k2" "ada" 0 20 30 (settle_question Q_ANSWERED (Some "e1") (question "q1" "k1" PREPARED))
    answer1 answered_); vm_compute; reflexivity.
Defined.

Lemma retried_receipt_releases_witness :
  q_open (question "q2" "k3" PREPARED) = true
  ∧ ∃ g', mark_answer_consumed "e1" 60 asked_again = (g', Returned ())
    ∧ question "q2" "k3" PREPARED ∈ round_question g'.
Proof.
  split; [reflexivity|].
  destruct (retried_receipt_releases asked_again answer1
    (set_consumed 30 (settle_question Q_ANSWERED (Some "e1") (question "q1" "k1" PREPARED)))
    (question "q2" "k3" PREPARED) (builder AWAITING_ANSWER) 60 asked_again_ok)
    as (g' & Hc & Hq & _); [row 0%nat|row 0%nat|done|done|row 1%nat|done|done|row 0%nat|done|done|].
  by exists g'.
Defined.

Lemma roundless_claim_is_unfenced_witness :
  ∃ g', state_of (claim_ownership "t1" 50 "bob" "eve" 3 None "k8" "eve" asked_by_bob) = g'
    ∧ ∃ q, q ∈ round_question g' ∧ rq_owner_conversation q = "eve" ∧ rq_owner_epoch q = 3.
Proof.
  destruct (roundless_claim_is_unfenced asked_by_bob "t1" 50 "bob" "eve" 3 "k8" "eve" asked_by_bob_ok)
    as (g' & n & Hc & _ & Hq).
  - intros x [->|Hx%not_elem_of_nil]%elem_of_cons; done.
  - by apply not_elem_of_nil.
  - by apply not_elem_of_nil.
  - exists g'. split; [by rewrite Hc|]. eexists. split; [eapply Hq; [row 0%nat|done|done]|done].
Defined.

Lemma empty_statement_poisons_run_witness :
  raise_finding "f1" 5 "r1" NIT "" asked = (bad_run, Raised (ValueError "OpenFinding"))
  ∧ ∃ e, project_round "r1" (gruns [] bad_run) = (bad_run, Raised e).
Proof.
  destruct (empty_statement_poisons_run asked round1 "f1" 5 NIT [] asked_ok) as (Hr & _ & Hp & _).
  - row 0%nat.
  - by left.
  - by apply not_elem_of_nil.
  - split; [exact Hr|]. apply (Hp round1); [row 0%nat|done].
Defined.

Lemma two_openers_overrun_witness :
  GateRoundService.may_open_round "run" one_round = (one_round, Returned ())
  ∧ ∃ r1 r2 g1 g2,
      SqliteGateStore.open_round "r1" 1 "run" manifest laptop None "t" "e" 0 one_round = (g1, Returned r1)
      ∧ SqliteGateStore.open_round "r2" 1 "run" manifest laptop None "t" "e" 0 g1 = (g2, Returned r2)
      ∧ gr_round_no r2 = 2.
Proof.
  destruct (two_openers_overrun one_round (run_of 1) "r1" "r2" 1 manifest laptop None "t" "e" 0 one_round_ok)
    as (Hmay & _ & r1 & r2 & g1 & g2 & H1 & H2 & _ & Hn & _); try done.
  - row 0%nat.
  - by apply not_elem_of_nil.
  - by apply not_elem_of_nil.
  - split; [exact Hmay|]. by exists r1, r2, g1, g2.
Defined.

Definition told (_ : list notice_call) (_ : notice_call) : outcome (option string) := Returned (Some "msg").
Definition expired1 : RoundQuestion := settle_question Q_EXPIRED None (question "q1" "k1" PREPARED).

Lemma due_valid g : round_question g = [question "q1" "k1" PREPARED] →
  ∀ q, q ∈ due_at 200 g → RoundQuestion_valid q = true.
Proof. intros Hg q [_ Hq]%elem_of_select. rewrite Hg in Hq. by apply list_elem_of_singleton in Hq as ->. Qed.

Lemma expiry_is_all_or_nothing_witness :
  value_of (expire_due_questions 200 asked) = Returned [expired1].
Proof.
  destruct (expiry_is_all_or_nothing asked 200 asked_ok) as [H _]. rewrite H; [reflexivity|].
  by apply due_valid.
Defined.

Lemma sweep_notifies_each_once_witness :
  ∃ d call, GateQuestionService.sweep_expired (Some told) (λ _, "") 200 (λ _, 201)
      {| dk_gate := asked; dk_notified := [] |} = (d, Returned [expired1])
    ∧ dk_notified d = [call] ∧ nc_question call = expired1.
Proof.
  destruct (sweep_notifies_each_once told (λ _, "") 200 (λ _, 201) asked [] asked_ok)
    as (news & notices & Hrun & Hann & _).
  - by apply due_valid.
  - intros q Hq. change (q ∈ [expired1]) in Hq. apply list_elem_of_singleton in Hq as ->.
    eexists. vm_compute. reflexivity.
  - change (settle_question Q_EXPIRED None <$> due_at 200 asked) with [expired1] in *.
    apply Forall2_cons_inv_l in Hann as (c & rest & Hc & Hrest & ->). apply Forall2_nil_inv_l in Hrest as ->.
    destruct Hc as (who & e & _ & _ & ->). by eexists _, _.
Defined.

Lemma bad_run_silences_sweep_witness :
  question_notice_intent (expired_record 200 bad_run) = question_notice_intent bad_run
  ∧ ∃ e, GateQuestionService.sweep_expired (Some told) (λ _, "") 200 (λ _, 201)
      {| dk_gate := bad_run; dk_notified := [] |}
      = ({| dk_gate := expired_record 200 bad_run; dk_notified := [] |}, Raised e).
Proof.
  destruct (bad_run_silences_sweep told (λ _, "") 200 (λ _, 201) bad_run []
    {| fb_finding_id := "f1"; fb_raised_in_round := "r1"; fb_run_id := "run"; fb_severity := NIT;
       fb_statement := ""; fb_created_at := 5 |} round1 (question "q1" "k1" PREPARED) [] bad_run_ok)
    as (e & Hrun & Hn & _); try done.
  - by apply due_valid.
  - row 0%nat.
  - row 0%nat.
  - by left.
  - split; [exact Hn|]. by exists e.
Defined.

Lemma manifest_separable : separable manifest.
Proof. split; repeat constructor; by vm_compute. Qed.

Lemma artifact_address_injective_witness :
  separable manifest ∧ (artifact_bytes manifest = artifact_bytes manifest ↔ addressed manifest = addressed manifest).
Proof.
  split; [exact manifest_separable|].
  exact (proj1 (artifact_address_injective manifest manifest manifest_separable manifest_separable)).
Defined.

(** Two contents, one address: a path that holds the separator. *)
Definition with_entry (pre post : string) : ArtifactManifest := {|
  am_manifest_version := 1; am_repo_bindings := []; am_base_sha := "b0"; am_head_sha := "b1";
  am_branch := "main"; am_worktree_path := "/w";
  am_entries := [{| de_pre_path := Some pre; de_post_path := Some post; de_mode := "644";
                    de_pre_object_id := None; de_post_object_id := None; de_deleted := false |}];
  am_blueprint_sha := "bp"; am_ac_list_sha := "ac" |}.
Example address_collision :
  ArtifactManifest_valid (with_entry "a|b" "c") = true ∧ ArtifactManifest_valid (with_entry "a" "b|c") = true
  ∧ artifact_bytes (with_entry "a|b" "c") = artifact_bytes (with_entry "a" "b|c")
  ∧ addressed (with_entry "a|b" "c") ≠ addressed (with_entry "a" "b|c").
Proof. by vm_compute. Qed.

Lemma envelopes_fit_witness :
  ∃ e, render_question_envelope (question "q1" "k1" PREPARED)
         {| id_who := "lane"; id_context := "wp r1"; id_ref := "q1" |} "" = Returned e
    ∧ (length (ce_lines e) <= 4)%nat.
Proof.
  destruct (envelopes_fit (question "q1" "k1" PREPARED)
    {| id_who := "lane"; id_context := "wp r1"; id_ref := "q1" |} "") as [(e & He & _ & _ & Hl) _];
    [by vm_compute|by repeat constructor|].
  exists e. split; [exact He|]. destruct Hl as (body & pointer & -> & Hb & _).
  simpl. rewrite length_app. unfold _MAX_SUMMARY_LINES in Hb. simpl. lia.
Defined.
