(* ===== verification/Screen.v ===== *)
(** * The classification law for terminal screens — [kernel/receiver_state/classification.py]

    Providers read a captured screen into signals, each on a row of the viewport.
    The law here is the same for all of them: which signals count, and what status
    they make.  Progress that may only be corroborated ([CORROBORABLE]) does not
    count when the frame before showed the very same row. *)

From stdpp Require Import gmap.
From S2P Require Import Prelude Text.

(** [models/terminal.py] *)
Inductive TerminalStatus :=
| TS_UNKNOWN | TS_IDLE | TS_PROCESSING | TS_COMPLETED | TS_WAITING_USER_ANSWER
| TS_RENDER_UNCERTAIN | TS_ERROR.
#[export] Instance TerminalStatus_eq_dec : EqDecision TerminalStatus. Proof. solve_decision. Defined.

Inductive SignalClass := WAITING | ERROR | PROGRESS | COMPLETION | CHROME | NO_SIGNAL_CLASS.
#[export] Instance SignalClass_eq_dec : EqDecision SignalClass. Proof. solve_decision. Defined.
Inductive TemporalPolicy := CORROBORABLE | EXEMPT | NO_POLICY.
#[export] Instance TemporalPolicy_eq_dec : EqDecision TemporalPolicy. Proof. solve_decision. Defined.

Record AnchorSpec := { an_provider_signal : string; an_temporal_policy : TemporalPolicy }.

Record ScreenSignal := {
  sg_class : SignalClass;
  sg_provider_signal : string;
  sg_row_index : Z;
  sg_row_bytes : option string;
  sg_policy : TemporalPolicy;
}.
#[export] Instance ScreenSignal_eq_dec : EqDecision ScreenSignal. Proof. solve_decision. Defined.

(** [ScreenSignal.__post_init__] *)
Definition ScreenSignal_valid (s : ScreenSignal) : bool :=
  negb (bool_decide (sg_policy s = CORROBORABLE) && bool_decide (sg_row_bytes s = None)).

Record ScreenClassification := {
  cl_status : TerminalStatus;
  cl_class : SignalClass;
  cl_provider_signal : option string;
  cl_row_index : option Z;
}.
#[export] Instance ScreenClassification_eq_dec : EqDecision ScreenClassification.
Proof. solve_decision. Defined.

Record ScreenClassificationResult := {
  sr_classification : ScreenClassification;
  sr_signals : list ScreenSignal;
}.
#[export] Instance ScreenClassificationResult_eq_dec : EqDecision ScreenClassificationResult.
Proof. solve_decision. Defined.

(** ** Corroboration *)

(** The condition of the comprehensions: progress of the anchor, or any progress
    that may be corroborated. *)
Definition anchored (anchor : option AnchorSpec) (s : ScreenSignal) : bool :=
  bool_decide (sg_class s = PROGRESS)
  && match anchor with
     | None => bool_decide (sg_policy s = CORROBORABLE)
     | Some a => bool_decide (sg_provider_signal s = an_provider_signal a)
                 && bool_decide (sg_policy s = an_temporal_policy a)
     end
  && negb (bool_decide (sg_row_bytes s = None)).

(** [Counter(..)] of the rows of the frame before *)
Definition counter (rows : list string) : gmap string Z :=
  foldl (λ m r, <[r := default 0 (m !! r) + 1]> m) ∅ rows.

(** [enumerate(signals)] *)
Definition enumerate {A} (l : list A) : list (nat * A) := zip (seq 0 (length l)) l.

(** [key=lambda item: (item[1].row_index, item[0])] *)
Definition candidate_le (x y : nat * ScreenSignal) : Prop :=
  sg_row_index x.2 < sg_row_index y.2
  ∨ (sg_row_index x.2 = sg_row_index y.2 ∧ (x.1 <= y.1)%nat).
#[export] Instance candidate_le_dec x y : Decision (candidate_le x y).
Proof. unfold candidate_le. apply _. Defined.

Definition candidates (anchor : option AnchorSpec) (signals : list ScreenSignal) : list (nat * ScreenSignal) :=
  merge_sort candidate_le (filter (λ x, anchored anchor x.2 = true) (enumerate signals)).

(** One turn of the loop over the sorted candidates. *)
Definition demote (acc : gmap string Z * list nat) (x : nat * ScreenSignal) : gmap string Z * list nat :=
  match sg_row_bytes x.2 with
  | None => acc
  | Some r =>
      let n := default 0 (acc.1 !! r) in
      if 0 <? n then (<[r := n - 1]> acc.1, acc.2 ++ [x.1]) else acc
  end.

Definition demoted (anchor : option AnchorSpec) (signals prior : list ScreenSignal) : list nat :=
  (foldl demote (counter (omap sg_row_bytes (filter (λ s, anchored anchor s = true) prior)), [])
     (candidates anchor signals)).2.

Definition effective (anchor : option AnchorSpec) (signals prior : list ScreenSignal) : list ScreenSignal :=
  snd <$> filter (λ x, x.1 ∉ demoted anchor signals prior) (enumerate signals).

(** ** The law *)

Definition max_row (s : ScreenSignal) (rest : list ScreenSignal) : Z :=
  foldl (λ m x, Z.max m (sg_row_index x)) (sg_row_index s) rest.

(** [min(.., key=..)]: the first of the least. *)
Definition lexically_first (s : ScreenSignal) (rest : list ScreenSignal) : ScreenSignal :=
  foldl (λ m x, if String.ltb (sg_provider_signal x) (sg_provider_signal m) then x else m) s rest.

(** [_select] of a non-empty list; [max] of nothing raises, and is not reached. *)
Definition _select (s : ScreenSignal) (rest : list ScreenSignal) : ScreenSignal :=
  let row := max_row s rest in
  match filter (λ x, sg_row_index x = row) (s :: rest) with
  | [] => s
  | x :: xs => lexically_first x xs
  end.

Definition of_class (c : SignalClass) (l : list ScreenSignal) : list ScreenSignal :=
  filter (λ s, sg_class s = c) l.

Definition decided (status : TerminalStatus) (s : ScreenSignal) : ScreenClassification := {|
  cl_status := status; cl_class := sg_class s; cl_provider_signal := Some (sg_provider_signal s);
  cl_row_index := Some (sg_row_index s) |}.

Definition unknown_screen : ScreenClassification := {|
  cl_status := TS_UNKNOWN; cl_class := NO_SIGNAL_CLASS; cl_provider_signal := None; cl_row_index := None |}.

(** The newest row with progress or completion on it; progress wins a tie. *)
Definition flow_verdict (s : ScreenSignal) (rest : list ScreenSignal) : ScreenClassification :=
  let newest := filter (λ x, sg_row_index x = max_row s rest) (s :: rest) in
  let progress := of_class PROGRESS newest in
  match (if bool_decide (progress = []) then newest else progress) with
  | [] => unknown_screen
  | x :: xs =>
      let selected := _select x xs in
      decided (if bool_decide (sg_class selected = PROGRESS) then TS_PROCESSING else TS_COMPLETED) selected
  end.

Definition law (signals : list ScreenSignal) : ScreenClassification :=
  match of_class WAITING signals with
  | x :: xs => decided TS_WAITING_USER_ANSWER (_select x xs)
  | [] =>
  match of_class ERROR signals with
  | x :: xs => decided TS_ERROR (_select x xs)
  | [] =>
  match filter (λ s, sg_class s ∈ [PROGRESS; COMPLETION]) signals with
  | x :: xs => flow_verdict x xs
  | [] =>
  match of_class CHROME signals with
  | x :: xs => decided TS_IDLE (_select x xs)
  | [] => unknown_screen
  end end end end.

Definition classify_screen_signals (signals prior : list ScreenSignal) (anchor : option AnchorSpec)
    : ScreenClassification := law (effective anchor signals prior).

Definition screen_classification_result (signals prior : list ScreenSignal) (anchor : option AnchorSpec)
    : ScreenClassificationResult := {|
  sr_classification := classify_screen_signals signals prior anchor; sr_signals := signals |}.

(** [ScreenClassificationResult.status] and the like *)
Definition sr_status (r : ScreenClassificationResult) : TerminalStatus := cl_status (sr_classification r).

Definition spinner (row : Z) (text : string) : ScreenSignal := {|
  sg_class := PROGRESS; sg_provider_signal := "spinner"; sg_row_index := row;
  sg_row_bytes := Some text; sg_policy := CORROBORABLE |}.
Definition prompt (row : Z) : ScreenSignal := {|
  sg_class := CHROME; sg_provider_signal := "prompt"; sg_row_index := row; sg_row_bytes := None;
  sg_policy := NO_POLICY |}.
Example moving_spinner :
  cl_status (classify_screen_signals [spinner 3 "|"; prompt 5] [spinner 3 "/"] None) = TS_PROCESSING.
Proof. vm_compute. reflexivity. Qed.
Example frozen_spinner :
  cl_status (classify_screen_signals [spinner 3 "|"; prompt 5] [spinner 3 "|"] None) = TS_IDLE.
Proof. vm_compute. reflexivity. Qed.

(** * What the screen law decides

    Which progress counts: the rows of the frame before cancel as many equal rows
    of this one, from the top; and the status, stated without the algorithm. *)

(** ** Counting *)

Definition times (r : string) (l : list string) : nat := length (filter (λ x, x = r) l).

Lemma times_cons r x l : times r (x :: l) = ((if decide (x = r) then 1 else 0) + times r l)%nat.
Proof. unfold times. rewrite filter_cons. by case_decide. Qed.

Lemma counter_count rows r : default 0 (counter rows !! r) = Z.of_nat (times r rows).
Proof.
  unfold counter.
  assert (∀ m : gmap string Z, default 0 (foldl (λ m r, <[r := default 0 (m !! r) + 1]> m) m rows !! r)
    = default 0 (m !! r) + Z.of_nat (times r rows)) as H.
  { induction rows as [|x rows IH]; intros m; simpl; [unfold times; simpl; lia|].
    rewrite IH, times_cons. destruct (decide (x = r)) as [->|Hne].
    - rewrite lookup_insert_eq. simpl. lia.
    - rewrite lookup_insert_ne by done. lia. }
  rewrite H. by rewrite lookup_empty.
Qed.

(** ** The loop *)

Definition of_text (r : string) (cs : list (nat * ScreenSignal)) : list (nat * ScreenSignal) :=
  filter (λ x, sg_row_bytes x.2 = Some r) cs.

Lemma demote_keeps cs : ∀ m ds i, i ∈ ds → i ∈ (foldl demote (m, ds) cs).2.
Proof.
  induction cs as [|c cs IH]; intros m ds i Hi; [done|]. simpl. unfold demote at 2.
  destruct (sg_row_bytes c.2); [|by apply IH]. simpl. case_match; [|by apply IH].
  apply IH, elem_of_app. by left.
Qed.

Lemma demote_from cs : ∀ m ds i, i ∈ (foldl demote (m, ds) cs).2 → i ∈ ds ∨ i ∈ cs.*1.
Proof.
  induction cs as [|c cs IH]; intros m ds i Hi; [by left|]. simpl in Hi. unfold demote at 2 in Hi.
  rewrite fmap_cons, elem_of_cons.
  destruct (sg_row_bytes c.2); [|apply IH in Hi as [?|?]; auto]. simpl in Hi. case_match.
  - apply IH in Hi as [[?| ->%list_elem_of_singleton]%elem_of_app|?]; auto.
  - apply IH in Hi as [?|?]; auto.
Qed.

(** Of the candidates that show [r], the first as many as the counter has. *)
Lemma demote_spec cs : ∀ m ds x r,
  NoDup (cs.*1) → x ∈ cs → sg_row_bytes x.2 = Some r → x.1 ∉ ds →
  (∀ k, 0 <= default 0 (m !! k)) →
  x.1 ∈ (foldl demote (m, ds) cs).2 ↔ x ∈ take (Z.to_nat (default 0 (m !! r))) (of_text r cs).
Proof.
  induction cs as [|c cs IH]; intros m ds x r Hnd Hx Hr Hds Hm; [by apply not_elem_of_nil in Hx|].
  rewrite fmap_cons in Hnd. apply NoDup_cons in Hnd as [Hc Hnd]. simpl. unfold demote at 2. simpl.
  apply elem_of_cons in Hx as [->|Hx].
  - rewrite Hr. unfold of_text. rewrite filter_cons_True by done.
    destruct (Z.ltb_spec 0 (default 0 (m !! r))) as [Hlt|Hge]; simpl.
    + replace (Z.to_nat (default 0 (m !! r))) with (S (Z.to_nat (default 0 (m !! r) - 1))) by lia.
      simpl. split; [intros _; by left|]. intros _. apply demote_keeps, elem_of_app. right. by left.
    + replace (Z.to_nat (default 0 (m !! r))) with 0%nat by lia. simpl. split.
      * by intros [?|?]%demote_from.
      * by intros ?%not_elem_of_nil.
  - assert (x.1 ≠ c.1) as Hne by (intros He; apply Hc; rewrite <- He; by apply list_elem_of_fmap_2).
    assert (x ≠ c) as Hxc by congruence. unfold of_text in *.
    destruct (sg_row_bytes c.2) as [r'|] eqn:E; [|by rewrite (IH _ _ x r), (filter_cons_False _ c) by congruence].
    destruct (Z.ltb_spec 0 (default 0 (m !! r'))) as [Hlt|Hge]; simpl.
    + rewrite (IH _ _ x r); [|done..| |].
      * destruct (decide (r' = r)) as [->|Hrr].
        -- rewrite lookup_insert_eq, (filter_cons_True _ c) by done. simpl.
           replace (Z.to_nat (default 0 (m !! r))) with (S (Z.to_nat (default 0 (m !! r) - 1))) by lia.
           simpl. rewrite elem_of_cons. split; [by right|by intros [?|?]].
        -- by rewrite lookup_insert_ne, (filter_cons_False _ c) by (done || congruence).
      * rewrite elem_of_app, list_elem_of_singleton. by intros [?|?].
      * intros k. destruct (decide (r' = k)) as [->|?].
        -- rewrite lookup_insert_eq. simpl. lia.
        -- rewrite lookup_insert_ne by done. apply Hm.
    + rewrite (IH _ _ x r) by done. destruct (decide (r' = r)) as [->|Hrr].
      * by replace (Z.to_nat (default 0 (m !! r))) with 0%nat by lia.
      * by rewrite (filter_cons_False _ c) by congruence.
Qed.

(** ** Positions *)

Lemma enumerate_snd {A} (l : list A) : (enumerate l).*2 = l.
Proof. apply snd_zip. by rewrite length_seq. Qed.
Lemma enumerate_fst {A} (l : list A) : (enumerate l).*1 = seq 0 (length l).
Proof. apply fst_zip. by rewrite length_seq. Qed.

Lemma elem_of_enumerate {A} (l : list A) i x : (i, x) ∈ enumerate l ↔ l !! i = Some x.
Proof.
  unfold enumerate. rewrite list_elem_of_lookup. setoid_rewrite lookup_zip_Some.
  setoid_rewrite lookup_seq. split.
  - intros (j & [-> _] & Hx). done.
  - intros Hx. exists i. split_and!; [done|by eapply lookup_lt_Some|done].
Qed.

Section Law.
Context (anchor : option AnchorSpec) (signals prior : list ScreenSignal).

Lemma elem_of_candidates i s :
  (i, s) ∈ candidates anchor signals ↔ signals !! i = Some s ∧ anchored anchor s = true.
Proof using Type.
  unfold candidates. rewrite merge_sort_Permutation, list_elem_of_filter, elem_of_enumerate. simpl. tauto.
Qed.

Lemma candidates_once : NoDup ((candidates anchor signals).*1).
Proof using Type.
  unfold candidates. rewrite merge_sort_Permutation.
  apply (NoDup_key_sublist fst (enumerate signals)); [|apply sublist_filter].
  rewrite enumerate_fst. apply NoDup_seq.
Qed.

Lemma anchored_text s : anchored anchor s = true → ∃ r, sg_row_bytes s = Some r.
Proof using Type.
  unfold anchored. intros [_ Hb]%andb_true_iff. destruct (sg_row_bytes s) as [r|]; [by exists r|done].
Qed.

(** The rows a frame shows of what may only be corroborated. *)
Definition rows_of (frame : list ScreenSignal) : list string :=
  omap sg_row_bytes (filter (λ s, anchored anchor s = true) frame).

Lemma elem_of_demoted i s r :
  signals !! i = Some s → sg_row_bytes s = Some r → anchored anchor s = true →
  i ∈ demoted anchor signals prior ↔ (i, s) ∈ take (times r (rows_of prior)) (of_text r (candidates anchor signals)).
Proof using Type.
  intros Hi Hr Ha. unfold demoted. change i with (i, s).1 at 1.
  rewrite (demote_spec _ _ _ (i, s) r).
  - by rewrite counter_count, Nat2Z.id.
  - apply candidates_once.
  - by apply elem_of_candidates.
  - done.
  - by apply not_elem_of_nil.
  - intros k. rewrite counter_count. lia.
Qed.

Lemma demoted_anchored i : i ∈ demoted anchor signals prior → ∃ s, signals !! i = Some s ∧ anchored anchor s = true.
Proof using Type.
  intros [?%not_elem_of_nil|([j s] & -> & Hj)%list_elem_of_fmap]%demote_from; [done|].
  exists s. by apply elem_of_candidates.
Qed.

Lemma elem_of_effective s :
  s ∈ effective anchor signals prior ↔ ∃ i, signals !! i = Some s ∧ i ∉ demoted anchor signals prior.
Proof using Type.
  unfold effective. rewrite list_elem_of_fmap. split.
  - intros ([i x] & -> & [Hi Hx]%list_elem_of_filter). exists i. by rewrite elem_of_enumerate in Hx.
  - intros (i & Hi & Hd). exists (i, s). split; [done|]. apply list_elem_of_filter. by rewrite elem_of_enumerate.
Qed.

Lemma of_text_count r : length (of_text r (candidates anchor signals)) = times r (rows_of signals).
Proof using Type.
  unfold candidates, of_text, rows_of. rewrite merge_sort_Permutation. rewrite <- (enumerate_snd signals) at 2.
  unfold times. induction (enumerate signals) as [|x l IH]; [done|]. cbn [fmap list_fmap].
  rewrite !(filter_cons _ x), (filter_cons _ x.2). case_decide as Ha; [|done].
  rewrite filter_cons. simpl. destruct (sg_row_bytes x.2) as [t|]; [|by rewrite decide_False].
  rewrite filter_cons. destruct (decide (t = r)) as [->|Hne].
  - rewrite decide_True by done. simpl. by f_equal.
  - by rewrite decide_False by congruence.
Qed.

(** A frame keeps progress exactly when some row shows more often than before. *)
Lemma effective_progress :
  (∀ s, s ∈ signals → sg_class s = PROGRESS → anchored anchor s = true) →
  (∃ s, s ∈ effective anchor signals prior ∧ sg_class s = PROGRESS)
  ↔ ∃ r, (times r (rows_of prior) < times r (rows_of signals))%nat.
Proof using Type.
  intros Hall. split.
  - intros (s & (i & Hi & Hd)%elem_of_effective & Hp).
    assert (anchored anchor s = true) as Ha by (apply Hall; [by eapply list_elem_of_lookup_2|done]).
    destruct (anchored_text s Ha) as [r Hr]. exists r. rewrite (elem_of_demoted i s r) in Hd by done.
    destruct (Nat.lt_ge_cases (times r (rows_of prior)) (times r (rows_of signals))) as [?|Hge]; [done|].
    destruct Hd. rewrite take_ge by (by rewrite of_text_count). apply list_elem_of_filter.
    split; [done|]. by apply elem_of_candidates.
  - intros [r Hr]. rewrite <- of_text_count in Hr. apply lookup_lt_is_Some in Hr as [[i s] Hx].
    pose proof (list_elem_of_lookup_2 _ _ _ Hx) as [Ht [Hi Ha]%elem_of_candidates]%list_elem_of_filter.
    simpl in Ht. exists s. split.
    + apply elem_of_effective. exists i. split; [done|]. rewrite (elem_of_demoted i s r) by done.
      intros (j & Hj & Hlt)%elem_of_take. assert (j = times r (rows_of prior)) as ->; [|lia].
      eapply NoDup_lookup; [|done..]. apply NoDup_filter.
      apply (NoDup_fmap_1 fst), candidates_once.
    + unfold anchored in Ha. by apply andb_true_iff in Ha as [[?%bool_decide_eq_true _]%andb_true_iff _].
Qed.
End Law.

(** ** The law as a relation *)

(** [s] decides its class in [E]: the lowest row, then the least name. *)
Definition leads (c : SignalClass) (s : ScreenSignal) (E : list ScreenSignal) : Prop :=
  s ∈ E ∧ sg_class s = c ∧ ∀ x, x ∈ E → sg_class x = c →
    sg_row_index x < sg_row_index s
    ∨ (sg_row_index x = sg_row_index s ∧ String.leb (sg_provider_signal s) (sg_provider_signal x) = true).
Definition lacks (c : SignalClass) (E : list ScreenSignal) : Prop := ∀ x, x ∈ E → sg_class x ≠ c.

Inductive verdict (E : list ScreenSignal) : ScreenClassification → Prop :=
| Vwaiting s : leads WAITING s E → verdict E (decided TS_WAITING_USER_ANSWER s)
| Verror s : lacks WAITING E → leads ERROR s E → verdict E (decided TS_ERROR s)
| Vprocessing s : lacks WAITING E → lacks ERROR E → leads PROGRESS s E →
    (∀ x, x ∈ E → sg_class x = COMPLETION → sg_row_index x <= sg_row_index s) →
    verdict E (decided TS_PROCESSING s)
| Vcompleted s : lacks WAITING E → lacks ERROR E → leads COMPLETION s E →
    (∀ x, x ∈ E → sg_class x = PROGRESS → sg_row_index x < sg_row_index s) →
    verdict E (decided TS_COMPLETED s)
| Vidle s : lacks WAITING E → lacks ERROR E → lacks PROGRESS E → lacks COMPLETION E →
    leads CHROME s E → verdict E (decided TS_IDLE s)
| Vunknown : lacks WAITING E → lacks ERROR E → lacks PROGRESS E → lacks COMPLETION E →
    lacks CHROME E → verdict E unknown_screen.

Lemma max_row_spec s rest : (∀ x, x ∈ s :: rest → sg_row_index x <= max_row s rest)
  ∧ ∃ x, x ∈ s :: rest ∧ sg_row_index x = max_row s rest.
Proof.
  unfold max_row. assert (∀ m, m <= foldl (λ m x, Z.max m (sg_row_index x)) m rest
    ∧ (∀ x, x ∈ rest → sg_row_index x <= foldl (λ m x, Z.max m (sg_row_index x)) m rest)
    ∧ (foldl (λ m x, Z.max m (sg_row_index x)) m rest = m
       ∨ ∃ x, x ∈ rest ∧ sg_row_index x = foldl (λ m x, Z.max m (sg_row_index x)) m rest)) as H.
  { induction rest as [|y rest IH]; intros m; simpl.
    - split_and!; [lia|by intros ? ?%not_elem_of_nil|by left].
    - destruct (IH (Z.max m (sg_row_index y))) as (H1 & H2 & H3). split_and!; [lia| |].
      + intros x [->|Hx]%elem_of_cons; [lia|by apply H2].
      + destruct H3 as [H3|(x & Hx & He)].
        * destruct (Z.max_spec m (sg_row_index y)) as [[_ E]|[_ E]]; [|left; lia].
          right. exists y. split; [by left|lia].
        * right. exists x. split; [by right|done]. }
  destruct (H (sg_row_index s)) as (H1 & H2 & H3). split.
  - intros x [->|Hx]%elem_of_cons; [done|by apply H2].
  - destruct H3 as [->|(x & Hx & He)]; [exists s; split; [by left|done]|exists x; split; [by right|done]].
Qed.

Lemma lexically_first_spec s rest :
  lexically_first s rest ∈ s :: rest
  ∧ ∀ x, x ∈ s :: rest → String.leb (sg_provider_signal (lexically_first s rest)) (sg_provider_signal x) = true.
Proof.
  unfold lexically_first. revert s. induction rest as [|y rest IH]; intros s; simpl.
  - split; [by left|]. intros x ->%list_elem_of_singleton. apply string_leb_refl.
  - set (m := if String.ltb _ _ then y else s). destruct (IH m) as [Hin Hle].
    assert (String.leb (sg_provider_signal m) (sg_provider_signal s) = true
      ∧ String.leb (sg_provider_signal m) (sg_provider_signal y) = true) as [Hs Hy].
    { destruct (string_ltb_leb (sg_provider_signal y) (sg_provider_signal s)). unfold m. by case_match. }
    split.
    + apply elem_of_cons in Hin as [->|Hin]; [unfold m; case_match; [right; left|left]|right; by right].
    + intros x Hx. apply elem_of_cons in Hx as [->|[->|Hx]%elem_of_cons].
      * eapply string_leb_trans; [apply Hle; by left|done].
      * eapply string_leb_trans; [apply Hle; by left|done].
      * apply Hle. by right.
Qed.

Lemma select_spec s rest :
  _select s rest ∈ s :: rest
  ∧ ∀ x, x ∈ s :: rest → sg_row_index x < sg_row_index (_select s rest)
      ∨ (sg_row_index x = sg_row_index (_select s rest)
         ∧ String.leb (sg_provider_signal (_select s rest)) (sg_provider_signal x) = true).
Proof.
  destruct (max_row_spec s rest) as [Hmax (w & Hw & Hwr)]. unfold _select.
  destruct (filter (λ x, sg_row_index x = max_row s rest) (s :: rest)) as [|y ys] eqn:E.
  { assert (w ∈ filter (λ x, sg_row_index x = max_row s rest) (s :: rest)) as Hin by (by apply list_elem_of_filter).
    rewrite E in Hin. by apply not_elem_of_nil in Hin. }
  destruct (lexically_first_spec y ys) as [Hin Hle]. pose proof Hin as Hin'. rewrite <- E in Hin'.
  apply list_elem_of_filter in Hin' as [Hrow Hmem]. split; [done|]. intros x Hx.
  destruct (decide (sg_row_index x = max_row s rest)) as [He|He].
  - right. rewrite Hrow. split; [done|]. apply Hle. rewrite <- E. by apply list_elem_of_filter.
  - left. specialize (Hmax x Hx). lia.
Qed.

Lemma select_leads c E x xs : of_class c E = x :: xs → leads c (_select x xs) E.
Proof.
  intros H. destruct (select_spec x xs) as [Hin Hle]. rewrite <- H in Hin, Hle.
  apply list_elem_of_filter in Hin as [Hc Hin]. split_and!; [done..|].
  intros y Hy Hyc. apply Hle. by apply list_elem_of_filter.
Qed.

Lemma lacks_of_class c E : of_class c E = [] → lacks c E.
Proof.
  intros H x Hx Hc. assert (x ∈ of_class c E) as Hin by (by apply list_elem_of_filter).
  rewrite H in Hin. by apply not_elem_of_nil in Hin.
Qed.

Lemma flow_verdict_sound E x xs :
  lacks WAITING E → lacks ERROR E →
  filter (λ s, sg_class s ∈ [PROGRESS; COMPLETION]) E = x :: xs → verdict E (flow_verdict x xs).
Proof.
  intros Hw He Hf. destruct (max_row_spec x xs) as [Hmax (w & Hwin & Hwr)].
  assert (∀ s, s ∈ E → sg_class s ∈ [PROGRESS; COMPLETION] → s ∈ x :: xs) as Hin
    by (intros s Hs Hc; rewrite <- Hf; by apply list_elem_of_filter).
  assert (∀ s, s ∈ x :: xs → s ∈ E ∧ sg_class s ∈ [PROGRESS; COMPLETION]) as Hout
    by (intros s Hs; rewrite <- Hf in Hs; apply list_elem_of_filter in Hs as [??]; done).
  assert (PROGRESS ∈ [PROGRESS; COMPLETION] ∧ COMPLETION ∈ [PROGRESS; COMPLETION]) as [HP HC]
    by (split; [left|right; left]).
  unfold flow_verdict. set (newest := filter (λ s, sg_row_index s = max_row x xs) (x :: xs)).
  case_bool_decide as Hp.
  - assert (∀ s, s ∈ x :: xs → sg_class s = PROGRESS → sg_row_index s < max_row x xs) as Hlt.
    { intros s Hs Hc. specialize (Hmax s Hs). destruct (decide (sg_row_index s = max_row x xs)); [|lia].
      destruct (lacks_of_class _ _ Hp s); [|done]. by apply list_elem_of_filter. }
    destruct newest as [|y ys] eqn:E'.
    { assert (w ∈ newest) as Hn by (by apply list_elem_of_filter). rewrite E' in Hn. by apply not_elem_of_nil in Hn. }
    destruct (select_spec y ys) as [Hsel Hle]. rewrite <- E' in Hsel, Hle.
    apply list_elem_of_filter in Hsel as [Hrow Hsel]. destruct (Hout _ Hsel) as [HselE Hc].
    assert (sg_class (_select y ys) = COMPLETION) as Hcc.
    { apply elem_of_cons in Hc as [Hc|Hc%list_elem_of_singleton]; [|done]. specialize (Hlt _ Hsel Hc). lia. }
    rewrite bool_decide_eq_false_2 by congruence. apply Vcompleted; [done..| |].
    + split_and!; [done..|]. intros s Hs Hsc. assert (s ∈ x :: xs) as Hsx by (apply Hin; [done|by rewrite Hsc]).
      specialize (Hmax s Hsx). destruct (decide (sg_row_index s = max_row x xs)); [|left; lia].
      apply Hle. by apply list_elem_of_filter.
    + intros s Hs Hsc. rewrite Hrow. apply Hlt; [|done]. apply Hin; [done|by rewrite Hsc].
  - destruct (of_class PROGRESS newest) as [|y ys] eqn:E'; [done|].
    destruct (select_spec y ys) as [Hsel Hle]. rewrite <- E' in Hsel, Hle.
    apply list_elem_of_filter in Hsel as [Hc [Hrow Hsel]%list_elem_of_filter].
    rewrite bool_decide_eq_true_2 by done. apply Vprocessing; [done..| |].
    + split_and!; [by apply Hout|done|]. intros s Hs Hsc.
      assert (s ∈ x :: xs) as Hsx by (apply Hin; [done|by rewrite Hsc]).
      specialize (Hmax s Hsx). destruct (decide (sg_row_index s = max_row x xs)); [|left; lia].
      apply Hle. apply list_elem_of_filter. split; [done|]. by apply list_elem_of_filter.
    + intros s Hs Hsc. rewrite Hrow. apply Hmax, Hin; [done|by rewrite Hsc].
Qed.

Lemma law_sound E : verdict E (law E).
Proof.
  unfold law. destruct (of_class WAITING E) as [|x xs] eqn:Hw; [|by apply Vwaiting, select_leads].
  apply lacks_of_class in Hw.
  destruct (of_class ERROR E) as [|x xs] eqn:He; [|by apply Verror, select_leads].
  apply lacks_of_class in He. destruct (filter _ E) as [|x xs] eqn:Hf; [|by apply flow_verdict_sound].
  assert (∀ c, c ∈ [PROGRESS; COMPLETION] → lacks c E) as Hflow.
  { intros c Hc s Hs Hsc. assert (s ∈ filter (λ s, sg_class s ∈ [PROGRESS; COMPLETION]) E) as Hin
      by (apply list_elem_of_filter; by rewrite Hsc). rewrite Hf in Hin. by apply not_elem_of_nil in Hin. }
  assert (lacks PROGRESS E ∧ lacks COMPLETION E) as [HP HC] by (split; apply Hflow; [left|right; left]).
  destruct (of_class CHROME E) as [|x xs] eqn:Hc; [|by apply Vidle, select_leads].
  apply Vunknown; try done. by apply lacks_of_class.
Qed.

Lemma leads_unique c E s t : leads c s E → leads c t E →
  sg_class s = sg_class t ∧ sg_provider_signal s = sg_provider_signal t ∧ sg_row_index s = sg_row_index t.
Proof.
  intros (Hs & Hcs & Hls) (Ht & Hct & Hlt). split; [congruence|].
  destruct (Hls t Ht Hct) as [?|[Hr1 Hn1]], (Hlt s Hs Hcs) as [?|[Hr2 Hn2]]; try lia.
  split; [|done]. by apply String.leb_antisym.
Qed.

Lemma verdict_unique E r r' : verdict E r → verdict E r' → r = r'.
Proof.
  assert (∀ c s, leads c s E → lacks c E → False) as Hno by (intros c s (Hs & Hc & _) Hl; by apply (Hl s)).
  assert (∀ c k s t, leads c s E → leads c t E → decided k s = decided k t) as Heq.
  { intros c k s t Hs Ht. destruct (leads_unique c E s t Hs Ht) as (H1 & H2 & H3). unfold decided. congruence. }
  assert (∀ s t, leads PROGRESS s E → leads COMPLETION t E →
    (∀ x, x ∈ E → sg_class x = COMPLETION → sg_row_index x <= sg_row_index s) →
    (∀ x, x ∈ E → sg_class x = PROGRESS → sg_row_index x < sg_row_index t) → False) as Hflow.
  { intros s t (Hs & Hcs & _) (Ht & Hct & _) Hc Hp. specialize (Hc t Ht Hct). specialize (Hp s Hs Hcs). lia. }
  intros H1 H2. destruct H1, H2; try reflexivity; try (by eapply Heq); try (exfalso; by eauto).
Qed.

(** ** The theorems *)

(** [y] comes before [x] on the screen: a higher row, then the earlier signal. *)
Definition before (x y : nat * ScreenSignal) : Prop := candidate_le y x ∧ y.1 ≠ x.1.
#[export] Instance before_dec x y : Decision (before x y).
Proof. unfold before. apply _. Defined.

#[export] Instance candidate_le_trans : Transitive candidate_le.
Proof. intros x y z. unfold candidate_le. lia. Qed.
#[export] Instance candidate_le_total : Total candidate_le.
Proof. intros x y. unfold candidate_le. lia. Qed.

(** Of a sorted list, the first [n] are those with fewer than [n] before them. *)
Lemma elem_of_take_before cs x n :
  StronglySorted candidate_le cs → NoDup (cs.*1) → x ∈ cs →
  x ∈ take n cs ↔ (length (filter (before x) cs) < n)%nat.
Proof.
  revert n. induction cs as [|c cs IH]; intros n Hs Hnd Hx; [by apply not_elem_of_nil in Hx|].
  inversion Hs as [|?? Hs' Hall]. subst. rewrite fmap_cons in Hnd. apply NoDup_cons in Hnd as [Hc Hnd].
  destruct n as [|n]; simpl; [split; [by intros ?%not_elem_of_nil|lia]|].
  rewrite Forall_forall in Hall. rewrite filter_cons. apply elem_of_cons in Hx as [->|Hx].
  - rewrite decide_False by (by intros [_ ?]). rewrite elem_of_cons. split; [intros _|by left].
    assert (filter (before c) cs = []) as ->; [|simpl; lia].
    apply elem_of_nil_inv. intros y [[Hle Hne] Hy]%list_elem_of_filter.
    specialize (Hall y Hy). unfold candidate_le in *. lia.
  - assert (c.1 ≠ x.1) as Hne by (intros He; apply Hc; rewrite He; by apply list_elem_of_fmap_2).
    rewrite decide_True by (split; [by apply Hall|done]). simpl.
    rewrite elem_of_cons, IH by done. split; [intros [->|?]; [done|lia]|right; lia].
Qed.

(** How many times [r] shows above the signal at [i], of what may be corroborated. *)
Definition shown_above (anchor : option AnchorSpec) (signals : list ScreenSignal) (i : nat) (s : ScreenSignal)
    (r : string) : nat :=
  length (filter (before (i, s)) (of_text r (filter (λ x, anchored anchor x.2 = true) (enumerate signals)))).

(** Which progress the previous frame cancels, exactly: the signal at position
    [i] is demoted if and only if it is one that may be corroborated, with text [r],
    and [r] is shown above it (a smaller row, or the same row and an earlier signal)
    fewer times than the previous frame showed it.  Each old row cancels one equal
    new row, from the top of the screen; position on the screen plays no other part. *)
Theorem corroboration_exact anchor signals prior i :
  i ∈ demoted anchor signals prior ↔ ∃ s r,
    signals !! i = Some s ∧ anchored anchor s = true ∧ sg_row_bytes s = Some r
    ∧ (shown_above anchor signals i s r < times r (rows_of anchor prior))%nat.
Proof.
  assert (∀ s r, signals !! i = Some s → anchored anchor s = true → sg_row_bytes s = Some r →
    i ∈ demoted anchor signals prior
    ↔ (shown_above anchor signals i s r < times r (rows_of anchor prior))%nat) as Hiff.
  { intros s r Hi Ha Hr. rewrite (elem_of_demoted _ _ _ i s r) by done. rewrite elem_of_take_before.
    - unfold shown_above, candidates, of_text. by rewrite merge_sort_Permutation.
    - eapply StronglySorted_sublist; [apply sublist_filter|apply StronglySorted_merge_sort; apply _].
    - apply (NoDup_key_sublist fst (candidates anchor signals)); [apply candidates_once|apply sublist_filter].
    - apply list_elem_of_filter. split; [done|]. by apply elem_of_candidates. }
  split.
  - intros Hd. destruct (demoted_anchored _ _ _ _ Hd) as (s & Hi & Ha). destruct (anchored_text _ _ Ha) as [r Hr].
    exists s, r. split_and!; [done..|]. by apply Hiff.
  - intros (s & r & Hi & Ha & Hr & Hlt). by apply (Hiff s r).
Qed.

(** [C38] The status of a screen, stated without the algorithm: the deciding relation
    holds of [classify_screen_signals]'s answer and of nothing else.  Waiting outranks
    error, error outranks the flow of work, the flow outranks chrome; in the flow the
    lowest row decides and progress wins a tie with completion; within a class the
    lowest row decides and then the least provider signal.  So the answer depends on
    the effective signals as a set: neither their order nor repetitions matter. *)
Theorem screen_law_exact signals prior anchor r :
  verdict (effective anchor signals prior) r ↔ r = classify_screen_signals signals prior anchor.
Proof.
  unfold classify_screen_signals. split; [|intros ->; apply law_sound].
  intros H. eapply verdict_unique; [done|apply law_sound].
Qed.

(** A frozen frame is never work: if every progress signal of the screen may be
    corroborated, the screen is [PROCESSING] only if some row of progress is shown
    more often than in the frame before.  A spinner that stopped moving, whatever
    else moved on the screen, does not keep a worker busy. *)
Theorem frozen_screen_is_not_work anchor signals prior :
  (∀ s, s ∈ signals → sg_class s = PROGRESS → anchored anchor s = true) →
  cl_status (classify_screen_signals signals prior anchor) = TS_PROCESSING →
  ∃ r, (times r (rows_of anchor prior) < times r (rows_of anchor signals))%nat.
Proof.
  intros Hall Hst. apply (effective_progress anchor signals prior Hall).
  pose proof (law_sound (effective anchor signals prior)) as H. unfold classify_screen_signals in Hst.
  remember (law _) as c eqn:E. destruct H as [| |s _ _ (Hs & Hc & _)| | |]; try done. by exists s.
Qed.

Definition screen : list ScreenSignal := [prompt 9; spinner 4 "|"; spinner 6 "|"].
Lemma frozen_screen_is_not_work_witness :
  cl_status (classify_screen_signals screen [spinner 2 "|"] None) = TS_PROCESSING
  ∧ ∃ r, (times r (rows_of None [spinner 2 "|"]) < times r (rows_of None screen))%nat.
Proof.
  split; [reflexivity|]. apply (frozen_screen_is_not_work None screen [spinner 2 "|"]); [|reflexivity].
  intros s Hs Hc. unfold screen in Hs.
  apply elem_of_cons in Hs as [->|[->|[->|[]%not_elem_of_nil]%elem_of_cons]%elem_of_cons]; [discriminate Hc|reflexivity..].
Defined.
Example corroboration_ex : demoted None screen [spinner 2 "|"] = [1%nat].
Proof. vm_compute. reflexivity. Qed.
