(* ===== verification/Receiver.v ===== *)
(** * The receiver-state store — [kernel/receiver_state/store.py]

    What the orchestrator last saw of each terminal incarnation: one slot for the
    monitor's incremental passes, one for fresh probes, the latter under a token
    only the operation that minted it knows.  The clock is [time.monotonic()] in
    nanoseconds (floats are exact enough for [previous + 1e-6] below 2^33 s). *)

From stdpp Require Import gmap.
From S2P Require Import Prelude Screen.

Inductive FrameSource := FS_incremental | FS_fresh_capture | FS_native.
#[export] Instance FrameSource_eq_dec : EqDecision FrameSource. Proof. solve_decision. Defined.
Inductive PassSource := PS_inline | PS_forced.
#[export] Instance PassSource_eq_dec : EqDecision PassSource. Proof. solve_decision. Defined.

(** A [Literal] is not checked when the program runs: the last constructor is any
    other string. *)
Inductive PassOutcome :=
| PO_accepted | PO_no_change | PO_stale_seq | PO_unknown_suppressed | PO_sticky_rejected
| PO_forced | PO_probe | PO_aborted | PO_native | PO_other (name : string).
#[export] Instance PassOutcome_eq_dec : EqDecision PassOutcome. Proof. solve_decision. Defined.
Inductive FreshnessKind := FK_not_probed | FK_identity_ok | FK_identity_failed | FK_probe_failed
| FK_other (name : string).
#[export] Instance FreshnessKind_eq_dec : EqDecision FreshnessKind. Proof. solve_decision. Defined.
Inductive ObservationOrigin := OO_incremental | OO_probe | OO_forced | OO_native | OO_native_poll | OO_worker_truth.
#[export] Instance ObservationOrigin_eq_dec : EqDecision ObservationOrigin. Proof. solve_decision. Defined.
Inductive ReceiverSlot := RS_incremental | RS_fresh.
#[export] Instance ReceiverSlot_eq_dec : EqDecision ReceiverSlot. Proof. solve_decision. Defined.
(** [models/terminal.py] *)
Inductive RecoveryState := rebind_starting | rebind_exiting | rebind_failed | fallback_starting
| fallback_ready | rebound.
#[export] Instance RecoveryState_eq_dec : EqDecision RecoveryState. Proof. solve_decision. Defined.

(** [(terminal_id, lifecycle_generation, window_identity)] *)
Abbreviation ReceiverStateKey := (string * Z * string)%type.
(** [(observation_epoch, stamp)] *)
Abbreviation FreshToken := (string * Z)%type.

Record ProbeGeometry := { pg_columns : Z; pg_rows : Z }.
Record ProbeLawSignal := {
  ps_signal_class : string; ps_provider_signal : option string; ps_row_index : option Z }.
Record ProbeTemporalDemotion := { pt_frames : Z; pt_multiset_sha256 : string }.
#[export] Instance ProbeGeometry_eq_dec : EqDecision ProbeGeometry. Proof. solve_decision. Defined.
#[export] Instance ProbeLawSignal_eq_dec : EqDecision ProbeLawSignal. Proof. solve_decision. Defined.
#[export] Instance ProbeTemporalDemotion_eq_dec : EqDecision ProbeTemporalDemotion.
Proof. solve_decision. Defined.

Record ProbeEvidence := {
  pe_probed_at : string;
  pe_geometry : ProbeGeometry;
  pe_frame_rows_hash : string;
  pe_frame_source : FrameSource;
  pe_result_status : string;
  pe_law_signal : ProbeLawSignal;
  pe_identity_proof_failure : option string;
  pe_temporal_demotion : option ProbeTemporalDemotion;
  pe_transient_api_error : option bool;
  pe_idle_reason : option string;
  pe_injection_hazard : option string;
  pe_probe_failure : option string;
}.
Record ProjectionEvidence := { pj_event_id : string; pj_worker_state : string; pj_since : string }.
Record NativeEvidence := {
  ne_agent_status : string;
  ne_resolved_status : TerminalStatus;
  ne_native_event_gen : Z;
  ne_received_at_mono : Z;
}.
#[export] Instance ProbeEvidence_eq_dec : EqDecision ProbeEvidence. Proof. solve_decision. Defined.
#[export] Instance ProjectionEvidence_eq_dec : EqDecision ProjectionEvidence. Proof. solve_decision. Defined.
#[export] Instance NativeEvidence_eq_dec : EqDecision NativeEvidence. Proof. solve_decision. Defined.

Record FreshnessProof := { fp_kind : FreshnessKind; fp_detail : option string }.
#[export] Instance FreshnessProof_eq_dec : EqDecision FreshnessProof. Proof. solve_decision. Defined.

(** [FreshnessProof.__post_init__] *)
Definition FreshnessProof_init (p : FreshnessProof) : outcome FreshnessProof :=
  match fp_kind p with
  | FK_other _ => Raised (ValueError "unknown freshness proof kind")
  | _ => Returned p
  end.
Definition identity_ok (p : FreshnessProof) : bool := bool_decide (fp_kind p = FK_identity_ok).

Record ReceiverState := {
  rs_terminal_id : string;
  rs_lifecycle_generation : Z;
  rs_window_identity : string;
  rs_observation_epoch : string;
  rs_observation_sequence : Z;
  rs_provider : string;
  rs_frame_source : FrameSource;
  rs_captured_at_mono : Z;
  rs_frame_hash : option string;
  rs_latched_status : TerminalStatus;
  rs_pass_outcome : PassOutcome;
  rs_freshness_proof : FreshnessProof;
  rs_origin : ObservationOrigin;
  rs_raw_classification : option ScreenClassificationResult;
  rs_probe_evidence : option ProbeEvidence;
  rs_native_evidence : option NativeEvidence;
  rs_projection_evidence : option ProjectionEvidence;
}.
#[export] Instance ReceiverState_eq_dec : EqDecision ReceiverState. Proof. solve_decision. Defined.

Definition key (o : ReceiverState) : ReceiverStateKey :=
  (rs_terminal_id o, rs_lifecycle_generation o, rs_window_identity o).

(** The field [freshness_eligible], which [__post_init__] computes. *)
Definition freshness_eligible (o : ReceiverState) : bool :=
  negb (bool_decide (rs_pass_outcome o ∈ [PO_stale_seq; PO_aborted])).

Definition native_origin (o : ReceiverState) : bool :=
  bool_decide (rs_origin o ∈ [OO_native; OO_native_poll]).
Definition present {A} (x : option A) : bool := match x with Some _ => true | None => false end.

(** [ReceiverState.__post_init__], its checks in order. *)
Definition ReceiverState_init (o : ReceiverState) : outcome ReceiverState :=
  let source := rs_frame_source o in
  let result := rs_pass_outcome o in
  if match result with PO_other _ => true | _ => false end
  then Raised (ValueError "unknown pass outcome")
  else if bool_decide (source = FS_fresh_capture) && negb (bool_decide (result = PO_probe))
  then Raised (ValueError "fresh_capture observations require pass_outcome='probe'")
  else if bool_decide (source = FS_native) && negb (bool_decide (result = PO_native))
  then Raised (ValueError "native observations require pass_outcome='native'")
  else if bool_decide (source = FS_incremental) && bool_decide (result ∈ [PO_probe; PO_native])
  then Raised (ValueError "incremental observations cannot use probe/native outcomes")
  else if negb (bool_decide (source = FS_native)) && bool_decide (result = PO_native)
  then Raised (ValueError "pass_outcome='native' requires a native frame source")
  else if negb (Bool.eqb (native_origin o) (present (rs_native_evidence o)))
  then Raised (ValueError "native origins require exactly one native evidence projection")
  else if native_origin o && (present (rs_raw_classification o) || present (rs_probe_evidence o))
  then Raised (ValueError "native observations cannot carry frame/probe evidence")
  else if native_origin o && present (rs_frame_hash o)
  then Raised (ValueError "native observations cannot carry a frame hash")
  else if negb (native_origin o) && present (rs_native_evidence o)
  then Raised (ValueError "non-native observations cannot carry native evidence")
  else if bool_decide (rs_origin o = OO_forced) && present (rs_raw_classification o)
  then Raised (ValueError "forced observations cannot carry raw classification")
  else if bool_decide (source = FS_incremental) && present (rs_probe_evidence o)
  then Raised (ValueError "incremental observations cannot carry probe evidence")
  else Returned o.

Record ObservationView := {
  ov_terminal_id : string;
  ov_lifecycle_generation : Z;
  ov_window_identity : string;
  ov_observation_epoch : string;
  ov_observation_sequence : Z;
  ov_provider : string;
  ov_frame_source : FrameSource;
  ov_captured_at_mono : Z;
  ov_frame_hash : option string;
  ov_latched_status : TerminalStatus;
  ov_pass_outcome : PassOutcome;
  ov_freshness_proof : FreshnessProof;
  ov_freshness_eligible : bool;
  ov_origin : ObservationOrigin;
  ov_raw_classification : option ScreenClassificationResult;
  ov_probe_evidence : option ProbeEvidence;
  ov_native_evidence : option NativeEvidence;
}.
#[export] Instance ObservationView_eq_dec : EqDecision ObservationView. Proof. solve_decision. Defined.

(** ** Slots *)

Record _Slot := {
  latest : option ReceiverState;
  latest_eligible_captured_at_mono : option Z;
  fresh_token : option FreshToken;
}.
Definition empty_slot : _Slot := {|
  latest := None; latest_eligible_captured_at_mono := None; fresh_token := None |}.

(** [_Slot.publish] *)
Definition publish (observation : ReceiverState) (token : option FreshToken) (s : _Slot) : _Slot := {|
  latest := Some observation;
  latest_eligible_captured_at_mono :=
    if freshness_eligible observation then Some (rs_captured_at_mono observation)
    else latest_eligible_captured_at_mono s;
  fresh_token := token;
|}.

Record _Slots := { latest_incremental : _Slot; latest_fresh : _Slot }.
Definition empty_slots : _Slots := {| latest_incremental := empty_slot; latest_fresh := empty_slot |}.

Definition pass_outcome_for_source (pass_source : PassSource) (settled_outcome : PassOutcome) : PassOutcome :=
  if bool_decide (settled_outcome = PO_aborted) then PO_aborted
  else if bool_decide (pass_source = PS_forced) then PO_forced
  else settled_outcome.

Definition apply_recovery_overlay (status : TerminalStatus) (recovery_state : option RecoveryState)
    : TerminalStatus :=
  if negb (bool_decide (recovery_state ∈ [None; Some rebound])) then TS_ERROR else status.

(** ** The store *)

Record ReceiverStateStore := {
  _entries : gmap ReceiverStateKey _Slots;
  _last_stamp : gmap string Z;
}.
Definition new_store : ReceiverStateStore := {| _entries := ∅; _last_stamp := ∅ |}.

Definition set_entries (f : gmap ReceiverStateKey _Slots → gmap ReceiverStateKey _Slots)
    (st : ReceiverStateStore) : ReceiverStateStore :=
  {| _entries := f (_entries st); _last_stamp := _last_stamp st |}.
Definition set_stamp (terminal_id : string) (stamp : Z) (st : ReceiverStateStore) : ReceiverStateStore :=
  {| _entries := _entries st; _last_stamp := <[terminal_id := stamp]> (_last_stamp st) |}.

(** [1e-6] seconds *)
Definition tick : Z := 1000.

Definition mint_token (terminal_id observation_epoch : string) (monotonic : Z)
    : M ReceiverStateStore FreshToken :=
  previous ← gets (λ st, _last_stamp st !! terminal_id);
  let stamp := match previous with None => monotonic | Some p => Z.max monotonic (p + tick) end in
  modify (set_stamp terminal_id stamp) ;;
  mret (observation_epoch, stamp).

(** [setdefault(key, _Slots())] *)
Definition setdefault (k : ReceiverStateKey) : M ReceiverStateStore _Slots :=
  slots ← gets (λ st, default empty_slots (_entries st !! k));
  modify (set_entries <[k := slots]>) ;;
  mret slots.

Definition destination (observation : ReceiverState) (slot : option ReceiverSlot) : ReceiverSlot :=
  match slot with
  | Some s => s
  | None => if bool_decide (rs_frame_source observation = FS_incremental) then RS_incremental else RS_fresh
  end.

Definition put_incremental (k : ReceiverStateKey) (o : ReceiverState) : M ReceiverStateStore () :=
  modify (set_entries (partial_alter (λ x, (λ s, {|
    latest_incremental := publish o None (latest_incremental s); latest_fresh := latest_fresh s |}) <$> x) k)).
Definition put_fresh (k : ReceiverStateKey) (o : ReceiverState) (token : option FreshToken)
    : M ReceiverStateStore () :=
  modify (set_entries (partial_alter (λ x, (λ s, {|
    latest_incremental := latest_incremental s; latest_fresh := publish o token (latest_fresh s) |}) <$> x) k)).

(** The entry exists before the check that may raise. *)
Definition publish_observation (observation : ReceiverState) (fresh_token : option FreshToken)
    (slot : option ReceiverSlot) : M ReceiverStateStore () :=
  setdefault (key observation) ;;
  match destination observation slot with
  | RS_incremental =>
      if present fresh_token
      then raise (ValueError "incremental publications cannot carry a fresh token")
      else put_incremental (key observation) observation
  | RS_fresh => put_fresh (key observation) observation fresh_token
  end.

(** The comparison of [coherent_fields]. *)
Definition coherent (f i : ReceiverState) : bool :=
  bool_decide (key f = key i)
  && bool_decide (rs_observation_epoch f = rs_observation_epoch i)
  && bool_decide (rs_observation_sequence f = rs_observation_sequence i)
  && bool_decide (rs_provider f = rs_provider i)
  && bool_decide (rs_captured_at_mono f = rs_captured_at_mono i)
  && bool_decide (rs_latched_status f = rs_latched_status i)
  && bool_decide (rs_origin f = rs_origin i)
  && bool_decide (rs_native_evidence f = rs_native_evidence i)
  && bool_decide (rs_freshness_proof f = rs_freshness_proof i).

Definition publish_native_pair (fresh_observation incremental_observation : ReceiverState)
    (token : FreshToken) : M ReceiverStateStore () :=
  if negb (bool_decide (rs_frame_source fresh_observation = FS_native))
     || negb (bool_decide (rs_frame_source incremental_observation = FS_native))
  then raise (ValueError "native pairs require native observations")
  else if negb (bool_decide (rs_origin fresh_observation = OO_native_poll))
     || negb (bool_decide (rs_origin incremental_observation = OO_native_poll))
  then raise (ValueError "native pairs require native_poll provenance")
  else if negb (coherent fresh_observation incremental_observation)
  then raise (ValueError "native pair observations are not coherent")
  else if negb (bool_decide (token.1 = rs_observation_epoch fresh_observation))
  then raise (ValueError "native pair token epoch mismatch")
  else
    setdefault (key fresh_observation) ;;
    put_fresh (key fresh_observation) fresh_observation (Some token) ;;
    put_incremental (key fresh_observation) incremental_observation.

Definition retained (s : _Slot) : option ScreenClassificationResult := o ← latest s; rs_raw_classification o.

Definition prior_classification (k : ReceiverStateKey) (prefer_fresh : bool) (st : ReceiverStateStore)
    : option ScreenClassificationResult :=
  slots ← _entries st !! k;
  let '(one, two) := if prefer_fresh then (latest_fresh slots, latest_incremental slots)
                     else (latest_incremental slots, latest_fresh slots) in
  match retained one with Some r => Some r | None => retained two end.

(** The view built at the end of [snapshot_view]. *)
Definition view_of (recovery_state : option RecoveryState) (o : ReceiverState) : ObservationView := {|
  ov_terminal_id := rs_terminal_id o;
  ov_lifecycle_generation := rs_lifecycle_generation o;
  ov_window_identity := rs_window_identity o;
  ov_observation_epoch := rs_observation_epoch o;
  ov_observation_sequence := rs_observation_sequence o;
  ov_provider := rs_provider o;
  ov_frame_source := rs_frame_source o;
  ov_captured_at_mono := rs_captured_at_mono o;
  ov_frame_hash := rs_frame_hash o;
  ov_latched_status := apply_recovery_overlay (rs_latched_status o) recovery_state;
  ov_pass_outcome := rs_pass_outcome o;
  ov_freshness_proof := rs_freshness_proof o;
  ov_freshness_eligible := freshness_eligible o;
  ov_origin := rs_origin o;
  ov_raw_classification := rs_raw_classification o;
  ov_probe_evidence := rs_probe_evidence o;
  ov_native_evidence := rs_native_evidence o;
|}.

(** The checks of [snapshot_view] on the slot it has read. *)
Definition read_slot (require_fresh : bool) (max_age now : Z) (recovery_state : option RecoveryState)
    (token : option FreshToken) (slot : _Slot) : option ObservationView :=
  match latest slot, latest_eligible_captured_at_mono slot with
  | Some observation, Some eligible_at =>
      if require_fresh && (bool_decide (token = None) || negb (bool_decide (token = fresh_token slot)))
      then None
      else if require_fresh && negb (identity_ok (rs_freshness_proof observation)) then None
      else if max_age <? now - eligible_at then None
      else Some (view_of recovery_state observation)
  | _, _ => None
  end.

(** [now_mono] or the clock is [now]. *)
Definition snapshot_view (k : ReceiverStateKey) (require_fresh : bool) (max_age : Z)
    (recovery_state : option RecoveryState) (now : Z) (token : option FreshToken)
    (st : ReceiverStateStore) : outcome (option ObservationView) :=
  if max_age <? 0 then Raised (ValueError "max_age_s must be non-negative")
  else Returned (
    slots ← _entries st !! k;
    read_slot require_fresh max_age now recovery_state token
      (if require_fresh then latest_fresh slots else latest_incremental slots)).

Definition invalidate (k : ReceiverStateKey) : M ReceiverStateStore bool :=
  had ← gets (λ st, present (_entries st !! k));
  modify (set_entries (delete k)) ;;
  mret had.

Definition owned_by (terminal_id : string) (k : ReceiverStateKey) : bool := bool_decide (k.1.1 = terminal_id).

Definition invalidate_terminal (terminal_id : string) : M ReceiverStateStore Z :=
  keys ← gets (λ st, filter (λ k, owned_by terminal_id k = true) (map_to_list (_entries st)).*1);
  for_each keys () (λ _ k, modify (set_entries (delete k))) ;;
  mret (Z.of_nat (length keys)).
