(* ===== verification/ReceiverThms.v ===== *)
(** * What the receiver-state store promises

    The store keeps two slots per incarnation; its clients think of a history of
    publications.  [store_reads_history] relates the two, and the rest says whose
    publication a token reads and what one native poll writes. *)

From stdpp Require Import gmap.
From S2P Require Import Prelude Screen Receiver.

(** ** Observations *)

Lemma guard_returned {A} (b : bool) e (x : outcome A) y :
  (if b then Raised e else x) = Returned y ↔ b = false ∧ x = Returned y.
Proof. destruct b; split; try done; by intros []. Qed.

(** The checks that tie the pass outcome to the frame source. *)
Definition outcome_fits (source : FrameSource) (result : PassOutcome) : Prop :=
  (∀ name, result ≠ PO_other name)
  ∧ (source = FS_fresh_capture ↔ result = PO_probe) ∧ (source = FS_native ↔ result = PO_native).

Lemma outcomes_checked (source : FrameSource) (result : PassOutcome) (P : Prop) :
  (match result with PO_other _ => true | _ => false end = false
   ∧ bool_decide (source = FS_fresh_capture) && negb (bool_decide (result = PO_probe)) = false
   ∧ bool_decide (source = FS_native) && negb (bool_decide (result = PO_native)) = false
   ∧ bool_decide (source = FS_incremental) && bool_decide (result ∈ [PO_probe; PO_native]) = false
   ∧ negb (bool_decide (source = FS_native)) && bool_decide (result = PO_native) = false ∧ P)
  ↔ outcome_fits source result ∧ P.
Proof.
  unfold outcome_fits. destruct result as [| | | | | | | | |name];
    try (split; [by intros [? _]|intros [[H _] _]; by destruct (H name)]);
    destruct source; cbn; split;
    try (intros (?&?&?&?&?&?); by split_and!); try (intros [(_ & [H1 H2] & [H3 H4]) ?];
    first [by split_and! | by specialize (H1 eq_refl) | by specialize (H2 eq_refl)
           | by specialize (H3 eq_refl) | by specialize (H4 eq_refl)]).
Qed.

(** The checks that tie the evidence to the origin. *)
Definition evidence_fits (o : ReceiverState) : Prop :=
  (native_origin o = true ↔ is_Some (rs_native_evidence o))
  ∧ (native_origin o = true →
      rs_raw_classification o = None ∧ rs_probe_evidence o = None ∧ rs_frame_hash o = None)
  ∧ (rs_origin o = OO_forced → rs_raw_classification o = None)
  ∧ (rs_frame_source o = FS_incremental → rs_probe_evidence o = None).

Lemma present_Some {A} (x : option A) : present x = true ↔ is_Some x.
Proof. destruct x; split; done || by intros []. Qed.
Lemma present_None {A} (x : option A) : present x = false ↔ x = None.
Proof. by destruct x. Qed.
Lemma guard_implies (b c : bool) : b && c = false ↔ (b = true → c = false).
Proof. destruct b, c; simpl; split; auto. Qed.

Lemma evidence_checked o (P : Prop) :
  (negb (Bool.eqb (native_origin o) (present (rs_native_evidence o))) = false
   ∧ native_origin o && (present (rs_raw_classification o) || present (rs_probe_evidence o)) = false
   ∧ native_origin o && present (rs_frame_hash o) = false
   ∧ negb (native_origin o) && present (rs_native_evidence o) = false
   ∧ bool_decide (rs_origin o = OO_forced) && present (rs_raw_classification o) = false
   ∧ bool_decide (rs_frame_source o = FS_incremental) && present (rs_probe_evidence o) = false ∧ P)
  ↔ evidence_fits o ∧ P.
Proof.
  unfold evidence_fits. rewrite negb_false_iff, eqb_true_iff, !guard_implies, orb_false_iff, negb_true_iff,
    !bool_decide_eq_true, !present_None, <- present_Some.
  destruct (native_origin o), (rs_native_evidence o); simpl; intuition congruence.
Qed.

(** Which observations exist.  Construction succeeds exactly on the table of
    frame sources and pass outcomes (a fresh capture is a probe, a native frame a
    native pass, an incremental frame neither, no unknown outcome), and with the
    evidence its origin can prove: native evidence for native origins and only
    them, no frame, probe or hash beside it, no classification of a forced pass,
    no probe of an incremental frame.  It changes nothing of the observation. *)
Theorem observations_well_formed o o' :
  ReceiverState_init o = Returned o' ↔
  o' = o
  ∧ (∀ name, rs_pass_outcome o ≠ PO_other name)
  ∧ (rs_frame_source o = FS_fresh_capture ↔ rs_pass_outcome o = PO_probe)
  ∧ (rs_frame_source o = FS_native ↔ rs_pass_outcome o = PO_native)
  ∧ (native_origin o = true ↔ is_Some (rs_native_evidence o))
  ∧ (native_origin o = true →
      rs_raw_classification o = None ∧ rs_probe_evidence o = None ∧ rs_frame_hash o = None)
  ∧ (rs_origin o = OO_forced → rs_raw_classification o = None)
  ∧ (rs_frame_source o = FS_incremental → rs_probe_evidence o = None).
Proof.
  unfold ReceiverState_init. rewrite !guard_returned, outcomes_checked, evidence_checked.
  unfold outcome_fits, evidence_fits. split.
  - intros (? & ? & [= ->]). tauto.
  - intros (-> & ?). tauto.
Qed.

(** ** Requests *)

Inductive request :=
| Mint (terminal_id observation_epoch : string) (monotonic : Z)
| Publish (observation : ReceiverState) (token : option FreshToken) (slot : option ReceiverSlot)
| PublishNativePair (fresh_observation incremental_observation : ReceiverState) (token : FreshToken)
| Invalidate (k : ReceiverStateKey)
| InvalidateTerminal (terminal_id : string).

(** A request, and the token it minted. *)
Definition serve_request (r : request) : M ReceiverStateStore (option FreshToken) :=
  match r with
  | Mint t e now => token ← mint_token t e now; mret (Some token)
  | Publish o token slot => publish_observation o token slot ;; mret None
  | PublishNativePair f i token => publish_native_pair f i token ;; mret None
  | Invalidate k => invalidate k ;; mret None
  | InvalidateTerminal t => invalidate_terminal t ;; mret None
  end.

Definition step (r : request) (st : ReceiverStateStore) : ReceiverStateStore := state_of (serve_request r st).
Definition run (rs : list request) (st : ReceiverStateStore) : ReceiverStateStore :=
  foldl (λ st r, step r st) st rs.

(** ** Histories *)

(** What the checks of [publish_native_pair] let through. *)
Definition pair_ok (f i : ReceiverState) (token : FreshToken) : bool :=
  bool_decide (rs_frame_source f = FS_native) && bool_decide (rs_frame_source i = FS_native)
  && bool_decide (rs_origin f = OO_native_poll) && bool_decide (rs_origin i = OO_native_poll)
  && coherent f i && bool_decide (token.1 = rs_observation_epoch f).

(** What a request posts to a slot of [k]. *)
Definition posted (k : ReceiverStateKey) (slot : ReceiverSlot) (r : request)
    : option (ReceiverState * option FreshToken) :=
  match r with
  | Publish o token dest =>
      if bool_decide (key o = k) && bool_decide (destination o dest = slot)
         && negb (bool_decide (slot = RS_incremental) && present token)
      then Some (o, token) else None
  | PublishNativePair f i token =>
      if bool_decide (key f = k) && pair_ok f i token
      then Some (match slot with RS_fresh => (f, Some token) | RS_incremental => (i, None) end)
      else None
  | _ => None
  end.

Definition drops (k : ReceiverStateKey) (r : request) : bool :=
  match r with
  | Invalidate k' => bool_decide (k' = k)
  | InvalidateTerminal t => owned_by t k
  | _ => false
  end.

(** The publications to a slot since it was last dropped, newest first. *)
Definition extend (k : ReceiverStateKey) (slot : ReceiverSlot) (h : list (ReceiverState * option FreshToken))
    (r : request) : list (ReceiverState * option FreshToken) :=
  if drops k r then [] else match posted k slot r with Some p => p :: h | None => h end.
Definition history (k : ReceiverStateKey) (slot : ReceiverSlot) (rs : list request)
    : list (ReceiverState * option FreshToken) := foldl (extend k slot) [] rs.

(** When the newest eligible publication was captured. *)
Fixpoint eligible_at (h : list (ReceiverState * option FreshToken)) : option Z :=
  match h with
  | [] => None
  | (o, _) :: h => if freshness_eligible o then Some (rs_captured_at_mono o) else eligible_at h
  end.

Definition slot_of (h : list (ReceiverState * option FreshToken)) : _Slot := {|
  latest := fst <$> head h;
  latest_eligible_captured_at_mono := eligible_at h;
  fresh_token := head h ≫= snd;
|}.

Definition get_slot (slot : ReceiverSlot) (s : _Slots) : _Slot :=
  match slot with RS_incremental => latest_incremental s | RS_fresh => latest_fresh s end.
Definition slot_at (k : ReceiverStateKey) (slot : ReceiverSlot) (st : ReceiverStateStore) : _Slot :=
  get_slot slot (default empty_slots (_entries st !! k)).

(** ** One step *)

Lemma slot_of_cons o token h : slot_of ((o, token) :: h) = publish o token (slot_of h).
Proof. done. Qed.

Lemma for_each_delete ks st :
  for_each ks () (λ _ k, modify (set_entries (delete k))) st
  = (set_entries (λ m, foldl (λ m k, delete k m) m ks) st, Returned ()).
Proof.
  revert st. induction ks as [|k ks IH]; intros [es ls]; [done|]. simpl.
  unfold mbind, M_bind, modify. simpl. by rewrite IH.
Qed.

Lemma lookup_foldl_delete (ks : list ReceiverStateKey) (m : gmap ReceiverStateKey _Slots) k :
  foldl (λ m k, delete k m) m ks !! k = if bool_decide (k ∈ ks) then None else m !! k.
Proof.
  revert m. induction ks as [|k' ks IH]; intros m; [done|]. simpl. rewrite IH.
  destruct (decide (k = k')) as [->|Hne].
  - rewrite lookup_delete_eq, (bool_decide_eq_true_2 (k' ∈ k' :: ks)) by left. by case_bool_decide.
  - rewrite lookup_delete_ne by done.
    by rewrite (bool_decide_ext (k ∈ k' :: ks) (k ∈ ks)) by (rewrite elem_of_cons; tauto).
Qed.

Lemma lookup_invalidate_terminal t k st :
  _entries (state_of (invalidate_terminal t st)) !! k
  = if owned_by t k then None else _entries st !! k.
Proof.
  unfold invalidate_terminal, mbind, M_bind, gets. cbn -[for_each]. rewrite for_each_delete. simpl.
  rewrite lookup_foldl_delete. case_bool_decide as Hin.
  - apply list_elem_of_filter in Hin as [-> _]. done.
  - destruct (owned_by t k) eqn:E; [|done]. destruct (_entries st !! k) as [s|] eqn:Hk; [|done].
    destruct Hin. apply list_elem_of_filter. split; [done|].
    apply list_elem_of_fmap. exists (k, s). split; [done|]. by apply elem_of_map_to_list.
Qed.

Lemma setdefault_eq k st :
  setdefault k st = (set_entries <[k := default empty_slots (_entries st !! k)]> st,
                     Returned (default empty_slots (_entries st !! k))).
Proof. done. Qed.

Lemma publish_native_pair_eq f i token st :
  publish_native_pair f i token st =
  if pair_ok f i token
  then (set_entries (λ m, <[key f := {|
          latest_incremental := publish i None (latest_incremental (default empty_slots (m !! key f)));
          latest_fresh := publish f (Some token) (latest_fresh (default empty_slots (m !! key f))) |}]> m) st,
        Returned ())
  else (st, value_of (publish_native_pair f i token st)).
Proof.
  unfold publish_native_pair, pair_ok.
  repeat (case_bool_decide; [|done]; cbn -[coherent setdefault]).
  destruct (coherent f i); [|done]. cbn -[setdefault]. case_bool_decide; [|done]. cbn -[partial_alter].
  unfold set_entries. cbn -[partial_alter]. apply (f_equal (λ m, ({| _entries := m; _last_stamp := _last_stamp st |}, Returned ()))).
  apply map_eq. intros k. destruct (decide (k = key f)) as [->|Hne].
  - rewrite lookup_partial_alter_eq. simpl. by rewrite lookup_partial_alter_eq, !lookup_insert_eq.
  - rewrite lookup_partial_alter_ne by done. simpl. by rewrite lookup_partial_alter_ne, !lookup_insert_ne.
Qed.

Lemma publish_observation_eq o token dest st :
  _entries (state_of (publish_observation o token dest st)) =
  <[key o := let s := default empty_slots (_entries st !! key o) in
    match destination o dest with
    | RS_incremental => if present token then s else
        {| latest_incremental := publish o None (latest_incremental s); latest_fresh := latest_fresh s |}
    | RS_fresh => {| latest_incremental := latest_incremental s; latest_fresh := publish o token (latest_fresh s) |}
    end]> (_entries st).
Proof.
  unfold publish_observation, mbind, M_bind. rewrite setdefault_eq.
  apply map_eq. intros k. destruct (destination o dest); [destruct token|]; cbn -[partial_alter]; [done|..];
    (destruct (decide (k = key o)) as [->|Hne];
     [by rewrite lookup_partial_alter_eq, !lookup_insert_eq
     |by rewrite lookup_partial_alter_ne, !lookup_insert_ne]).
Qed.

(** One request, seen through one slot. *)
Lemma step_slot k slot h r st :
  slot_at k slot st = slot_of h → slot_at k slot (step r st) = slot_of (extend k slot h r).
Proof.
  intros H. unfold step, extend, slot_at in *. destruct r as [t e now|o token dest|f i token|k'|t]; simpl.
  - done.
  - unfold mbind, M_bind. replace (state_of _) with (state_of (publish_observation o token dest st))
      by (by destruct (publish_observation o token dest st) as [? []]).
    rewrite publish_observation_eq. destruct (decide (key o = k)) as [<-|Hne].
    + rewrite lookup_insert_eq, bool_decide_eq_true_2 by done. simpl.
      destruct (destination o dest), slot, token; simpl in *; rewrite ?H; done.
    + by rewrite lookup_insert_ne, bool_decide_eq_false_2.
  - unfold mbind, M_bind. rewrite publish_native_pair_eq. destruct (pair_ok f i token) eqn:E.
    + cbn -[lookup insert]. destruct (decide (key f = k)) as [<-|Hne].
      * rewrite lookup_insert_eq, bool_decide_eq_true_2 by done. destruct slot; simpl in *; by rewrite H.
      * by rewrite lookup_insert_ne, bool_decide_eq_false_2.
    + rewrite andb_false_r. by destruct (value_of _).
  - case_bool_decide as Hk.
    + subst. by rewrite lookup_delete_eq; destruct slot.
    + by rewrite lookup_delete_ne.
  - unfold mbind, M_bind. replace (state_of _) with (state_of (invalidate_terminal t st))
      by (by destruct (invalidate_terminal t st) as [? []]).
    rewrite lookup_invalidate_terminal. destruct (owned_by t k); [by destruct slot|done].
Qed.

Lemma run_slot k slot rs : slot_at k slot (run rs new_store) = slot_of (history k slot rs).
Proof.
  unfold run, history. assert (slot_at k slot new_store = slot_of []) as H by by destruct slot.
  revert H. generalize new_store, (@nil (ReceiverState * option FreshToken)).
  induction rs as [|r rs IH]; intros st h H; [done|]. simpl. by apply IH, step_slot.
Qed.

(** ** The theorems *)

Lemma snapshot_reads_slot k require_fresh max_age recovery now token st :
  snapshot_view k require_fresh max_age recovery now token st =
  if max_age <? 0 then Raised (ValueError "max_age_s must be non-negative")
  else Returned (read_slot require_fresh max_age now recovery token
    (slot_at k (if require_fresh then RS_fresh else RS_incremental) st)).
Proof.
  unfold snapshot_view, slot_at. destruct (_entries st !! k), require_fresh; done.
Qed.

(** [C27] The store is the history of its publications.  After any requests, a read
    answers a view exactly when its age bound is not negative and the slot has a
    publication since its incarnation was last dropped: the view is of the newest
    one, aged by the newest ELIGIBLE one, under the recovery overlay.  A fresh read
    also needs the token of that very publication and a proved identity, so it is
    fenced by every later fresh publication and by every invalidation, and no
    incremental pass, other incarnation or other terminal bears on it. *)
Theorem store_reads_history k require_fresh max_age recovery now token rs v :
  snapshot_view k require_fresh max_age recovery now token (run rs new_store) = Returned (Some v) ↔
  0 <= max_age ∧ ∃ o owner older captured,
    history k (if require_fresh then RS_fresh else RS_incremental) rs = (o, owner) :: older
    ∧ eligible_at ((o, owner) :: older) = Some captured
    ∧ now - captured <= max_age
    ∧ (require_fresh = true → is_Some token ∧ token = owner ∧ fp_kind (rs_freshness_proof o) = FK_identity_ok)
    ∧ v = view_of recovery o.
Proof.
  rewrite snapshot_reads_slot, run_slot. set (h := history _ _ _).
  destruct (Z.ltb_spec max_age 0) as [Hneg|Hpos]; [split; [done|lia]|].
  unfold read_slot, slot_of, latest, latest_eligible_captured_at_mono, fresh_token.
  destruct h as [|[o owner] older]; [split; [done|by intros (_ & ? & ? & ? & ? & ? & _)]|].
  cbn [head fmap option_fmap option_map mbind option_bind fst snd].
  destruct (eligible_at _) as [captured|] eqn:He.
  2:{ split; [done|]. intros (_ & ? & ? & ? & ? & [= <- <- <-] & Hc & _). congruence. }
  transitivity ((require_fresh = true → is_Some token ∧ token = owner
    ∧ fp_kind (rs_freshness_proof o) = FK_identity_ok) ∧ now - captured <= max_age ∧ v = view_of recovery o).
  2:{ split.
      - intros (? & ? & ->). split; [done|]. by exists o, owner, older, captured.
      - intros (_ & ? & ? & ? & ? & [= <- <- <-] & Hc & ? & ? & ->). split; [done|]. split; [congruence|done]. }
  unfold identity_ok.
  destruct require_fresh; simpl; [destruct token as [t|]; simpl; [destruct (decide (Some t = owner)) as [<-|?];
    [rewrite bool_decide_eq_true_2 by done; simpl; destruct (decide (fp_kind (rs_freshness_proof o) = FK_identity_ok))
      as [E|E]; [rewrite E; simpl|rewrite bool_decide_eq_false_2 by done; simpl]
    |rewrite bool_decide_eq_false_2 by done; simpl]|]|].
  all: try (split; [done|intros [H _]; destruct (H eq_refl) as (Ht & ? & ?); try done; by destruct Ht]).
  all: destruct (Z.ltb_spec max_age (now - captured)) as [Hl|Hl];
    (split; [intros Hv; simplify_eq; by eauto|intros (_ & ? & ->); try lia; done]).
Qed.

(** The tokens a run mints, each with the terminal it was minted for. *)
Fixpoint minted (rs : list request) (st : ReceiverStateStore) : list (string * FreshToken) :=
  match rs with
  | [] => []
  | r :: rs =>
      match r, value_of (serve_request r st) with
      | Mint t _ _, Returned (Some token) => [(t, token)]
      | _, _ => []
      end ++ minted rs (step r st)
  end.
Definition stamps_of (t : string) (tokens : list (string * FreshToken)) : list Z :=
  (λ x, x.2.2) <$> filter (λ x, x.1 = t) tokens.

Lemma step_stamp r st :
  _last_stamp (step r st) = match r with
    | Mint t _ now => <[t := match _last_stamp st !! t with None => now | Some p => Z.max now (p + tick) end]> (_last_stamp st)
    | _ => _last_stamp st
    end.
Proof.
  destruct r as [t e now|o token dest|f i token|k|t]; unfold step, mbind, M_bind; simpl; [done| | |done|].
  - unfold mbind, M_bind, publish_observation, mbind, M_bind. rewrite setdefault_eq.
    destruct (destination o dest); [by destruct token|done].
  - unfold mbind, M_bind. rewrite publish_native_pair_eq. destruct (pair_ok f i token); [done|]. by destruct (value_of _).
  - unfold mbind, M_bind, invalidate_terminal, mbind, M_bind. cbn -[for_each]. by rewrite for_each_delete.
Qed.

(** Every later stamp of [t] is a tick above the last one. *)
Lemma minted_above t rs : ∀ p st, _last_stamp st !! t = Some p →
  Forall (λ s, p + tick <= s) (stamps_of t (minted rs st)).
Proof.
  induction rs as [|r rs IH]; intros p st Hp; [constructor|].
  cbn [minted]. unfold stamps_of. rewrite filter_app, fmap_app. apply Forall_app.
  destruct r as [t' e now|o token dest|f i token|k|t'];
    try (split; [constructor|apply IH; by rewrite step_stamp]).
  change (value_of _) with (Returned (Some (e, match _last_stamp st !! t' with
    None => now | Some p => Z.max now (p + tick) end))). cbn match. rewrite filter_cons. simpl.
  destruct (decide (t' = t)) as [->|Hne]; simpl.
  - rewrite Hp. split; [constructor; [lia|constructor]|].
    eapply Forall_impl; [apply IH; by rewrite step_stamp, lookup_insert_eq, Hp|]. simpl. intros s ?. unfold tick in *. lia.
  - split; [constructor|]. apply IH. by rewrite step_stamp, lookup_insert_ne.
Qed.

(** Tokens of one terminal strictly increase, by at least a microsecond, over
    any run from any state: whatever the clock does (it may stand still or go back),
    whatever is published, and whether or not the terminal is invalidated in
    between.  So no two operations on a terminal ever hold the same token. *)
Theorem tokens_increase t rs st :
  StronglySorted (λ a b, a + 1000 <= b) (stamps_of t (minted rs st)).
Proof.
  revert st. induction rs as [|r rs IH]; intros st; [constructor|].
  cbn [minted]. unfold stamps_of. rewrite filter_app, fmap_app.
  destruct r as [t' e now|o token dest|f i token|k|t']; try apply IH.
  change (value_of _) with (Returned (Some (e, match _last_stamp st !! t' with
    None => now | Some p => Z.max now (p + tick) end))). cbn match. rewrite filter_cons. simpl.
  destruct (decide (t' = t)) as [->|Hne]; simpl; [|apply IH].
  constructor; [apply IH|]. apply minted_above. by rewrite step_stamp, lookup_insert_eq.
Qed.

(** ** Samples *)

Definition seen (outcome_ : PassOutcome) (sequence captured : Z) : ReceiverState := {|
  rs_terminal_id := "deadbeef"; rs_lifecycle_generation := 3; rs_window_identity := "@1";
  rs_observation_epoch := "e"; rs_observation_sequence := sequence; rs_provider := "codex";
  rs_frame_source := FS_incremental; rs_captured_at_mono := captured; rs_frame_hash := None;
  rs_latched_status := TS_IDLE; rs_pass_outcome := outcome_;
  rs_freshness_proof := {| fp_kind := FK_not_probed; fp_detail := None |}; rs_origin := OO_incremental;
  rs_raw_classification := None; rs_probe_evidence := None; rs_native_evidence := None;
  rs_projection_evidence := None |}.

(** A rejected pass is what the reader sees, aged by the pass before it. *)
Example stale_pass_is_served :
  (snapshot_view ("deadbeef", 3, "@1") false 30 None 21 None
     (run [Publish (seen PO_accepted 1 10) None None; Publish (seen PO_stale_seq 2 20) None None] new_store))
  = Returned (Some (view_of None (seen PO_stale_seq 2 20))).
Proof. vm_compute. reflexivity. Qed.
Example clock_stands_still :
  minted [Mint "t" "e" 5; Mint "t" "e" 5; Mint "t" "e" 2] new_store = [("t", ("e", 5)); ("t", ("e", 1005)); ("t", ("e", 2005))].
Proof. vm_compute. reflexivity. Qed.
