(* ===== verification/Seam.v ===== *)
(** * The authority switch — [services/seam_activation.py]

    Each consumer operation reads the worker status from the legacy monitor or from
    the receiver-state store; one durable row per operation says which, and moves by
    compare-and-set on versions and tokens.  The tables are those of
    [clients/database.py], their CHECK and UNIQUE constraints included; every entry
    point is one transaction.  Timestamps are the text [isoformat()] makes. *)

From stdpp Require Import gmap.
From S2P Require Import Prelude Text.

Inductive Authority := LEGACY | RECEIVER_STATE.
#[export] Instance Authority_eq_dec : EqDecision Authority. Proof. solve_decision. Defined.
Inductive ParityPhase := COLLECTING | CONFIRMING | DONE.
#[export] Instance ParityPhase_eq_dec : EqDecision ParityPhase. Proof. solve_decision. Defined.
Definition ParityPhase_value (p : ParityPhase) : string :=
  match p with COLLECTING => "collecting" | CONFIRMING => "confirming" | DONE => "done" end.

Record SeamActivationModel := {
  sa_active_authority : Authority;
  sa_accepted_version : Z;
  sa_active_version : Z;
  sa_rollback_version : Z;
  sa_acceptance_token : option string;
  sa_evidence_ref : option string;
  sa_tombstoned_legacy : Z;
  sa_updated_at : string;
}.
Record SeamActivationEvidenceModel := {
  ev_consumer_op : string;
  ev_evidence_ref : string;
  ev_acceptance_token : string;
  ev_created_at : string;
}.
(** [window_started_at] is held as the instant it encodes. *)
Record SeamParityModel := {
  sp_build_id : string;
  sp_phase : ParityPhase;
  sp_window_started_at : Z;
  sp_window_nonce : string;
  sp_clean_samples : Z;
  sp_mismatch_count : Z;
  sp_last_sample_at : option string;
  sp_last_mismatch_detail : option string;
}.
Record SeamParityMismatchModel := {
  mm_consumer_op : string;
  mm_build_id : string;
  mm_window_nonce : string;
  mm_phase : string;
  mm_acted_answer : string;
  mm_shadow_answer : string;
  mm_detail : string;
  mm_source : string;
  mm_created_at : string;
}.
#[export] Instance SeamActivationModel_eq_dec : EqDecision SeamActivationModel. Proof. solve_decision. Defined.
#[export] Instance SeamActivationEvidenceModel_eq_dec : EqDecision SeamActivationEvidenceModel.
Proof. solve_decision. Defined.
#[export] Instance SeamParityModel_eq_dec : EqDecision SeamParityModel. Proof. solve_decision. Defined.
#[export] Instance SeamParityMismatchModel_eq_dec : EqDecision SeamParityMismatchModel.
Proof. solve_decision. Defined.

(** The four tables; the first and third have [consumer_op] as their key. *)
Record tables := {
  tb_activation : gmap string SeamActivationModel;
  tb_evidence : list SeamActivationEvidenceModel;
  tb_parity : gmap string SeamParityModel;
  tb_mismatch : list SeamParityMismatchModel;
}.
Definition set_activation (f : gmap string SeamActivationModel → gmap string SeamActivationModel)
    (t : tables) : tables := {| tb_activation := f (tb_activation t); tb_evidence := tb_evidence t;
  tb_parity := tb_parity t; tb_mismatch := tb_mismatch t |}.
Definition set_parity (f : gmap string SeamParityModel → gmap string SeamParityModel)
    (t : tables) : tables := {| tb_activation := tb_activation t; tb_evidence := tb_evidence t;
  tb_parity := f (tb_parity t); tb_mismatch := tb_mismatch t |}.
Definition add_evidence_row (r : SeamActivationEvidenceModel) (t : tables) : tables := {|
  tb_activation := tb_activation t; tb_evidence := tb_evidence t ++ [r];
  tb_parity := tb_parity t; tb_mismatch := tb_mismatch t |}.
Definition add_mismatch_row (r : SeamParityMismatchModel) (t : tables) : tables := {|
  tb_activation := tb_activation t; tb_evidence := tb_evidence t;
  tb_parity := tb_parity t; tb_mismatch := tb_mismatch t ++ [r] |}.

(** The CHECK constraints of [seam_activation]. *)
Definition activation_ok (r : SeamActivationModel) : bool :=
  (sa_active_version r <=? sa_accepted_version r) && (sa_accepted_version r <=? sa_active_version r + 1)
  && (sa_rollback_version r <=? sa_active_version r)
  && negb (bool_decide (sa_active_authority r = RECEIVER_STATE) && (sa_active_version r =? 0))
  && negb ((sa_active_version r <? sa_accepted_version r) && bool_decide (sa_acceptance_token r = None))
  && ((sa_tombstoned_legacy r =? 0) || (sa_tombstoned_legacy r =? 1)).

(** ** Statements *)

(** [UPDATE seam_activation SET .. WHERE consumer_op = ? AND ..], and its rowcount. *)
Definition update_activation (op : string) (where_ : SeamActivationModel → bool)
    (values : SeamActivationModel → SeamActivationModel) : M tables Z := λ t,
  match tb_activation t !! op with
  | Some r =>
      if where_ r then
        if activation_ok (values r) then (set_activation <[op := values r]> t, Returned 1)
        else (t, Raised (IntegrityError "seam_activation"))
      else (t, Returned 0)
  | None => (t, Returned 0)
  end.

Definition update_parity (op : string) (where_ : SeamParityModel → bool)
    (values : SeamParityModel → SeamParityModel) : M tables Z := λ t,
  match tb_parity t !! op with
  | Some r => if where_ r then (set_parity <[op := values r]> t, Returned 1) else (t, Returned 0)
  | None => (t, Returned 0)
  end.

Definition evidence_key (r : SeamActivationEvidenceModel) : string * string :=
  (ev_consumer_op r, ev_evidence_ref r).

(** [db.add(..)] of an evidence row, and its flush. *)
Definition insert_evidence (r : SeamActivationEvidenceModel) : M tables () := λ t,
  if existsb (λ x, bool_decide (evidence_key x = evidence_key r)) (tb_evidence t)
  then (t, Raised (IntegrityError "seam_activation_evidence"))
  else (add_evidence_row r t, Returned ()).

Definition replay_key (r : SeamParityMismatchModel) : string * string * string * string :=
  (mm_consumer_op r, mm_window_nonce r, mm_created_at r, mm_source r).
Definition replayed_mismatch (r : SeamParityMismatchModel) (t : tables) : bool :=
  existsb (λ x, bool_decide (replay_key x = replay_key r)) (tb_mismatch t).

Definition insert_mismatch (r : SeamParityMismatchModel) : M tables () := λ t,
  if replayed_mismatch r t then (t, Raised (IntegrityError "seam_parity_mismatch"))
  else (add_mismatch_row r t, Returned ()).

(** The database may be out: the statement raises [OperationalError]. *)
Definition reachable (up : bool) : M tables () :=
  if up then mret () else raise (ExternalError "OperationalError").

(** [db.commit()] when the result is the good one, [db.rollback()] otherwise. *)
Definition commit_when {A} (good : A → bool) (m : M tables A) : M tables A := λ t,
  match m t with
  | (t', Returned a) => (if good a then t' else t, Returned a)
  | (_, Raised e) => (t, Raised e)
  end.

(** ** Evidence references: [parity:<build>:<target version>:<window nonce>] *)

(** [s.rsplit(c, 1)] *)
Fixpoint rsplit_once (c : ascii) (s : string) : option (string * string) :=
  match s with
  | EmptyString => None
  | String a s' =>
      match rsplit_once c s' with
      | Some (l, r) => Some (String a l, r)
      | None => if decide (a = c) then Some (""%string, s') else None
      end
  end.

Definition digit_of (a : ascii) : option Z :=
  let n := Z.of_N (N_of_ascii a) - 48 in if (0 <=? n) && (n <=? 9) then Some n else None.
Definition ascii_space (a : ascii) : bool := bool_decide (N_of_ascii a ∈ [9; 10; 11; 12; 13; 28; 29; 30; 31; 32]%N).

(** Digits, single underscores between them, and the trailing blanks. *)
Fixpoint digits_then (s : string) (after_digit : bool) (acc : Z) : option Z :=
  match s with
  | EmptyString => if after_digit then Some acc else None
  | String a s' =>
      match digit_of a with
      | Some d => digits_then s' true (acc * 10 + d)
      | None =>
          if decide (a = "_"%char) then (if after_digit then digits_then s' false acc else None)
          else if after_digit && ascii_space a && forallb ascii_space (String.list_ascii_of_string s')
          then Some acc else None
      end
  end.

Definition signed (s : string) : option Z :=
  match s with
  | String "+" s' => digits_then s' false 0
  | String "-" s' => Z.opp <$> digits_then s' false 0
  | _ => digits_then s false 0
  end.

(** [int(text)] of ASCII text *)
Fixpoint py_int (s : string) : option Z :=
  match s with
  | String a s' => if ascii_space a then py_int s' else signed s
  | EmptyString => None
  end.

Definition parity_prefix : string := "parity:".

Definition _parse_parity_evidence_ref (evidence_ref : string) : option (string * Z * string) :=
  if negb (String.prefix parity_prefix evidence_ref) then None
  else
    '(rest, window_nonce) ← rsplit_once ":" (String.substring 7 (String.length evidence_ref - 7) evidence_ref);
    '(build_id, target_text) ← rsplit_once ":" rest;
    target_version ← py_int target_text;
    if bool_decide (build_id = ""%string) || bool_decide (window_nonce = ""%string) || (target_version <? 1)
    then None else Some (build_id, target_version, window_nonce).

(** The reference the sweep builds. *)
Definition parity_evidence_ref (build_id : string) (target : Z) (window_nonce : string) : string :=
  parity_prefix +:+ build_id +:+ ":" +:+ pretty target +:+ ":" +:+ window_nonce.

(** ** Results *)

Inductive AcceptResult := Accepted (acceptance_token : string) | AcceptConflict | AcceptDuplicateEvidence.
Inductive PromoteResult := Promoted | PromotionConflict | DuplicateEvidence.
Inductive RollbackResult := RolledBack | RollbackConflict.
#[export] Instance AcceptResult_eq_dec : EqDecision AcceptResult. Proof. solve_decision. Defined.
#[export] Instance PromoteResult_eq_dec : EqDecision PromoteResult. Proof. solve_decision. Defined.
#[export] Instance RollbackResult_eq_dec : EqDecision RollbackResult. Proof. solve_decision. Defined.

Definition is_accepted (r : AcceptResult) : bool := match r with Accepted _ => true | _ => false end.

(** ** The updates *)

Definition is_legacy (r : SeamActivationModel) : bool := bool_decide (sa_active_authority r = LEGACY).
Definition is_receiver (r : SeamActivationModel) : bool := bool_decide (sa_active_authority r = RECEIVER_STATE).

(** [accepted_version = active_version + 1] with a token and its evidence *)
Definition accepting (token evidence_ref now : string) (r : SeamActivationModel) : SeamActivationModel := {|
  sa_active_authority := sa_active_authority r; sa_accepted_version := sa_active_version r + 1;
  sa_active_version := sa_active_version r; sa_rollback_version := sa_rollback_version r;
  sa_acceptance_token := Some token; sa_evidence_ref := Some evidence_ref;
  sa_tombstoned_legacy := sa_tombstoned_legacy r; sa_updated_at := now |}.
(** [active_version = accepted_version] under the receiver state's authority *)
Definition promoting (now : string) (r : SeamActivationModel) : SeamActivationModel := {|
  sa_active_authority := RECEIVER_STATE; sa_accepted_version := sa_accepted_version r;
  sa_active_version := sa_accepted_version r; sa_rollback_version := sa_rollback_version r;
  sa_acceptance_token := sa_acceptance_token r; sa_evidence_ref := sa_evidence_ref r;
  sa_tombstoned_legacy := 1; sa_updated_at := now |}.
(** An accepted version that was never promoted is forgotten. *)
Definition normalizing (now : string) (r : SeamActivationModel) : SeamActivationModel := {|
  sa_active_authority := sa_active_authority r; sa_accepted_version := sa_active_version r;
  sa_active_version := sa_active_version r; sa_rollback_version := sa_rollback_version r;
  sa_acceptance_token := None; sa_evidence_ref := sa_evidence_ref r;
  sa_tombstoned_legacy := sa_tombstoned_legacy r; sa_updated_at := now |}.
(** Legacy authority again, at the version that is given up. *)
Definition restoring (now : string) (r : SeamActivationModel) : SeamActivationModel := {|
  sa_active_authority := LEGACY; sa_accepted_version := sa_active_version r;
  sa_active_version := sa_active_version r; sa_rollback_version := sa_active_version r;
  sa_acceptance_token := sa_acceptance_token r; sa_evidence_ref := sa_evidence_ref r;
  sa_tombstoned_legacy := sa_tombstoned_legacy r; sa_updated_at := now |}.

Definition has_token (token : string) (r : SeamActivationModel) : bool :=
  bool_decide (sa_acceptance_token r = Some token).
Definition accepted_ahead (r : SeamActivationModel) : bool := sa_accepted_version r =? sa_active_version r + 1.
Definition accepted_level (r : SeamActivationModel) : bool := sa_accepted_version r =? sa_active_version r.

Definition evidence_row (op evidence_ref token now : string) : SeamActivationEvidenceModel := {|
  ev_consumer_op := op; ev_evidence_ref := evidence_ref; ev_acceptance_token := token; ev_created_at := now |}.

(** [SEAM_ACTIVATION_CONSUMER_OPS] *)
Definition consumer_ops : list string := [
  "watchdog.cached_status"; "agent_step.status_reads"; "delivery.admission_status";
  "watchdog.pane_classify"; "delivery.fresh_probe"; "delivery.park_identity_probe";
  "auto_responder.frame_classify"]%string.
Definition _EVENT_FRAME_OPS : list string := ["watchdog.pane_classify"; "auto_responder.frame_classify"]%string.

(** [backend]: whether the backend supports the event inbox; [None] when asking raises. *)
Definition _event_frame_refused (backend : option bool) (consumer_op : string) : bool :=
  if bool_decide (consumer_op ∈ _EVENT_FRAME_OPS) then default true backend else false.

(** ** The entry points *)

Definition accept (up : bool) (backend : option bool) (now token consumer_op evidence_ref : string)
    : M tables AcceptResult :=
  if _event_frame_refused backend consumer_op then mret AcceptConflict
  else catch
    (commit_when is_accepted (
      reachable up ;;
      rowcount ← update_activation consumer_op (λ r, is_legacy r && accepted_level r)
        (accepting token evidence_ref now);
      if negb (rowcount =? 1) then mret AcceptConflict
      else insert_evidence (evidence_row consumer_op evidence_ref token now) ;; mret (Accepted token)))
    (λ e, match e with
          | IntegrityError _ => mret AcceptDuplicateEvidence
          | ExternalError _ => mret AcceptConflict
          | _ => raise e
          end).

Definition promote (up : bool) (backend : option bool) (now consumer_op acceptance_token : string)
    : M tables PromoteResult :=
  if _event_frame_refused backend consumer_op then mret PromotionConflict
  else catch
    (commit_when (λ r, bool_decide (r = Promoted)) (
      reachable up ;;
      rowcount ← update_activation consumer_op
        (λ r, is_legacy r && has_token acceptance_token r && accepted_ahead r) (promoting now);
      mret (if rowcount =? 1 then Promoted else PromotionConflict)))
    (λ e, match e with ExternalError _ => mret PromotionConflict | _ => raise e end).

(** A parity window opened by promotion. *)
Definition confirming_window (started : Z) (nonce : string) (r : SeamParityModel) : SeamParityModel := {|
  sp_build_id := sp_build_id r; sp_phase := CONFIRMING; sp_window_started_at := started;
  sp_window_nonce := nonce; sp_clean_samples := 0; sp_mismatch_count := 0;
  sp_last_sample_at := None; sp_last_mismatch_detail := None |}.

(** The composite from its second statement on: accept, evidence, promote, window. *)
Definition accept_and_promote (now : Z) (token nonce consumer_op evidence_ref expected_build_id : string)
    (target_version : Z) (expected_window_nonce : string) : M tables PromoteResult :=
  accepted ← update_activation consumer_op
    (λ r, is_legacy r && (sa_active_version r =? target_version - 1) && accepted_level r)
    (accepting token evidence_ref (isoformat now));
  if negb (accepted =? 1) then mret PromotionConflict else
  insert_evidence (evidence_row consumer_op evidence_ref token (isoformat now)) ;;
  promoted ← update_activation consumer_op
    (λ r, is_legacy r && has_token token r && accepted_ahead r) (promoting (isoformat now));
  if negb (promoted =? 1) then mret PromotionConflict else
  parity ← update_parity consumer_op
    (λ r, bool_decide (sp_build_id r = expected_build_id) && bool_decide (sp_phase r = COLLECTING)
          && bool_decide (sp_window_nonce r = expected_window_nonce))
    (confirming_window now nonce);
  mret (if parity =? 1 then Promoted else PromotionConflict).

(** A version accepted and never promoted is forgotten first. *)
Definition _promote_with_evidence_in (now : Z) (token nonce consumer_op evidence_ref : string)
    : M tables PromoteResult :=
  match _parse_parity_evidence_ref evidence_ref with
  | None => mret PromotionConflict
  | Some (expected_build_id, target_version, expected_window_nonce) =>
      update_activation consumer_op
        (λ r, is_legacy r && (sa_active_version r =? target_version - 1) && accepted_ahead r)
        (normalizing (isoformat now)) ;;
      accept_and_promote now token nonce consumer_op evidence_ref
        expected_build_id target_version expected_window_nonce
  end.

(** The transaction of [promote_with_evidence]; the caller discards the buffer. *)
Definition promote_with_evidence (up : bool) (backend : option bool) (now : Z)
    (token nonce consumer_op evidence_ref : string) : M tables PromoteResult :=
  if _event_frame_refused backend consumer_op then mret PromotionConflict
  else catch
    (commit_when (λ r, bool_decide (r = Promoted))
      (reachable up ;; _promote_with_evidence_in now token nonce consumer_op evidence_ref))
    (λ e, match e with IntegrityError _ => mret DuplicateEvidence | _ => mret PromotionConflict end).

Definition rollback (up : bool) (now consumer_op : string) (expected_active_version : Z)
    : M tables RollbackResult :=
  catch
    (commit_when (λ r, bool_decide (r = RolledBack)) (
      reachable up ;;
      rowcount ← update_activation consumer_op
        (λ r, is_receiver r && (sa_active_version r =? expected_active_version)) (restoring now);
      mret (if rowcount =? 1 then RolledBack else RollbackConflict)))
    (λ e, match e with ExternalError _ => mret RollbackConflict | _ => raise e end).

Definition required_fields : gset string := {[
  "consumer_op"; "build_id"; "window_nonce"; "phase"; "acted_answer"; "shadow_answer"; "detail";
  "created_at" ]}%string.

(** [SeamParityMismatchModel( **detail, source=source)] *)
Definition mismatch_row (detail : gmap string string) (source : string) : SeamParityMismatchModel :=
  let get k := default ""%string (detail !! k) in {|
  mm_consumer_op := get "consumer_op"%string; mm_build_id := get "build_id"%string;
  mm_window_nonce := get "window_nonce"%string; mm_phase := get "phase"%string;
  mm_acted_answer := get "acted_answer"%string; mm_shadow_answer := get "shadow_answer"%string;
  mm_detail := get "detail"%string; mm_source := source; mm_created_at := get "created_at"%string |}.

(** A collecting window opened by a mismatch. *)
Definition collecting_window (build_id : string) (started : Z) (nonce created_at detail : string)
    (r : SeamParityModel) : SeamParityModel := {|
  sp_build_id := build_id; sp_phase := COLLECTING; sp_window_started_at := started;
  sp_window_nonce := nonce; sp_clean_samples := 0; sp_mismatch_count := 0;
  sp_last_sample_at := Some created_at; sp_last_mismatch_detail := Some detail |}.

Definition _rollback_with_mismatch_in (now : Z) (nonce consumer_op : string) (expected_active_version : Z)
    (mismatch_detail : gmap string string) : M tables RollbackResult :=
  if negb (bool_decide (dom mismatch_detail = required_fields)
           && bool_decide (mismatch_detail !! "consumer_op"%string = Some consumer_op))
  then mret RollbackConflict else
  let row := mismatch_row mismatch_detail "live" in
  insert_mismatch row ;;
  rolled_back ← update_activation consumer_op
    (λ r, is_receiver r && (sa_active_version r =? expected_active_version)) (restoring (isoformat now));
  if negb (rolled_back =? 1) then mret RollbackConflict else
  parity ← update_parity consumer_op
    (λ r, bool_decide (sp_phase r = CONFIRMING) && bool_decide (sp_window_nonce r = mm_window_nonce row))
    (collecting_window (mm_build_id row) now nonce (mm_created_at row) (mm_detail row));
  mret (if parity =? 1 then RolledBack else RollbackConflict).

Definition rollback_with_mismatch (up : bool) (now : Z) (nonce consumer_op : string)
    (expected_active_version : Z) (mismatch_detail : gmap string string) : M tables RollbackResult :=
  catch
    (commit_when (λ r, bool_decide (r = RolledBack))
      (reachable up ;;
       _rollback_with_mismatch_in now nonce consumer_op expected_active_version mismatch_detail))
    (λ _, mret RollbackConflict).

(** [receiver_state_active]: an outage fails closed, and is logged once a minute. *)
Definition receiver_state_active (up : bool) (now_mono : Z) (consumer_op : string) (t : tables)
    (last_logged : gmap string Z) : bool * gmap string Z * bool :=
  if up then (match tb_activation t !! consumer_op with Some r => is_receiver r | None => false end, last_logged, false)
  else
    let due := match last_logged !! consumer_op with None => true | Some l => 60000000000 <=? now_mono - l end in
    (false, if due then <[consumer_op := now_mono]> last_logged else last_logged, due).

(** [clients/database.py], [_bootstrap_seam_activation] *)
Definition bootstrap_row (now : string) : SeamActivationModel := {|
  sa_active_authority := LEGACY; sa_accepted_version := 0; sa_active_version := 0; sa_rollback_version := 0;
  sa_acceptance_token := None; sa_evidence_ref := None; sa_tombstoned_legacy := 0; sa_updated_at := now |}.
Definition _bootstrap_seam_activation (now : string) : M tables () :=
  for_each consumer_ops () (λ _ op,
    row ← gets (λ t, tb_activation t !! op);
    match row with
    | Some _ => mret ()
    | None => modify (set_activation <[op := bootstrap_row now]>)
    end).
