(* ===== verification/SeamThms.v ===== *)
(** * What the authority switch promises

    Evidence references read back; promotion with evidence is all or nothing; and
    the rows of the switch stay within their CHECK constraints whatever is asked. *)

From stdpp Require Import gmap.
From S2P Require Import Prelude Text Wp Seam.

(** ** References *)

Lemma rsplit_once_app c s t : no_char c t → rsplit_once c (s +:+ String c t) = Some (s, t).
Proof.
  intros Ht. assert (rsplit_once c t = None) as Hn.
  { induction t as [|a t IH]; [done|]. simpl in *. destruct Ht as [Ha Ht]. rewrite IH by done. by case_decide. }
  induction s as [|a s IH]; simpl; [rewrite Hn; by case_decide|]. by rewrite IH.
Qed.

Lemma small_digit (d : N) : (d < 10)%N →
  d = 0%N ∨ d = 1%N ∨ d = 2%N ∨ d = 3%N ∨ d = 4%N ∨ d = 5%N ∨ d = 6%N ∨ d = 7%N ∨ d = 8%N ∨ d = 9%N.
Proof. lia. Qed.
Lemma digit_of_pretty (d : N) : (d < 10)%N → digit_of (pretty_N_char d) = Some (Z.of_N d).
Proof. by intros [->|[->|[->|[->|[->|[->|[->|[->|[->| ->]]]]]]]]]%small_digit. Qed.

Lemma digits_pretty_go (x : N) : ∀ s b, (0 < x)%N →
  digits_then (pretty_N_go x s) b 0 = digits_then s true (Z.of_N x).
Proof.
  induction (N.lt_wf_0 x) as [x _ IH]. intros s b Hx. rewrite pretty_N_go_step by lia.
  destruct (decide (x / 10 = 0)%N) as [Hd|Hd].
  - rewrite Hd. simpl. rewrite digit_of_pretty by (apply N.mod_lt; lia).
    f_equal. pose proof (N.div_mod x 10 ltac:(done)) as Hx10; revert Hx10; generalize (x mod 10)%N; (rewrite Hd || generalize (x / 10)%N); lia.
  - rewrite IH by (by apply N.neq_0_lt_0 || (apply N.div_lt; lia)). simpl. rewrite digit_of_pretty by (apply N.mod_lt; lia).
    f_equal. pose proof (N.div_mod x 10 ltac:(done)) as Hx10; revert Hx10; generalize (x mod 10)%N; (rewrite Hd || generalize (x / 10)%N); lia.
Qed.

Lemma pretty_go_digit (x : N) : ∀ s, (0 < x)%N → ∃ d t, (d < 10)%N ∧ pretty_N_go x s = String (pretty_N_char d) t.
Proof.
  induction (N.lt_wf_0 x) as [x _ IH]. intros s Hx. rewrite pretty_N_go_step by lia.
  destruct (decide (x / 10 = 0)%N) as [Hd|Hd].
  - rewrite Hd. simpl. exists (x mod 10)%N, s. split; [apply N.mod_lt; lia|done].
  - apply IH; [apply N.div_lt; lia|by apply N.neq_0_lt_0].
Qed.

(** [int(str(n))] *)
Lemma py_int_pretty (n : Z) : 0 < n → py_int (pretty n) = Some n.
Proof.
  intros Hn. destruct n as [|p|p]; try lia.
  change (py_int (pretty (N.pos p)) = Some (Z.pos p)). unfold pretty, pretty_N. rewrite decide_False by lia.
  destruct (pretty_go_digit (N.pos p) "") as (d & t & Hd & E); [lia|].
  assert (py_int (String (pretty_N_char d) t) = digits_then (String (pretty_N_char d) t) false 0) as H.
  { by apply small_digit in Hd as [->|[->|[->|[->|[->|[->|[->|[->|[->| ->]]]]]]]]]. }
  rewrite E, H, <- E. rewrite digits_pretty_go by lia. done.
Qed.

Lemma prefix_app p s : String.prefix p (p +:+ s) = true.
Proof. induction p as [|a p IH]; [by destruct s|]. simpl. by destruct (ascii_dec a a). Qed.
Lemma substring_all s : String.substring 0 (String.length s) s = s.
Proof. induction s as [|a s IH]; [done|]. simpl. by rewrite IH. Qed.
Lemma substring_app p s : String.substring (String.length p) (String.length s) (p +:+ s) = s.
Proof. induction p as [|a p IH]; [apply substring_all|apply IH]. Qed.

(** A reference the sweep builds is read back as the build, the version and the
    window it names, whatever the build identity contains (it has colons of its own),
    as long as the nonce has none: a promotion is fenced by exactly the window its
    evidence was collected in. *)
Theorem evidence_ref_round_trip build_id target nonce :
  build_id ≠ ""%string → nonce ≠ ""%string → no_char ":" nonce → 0 < target →
  _parse_parity_evidence_ref (parity_evidence_ref build_id target nonce) = Some (build_id, target, nonce).
Proof.
  intros Hb Hn Hc Ht. unfold _parse_parity_evidence_ref, parity_evidence_ref.
  rewrite prefix_app. cbn [negb]. rewrite string_length_app.
  replace (String.length parity_prefix + _ - 7)%nat with
    (String.length (build_id +:+ ":" +:+ pretty target +:+ ":" +:+ nonce)) by (simpl; lia).
  rewrite (substring_app parity_prefix).
  replace (build_id +:+ ":" +:+ pretty target +:+ ":" +:+ nonce)
    with ((build_id +:+ ":" +:+ pretty target) +:+ String ":" nonce) by (by rewrite <- !string_app_assoc).
  rewrite rsplit_once_app by done. cbn [mbind option_bind].
  change (build_id +:+ ":" +:+ pretty target) with (build_id +:+ String ":" (pretty target)).
  rewrite rsplit_once_app; [|apply pretty_Z_no_char; [done|]].
  - cbn [mbind option_bind]. rewrite py_int_pretty by done. cbn [mbind option_bind].
    rewrite !bool_decide_eq_false_2 by done. simpl. destruct (Z.ltb_spec target 1); [lia|done].
  - intros d. unfold pretty_N_char. by repeat case_match.
Qed.

Lemma evidence_ref_round_trip_witness :
  "0.9:1f"%string ≠ ""%string ∧
  _parse_parity_evidence_ref (parity_evidence_ref "0.9:1f" 12 "n-1") = Some ("0.9:1f"%string, 12, "n-1"%string).
Proof.
  split; [discriminate|]. apply (evidence_ref_round_trip "0.9:1f" 12 "n-1"); [discriminate|discriminate| |lia].
  simpl. repeat split; discriminate.
Defined.

(** ** The statements *)

Lemma update_activation_hit op p f t r :
  tb_activation t !! op = Some r → p r = true → activation_ok (f r) = true →
  update_activation op p f t = (set_activation <[op := f r]> t, Returned 1).
Proof. intros H Hp Hf. unfold update_activation. by rewrite H, Hp, Hf. Qed.
Lemma update_activation_miss op p f t :
  (∀ r, tb_activation t !! op = Some r → p r = false) → update_activation op p f t = (t, Returned 0).
Proof. intros H. unfold update_activation. destruct (tb_activation t !! op) as [r|]; [by rewrite H|done]. Qed.

Lemma update_parity_hit op p f t r :
  tb_parity t !! op = Some r → p r = true → update_parity op p f t = (set_parity <[op := f r]> t, Returned 1).
Proof. intros H Hp. unfold update_parity. by rewrite H, Hp. Qed.
Lemma update_parity_miss op p f t :
  (∀ r, tb_parity t !! op = Some r → p r = false) → update_parity op p f t = (t, Returned 0).
Proof. intros H. unfold update_parity. destruct (tb_parity t !! op) as [r|]; [by rewrite H|done]. Qed.

Definition has_evidence (op evidence_ref : string) (t : tables) : Prop :=
  (op, evidence_ref) ∈ evidence_key <$> tb_evidence t.

Lemma insert_evidence_new r t :
  ¬ has_evidence (ev_consumer_op r) (ev_evidence_ref r) t → insert_evidence r t = (add_evidence_row r t, Returned ()).
Proof.
  intros H. unfold insert_evidence. destruct (existsb _ _) eqn:E; [|done].
  apply existsb_exists in E as (x & Hx%list_elem_of_In & Hk%bool_decide_eq_true). destruct H.
  unfold has_evidence. change (ev_consumer_op r, ev_evidence_ref r) with (evidence_key r). rewrite <- Hk.
  by apply list_elem_of_fmap_2.
Qed.
Lemma insert_evidence_old r t :
  has_evidence (ev_consumer_op r) (ev_evidence_ref r) t →
  insert_evidence r t = (t, Raised (IntegrityError "seam_activation_evidence")).
Proof.
  intros H. unfold insert_evidence. destruct (existsb _ _) eqn:E; [done|].
  apply list_elem_of_fmap in H as (x & Hk & Hx). rewrite <- not_true_iff_false, existsb_exists in E.
  destruct E. exists x. split; [by apply list_elem_of_In|]. by apply bool_decide_eq_true.
Qed.

#[local] Ltac by_booleans :=
  unfold activation_ok, accepted_ahead, accepted_level, is_legacy, is_receiver, has_token in *; simpl in *;
  repeat match goal with
  | H : _ && _ = true |- _ => apply andb_true_iff in H as []
  | |- _ && _ = true => apply andb_true_iff; split
  | H : bool_decide _ = true |- _ => apply bool_decide_eq_true in H
  | |- context [bool_decide (?x = ?x)] => rewrite (bool_decide_eq_true_2 (x = x)) by done
  end; simpl in *; try done.

(** ** Promotion *)

Definition promoted_tables (now : Z) (token nonce op evidence_ref : string) (r : SeamActivationModel)
    (p : SeamParityModel) (t : tables) : tables := {|
  tb_activation := <[op := promoting (isoformat now) (accepting token evidence_ref (isoformat now) r)]> (tb_activation t);
  tb_evidence := tb_evidence t ++ [evidence_row op evidence_ref token (isoformat now)];
  tb_parity := <[op := confirming_window now nonce p]> (tb_parity t);
  tb_mismatch := tb_mismatch t |}.

(** The window [p] is the one the reference names. *)
Definition names_window (b n : string) (p : SeamParityModel) : Prop :=
  sp_build_id p = b ∧ sp_phase p = COLLECTING ∧ sp_window_nonce p = n.

Lemma accepting_ok token ref now r : activation_ok r = true → activation_ok (accepting token ref now r) = true.
Proof. intros H. by_booleans; lia || (by case_match). Qed.

Lemma normalize_step now op v r t :
  tb_activation t !! op = Some r → activation_ok r = true → is_legacy r = true → sa_active_version r = v - 1 →
  ∃ n r1, update_activation op (λ r, is_legacy r && (sa_active_version r =? v - 1) && accepted_ahead r)
            (normalizing now) t = (set_activation <[op := r1]> t, Returned n)
  ∧ activation_ok r1 = true ∧ is_legacy r1 && (sa_active_version r1 =? v - 1) && accepted_level r1 = true
  ∧ ∀ token ref, accepting token ref now r1 = accepting token ref now r.
Proof.
  intros Hr Hok Hl Hv. destruct (accepted_ahead r) eqn:Ha.
  - exists 1, (normalizing now r). rewrite (update_activation_hit _ _ _ _ r); [|done| |].
    + split_and!; [done| | |done].
      * by_booleans; lia || by case_match.
      * unfold is_legacy, accepted_level in *. simpl. by rewrite Hl, Hv, !Z.eqb_refl.
    + by rewrite Hl, Hv, Z.eqb_refl, Ha.
    + by_booleans; lia || by case_match.
  - exists 0, r. rewrite update_activation_miss.
    + split_and!; [|done| |done].
      * f_equal. unfold set_activation. rewrite insert_id by done. by destruct t.
      * rewrite Hl, Hv, Z.eqb_refl. unfold accepted_level, accepted_ahead in *. by_booleans. lia.
    + intros r' Hr'. simplify_eq. by rewrite Ha, andb_false_r.
Qed.

(** Every test of the composite, decided. *)
Lemma promote_in_hit now token nonce op ref b v n r p t :
  _parse_parity_evidence_ref ref = Some (b, v, n) →
  tb_activation t !! op = Some r → activation_ok r = true → is_legacy r = true → sa_active_version r = v - 1 → 1 <= v →
  ¬ has_evidence op ref t → tb_parity t !! op = Some p → names_window b n p →
  _promote_with_evidence_in now token nonce op ref t = (promoted_tables now token nonce op ref r p t, Returned Promoted).
Proof.
  intros Href Hr Hok Hl Hv Hv1 Hev Hp (Hb & Hph & Hn). unfold _promote_with_evidence_in, accept_and_promote. rewrite Href.
  destruct (normalize_step (isoformat now) op v r t Hr Hok Hl Hv) as (k & r1 & E1 & Hok1 & Hw1 & Hacc).
  rewrite (bind_returned _ _ _ _ _ E1).
  erewrite bind_returned by (apply update_activation_hit; [apply lookup_insert_eq|done|by apply accepting_ok]).
  cbn [negb Z.eqb Pos.eqb]. erewrite bind_returned by (by apply insert_evidence_new).
  set (a := accepting token ref (isoformat now) r1).
  assert (activation_ok (promoting (isoformat now) a) = true) as Hpok by (unfold a; by_booleans; lia || by case_match).
  assert (is_legacy a && has_token token a && accepted_ahead a = true) as Hpw
    by (unfold a; by_booleans; rewrite ?Z.eqb_refl, ?bool_decide_eq_true_2; done).
  erewrite bind_returned by (apply update_activation_hit; [apply lookup_insert_eq|exact Hpw|exact Hpok]).
  cbn [negb Z.eqb Pos.eqb]. erewrite bind_returned.
  2:{ apply update_parity_hit; [done|]. by rewrite Hb, Hph, Hn, !bool_decide_eq_true_2. }
  unfold promoted_tables, set_activation, set_parity, add_evidence_row, a. cbn. by rewrite !insert_insert_eq, Hacc.
Qed.

Lemma wp_update_activation op p f t (Q : Z → tables → Prop) E :
  (∀ r, tb_activation t !! op = Some r → p r = true → activation_ok (f r) = true → Q 1 (set_activation <[op := f r]> t)) →
  (∀ r, tb_activation t !! op = Some r → p r = true → activation_ok (f r) = false → E (IntegrityError "seam_activation") t) →
  Q 0 t → wp (update_activation op p f) t Q E.
Proof.
  intros H1 H2 H3. unfold wp, update_activation. destruct (tb_activation t !! op) as [r|]; [|done].
  destruct (p r) eqn:Hp; [|done]. destruct (activation_ok (f r)) eqn:Hf; eauto.
Qed.
Lemma wp_update_parity op p f t (Q : Z → tables → Prop) E :
  (∀ r, tb_parity t !! op = Some r → p r = true → Q 1 (set_parity <[op := f r]> t)) →
  Q 0 t → wp (update_parity op p f) t Q E.
Proof.
  intros H1 H2. unfold wp, update_parity. destruct (tb_parity t !! op) as [r|]; [|done]. destruct (p r) eqn:Hp; eauto.
Qed.
Lemma wp_insert_evidence r t (Q : () → tables → Prop) E :
  (¬ has_evidence (ev_consumer_op r) (ev_evidence_ref r) t → Q () (add_evidence_row r t)) →
  (has_evidence (ev_consumer_op r) (ev_evidence_ref r) t → E (IntegrityError "seam_activation_evidence") t) →
  wp (insert_evidence r) t Q E.
Proof.
  intros H1 H2. unfold wp. destruct (decide ((ev_consumer_op r, ev_evidence_ref r) ∈ evidence_key <$> tb_evidence t)).
  - rewrite insert_evidence_old by done. auto.
  - rewrite insert_evidence_new by done. auto.
Qed.
Lemma wp_insert_mismatch r t (Q : () → tables → Prop) E :
  (replayed_mismatch r t = false → Q () (add_mismatch_row r t)) →
  (replayed_mismatch r t = true → E (IntegrityError "seam_parity_mismatch") t) → wp (insert_mismatch r) t Q E.
Proof. unfold wp, insert_mismatch. destruct (replayed_mismatch r t); auto. Qed.
Lemma wp_commit_when {A} (good : A → bool) (m : M tables A) t (Q : A → tables → Prop) E :
  wp m t (λ a t', if good a then Q a t' else Q a t) (λ e _, E e t) → wp (commit_when good m) t Q E.
Proof. unfold wp, commit_when. destruct (m t) as [t' [a|e]]; [|done]. by destruct (good a). Qed.
Lemma wp_reachable up t (Q : () → tables → Prop) E :
  (up = true → Q () t) → (up = false → E (ExternalError "OperationalError") t) → wp (reachable up) t Q E.
Proof. destruct up; unfold wp, reachable; simpl; auto. Qed.

(** What a reference must name for the composite to promote. *)
Definition promotable (backend : option bool) (up : bool) (op evidence_ref : string) (t : tables)
    (r : SeamActivationModel) (p : SeamParityModel) : Prop :=
  _event_frame_refused backend op = false ∧ up = true
  ∧ tb_activation t !! op = Some r ∧ sa_active_authority r = LEGACY
  ∧ tb_parity t !! op = Some p ∧ ¬ has_evidence op evidence_ref t
  ∧ ∃ b v n, _parse_parity_evidence_ref evidence_ref = Some (b, v, n)
      ∧ sa_active_version r = v - 1 ∧ names_window b n p.

Definition within_checks (t : tables) : Prop := ∀ op r, tb_activation t !! op = Some r → activation_ok r = true.

Lemma parsed_version ref b v n : _parse_parity_evidence_ref ref = Some (b, v, n) → 1 <= v.
Proof.
  unfold _parse_parity_evidence_ref. case_match; [done|].
  destruct (rsplit_once _ _) as [[x y]|]; [|done]. simpl.
  destruct (rsplit_once _ x) as [[x' y']|]; [|done]. simpl. destruct (py_int y') as [z|]; [|done].
  simpl. destruct (Z.ltb_spec z 1); [by rewrite orb_true_r|]. case_match; intros; by simplify_eq.
Qed.

Lemma normalizing_ok now r : activation_ok r = true → activation_ok (normalizing now r) = true.
Proof. intros H. by_booleans; lia || by case_match. Qed.
Lemma promoting_ok now token ref at_ r : activation_ok r = true → 0 <= sa_active_version r →
  activation_ok (promoting now (accepting token ref at_ r)) = true.
Proof. intros H Hv. by_booleans; lia || by case_match. Qed.
Lemma restoring_ok now r : activation_ok r = true → activation_ok (restoring now r) = true.
Proof. intros H. by_booleans; lia || by case_match. Qed.

(** [t1] differs from [t] at most in what normalisation changes. *)
Definition normalized_from (op : string) (t t1 : tables) : Prop :=
  tb_parity t1 = tb_parity t ∧ tb_evidence t1 = tb_evidence t
  ∧ ∀ r1, tb_activation t1 !! op = Some r1 → activation_ok r1 = true ∧ ∃ r, tb_activation t !! op = Some r
      ∧ sa_active_authority r = sa_active_authority r1 ∧ sa_active_version r = sa_active_version r1.

Lemma promote_tail_miss now token nonce op ref b v n t t1 :
  _parse_parity_evidence_ref ref = Some (b, v, n) → normalized_from op t t1 →
  wp (accept_and_promote now token nonce op ref b v n) t1
    (λ res _, res ≠ DuplicateEvidence ∧ (res = Promoted → ∃ r p, promotable (Some false) true op ref t r p))
    (λ _ _, has_evidence op ref t).
Proof.
  intros Href (Hp1 & He1 & Hr1). pose proof (parsed_version _ _ _ _ Href) as Hv.
  apply wp_bind, wp_update_activation; [| |by apply wp_ret].
  2:{ intros r1 H1 _ Hf. destruct (Hr1 r1 H1) as [Hr1ok _]. by rewrite (accepting_ok _ _ _ _ Hr1ok) in Hf. }
  intros r1 H1 Hw _. cbn [negb Z.eqb Pos.eqb]. destruct (Hr1 r1 H1) as [Hr1ok (r & Hr & Ha & Hac)].
  apply andb_true_iff in Hw as [[Hl%bool_decide_eq_true Hve%Z.eqb_eq]%andb_true_iff _].
  apply wp_bind, wp_insert_evidence; unfold has_evidence; cbn; rewrite He1; [|done]. intros Hev.
  apply wp_bind, wp_update_activation; [| |by apply wp_ret].
  2:{ cbn. intros r2. rewrite lookup_insert_eq. intros [= <-] _ Hf. rewrite promoting_ok in Hf by (done || lia). done. }
  intros r2 _ _ _. cbn [negb Z.eqb Pos.eqb]. apply wp_bind, wp_update_parity; [|by apply wp_ret].
  cbn. rewrite Hp1. intros p Hp [[Hb%bool_decide_eq_true Hph%bool_decide_eq_true]%andb_true_iff
    Hn%bool_decide_eq_true]%andb_true_iff. split; [done|]. intros _.
  exists r, p. split_and!; try done; [|congruence|exists b, v, n; split_and!; done || lia].
  unfold _event_frame_refused. by case_bool_decide.
Qed.

Lemma promote_in_miss now token nonce op ref t : within_checks t →
  wp (_promote_with_evidence_in now token nonce op ref) t
    (λ res _, res ≠ DuplicateEvidence ∧ (res = Promoted → ∃ r p, promotable (Some false) true op ref t r p))
    (λ _ _, has_evidence op ref t).
Proof.
  intros Hok. unfold _promote_with_evidence_in.
  destruct (_parse_parity_evidence_ref ref) as [[[b v] n]|] eqn:Href; [|by apply wp_ret].
  apply wp_bind, wp_update_activation.
  - intros r Hr _ _. apply promote_tail_miss; [done|]. split_and!; [done..|].
    cbn. intros r1. rewrite lookup_insert_eq. intros [= <-]. split; [by apply normalizing_ok, (Hok op)|]. by exists r.
  - intros r Hr _ Hf. by rewrite normalizing_ok in Hf by (by apply (Hok op)).
  - apply promote_tail_miss; [done|]. split_and!; [done..|].
    intros r1 Hr1. split; [by apply (Hok op)|]. by exists r1.
Qed.

(** Promotion with evidence is one transaction.  It promotes exactly when the
    seam is not refused, the database answers, the row is under legacy authority at
    the version before the one the reference names, that evidence was never used
    for the operation, and the parity window is still the collecting window the
    reference names; then all four effects happen together, an orphaned acceptance
    or not: authority and version, token and evidence, evidence history, and a new
    confirming window under a new nonce.  In every other case no table changes,
    and the answer is a conflict, or a duplicate only if the evidence was used. *)
Theorem promotion_is_all_or_nothing up backend now token nonce op ref t :
  within_checks t →
  (∃ r p, promotable backend up op ref t r p ∧
     promote_with_evidence up backend now token nonce op ref t
     = (promoted_tables now token nonce op ref r p t, Returned Promoted))
  ∨ (¬ (∃ r p, promotable backend up op ref t r p) ∧
     ∃ res, promote_with_evidence up backend now token nonce op ref t = (t, Returned res)
     ∧ (res = PromotionConflict ∨ res = DuplicateEvidence ∧ has_evidence op ref t)).
Proof.
  intros Hok. unfold promote_with_evidence. destruct (_event_frame_refused backend op) eqn:Href.
  { right. split; [|by exists PromotionConflict; auto]. intros (r & p & H & _). congruence. }
  destruct up; [|right; split; [by intros (r & p & _ & H & _)|by exists PromotionConflict; auto]].
  assert (∀ r p, promotable backend true op ref t r p → _promote_with_evidence_in now token nonce op ref t
    = (promoted_tables now token nonce op ref r p t, Returned Promoted)) as Hhit.
  { intros r p (_ & _ & Hr & Ha & Hp & Hev & b & v & n & Hparse & Hv & Hw).
    eapply promote_in_hit; try done; [by eapply Hok|by apply bool_decide_eq_true|by eapply parsed_version]. }
  pose proof (promote_in_miss now token nonce op ref t Hok) as Hmiss. unfold wp in Hmiss.
  unfold catch, commit_when. unfold mbind, M_bind. cbn [reachable mret M_ret].
  destruct (_promote_with_evidence_in now token nonce op ref t) as [t' [res|e]] eqn:E.
  - destruct Hmiss as [Hnd Hprom]. destruct (decide (res = Promoted)) as [->|Hne].
    + left. destruct (Hprom eq_refl) as (r & p & _ & _ & Hrest). assert (promotable backend true op ref t r p) as Hp by (split; [done|split; done]). exists r, p. split; [done|].
      rewrite bool_decide_eq_true_2 by done. by apply Hhit.
    + right. rewrite bool_decide_eq_false_2 by done. split.
      * intros (r & p & Hp). specialize (Hhit r p Hp). congruence.
      * exists res. split; [done|]. destruct res; auto; done.
  - right. split; [by intros (r & p & _ & _ & _ & _ & _ & Hev & _)|]. destruct e; eauto.
Qed.

(** ** The invariant of the switch *)

Definition evidence_count (op : string) (t : tables) : Z :=
  Z.of_nat (length (filter (λ e, ev_consumer_op e = op) (tb_evidence t))).

Record row_ok (count : Z) (r : SeamActivationModel) : Prop := {
  rk_checks : activation_ok r = true;
  rk_level : sa_active_authority r = RECEIVER_STATE → sa_accepted_version r = sa_active_version r;
  rk_nonneg : 0 <= sa_rollback_version r;
  rk_evidence : sa_accepted_version r <= count;
  rk_tombstone : sa_tombstoned_legacy r = if 0 <? sa_active_version r then 1 else 0;
}.
Record switch_ok (t : tables) : Prop := {
  sw_rows : ∀ op r, tb_activation t !! op = Some r → row_ok (evidence_count op t) r;
  sw_evidence : NoDup (evidence_key <$> tb_evidence t);
}.

Inductive switch_request :=
| Bootstrap (now : string)
| Accept (up : bool) (backend : option bool) (now token op ref : string)
| Promote (up : bool) (backend : option bool) (now op token : string)
| PromoteWithEvidence (up : bool) (backend : option bool) (now : Z) (token nonce op ref : string)
| Rollback (up : bool) (now op : string) (version : Z)
| RollbackWithMismatch (up : bool) (now : Z) (nonce op : string) (version : Z) (detail : gmap string string).

Definition switch (q : switch_request) : M tables () :=
  match q with
  | Bootstrap now => _bootstrap_seam_activation now
  | Accept up backend now token op ref => accept up backend now token op ref ;; mret ()
  | Promote up backend now op token => promote up backend now op token ;; mret ()
  | PromoteWithEvidence up backend now token nonce op ref =>
      promote_with_evidence up backend now token nonce op ref ;; mret ()
  | Rollback up now op version => rollback up now op version ;; mret ()
  | RollbackWithMismatch up now nonce op version detail =>
      rollback_with_mismatch up now nonce op version detail ;; mret ()
  end.
Definition switches (qs : list switch_request) (t : tables) : tables :=
  foldl (λ t q, state_of (switch q t)) t qs.

Lemma row_ok_mono n m r : row_ok n r → n <= m → row_ok m r.
Proof. intros [] ?. constructor; try done. lia. Qed.

(** The CHECK constraints, as arithmetic. *)
Lemma activation_ok_spec r : activation_ok r = true ↔
  sa_active_version r <= sa_accepted_version r <= sa_active_version r + 1
  ∧ sa_rollback_version r <= sa_active_version r
  ∧ (sa_active_authority r = RECEIVER_STATE → sa_active_version r ≠ 0)
  ∧ (sa_active_version r < sa_accepted_version r → sa_acceptance_token r ≠ None)
  ∧ (sa_tombstoned_legacy r = 0 ∨ sa_tombstoned_legacy r = 1).
Proof.
  unfold activation_ok. rewrite !andb_true_iff, !negb_true_iff, !andb_false_iff, orb_true_iff,
    !bool_decide_eq_false, !Z.leb_le, !Z.eqb_eq, Z.eqb_neq, Z.ltb_ge.
  assert ((sa_active_authority r ≠ RECEIVER_STATE ∨ sa_active_version r ≠ 0)
    ↔ (sa_active_authority r = RECEIVER_STATE → sa_active_version r ≠ 0)) as ->
    by (destruct (decide (sa_active_authority r = RECEIVER_STATE)); tauto).
  assert ((sa_accepted_version r <= sa_active_version r ∨ sa_acceptance_token r ≠ None)
    ↔ (sa_active_version r < sa_accepted_version r → sa_acceptance_token r ≠ None)) as ->
    by (destruct (Z.lt_ge_cases (sa_active_version r) (sa_accepted_version r)); [|tauto || lia];
        split; [intros [?|?]; [lia|done]|auto]).
  tauto.
Qed.

#[local] Ltac by_row := intros [Hchk Hlvl Hnn Hevc Htomb]; apply activation_ok_spec in Hchk as (? & ? & ? & ? & ?);
  constructor; [apply activation_ok_spec; simpl|simpl..];
  repeat (match goal with |- context [?x <? ?y] => destruct (Z.ltb_spec x y) | H : context [?x <? ?y] |- _ => destruct (Z.ltb_spec x y) end);
  split_and?; try done; try congruence; try lia; try (right; lia); try (left; lia).

Lemma set_row_ok op r t : switch_ok t → row_ok (evidence_count op t) r → switch_ok (set_activation <[op := r]> t).
Proof.
  intros [Hrows Hev] Hr. constructor; [|done]. intros op' r' H'. cbn in H'.
  destruct (decide (op = op')) as [<-|Hne].
  - rewrite lookup_insert_eq in H'. by simplify_eq.
  - rewrite lookup_insert_ne in H' by done. by apply Hrows.
Qed.
Lemma set_parity_ok f t : switch_ok t → switch_ok (set_parity f t).
Proof. by intros [? ?]. Qed.
Lemma add_mismatch_ok r t : switch_ok t → switch_ok (add_mismatch_row r t).
Proof. by intros [? ?]. Qed.

Lemma evidence_count_add op e t :
  evidence_count op (add_evidence_row e t) = evidence_count op t + (if decide (ev_consumer_op e = op) then 1 else 0).
Proof.
  unfold evidence_count. cbn. rewrite filter_app, length_app, filter_cons.
  destruct (decide (ev_consumer_op e = op)); simpl; lia.
Qed.
Lemma evidence_count_set op f t : evidence_count op (set_activation f t) = evidence_count op t.
Proof. done. Qed.

(** Accepting and recording the evidence belong together. *)
Lemma accept_row_ok token ref now at_ op r t :
  switch_ok t → tb_activation t !! op = Some r → accepted_level r = true → is_legacy r = true →
  ¬ has_evidence op ref t →
  switch_ok (add_evidence_row (evidence_row op ref token at_) (set_activation <[op := accepting token ref now r]> t)).
Proof.
  intros [Hrows Hnd] Hr Hl%Z.eqb_eq Hleg Hev. constructor.
  - intros op' r' H'. rewrite evidence_count_add, evidence_count_set. cbn in H'.
    destruct (decide (op = op')) as [<-|Hne].
    + rewrite lookup_insert_eq in H'. rewrite decide_True by done. simplify_eq.
      unfold is_legacy in Hleg. apply bool_decide_eq_true in Hleg. generalize (Hrows _ _ Hr). by_row.
    + rewrite lookup_insert_ne in H' by done. rewrite decide_False, Z.add_0_r by done. by apply Hrows.
  - cbn. rewrite fmap_app. apply NoDup_app. split_and!; [done| |apply NoDup_singleton].
    intros x Hx ->%list_elem_of_singleton. by apply Hev.
Qed.

Lemma promoting_row_ok count now r :
  sa_active_authority r = LEGACY → sa_accepted_version r = sa_active_version r + 1 → row_ok count r →
  row_ok count (promoting now r).
Proof. intros Hl Ha. by_row. Qed.
Lemma normalizing_row_ok count now r : sa_active_authority r = LEGACY → row_ok count r → row_ok count (normalizing now r).
Proof. intros Hl. by_row. Qed.
Lemma restoring_row_ok count now r : row_ok count r → row_ok count (restoring now r).
Proof. by_row. Qed.
Lemma bootstrap_row_ok count now : 0 <= count → row_ok count (bootstrap_row now).
Proof. intros Hc. constructor; simpl; try done; lia. Qed.

Lemma evidence_count_nonneg op t : 0 <= evidence_count op t.
Proof. unfold evidence_count. lia. Qed.
Lemma switch_within_checks t : switch_ok t → within_checks t.
Proof. intros [Hrows _] op r Hr. apply (rk_checks _ _ (Hrows _ _ Hr)). Qed.

Lemma wp_bootstrap now t : switch_ok t → wp (_bootstrap_seam_activation now) t (λ _, switch_ok) (λ _ _, False).
Proof.
  intros H. unfold _bootstrap_seam_activation.
  apply (wp_for_each _ (λ _ _ t, switch_ok t)); [|done|done].
  intros op ops [] t' Ht'. apply wp_bind, wp_gets. destruct (tb_activation t' !! op) eqn:E; [by apply wp_ret|].
  apply wp_modify, set_row_ok; [done|]. apply bootstrap_row_ok, evidence_count_nonneg.
Qed.

Lemma accept_and_promote_ok now token nonce op ref b v n t : switch_ok t →
  wp (accept_and_promote now token nonce op ref b v n) t
    (λ res t', res = Promoted → switch_ok t') (λ _ _, True).
Proof.
  intros Hok. apply wp_bind, wp_update_activation; [|done|by apply wp_ret].
  intros r Hr Hw _. cbn [negb Z.eqb Pos.eqb].
  apply andb_true_iff in Hw as [[Hl _]%andb_true_iff Hlev].
  apply wp_bind, wp_insert_evidence; [|done]. intros Hev.
  pose proof (accept_row_ok token ref (isoformat now) (isoformat now) op r t Hok Hr Hlev Hl Hev) as Hok1.
  apply wp_bind, wp_update_activation; [|done|by apply wp_ret].
  intros r2 Hr2 Hw2 _. cbn [negb Z.eqb Pos.eqb].
  apply andb_true_iff in Hw2 as [[Hl2%bool_decide_eq_true _]%andb_true_iff Ha2%Z.eqb_eq].
  apply wp_bind, wp_update_parity.
  - intros p _ _. apply wp_ret. intros _. apply set_parity_ok, set_row_ok; [done|].
    apply promoting_row_ok; [done|done|]. apply (sw_rows _ Hok1 _ _ Hr2).
  - by apply wp_ret.
Qed.

Lemma promote_in_ok now token nonce op ref t : switch_ok t →
  wp (_promote_with_evidence_in now token nonce op ref) t
    (λ res t', res = Promoted → switch_ok t') (λ _ _, True).
Proof.
  intros Hok. unfold _promote_with_evidence_in. case_match; [|by apply wp_ret]. case_match. case_match.
  apply wp_bind, wp_update_activation; [|done|by apply accept_and_promote_ok].
  intros r Hr Hw _. apply accept_and_promote_ok, set_row_ok; [done|].
  apply andb_true_iff in Hw as [[Hl%bool_decide_eq_true _]%andb_true_iff _].
  apply normalizing_row_ok; [done|]. by apply (sw_rows _ Hok).
Qed.

(** A transaction that keeps the invariant when it commits, under a handler that answers. *)
Lemma wp_answer {A} (good : A → bool) (m : M tables A) (h : exn → M tables A) t :
  switch_ok t → wp m t (λ a t', good a = true → switch_ok t') (λ e _, ∃ a, h e t = (t, Returned a)) →
  wp (catch (commit_when good m) h ;; mret ()) t (λ _, switch_ok) (λ _ _, False).
Proof.
  intros Hok Hm. apply wp_bind, wp_catch, wp_commit_when. eapply wp_mono; [exact Hm| |].
  - intros a t' H. destruct (good a) eqn:Hg; apply wp_ret; [by apply H|done].
  - intros e _ [a Ha]. unfold wp. by rewrite Ha.
Qed.

Lemma wp_restoring now op version t (Q : Z → tables → Prop) E : switch_ok t →
  (∀ n t', switch_ok t' → Q n t') →
  wp (update_activation op (λ r, is_receiver r && (sa_active_version r =? version)) (restoring now)) t Q E.
Proof.
  intros Hok HQ. apply wp_update_activation; [| |auto].
  - intros r Hr _ _. apply HQ, set_row_ok; [done|]. apply restoring_row_ok. by apply (sw_rows _ Hok).
  - intros r Hr _ Hf. by rewrite restoring_ok in Hf by (by eapply switch_within_checks).
Qed.

(** The switch keeps its invariant, and always answers.  Whatever is asked of
    it, from rows that satisfy it: every row stays within the CHECK constraints of
    its table (so no statement is ever refused by them), a row under the receiver
    state's authority has no version pending, no version is accepted that has no
    evidence of its own in the history, legacy is tombstoned exactly when some
    version was active, and no evidence is recorded twice; and no exception
    reaches the caller. *)
Theorem switch_invariant q t :
  switch_ok t → switch_ok (state_of (switch q t)) ∧ ∃ t', switch q t = (t', Returned ()).
Proof.
  intros Hok. assert (wp (switch q) t (λ _, switch_ok) (λ _ _, False)) as H.
  2:{ revert H. unfold wp. destruct (switch q t) as [t' [[]|e]]; [|done]. intros. split; [done|by exists t']. }
  destruct q as [now|up backend now token op ref|up backend now op token|up backend now token nonce op ref
    |up now op version|up now nonce op version detail]; simpl.
  - by apply wp_bootstrap.
  - unfold accept. case_match; [by apply wp_bind, wp_ret, wp_ret|]. apply wp_answer; [done|].
    apply wp_bind, wp_reachable; intros ->; [|by eexists]. apply wp_bind, wp_update_activation; [| |by apply wp_ret].
    + intros r Hr [Hl Hlev]%andb_true_iff _. cbn [negb Z.eqb Pos.eqb]. apply wp_bind, wp_insert_evidence.
      * intros Hev. apply wp_ret. intros _. by apply accept_row_ok.
      * intros _. by eexists.
    + intros r Hr _ Hf. by rewrite accepting_ok in Hf by (by eapply switch_within_checks).
  - unfold promote. case_match; [by apply wp_bind, wp_ret, wp_ret|]. apply wp_answer; [done|].
    apply wp_bind, wp_reachable; intros ->; [|by eexists]. apply wp_bind, wp_update_activation; [| |by apply wp_ret].
    + intros r Hr [[Hl%bool_decide_eq_true _]%andb_true_iff Ha%Z.eqb_eq]%andb_true_iff _. apply wp_ret. intros _.
      apply set_row_ok; [done|]. apply promoting_row_ok; [done|done|]. by apply (sw_rows _ Hok).
    + intros r Hr [[Hl%bool_decide_eq_true _]%andb_true_iff Ha%Z.eqb_eq]%andb_true_iff Hf.
      pose proof (promoting_row_ok _ now r Hl Ha (sw_rows _ Hok _ _ Hr)) as Hrow.
      by rewrite (rk_checks _ _ Hrow) in Hf.
  - unfold promote_with_evidence. case_match; [by apply wp_bind, wp_ret, wp_ret|]. apply wp_answer; [done|].
    apply wp_bind, wp_reachable; intros ->; [|by eexists].
    eapply wp_mono; [by apply promote_in_ok| |by intros [] ? _; eexists].
    intros res t' Hres Hg%bool_decide_eq_true. auto.
  - apply wp_answer; [done|]. apply wp_bind, wp_reachable; intros ->; [|by eexists].
    apply wp_bind, wp_restoring; [done|]. intros n t' Ht'. by apply wp_ret.
  - apply wp_answer; [done|]. apply wp_bind, wp_reachable; intros ->; [|by eexists].
    unfold _rollback_with_mismatch_in. case_match; [by apply wp_ret|]. apply wp_bind, wp_insert_mismatch; intros _; [|by eexists].
    apply wp_bind, wp_restoring; [by apply add_mismatch_ok|].
    intros n t' Ht'. case_match; [by apply wp_ret|]. apply wp_bind, wp_update_parity; [|by apply wp_ret].
    intros p _ _. apply wp_ret. intros _. by apply set_parity_ok.
Qed.

(** ** Witnesses *)

Definition no_tables : tables := {| tb_activation := ∅; tb_evidence := []; tb_parity := ∅; tb_mismatch := [] |}.
Definition sample_seam : string := "agent_step.status_reads".
Definition seam_tables : tables := set_parity <[sample_seam := {|
    sp_build_id := "0.9:1f"; sp_phase := COLLECTING; sp_window_started_at := 0; sp_window_nonce := "n-1";
    sp_clean_samples := 600; sp_mismatch_count := 0; sp_last_sample_at := None; sp_last_mismatch_detail := None |}]>
  (switches [Bootstrap "t0"] no_tables).

Lemma within_checks_map t : map_Forall (λ _ r, activation_ok r = true) (tb_activation t) → within_checks t.
Proof. intros H op r. apply H. Qed.

Lemma promotion_is_all_or_nothing_witness :
  let promote_at nonce := promote_with_evidence true (Some false) 7 "tok" "n-2" sample_seam
    (parity_evidence_ref "0.9:1f" 1 nonce) seam_tables in
  within_checks seam_tables
  ∧ value_of (promote_at "n-1"%string) = Returned Promoted ∧ value_of (promote_at "n-0"%string) = Returned PromotionConflict
  ∧ ((∃ r p, promotable (Some false) true sample_seam (parity_evidence_ref "0.9:1f" 1 "n-1") seam_tables r p ∧
       promote_at "n-1"%string = (promoted_tables 7 "tok" "n-2" sample_seam (parity_evidence_ref "0.9:1f" 1 "n-1") r p seam_tables, Returned Promoted))
     ∨ (¬ (∃ r p, promotable (Some false) true sample_seam (parity_evidence_ref "0.9:1f" 1 "n-1") seam_tables r p) ∧
       ∃ res, promote_at "n-1"%string = (seam_tables, Returned res) ∧ (res = PromotionConflict
         ∨ res = DuplicateEvidence ∧ has_evidence sample_seam (parity_evidence_ref "0.9:1f" 1 "n-1") seam_tables))).
Proof.
  assert (within_checks seam_tables) as H by (apply within_checks_map; by_eval).
  split; [exact H|]. split; [vm_compute; reflexivity|]. split; [vm_compute; reflexivity|].
  exact (promotion_is_all_or_nothing true (Some false) 7 "tok" "n-2" sample_seam (parity_evidence_ref "0.9:1f" 1 "n-1")
    seam_tables H).
Defined.

Lemma switch_invariant_witness :
  switch_ok (state_of (switch (Bootstrap "t0") no_tables))
  ∧ ∃ t', switch (Bootstrap "t0") no_tables = (t', Returned ()).
Proof.
  apply (switch_invariant (Bootstrap "t0") no_tables). constructor.
  - intros op r H. change (tb_activation no_tables) with (∅ : gmap string SeamActivationModel) in H.
    rewrite lookup_empty in H. discriminate H.
  - apply NoDup_nil_2.
Defined.
