(* ===== verification/SeamParity.v ===== *)
(** * Shadow parity — [services/seam_parity.py]

    Before an operation moves to the receiver-state store, and for a while after,
    both sources answer and the answers are compared.  Matches are buffered in the
    process and counted in the operation's window; enough of them, over a long
    enough window, promote it, then confirm it.  A mismatch opens a new window and
    gives legacy its authority back, and until that is known to be stored a poison
    or inhibit marker on disk keeps the operation from being promoted. *)

From stdpp Require Import gmap.
From S2P Require Import Prelude Text Screen Seam.

Definition PARITY_CONSUMER_OPS : list string :=
  ["watchdog.cached_status"; "agent_step.status_reads"; "delivery.admission_status"]%string.
Definition DEFAULT_CLEAN_SAMPLES : Z := 500.
Definition DEFAULT_WINDOW_AGE : Z := 3600000000.
Definition CLEAN_FLUSH_SAMPLES : Z := 25.
(** five seconds of the monotonic clock, in nanoseconds *)
Definition CLEAN_FLUSH_TIME : Z := 5000000000.

(** Ages in microseconds. *)
Record ParityThresholds := { th_clean_samples : Z; th_window_age : Z }.
Definition default_thresholds : ParityThresholds :=
  {| th_clean_samples := DEFAULT_CLEAN_SAMPLES; th_window_age := DEFAULT_WINDOW_AGE |}.

(** A value of the [[seam_parity]] table: an int, a number of seconds in microseconds,
    a bool or something else. *)
Inductive toml_value := TomlInt (n : Z) | TomlFloat (micros : Z) | TomlBool (b : bool) | TomlOther.

(** [_thresholds], of the section read ([None]: no file, no table, or an error). *)
Definition _thresholds (section : option (gmap string toml_value)) : ParityThresholds :=
  match section with
  | None => default_thresholds
  | Some s => {|
      th_clean_samples :=
        match s !! "clean_samples"%string with
        | Some (TomlInt n) => if n <? 1 then DEFAULT_CLEAN_SAMPLES else n
        | _ => DEFAULT_CLEAN_SAMPLES
        end;
      th_window_age :=
        match s !! "window_age_seconds"%string with
        | Some (TomlInt n) => if n <? 0 then DEFAULT_WINDOW_AGE else n * 1000000
        | Some (TomlFloat m) => if m <? 0 then DEFAULT_WINDOW_AGE else m
        | _ => DEFAULT_WINDOW_AGE
        end |}
  end.

(** [models/terminal.py] *)
Definition TerminalStatus_value (s : TerminalStatus) : string :=
  match s with
  | TS_UNKNOWN => "unknown" | TS_IDLE => "idle" | TS_PROCESSING => "processing"
  | TS_COMPLETED => "completed" | TS_WAITING_USER_ANSWER => "waiting_user_answer"
  | TS_RENDER_UNCERTAIN => "render_uncertain" | TS_ERROR => "error"
  end.
Definition _answer_value (answer : option TerminalStatus) : string :=
  match answer with None => "none" | Some s => TerminalStatus_value s end.

Record MismatchRecord := {
  mr_consumer_op : string;
  mr_build_id : string;
  mr_window_nonce : string;
  mr_phase : ParityPhase;
  mr_acted_answer : string;
  mr_shadow_answer : string;
  mr_detail : string;
  mr_created_at : string;
}.
Definition as_dict (r : MismatchRecord) : gmap string string := list_to_map [
  ("consumer_op", mr_consumer_op r); ("build_id", mr_build_id r); ("window_nonce", mr_window_nonce r);
  ("phase", ParityPhase_value (mr_phase r)); ("acted_answer", mr_acted_answer r);
  ("shadow_answer", mr_shadow_answer r); ("detail", mr_detail r); ("created_at", mr_created_at r)]%string.

(** ** The process and its files *)

(** [(consumer_op, build_id, phase, window_nonce)] *)
Abbreviation buffer_key := (string * string * string * string)%type.

(** The buffer is a dict in insertion order.  [w_poison] is the poison directory by
    file name, a file holding the object its JSON encodes or no JSON at all;
    [w_inhibit] the [.inhibit] directory; [w_uuids] how many ids were drawn. *)
Record World := {
  w_tables : tables;
  w_clean_buffer : list (buffer_key * Z);
  w_clean_buffer_started : gmap buffer_key Z;
  w_promotion_inhibited : gset string;
  w_running_build_id : string;
  w_poison : gmap string (option (gmap string string));
  w_inhibit : gset string;
  w_uuids : nat;
}.
Definition set_tables (t : tables) (w : World) : World := {|
  w_tables := t; w_clean_buffer := w_clean_buffer w; w_clean_buffer_started := w_clean_buffer_started w;
  w_promotion_inhibited := w_promotion_inhibited w; w_running_build_id := w_running_build_id w;
  w_poison := w_poison w; w_inhibit := w_inhibit w; w_uuids := w_uuids w |}.
Definition set_buffer (f : list (buffer_key * Z) → list (buffer_key * Z))
    (g : gmap buffer_key Z → gmap buffer_key Z) (w : World) : World := {|
  w_tables := w_tables w; w_clean_buffer := f (w_clean_buffer w);
  w_clean_buffer_started := g (w_clean_buffer_started w);
  w_promotion_inhibited := w_promotion_inhibited w; w_running_build_id := w_running_build_id w;
  w_poison := w_poison w; w_inhibit := w_inhibit w; w_uuids := w_uuids w |}.
Definition set_inhibited (f : gset string → gset string) (w : World) : World := {|
  w_tables := w_tables w; w_clean_buffer := w_clean_buffer w; w_clean_buffer_started := w_clean_buffer_started w;
  w_promotion_inhibited := f (w_promotion_inhibited w); w_running_build_id := w_running_build_id w;
  w_poison := w_poison w; w_inhibit := w_inhibit w; w_uuids := w_uuids w |}.
Definition set_poison (f : gmap string (option (gmap string string)) → gmap string (option (gmap string string)))
    (w : World) : World := {|
  w_tables := w_tables w; w_clean_buffer := w_clean_buffer w; w_clean_buffer_started := w_clean_buffer_started w;
  w_promotion_inhibited := w_promotion_inhibited w; w_running_build_id := w_running_build_id w;
  w_poison := f (w_poison w); w_inhibit := w_inhibit w; w_uuids := w_uuids w |}.
Definition set_inhibit (f : gset string → gset string) (w : World) : World := {|
  w_tables := w_tables w; w_clean_buffer := w_clean_buffer w; w_clean_buffer_started := w_clean_buffer_started w;
  w_promotion_inhibited := w_promotion_inhibited w; w_running_build_id := w_running_build_id w;
  w_poison := w_poison w; w_inhibit := f (w_inhibit w); w_uuids := w_uuids w |}.
Definition drew_uuid (w : World) : World := {|
  w_tables := w_tables w; w_clean_buffer := w_clean_buffer w; w_clean_buffer_started := w_clean_buffer_started w;
  w_promotion_inhibited := w_promotion_inhibited w; w_running_build_id := w_running_build_id w;
  w_poison := w_poison w; w_inhibit := w_inhibit w; w_uuids := S (w_uuids w) |}.

Definition on_tables {A} (m : M tables A) : M World A := zoom w_tables set_tables m.
(** A session: what it wrote is kept only if the block ends without an exception. *)
Definition session {A} (m : M World A) : M World A := λ w,
  match m w with
  | (w', Returned a) => (w', Returned a)
  | (w', Raised e) => (set_tables (w_tables w) w', Raised e)
  end.

Section Parity.
(** The ids [uuid.uuid4()] draws, one after the other. *)
Context (uuid4 : nat → string).

Definition fresh : M World string := n ← gets w_uuids; modify drew_uuid ;; mret (uuid4 n).

(** ** The clean-sample buffer *)

Definition discard_buffer (consumer_op : string) : M World () :=
  modify (set_buffer
    (filter (λ x, x.1.1.1.1 ≠ consumer_op))
    (filter (λ x, x.1.1.1.1 ≠ consumer_op))).

Definition buffered (k : buffer_key) (l : list (buffer_key * Z)) : option Z :=
  snd <$> head (filter (λ x, x.1 = k) l).
(** [d[k] = n] keeps the place of a key that is there. *)
Definition dict_set (k : buffer_key) (n : Z) (l : list (buffer_key * Z)) : list (buffer_key * Z) :=
  match buffered k l with
  | Some _ => (λ x, if decide (x.1 = k) then (k, n) else x) <$> l
  | None => l ++ [(k, n)]
  end.

Definition in_window (k : buffer_key) (r : SeamParityModel) : bool :=
  bool_decide (sp_build_id r = k.1.1.2) && bool_decide (ParityPhase_value (sp_phase r) = k.1.2)
  && bool_decide (sp_window_nonce r = k.2).
Definition counting (count : Z) (now : string) (r : SeamParityModel) : SeamParityModel := {|
  sp_build_id := sp_build_id r; sp_phase := sp_phase r; sp_window_started_at := sp_window_started_at r;
  sp_window_nonce := sp_window_nonce r; sp_clean_samples := sp_clean_samples r + count;
  sp_mismatch_count := sp_mismatch_count r; sp_last_sample_at := Some now;
  sp_last_mismatch_detail := sp_last_mismatch_detail r |}.

Definition _flush_key (up : bool) (now : Z) (k : buffer_key) : M World () :=
  popped ← gets (λ w, default 0 (buffered k (w_clean_buffer w)));
  modify (set_buffer (filter (λ x, x.1 ≠ k)) (delete k)) ;;
  if popped <=? 0 then mret ()
  else on_tables (commit_when (λ n, n =? 1) (
    reachable up ;; update_parity k.1.1.1 (in_window k) (counting popped (isoformat now)))) ;; mret ().

Definition flush_clean_samples (up : bool) (now : Z) : M World () :=
  keys ← gets (λ w, (w_clean_buffer w).*1);
  for_each keys () (λ _ k, _flush_key up now k).

Definition parity_state (up : bool) (consumer_op : string) (w : World) : option SeamParityModel :=
  if negb (bool_decide (consumer_op ∈ PARITY_CONSUMER_OPS)) then None
  else if up then tb_parity (w_tables w) !! consumer_op else None.

(** ** Markers on disk *)

(** A marker is replaced atomically; what follows the replacement may still raise. *)
Inductive write_result := Wrote | NotWritten | WroteThenFailed.
Definition writing (r : write_result) (put : World → World) : M World () :=
  match r with
  | Wrote => modify put
  | NotWritten => raise (ExternalError "OSError")
  | WroteThenFailed => modify put ;; raise (ExternalError "OSError")
  end.

Definition _write_poison (r : write_result) (record : MismatchRecord) : M World () :=
  writing r (set_poison <[mr_consumer_op record := Some (as_dict record)]>).
Definition _write_durable_inhibit (r : write_result) (consumer_op : string) : M World () :=
  writing r (set_inhibit (union {[consumer_op]})).
Definition _remove_poison (consumer_op : string) : M World () := modify (set_poison (delete consumer_op)).
Definition _remove_durable_inhibit (consumer_op : string) : M World () :=
  modify (set_inhibit (λ s, s ∖ {[consumer_op]})).

(** [_inhibition_state]: poisoned, durable, memory only *)
Definition _inhibition_state (consumer_op : string) (w : World) : bool * bool * bool :=
  (bool_decide (is_Some (w_poison w !! consumer_op)), bool_decide (consumer_op ∈ w_inhibit w),
   bool_decide (consumer_op ∈ w_promotion_inhibited w)).
Definition inhibited (consumer_op : string) (w : World) : bool :=
  let '(poisoned, durable, memory_only) := _inhibition_state consumer_op w in
  poisoned || durable || memory_only.

(** ** Comparisons *)

(** What may fail while a comparison is recorded: the read of the window, the two
    markers, the database for the rest. *)
Record Faults := {
  fl_readable : bool;
  fl_poison : write_result;
  fl_inhibit : write_result;
  fl_up : bool;
}.
Inductive Comparison := Match | Mismatch | RsUnavailable | Ignored.

Definition _persist_collecting_mismatch (up : bool) (now : Z) (record : MismatchRecord) : M World bool :=
  nonce ← fresh;
  rowcount ← on_tables (commit_when (λ n, n =? 1) (
    reachable up ;;
    insert_mismatch (mismatch_row (as_dict record) "live") ;;
    update_parity (mr_consumer_op record)
      (λ r, bool_decide (sp_build_id r = mr_build_id record) && bool_decide (sp_phase r = COLLECTING)
            && bool_decide (sp_window_nonce r = mr_window_nonce record))
      (λ r, collecting_window (sp_build_id r) now nonce (mr_created_at record) (mr_detail record) r)));
  mret (rowcount =? 1).

(** The two entry points of [seam_activation] that discard the buffer afterwards. *)
Definition seam_rollback_with_mismatch (up : bool) (now : Z) (consumer_op : string)
    (expected_active_version : Z) (detail : gmap string string) : M World RollbackResult :=
  nonce ← fresh;
  result ← on_tables (rollback_with_mismatch up now nonce consumer_op expected_active_version detail);
  (if bool_decide (result = RolledBack) then discard_buffer consumer_op else mret ()) ;;
  mret result.
Definition seam_promote_with_evidence (up : bool) (backend : option bool) (now : Z)
    (consumer_op evidence_ref : string) : M World PromoteResult :=
  token ← fresh;
  nonce ← fresh;
  result ← on_tables (promote_with_evidence up backend now token nonce consumer_op evidence_ref);
  (if bool_decide (result = Promoted) then discard_buffer consumer_op else mret ()) ;;
  mret result.

Definition active_version_of (consumer_op : string) (w : World) : Z :=
  match tb_activation (w_tables w) !! consumer_op with None => -1 | Some r => sa_active_version r end.

(** The marker that keeps the operation from being promoted; whether it is poison. *)
Definition mark_mismatch (faults : Faults) (record : MismatchRecord) : M World bool :=
  catch (_write_poison (fl_poison faults) record ;; mret true)
    (λ _, catch
      (_write_durable_inhibit (fl_inhibit faults) (mr_consumer_op record) ;;
       modify (set_inhibited (λ s, s ∖ {[mr_consumer_op record]})))
      (λ _, modify (set_inhibited (union {[mr_consumer_op record]}))) ;;
     mret false).

(** Whether the mismatch and its consequences are stored. *)
Definition persist (faults : Faults) (now : Z) (record : MismatchRecord) : M World bool :=
  catch
    (if bool_decide (mr_phase record = COLLECTING)
     then _persist_collecting_mismatch (fl_up faults) now record
     else
       on_tables (reachable (fl_up faults)) ;;
       active_version ← gets (active_version_of (mr_consumer_op record));
       result ← seam_rollback_with_mismatch (fl_up faults) now (mr_consumer_op record) active_version
                  (as_dict record);
       mret (bool_decide (result = RolledBack)))
    (λ _, mret false).

(** The mismatch branch of [record_comparison]. *)
Definition record_mismatch (faults : Faults) (now : Z) (record : MismatchRecord) : M World () :=
  marker_written ← mark_mismatch faults record;
  discard_buffer (mr_consumer_op record) ;;
  persisted ← persist faults now record;
  if persisted && marker_written then _remove_poison (mr_consumer_op record) else mret ().

(** The clean branch: count it, and flush a full or an old buffer. *)
Definition record_match (up : bool) (now monotonic later : Z) (k : buffer_key) : M World () :=
  modify (set_buffer (λ l, dict_set k (default 0 (buffered k l) + 1) l)
    (λ m, match m !! k with Some _ => m | None => <[k := monotonic]> m end)) ;;
  count ← gets (λ w, default 0 (buffered k (w_clean_buffer w)));
  started ← gets (λ w, default monotonic (w_clean_buffer_started w !! k));
  if (CLEAN_FLUSH_SAMPLES <=? count) || (CLEAN_FLUSH_TIME <=? later - started)
  then _flush_key up now k else mret ().

Definition record_of (consumer_op : string) (state : SeamParityModel) (acted shadow : string) (now : Z)
    : MismatchRecord := {|
  mr_consumer_op := consumer_op; mr_build_id := sp_build_id state; mr_window_nonce := sp_window_nonce state;
  mr_phase := sp_phase state; mr_acted_answer := acted; mr_shadow_answer := shadow;
  mr_detail := "acted=" +:+ acted +:+ " shadow=" +:+ shadow; mr_created_at := isoformat now |}.

(** [now] is the wall clock, [monotonic] and [later] the two monotonic readings. *)
Definition record_comparison (faults : Faults) (now monotonic later : Z) (consumer_op : string)
    (phase : ParityPhase) (acted shadow : option TerminalStatus) (rs_sourced : bool) : M World Comparison :=
  if negb (bool_decide (consumer_op ∈ PARITY_CONSUMER_OPS)) || bool_decide (phase = DONE) then mret Ignored else
  state ← gets (parity_state (fl_readable faults) consumer_op);
  match state with
  | None => mret Ignored
  | Some state =>
      if negb (bool_decide (sp_phase state = phase)) then mret Ignored
      else if negb rs_sourced then mret RsUnavailable
      else
        let acted_value := _answer_value acted in
        let shadow_value := _answer_value shadow in
        if bool_decide (acted_value = shadow_value) then
          running ← gets w_running_build_id;
          if bool_decide (sp_build_id state = "unknown"%string) || bool_decide (running = "unknown"%string)
          then mret Match
          else record_match (fl_up faults) now monotonic later
                 (consumer_op, sp_build_id state, ParityPhase_value (sp_phase state), sp_window_nonce state) ;;
               mret Match
        else record_mismatch faults now (record_of consumer_op state acted_value shadow_value now) ;; mret Mismatch
  end.

(** ** Repair *)

Definition _reset_values (build_id : string) (phase : ParityPhase) (now : Z) : M World SeamParityModel :=
  nonce ← fresh;
  mret {| sp_build_id := build_id; sp_phase := phase; sp_window_started_at := now; sp_window_nonce := nonce;
          sp_clean_samples := 0; sp_mismatch_count := 0; sp_last_sample_at := None;
          sp_last_mismatch_detail := None |}.
Definition put_parity (consumer_op : string) (r : SeamParityModel) : M World () :=
  on_tables (modify (set_parity <[consumer_op := r]>)).

(** The phase a row is reset to, if it is. *)
Definition repair_target (authority : Authority) (row : SeamParityModel) (build_id : string) : option ParityPhase :=
  if bool_decide (authority = LEGACY) && bool_decide (sp_phase row ∈ [CONFIRMING; DONE]) then Some COLLECTING
  else if bool_decide (authority = RECEIVER_STATE) && bool_decide (sp_phase row = COLLECTING) then Some CONFIRMING
  else if negb (bool_decide (sp_build_id row = build_id))
  then Some (if bool_decide (sp_phase row = DONE) then CONFIRMING else sp_phase row)
  else None.

Definition repair_op (now : Z) (build_id consumer_op : string) : M World () :=
  activation ← gets (λ w, tb_activation (w_tables w) !! consumer_op);
  match activation with
  | None => raise (RuntimeError "missing seam activation row")
  | Some a =>
      row ← gets (λ w, tb_parity (w_tables w) !! consumer_op);
      match row with
      | None =>
          fresh_row ← _reset_values build_id (if is_legacy a then COLLECTING else CONFIRMING) now;
          put_parity consumer_op fresh_row
      | Some r =>
          match repair_target (sa_active_authority a) r build_id with
          | None => mret ()
          | Some target =>
              fresh_row ← _reset_values build_id target now;
              put_parity consumer_op fresh_row ;;
              discard_buffer consumer_op
          end
      end
  end.

Definition _repair_matrix (now : Z) : M World () :=
  build_id ← gets w_running_build_id;
  session (for_each PARITY_CONSUMER_OPS () (λ _ op, repair_op now build_id op)).

(** [INSERT .. ON CONFLICT DO NOTHING] *)
Definition insert_or_ignore_mismatch (r : SeamParityMismatchModel) : M tables () := λ t,
  if replayed_mismatch r t then (t, Returned ()) else (add_mismatch_row r t, Returned ()).

Definition _recover_poison (inhibit : write_result) (now : Z) (name : string)
    (content : option (gmap string string)) : M World () :=
  match content with
  | None => raise (ValueError "JSONDecodeError")
  | Some payload =>
      if negb (bool_decide (dom payload = required_fields))
      then raise (ValueError "invalid seam parity poison marker fields")
      else
        let consumer_op := default ""%string (payload !! "consumer_op"%string) in
        let row := mismatch_row payload "poison_recovery" in
        if negb (bool_decide (consumer_op ∈ PARITY_CONSUMER_OPS)) || negb (bool_decide (name = consumer_op))
        then raise (ValueError "invalid seam parity poison marker op")
        else
          nonce ← fresh;
          session (
            rows ← gets (λ w, (tb_activation (w_tables w) !! consumer_op, tb_parity (w_tables w) !! consumer_op));
            match rows with
            | (Some _, Some parity) =>
                build_id ← gets w_running_build_id;
                on_tables (insert_or_ignore_mismatch row) ;;
                on_tables (update_activation consumer_op is_receiver (restoring (isoformat now))) ;;
                put_parity consumer_op
                  (collecting_window build_id now nonce (mm_created_at row) (mm_detail row) parity)
            | _ => raise (RuntimeError "missing seam rows during poison recovery")
            end) ;;
          discard_buffer consumer_op ;;
          _write_durable_inhibit inhibit consumer_op ;;
          _remove_poison consumer_op
  end.

Definition hidden (name : string) : bool := String.prefix "." name.

Definition startup_repair (inhibit : write_result) (now : Z) : M World () :=
  _repair_matrix now ;;
  files ← gets (λ w, merge_sort (λ x y, String.leb x.1 y.1 = true) (map_to_list (w_poison w)));
  for_each files () (λ _ file,
    if hidden file.1 then mret () else _recover_poison inhibit now file.1 file.2).

(** ** The sweep *)

Definition _window_age (started_at now : Z) : Z := Z.max 0 (now - started_at).

Definition _open_fresh_window (up : bool) (now : Z) (consumer_op : string) (phase : ParityPhase) : M World () :=
  session (
    on_tables (reachable up) ;;
    row ← gets (λ w, tb_parity (w_tables w) !! consumer_op);
    match row with
    | None => raise (RuntimeError "missing parity row")
    | Some _ =>
        build_id ← gets w_running_build_id;
        fresh_row ← _reset_values build_id phase now;
        put_parity consumer_op fresh_row
    end) ;;
  discard_buffer consumer_op.

(** The tests the sweep puts to a window, up to its phase. *)
Definition window_ready (thresholds : ParityThresholds) (now : Z) (running : string) (state : SeamParityModel) : bool :=
  negb (bool_decide (sp_phase state = DONE))
  && negb (bool_decide (sp_build_id state = "unknown"%string) || bool_decide (running = "unknown"%string))
  && negb ((sp_clean_samples state <? th_clean_samples thresholds)
           || (_window_age (sp_window_started_at state) now <? th_window_age thresholds)
           || negb (sp_mismatch_count state =? 0)).

Definition confirmed (now : string) (r : SeamParityModel) : SeamParityModel := {|
  sp_build_id := sp_build_id r; sp_phase := DONE; sp_window_started_at := sp_window_started_at r;
  sp_window_nonce := sp_window_nonce r; sp_clean_samples := sp_clean_samples r;
  sp_mismatch_count := sp_mismatch_count r; sp_last_sample_at := Some now;
  sp_last_mismatch_detail := sp_last_mismatch_detail r |}.

(** One turn of the loop; [up] is the database while the turn writes. *)
Definition sweep_op (up : bool) (backend : option bool) (thresholds : ParityThresholds) (now : Z)
    (entry : string * (SeamParityModel * option SeamActivationModel)) : M World () :=
  let '(consumer_op, (state, activation)) := entry in
  stop ← gets (inhibited consumer_op);
  running ← gets w_running_build_id;
  match activation with
  | None => mret ()
  | Some a =>
      if stop || negb (window_ready thresholds now running state) then mret ()
      else if bool_decide (sp_phase state = COLLECTING) then
        if negb (is_legacy a) then mret ()
        else
          result ← seam_promote_with_evidence up backend now consumer_op
            (parity_evidence_ref (sp_build_id state) (sa_active_version a + 1) (sp_window_nonce state));
          match result with
          | Promoted => discard_buffer consumer_op
          | DuplicateEvidence => _open_fresh_window up now consumer_op COLLECTING
          | PromotionConflict => mret ()
          end
      else if negb (is_receiver a) then mret ()
      else
        rowcount ← on_tables (commit_when (λ n, n =? 1) (
          reachable up ;;
          update_parity consumer_op
            (λ r, bool_decide (sp_build_id r = sp_build_id state) && bool_decide (sp_phase r = CONFIRMING)
                  && bool_decide (sp_window_nonce r = sp_window_nonce state) && (sp_mismatch_count r =? 0))
            (confirmed (isoformat now))));
        if rowcount =? 1 then discard_buffer consumer_op else mret ()
  end.

(** The rows the sweep reads before its loop. *)
Definition sweep_entries (w : World) : list (string * (SeamParityModel * option SeamActivationModel)) :=
  omap (λ op, (λ r, (op, (r, tb_activation (w_tables w) !! op))) <$> tb_parity (w_tables w) !! op)
    PARITY_CONSUMER_OPS.

Definition sweep (up : bool) (backend : option bool) (section : option (gmap string toml_value)) (now : Z)
    : M World () :=
  flush_clean_samples up now ;;
  let thresholds := _thresholds section in
  on_tables (reachable up) ;;
  entries ← gets sweep_entries;
  for_each entries () (λ _ entry, sweep_op up backend thresholds now entry).

(** ** The operator's commands *)

(** Two transactions: [up] is the database for the first, [later] for the second. *)
Definition manual_rollback (up later : bool) (now : Z) (consumer_op : string) : M World RollbackResult :=
  if negb (bool_decide (consumer_op ∈ PARITY_CONSUMER_OPS)) then raise (ValueError "out-of-scope seam") else
  on_tables (reachable up) ;;
  activation ← gets (λ w, tb_activation (w_tables w) !! consumer_op);
  match activation with
  | None => raise (ValueError "unknown seam")
  | Some a =>
      result ← on_tables (rollback up (isoformat now) consumer_op (sa_active_version a));
      (if bool_decide (result = RolledBack) then _open_fresh_window later now consumer_op COLLECTING else mret ()) ;;
      mret result
  end.

Definition reset (up : bool) (now : Z) (consumer_op : string) : M World () :=
  if negb (bool_decide (consumer_op ∈ PARITY_CONSUMER_OPS)) then raise (ValueError "out-of-scope seam") else
  on_tables (reachable up) ;;
  activation ← gets (λ w, tb_activation (w_tables w) !! consumer_op);
  match activation with
  | None => raise (ValueError "unknown seam")
  | Some a =>
      _open_fresh_window up now consumer_op (if is_legacy a then COLLECTING else CONFIRMING) ;;
      _remove_poison consumer_op ;;
      _remove_durable_inhibit consumer_op ;;
      modify (set_inhibited (λ s, s ∖ {[consumer_op]}))
  end.

Record SeamStatus := {
  ss_consumer_op : string;
  ss_activation : SeamActivationModel;
  ss_parity : SeamParityModel;
  ss_poisoned : bool;
  ss_inhibited : bool;
  ss_mismatches : list SeamParityMismatchModel;
}.
(** [status_rows]; the fields of the two rows are kept together. *)
Definition status_rows (w : World) : list SeamStatus :=
  omap (λ op,
    activation ← tb_activation (w_tables w) !! op;
    parity ← tb_parity (w_tables w) !! op;
    Some {| ss_consumer_op := op; ss_activation := activation; ss_parity := parity;
            ss_poisoned := (_inhibition_state op w).1.1; ss_inhibited := inhibited op w;
            ss_mismatches := filter (λ r, mm_consumer_op r = op) (tb_mismatch (w_tables w)) |})
    PARITY_CONSUMER_OPS.

(** A new process on the same tables and files, of the build installed now. *)
Definition restarted (build_id : string) (w : World) : World := {|
  w_tables := w_tables w; w_clean_buffer := []; w_clean_buffer_started := ∅; w_promotion_inhibited := ∅;
  w_running_build_id := build_id; w_poison := w_poison w; w_inhibit := w_inhibit w; w_uuids := w_uuids w |}.
End Parity.

(** ** Samples *)

Definition sample_uuid (n : nat) : string := pretty n.
Definition new_world : World := {|
  w_tables := {| tb_activation := ∅; tb_evidence := []; tb_parity := ∅; tb_mismatch := [] |};
  w_clean_buffer := []; w_clean_buffer_started := ∅; w_promotion_inhibited := ∅;
  w_running_build_id := "build:a"; w_poison := ∅; w_inhibit := ∅; w_uuids := 0 |}.
Definition started : World := state_of (
  (on_tables (_bootstrap_seam_activation "t0") ;; startup_repair sample_uuid Wrote 0) new_world).
Definition no_faults : Faults := {| fl_readable := true; fl_poison := Wrote; fl_inhibit := Wrote; fl_up := true |}.
Definition sample_op : string := "watchdog.cached_status".
Definition easy : gmap string toml_value :=
  {["clean_samples"%string := TomlInt 2; "window_age_seconds"%string := TomlInt 1]}.
Definition matching : M World Comparison :=
  record_comparison sample_uuid no_faults 500 0 0 sample_op COLLECTING (Some TS_IDLE) (Some TS_IDLE) true.
Definition differing : M World Comparison :=
  record_comparison sample_uuid no_faults 500 0 0 sample_op COLLECTING (Some TS_IDLE) (Some TS_ERROR) true.
Definition authority_of (w : World) : option Authority :=
  sa_active_authority <$> tb_activation (w_tables w) !! sample_op.
Definition sweeping (now : Z) : M World () := sweep sample_uuid true (Some false) (Some easy) now.
