(* ===== verification/SeamInv.v ===== *)
(** * What a parity window has to show for itself

    The comparisons made so far are a ghost log.  [earned] says that a window counts
    no match the log does not have, and that a mismatch of a window that is still
    open has its marker on disk, if one reached the disk; every operation keeps it. *)

From stdpp Require Import gmap.
From S2P Require Import Prelude Text Screen Wp Seam SeamThms SeamParity.

(** ** The buffer as a finite map *)

Lemma buffered_filter (P : buffer_key → Prop) `{∀ k, Decision (P k)} k l :
  buffered k (filter (λ x, P x.1) l) = if decide (P k) then buffered k l else None.
Proof.
  unfold buffered. induction l as [|[k' n] l IH]; [by case_decide|].
  rewrite !(filter_cons _ (k', n)). simpl. destruct (decide (P k')) as [HP|HP].
  - rewrite filter_cons. simpl. destruct (decide (k' = k)) as [->|Hne]; [by rewrite decide_True|exact IH].
  - destruct (decide (k' = k)) as [->|Hne]; [by rewrite IH, !decide_False|exact IH].
Qed.

Lemma buffered_pop k l : buffered k (filter (λ x, x.1 ≠ k) l) = None.
Proof. etransitivity; [exact (buffered_filter (λ j, j ≠ k) k l)|]. by rewrite decide_False by (intros []; done). Qed.

Lemma buffered_discard op k l : buffered k (filter (λ x, x.1.1.1.1 ≠ op) l)
  = if decide (k.1.1.1 ≠ op) then buffered k l else None.
Proof. exact (buffered_filter (λ k, k.1.1.1 ≠ op) k l). Qed.

Lemma buffered_dict_set k n k' l :
  buffered k' (dict_set k n l) = if decide (k' = k) then Some n else buffered k' l.
Proof.
  unfold dict_set. destruct (buffered k l) as [m|] eqn:E.
  - assert (∀ l, buffered k' ((λ x, if decide (x.1 = k) then (k, n) else x) <$> l)
      = if decide (k' = k) then (λ _, n) <$> buffered k' l else buffered k' l) as H.
    { clear. intros l. unfold buffered. induction l as [|[j m] l IH]; [by case_decide|].
      rewrite fmap_cons, (filter_cons _ (j, m)). rewrite filter_cons. simpl.
      destruct (decide (j = k)) as [->|Hj]; simpl.
      - destruct (decide (k = k')) as [->|Hk]; [by rewrite !decide_True|]. by rewrite IH.
      - destruct (decide (j = k')) as [->|Hk]; [|by rewrite IH]. by rewrite decide_False by congruence. }
    rewrite H. destruct (decide (k' = k)) as [->|]; [by rewrite E|done].
  - unfold buffered in *. rewrite filter_app, filter_cons. simpl.
    destruct (decide (k = k')) as [->|Hk].
    + destruct (filter _ l); [by rewrite decide_True|done].
    + rewrite filter_nil, app_nil_r, decide_False by congruence. done.
Qed.

(** ** The log *)

(** A match, and a mismatch with whether a marker of it reached the disk. *)
Inductive event := Matched (k : buffer_key) | Mismatched (consumer_op nonce : string) (marker : bool).
#[export] Instance event_eq_dec : EqDecision event. Proof. solve_decision. Defined.

Definition observed (k : buffer_key) (log : list event) : Z := Z.of_nat (length (filter (λ e, e = Matched k) log)).
Lemma observed_app k log e : observed k (log ++ [e]) = observed k log + (if decide (e = Matched k) then 1 else 0).
Proof. unfold observed. rewrite filter_app, length_app, filter_cons. destruct (decide _); simpl; lia. Qed.
Lemma observed_nonneg k log : 0 <= observed k log.
Proof. unfold observed. lia. Qed.

Definition window_key (op : string) (r : SeamParityModel) : buffer_key :=
  (op, sp_build_id r, ParityPhase_value (sp_phase r), sp_window_nonce r).
Definition in_buffer (k : buffer_key) (w : World) : Z := default 0 (buffered k (w_clean_buffer w)).

(** A marker on disk. *)
Definition marked (op : string) (w : World) : Prop := is_Some (w_poison w !! op) ∨ op ∈ w_inhibit w.

Section Earned.
Context (uuid4 : nat → string) `{!Inj (=) (=) uuid4}.

Definition drawn (n : nat) (s : string) : Prop := ∃ i, (i < n)%nat ∧ uuid4 i = s.

Record earned (log : list event) (w : World) : Prop := {
  ea_counted : ∀ op r, tb_parity (w_tables w) !! op = Some r → sp_phase r ≠ DONE →
    sp_clean_samples r + in_buffer (window_key op r) w <= observed (window_key op r) log;
  ea_buffered : ∀ k, 0 <= in_buffer k w;
  ea_mismatch : ∀ op n, Mismatched op n true ∈ log →
    marked op w ∨ ∀ r, tb_parity (w_tables w) !! op = Some r → sp_window_nonce r ≠ n;
  ea_count0 : ∀ op r, tb_parity (w_tables w) !! op = Some r → sp_mismatch_count r = 0;
  ea_rows_drawn : ∀ op r, tb_parity (w_tables w) !! op = Some r → drawn (w_uuids w) (sp_window_nonce r);
  ea_buffer_drawn : ∀ k, is_Some (buffered k (w_clean_buffer w)) → drawn (w_uuids w) k.2;
  ea_log_drawn : ∀ op n, Mismatched op n true ∈ log → drawn (w_uuids w) n;
}.

(** A nonce no row, buffer or event has. *)
Definition unused (nonce : string) (log : list event) (w : World) : Prop :=
  drawn (w_uuids w) nonce
  ∧ (∀ k, is_Some (buffered k (w_clean_buffer w)) → k.2 ≠ nonce) ∧ (∀ op n, Mismatched op n true ∈ log → n ≠ nonce).

Lemma drawn_mono n m s : drawn n s → (n <= m)%nat → drawn m s.
Proof using Type. intros (i & Hi & <-) ?. exists i. split; [lia|done]. Qed.

Lemma earned_draw log w : earned log w → earned log (drew_uuid w) ∧ unused (uuid4 (w_uuids w)) log (drew_uuid w).
Proof.
  intros [Hc Hb Hm H0 Hr Hbd Hl]. split.
  - constructor; try done; simpl; intros; (eapply drawn_mono; [eauto|lia]).
  - split_and!; [exists (w_uuids w); split; [simpl; lia|done]| |].
    + intros k Hk He. destruct (Hbd k Hk) as (i & Hi & Hi'). rewrite He in Hi'. apply (inj uuid4) in Hi'. simpl in *. lia.
    + intros op n Hn ->. destruct (Hl op _ Hn) as (i & Hi & Hi'). apply (inj uuid4) in Hi'. lia.
Qed.

Definition new_window (nonce : string) (r : SeamParityModel) : Prop :=
  sp_window_nonce r = nonce ∧ sp_clean_samples r = 0 ∧ sp_mismatch_count r = 0.

(** How a statement may leave the parity table: as it was, or with one new window. *)
Definition renewed (nonce op : string) (t t' : tables) : Prop :=
  tb_parity t' = tb_parity t ∨ ∃ r, new_window nonce r ∧ tb_parity t' = <[op := r]> (tb_parity t).

Lemma earned_renewed log w nonce op t' : earned log w → unused nonce log w → renewed nonce op (w_tables w) t' →
  earned log (set_tables t' w).
Proof using Type.
  intros [Hc Hb Hm H0 Hr Hbd Hl] (Hd & Hub & Hul) [E|(r & (Hn & Hz & Hmc) & E)].
  { constructor; simpl; try rewrite E; auto. }
  constructor; simpl; try rewrite E; try done.
  - intros op' r' [[<- <-]|[? ?]]%lookup_insert_Some Hp; [|by apply Hc]. rewrite Hz.
    assert (in_buffer (window_key op r) (set_tables t' w) = 0) as Hin.
    { unfold in_buffer. simpl. destruct (buffered _ _) eqn:Eb; [|done]. destruct (Hub (window_key op r)); [by eexists|done]. }
    rewrite Hin. apply observed_nonneg.
  - intros op' n Hlog. destruct (decide (op = op')) as [<-|Hne].
    + right. intros r'. rewrite lookup_insert_eq. intros [= <-] He. apply (Hul op n); [done|by rewrite <- He].

    + rewrite lookup_insert_ne by done. destruct (Hm op' n Hlog); [by left|by right].
  - intros op' r' [[<- <-]|[? ?]]%lookup_insert_Some; [done|by eapply H0].
  - intros op' r' [[<- <-]|[? ?]]%lookup_insert_Some; [by rewrite Hn|by eapply Hr].
Qed.

(** No mismatch of the open window of [op]. *)
Definition clear (op : string) (log : list event) (w : World) : Prop :=
  ∀ n r, Mismatched op n true ∈ log → tb_parity (w_tables w) !! op = Some r → sp_window_nonce r ≠ n.

Lemma clear_renewed log w nonce op t t' r : unused nonce log w → new_window nonce r →
  tb_parity t' = <[op := r]> (tb_parity t) → clear op log (set_tables t' w).
Proof using Type.
  intros (_ & _ & Hul) (Hn & _) E n r' Hlog. simpl. rewrite E, lookup_insert_eq. intros [= <-] He.
  apply (Hul op n); [done|by rewrite <- He].
Qed.

(** Markers may go when the window is clear. *)
Lemma earned_unmark log w op w' : earned log w → clear op log w → w_tables w' = w_tables w →
  w_clean_buffer w' = w_clean_buffer w → w_uuids w' = w_uuids w →
  (∀ op', op' ≠ op → marked op' w → marked op' w') → earned log w'.
Proof using Type.
  intros [Hc Hb Hm H0 Hr Hbd Hl] Hcl Et Eb Eu Hmk. unfold in_buffer in *.
  constructor; unfold in_buffer; rewrite ?Et, ?Eb, ?Eu; try done.
  intros op' n Hn. destruct (decide (op' = op)) as [->|Hne].
  - right. intros r Hrow. by apply (Hcl n r).
  - destruct (Hm op' n Hn); auto.
Qed.

Lemma earned_tables log w t' : earned log w → tb_parity t' = tb_parity (w_tables w) → earned log (set_tables t' w).
Proof using Type. intros [] E. constructor; simpl; try rewrite E; auto. Qed.

Lemma earned_discard log w P (HP : ∀ k, Decision (P k)) g : earned log w →
  earned log (set_buffer (filter (λ x, P x.1)) g w).
Proof using Type.
  intros [Hc Hb Hm H0 Hr Hbd Hl].
  assert (∀ k, in_buffer k (set_buffer (filter (λ x, P x.1)) g w) = if decide (P k) then in_buffer k w else 0) as E.
  { intros k. unfold in_buffer. simpl. rewrite buffered_filter. by case_decide. }
  constructor; simpl; try done.
  - intros op r Hrow Hp. rewrite E. specialize (Hc op r Hrow Hp). specialize (Hb (window_key op r)). case_decide; lia.
  - intros k. rewrite E. specialize (Hb k). case_decide; lia.
  - intros k. rewrite buffered_filter. case_decide; [apply Hbd|by intros []].
Qed.

Lemma earned_marks log w w' : earned log w → w_tables w' = w_tables w → w_clean_buffer w' = w_clean_buffer w →
  w_uuids w' = w_uuids w → (∀ op, marked op w → marked op w') → earned log w'.
Proof using Type.
  intros [Hc Hb Hm H0 Hr Hbd Hl] Et Eb Eu Hmk. unfold in_buffer in *. constructor; unfold in_buffer; rewrite ?Et, ?Eb, ?Eu; try done.
  intros op n Hn. destruct (Hm op n Hn); auto.
Qed.
(** ** The table statements *)

(** A transaction of the operation [op] under the nonce [nonce]: good, it opened the
    window; otherwise it left no trace. *)
Definition opens {A} (good : A → Prop) (nonce op : string) (t : tables) (a : A) (t' : tables) : Prop :=
  (good a ∧ is_Some (tb_parity t !! op) ∧ ∃ r, new_window nonce r ∧ tb_parity t' = <[op := r]> (tb_parity t))
  ∨ (¬ good a ∧ t' = t).

Lemma opens_renewed {A} (good : A → Prop) nonce op t a t' : opens good nonce op t a t' → renewed nonce op t t'.
Proof using Type. intros [(_ & _ & H)|[_ ->]]; [by right|by left]. Qed.

Lemma promote_opens up backend now token nonce op ref t :
  wp (promote_with_evidence up backend now token nonce op ref) t
    (opens (λ res, res = Promoted) nonce op t) (λ _ _, False).
Proof using Type.
  unfold promote_with_evidence. case_match; [by apply wp_ret; right|].
  apply wp_catch, wp_commit_when.
  assert (∀ t1 t0, tb_parity t1 = tb_parity t0 → ∀ b v n,
    wp (accept_and_promote now token nonce op ref b v n) t1 (λ res t', res = Promoted →
      is_Some (tb_parity t0 !! op) ∧ ∃ r, new_window nonce r ∧ tb_parity t' = <[op := r]> (tb_parity t0)) (λ _ _, True)) as Htail.
  { intros t1 t0 E b v n. apply wp_bind, wp_update_activation; [|done|by apply wp_ret].
    intros r1 _ _ _. cbn [negb Z.eqb Pos.eqb]. apply wp_bind, wp_insert_evidence; [|done]. intros _.
    apply wp_bind, wp_update_activation; [|done|by apply wp_ret]. intros r2 _ _ _. cbn [negb Z.eqb Pos.eqb].
    apply wp_bind, wp_update_parity; [|by apply wp_ret]. intros p Hp _. apply wp_ret. intros _.
    cbn in *. rewrite E in *. split; [by eexists|]. eexists. split; [|reflexivity]. done. }
  assert (wp (reachable up ;; _promote_with_evidence_in now token nonce op ref) t (λ res t', res = Promoted →
    is_Some (tb_parity t !! op) ∧ ∃ r, new_window nonce r ∧ tb_parity t' = <[op := r]> (tb_parity t)) (λ _ _, True)) as H'.
  { apply wp_bind, wp_reachable; [|done]. intros _. unfold _promote_with_evidence_in.
    case_match; [|by apply wp_ret]. case_match. case_match.
    apply wp_bind, wp_update_activation; [intros; by apply Htail|done|by apply Htail]. }
  eapply wp_mono; [exact H'| |].
  - intros res t' Hr. case_bool_decide; [left; by auto|by right].
  - intros e _ _. destruct e; apply wp_ret; by right.
Qed.

Lemma rollback_with_mismatch_opens up now nonce op version detail t :
  wp (rollback_with_mismatch up now nonce op version detail) t
    (opens (λ res, res = RolledBack) nonce op t) (λ _ _, False).
Proof using Type.
  unfold rollback_with_mismatch. apply wp_catch, wp_commit_when.
  assert (wp (reachable up ;; _rollback_with_mismatch_in now nonce op version detail) t (λ res t', res = RolledBack →
    is_Some (tb_parity t !! op) ∧ ∃ r, new_window nonce r ∧ tb_parity t' = <[op := r]> (tb_parity t)) (λ _ _, True)) as H'.
  { apply wp_bind, wp_reachable; [|done]. intros _. unfold _rollback_with_mismatch_in.
    case_match; [by apply wp_ret|]. apply wp_bind, wp_insert_mismatch; intros _; [|done].
    apply wp_bind, wp_update_activation; [|done|by apply wp_ret].
    intros r _ _ _. cbn [negb Z.eqb Pos.eqb]. apply wp_bind, wp_update_parity; [|by apply wp_ret].
    intros p Hp _. apply wp_ret. intros _. cbn in *. split; [by eexists|]. eexists. split; [|reflexivity]. done. }
  eapply wp_mono; [exact H'| |].
  - intros res t' Hr. case_bool_decide; [left; by auto|by right].
  - intros e _ _. apply wp_ret. by right.
Qed.

Lemma wp_reachable_tables up w (Q : () → World → Prop) E :
  (up = true → Q () w) → (up = false → E (ExternalError "OperationalError") w) →
  wp (on_tables (reachable up)) w Q E.
Proof using Type. destruct up, w; unfold wp, on_tables, zoom; simpl; auto. Qed.

(** ** Rules for the process *)

Lemma wp_fresh w (Q : string → World → Prop) E : Q (uuid4 (w_uuids w)) (drew_uuid w) → wp (fresh uuid4) w Q E.
Proof using Type. done. Qed.
Lemma wp_session {A} (m : M World A) w Q E :
  wp m w Q (λ e w', E e (set_tables (w_tables w) w')) → wp (session m) w Q E.
Proof using Type. unfold wp, session. by destruct (m w) as [? []]. Qed.

(** A draw, then a transaction that may open the window under what was drawn. *)
Lemma earned_opens {A} (good : A → Prop) log w op (m : string → M tables A) (Q : A → World → Prop) E :
  earned log w →
  (∀ nonce, wp (m nonce) (w_tables w) (opens good nonce op (w_tables w)) (λ _ t', t' = w_tables w)) →
  (∀ a w', earned log w' → (∃ t', w' = set_tables t' (drew_uuid w)) →
    (good a ∧ clear op log w' ∨ ¬ good a ∧ w' = drew_uuid w) → Q a w') →
  (∀ e, E e (drew_uuid w)) →
  wp (nonce ← fresh uuid4; on_tables (m nonce)) w Q E.
Proof.
  intros Hw Hm HQ HE. apply wp_bind, wp_fresh. apply wp_zoom.
  destruct (earned_draw log w Hw) as [Hw1 Hun].
  assert (∀ w, set_tables (w_tables w) w = w) as Hid by (by intros []).
  eapply wp_mono; [apply Hm| |].
  - intros a t' Ho. apply HQ.
    + eapply earned_renewed; [done..|]. by eapply opens_renewed.
    + by exists t'.
    + destruct Ho as [(Hg & _ & r & Hr & E')|[Hb ->]]; [left|right]; (split; [done|]).
      * by eapply clear_renewed.
      * apply (Hid (drew_uuid w)).
  - intros e t' ->. change (E e (set_tables (w_tables (drew_uuid w)) (drew_uuid w))). rewrite Hid. apply HE.
Qed.

(** ** Matches *)

Lemma earned_pop log w k now : earned log w →
  let w1 := set_buffer (filter (λ x, x.1 ≠ k)) (delete k) w in
  earned log w1 ∧ ∀ r, tb_parity (w_tables w) !! k.1.1.1 = Some r → in_window k r = true →
    earned log (set_tables (set_parity <[k.1.1.1 := counting (in_buffer k w) now r]> (w_tables w1)) w1).
Proof using Type.
  intros Hw. pose proof (earned_discard log w (λ j, j ≠ k) _ (delete k) Hw) as H1. split; [done|].
  intros r Hr Hin. destruct H1 as [Hc Hb Hm H0 Hd Hbd Hl].
  apply andb_true_iff in Hin as [[Hbld%bool_decide_eq_true Hph%bool_decide_eq_true]%andb_true_iff Hno%bool_decide_eq_true].
  assert (window_key k.1.1.1 r = k) as Hk by (unfold window_key; rewrite Hbld, Hph, Hno; by destruct k as [[[]]]).
  constructor; simpl in *; try done.
  - intros op r' [[<- <-]|[? ?]]%lookup_insert_Some Hp; [|by apply Hc].
    change (window_key _ (counting _ _ r)) with (window_key k.1.1.1 r). rewrite Hk.
    pose proof (ea_counted _ _ Hw _ _ Hr Hp) as Hcnt. rewrite Hk in Hcnt. simpl.
    assert (in_buffer k (set_tables (set_parity <[k.1.1.1:=counting (in_buffer k w) now r]> (w_tables w))
      (set_buffer (filter (λ x, x.1 ≠ k)) (delete k) w)) = 0) as ->; [|lia].
    unfold in_buffer. simpl. by rewrite buffered_pop.
  - intros op n Hlog. destruct (Hm op n Hlog) as [?|Hcl]; [by left|right].
    intros r' [[<- <-]|[? ?]]%lookup_insert_Some; [by apply (Hcl r)|by apply Hcl].
  - intros op r' [[<- <-]|[? ?]]%lookup_insert_Some; [by apply (H0 _ r Hr)|by eapply H0].
  - intros op r' [[<- <-]|[? ?]]%lookup_insert_Some; [by apply (Hd _ r Hr)|by eapply Hd].
Qed.

(** Everything a flush touches apart from the tables and the buffer. *)
Definition same_marks (w w' : World) : Prop :=
  w_poison w' = w_poison w ∧ w_inhibit w' = w_inhibit w ∧ w_promotion_inhibited w' = w_promotion_inhibited w
  ∧ w_running_build_id w' = w_running_build_id w.
#[export] Instance same_marks_refl : Reflexive same_marks.
Proof. by intros w. Qed.
#[export] Instance same_marks_trans : Transitive same_marks.
Proof. intros w1 w2 w3 (?&?&?&?) (?&?&?&?). split_and!; congruence. Qed.

(** A flush changes at most the count of one window. *)
Definition flushed (w w' : World) : Prop :=
  same_marks w w' ∧ tb_activation (w_tables w') = tb_activation (w_tables w)
  ∧ ∀ op r', tb_parity (w_tables w') !! op = Some r' → ∃ r, tb_parity (w_tables w) !! op = Some r
      ∧ sp_phase r' = sp_phase r ∧ sp_build_id r' = sp_build_id r ∧ sp_window_nonce r' = sp_window_nonce r
      ∧ sp_window_started_at r' = sp_window_started_at r.
#[export] Instance flushed_refl : Reflexive flushed.
Proof. intros w. split_and!; [done..|]. intros op r' H. by exists r'. Qed.
#[export] Instance flushed_trans : Transitive flushed.
Proof.
  intros u v x (Hm1 & Ha1 & Hp1) (Hm2 & Ha2 & Hp2). split_and!; [by etrans|congruence|].
  intros op r3 Hr3. destruct (Hp2 op r3 Hr3) as (r2 & Hr2 & ? & ? & ? & ?).
  destruct (Hp1 op r2 Hr2) as (r1 & Hr1 & ? & ? & ? & ?). exists r1. split_and!; congruence.
Qed.

Lemma wp_flush_key log up now k w w0 : earned log w → flushed w0 w →
  wp (_flush_key up now k) w (λ _ w', earned log w' ∧ flushed w0 w') (λ _ w', earned log w' ∧ flushed w0 w').
Proof using Type.
  intros Hw Hf. unfold _flush_key. apply wp_bind, wp_gets, wp_bind, wp_modify.
  destruct (earned_pop log w k (isoformat now) Hw) as [H1 Hrow].
  set (w1 := set_buffer _ _ w) in *. fold (in_buffer k w).
  assert (flushed w0 w1) as Hf1 by (etrans; [done|]; split_and!; [done..|]; intros op r' H; by exists r').
  case_match; [by apply wp_ret|]. apply wp_bind, wp_zoom, wp_commit_when, wp_bind, wp_reachable.
  2:{ intros _. by destruct w. }
  intros _. apply wp_update_parity; [|apply wp_ret; by destruct w].
  intros r Hr Hin. apply wp_ret. split; [by apply Hrow|]. etrans; [done|]. split_and!; [done..|].
  simpl. intros op r' [[<- <-]|[? ?]]%lookup_insert_Some; [by exists r|by exists r'].
Qed.

Lemma wp_flush_all log up now w : earned log w →
  wp (flush_clean_samples up now) w (λ _ w', earned log w' ∧ flushed w w') (λ _ w', earned log w' ∧ flushed w w').
Proof using Type.
  intros Hw. unfold flush_clean_samples. apply wp_bind, wp_gets.
  apply (wp_for_each _ (λ _ _ w', earned log w' ∧ flushed w w')); [|done|done].
  intros k ks [] w' [Hw' Hf]. by apply wp_flush_key.
Qed.

Lemma earned_log_match log w k n g : earned log w → drawn (w_uuids w) k.2 →
  n = in_buffer k w + 1 →
  earned (log ++ [Matched k]) (set_buffer (λ l, dict_set k n l) g w).
Proof using Type.
  intros [Hc Hb Hm H0 Hr Hbd Hl] Hk ->.
  assert (∀ j, in_buffer j (set_buffer (λ l, dict_set k (in_buffer k w + 1) l) g w)
    = in_buffer j w + (if decide (Matched k = Matched j) then 1 else 0)) as E.
  { intros j. unfold in_buffer. simpl. rewrite buffered_dict_set. destruct (decide (j = k)) as [->|Hne].
    - by rewrite decide_True.
    - rewrite decide_False by congruence. lia. }
  constructor; simpl; try done.
  - intros op r Hrow Hp. rewrite E, observed_app. specialize (Hc op r Hrow Hp). lia.
  - intros j. rewrite E. specialize (Hb j). case_decide; lia.
  - intros op m [?|?%list_elem_of_singleton]%elem_of_app; [by apply Hm|done].
  - intros j. rewrite buffered_dict_set. case_decide as Hj; [by subst|apply Hbd].
  - intros op m [?|?%list_elem_of_singleton]%elem_of_app; [by eapply Hl|done].
Qed.

(** A log may only claim more than is counted. *)
Lemma earned_more_match log w k : earned log w → earned (log ++ [Matched k]) w.
Proof using Type.
  intros [Hc Hb Hm H0 Hr Hbd Hl]. constructor; try done.
  - intros op r Hrow Hp. rewrite observed_app. specialize (Hc op r Hrow Hp). case_decide; lia.
  - intros op m [?|?%list_elem_of_singleton]%elem_of_app; [by apply Hm|done].
  - intros op m [?|?%list_elem_of_singleton]%elem_of_app; [by eapply Hl|done].
Qed.

Lemma wp_record_match log up now monotonic later k w : earned log w → drawn (w_uuids w) k.2 →
  wp (record_match up now monotonic later k) w (λ _, earned (log ++ [Matched k])) (λ _, earned (log ++ [Matched k])).
Proof using Type.
  intros Hw Hk. unfold record_match. apply wp_bind, wp_modify, wp_bind, wp_gets, wp_bind, wp_gets.
  set (w1 := set_buffer _ _ w).
  assert (earned (log ++ [Matched k]) w1) as H1 by (by apply earned_log_match).
  case_match; [|by apply wp_ret].
  eapply wp_mono; [by apply (wp_flush_key (log ++ [Matched k]) up now k w1 w1)|by intros ? ? []|by intros ? ? []].
Qed.
End Earned.
