(* ===== verification/SeamRun.v ===== *)
(** * Every operation keeps what its windows have to show

    [earned] through comparisons, repair, poison recovery, the sweep and the
    operator's commands. *)

From stdpp Require Import gmap.
From S2P Require Import Prelude Text Screen Wp Seam SeamThms SeamParity SeamInv.

(** ** Mismatches *)

(** Some marker of the comparison reaches the disk. *)
Definition durable (faults : Faults) : Prop :=
  fl_poison faults ≠ NotWritten ∨ fl_inhibit faults ≠ NotWritten.
#[export] Instance write_result_eq_dec : EqDecision write_result. Proof. solve_decision. Defined.
#[export] Instance durable_dec faults : Decision (durable faults). Proof. unfold durable. apply _. Defined.

(** Markers only appear, and nothing else changes. *)
Definition more_marks (w w' : World) : Prop :=
  w_tables w' = w_tables w ∧ w_clean_buffer w' = w_clean_buffer w ∧ w_uuids w' = w_uuids w
  ∧ w_running_build_id w' = w_running_build_id w ∧ ∀ op, marked op w → marked op w'.
#[local] Instance more_marks_refl : Reflexive more_marks.
Proof. by intros w. Qed.
#[local] Instance more_marks_trans : Transitive more_marks.
Proof. intros w1 w2 w3 (?&?&?&?&?) (?&?&?&?&?). split_and!; try congruence. auto. Qed.

Lemma more_poison op x w : more_marks w (set_poison <[op := x]> w) ∧ marked op (set_poison <[op := x]> w).
Proof.
  split; [split_and!; [done..|]|left; simpl; by rewrite lookup_insert_eq].
  intros op' [H|H]; [left|by right]. simpl. destruct (decide (op = op')) as [<-|?];
    [by rewrite lookup_insert_eq|by rewrite lookup_insert_ne].
Qed.
Lemma more_inhibit op w : more_marks w (set_inhibit (union {[op]}) w) ∧ marked op (set_inhibit (union {[op]}) w).
Proof.
  split; [split_and!; [done..|]|right; change (op ∈ ({[op]} : gset string) ∪ w_inhibit w); set_solver].
  intros op' [H|H]; [by left|right]. change (op' ∈ ({[op]} : gset string) ∪ w_inhibit w). set_solver.
Qed.
Lemma more_memory f w : more_marks w (set_inhibited f w).
Proof. done. Qed.

Lemma marked_inhibited op w : marked op w → inhibited op w = true.
Proof.
  intros [H|H]; unfold inhibited, _inhibition_state; rewrite (bool_decide_eq_true_2 _ H), ?orb_true_r; done.
Qed.
Lemma memory_inhibited op w : inhibited op (set_inhibited (union {[op]}) w) = true.
Proof.
  unfold inhibited, _inhibition_state.
  rewrite (bool_decide_eq_true_2 (op ∈ w_promotion_inhibited _))
    by (change (op ∈ ({[op]} : gset string) ∪ w_promotion_inhibited w); set_solver).
  by rewrite orb_true_r.
Qed.

Lemma wp_writing r put w (Q : () → World → Prop) E :
  (r = Wrote → Q () (put w)) → (r = NotWritten → E (ExternalError "OSError") w) →
  (r = WroteThenFailed → E (ExternalError "OSError") (put w)) → wp (writing r put) w Q E.
Proof. destruct r; unfold wp; simpl; auto. Qed.

(** What [mark_mismatch] leaves: some marker, on disk if a disk write landed. *)
Lemma wp_mark faults record w : let op := mr_consumer_op record in
  wp (mark_mismatch faults record) w
    (λ _ w', more_marks w w' ∧ (durable faults → marked op w') ∧ inhibited op w' = true) (λ _ _, False).
Proof.
  intros op. unfold mark_mismatch. fold op. apply wp_catch, wp_bind.
  assert (∀ w1, more_marks w w1 → (fl_poison faults ≠ NotWritten → marked op w1) →
    wp (catch (_write_durable_inhibit (fl_inhibit faults) op ;; modify (set_inhibited (λ s, s ∖ {[op]})))
          (λ _, modify (set_inhibited (union {[op]}))) ;; mret false) w1
      (λ _ w', more_marks w w' ∧ (durable faults → marked op w') ∧ inhibited op w' = true) (λ _ _, False)) as Hinh.
  { intros w1 Hw1 Hp. destruct (more_inhibit op w1) as [Hm Hmk].
    apply wp_bind, wp_catch, wp_bind, wp_writing; intros Hi; apply wp_modify, wp_ret.
    - split_and!; [by etrans; [|etrans; [|apply more_memory]]|by intros _|]. apply marked_inhibited. exact Hmk.
    - split_and!; [by etrans; [|apply more_memory]| |apply memory_inhibited]. intros [?|?]; [by apply Hp|done].
    - split_and!; [by etrans; [|etrans; [|apply more_memory]]|by intros _|apply memory_inhibited]. }
  destruct (more_poison op (Some (as_dict record)) w) as [Hm Hmk].
  apply wp_writing; intros Hp.
  - apply wp_ret. split_and!; [done|done|by apply marked_inhibited].
  - by apply Hinh.
  - by apply Hinh.
Qed.

Section Run.
Context (uuid4 : nat → string) `{!Inj (=) (=) uuid4}.
Abbreviation earned := (earned uuid4).
Abbreviation drawn := (drawn uuid4).

Lemma earned_more log w w' : earned log w → more_marks w w' → earned log w'.
Proof using Type. intros H (?&?&?&?&?). by eapply earned_marks. Qed.

(** Noting a mismatch: the operation is marked if a marker reached the disk. *)
Lemma earned_log_mismatch log w op n b : earned log w → (b = true → marked op w) → drawn (w_uuids w) n →
  earned (log ++ [Mismatched op n b]) w.
Proof using Type.
  intros [Hc Hb Hm H0 Hr Hbd Hl] Hmk Hn. constructor; try done.
  - intros op' r Hrow Hp. unfold observed. rewrite filter_app, (filter_cons _ (Mismatched op n b)), decide_False by done.
    rewrite filter_nil, app_nil_r. by apply Hc.
  - intros op' m [?|Hin%list_elem_of_singleton]%elem_of_app; [by apply Hm|]. simplify_eq. left. by apply Hmk.
  - intros op' m [?|Hin%list_elem_of_singleton]%elem_of_app; [by eapply Hl|]. by simplify_eq.
Qed.

Lemma wp_discard op w (Q : () → World → Prop) E :
  Q () (set_buffer (filter (λ x, x.1.1.1.1 ≠ op)) (filter (λ x, x.1.1.1.1 ≠ op)) w) → wp (discard_buffer op) w Q E.
Proof using Type. done. Qed.
Lemma earned_discard_op log w op g : earned log w →
  earned log (set_buffer (filter (λ x, x.1.1.1.1 ≠ op)) g w).
Proof using Type. intros H. exact (earned_discard uuid4 log w (λ k, k.1.1.1 ≠ op) _ g H). Qed.

Definition same_disk (w w' : World) : Prop :=
  w_poison w' = w_poison w ∧ w_inhibit w' = w_inhibit w ∧ w_promotion_inhibited w' = w_promotion_inhibited w.

(** Stored: the open window is a new one.  Not stored: nothing is. *)
Lemma wp_persist log faults now record w : earned log w →
  wp (persist uuid4 faults now record) w
    (λ stored w', earned log w' ∧ same_disk w w' ∧
       (stored = true ∧ clear (mr_consumer_op record) log w' ∨ stored = false ∧ w_tables w' = w_tables w))
    (λ _ _, False).
Proof.
  intros Hw. unfold persist. set (op := mr_consumer_op record). apply wp_catch. case_bool_decide as Hph.
  - unfold _persist_collecting_mismatch. fold op. apply wp_bind, wp_fresh, wp_bind, wp_zoom, wp_commit_when.
    destruct (earned_draw uuid4 log w Hw) as [Hw1 Hun].
    apply wp_bind, wp_reachable; intros _.
    2:{ apply wp_ret. split_and!; [by destruct w|done|by right]. }
    apply wp_bind, wp_insert_mismatch; intros _.
    2:{ apply wp_ret. split_and!; [by destruct w|done|by right]. }
    apply wp_update_parity; simpl.
    + intros r Hr _. apply wp_ret. split_and!; [|done|left].
      * eapply earned_renewed; [done..|]. right. eexists. split; [|reflexivity]. done.
      * split; [done|]. eapply clear_renewed; [done| |reflexivity]. done.
    + apply wp_ret. split_and!; [by destruct w|done|by right].
  - fold op. apply wp_bind. apply wp_reachable_tables; intros _.
    2:{ apply wp_ret. split_and!; [done|done|by right]. }
    apply wp_bind, wp_gets, wp_bind. unfold seam_rollback_with_mismatch. apply wp_assoc, wp_bind.
    apply (earned_opens uuid4 (λ res, res = RolledBack) log w op); [done| | |].
    + intros nonce. eapply wp_mono; [apply rollback_with_mismatch_opens|done|done].
    + intros res w' Hw' (t' & ->) [[-> Hcl]|[Hne Ht]].
      * rewrite bool_decide_eq_true_2 by done. apply wp_bind, wp_discard, wp_ret, wp_ret.
        split_and!; [by apply earned_discard_op|done|by left].
      * rewrite bool_decide_eq_false_2 by done. apply wp_bind, wp_ret, wp_ret, wp_ret.
        rewrite bool_decide_eq_false_2 by done. rewrite Ht. split_and!; [by apply earned_draw|done|by right].
    + intros e. apply wp_ret. split_and!; [by apply earned_draw|done|by right].
Qed.

Lemma wp_remove_poison log w op (Q : () → World → Prop) E : earned log w → clear op log w →
  (∀ w', earned log w' → w_tables w' = w_tables w → Q () w') → wp (_remove_poison op) w Q E.
Proof using Type.
  intros Hw Hcl HQ. apply wp_modify, HQ; [|done]. eapply earned_unmark; try done.
  intros op' Hne [H|H]; [left|by right]. simpl. by rewrite lookup_delete_ne.
Qed.

(** A mismatch: noted in the log, and either its window is over or a marker stands. *)
Lemma wp_record_mismatch log faults now record w : earned log w → drawn (w_uuids w) (mr_window_nonce record) →
  wp (record_mismatch uuid4 faults now record) w
    (λ _, earned (log ++ [Mismatched (mr_consumer_op record) (mr_window_nonce record) (bool_decide (durable faults))]))
    (λ _ _, False).
Proof.
  intros Hw Hn. unfold record_mismatch. set (op := mr_consumer_op record).
  apply wp_bind. eapply wp_mono; [apply wp_mark| |done].
  intros marker w1 (Hm & Hmk & _). apply wp_bind, wp_discard, wp_bind.
  pose proof Hm as (_ & _ & Hu & _).
  assert (earned (log ++ [Mismatched op (mr_window_nonce record) (bool_decide (durable faults))]) w1) as H1.
  { apply earned_log_mismatch; [by eapply earned_more|by intros ?%bool_decide_eq_true; apply Hmk|by rewrite Hu]. }
  eapply wp_mono; [apply wp_persist, earned_discard_op, H1| |done].
  intros stored w2 (H2 & _ & [[-> Hcl]|[-> _]]); [|by apply wp_ret].
  destruct marker; [|by apply wp_ret]. eapply wp_remove_poison; [done|done|]. auto.
Qed.

(** What a comparison adds to the log. *)
Definition compared (faults : Faults) (op : string) (phase : ParityPhase) (acted shadow : option TerminalStatus)
    (rs_sourced : bool) (w : World) : list event :=
  match parity_state (fl_readable faults) op w with
  | None => []
  | Some r =>
      if bool_decide (phase = DONE) || negb (bool_decide (sp_phase r = phase)) || negb rs_sourced then []
      else [if bool_decide (_answer_value acted = _answer_value shadow)
            then Matched (window_key op r) else Mismatched op (sp_window_nonce r) (bool_decide (durable faults))]
  end.

Lemma wp_record_comparison log faults now monotonic later op phase acted shadow rs_sourced w :
  earned log w →
  let log' := log ++ compared faults op phase acted shadow rs_sourced w in
  wp (record_comparison uuid4 faults now monotonic later op phase acted shadow rs_sourced) w
    (λ _, earned log') (λ _, earned log').
Proof.
  intros Hw. unfold record_comparison, compared.
  destruct (parity_state (fl_readable faults) op w) as [r|] eqn:Es.
  2:{ rewrite app_nil_r. case_match; [by apply wp_ret|]. apply wp_bind, wp_gets. rewrite Es. by apply wp_ret. }
  unfold parity_state in Es. destruct (bool_decide (op ∈ PARITY_CONSUMER_OPS)) eqn:Ein; [|done].
  destruct (fl_readable faults) eqn:Er; [|done]. simpl in Es.
  destruct (bool_decide (phase = DONE)); simpl; [rewrite app_nil_r; by apply wp_ret|].
  apply wp_bind, wp_gets. unfold parity_state. rewrite Ein. simpl. rewrite Es.
  destruct (bool_decide (sp_phase r = phase)); simpl; [|rewrite app_nil_r; by apply wp_ret].
  destruct rs_sourced; simpl; [|rewrite app_nil_r; by apply wp_ret].
  pose proof (ea_rows_drawn _ _ _ Hw _ _ Es) as Hn.
  destruct (bool_decide (_answer_value acted = _answer_value shadow)).
  - apply wp_bind, wp_gets. case_match; [apply wp_ret; by apply earned_more_match|].
    apply wp_bind. eapply wp_mono; [by apply wp_record_match|by intros; apply wp_ret|done].
  - apply wp_bind. eapply wp_mono; [by apply (wp_record_mismatch log)|by intros; apply wp_ret|done].
Qed.

(** ** New windows *)

(** What a session that fails may have done besides. *)
Definition since (w0 w : World) : Prop :=
  (w_uuids w0 <= w_uuids w)%nat ∧ (∀ k, in_buffer k w <= in_buffer k w0) ∧ same_disk w0 w.
#[local] Instance since_refl : Reflexive since.
Proof using Type. intros w. by split_and!. Qed.
#[local] Instance since_trans : Transitive since.
Proof using Type.
  intros u v x (?&Hb&?&?&?) (?&Hb'&?&?&?). split; [lia|]. split; [|by unfold same_disk; split_and!; congruence].
  intros k. specialize (Hb k). specialize (Hb' k). lia.
Qed.

Lemma since_discard log w op g : earned log w → since w (set_buffer (filter (λ x, x.1.1.1.1 ≠ op)) g w).
Proof using Type.
  intros Hw. split_and!; [done| |done..]. intros k. pose proof (ea_buffered _ _ _ Hw k) as Hk. unfold in_buffer in *. simpl.
  rewrite buffered_discard. by case_decide.
Qed.

(** A new window for [op] in place of its row. *)
Lemma wp_reset_row log w op build_id phase now (Q : () → World → Prop) E : earned log w →
  (∀ w', earned log w' → clear op log w' → since w w' → Q () w') →
  wp (fresh_row ← _reset_values uuid4 build_id phase now; put_parity op fresh_row) w Q E.
Proof.
  intros Hw HQ. apply wp_bind. unfold _reset_values. apply wp_bind, wp_fresh, wp_ret.
  destruct (earned_draw uuid4 log w Hw) as [Hw1 Hun]. unfold put_parity. apply wp_zoom, wp_modify.
  match goal with |- context [<[op := ?r]>] => set (row := r) end.
  assert (new_window (uuid4 (w_uuids w)) row) as Hnw by done.
  apply HQ; [|by eapply clear_renewed|split_and!; [simpl; lia|done..]].
  eapply earned_renewed; [done..|]. right. by exists row.
Qed.

Lemma earned_restore log w0 w : earned log w0 → earned log w →
  (w_uuids w0 <= w_uuids w)%nat → (∀ k, in_buffer k w <= in_buffer k w0) → (∀ op, marked op w0 → marked op w) →
  earned log (set_tables (w_tables w0) w).
Proof using Type.
  intros [Hc Hb Hm H0 Hr Hbd Hl] [Hc' Hb' Hm' H0' Hr' Hbd' Hl'] Hu Hbuf Hmk. constructor; try done; simpl.
  - intros op r Hrow Hp. specialize (Hc op r Hrow Hp). specialize (Hbuf (window_key op r)). 
    change (in_buffer _ (set_tables _ w)) with (in_buffer (window_key op r) w). lia.
  - intros op n Hn. destruct (Hm op n Hn); [left; by apply Hmk|by right].
  - intros op r Hrow. eapply drawn_mono; [by eapply Hr|done].
Qed.


(** ** Repair *)

Lemma earned_since log w0 w : earned log w0 → earned log w → since w0 w → earned log (set_tables (w_tables w0) w).
Proof using Type.
  intros H0 H (Hu & Hb & Hp & Hi & _). eapply earned_restore; try done.
  intros op. unfold marked. by rewrite Hp, Hi.
Qed.

Lemma wp_repair_op log now build_id op w : earned log w →
  wp (repair_op uuid4 now build_id op) w (λ _ w', earned log w' ∧ since w w') (λ _ w', w' = w).
Proof.
  intros Hw. unfold repair_op. apply wp_bind, wp_gets. case_match; [|done].
  apply wp_bind, wp_gets. case_match; [|by apply (wp_reset_row log)].
  case_match; [|by apply wp_ret]. apply wp_assoc, wp_bind, (wp_reset_row log); [done|].
  intros w' Hw' _ Hs. apply wp_discard. split; [by apply earned_discard_op|].
  etrans; [done|]. by eapply since_discard.
Qed.

Lemma wp_repair_matrix log now w : earned log w →
  wp (_repair_matrix uuid4 now) w (λ _ w', earned log w' ∧ same_disk w w') (λ _ w', earned log w' ∧ same_disk w w').
Proof.
  intros Hw. unfold _repair_matrix. apply wp_bind, wp_gets, wp_session.
  apply (wp_for_each _ (λ _ _ w', earned log w' ∧ since w w')).
  - intros op ops [] w' [Hw' Hs]. eapply wp_mono; [by apply (wp_repair_op log)| |].
    + intros _ w2 [H2 H2']. split; [done|by etrans].
    + intros e w2 ->. split; [by apply earned_since|]. apply Hs.
  - intros _ w' [Hw' (_ & _ & Hs)]. by split.
  - by split.
Qed.

Lemma wp_insert_or_ignore_mismatch r t (Q : () → tables → Prop) E :
  (∀ t', tb_parity t' = tb_parity t → tb_activation t' = tb_activation t → Q () t') →
  wp (insert_or_ignore_mismatch r) t Q E.
Proof using Type. intros HQ. unfold wp, insert_or_ignore_mismatch. destruct (replayed_mismatch r t); by apply HQ. Qed.

(** A window restarted by hand: the nonce is drawn, the row is written. *)
Lemma earned_rewrite log w nonce op r t' : earned log w → unused uuid4 nonce log w → new_window nonce r →
  tb_parity t' = <[op := r]> (tb_parity (w_tables w)) →
  earned log (set_tables t' w) ∧ clear op log (set_tables t' w).
Proof using Type.
  intros Hw Hun Hr E. split; [|by eapply clear_renewed].
  eapply earned_renewed; [done..|]. right. by exists r.
Qed.

Lemma wp_recover_poison log inhibit now name content w : earned log w →
  wp (_recover_poison uuid4 inhibit now name content) w (λ _, earned log) (λ _, earned log).
Proof.
  intros Hw. unfold _recover_poison. destruct content as [payload|]; [|done].
  case_match; [done|]. set (op := default ""%string (payload !! "consumer_op"%string)). case_match; [done|].
  apply wp_bind, wp_fresh. destruct (earned_draw uuid4 log w Hw) as [Hw1 Hun]. set (w1 := drew_uuid w) in *.
  assert (∀ t t', set_tables (w_tables w1) (set_tables t (set_tables t' w1)) = w1) as Hback by (by destruct w).
  apply wp_bind, wp_session, wp_bind, wp_gets.
  destruct (tb_activation (w_tables w1) !! op), (tb_parity (w_tables w1) !! op) as [parity|]; try done.
  apply wp_bind, wp_gets, wp_bind, wp_zoom, wp_insert_or_ignore_mismatch. intros t1 Hp1 _.
  apply wp_bind, wp_zoom.
  assert (∀ t2, tb_parity t2 = tb_parity (w_tables w) →
    wp (put_parity op (collecting_window (w_running_build_id w1) now (uuid4 (w_uuids w))
          (mm_created_at (mismatch_row payload "poison_recovery")) (mm_detail (mismatch_row payload "poison_recovery")) parity))
      (set_tables t2 w1)
      (λ _ w', wp (discard_buffer op ;; _write_durable_inhibit inhibit op ;; _remove_poison op) w' (λ _, earned log) (λ _, earned log))
      (λ _ w', earned log (set_tables (w_tables w1) w'))) as Hput.
  { intros t2 Hp2. unfold put_parity. apply wp_zoom, wp_modify.
    match goal with |- context [<[op := ?r]>] => set (row := r) end.
    destruct (earned_rewrite log w1 (uuid4 (w_uuids w)) op row (set_parity <[op := row]> t2)) as [H2 Hcl];
      [done|done|done|by simpl; rewrite Hp2|].
    apply wp_bind, wp_discard, wp_bind.
    match goal with |- wp _ ?x _ _ => set (w3 := x) end.
    assert (earned log w3) as H3 by (by apply earned_discard_op).
    destruct (more_inhibit op w3) as [Hm _]. pose proof (earned_more _ _ _ H3 Hm) as H4.
    apply wp_writing; intros _; [|done|done].
    by eapply wp_remove_poison. }
  apply wp_update_activation; intros; simpl; [by apply Hput|by rewrite Hback|by apply Hput].
Qed.

Lemma wp_startup_repair log inhibit now w : earned log w →
  wp (startup_repair uuid4 inhibit now) w (λ _, earned log) (λ _, earned log).
Proof.
  intros Hw. unfold startup_repair. apply wp_bind.
  eapply wp_mono; [by apply wp_repair_matrix| |by intros ? ? []]. intros _ w1 [H1 _].
  apply wp_bind, wp_gets. apply (wp_for_each _ (λ _ _, earned log)); [|done|done].
  intros [name content] files [] w2 H2. case_match; [by apply wp_ret|]. by apply wp_recover_poison.
Qed.

Lemma earned_restarted log build_id w : earned log w → earned log (restarted build_id w).
Proof using Type.
  intros [Hc Hb Hm H0 Hr Hbd Hl]. constructor; simpl; try done.
  - intros op r Hrow Hp. specialize (Hc op r Hrow Hp). specialize (Hb (window_key op r)).
    change (in_buffer _ (restarted _ _)) with 0. lia.
  - by intros k [].
Qed.

(** ** The sweep and the operator *)

Lemma wp_open_fresh_window log up now op phase w : earned log w →
  wp (_open_fresh_window uuid4 up now op phase) w
    (λ _ w', earned log w' ∧ clear op log w' ∧ same_disk w w') (λ _ w', earned log w').
Proof.
  intros Hw. assert (∀ w, set_tables (w_tables w) w = w) as Hid by (by intros []).
  unfold _open_fresh_window. apply wp_bind, wp_session, wp_bind, wp_reachable_tables; intros _; [|by rewrite Hid].
  apply wp_bind, wp_gets. case_match; [|by apply wp_raise; rewrite Hid].
  apply wp_bind, wp_gets, (wp_reset_row log); [done|]. intros w' Hw' Hcl (_ & _ & Hs).
  apply wp_discard. split_and!; [by apply earned_discard_op|done|apply Hs..].
Qed.

Lemma wp_promote log up backend now op ref w : earned log w →
  wp (seam_promote_with_evidence uuid4 up backend now op ref) w
    (λ _ w', earned log w' ∧ same_disk w w') (λ _ w', earned log w').
Proof.
  intros Hw. unfold seam_promote_with_evidence. apply wp_bind, wp_fresh.
  destruct (earned_draw uuid4 log w Hw) as [Hw1 _]. apply wp_assoc, wp_bind.
  apply (earned_opens uuid4 (λ res, res = Promoted) log (drew_uuid w) op); [done| | |intros e; by apply earned_draw].
  - intros nonce. eapply wp_mono; [apply promote_opens|done|done].
  - intros res w' Hw' (t' & ->) _. case_bool_decide; apply wp_bind.
    + apply wp_discard, wp_ret. split; [by apply earned_discard_op|done].
    + by apply wp_ret, wp_ret.
Qed.

Lemma wp_sweep_op log up backend thresholds now entry w : earned log w →
  wp (sweep_op uuid4 up backend thresholds now entry) w (λ _, earned log) (λ _, earned log).
Proof.
  intros Hw. destruct entry as [op [state activation]]. unfold sweep_op. apply wp_bind, wp_gets, wp_bind, wp_gets.
  destruct activation as [a|]; [|by apply wp_ret]. case_match; [by apply wp_ret|]. case_bool_decide.
  - case_match; [by apply wp_ret|]. apply wp_bind. eapply wp_mono; [by apply wp_promote| |done].
    intros [] w' [Hw' _]; [apply wp_discard; by apply earned_discard_op|by apply wp_ret|].
    eapply wp_mono; [by apply wp_open_fresh_window|by intros ? ? []|done].
  - case_match; [by apply wp_ret|]. apply wp_bind, wp_zoom, wp_commit_when, wp_bind, wp_reachable; intros _.
    2:{ by destruct w. }
    apply wp_update_parity; [|simpl; apply wp_ret; by destruct w].
    intros r Hr Hin. simpl. apply wp_discard, earned_discard_op.
    destruct Hw as [Hc Hb Hm H0' Hrd Hbd Hl]. constructor; simpl; try done.
    + intros op' r' [[<- <-]|[? ?]]%lookup_insert_Some Hp; [done|by apply Hc].
    + intros op' n Hlog. destruct (Hm op' n Hlog) as [?|Hcl]; [by left|right].
      intros r' [[<- <-]|[? ?]]%lookup_insert_Some; [by apply (Hcl r)|by apply Hcl].
    + intros op' r' [[<- <-]|[? ?]]%lookup_insert_Some; [by apply (H0' _ r Hr)|by eapply H0'].
    + intros op' r' [[<- <-]|[? ?]]%lookup_insert_Some; [by apply (Hrd _ r Hr)|by eapply Hrd].
Qed.

Lemma wp_sweep log up backend section now w : earned log w →
  wp (sweep uuid4 up backend section now) w (λ _, earned log) (λ _, earned log).
Proof.
  intros Hw. unfold sweep. apply wp_bind. eapply wp_mono; [by apply wp_flush_all| |by intros ? ? []].
  intros _ w1 [H1 _]. apply wp_bind, wp_reachable_tables; [|done]. intros _. apply wp_bind, wp_gets.
  apply (wp_for_each _ (λ _ _, earned log)); [|done|done]. intros entry entries [] w2 H2. by apply wp_sweep_op.
Qed.

Lemma wp_manual_rollback log up later now op w : earned log w →
  wp (manual_rollback uuid4 up later now op) w (λ _, earned log) (λ _, earned log).
Proof.
  intros Hw. unfold manual_rollback. case_match; [done|]. apply wp_bind, wp_reachable_tables; [|done]. intros _.
  apply wp_bind, wp_gets. case_match; [|done]. apply wp_bind, wp_zoom.
  assert (∀ t' res, tb_parity t' = tb_parity (w_tables w) →
    wp ((if bool_decide (res = RolledBack) then _open_fresh_window uuid4 later now op COLLECTING else mret ()) ;; mret res)
      (set_tables t' w) (λ _, earned log) (λ _, earned log)) as Hrest.
  { intros t' res Ht. pose proof (earned_tables uuid4 log w t' Hw Ht) as H'. apply wp_bind. destruct (bool_decide (res = RolledBack)); [|by apply wp_ret, wp_ret].
    eapply wp_mono; [by apply wp_open_fresh_window| |done]. intros _ w' [? _]. by apply wp_ret. }
  unfold rollback. apply wp_catch, wp_commit_when, wp_bind, wp_reachable; intros _; [|by apply Hrest].
  apply wp_bind, wp_update_activation; [intros; by apply Hrest| |by apply Hrest].
  intros r0 _ _ _. simpl. by apply earned_tables.
Qed.

Lemma wp_reset log up now op w : earned log w →
  wp (reset uuid4 up now op) w (λ _, earned log) (λ _, earned log).
Proof.
  intros Hw. unfold reset. case_match; [done|]. apply wp_bind, wp_reachable_tables; [|done]. intros _.
  apply wp_bind, wp_gets. case_match; [|done]. apply wp_bind.
  eapply wp_mono; [by apply wp_open_fresh_window| |done]. intros _ w1 (H1 & Hcl & _).
  apply wp_bind. eapply wp_remove_poison; [done|done|]. intros w2 H2 Ht.
  apply wp_bind, wp_modify, wp_modify. eapply earned_more; [|apply more_memory].
  eapply (earned_unmark _ log w2 op); [done| |done..|].
  - intros n r. rewrite Ht. apply Hcl.
  - intros op' Hne [Hp|Hi]; [by left|right].
    change (op' ∈ w_inhibit w2 ∖ {[op]}). set_solver.
Qed.
End Run.
