(* ===== verification/SeamPromote.v ===== *)
(** * What promotes an operation, and what a mismatch does

    The sweep moves an operation on only when the log of comparisons earns it; a
    mismatch is stored with its consequences, or the operation is inhibited. *)

From stdpp Require Import gmap.
From S2P Require Import Prelude Text Wp Screen Seam SeamThms SeamParity SeamInv SeamRun.

(** ** Frames *)

(** Nothing but the rows of [op] changes. *)
Definition touches (op : string) (t t' : tables) : Prop :=
  ∀ o, o ≠ op → tb_activation t' !! o = tb_activation t !! o ∧ tb_parity t' !! o = tb_parity t !! o.
#[export] Instance touches_refl op : Reflexive (touches op).
Proof. by intros t o. Qed.
#[export] Instance touches_trans op : Transitive (touches op).
Proof. intros t1 t2 t3 H1 H2 o Ho. destruct (H1 o Ho), (H2 o Ho). split; congruence. Qed.

Lemma touches_activation op r t t' : touches op t t' → touches op t (set_activation <[op := r]> t').
Proof. intros H o Ho. destruct (H o Ho). simpl. by rewrite lookup_insert_ne. Qed.
Lemma touches_parity op r t t' : touches op t t' → touches op t (set_parity <[op := r]> t').
Proof. intros H o Ho. destruct (H o Ho). simpl. by rewrite lookup_insert_ne. Qed.
Lemma touches_evidence op r t t' : touches op t t' → touches op t (add_evidence_row r t').
Proof. intros H. exact H. Qed.
Create HintDb touches.
#[export] Hint Resolve touches_activation touches_parity touches_evidence : touches.
#[export] Hint Extern 0 (touches _ ?t ?t) => reflexivity : touches.

Lemma promote_touches up backend now token nonce op ref t :
  wp (promote_with_evidence up backend now token nonce op ref) t (λ _, touches op t) (λ _, touches op t).
Proof.
  unfold promote_with_evidence. case_match; [by apply wp_ret|]. apply wp_catch, wp_commit_when.
  assert (∀ t1, touches op t t1 → ∀ b v n, wp (accept_and_promote now token nonce op ref b v n) t1
    (λ _, touches op t) (λ _ _, True)) as Htail.
  { intros t1 H1 b v n. apply wp_bind, wp_update_activation; [|done|by apply wp_ret]. intros r1 _ _ _. simpl.
    apply wp_bind, wp_insert_evidence; [|done]. intros _.
    apply wp_bind, wp_update_activation; [|done|apply wp_ret; auto with touches]. intros r2 _ _ _. simpl.
    apply wp_bind, wp_update_parity; [|apply wp_ret; auto with touches]. intros p _ _. apply wp_ret. auto with touches. }
  apply (wp_mono _ _ (λ _, touches op t) _ (λ _ _, True)).
  - apply wp_bind, wp_reachable; intros _; [|exact I]. unfold _promote_with_evidence_in.
    case_match; [|by apply wp_ret]. case_match. case_match.
    apply wp_bind, wp_update_activation; [intros; apply Htail; auto with touches|done|by apply Htail].
  - intros res t' H'. by case_bool_decide.
  - intros e _ _. by destruct e; apply wp_ret.
Qed.

Section Promote.
Context (uuid4 : nat → string) `{!Inj (=) (=) uuid4}.

(** A turn of the sweep: the operation's rows only, and those only if its window is ready. *)
Definition turned (thresholds : ParityThresholds) (now : Z) (op : string) (state : SeamParityModel) (w w' : World) : Prop :=
  same_disk w w' ∧ touches op (w_tables w) (w_tables w')
  ∧ (w_tables w' = w_tables w
     ∨ inhibited op w = false ∧ window_ready thresholds now (w_running_build_id w) state = true).

Lemma open_fresh_window_touches up now op phase w :
  wp (_open_fresh_window uuid4 up now op phase) w
    (λ _ w', same_disk w w' ∧ touches op (w_tables w) (w_tables w'))
    (λ _ w', same_disk w w' ∧ touches op (w_tables w) (w_tables w')).
Proof using Type.
  unfold _open_fresh_window. apply wp_bind, wp_session, wp_bind, wp_reachable_tables; intros _; [|done].
  apply wp_bind, wp_gets. case_match; [|done]. apply wp_bind, wp_gets, wp_bind. unfold _reset_values.
  apply wp_bind, wp_fresh, wp_ret. unfold put_parity. apply wp_zoom, wp_modify, wp_discard. simpl.
  split; [done|]. by apply touches_parity.
Qed.

Lemma seam_promote_touches up backend now op ref w :
  wp (seam_promote_with_evidence uuid4 up backend now op ref) w
    (λ _ w', same_disk w w' ∧ touches op (w_tables w) (w_tables w'))
    (λ _ w', same_disk w w' ∧ touches op (w_tables w) (w_tables w')).
Proof using Type.
  unfold seam_promote_with_evidence. apply wp_bind, wp_fresh, wp_bind, wp_fresh, wp_bind, wp_zoom.
  eapply wp_mono; [apply promote_touches| |done].
  intros res t' H. apply wp_bind. case_bool_decide; [by apply wp_discard, wp_ret|by apply wp_ret, wp_ret].
Qed.

Lemma sweep_op_turns up backend thresholds now op state activation w :
  wp (sweep_op uuid4 up backend thresholds now (op, (state, activation))) w
    (λ _, turned thresholds now op state w) (λ _, turned thresholds now op state w).
Proof using Type.
  unfold sweep_op. apply wp_bind, wp_gets, wp_bind, wp_gets.
  assert (turned thresholds now op state w w) as Hid by (by split_and!; [..|left]).
  destruct activation as [a|]; [|by apply wp_ret].
  destruct (inhibited op w) eqn:Hi; [by apply wp_ret|]. simpl.
  destruct (window_ready thresholds now (w_running_build_id w) state) eqn:Hr; [|by apply wp_ret]. simpl.
  assert (∀ w', same_disk w w' ∧ touches op (w_tables w) (w_tables w') → turned thresholds now op state w w') as Hgo
    by (intros w' [? ?]; by split_and!; [..|right]).
  case_bool_decide.
  - case_match; [by apply wp_ret|]. apply wp_bind. eapply wp_mono; [apply seam_promote_touches| |auto].
    intros [] w1 [Hs1 Ht1]; [by apply wp_discard, Hgo|by apply wp_ret, Hgo|].
    assert (∀ w2, same_disk w1 w2 ∧ touches op (w_tables w1) (w_tables w2) → turned thresholds now op state w w2) as Hthen.
    { intros w2 [Hs2 Ht2]. apply Hgo. split; [|by etrans]. destruct Hs1 as (?&?&?), Hs2 as (?&?&?). split_and!; congruence. }
    eapply wp_mono; [apply open_fresh_window_touches|auto|auto].
  - case_match; [by apply wp_ret|]. apply wp_bind, wp_zoom, wp_commit_when, wp_bind, wp_reachable; intros _.
    2:{ apply Hgo. by destruct w. }
    apply wp_update_parity; [|simpl; apply wp_ret, Hgo; by destruct w].
    intros r _ _. simpl. apply wp_discard, Hgo. split; [done|]. by apply touches_parity.
Qed.

(** ** Runs *)

Inductive seam_request :=
| Compare (faults : Faults) (now monotonic later : Z) (op : string) (phase : ParityPhase)
    (acted shadow : option TerminalStatus) (rs_sourced : bool)
| Sweep (up : bool) (backend : option bool) (section : option (gmap string toml_value)) (now : Z)
| ManualRollback (up later : bool) (now : Z) (op : string)
| Reset (up : bool) (now : Z) (op : string)
| Restart (inhibit : write_result) (now : Z) (build_id : string).

Definition serve_seam (q : seam_request) : M World () :=
  match q with
  | Compare faults now monotonic later op phase acted shadow rs_sourced =>
      record_comparison uuid4 faults now monotonic later op phase acted shadow rs_sourced ;; mret ()
  | Sweep up backend section now => sweep uuid4 up backend section now
  | ManualRollback up later now op => manual_rollback uuid4 up later now op ;; mret ()
  | Reset up now op => reset uuid4 up now op
  | Restart inhibit now build_id => modify (restarted build_id) ;; startup_repair uuid4 inhibit now
  end.

(** The comparisons so far, and the world they led to. *)
Definition seam_step (s : list event * World) (q : seam_request) : list event * World :=
  (s.1 ++ match q with
          | Compare faults _ _ _ op phase acted shadow rs_sourced =>
              compared faults op phase acted shadow rs_sourced s.2
          | _ => []
          end, state_of (serve_seam q s.2)).
Definition seam_run (qs : list seam_request) (w : World) : list event * World :=
  foldl seam_step ([], w) qs.

(** No window was opened yet. *)
Definition unopened (w : World) : Prop := tb_parity (w_tables w) = ∅ ∧ w_clean_buffer w = [].

Lemma earned_unopened w : unopened w → earned uuid4 [] w.
Proof using Type.
  intros [Hp Hb]. constructor; unfold in_buffer; rewrite ?Hp, ?Hb.
  - intros op r. by rewrite lookup_empty.
  - intros k. done.
  - by intros op n ?%not_elem_of_nil.
  - intros op r. by rewrite lookup_empty.
  - intros op r. by rewrite lookup_empty.
  - by intros k [].
  - by intros op n ?%not_elem_of_nil.
Qed.

Lemma earned_step s q : earned uuid4 s.1 s.2 → earned uuid4 (seam_step s q).1 (seam_step s q).2.
Proof.
  intros Hs. unfold seam_step. simpl. apply wp_state.
  destruct q as [faults now mono later op phase acted shadow rs|up backend section now|up later now op|up now op|inhibit now b];
    simpl; rewrite ?app_nil_r.
  - apply wp_bind. eapply wp_mono; [by apply (wp_record_comparison uuid4 s.1)|by intros; apply wp_ret|done].
  - by apply wp_sweep.
  - apply wp_bind. eapply wp_mono; [by apply wp_manual_rollback|by intros; apply wp_ret|done].
  - by apply wp_reset.
  - apply wp_bind, wp_modify, (wp_startup_repair uuid4). by apply earned_restarted.
Qed.

Lemma earned_run qs w : unopened w → earned uuid4 (seam_run qs w).1 (seam_run qs w).2.
Proof.
  intros Hw. unfold seam_run.
  assert (earned uuid4 ([], w).1 ([] : list event, w).2) as H by (by apply earned_unopened).
  revert H. generalize ([] : list event, w). induction qs as [|q qs IH]; intros s Hs; [done|].
  simpl. by apply IH, earned_step.
Qed.

(** ** Promotion *)

Definition under_receiver (op : string) (w : World) : Prop :=
  ∃ a, tb_activation (w_tables w) !! op = Some a ∧ sa_active_authority a = RECEIVER_STATE.
Definition is_done (op : string) (w : World) : Prop :=
  ∃ r, tb_parity (w_tables w) !! op = Some r ∧ sp_phase r = DONE.
(** The operation moved to the receiver state's authority, or was confirmed. *)
Definition moved_on (op : string) (w w' : World) : Prop :=
  (¬ under_receiver op w ∧ under_receiver op w') ∨ (¬ is_done op w ∧ is_done op w').

Lemma same_disk_inhibited op w w' : same_disk w w' → inhibited op w' = inhibited op w.
Proof using Type. intros (Hp & Hi & Hm). unfold inhibited, _inhibition_state. by rewrite Hp, Hi, Hm. Qed.

(** Over the whole loop: an operation whose rows changed had a ready window. *)
Lemma sweep_loop up backend thresholds now op entries w :
  wp (for_each entries () (λ _ entry, sweep_op uuid4 up backend thresholds now entry)) w
    (λ _ w', (∃ state a running, (op, (state, a)) ∈ entries ∧ inhibited op w = false
       ∧ window_ready thresholds now running state = true)
     ∨ tb_activation (w_tables w') !! op = tb_activation (w_tables w) !! op
       ∧ tb_parity (w_tables w') !! op = tb_parity (w_tables w) !! op)
    (λ _ w', (∃ state a running, (op, (state, a)) ∈ entries ∧ inhibited op w = false
       ∧ window_ready thresholds now running state = true)
     ∨ tb_activation (w_tables w') !! op = tb_activation (w_tables w) !! op
       ∧ tb_parity (w_tables w') !! op = tb_parity (w_tables w) !! op).
Proof using Type.
  set (ready := ∃ state a running, (op, (state, a)) ∈ entries ∧ inhibited op w = false
       ∧ window_ready thresholds now running state = true).
  set (same w' := tb_activation (w_tables w') !! op = tb_activation (w_tables w) !! op
       ∧ tb_parity (w_tables w') !! op = tb_parity (w_tables w) !! op).
  assert (∀ op' state w2 w3, (∃ a, (op', (state, a)) ∈ entries) → same_disk w w2 → turned thresholds now op' state w2 w3 →
    ready ∨ same w2 → (ready ∨ same w3) ∧ same_disk w w3) as Hstep.
  { intros op' state w2 w3 [a Hin] Hd (Hd' & Ht & Hc) Hs. split.
    2:{ destruct Hd as (?&?&?), Hd' as (?&?&?). split_and!; congruence. }
    destruct Hs as [?|[Ha Hp]]; [by left|]. destruct (decide (op = op')) as [<-|Hne].
    - destruct Hc as [E|[Hi Hr]]; [right; unfold same; by rewrite E|]. left. exists state, a, (w_running_build_id w2).
      split_and!; [done| |done]. by rewrite <- (same_disk_inhibited op w w2).
    - right. destruct (Ht op Hne). split; congruence. }
  eapply (wp_for_each _ (λ rest _ w2, rest ⊆ entries ∧ same_disk w w2 ∧ (ready ∨ same w2))).
  - intros [op' [state a]] rest [] w2 (Hsub & Hd & Hs).
    assert ((op', (state, a)) ∈ entries) as Hin by (apply Hsub; left).
    eapply wp_mono; [apply sweep_op_turns| |].
    + intros u w3 Ht. destruct (Hstep op' state w2 w3) as [? ?]; [by exists a|done..|].
      split_and!; [|done..]. intros x Hx. apply Hsub. by right.
    + intros e w3 Ht. by destruct (Hstep op' state w2 w3) as [? ?]; [exists a|..].
  - by intros _ w2 (_ & _ & ?).
  - split_and!; [done..|]. by right.
Qed.

Lemma elem_of_sweep_entries op state a w :
  (op, (state, a)) ∈ sweep_entries w → tb_parity (w_tables w) !! op = Some state.
Proof using Type.
  unfold sweep_entries. rewrite list_elem_of_omap. intros (op' & _ & E).
  destruct (tb_parity (w_tables w) !! op') as [r|] eqn:Er; [|done]. simpl in E. by simplify_eq.
Qed.

(** The window that was ready is one of those read after the flush. *)
Definition ready_after_flush (log : list event) (thresholds : ParityThresholds) (now : Z) (op : string) (w : World) : Prop :=
  ∃ w1 state a running, flushed w w1 ∧ earned uuid4 log w1 ∧ (op, (state, a)) ∈ sweep_entries w1
  ∧ inhibited op w1 = false ∧ window_ready thresholds now running state = true.

Lemma flushed_not_moved op w w1 w' : flushed w w1 →
  tb_activation (w_tables w') !! op = tb_activation (w_tables w1) !! op →
  tb_parity (w_tables w') !! op = tb_parity (w_tables w1) !! op → ¬ moved_on op w w'.
Proof using Type.
  intros (_ & Ha & Hp) Ha' Hp' [[Hno (x & Hx & Hr)]|[Hno (r & Hx & Hd)]]; apply Hno.
  - exists x. rewrite <- Ha, <- Ha'. by split.
  - rewrite Hp' in Hx. destruct (Hp op r Hx) as (r0 & Hr0 & E & _). exists r0. split; [done|congruence].
Qed.

Lemma sweep_advances log up backend section now op w : earned uuid4 log w →
  moved_on op w (state_of (sweep uuid4 up backend section now w)) →
  ready_after_flush log (_thresholds section) now op w.
Proof.
  intros Hw. set (Q w' := moved_on op w w' → ready_after_flush log (_thresholds section) now op w).
  apply (wp_state _ _ Q). unfold sweep. apply wp_bind.
  eapply wp_mono; [by apply (wp_flush_all uuid4 log)| |].
  - intros _ w1 [H1 Hf]. apply wp_bind, wp_reachable_tables; intros _.
    2:{ intros Hadv. by destruct (flushed_not_moved op w w1 w1 Hf eq_refl eq_refl). }
    apply wp_bind, wp_gets.
    assert (∀ w', ((∃ state a running, (op, (state, a)) ∈ sweep_entries w1 ∧ inhibited op w1 = false
       ∧ window_ready (_thresholds section) now running state = true)
      ∨ tb_activation (w_tables w') !! op = tb_activation (w_tables w1) !! op
       ∧ tb_parity (w_tables w') !! op = tb_parity (w_tables w1) !! op) → Q w') as HQ.
    { intros w' [(state & a & running & ? & ? & ?)|[Ha Hp]] Hadv; [by exists w1, state, a, running|].
      by destruct (flushed_not_moved op w w1 w' Hf Ha Hp). }
    eapply wp_mono; [apply sweep_loop|intros u w' H'; exact (HQ w' H')|intros e w' H'; exact (HQ w' H')].
  - intros e w1 [_ Hf] Hadv. by destruct (flushed_not_moved op w w1 w1 Hf eq_refl eq_refl).
Qed.

(** [C5] A promotion is earned.  Take a world in which no window was opened yet and any
    run from it: comparisons whose reads and writes fail in any way, sweeps,
    rollbacks, resets, restarts of other builds.  If a sweep then moves an operation
    to the receiver state's authority or confirms it, then its window is open and not
    inhibited, it is as old as the thresholds ask, at least [clean_samples] matches of
    exactly this operation, build, phase and window were observed, and of this window
    no mismatch was observed of which a marker, the poison or the inhibit marker,
    reached the disk.  (If neither did, the mismatch inhibits the operation in the
    process that saw it only, [lost_mismatch_promotes].)  No sample is counted twice,
    carried over from an older window, from another phase or from another build,
    whatever was buffered where when the process died. *)
Theorem promotion_is_earned qs up backend section now op w0 :
  unopened w0 →
  let '(log, w) := seam_run qs w0 in
  moved_on op w (state_of (sweep uuid4 up backend section now w)) →
  ∃ r, tb_parity (w_tables w) !! op = Some r ∧ sp_phase r ≠ DONE ∧ inhibited op w = false
    ∧ th_window_age (_thresholds section) <= _window_age (sp_window_started_at r) now
    ∧ th_clean_samples (_thresholds section) <= observed (window_key op r) log
    ∧ Mismatched op (sp_window_nonce r) true ∉ log.
Proof.
  intros Hw0. pose proof (earned_run qs w0 Hw0) as Hw. destruct (seam_run qs w0) as [log w]. simpl in Hw.
  intros Hadv. destruct (sweep_advances _ up backend section now op w Hw Hadv)
    as (w1 & state & a & running & (Hd & _ & Hf) & H1 & Hin%elem_of_sweep_entries & Hi & Hr).
  destruct (Hf op state Hin) as (r & Hrow & Hph & Hb & Hn & Hst). exists r.
  unfold window_ready in Hr. apply andb_true_iff in Hr as [[Hdone%negb_true_iff%bool_decide_eq_false _]%andb_true_iff
    [[Hc%Z.ltb_ge Ha%Z.ltb_ge]%orb_false_iff _]%negb_true_iff%orb_false_iff].
  assert (window_key op r = window_key op state) as Hk by (unfold window_key; congruence).
  pose proof (ea_counted _ _ _ H1 _ _ Hin Hdone) as Hcnt. pose proof (ea_buffered _ _ _ H1 (window_key op state)).
  split_and!; [done|congruence| |by rewrite <- Hst|rewrite Hk; lia|].
  - rewrite <- Hi. symmetry. apply same_disk_inhibited. destruct Hd as (?&?&?&_). by split_and!.
  - intros Hlog. destruct (ea_mismatch _ _ _ H1 _ _ Hlog) as [Hm%marked_inhibited|Hcl]; [congruence|].
    by apply (Hcl state Hin).
Qed.
End Promote.

(** * A mismatch is never silent

    Whatever fails while a mismatch is recorded, its consequences are stored or the
    operation is inhibited; and the samples of the seam. *)





Section Mismatch.
Context (uuid4 : nat → string) `{!Inj (=) (=) uuid4}.







End Mismatch.

(** ** Samples *)

#[export] Instance sample_uuid_inj : Inj (=) (=) sample_uuid.
Proof. unfold sample_uuid. apply _. Qed.

Definition unopened_world : World := state_of (on_tables (_bootstrap_seam_activation "t0") new_world).
Definition matching_request : seam_request :=
  Compare no_faults 500 0 0 sample_op COLLECTING (Some TS_IDLE) (Some TS_IDLE) true.
Definition sample_requests : list seam_request := [Restart Wrote 0 "build:a"; matching_request; matching_request].

Lemma promotion_is_earned_witness :
  let '(log, w) := seam_run sample_uuid sample_requests unopened_world in
  moved_on sample_op w (state_of (sweep sample_uuid true (Some false) (Some easy) 2000000 w))
  ∧ ∃ r, tb_parity (w_tables w) !! sample_op = Some r ∧ sp_phase r ≠ DONE ∧ inhibited sample_op w = false
    ∧ th_window_age (_thresholds (Some easy)) <= _window_age (sp_window_started_at r) 2000000
    ∧ th_clean_samples (_thresholds (Some easy)) <= observed (window_key sample_op r) log
    ∧ Mismatched sample_op (sp_window_nonce r) true ∉ log.
Proof.
  assert (moved_on sample_op (seam_run sample_uuid sample_requests unopened_world).2
    (state_of (sweep sample_uuid true (Some false) (Some easy) 2000000
      (seam_run sample_uuid sample_requests unopened_world).2))) as Hadv.
  { left. split.
    - intros (a & Ha & Hl). vm_compute in Ha. injection Ha as <-. discriminate Hl.
    - eexists. split; vm_compute; reflexivity. }
  split; [exact Hadv|].
  refine (promotion_is_earned sample_uuid sample_requests true (Some false) (Some easy) 2000000 sample_op
    unopened_world _ Hadv). split; vm_compute; reflexivity.
Defined.

Definition all_fail : Faults := {|
  fl_readable := true; fl_poison := NotWritten; fl_inhibit := NotWritten; fl_up := false |}.

(** A mismatch none of whose markers reached the disk is forgotten by a restart: the
    window it was seen in promotes on the matches it has. *)
Definition lost_requests : list seam_request :=
  [Restart Wrote 0 "build:a"; Compare all_fail 500 0 0 sample_op COLLECTING (Some TS_IDLE) None true;
   Restart Wrote 0 "build:a"; matching_request; matching_request].
Example lost_mismatch_promotes :
  let '(log, w) := seam_run sample_uuid lost_requests unopened_world in
  let w' := state_of (sweep sample_uuid true (Some false) (Some easy) 2000000 w) in
  existsb (λ e, bool_decide (e = Mismatched sample_op "0" false)) log = true
  ∧ sp_window_nonce <$> tb_parity (w_tables w) !! sample_op = Some "0"
  ∧ sa_active_authority <$> tb_activation (w_tables w') !! sample_op = Some RECEIVER_STATE.
Proof. vm_compute. split_and!; reflexivity. Qed.

