(* ===== verification/SeamCoherence.v ===== *)
(** * Phase follows authority

    The parity window of an operation is collecting exactly while legacy has its
    authority.  Readers look at the phase only, so this is what makes their answer the
    one the switch asks for.  A restart establishes it, and every request keeps it,
    except a manual rollback that is cut between its two transactions. *)

From stdpp Require Import gmap.
From S2P Require Import Prelude Text Screen Wp Seam SeamThms SeamParity SeamInv SeamRun SeamPromote.

Definition coherent_at (op : string) (t : tables) : Prop := ∀ a r,
  tb_activation t !! op = Some a → tb_parity t !! op = Some r →
  (sa_active_authority a = LEGACY ↔ sp_phase r = COLLECTING).

(** Rows stay, and a coherent operation stays coherent. *)
Definition steady (t t' : tables) : Prop :=
  (∀ op, is_Some (tb_activation t !! op) → is_Some (tb_activation t' !! op))
  ∧ (∀ op, coherent_at op t → coherent_at op t').
#[export] Instance steady_preorder : PreOrder steady.
Proof. split; [by split|]. intros t1 t2 t3 [H1 H2] [H3 H4]. split; auto. Qed.

Definition fits (op : string) (phase : ParityPhase) (t : tables) : Prop :=
  ∀ a, tb_activation t !! op = Some a → (sa_active_authority a = LEGACY ↔ phase = COLLECTING).

Lemma steady_activation op a a' t : tb_activation t !! op = Some a →
  sa_active_authority a' = sa_active_authority a → steady t (set_activation <[op := a']> t).
Proof.
  intros Ha E. split.
  - intros o Ho. simpl. destruct (decide (op = o)) as [<-|?]; [rewrite lookup_insert_eq|rewrite lookup_insert_ne]; done.
  - intros o Ho b r. simpl. intros [[<- <-]|[? ?]]%lookup_insert_Some Hr; [rewrite E|]; by eapply Ho.
Qed.

Lemma steady_parity op r t : fits op (sp_phase r) t → steady t (set_parity <[op := r]> t).
Proof.
  intros Hf. split; [done|]. intros o Ho b p Hb. simpl.
  intros [[<- <-]|[? ?]]%lookup_insert_Some; [by apply Hf|by eapply Ho].
Qed.

Lemma steady_phase op r r' t : tb_parity t !! op = Some r → (sp_phase r' = COLLECTING ↔ sp_phase r = COLLECTING) →
  steady t (set_parity <[op := r']> t).
Proof.
  intros Hr E. split; [done|]. intros o Ho b p Hb. simpl.
  intros [[<- <-]|[? ?]]%lookup_insert_Some; [rewrite E|]; by eapply Ho.
Qed.

(** Both rows at once. *)
Lemma steady_both op a r t t' : tb_activation t' = <[op := a]> (tb_activation t) →
  tb_parity t' = <[op := r]> (tb_parity t) → (sa_active_authority a = LEGACY ↔ sp_phase r = COLLECTING) → steady t t'.
Proof.
  intros Ea Ep E. split.
  - intros o Ho. rewrite Ea. destruct (decide (op = o)) as [<-|?]; [rewrite lookup_insert_eq|rewrite lookup_insert_ne]; done.
  - intros o Ho b p. rewrite Ea, Ep. intros [[<- <-]|[? ?]]%lookup_insert_Some [[? <-]|[? ?]]%lookup_insert_Some; try done.
    by eapply Ho.
Qed.

(** [wp_update_activation], with what a miss says of the row. *)
Lemma wp_update_activation_at op p f t (Q : Z → tables → Prop) E :
  (∀ r, tb_activation t !! op = Some r → p r = true → activation_ok (f r) = true → Q 1 (set_activation <[op := f r]> t)) →
  (∀ r, tb_activation t !! op = Some r → p r = true → activation_ok (f r) = false → E (IntegrityError "seam_activation") t) →
  ((∀ r, tb_activation t !! op = Some r → p r = false) → Q 0 t) → wp (update_activation op p f) t Q E.
Proof.
  intros H1 H2 H3. unfold wp, update_activation. destruct (tb_activation t !! op) as [r|]; [|by apply H3].
  destruct (p r) eqn:Hp; [|apply H3; by intros ? [= <-]]. destruct (activation_ok (f r)) eqn:Hf; eauto.
Qed.

(** ** Transactions *)

Lemma promote_steady up backend now token nonce op ref t :
  wp (promote_with_evidence up backend now token nonce op ref) t
    (λ res t', steady t t' ∧ (res = DuplicateEvidence → fits op COLLECTING t')) (λ _ _, False).
Proof.
  unfold promote_with_evidence. case_match; [by apply wp_ret|]. apply wp_catch, wp_commit_when.
  assert (∀ t1 r1, steady t t1 → tb_activation t1 !! op = Some r1 → is_legacy r1 = true → fits op COLLECTING t →
    ∀ b v n, wp (accept_and_promote now token nonce op ref b v n) t1
      (λ res t', res ≠ DuplicateEvidence ∧ (res = Promoted → steady t t')) (λ _ _, fits op COLLECTING t)) as Htail.
  { intros t1 r1 H1 Hr1 Hl Hf b v n. apply wp_bind, wp_update_activation; [|done|by apply wp_ret].
    intros r2 Hr2 _ _. simpl. apply wp_bind, wp_insert_evidence; [|done]. intros _.
    apply wp_bind, wp_update_activation; [|done|by apply wp_ret]. intros r3 Hr3 _ _. simpl.
    apply wp_bind, wp_update_parity; [|by apply wp_ret]. intros p _ _. apply wp_ret. split; [done|]. intros _.
    etransitivity; [exact H1|]. etransitivity; [by eapply (steady_activation op r2 (accepting token ref (isoformat now) r2))|].
    by eapply (steady_both op). }
  assert (∀ r, tb_activation t !! op = Some r → is_legacy r = true → fits op COLLECTING t) as Hfits.
  { intros r Hr Hl a. rewrite Hr. intros [= <-]. apply bool_decide_eq_true in Hl. by rewrite Hl. }
  apply (wp_mono _ _ (λ res t', res ≠ DuplicateEvidence ∧ (res = Promoted → steady t t')) _
    (λ e _, ∀ what, e = IntegrityError what → fits op COLLECTING t)).
  - apply wp_bind, wp_reachable; intros _; [|done]. unfold _promote_with_evidence_in.
    case_match; [|by apply wp_ret]. case_match. case_match.
    apply wp_bind, wp_update_activation.
    + intros r Hr Hw _. apply andb_true_iff in Hw as [[Hl _]%andb_true_iff _].
      eapply wp_mono; [eapply Htail| |]; [by eapply steady_activation|simpl; by rewrite lookup_insert_eq|exact Hl|by eapply Hfits|done|auto].
    + intros r Hr Hw _ what _. apply andb_true_iff in Hw as [[Hl _]%andb_true_iff _]. by eapply Hfits.
    + destruct (tb_activation t !! op) as [r|] eqn:Hr.
      2:{ apply wp_bind, wp_update_activation; [intros x Hx; congruence|intros x Hx; congruence|by apply wp_ret]. }
      destruct (is_legacy r) eqn:Hl.
      * eapply wp_mono; [eapply Htail|done|auto]; [done|exact Hr|done|by eapply Hfits].
      * apply wp_bind, wp_update_activation; [| |by apply wp_ret];
          intros x Hx Hw; apply andb_true_iff in Hw as [[Hl' _]%andb_true_iff _]; congruence.
  - intros res t' [Hne H']. case_bool_decide; (split; [by auto|done]).
  - intros e t' H'. destruct e; apply wp_ret; split; try done. intros _. by eapply H'.
Qed.

Lemma rollback_with_mismatch_steady up now nonce op version detail t :
  wp (rollback_with_mismatch up now nonce op version detail) t (λ _, steady t) (λ _ _, False).
Proof.
  unfold rollback_with_mismatch. apply wp_catch, wp_commit_when.
  apply (wp_mono _ _ (λ res t', res = RolledBack → steady t t') _ (λ _ _, True)).
  - apply wp_bind, wp_reachable; intros _; [|done]. unfold _rollback_with_mismatch_in.
    case_match; [by apply wp_ret|]. apply wp_bind, wp_insert_mismatch; intros _; [|done].
    apply wp_bind, wp_update_activation; [|done|by apply wp_ret]. intros a _ _ _. simpl.
    apply wp_bind, wp_update_parity; [|by apply wp_ret]. intros p _ _. apply wp_ret. intros _.
    by eapply (steady_both op).
  - intros res t' H'. case_bool_decide; [auto|done].
  - intros e t' _. by apply wp_ret.
Qed.

(** ** Operations of the process *)

Definition settled (w w' : World) : Prop := steady (w_tables w) (w_tables w').
#[export] Instance settled_preorder : PreOrder settled.
Proof. split; [by intros w|]. intros w1 w2 w3. apply (transitivity (R := steady)). Qed.

Lemma keeps_modify_quiet (f : World → World) : (∀ w, w_tables (f w) = w_tables w) → keeps settled (modify f).
Proof. intros H. apply keeps_modify. intros w. unfold settled. by rewrite H. Qed.

Lemma keeps_on_tables {A} (m : M tables A) : (∀ t, wp m t (λ _, steady t) (λ _, steady t)) → keeps settled (on_tables m).
Proof.
  intros H. apply (keeps_zoom steady); [done|]. intros t. specialize (H t). unfold wp in H.
  by destruct (m t) as [? []].
Qed.

Lemma keeps_wp {A} (m : M World A) : (∀ w, wp m w (λ _, settled w) (λ _, settled w)) ↔ keeps settled m.
Proof. unfold keeps, wp. split; intros H w; specialize (H w); by destruct (m w) as [? []]. Qed.

Lemma settled_use {A} (m : M World A) w0 w (Q : A → World → Prop) E : keeps settled m → settled w0 w →
  (∀ a w', settled w0 w' → Q a w') → (∀ e w', settled w0 w' → E e w') → wp m w Q E.
Proof.
  rewrite <- keeps_wp. intros Hm Hw HQ HE. eapply wp_mono; [apply Hm| |]; intros; [apply HQ|apply HE]; by etransitivity.
Qed.

Lemma keeps_session {A} (m : M World A) : keeps settled m → keeps settled (session m).
Proof. rewrite <- !keeps_wp. intros H w. apply wp_session. by eapply wp_mono; [apply H| |]. Qed.

(** An UPDATE of a window that stays on its side of the switch. *)
Lemma keeps_update_window (good : Z → bool) up op p f :
  (∀ r, p r = true → (sp_phase (f r) = COLLECTING ↔ sp_phase r = COLLECTING)) →
  keeps settled (on_tables (commit_when good (reachable up ;; update_parity op p f))).
Proof.
  intros H. apply keeps_on_tables. intros t. apply wp_commit_when, wp_bind, wp_reachable; intros _; [|done].
  apply wp_update_parity; [|by destruct (good 0)]. intros r Hr Hp.
  destruct (good 1); [|done]. eapply steady_phase; eauto.
Qed.

#[local] Hint Resolve keeps_session keeps_modify_quiet : cao.

Section Requests.
Context (uuid4 : nat → string).

Lemma keeps_fresh : keeps settled (fresh uuid4).
Proof. unfold fresh. auto with cao. Qed.
Lemma keeps_discard op : keeps settled (discard_buffer op).
Proof. unfold discard_buffer. auto with cao. Qed.
Lemma keeps_remove_poison op : keeps settled (_remove_poison op).
Proof. unfold _remove_poison. auto with cao. Qed.
Lemma keeps_remove_durable op : keeps settled (_remove_durable_inhibit op).
Proof. unfold _remove_durable_inhibit. auto with cao. Qed.
Lemma keeps_writing r put : (∀ w, w_tables (put w) = w_tables w) → keeps settled (writing r put).
Proof. intros H. unfold writing. destruct r; auto with cao. Qed.
Lemma keeps_reachable up : keeps settled (on_tables (reachable up)).
Proof. apply keeps_on_tables. intros t. by apply wp_reachable. Qed.
#[local] Hint Resolve keeps_fresh keeps_discard keeps_remove_poison keeps_remove_durable keeps_writing keeps_reachable : cao.

Lemma keeps_flush_key up now k : keeps settled (_flush_key up now k).
Proof.
  unfold _flush_key. apply keeps_bind; [apply _|auto with cao|intros popped].
  apply keeps_bind; [apply _|auto with cao|intros _]. case_match; [auto with cao|].
  apply keeps_bind; [apply _|by apply keeps_update_window|auto with cao].
Qed.

Lemma keeps_mark faults record : keeps settled (mark_mismatch faults record).
Proof. unfold mark_mismatch, _write_poison, _write_durable_inhibit. auto 10 with cao. Qed.

Lemma keeps_persist faults now record : keeps settled (persist uuid4 faults now record).
Proof.
  unfold persist. apply keeps_catch; [apply _| |auto with cao]. case_bool_decide.
  - unfold _persist_collecting_mismatch. apply keeps_bind; [apply _|auto with cao|intros nonce].
    apply keeps_bind; [apply _| |auto with cao]. apply keeps_on_tables. intros t.
    apply wp_commit_when, wp_bind, wp_reachable; intros _; [|done].
    apply wp_bind, wp_insert_mismatch; intros _; [|done]. apply wp_update_parity; [|done].
    intros r Hr Hp. apply andb_true_iff in Hp as [[_ Hph%bool_decide_eq_true]%andb_true_iff _].
    eapply (steady_phase _ r _ (add_mismatch_row _ t) Hr). by rewrite Hph.
  - apply keeps_bind; [apply _|auto with cao|intros _]. apply keeps_bind; [apply _|auto with cao|intros version].
    apply keeps_bind; [apply _| |auto with cao]. unfold seam_rollback_with_mismatch.
    apply keeps_bind; [apply _|auto with cao|intros nonce]. apply keeps_bind; [apply _| |auto with cao].
    apply keeps_on_tables. intros t. by eapply wp_mono; [apply rollback_with_mismatch_steady| |].
Qed.

Lemma keeps_comparison faults now monotonic later op phase acted shadow rs_sourced :
  keeps settled (record_comparison uuid4 faults now monotonic later op phase acted shadow rs_sourced).
Proof.
  unfold record_comparison, record_match, record_mismatch. case_match; [auto with cao|].
  apply keeps_bind; [apply _|auto with cao|intros [state|]]; [|auto with cao].
  case_match; [auto with cao|]. case_match; [auto with cao|]. destruct (bool_decide (_answer_value acted = _)).
  - pose proof keeps_flush_key. auto 20 with cao.
  - pose proof keeps_mark. pose proof keeps_persist. auto 20 with cao.
Qed.

Lemma wp_open_window up now op phase w : fits op phase (w_tables w) →
  wp (_open_fresh_window uuid4 up now op phase) w (λ _, settled w) (λ _, settled w).
Proof.
  intros Hf. unfold _open_fresh_window. apply wp_bind, wp_session, wp_bind, wp_reachable_tables; intros _; [|done].
  apply wp_bind, wp_gets. case_match; [|done]. apply wp_bind, wp_gets, wp_bind. unfold _reset_values.
  apply wp_bind, wp_fresh, wp_ret. unfold put_parity. apply wp_zoom, wp_modify, wp_discard. by apply steady_parity.
Qed.

Lemma keeps_sweep_op up backend thresholds now entry : keeps settled (sweep_op uuid4 up backend thresholds now entry).
Proof.
  destruct entry as [op [state activation]]. unfold sweep_op.
  apply keeps_bind; [apply _|auto with cao|intros stop]. apply keeps_bind; [apply _|auto with cao|intros running].
  case_match; [|auto with cao]. case_match; [auto with cao|]. destruct (bool_decide (sp_phase state = _)).
  - case_match; [auto with cao|]. apply keeps_wp. intros w. apply wp_bind. unfold seam_promote_with_evidence.
    apply wp_bind, wp_fresh, wp_bind, wp_fresh, wp_bind, wp_zoom. eapply wp_mono; [apply promote_steady| |done].
    intros [] t' [Hs Hd]; apply wp_bind.
    + apply wp_discard, wp_ret, wp_discard. exact Hs.
    + by apply wp_ret, wp_ret, wp_ret.
    + apply wp_ret, wp_ret. eapply wp_mono; [apply wp_open_window, Hd; done|..]; intros ? w1 H'; unfold settled in *; by etransitivity; [exact Hs|].
  - case_match; [auto with cao|]. apply keeps_bind; [apply _| |auto with cao].
    apply keeps_update_window. intros r Hp. simpl.
    apply andb_true_iff in Hp as [[[_ Hph%bool_decide_eq_true]%andb_true_iff _]%andb_true_iff _]. by rewrite Hph.
Qed.

Lemma keeps_sweep up backend section now : keeps settled (sweep uuid4 up backend section now).
Proof. unfold sweep, flush_clean_samples. pose proof keeps_flush_key. pose proof keeps_sweep_op. auto 20 with cao. Qed.

Lemma keeps_reset up now op : keeps settled (reset uuid4 up now op).
Proof.
  unfold reset. case_match; [auto with cao|]. apply keeps_bind; [apply _|auto with cao|intros _].
  apply keeps_wp. intros w. apply wp_bind, wp_gets. destruct (tb_activation (w_tables w) !! op) as [a|] eqn:Ha; [|done].
  apply wp_bind. eapply wp_mono; [apply wp_open_window| |done].
  - intros b. rewrite Ha. intros [= <-]. unfold is_legacy. by destruct (bool_decide_reflect (sa_active_authority a = LEGACY)).
  - intros u w1 H1. eapply settled_use; [|exact H1|done|done]. auto 10 with cao.
Qed.

(** Whole only if the window opens after the rollback. *)
Lemma wp_rollback_whole up now op w :
  wp (manual_rollback uuid4 up true now op) w (λ _, settled w) (λ _, settled w).
Proof.
  unfold manual_rollback. case_match; [done|]. apply wp_bind, wp_reachable_tables; intros Hup; [|done]. subst up.
  apply wp_bind, wp_gets. destruct (tb_activation (w_tables w) !! op) as [a|] eqn:Ha; [|done]. apply wp_bind, wp_zoom.
  assert (∀ w, set_tables (w_tables w) w = w) as Hid by (by intros []).
  unfold rollback. apply wp_catch, wp_commit_when, wp_bind, wp_reachable; intros _; [|by apply wp_ret; rewrite Hid].
  apply wp_bind, wp_update_activation; simpl.
  - intros r Hr _ _. apply wp_ret. simpl. apply wp_bind.
    (* the window opens, or there is none *)
    unfold _open_fresh_window. apply wp_bind, wp_session, wp_bind, wp_reachable_tables; intros Hup; [|done].
    apply wp_bind, wp_gets. simpl. destruct (tb_parity (w_tables w) !! op) as [p|] eqn:Hp.
    2:{ apply wp_raise. split; simpl.
        - intros o Ho. destruct (decide (op = o)) as [<-|?]; [rewrite lookup_insert_eq|rewrite lookup_insert_ne]; done.
        - intros o Ho b x. simpl. intros [[<- <-]|[? ?]]%lookup_insert_Some Hx; [congruence|by eapply Ho]. }
    apply wp_bind, wp_gets, wp_bind. unfold _reset_values. apply wp_bind, wp_fresh, wp_ret. unfold put_parity.
    apply wp_zoom, wp_modify, wp_discard, wp_ret. by eapply (steady_both op).
  - intros; by apply wp_raise; split.
  - by apply wp_ret, wp_bind, wp_ret, wp_ret; split.
Qed.

(** ** Restart *)

Lemma wp_put_window op phase build_id now w (Q : () → World → Prop) E : fits op phase (w_tables w) →
  (∀ w', settled w w' → coherent_at op (w_tables w') → Q () w') →
  wp (fresh_row ← _reset_values uuid4 build_id phase now; put_parity op fresh_row) w Q E.
Proof.
  intros Hf HQ. apply wp_bind. unfold _reset_values. apply wp_bind, wp_fresh, wp_ret. unfold put_parity.
  apply wp_zoom, wp_modify, HQ; [by apply steady_parity|]. intros a r. simpl. rewrite lookup_insert_eq.
  intros Ha [= <-]. by apply Hf.
Qed.

(** The repair of a row leaves it where the switch stands. *)
Lemma repair_target_fits a r build_id target : repair_target (sa_active_authority a) r build_id = Some target →
  (sa_active_authority a = LEGACY ↔ target = COLLECTING).
Proof.
  unfold repair_target. destruct (sa_active_authority a), (sp_phase r); vm_compute bool_decide; intros H; simplify_eq;
    try done; repeat case_match; simplify_eq; done.
Qed.
Lemma repair_none_coherent a r build_id : repair_target (sa_active_authority a) r build_id = None →
  (sa_active_authority a = LEGACY ↔ sp_phase r = COLLECTING).
Proof. unfold repair_target. by destruct (sa_active_authority a), (sp_phase r). Qed.

Lemma wp_repair_coherent now build_id op w : is_Some (tb_activation (w_tables w) !! op) →
  wp (repair_op uuid4 now build_id op) w
    (λ _ w', settled w w' ∧ coherent_at op (w_tables w')) (λ _ _, False).
Proof.
  intros [a Ha]. unfold repair_op. apply wp_bind, wp_gets. rewrite Ha. apply wp_bind, wp_gets.
  destruct (tb_parity (w_tables w) !! op) as [r|] eqn:Hr.
  - destruct (repair_target _ r build_id) as [target|] eqn:Ht.
    + apply wp_assoc, wp_bind, wp_put_window.
      * intros b. rewrite Ha. intros [= <-]. by eapply repair_target_fits.
      * intros w' Hs Hc. by apply wp_discard.
    + apply wp_ret. split; [done|]. intros b p. rewrite Ha, Hr. intros [= <-] [= <-]. by eapply repair_none_coherent.
  - apply wp_put_window; [|done]. intros b. rewrite Ha. intros [= <-]. unfold is_legacy.
    by destruct (bool_decide_reflect (sa_active_authority a = LEGACY)).
Qed.

Definition coherent (t : tables) : Prop := ∀ op, op ∈ PARITY_CONSUMER_OPS → coherent_at op t.
Definition rows_present (t : tables) : Prop := ∀ op, op ∈ PARITY_CONSUMER_OPS → is_Some (tb_activation t !! op).

Lemma steady_coherent t t' : steady t t' → coherent t → coherent t'.
Proof using Type. intros [_ H] Hc op Hop. by apply H, Hc. Qed.
Lemma steady_rows t t' : steady t t' → rows_present t → rows_present t'.
Proof using Type. intros [H _] Hc op Hop. by apply H, Hc. Qed.

Lemma wp_repair_matrix_coherent now w : rows_present (w_tables w) →
  wp (_repair_matrix uuid4 now) w (λ _ w', settled w w' ∧ coherent (w_tables w')) (λ _ _, False).
Proof.
  intros Hrows. unfold _repair_matrix. apply wp_bind, wp_gets, wp_session.
  eapply (wp_for_each _ (λ rest _ w', settled w w' ∧ rest ⊆ PARITY_CONSUMER_OPS
    ∧ ∀ op, op ∈ PARITY_CONSUMER_OPS → op ∈ rest ∨ coherent_at op (w_tables w'))).
  - intros op rest [] w1 (Hs & Hsub & Hdone).
    eapply wp_mono; [apply wp_repair_coherent| |done].
    { eapply steady_rows; [exact Hs|done|apply Hsub; left]. }
    intros _ w2 [Hs2 Hc]. split_and!; [by etransitivity|intros x Hx; apply Hsub; by right|].
    intros o Ho. destruct (Hdone o Ho) as [[->|?]%elem_of_cons|Hco]; [by right|by left|right; by apply Hs2].
  - intros [] w1 (Hs & _ & Hdone). split; [done|]. intros op Hop. by destruct (Hdone op Hop) as [?%not_elem_of_nil|].
  - split_and!; [reflexivity|done|by left].
Qed.

Lemma keeps_recover inhibit now name content : keeps settled (_recover_poison uuid4 inhibit now name content).
Proof.
  unfold _recover_poison, _write_durable_inhibit. destruct content as [payload|]; [|auto with cao]. case_match; [auto with cao|].
  set (op := default ""%string (payload !! "consumer_op"%string)). case_match; [auto with cao|].
  apply keeps_bind; [apply _|auto with cao|intros nonce]. apply keeps_bind; [apply _| |auto 10 with cao].
  apply keeps_session, keeps_wp. intros w. apply wp_bind, wp_gets.
  destruct (tb_activation (w_tables w) !! op) as [a|] eqn:Ha, (tb_parity (w_tables w) !! op) as [parity|]; try done.
  apply wp_bind, wp_gets, wp_bind, wp_zoom, wp_insert_or_ignore_mismatch. intros t1 Hp1 Ha1. apply wp_bind, wp_zoom.
  assert (∀ t2, tb_activation t2 = tb_activation (w_tables w) → tb_parity t2 = tb_parity (w_tables w) → settled w (set_tables t2 w)) as Hsame.
  { intros t2 E1 E2. split; simpl; unfold coherent_at; by rewrite E1, ?E2. }
  apply wp_update_activation_at; simpl.
  - intros r Hr _ _. apply wp_zoom, wp_modify.
    eapply (steady_both op (restoring (isoformat now) r)); simpl; [by rewrite Ha1|by rewrite Hp1|done].
  - intros r _ _ _. by apply Hsame.
  - intros Hmiss. apply wp_zoom, wp_modify. etransitivity; [by apply (Hsame t1)|].
    apply (steady_parity op _ t1). simpl. intros b Hb. specialize (Hmiss b Hb). unfold is_receiver in Hmiss.
    apply bool_decide_eq_false in Hmiss. by destruct (sa_active_authority b).
Qed.

Lemma wp_restart inhibit now build_id w : rows_present (w_tables w) →
  wp (modify (restarted build_id) ;; startup_repair uuid4 inhibit now) w
    (λ _ w', settled w w' ∧ coherent (w_tables w')) (λ _ w', settled w w' ∧ coherent (w_tables w')).
Proof.
  intros Hrows. apply wp_bind, wp_modify. unfold startup_repair. apply wp_bind.
  eapply wp_mono; [by apply wp_repair_matrix_coherent| |done]. intros _ w1 [Hs Hc].
  eapply (settled_use _ w1 w1); [|done| |].
  - apply keeps_bind; [apply _|auto with cao|intros files]. apply keeps_for_each; [apply _|].
    intros _ [name content] _. case_match; [auto with cao|apply keeps_recover].
  - intros _ w2 H2. split; [|by eapply steady_coherent]. by etransitivity; [exact Hs|].
  - intros _ w2 H2. split; [|by eapply steady_coherent]. by etransitivity; [exact Hs|].
Qed.

(** ** Runs *)

(** A manual rollback whose second transaction finds the database. *)
Definition uninterrupted (q : seam_request) : Prop :=
  match q with ManualRollback _ later _ _ => later = true | _ => True end.

Definition kept (w w' : World) : Prop := rows_present (w_tables w) → rows_present (w_tables w').
Lemma kept_same w w' : tb_activation (w_tables w') = tb_activation (w_tables w) → kept w w'.
Proof. unfold kept, rows_present. by intros ->. Qed.
Lemma kept_insert op r w w' : tb_activation (w_tables w') = <[op := r]> (tb_activation (w_tables w)) → kept w w'.
Proof.
  intros E Hrows o Ho. rewrite E.
  destruct (decide (op = o)) as [<-|?]; [rewrite lookup_insert_eq|rewrite lookup_insert_ne]; auto.
Qed.

Lemma rollback_keeps_rows up later now op w :
  wp (manual_rollback uuid4 up later now op) w (λ _, kept w) (λ _, kept w).
Proof.
  unfold manual_rollback. case_match; [by apply wp_raise, kept_same|].
  apply wp_bind, wp_reachable_tables; intros _; [|by apply kept_same].
  apply wp_bind, wp_gets. case_match; [|by apply wp_raise, kept_same]. apply wp_bind, wp_zoom.
  apply (wp_mono _ _ (λ _ t', tb_activation t' = tb_activation (w_tables w)
      ∨ ∃ r, tb_activation t' = <[op := r]> (tb_activation (w_tables w))) _ (λ _ t', t' = w_tables w)).
  - unfold rollback. apply wp_catch, wp_commit_when, wp_bind, wp_reachable; intros _; [|by apply wp_ret; left].
    apply wp_bind, wp_update_activation; [|done|by apply wp_ret; left]. intros r _ _ _. apply wp_ret. right. by eexists.
  - intros res t' H'. assert (∀ w', tb_activation (w_tables w') = tb_activation t' → kept w w') as Hk.
    { intros w' E. destruct H' as [E'|[r E']]; [apply kept_same|apply (kept_insert op r)]; by rewrite E. }
    apply wp_bind. destruct res; simpl; [|by apply wp_ret, wp_ret, Hk].
    unfold _open_fresh_window. apply wp_bind, wp_session, wp_bind, wp_reachable_tables; intros _; [|by apply Hk].
    apply wp_bind, wp_gets. case_match; [|by apply wp_raise, Hk]. apply wp_bind, wp_gets, wp_bind. unfold _reset_values.
    by apply wp_bind, wp_fresh, wp_ret, wp_zoom, wp_modify, wp_discard, wp_ret, Hk.
  - intros e t' ->. by apply kept_same.
Qed.

Lemma request_keeps_rows q w : kept w (state_of (serve_seam uuid4 q w)).
Proof.
  intros Hrows. destruct q as [faults now mono later op phase acted shadow rs|up backend section now|up later now op|up now op|inhibit now b]; simpl.
  - eapply steady_rows; [|exact Hrows]. refine (keeps_bind settled _ _ _ _ w); [apply keeps_comparison|auto with cao].
  - eapply steady_rows; [apply keeps_sweep|exact Hrows].
  - apply (wp_state _ _ (λ w', rows_present (w_tables w'))). apply wp_bind.
    eapply wp_mono; [apply rollback_keeps_rows| |]; intros ? w' Hk; [apply wp_ret|]; by apply Hk.
  - eapply steady_rows; [apply keeps_reset|exact Hrows].
  - apply (wp_state _ _ (λ w', rows_present (w_tables w'))).
    eapply wp_mono; [by apply wp_restart| |]; intros ? w' [Hs _]; by apply (steady_rows (w_tables w)).
Qed.

Lemma request_keeps_coherent q w : uninterrupted q → rows_present (w_tables w) → coherent (w_tables w) →
  coherent (w_tables (state_of (serve_seam uuid4 q w))).
Proof.
  intros Hq Hrows Hc. destruct q as [faults now mono later op phase acted shadow rs|up backend section now|up later now op|up now op|inhibit now b]; simpl in *.
  - eapply steady_coherent; [|exact Hc]. refine (keeps_bind settled _ _ _ _ w); [apply keeps_comparison|auto with cao].
  - eapply steady_coherent; [apply keeps_sweep|exact Hc].
  - subst later. apply (wp_state _ _ (λ w', coherent (w_tables w'))). apply wp_bind.
    eapply wp_mono; [apply wp_rollback_whole| |]; intros ? w' Hs; [apply wp_ret|]; by apply (steady_coherent (w_tables w)).
  - eapply steady_coherent; [apply keeps_reset|exact Hc].
  - apply (wp_state _ _ (λ w', coherent (w_tables w'))).
    eapply wp_mono; [by apply wp_restart| |]; by intros ? ? [_ ?].
Qed.

Lemma run_snoc qs q w : (seam_run uuid4 (qs ++ [q]) w).2 = state_of (serve_seam uuid4 q (seam_run uuid4 qs w).2).
Proof using Type. unfold seam_run. by rewrite foldl_app. Qed.

(** [C23] The phase follows the authority.  Take any run of comparisons with any
    writes failing, sweeps, rollbacks, resets and restarts on a bootstrapped
    database; once a process has restarted, and for as long after as no manual
    rollback is cut between its two transactions, every operation's window is
    collecting exactly while legacy has its authority, and confirming or done
    exactly while the receiver state has.  Whatever an interrupted rollback left is
    repaired by the next restart, poison markers that cannot be read included. *)
Theorem phase_follows_authority before inhibit now build_id after w :
  rows_present (w_tables w) → Forall uninterrupted after →
  coherent (w_tables (seam_run uuid4 (before ++ Restart inhibit now build_id :: after) w).2).
Proof.
  intros Hrows. assert (∀ qs, rows_present (w_tables (seam_run uuid4 qs w).2)) as Hkept.
  { intros qs. induction qs as [|q qs IH] using rev_ind; [done|]. rewrite run_snoc. by apply request_keeps_rows. }
  revert after. induction after as [|q after IH] using rev_ind; intros Hq.
  - rewrite run_snoc. apply (wp_state _ _ (λ w', coherent (w_tables w'))).
    eapply wp_mono; [by apply wp_restart| |]; by intros ? ? [_ ?].
  - apply Forall_app in Hq as [Hq [Hl _]%Forall_cons].
    replace (before ++ Restart inhibit now build_id :: after ++ [q])
      with ((before ++ Restart inhibit now build_id :: after) ++ [q]) by (by rewrite <- app_assoc).
    rewrite run_snoc. by apply request_keeps_coherent; [..|apply IH].
Qed.
End Requests.

(** ** Samples *)

(** Confirming under the receiver state; then a rollback loses the database half way. *)
Definition promoting_requests : list seam_request :=
  [Restart Wrote 0 "build:a"; Compare no_faults 500 0 0 sample_op COLLECTING (Some TS_IDLE) (Some TS_IDLE) true;
   Compare no_faults 500 0 0 sample_op COLLECTING (Some TS_IDLE) (Some TS_IDLE) true;
   Sweep true (Some false) (Some easy) 2000000].
Definition cut_rollback : seam_request := ManualRollback true false 3000000 sample_op.
Definition phase_of (w : World) : option ParityPhase := sp_phase <$> tb_parity (w_tables w) !! sample_op.

Lemma bootstrapped_rows : rows_present (w_tables (state_of (on_tables (_bootstrap_seam_activation "t0") new_world))).
Proof.
  intros op Hop. unfold PARITY_CONSUMER_OPS in Hop. repeat (apply elem_of_cons in Hop as [->|Hop]; [by eexists; vm_compute|]).
  by apply not_elem_of_nil in Hop.
Defined.

Lemma phase_follows_authority_witness :
  rows_present (w_tables (state_of (on_tables (_bootstrap_seam_activation "t0") new_world)))
  ∧ coherent (w_tables (seam_run sample_uuid
      ((promoting_requests ++ [cut_rollback]) ++ Restart NotWritten 4000000 "build:b" :: [ManualRollback true true 5000000 sample_op; Reset true 6000000 sample_op])
      (state_of (on_tables (_bootstrap_seam_activation "t0") new_world))).2).
Proof.
  split; [exact bootstrapped_rows|].
  apply (phase_follows_authority sample_uuid (promoting_requests ++ [cut_rollback]) NotWritten 4000000 "build:b");
    [exact bootstrapped_rows|].
  repeat constructor.
Defined.

(** Before the restart: legacy has the authority, the window is confirming. *)
Example cut_rollback_leaves_confirming :
  let w := (seam_run sample_uuid (promoting_requests ++ [cut_rollback])
    (state_of (on_tables (_bootstrap_seam_activation "t0") new_world))).2 in
  (authority_of w, phase_of w) = (Some LEGACY, Some CONFIRMING).
Proof. vm_compute. reflexivity. Qed.
