(* ===== verification/View.v ===== *)
(** * Reading a worker's status — [services/receiver_state_view.py]

    A consumer asks for a worker's status; the operation's phase says whether the
    legacy monitor or the receiver-state store answers, and while the phase is open
    the other source answers as well and the two are compared.  The monitor is the
    protocol [_StatusMonitor] of the file, the backend, the providers and the
    terminal table are a platform; what both may do is stated in [ViewLaws]. *)

From stdpp Require Import gmap.
From S2P Require Import Prelude Screen Receiver Seam SeamParity.

Inductive NoneBehavior := NB_none | NB_legacy | NB_watchdog.
#[export] Instance NoneBehavior_eq_dec : EqDecision NoneBehavior. Proof. solve_decision. Defined.

(** The columns of the metadata this file reads. *)
Record TerminalMetadata := {
  md_lifecycle_generation : Z;
  md_tmux_session : string;
  md_tmux_window : string;
  md_recovery_state : option RecoveryState;
}.
(** [backends/herdr_backend.py] and [services/status_monitor.py] *)
Record NativeFetch := {
  nf_agent_status : option string;
  nf_status : option TerminalStatus;
  nf_failure_cause : option string;
}.
Record IdentityProof := {
  ip_terminal_id : string;
  ip_proven_at_mono : Z;
  ip_failure : option string;
}.

Record ResolvedRSAnswer := { rr_answer : option TerminalStatus; rr_rs_sourced : bool }.
(** The keys of the dict [meta] that vary; the last two are left out when absent. *)
Record NativeProbeMeta := {
  nm_probed_at : Z;
  nm_agent_status : option string;
  nm_result_status : string;
  nm_native_event_gen : Z;
  nm_probe_failure : option string;
  nm_identity_proof_failure : option string;
}.
Record NativeProbeResult := { np_status : TerminalStatus; np_meta : NativeProbeMeta; np_fresh_token : FreshToken }.

(** The globals of the module, and of [seam_activation] the log's. *)
Record ViewState := {
  vs_native_publisher_enabled : bool;
  vs_native_poll_last : gmap string Z;
  vs_backend_failure_last_logged : gmap string Z;
  vs_outage_last_logged : gmap string Z;
}.

Record System (E : Type) := {
  sys_seam : World;
  sys_store : ReceiverStateStore;
  sys_view : ViewState;
  sys_env : E;
}.
Arguments sys_seam {E}. Arguments sys_store {E}. Arguments sys_view {E}. Arguments sys_env {E}.
Definition set_seam {E} (w : World) (s : System E) : System E :=
  {| sys_seam := w; sys_store := sys_store s; sys_view := sys_view s; sys_env := sys_env s |}.
Definition set_view {E} (f : ViewState → ViewState) (s : System E) : System E :=
  {| sys_seam := sys_seam s; sys_store := sys_store s; sys_view := f (sys_view s); sys_env := sys_env s |}.

(** ** What the file calls *)

Class StatusMonitor (E : Type) := {
  get_status : string → M (System E) TerminalStatus;
  get_raw_status : string → M (System E) TerminalStatus;
  fuse_status : string → option TerminalStatus → M (System E) (option TerminalStatus * option string);
  probe_screen_status : string → M (System E) ();
  prove_terminal_identity : string → M (System E) IdentityProof;
  publish_native_poll : string → string → NativeFetch → Z → IdentityProof → M (System E) FreshToken;
}.

(** [get_backend()] and its methods, [provider_manager.get_provider(..).capabilities],
    [get_terminal_metadata] and [time.monotonic()]. *)
Class Platform (E : Type) := {
  get_backend : M (System E) ();
  supports_event_inbox : M (System E) bool;
  get_pane_id : string → string → string → M (System E) (option string);
  fetch_native_status : string → string → M (System E) NativeFetch;
  native_status_source : string → M (System E) (option string);
  get_terminal_metadata : string → M (System E) (option TerminalMetadata);
  monotonic_now : M (System E) Z;
}.

(** What a caller says may fail while one answer is given, and the clocks of the
    comparison: whether the first read of the window and the read of the switch
    reach the database, and the faults of [record_comparison]. *)
Record Sample := {
  sm_readable : bool;
  sm_active_up : bool;
  sm_faults : Faults;
  sm_now : Z;
  sm_monotonic : Z;
  sm_later : Z;
}.

Definition NATIVE_POLL_COOLDOWN : Z := 5000000000.
Definition native_probe_max_age : Z := 2000000000.

Section View.
Context {E : Type} `{!StatusMonitor E, !Platform E} (uuid4 : nat → string).
Abbreviation Sys := (System E).

Definition activate_native_publisher : M Sys () := modify (set_view (λ v, {|
  vs_native_publisher_enabled := true; vs_native_poll_last := vs_native_poll_last v;
  vs_backend_failure_last_logged := vs_backend_failure_last_logged v;
  vs_outage_last_logged := vs_outage_last_logged v |})).
Definition native_publisher_active (s : Sys) : bool := vs_native_publisher_enabled (sys_view s).

Definition polled (terminal_id : string) (now : Z) : Sys → Sys := set_view (λ v, {|
  vs_native_publisher_enabled := vs_native_publisher_enabled v;
  vs_native_poll_last := <[terminal_id := now]> (vs_native_poll_last v);
  vs_backend_failure_last_logged := vs_backend_failure_last_logged v;
  vs_outage_last_logged := vs_outage_last_logged v |}).

(** The body of the [try] of [_poll_native_once]. *)
Definition poll_backend (terminal_id : string) : M Sys (option (FreshToken * NativeFetch * IdentityProof * Z)) :=
  get_backend ;;
  source ← native_status_source terminal_id;
  metadata ← get_terminal_metadata terminal_id;
  match metadata with
  | Some md =>
      if negb (bool_decide (source = Some "herdr"%string)) then mret None else
      pane_id ← get_pane_id terminal_id (md_tmux_session md) (md_tmux_window md);
      match pane_id with
      | None => mret None
      | Some pane_id =>
          proof ← prove_terminal_identity terminal_id;
          fetch ← fetch_native_status (md_tmux_session md) (md_tmux_window md);
          fetched_at ← monotonic_now;
          token ← publish_native_poll terminal_id pane_id fetch fetched_at proof;
          mret (Some (token, fetch, proof, fetched_at))
      end
  | None => mret None
  end.

Definition cooling (now : Z) (last : option Z) : bool :=
  match last with Some l => now - l <? NATIVE_POLL_COOLDOWN | None => false end.

Definition _poll_native_once (terminal_id : string) : M Sys (option (FreshToken * NativeFetch * IdentityProof * Z)) :=
  now ← monotonic_now;
  last ← gets (λ s, vs_native_poll_last (sys_view s) !! terminal_id);
  if cooling now last then mret None else
  modify (polled terminal_id now) ;;
  catch (poll_backend terminal_id) (λ _, mret None).

(** [receiver_state_store.snapshot_view]; the clock is read even when the slot decides. *)
Definition look (terminal_id : string) (md : TerminalMetadata) (require_fresh : bool) (max_age : Z)
    (token : option FreshToken) : M Sys (option ObservationView) :=
  store ← gets sys_store;
  now ← monotonic_now;
  lift_outcome (Receiver.snapshot_view (terminal_id, md_lifecycle_generation md, md_tmux_window md)
    require_fresh max_age (md_recovery_state md) now token store).

Definition native_probe (terminal_id : string) : M Sys (option NativeProbeResult) :=
  result ← _poll_native_once terminal_id;
  match result with
  | None => mret None
  | Some (token, fetch, proof, fetched_at) =>
      metadata ← get_terminal_metadata terminal_id;
      match metadata with
      | None => mret None
      | Some md =>
          view ← look terminal_id md true native_probe_max_age (Some token);
          let status := match view with Some v => ov_latched_status v | None => TS_UNKNOWN end in
          mret (Some {|
            np_status := status;
            np_meta := {|
              nm_probed_at := fetched_at; nm_agent_status := nf_agent_status fetch;
              nm_result_status := TerminalStatus_value status;
              nm_native_event_gen := match v ← view; ov_native_evidence v with
                                     | Some e => ne_native_event_gen e | None => 0 end;
              nm_probe_failure := nf_failure_cause fetch;
              nm_identity_proof_failure := ip_failure proof |};
            np_fresh_token := token |})
      end
  end.

(** ** The receiver-state answer *)

Definition _fuse (terminal_id : string) (answer : option TerminalStatus) : M Sys (option TerminalStatus) :=
  fused ← fuse_status terminal_id answer; mret fused.1.

(** The status of a view, which a native frame that says nothing does not give. *)
Definition status_of_view (view : option ObservationView) : option TerminalStatus :=
  v ← view;
  if bool_decide (ov_origin v ∈ [OO_native; OO_native_poll]) && bool_decide (ov_latched_status v = TS_UNKNOWN)
  then None else Some (ov_latched_status v).

(** The second step: no status yet, ask an event backend once. *)
Definition ask_backend (terminal_id : string) (md : option TerminalMetadata) (require_fresh : bool) (max_age : Z)
    (rs_sourced : bool) : M Sys (option TerminalStatus * bool) :=
  event_deployment ← catch (get_backend ;; supports_event_inbox) (λ _, mret false);
  if negb event_deployment then mret (None, rs_sourced) else
  poll_result ← _poll_native_once terminal_id;
  match poll_result, md with
  | Some (poll_token, _, _, _), Some md =>
      refreshed ← look terminal_id md require_fresh max_age (if require_fresh then Some poll_token else None);
      match refreshed with
      | Some v => if bool_decide (ov_latched_status v = TS_UNKNOWN) then mret (None, rs_sourced)
                  else mret (Some (ov_latched_status v), true)
      | None => mret (None, rs_sourced)
      end
  | _, _ => mret (None, rs_sourced)
  end.

(** The third: a PROCESSING latch is checked against the live buffer. *)
Definition recheck_processing (terminal_id : string) (md : TerminalMetadata) (require_fresh : bool) (max_age : Z)
    (token : option FreshToken) : M Sys (option TerminalStatus) :=
  raw_status ← get_raw_status terminal_id;
  refreshed ← catch (look terminal_id md require_fresh max_age token) (λ _, mret None);
  mret (if negb (bool_decide (raw_status ∈ [TS_PROCESSING; TS_UNKNOWN])) then Some raw_status
        else match refreshed with Some v => Some (ov_latched_status v) | None => Some TS_PROCESSING end).

(** The end: the fused status, or what [none_behavior] says. *)
Definition conclude (terminal_id : string) (none_behavior : NoneBehavior) (status : option TerminalStatus)
    (rs_sourced : bool) : M Sys ResolvedRSAnswer :=
  let answered a b := fused ← _fuse terminal_id a; mret {| rr_answer := fused; rr_rs_sourced := b |} in
  match status with
  | Some status => answered (Some status) rs_sourced
  | None =>
      match none_behavior with
      | NB_watchdog =>
          catch (probe_screen_status terminal_id) (λ _, mret ()) ;;
          status ← get_status terminal_id; answered (Some status) false
      | NB_legacy => status ← get_status terminal_id; answered (Some status) false
      | NB_none => answered None false
      end
  end.

Definition resolve_rs_answer (terminal_id : string) (max_age : Z) (none_behavior : NoneBehavior)
    (require_fresh : bool) (token : option FreshToken) : M Sys ResolvedRSAnswer :=
  metadata ← catch (md ← get_terminal_metadata terminal_id; mret (Some md)) (λ _, mret None);
  match metadata with
  | None =>
      raw ← get_raw_status terminal_id; fused ← _fuse terminal_id (Some raw);
      mret {| rr_answer := fused; rr_rs_sourced := false |}
  | Some metadata =>
      view ← match metadata with Some md => look terminal_id md require_fresh max_age token | None => mret None end;
      asked ← match status_of_view view with
              | Some status => mret (Some status, present view)
              | None => ask_backend terminal_id metadata require_fresh max_age (present view)
              end;
      let '(status, rs_sourced) := asked in
      status ← match status, metadata with
               | Some TS_PROCESSING, Some md => recheck_processing terminal_id md require_fresh max_age token
               | _, _ => mret status
               end;
      conclude terminal_id none_behavior status rs_sourced
  end.

(** ** Which source answers *)

Definition log_backend_failure (terminal_id : string) : M Sys () :=
  now_mono ← monotonic_now;
  modify (set_view (λ v,
    if match vs_backend_failure_last_logged v !! terminal_id with
       | None => true | Some last => 60000000000 <=? now_mono - last end
    then {| vs_native_publisher_enabled := vs_native_publisher_enabled v;
            vs_native_poll_last := vs_native_poll_last v;
            vs_backend_failure_last_logged := <[terminal_id := now_mono]> (vs_backend_failure_last_logged v);
            vs_outage_last_logged := vs_outage_last_logged v |}
    else v)).

Definition _event_inbox_bypass (terminal_id : string) : M Sys bool :=
  catch (get_backend ;; events ← supports_event_inbox; active ← gets native_publisher_active; mret (events && negb active))
    (λ _, log_backend_failure terminal_id ;; mret true).
Definition _event_inbox_comparator_bypass (terminal_id : string) : M Sys bool :=
  catch (get_backend ;; supports_event_inbox) (λ _, log_backend_failure terminal_id ;; mret true).

(** [receiver_state_active], with the log's memory in the state. *)
Definition authority_active (up : bool) (consumer_op : string) : M Sys bool :=
  now_mono ← (if up then mret 0 else monotonic_now);
  s ← gets id;
  let '(active, logged, _) := receiver_state_active up now_mono consumer_op (w_tables (sys_seam s))
                                (vs_outage_last_logged (sys_view s)) in
  modify (set_view (λ v, {|
    vs_native_publisher_enabled := vs_native_publisher_enabled v; vs_native_poll_last := vs_native_poll_last v;
    vs_backend_failure_last_logged := vs_backend_failure_last_logged v; vs_outage_last_logged := logged |})) ;;
  mret active.

Definition seam_parity_state (readable : bool) (consumer_op : string) (s : Sys) : option SeamParityModel :=
  parity_state readable consumer_op (sys_seam s).

(** A comparison, whatever it raises. *)
Definition compare (sm : Sample) (consumer_op : string) (phase : ParityPhase) (acted shadow : option TerminalStatus)
    (rs_sourced : bool) : M Sys () :=
  catch (zoom sys_seam set_seam (record_comparison uuid4 (sm_faults sm) (sm_now sm) (sm_monotonic sm) (sm_later sm)
           consumer_op phase acted shadow rs_sourced) ;; mret ())
    (λ _, mret ()).

Section Arguments_of_a_read.
Context (sm : Sample) (consumer_op terminal_id : string) (max_age : Z) (none_behavior : NoneBehavior)
  (require_fresh : bool) (token : option FreshToken).

Definition resolved : M Sys ResolvedRSAnswer := resolve_rs_answer terminal_id max_age none_behavior require_fresh token.
Definition resolved_answer : M Sys (option TerminalStatus) := rs ← resolved; mret (rr_answer rs).

(** [view_from_legacy] once the phase is known and answers are compared. *)
Definition compare_answers (phase : ParityPhase) (legacy_answer : option TerminalStatus) : M Sys (option TerminalStatus) :=
  rs ← catch resolved (λ _, mret {| rr_answer := None; rr_rs_sourced := false |});
  match phase with
  | COLLECTING => compare sm consumer_op COLLECTING legacy_answer (rr_answer rs) (rr_rs_sourced rs) ;; mret legacy_answer
  | CONFIRMING => compare sm consumer_op CONFIRMING (rr_answer rs) legacy_answer (rr_rs_sourced rs) ;; mret (rr_answer rs)
  | DONE => mret (rr_answer rs)
  end.

Definition view_from_legacy (legacy_answer : option TerminalStatus) : M Sys (option TerminalStatus) :=
  bypass ← _event_inbox_bypass terminal_id;
  if (bypass : bool) then mret legacy_answer else
  state ← gets (seam_parity_state (sm_readable sm) consumer_op);
  match state with
  | None =>
      active ← authority_active (sm_active_up sm) consumer_op;
      if (active : bool) then resolved_answer else mret legacy_answer
  | Some state =>
      comparator_bypass ← _event_inbox_comparator_bypass terminal_id;
      if (comparator_bypass : bool) then
        if bool_decide (sp_phase state = COLLECTING) then mret legacy_answer else resolved_answer
      else compare_answers (sp_phase state) legacy_answer
  end.

(** [snapshot_view] of this file; [again] are the faults of the inner read. *)
Definition snapshot_status (first : Sample) : M Sys (option TerminalStatus) :=
  bypass ← _event_inbox_bypass terminal_id;
  if (bypass : bool) then status ← get_status terminal_id; mret (Some status) else
  state ← gets (seam_parity_state (sm_readable first) consumer_op);
  match state with
  | None =>
      active ← authority_active (sm_active_up first) consumer_op;
      if (active : bool) then resolved_answer else status ← get_status terminal_id; mret (Some status)
  | Some state =>
      if bool_decide (sp_phase state = DONE) then resolved_answer else
      legacy_answer ← get_status terminal_id;
      view_from_legacy (Some legacy_answer)
  end.
End Arguments_of_a_read.
End View.

(** ** What the environment leaves alone *)

(** Only the environment, and what the monitor publishes. *)
Definition beside {E} (s s' : System E) : Prop := sys_seam s' = sys_seam s ∧ sys_view s' = sys_view s.
(** Only the environment. *)
Definition outside {E} (s s' : System E) : Prop := beside s s' ∧ sys_store s' = sys_store s.
#[export] Instance beside_preorder {E} : PreOrder (@beside E).
Proof. split; [by intros s|]. intros s1 s2 s3 [? ?] [? ?]. split; congruence. Qed.
#[export] Instance outside_preorder {E} : PreOrder (@outside E).
Proof. split; [by intros s|]. intros s1 s2 s3 [[? ?] ?] [[? ?] ?]. split_and!; [split|]; congruence. Qed.

(** The seam and the globals of the view belong to their own modules; only the
    monitor writes the store; a clock does not raise. *)
Class ViewLaws (E : Type) `{!StatusMonitor E, !Platform E} := {
  get_status_beside id : keeps beside (get_status id);
  get_raw_status_beside id : keeps beside (get_raw_status id);
  fuse_status_beside id status : keeps beside (fuse_status id status);
  probe_screen_status_beside id : keeps beside (probe_screen_status id);
  prove_terminal_identity_beside id : keeps beside (prove_terminal_identity id);
  publish_native_poll_beside id pane fetch at_ proof : keeps beside (publish_native_poll id pane fetch at_ proof);
  get_backend_outside : keeps outside get_backend;
  supports_event_inbox_outside : keeps outside supports_event_inbox;
  get_pane_id_outside id session window : keeps outside (get_pane_id id session window);
  fetch_native_status_outside session window : keeps outside (fetch_native_status session window);
  native_status_source_outside id : keeps outside (native_status_source id);
  get_terminal_metadata_outside id : keeps outside (get_terminal_metadata id);
  monotonic_now_outside : keeps outside monotonic_now;
  monotonic_now_returns s : ∃ now, value_of (monotonic_now s) = Returned now;
}.
