(* ===== verification/ViewThms.v ===== *)
(** * The answers of the receiver-state view

    Whatever the monitor, the backend and the database do: which source a caller is
    answered from, what becomes of a disagreement, and how often a backend is asked. *)

From stdpp Require Import gmap.
From S2P Require Import Prelude Wp Screen Receiver Seam SeamThms SeamParity SeamInv SeamRun SeamPromote SeamCoherence View.

Definition same_seam {E} (s s' : System E) : Prop := sys_seam s' = sys_seam s.
#[export] Instance same_seam_preorder {E} : PreOrder (@same_seam E).
Proof. split; [by intros s|]. intros s1 s2 s3. unfold same_seam. congruence. Qed.

Section Thms.
Context {E : Type} `{!StatusMonitor E, !Platform E, !ViewLaws E} (uuid4 : nat → string) `{!Inj (=) (=) uuid4}.
Abbreviation Sys := (System E).

(** ** The seam is the seam's *)

Lemma beside_seam {A} (m : M Sys A) : keeps beside m → keeps same_seam m.
Proof using Type. apply keeps_mono. by intros s s' []. Qed.
Lemma outside_seam {A} (m : M Sys A) : keeps outside m → keeps same_seam m.
Proof using Type. apply keeps_mono. by intros s s' [[] _]. Qed.
Lemma keeps_set_view f : keeps same_seam (modify (set_view f) : M Sys ()).
Proof using Type. by intros s. Qed.
#[local] Hint Resolve keeps_set_view : cao.
#[local] Hint Extern 1 (keeps same_seam (get_status _)) => apply beside_seam, get_status_beside : cao.
#[local] Hint Extern 1 (keeps same_seam (get_raw_status _)) => apply beside_seam, get_raw_status_beside : cao.
#[local] Hint Extern 1 (keeps same_seam (fuse_status _ _)) => apply beside_seam, fuse_status_beside : cao.
#[local] Hint Extern 1 (keeps same_seam (probe_screen_status _)) => apply beside_seam, probe_screen_status_beside : cao.
#[local] Hint Extern 1 (keeps same_seam (prove_terminal_identity _)) => apply beside_seam, prove_terminal_identity_beside : cao.
#[local] Hint Extern 1 (keeps same_seam (publish_native_poll _ _ _ _ _)) => apply beside_seam, publish_native_poll_beside : cao.
#[local] Hint Extern 1 (keeps same_seam get_backend) => apply outside_seam, get_backend_outside : cao.
#[local] Hint Extern 1 (keeps same_seam supports_event_inbox) => apply outside_seam, supports_event_inbox_outside : cao.
#[local] Hint Extern 1 (keeps same_seam (get_pane_id _ _ _)) => apply outside_seam, get_pane_id_outside : cao.
#[local] Hint Extern 1 (keeps same_seam (fetch_native_status _ _)) => apply outside_seam, fetch_native_status_outside : cao.
#[local] Hint Extern 1 (keeps same_seam (native_status_source _)) => apply outside_seam, native_status_source_outside : cao.
#[local] Hint Extern 1 (keeps same_seam (get_terminal_metadata _)) => apply outside_seam, get_terminal_metadata_outside : cao.
#[local] Hint Extern 1 (keeps same_seam monotonic_now) => apply outside_seam, monotonic_now_outside : cao.

Lemma poll_same_seam id : keeps same_seam (_poll_native_once id).
Proof using All. unfold _poll_native_once, poll_backend, polled. auto 20 with cao. Qed.
Lemma look_same_seam id md fresh age token : keeps same_seam (look id md fresh age token).
Proof using All. unfold look. auto 20 with cao. Qed.
#[local] Hint Resolve poll_same_seam look_same_seam : cao.
Lemma resolved_same_seam id age none fresh token : keeps same_seam (resolved id age none fresh token).
Proof using All.
  unfold resolved, resolve_rs_answer, ask_backend, recheck_processing, conclude, _fuse. auto 30 with cao.
Qed.
Lemma log_same_seam id : keeps same_seam (log_backend_failure id).
Proof using All. unfold log_backend_failure. auto 20 with cao. Qed.

(** ** The checks return *)

Definition returns {A} (m : M Sys A) (s : Sys) (P : A → Prop) : Prop :=
  ∃ s' a, m s = (s', Returned a) ∧ same_seam s s' ∧ P a.

Lemma log_returns id s : returns (log_backend_failure id) s (λ _, True).
Proof using All.
  pose proof (log_same_seam id s) as Hs. unfold returns. revert Hs. unfold log_backend_failure.
  destruct (monotonic_now_returns s) as [now Hnow]. unfold value_of in Hnow.
  destruct (monotonic_now s) as [s1 o] eqn:Em. simpl in Hnow. subst o.
  rewrite (bind_returned _ _ _ _ _ Em). intros Hs. eexists _, _. split_and!; [reflexivity|exact Hs|done].
Qed.

(** A question to the backend, answered [true] with a line in the log when it raises. *)
Lemma asked_returns id (m : M Sys bool) s : keeps same_seam m →
  returns (catch m (λ _, log_backend_failure id ;; mret true)) s (λ _, True).
Proof using All.
  intros Hm. specialize (Hm s). unfold returns, catch. destruct (m s) as [s1 [b|e]]; simpl in Hm.
  - by exists s1, b.
  - destruct (log_returns id s1) as (s2 & u & E2 & Hs & _). exists s2, true. rewrite (bind_returned _ _ _ _ _ E2).
    split_and!; [done|by etransitivity|done].
Qed.
Lemma bypass_returns id s : returns (_event_inbox_bypass id) s (λ _, True).
Proof using All. apply asked_returns. auto 20 with cao. Qed.
Lemma comparator_returns id s : returns (_event_inbox_comparator_bypass id) s (λ _, True).
Proof using All. apply asked_returns. auto 20 with cao. Qed.


(** The switch, read; an outage reads legacy. *)
Lemma active_returns up op s :
  returns (authority_active up op) s (λ b, b = true ↔ up = true ∧ under_receiver op (sys_seam s)).
Proof using All.
  unfold returns, authority_active. destruct up.
  - rewrite (bind_returned _ _ s s 0) by done. eexists _, _. split_and!; [reflexivity|done|]. simpl.
    unfold under_receiver. destruct (tb_activation _ !! op) as [a|].
    + unfold is_receiver. rewrite bool_decide_eq_true. split; [intros H; split; [done|by exists a]|].
      by intros (_ & a' & [= <-] & ?).
    + split; [done|]. by intros (_ & a & ? & _).
  - destruct (monotonic_now_returns s) as [now Hnow]. unfold value_of in Hnow.
    pose proof (outside_seam _ monotonic_now_outside s) as Hs.
    destruct (monotonic_now s) as [s1 o] eqn:Em. simpl in *. subst o. rewrite (bind_returned _ _ _ _ _ Em).
    eexists _, _. split_and!; [reflexivity|exact Hs|]. simpl. split; [done|by intros []].
Qed.

Lemma compare_returns sm op phase acted shadow rs (s : Sys) :
  ∃ s', compare uuid4 sm op phase acted shadow rs s = (s', Returned ())
    ∧ sys_seam s' = state_of (record_comparison uuid4 (sm_faults sm) (sm_now sm) (sm_monotonic sm) (sm_later sm)
        op phase acted shadow rs (sys_seam s)).
Proof using Type.
  unfold compare, catch, zoom, mbind, M_bind, state_of.
  destruct (record_comparison _ _ _ _ _ _ _ _ _ _ (sys_seam s)) as [w [c|e]]; by eexists.
Qed.

(** ** Who answers *)

(** Which side a read asks: the one its window names, if it can be read and there is
    one, and the one of the switch otherwise. *)
Definition asks_receiver (sm : Sample) (op : string) (w : World) : Prop :=
  match parity_state (sm_readable sm) op w with
  | Some r => sp_phase r ≠ COLLECTING
  | None => sm_active_up sm = true ∧ under_receiver op w
  end.
(** The receiver state has the authority, and a read reached the database. *)
Definition receiver_decides (sm : Sample) (op : string) (w : World) : Prop :=
  under_receiver op w
  ∧ (sm_active_up sm = true ∨ sm_readable sm = true ∧ op ∈ PARITY_CONSUMER_OPS ∧ is_Some (tb_parity (w_tables w) !! op)).

(** The states the resolver runs in: after the check of the comparator, or after the
    read of the switch. *)
Definition compared_at (id : string) (s : Sys) : Sys :=
  state_of (_event_inbox_comparator_bypass id (state_of (_event_inbox_bypass id s))).
Definition resolved_at (sm : Sample) (op id : string) (s : Sys) : Sys :=
  match parity_state (sm_readable sm) op (sys_seam s) with
  | Some _ => compared_at id s
  | None => state_of (authority_active (sm_active_up sm) op (state_of (_event_inbox_bypass id s)))
  end.

(** A result of the receiver state's side: the resolver's, or no answer when it raised. *)
Definition from_resolver (m : M Sys (option TerminalStatus)) (s : Sys) (o : outcome (option TerminalStatus)) : Prop :=
  o = value_of (m s) ∨ o = Returned None ∧ ∃ e, value_of (m s) = Raised e.

Lemma parity_state_some readable op w r : parity_state readable op w = Some r ↔
  op ∈ PARITY_CONSUMER_OPS ∧ readable = true ∧ tb_parity (w_tables w) !! op = Some r.
Proof using Type.
  unfold parity_state. destruct (bool_decide_reflect (op ∈ PARITY_CONSUMER_OPS)); simpl; [|naive_solver].
  destruct readable; naive_solver.
Qed.

Section Reads.
Context (sm : Sample) (op id : string) (age : Z) (none : NoneBehavior) (fresh : bool) (token : option FreshToken).
#[local] Abbreviation view := (view_from_legacy uuid4 sm op id age none fresh token).
#[local] Abbreviation answer := (resolved_answer id age none fresh token).

(** The compared branch: it returns, the seam holds what the comparison left, and the
    resolver ran where it was. *)
Lemma compared_view phase legacy s :
  ∃ s' a, compare_answers uuid4 sm op id age none fresh token phase legacy s = (s', Returned a)
  ∧ (phase = COLLECTING → a = legacy) ∧ (phase ≠ COLLECTING → from_resolver answer s (Returned a))
  ∧ ∀ s2 rs, resolved id age none fresh token s = (s2, Returned rs) →
      a = (if bool_decide (phase = COLLECTING) then legacy else rr_answer rs)
      ∧ (phase ≠ DONE → sys_seam s' = state_of (record_comparison uuid4 (sm_faults sm) (sm_now sm) (sm_monotonic sm)
          (sm_later sm) op phase (if bool_decide (phase = COLLECTING) then legacy else rr_answer rs)
          (if bool_decide (phase = COLLECTING) then rr_answer rs else legacy) (rr_rs_sourced rs) (sys_seam s))).
Proof using All.
  unfold compare_answers.
  assert (∃ s2 rs, catch (resolved id age none fresh token) (λ _, mret {| rr_answer := None; rr_rs_sourced := false |}) s
      = (s2, Returned rs) ∧ same_seam s s2 ∧ from_resolver answer s (Returned (rr_answer rs))
      ∧ ∀ s3 rs', resolved id age none fresh token s = (s3, Returned rs') → s3 = s2 ∧ rs' = rs) as (s2 & rs & E2 & Hs & Hf & Hr).
  { pose proof (resolved_same_seam id age none fresh token s) as Hs. unfold catch, from_resolver, resolved_answer.
    destruct (resolved id age none fresh token s) as [s2 [rs|e]] eqn:Er; simpl in Hs.
    - exists s2, rs. split_and!; [done..| |by intros ? ? [= -> ->]]. left.
      by rewrite (bind_returned _ _ _ _ _ Er).
    - eexists s2, _. split_and!; [done..| |by intros ? ? [=]]. right. split; [done|].
      exists e. by rewrite (bind_raised _ _ _ _ _ Er). }
  rewrite (bind_returned _ _ _ _ _ E2).
  destruct phase.
  - destruct (compare_returns sm op COLLECTING legacy (rr_answer rs) (rr_rs_sourced rs) s2) as (s3 & E3 & Hw).
    rewrite (bind_returned _ _ _ _ _ E3). eexists _, _. split_and!; [reflexivity|done|done|].
    intros s4 rs' H4. destruct (Hr _ _ H4) as [-> ->]. split; [done|]. intros _. by rewrite Hw, Hs.
  - destruct (compare_returns sm op CONFIRMING (rr_answer rs) legacy (rr_rs_sourced rs) s2) as (s3 & E3 & Hw).
    rewrite (bind_returned _ _ _ _ _ E3). eexists _, _. split_and!; [reflexivity|done|by intros _|].
    intros s4 rs' H4. destruct (Hr _ _ H4) as [-> ->]. split; [done|]. intros _. by rewrite Hw, Hs.
  - eexists _, _. split_and!; [reflexivity|done|by intros _|].
    intros s4 rs' H4. by destruct (Hr _ _ H4) as [-> ->].
Qed.

(** Where phases follow authorities, the side a read asks is the one that decides. *)
Lemma asks_receiver_coherent w : rows_present (w_tables w) → coherent (w_tables w) →
  asks_receiver sm op w ↔ receiver_decides sm op w.
Proof using Type.
  intros Hrows Hcoh. unfold asks_receiver, receiver_decides.
  destruct (parity_state (sm_readable sm) op w) as [r|] eqn:Ep.
  - apply parity_state_some in Ep as (Hop & Hrd & Hr). destruct (Hrows op Hop) as [a Ha].
    rewrite <- (Hcoh op Hop a r Ha Hr). unfold under_receiver. split.
    + intros Hl. split; [exists a; split; [done|by destruct (sa_active_authority a)]|right]. by split_and!.
    + intros [(a' & Ha' & E') _]. simplify_eq. congruence.
  - split; [naive_solver|]. intros [Hu [Hup|(Hrd & Hop & [r Hr])]]; [done|].
    exfalso. assert (parity_state (sm_readable sm) op w = Some r) by (by apply parity_state_some). congruence.
Qed.

(** [C4] A read is answered from the source its window names, or else the switch.  In
    every state, whatever the monitor, the backend and the database do: unless an
    event backend without a native publisher (or one that cannot be asked) bypasses
    the store, in which case the caller gets the legacy answer it passed, a read whose
    window cannot be read or does not exist asks the switch, and any other the phase
    of its window.  On the legacy side the caller gets exactly the legacy answer, and
    the read never raises: not when the resolver raises, not when the comparison
    cannot be stored.  On the receiver state's side it gets what the resolver answers
    in the state the checks left, or no answer when the resolver raised while it was
    being compared.  In a state whose phases follow its authorities (C23 says when)
    the side asked is the one that has the authority, as far as a read reached the
    database. *)
Theorem reads_follow_the_switch legacy s :
  (∃ bypass, value_of (_event_inbox_bypass id s) = Returned bypass
    ∧ (bypass = true ∨ ¬ asks_receiver sm op (sys_seam s) → value_of (view legacy s) = Returned legacy)
    ∧ (bypass = false → asks_receiver sm op (sys_seam s) →
        from_resolver answer (resolved_at sm op id s) (value_of (view legacy s))))
  ∧ (rows_present (w_tables (sys_seam s)) → coherent (w_tables (sys_seam s)) →
      (asks_receiver sm op (sys_seam s) ↔ receiver_decides sm op (sys_seam s))).
Proof using All.
  split; [|apply asks_receiver_coherent].
  unfold view_from_legacy, asks_receiver, resolved_at, compared_at.
  destruct (bypass_returns id s) as (s1 & bypass & E1 & Hs1 & _). exists bypass.
  rewrite E1, (bind_returned _ _ _ _ _ E1). cbn. split; [done|]. destruct bypass; [by split|].
  rewrite (bind_returned _ _ s1 s1 (seam_parity_state (sm_readable sm) op s1)) by done.
  unfold seam_parity_state. rewrite Hs1.
  destruct (parity_state (sm_readable sm) op (sys_seam s)) as [r|] eqn:Ep.
  - destruct (comparator_returns id s1) as (s2 & b & E2 & Hs2 & _). rewrite E2, (bind_returned _ _ _ _ _ E2). cbn. destruct b.
    + case_bool_decide; (split; [naive_solver|]); [done|by left].
    + destruct (compared_view (sp_phase r) legacy s2) as (s' & x & E' & Hc & Hn & _). rewrite E'. split; [|by auto].
      intros [?|Hx]; [done|]. cbn. f_equal. apply Hc. by destruct (sp_phase r); [|destruct Hx..].
  - destruct (active_returns (sm_active_up sm) op s1) as (s2 & b & E2 & Hs2 & Hb). rewrite E2, (bind_returned _ _ _ _ _ E2).
    rewrite Hs1 in Hb. cbn. rewrite <- Hb. destruct b; (split; [naive_solver|]); [by left|done].
Qed.

End Reads.

(** ** What the resolver does with a served slot *)

Section Served.
Context (id : string) (age : Z) (none : NoneBehavior) (fresh : bool) (token : option FreshToken).
Context (s s1 s2 : Sys) (md : TerminalMetadata) (now : Z) (v : ObservationView).
Context (Hmd : get_terminal_metadata id s = (s1, Returned (Some md))) (Hnow : monotonic_now s1 = (s2, Returned now)).
Context (Hv : Receiver.snapshot_view (id, md_lifecycle_generation md, md_tmux_window md) fresh age
  (md_recovery_state md) now token (sys_store s1) = Returned (Some v)).

Lemma look_served : look id md fresh age token s1 = (s2, Returned (Some v)).
Proof using All. unfold look. rewrite (bind_returned _ _ s1 s1 (sys_store s1)) by done. by rewrite (bind_returned _ _ _ _ _ Hnow), Hv. Qed.

(** A status of the view that needs no second look is the answer, fused. *)
Lemma served_answer status : status_of_view (Some v) = Some status → status ≠ TS_PROCESSING →
  resolved id age none fresh token s
  = (fused ← _fuse id (Some status); mret {| rr_answer := fused; rr_rs_sourced := true |}) s2.
Proof using All.
  intros Hst Hne. unfold resolved, resolve_rs_answer.
  rewrite (bind_returned _ _ s s1 (Some (Some md))) by (unfold catch; by rewrite (bind_returned _ _ _ _ _ Hmd)).
  cbn beta iota. rewrite (bind_returned _ _ _ _ _ look_served), Hst. by destruct status.
Qed.

(** A PROCESSING latch asks the legacy monitor, whose answer goes out as the store's. *)
Lemma processing_answer raw s3 s4 o : status_of_view (Some v) = Some TS_PROCESSING →
  get_raw_status id s2 = (s3, Returned raw) → look id md fresh age token s3 = (s4, o) →
  raw ∉ [TS_PROCESSING; TS_UNKNOWN] →
  resolved id age none fresh token s
  = (fused ← _fuse id (Some raw); mret {| rr_answer := fused; rr_rs_sourced := true |}) s4.
Proof using All.
  intros Hst Hraw Hlook Hne. unfold resolved, resolve_rs_answer.
  rewrite (bind_returned _ _ s s1 (Some (Some md))) by (unfold catch; by rewrite (bind_returned _ _ _ _ _ Hmd)).
  cbn beta iota. rewrite (bind_returned _ _ _ _ _ look_served), Hst.
  rewrite (bind_returned _ _ s2 s2 (Some TS_PROCESSING, true)) by done. cbn beta iota.
  rewrite (bind_returned _ _ s2 s4 (Some raw)); [done|]. unfold recheck_processing.
  rewrite (bind_returned _ _ _ _ _ Hraw).
  rewrite (bind_returned _ _ s3 s4 (match o with Returned x => x | _ => None end)) by (unfold catch; rewrite Hlook; by destruct o).
  by rewrite bool_decide_eq_false_2.
Qed.

Lemma served_overlay recovery : md_recovery_state md = Some recovery → recovery ≠ rebound → ov_latched_status v = TS_ERROR.
Proof using Hv.
  intros Hr Hne. revert Hv. unfold Receiver.snapshot_view. rewrite Hr. case_match; [done|]. intros [= Hs].
  destruct (_entries _ !! _) as [slots|]; [|done]. simpl in Hs. unfold read_slot in Hs. repeat case_match; try done;
    injection Hs as <-; simpl; unfold apply_recovery_overlay;
    (rewrite bool_decide_eq_false_2; [done|]; rewrite elem_of_cons, list_elem_of_singleton; by intros [|[=]]).
Qed.

(** While a terminal is being recovered, a slot of the store that is served is served
    as ERROR: whatever was observed, by whatever source, the answer is the fusion of
    ERROR, sourced from the store; the monitor is asked for nothing else and no
    backend is polled. *)
Theorem recovering_is_error recovery : md_recovery_state md = Some recovery → recovery ≠ rebound →
  resolved id age none fresh token s
  = (fused ← _fuse id (Some TS_ERROR); mret {| rr_answer := fused; rr_rs_sourced := true |}) s2.
Proof using All.
  intros Hr Hne. apply served_answer; [|done]. unfold status_of_view. simpl.
  rewrite (served_overlay recovery Hr Hne). by rewrite (bool_decide_eq_false_2 (TS_ERROR = TS_UNKNOWN)), andb_false_r.
Qed.
End Served.

(** ** Native polls *)

(** The polls of a run of calls that were let through to the backend, in order. *)
Fixpoint polls (ids : list string) (s : Sys) : list (string * Z) :=
  match ids with
  | [] => []
  | id :: ids =>
      match value_of (monotonic_now s) with
      | Returned now => if cooling now (vs_native_poll_last (sys_view s) !! id) then [] else [(id, now)]
      | Raised _ => []
      end ++ polls ids (state_of (_poll_native_once id s))
  end.
Definition times (id : string) (l : list (string * Z)) : list Z := snd <$> filter (λ x, x.1 = id) l.
Fixpoint spaced (last : option Z) (l : list Z) : Prop :=
  match l with
  | [] => True
  | t :: l => (∀ x, last = Some x → NATIVE_POLL_COOLDOWN <= t - x) ∧ spaced (Some t) l
  end.

Lemma poll_backend_beside id : keeps beside (poll_backend id : M Sys _).
Proof using All.
  assert (∀ A (m : M Sys A), keeps outside m → keeps beside m) as Ho by (intros A m; apply keeps_mono; by intros ? ? []).
  unfold poll_backend. apply keeps_bind; [apply _|apply Ho, get_backend_outside|intros _].
  apply keeps_bind; [apply _|apply Ho, native_status_source_outside|intros source].
  apply keeps_bind; [apply _|apply Ho, get_terminal_metadata_outside|intros [md|]]; [|auto with cao].
  case_match; [auto with cao|]. apply keeps_bind; [apply _|apply Ho, get_pane_id_outside|intros [pane|]]; [|auto with cao].
  apply keeps_bind; [apply _|apply prove_terminal_identity_beside|intros proof].
  apply keeps_bind; [apply _|apply Ho, fetch_native_status_outside|intros fetch].
  apply keeps_bind; [apply _|apply Ho, monotonic_now_outside|intros at_].
  apply keeps_bind; [apply _|apply publish_native_poll_beside|auto with cao].
Qed.

Lemma poll_remembers id s now : value_of (monotonic_now s) = Returned now →
  vs_native_poll_last (sys_view (state_of (_poll_native_once id s)))
  = (if cooling now (vs_native_poll_last (sys_view s) !! id) then vs_native_poll_last (sys_view s)
     else <[id := now]> (vs_native_poll_last (sys_view s))).
Proof using All.
  intros Hnow. destruct (monotonic_now_outside s) as [[_ Hv] _]. unfold value_of in Hnow.
  destruct (monotonic_now s) as [s1 o] eqn:Em. simpl in *. subst o. unfold _poll_native_once.
  rewrite (bind_returned _ _ _ _ _ Em).
  rewrite (bind_returned _ _ s1 s1 (vs_native_poll_last (sys_view s1) !! id)) by done. rewrite Hv.
  destruct (cooling now _); [by rewrite <- Hv|].
  rewrite (bind_returned _ _ s1 (polled id now s1) ()) by done.
  destruct (poll_backend_beside id (polled id now s1)) as [_ Hb]. unfold catch, state_of.
  destruct (poll_backend id (polled id now s1)) as [s2 [r|e]]; simpl in *; by rewrite Hb; simpl; rewrite Hv.
Qed.

(** A backend is asked about a terminal at most once per cooldown: in any sequence of
    calls for any terminals, whatever the backend answers or raises in between, two
    consecutive polls of one terminal that were let through are five seconds apart. *)
Theorem polls_are_spaced ids id s : spaced (vs_native_poll_last (sys_view s) !! id) (times id (polls ids s)).
Proof using All.
  revert s. induction ids as [|i ids IH]; intros s; [done|]. simpl.
  destruct (monotonic_now_returns s) as [now Hnow]. pose proof (poll_remembers i s now Hnow) as Hlast.
  rewrite Hnow. specialize (IH (state_of (_poll_native_once i s))). rewrite Hlast in IH.
  destruct (cooling now _) eqn:Hc; [done|]. unfold times in *. simpl. rewrite filter_cons. simpl.
  destruct (decide (i = id)) as [->|Hne].
  - rewrite lookup_insert_eq in IH. simpl. split; [|done]. intros x Hx. unfold cooling in Hc. rewrite Hx in Hc. lia.
  - by rewrite lookup_insert_ne in IH by done.
Qed.
End Thms.

(** * Reads at work

    A host with one terminal, its monitor and a backend without an event inbox, on
    which the theorems of [ViewThms] are applied; and two reads that show how far an
    answer can be from what its name suggests. *)

(** What the monitor sees, what the terminal table holds, and a clock that stands. *)
Record Host := {
  h_now : Z;
  h_status : TerminalStatus;
  h_metadata : option TerminalMetadata;
}.

#[export] Instance host_monitor : StatusMonitor Host := {
  get_status _ := gets (λ s, h_status (sys_env s));
  get_raw_status _ := gets (λ s, h_status (sys_env s));
  fuse_status _ status := mret (status, None);
  probe_screen_status _ := mret ();
  prove_terminal_identity id := now ← gets (λ s, h_now (sys_env s));
    mret {| ip_terminal_id := id; ip_proven_at_mono := now; ip_failure := None |};
  publish_native_poll _ _ _ _ _ := raise (ExternalError "no native source");
}.
#[export] Instance host_platform : Platform Host := {
  get_backend := mret ();
  supports_event_inbox := mret false;
  get_pane_id _ _ _ := mret None;
  fetch_native_status _ _ := raise (ExternalError "no native source");
  native_status_source _ := mret None;
  get_terminal_metadata _ := gets (λ s, h_metadata (sys_env s));
  monotonic_now := gets (λ s, h_now (sys_env s));
}.
#[export] Instance host_laws : ViewLaws Host.
Proof. split; intros; cbn; auto with cao. by eexists. Qed.

(** ** The host while its operation is confirming *)

Definition terminal_row (recovery : option RecoveryState) : TerminalMetadata := {|
  md_lifecycle_generation := 1; md_tmux_session := "cao"; md_tmux_window := "w1"; md_recovery_state := recovery |}.
Definition pass (status : TerminalStatus) : ReceiverState := {|
  rs_terminal_id := "t1"; rs_lifecycle_generation := 1; rs_window_identity := "w1"; rs_observation_epoch := "e";
  rs_observation_sequence := 1; rs_provider := "codex"; rs_frame_source := FS_incremental; rs_captured_at_mono := 100;
  rs_frame_hash := None; rs_latched_status := status; rs_pass_outcome := PO_accepted;
  rs_freshness_proof := {| fp_kind := FK_not_probed; fp_detail := None |}; rs_origin := OO_incremental;
  rs_raw_classification := None; rs_probe_evidence := None; rs_native_evidence := None; rs_projection_evidence := None |}.
Definition store_of (status : TerminalStatus) : ReceiverStateStore :=
  state_of (publish_observation (pass status) None None new_store).
Definition no_view : ViewState := {|
  vs_native_publisher_enabled := false; vs_native_poll_last := ∅; vs_backend_failure_last_logged := ∅;
  vs_outage_last_logged := ∅ |}.
Definition host (w : World) (seen latched : TerminalStatus) (recovery : option RecoveryState) : System Host := {|
  sys_seam := w; sys_store := store_of latched; sys_view := no_view;
  sys_env := {| h_now := 200; h_status := seen; h_metadata := Some (terminal_row recovery) |} |}.

Definition bootstrapped : World := state_of (on_tables (_bootstrap_seam_activation "t0") new_world).
Definition confirming : World := (seam_run sample_uuid promoting_requests bootstrapped).2.
Definition steady_sample : Sample := {|
  sm_readable := true; sm_active_up := true; sm_faults := no_faults; sm_now := 500; sm_monotonic := 0; sm_later := 0 |}.
Definition read_status (s : System Host) : System Host * outcome (option TerminalStatus) :=
  view_from_legacy sample_uuid steady_sample sample_op "t1" 1000 NB_none false None (Some (h_status (sys_env s))) s.

Lemma confirming_coherent : rows_present (w_tables confirming) ∧ coherent (w_tables confirming).
Proof.
  assert (∀ (P : string → Prop), Forall P PARITY_CONSUMER_OPS → ∀ op, op ∈ PARITY_CONSUMER_OPS → P op) as Hall
    by (intros P H op; by apply Forall_forall).
  split; refine (Hall _ _); (apply Forall_cons_2; [|apply Forall_cons_2; [|apply Forall_cons_2; [|apply Forall_nil_2]]]).
  1-3: eexists; vm_compute; reflexivity.
  all: intros a r Ha Hr; vm_compute in Ha; vm_compute in Hr; injection Ha as <-; injection Hr as <-; split; simpl; congruence.
Qed.

Lemma reads_follow_the_switch_witness :
  (rows_present (w_tables confirming) ∧ coherent (w_tables confirming))
  ∧ let s := host confirming TS_IDLE TS_COMPLETED None in
    (∃ bypass, value_of (_event_inbox_bypass "t1" s) = Returned bypass
      ∧ (bypass = true ∨ ¬ asks_receiver steady_sample sample_op confirming →
          value_of (read_status s) = Returned (Some TS_IDLE))
      ∧ (bypass = false → asks_receiver steady_sample sample_op confirming →
          from_resolver (resolved_answer "t1" 1000 NB_none false None)
            (resolved_at steady_sample sample_op "t1" s) (value_of (read_status s))))
    ∧ (asks_receiver steady_sample sample_op confirming ↔ receiver_decides steady_sample sample_op confirming).
Proof.
  destruct confirming_coherent as [Hrows Hcoh]. split; [by split_and!|]. intros s.
  destruct (reads_follow_the_switch sample_uuid steady_sample sample_op "t1" 1000 NB_none false None (Some TS_IDLE) s)
    as [Hread Hswitch].
  split; [exact Hread|exact (Hswitch Hrows Hcoh)].
Defined.



(** The store answers COMPLETED to a caller whose monitor says IDLE, once: the
    disagreement gives legacy its authority back. *)
Example confirming_reads :
  let s := host confirming TS_IDLE TS_COMPLETED None in
  let s' := state_of (read_status s) in
  (value_of (read_status s), authority_of (sys_seam s'), value_of (read_status s'))
  = (Returned (Some TS_COMPLETED), Some LEGACY, Returned (Some TS_IDLE)).
Proof. vm_compute. reflexivity. Qed.

(** A PROCESSING latch of the store is answered with the legacy monitor's status, and
    counts as a match of the two sources. *)
Example processing_is_answered_by_legacy :
  let s := host started TS_IDLE TS_PROCESSING None in
  let k := (sample_op, "build:a", "collecting", "0")%string in
  (value_of (resolved "t1" 1000 NB_none false None s), buffered k (w_clean_buffer (sys_seam (state_of (read_status s)))))
  = (Returned {| rr_answer := Some TS_IDLE; rr_rs_sourced := true |}, Some 1).
Proof. vm_compute. reflexivity. Qed.

(** After a rollback that lost the database half way, legacy has the authority and the
    store still answers; rolling back again does not help. *)
Example cut_rollback_still_answers :
  let retried := ManualRollback true true 4000000 sample_op in
  let w := (seam_run sample_uuid (promoting_requests ++ [cut_rollback; retried]) bootstrapped).2 in
  (authority_of w, phase_of w, value_of (read_status (host w TS_IDLE TS_COMPLETED None)))
  = (Some LEGACY, Some CONFIRMING, Returned (Some TS_COMPLETED)).
Proof. vm_compute. reflexivity. Qed.
