(* ===== verification/Fingerprint.v ===== *)
(** * The identity of a workflow step's call — [services/step_fingerprint.py]

    Ten components of a call are rendered, joined with NUL and hashed; the scheme
    is the prefix of the value.  A timeout is an integer of microseconds, which is
    what the six decimals of its rendering can tell apart. *)

From S2P Require Import Prelude Text Sha256 Chars.

Definition char (n : nat) : ascii := ascii_of_nat n.
Definition CREATION_ONLY : string := String (char 1) "creation-only".
Definition _V2_PREFIX : string := "v2:".
Definition _COMPONENT_SEP : ascii := char 0.
Definition _TOOL_SEP : ascii := char 31.
Definition _NOT_SUPPLIED : string := String (char 2) "not-supplied".

Record StepCallFields := {
  sc_provider : string;
  sc_agent : string;
  sc_prompt : string;
  sc_model : option string;
  sc_engine : option string;
  sc_allowed_tools : option (list string);
  sc_effective_working_directory : option string;
  sc_use_worktree : bool;
  sc_reused_terminal : bool;
  sc_timeout : Z;
}.

Definition _text (value : option string) : string := default _NOT_SUPPLIED value.
Definition _flag (value : bool) : string := if value then "true" else "false".
(** [f"{float(value):.6f}"] *)
Definition _timeout (value : Z) : string :=
  (if value <? 0 then "-" else "") +:+ pretty (Z.abs value / 1000000) +:+ "." +:+ zero_padded 6 (Z.abs value mod 1000000).

(** [sorted] of a list of [str] orders by code points, as the bytes of UTF-8 do. *)
Definition _tools (value : option (list string)) : string :=
  match value with
  | None => _NOT_SUPPLIED
  | Some value =>
      let ordered := merge_sort text_le value in
      pretty (Z.of_nat (length ordered)) +:+ String _TOOL_SEP (join_with (String _TOOL_SEP "") ordered)
  end.

Definition components (fields : StepCallFields) : list string :=
  let creation_only s := if sc_reused_terminal fields then CREATION_ONLY else s in
  [sc_provider fields; sc_agent fields; sc_prompt fields;
   creation_only (_text (sc_model fields));
   _text (sc_engine fields);
   creation_only (_tools (sc_allowed_tools fields));
   creation_only (_text (sc_effective_working_directory fields));
   creation_only (_flag (sc_use_worktree fields));
   _flag (sc_reused_terminal fields);
   _timeout (sc_timeout fields)].
Definition joined (fields : StepCallFields) : string := join_with (String _COMPONENT_SEP "") (components fields).
Definition compute (fields : StepCallFields) : string := _V2_PREFIX +:+ sha256_hex (joined fields).

Inductive Scheme := SCHEME_v2 | SCHEME_legacy | SCHEME_absent.
#[export] Instance Scheme_eq_dec : EqDecision Scheme. Proof. solve_decision. Defined.
Definition scheme_of (stored : option string) : Scheme :=
  match stored with
  | None => SCHEME_absent
  | Some stored => if startswith stored _V2_PREFIX then SCHEME_v2 else SCHEME_legacy
  end.

(** ** Joined texts *)

Lemma join_cons sep x y l : join_with sep (x :: y :: l) = x +:+ sep +:+ join_with sep (y :: l).
Proof.
  unfold join_with. simpl. revert y. induction l as [|z l IH]; intros y; [done|].
  simpl. rewrite <- !string_app_assoc. change (y +:+ sep +:+ z) with ((λ a b, a +:+ sep +:+ b) y z).
  assert (∀ l a b, foldl (λ acc y, acc +:+ sep +:+ y) (a +:+ b) l = a +:+ foldl (λ acc y, acc +:+ sep +:+ y) b l) as Hf.
  { clear. induction l as [|z l IH]; intros a b; [done|]. simpl. by rewrite <- !string_app_assoc, IH. }
  by rewrite !Hf.
Qed.

(** Texts that do not hold the separator can be told apart in their join, given how
    many there are. *)
Lemma join_injective c l1 l2 :
  length l1 = length l2 → Forall (no_char c) l1 → Forall (no_char c) l2 →
  join_with (String c "") l1 = join_with (String c "") l2 → l1 = l2.
Proof.
  revert l2. induction l1 as [|x l1 IH]; intros [|y l2] Hl H1 H2 He; [done..|].
  apply Forall_cons in H1 as [Hx H1]. apply Forall_cons in H2 as [Hy H2].
  destruct l1 as [|x' l1], l2 as [|y' l2]; [by simpl in He; subst|done..|].
  rewrite !join_cons in He. simpl in He. apply split_at_char in He as [-> He]; [|done..].
  f_equal. apply IH; auto.
Qed.

Lemma pretty_nat_inj n m : pretty (Z.of_nat n) = pretty (Z.of_nat m) → n = m.
Proof. intros H%(inj pretty). lia. Qed.

Lemma pretty_free c (z : Z) : c ∈ [_COMPONENT_SEP; _TOOL_SEP; "."%char] → no_char c (pretty z : string).
Proof.
  intros Hc. apply pretty_Z_no_char; repeat (apply elem_of_cons in Hc as [->|Hc]; [|try by apply not_elem_of_nil in Hc]);
    try done; intros d; unfold pretty_N_char; by repeat case_match.
Qed.

Lemma timeout_injective v w : 0 <= v → 0 <= w → _timeout v = _timeout w → v = w.
Proof.
  intros Hv Hw. unfold _timeout. destruct (Z.ltb_spec v 0), (Z.ltb_spec w 0); try lia.
  rewrite !Z.abs_eq by done. intros He. cbn [String.append] in He. apply split_at_char in He as [Hq Hm]; [|by apply pretty_free; by_eval..].
  apply (inj pretty) in Hq. apply zero_padded_inj in Hm; [|by apply Z.mod_pos_bound..].
  rewrite (Z.div_mod v 1000000), (Z.div_mod w 1000000) by done. congruence.
Qed.

(** ** What the fingerprint identifies *)

(** Two calls that run alike: a reused terminal ignores what only creation reads, and
    the allowed tools are a set of names with their multiplicities. *)
Definition same_call (a b : StepCallFields) : Prop :=
  (sc_provider a, sc_agent a, sc_prompt a, sc_engine a, sc_reused_terminal a, sc_timeout a)
  = (sc_provider b, sc_agent b, sc_prompt b, sc_engine b, sc_reused_terminal b, sc_timeout b)
  ∧ (sc_reused_terminal a = false →
     (sc_model a, sc_effective_working_directory a, sc_use_worktree a)
     = (sc_model b, sc_effective_working_directory b, sc_use_worktree b)
     ∧ option_Forall2 (≡ₚ) (sc_allowed_tools a) (sc_allowed_tools b)).

(** What the framing needs: no NUL in a text, no unit separator in a tool's name, no
    text that is the marker of an absent one, and a timeout the route accepts. *)
Definition text_ok (s : string) : Prop := no_char _COMPONENT_SEP s.
Definition option_ok (o : option string) : Prop := ∀ s, o = Some s → text_ok s ∧ s ≠ _NOT_SUPPLIED.
Record framed (f : StepCallFields) : Prop := {
  fr_texts : Forall text_ok [sc_provider f; sc_agent f; sc_prompt f];
  fr_options : Forall option_ok [sc_model f; sc_engine f; sc_effective_working_directory f];
  fr_tools : ∀ l t, sc_allowed_tools f = Some l → t ∈ l → text_ok t ∧ no_char _TOOL_SEP t;
  fr_timeout : 0 < sc_timeout f;
}.

Lemma text_injective a b : option_ok a → option_ok b → _text a = _text b → a = b.
Proof.
  intros Ha Hb. unfold _text. destruct a as [a|], b as [b|]; simpl; [congruence| | |done]; intros He.
  - by destruct (Ha a).
  - by destruct (Hb b).
Qed.

Lemma text_framed o : option_ok o → text_ok (_text o).
Proof. intros H. destruct o as [s|]; [by apply (H s)|]. by vm_compute. Qed.

Lemma text_le_total a b : text_le a b ∨ text_le b a.
Proof. unfold text_le. destruct (String.leb_total a b); auto. Qed.
#[local] Instance text_le_total_instance : Total text_le := text_le_total.
#[local] Instance text_le_transitive : Transitive text_le.
Proof. intros a b c. apply string_leb_trans. Qed.
#[local] Instance text_le_antisymm : AntiSymm (=) text_le.
Proof. intros a b. apply String.leb_antisym. Qed.

Lemma sorted_names_perm (a b : list string) : merge_sort text_le a = merge_sort text_le b ↔ a ≡ₚ b.
Proof.
  split; intros H.
  - by rewrite <- (merge_sort_Permutation text_le a), <- (merge_sort_Permutation text_le b), H.
  - apply (Sorted_unique text_le); [apply Sorted_merge_sort, _|apply Sorted_merge_sort, _|].
    by rewrite !merge_sort_Permutation.
Qed.

Lemma tools_framed o : (∀ l t, o = Some l → t ∈ l → text_ok t ∧ no_char _TOOL_SEP t) → text_ok (_tools o).
Proof.
  intros H. destruct o as [l|]; [|by vm_compute]. unfold _tools, text_ok. apply no_char_app. split; [by apply pretty_free; by_eval|].
  simpl. split; [done|]. assert (∀ t, t ∈ merge_sort text_le l → text_ok t) as Hs.
  { intros t. rewrite merge_sort_Permutation. intros Ht. by apply (H l). }
  revert Hs. induction (merge_sort text_le l) as [|x [|y k] IH]; intros Hs; [done|apply Hs; left|].
  rewrite join_cons, !no_char_app. split_and!; [apply Hs; left|done|]. apply IH. intros t Ht. apply Hs. by right.
Qed.

Lemma tools_supplied l : _tools (Some l) ≠ _NOT_SUPPLIED.
Proof.
  unfold _tools. generalize (Z.of_nat (length (merge_sort text_le l))). intros z He.
  assert (no_char (char 2) (pretty z : string)) as Hz.
  { apply pretty_Z_no_char; [done|]. intros d. unfold pretty_N_char. by repeat case_match. }
  destruct (pretty z : string) as [|c s]; simpl in *; [done|]. injection He as He _. by destruct Hz.
Qed.

Lemma tools_injective a b :
  (∀ l t, a = Some l → t ∈ l → text_ok t ∧ no_char _TOOL_SEP t) →
  (∀ l t, b = Some l → t ∈ l → text_ok t ∧ no_char _TOOL_SEP t) →
  _tools a = _tools b ↔ option_Forall2 (≡ₚ) a b.
Proof.
  intros Ha Hb. destruct a as [a|], b as [b|]; simpl.
  - split.
    + intros He. apply split_at_char in He as [Hn He]; [|by apply pretty_free; by_eval..].
      apply pretty_nat_inj in Hn. constructor. apply sorted_names_perm, (join_injective _TOOL_SEP); [done| | |done];
        apply Forall_forall; intros t; rewrite merge_sort_Permutation; intros Ht; [by apply (Ha a)|by apply (Hb b)].
    + intros He. inversion He; subst. by apply sorted_names_perm in H1 as ->.
  - split; [|by inversion 1]. by intros ?%tools_supplied.
  - split; [|by inversion 1]. by intros ?%symmetry%tools_supplied.
  - split; [by constructor|done].
Qed.

Lemma zero_padded_free n z : no_char _COMPONENT_SEP (zero_padded n z).
Proof.
  unfold zero_padded. revert z. induction n as [|n IH]; intros z; simpl; [done|]. apply no_char_app. split; [apply IH|].
  split; [|done]. pose proof (Z.mod_pos_bound z 10 ltac:(done)) as Hz. unfold dec_digit.
  intros Hd%(f_equal nat_of_ascii). rewrite nat_ascii_embedding in Hd by lia. vm_compute in Hd. lia.
Qed.

Lemma components_framed f : framed f → Forall text_ok (components f).
Proof.
  intros [Ht Ho Htools Htm]. unfold components. rewrite !Forall_cons in Ht. rewrite !Forall_cons in Ho.
  destruct Ht as (?&?&?&_), Ho as (?&?&?&_).
  assert (∀ b, text_ok (_flag b)) by (by intros []; vm_compute).
  assert (text_ok CREATION_ONLY) by (by vm_compute).
  assert (text_ok (_timeout (sc_timeout f))).
  { unfold _timeout, text_ok. apply no_char_app. split; [by destruct (_ <? 0)|].
    apply no_char_app. split; [by apply pretty_free; by_eval|]. apply no_char_app. split; [done|apply zero_padded_free]. }
  repeat constructor; try destruct (sc_reused_terminal f); auto using text_framed, tools_framed.
Qed.

Lemma flag_injective a b : _flag a = _flag b → a = b.
Proof. by destruct a, b. Qed.

Lemma components_same a b : framed a → framed b → components a = components b ↔ same_call a b.
Proof.
  intros [_ Ha Hta Hva] [_ Hb Htb Hvb]. rewrite !Forall_cons in Ha. rewrite !Forall_cons in Hb.
  destruct Ha as (?&?&?&_), Hb as (?&?&?&_). unfold components, same_call. split.
  - intros He. injection He as Hp Hg Hq Hm He Ht Hw Hu Hr Hv.
    apply flag_injective in Hr. apply timeout_injective in Hv; [|lia..]. apply text_injective in He; [|done..].
    rewrite <- Hr in *. split; [congruence|]. intros Hnr. rewrite Hnr in *.
    apply text_injective in Hm, Hw; [|done..]. apply flag_injective in Hu. apply tools_injective in Ht; [|done..].
    split; [congruence|done].
  - intros [Hs Hc]. injection Hs as -> -> -> -> Hr ->. rewrite Hr in *. destruct (sc_reused_terminal b); [done|].
    destruct (Hc eq_refl) as [Hs Ht]. injection Hs as -> -> ->. apply tools_injective in Ht as ->; done.
Qed.

Lemma compute_scheme f : scheme_of (Some (compute f)) = SCHEME_v2.
Proof. unfold scheme_of, compute, startswith. by destruct (sha256_hex (joined f)). Qed.

(** [C37] What a fingerprint identifies.  For calls whose texts hold no NUL, whose
    tools' names hold no unit separator and whose texts are not the marker of an
    absent one, the hashed text is the same exactly for the calls that run alike: the
    same provider, agent, prompt, engine, timeout to the microsecond and use of a
    reused terminal, and, unless a terminal is reused, the same model, directory,
    worktree and multiset of tools.  So every such pair of calls has one fingerprint,
    and a fingerprint shared by any other pair is a collision of SHA-256.  Every
    fingerprint is of the current scheme. *)
Theorem fingerprint_identifies_calls a b :
  framed a → framed b →
  (joined a = joined b ↔ same_call a b)
  ∧ (same_call a b → compute a = compute b)
  ∧ (compute a = compute b → ¬ same_call a b →
     joined a ≠ joined b ∧ sha256_hex (joined a) = sha256_hex (joined b))
  ∧ scheme_of (Some (compute a)) = SCHEME_v2.
Proof.
  intros Ha Hb. assert (joined a = joined b ↔ same_call a b) as Hj.
  { rewrite <- components_same by done. split; [|unfold joined; congruence].
    intros He. apply join_injective in He; [done|done|by apply components_framed..]. }
  split; [exact Hj|]. split; [|split; [|apply compute_scheme]].
  - intros H. unfold compute. by rewrite (proj2 Hj H).
  - intros He Hn. unfold compute in He. rewrite <- Hj in Hn. split; [done|]. by injection He.
Qed.

Definition sample_call : StepCallFields := {|
  sc_provider := "codex"; sc_agent := "dev"; sc_prompt := "fix the test"; sc_model := None; sc_engine := None;
  sc_allowed_tools := Some ["Read"; "Write"]; sc_effective_working_directory := Some "/repo";
  sc_use_worktree := false; sc_reused_terminal := false; sc_timeout := 600000000 |}.
Definition with_tools (l : list string) (f : StepCallFields) : StepCallFields := {|
  sc_provider := sc_provider f; sc_agent := sc_agent f; sc_prompt := sc_prompt f; sc_model := sc_model f;
  sc_engine := sc_engine f; sc_allowed_tools := Some l;
  sc_effective_working_directory := sc_effective_working_directory f; sc_use_worktree := sc_use_worktree f;
  sc_reused_terminal := sc_reused_terminal f; sc_timeout := sc_timeout f |}.

Lemma framed_sample l : Forall (λ t, text_ok t ∧ no_char _TOOL_SEP t) l → framed (with_tools l sample_call).
Proof.
  intros Hl. split; [| |simpl; intros k t [= <-]; revert t; by apply Forall_forall|done].
  - repeat (apply Forall_cons_2; [by vm_compute|]). apply Forall_nil_2.
  - repeat (apply Forall_cons_2; [intros s Hs; simplify_eq/=; by repeat split|]). apply Forall_nil_2.
Qed.

Lemma fingerprint_identifies_calls_witness :
  same_call (with_tools ["Write"; "Read"] sample_call) (with_tools ["Read"; "Write"] sample_call)
  ∧ compute (with_tools ["Write"; "Read"] sample_call) = compute (with_tools ["Read"; "Write"] sample_call).
Proof.
  assert (same_call (with_tools ["Write"; "Read"] sample_call) (with_tools ["Read"; "Write"] sample_call)) as Hs.
  { split; [done|]. intros _. split; [done|]. constructor. by constructor. }
  split; [exact Hs|].
  apply (fingerprint_identifies_calls (with_tools ["Write"; "Read"] sample_call) (with_tools ["Read"; "Write"] sample_call));
    [apply framed_sample; repeat (apply Forall_cons_2; [by vm_compute|]); apply Forall_nil_2..|exact Hs].
Defined.

(** A unit separator in a name takes part of another's place: the count in front does
    not tell these sets apart. *)
Example tool_sets_collide :
  let u := String _TOOL_SEP "" in
  compute (with_tools ["a" +:+ u +:+ "b"; "c"] sample_call) = compute (with_tools ["a"; "b" +:+ u +:+ "c"] sample_call).
Proof. vm_compute. reflexivity. Qed.

Example known_fingerprint :
  compute sample_call = "v2:cd8759128341a2fce737a8c1b7c06ff253c800db87973bfd7514c0b1fc694edc"%string.
Proof. vm_compute. reflexivity. Qed.
Example known_renderings :
  (_timeout 600000000, _timeout 1500000, _tools (Some ["b"; "a"]), _tools (Some []) =? _tools (Some [""]))%string
  = ("600.000000", "1.500000", "2" +:+ String _TOOL_SEP ("a" +:+ String _TOOL_SEP "b"), false)%string.
Proof. vm_compute. reflexivity. Qed.
