(* ===== verification/Envelope.v ===== *)
(** * What of a step's result is stored — [services/step_result.py], and the
    sanitisers of [services/script_runner.py]

    A result is redacted first and bounded after, in bytes; a cut in the middle of a
    character drops the part of it that is left. *)

From S2P Require Import Prelude Text Chars Secrets.

Definition WORKFLOW_JOURNAL_RESULT_MAX_BYTES : nat := Z.to_nat 32768.

(** ** Bytes *)

Fixpoint bytes_upto (n : nat) (s : string) : string :=
  match n, s with S n, String b s => String b (bytes_upto n s) | _, _ => "" end.
Fixpoint bytes_from (n : nat) (s : string) : string :=
  match n, s with S n, String _ s => bytes_from n s | _, _ => s end.

(** How many bytes a character that begins with [b] has; 0 when none does. *)
Definition width (b : ascii) : nat :=
  let v := byte_of b in
  if v <? 0x80 then 1 else if v <? 0xC2 then 0 else if v <? 0xE0 then 2
  else if v <? 0xF0 then 3 else if v <? 0xF5 then 4 else 0.
Definition complete (c : string) : bool :=
  match c with String b _ => bool_decide (String.length c = width b) | EmptyString => false end.
(** [data.decode("utf-8", errors="ignore")] of a slice of an encoded text. *)
Definition decode_ignore (s : string) : string := concat_text (filter (λ c, complete c = true) (chars s)).

(** ** The envelope *)

Record StepResultEnvelope := {
  se_last_message : string;
  se_status : string;
  se_terminal_id : option string;
  se_truncated : bool;
  se_redacted : bool;
}.
#[export] Instance StepResultEnvelope_eq_dec : EqDecision StepResultEnvelope. Proof. solve_decision. Defined.

Definition build_envelope (last_message status : string) (terminal_id : option string) : StepResultEnvelope :=
  let '(text, fired) := redact_secrets last_message in
  let redacted := negb (bool_decide (fired = [])) in
  let truncated := bool_decide (WORKFLOW_JOURNAL_RESULT_MAX_BYTES < String.length text)%nat in
  {| se_last_message := if truncated then decode_ignore (bytes_upto WORKFLOW_JOURNAL_RESULT_MAX_BYTES text) else text;
     se_status := status; se_terminal_id := terminal_id; se_truncated := truncated; se_redacted := redacted |}.

(** The [result_json] column: the JSON of an envelope, or any other text. *)
Inductive result_text := EnvelopeText (e : StepResultEnvelope) | OtherText (text : string).
#[export] Instance result_text_eq_dec : EqDecision result_text. Proof. solve_decision. Defined.
Definition serialise_envelope (envelope : StepResultEnvelope) : result_text := EnvelopeText envelope.
Definition parse_envelope (result_json : option result_text) : option StepResultEnvelope :=
  match result_json with Some (EnvelopeText e) => Some e | _ => None end.

(** ** The error column *)

Definition _ERROR_TRUNCATION_MARKER (dropped : nat) : string :=
  "[... error truncated: " +:+ pretty (Z.of_nat dropped) +:+ " leading bytes dropped; showing tail ...]" +:+ String (ascii_of_nat 10) "".

Definition _sanitise_error (error : option string) : option string :=
  match error with
  | None => None
  | Some error =>
      let text := (redact_secrets error).1 in
      let cap := WORKFLOW_JOURNAL_RESULT_MAX_BYTES in
      let total := String.length text in
      if bool_decide (total ≤ cap)%nat then Some text else
      let reserve := String.length (_ERROR_TRUNCATION_MARKER total) in
      if bool_decide (cap ≤ reserve)%nat
      then Some (decode_ignore (bytes_upto cap (_ERROR_TRUNCATION_MARKER total)))
      else
        let keep := (cap - reserve)%nat in
        let tail := decode_ignore (bytes_from (total - keep) text) in
        let dropped := (total - String.length tail)%nat in
        Some (_ERROR_TRUNCATION_MARKER dropped +:+ tail)
  end.

(** ** The output column

    [json.dumps] with compact separators; what is not ASCII is escaped. *)

Definition code_point (c : string) : Z :=
  match byte_of <$> String.list_ascii_of_string c with
  | [a] => a
  | [a; b] => (a - 0xC0) * 64 + (b - 0x80)
  | [a; b; d] => (a - 0xE0) * 4096 + (b - 0x80) * 64 + (d - 0x80)
  | [a; b; d; e] => (a - 0xF0) * 262144 + (b - 0x80) * 4096 + (d - 0x80) * 64 + (e - 0x80)
  | _ => 0
  end.
Definition hex4 (v : Z) : string :=
  let d k := String (ascii_of_N (Z.to_N (let n := Z.land (Z.shiftr v k) 15 in if n <? 10 then 48 + n else 87 + n))) "" in
  d 12 +:+ d 8 +:+ d 4 +:+ d 0.
Definition backslash : string := String (ascii_of_nat 92) "".
Definition escape_char (c : string) : string :=
  let v := code_point c in
  if v =? 34 then backslash +:+ String (ascii_of_nat 34) ""
  else if v =? 92 then backslash +:+ backslash
  else if v =? 10 then backslash +:+ "n" else if v =? 13 then backslash +:+ "r" else if v =? 9 then backslash +:+ "t"
  else if v =? 12 then backslash +:+ "f" else if v =? 8 then backslash +:+ "b"
  else if v <? 32 then backslash +:+ "u" +:+ hex4 v
  else if v <? 127 then c
  else if v <? 0x10000 then backslash +:+ "u" +:+ hex4 v
  else let v := v - 0x10000 in
       backslash +:+ "u" +:+ hex4 (0xD800 + Z.shiftr v 10) +:+ backslash +:+ "u" +:+ hex4 (0xDC00 + Z.land v 0x3FF).
Definition quoted (s : string) : string :=
  let q := String (ascii_of_nat 34) "" in q +:+ concat_text (escape_char <$> chars s) +:+ q.
Fixpoint dumps_compact (node : json) : string :=
  match node with
  | JNull => "null"
  | JBool b => if b then "true" else "false"
  | JNum text => text
  | JStr s => quoted s
  | JArr l => "[" +:+ join_with "," ((fix go l := match l with [] => [] | v :: l => dumps_compact v :: go l end) l) +:+ "]"
  | JObj members =>
      "{" +:+ join_with "," ((fix go (l : list (string * json)) := match l with
                              | [] => [] | (k, v) :: l => (quoted k +:+ ":" +:+ dumps_compact v) :: go l
                              end) members) +:+ "}"
  end.

Definition _output_placeholder (reason : string) (byte_length : nat) : json :=
  JObj [("cao_output_dropped", JStr reason); ("original_bytes", JNum (pretty (Z.of_nat byte_length)));
        ("detail", JStr "the step's structured output was not persisted; see the run's result envelope and error for what the step reported")]%string.

(** The column as the document it encodes: it is the dump of a document, so it
    parses, and the redacted document can be dumped. *)
Definition _sanitise_output_json (output_json : option json) : option json :=
  match output_json with
  | None => None
  | Some document =>
      let redacted := redact_json_leaves document in
      let encoded_length := String.length (dumps_compact redacted) in
      if bool_decide (WORKFLOW_JOURNAL_RESULT_MAX_BYTES < encoded_length)%nat
      then Some (_output_placeholder "oversize" encoded_length)
      else Some redacted
  end.

Example dumps_sample :
  dumps_compact (JObj [("a", JArr [JNum "1"; JNull]); ("é", JStr (utf8 0x1F600 +:+ "x" +:+ String (ascii_of_nat 10) ""))])%string
  = "{" +:+ quoted "a" +:+ ":[1,null]," +:+ String (ascii_of_nat 34) "" +:+ backslash +:+ "u00e9" +:+ String (ascii_of_nat 34) ""
    +:+ ":" +:+ String (ascii_of_nat 34) "" +:+ backslash +:+ "ud83d" +:+ backslash +:+ "ude00x" +:+ backslash +:+ "n"
    +:+ String (ascii_of_nat 34) "" +:+ "}".
Proof. vm_compute. reflexivity. Qed.

(** * What a stored result holds, and how large it can be *)

Lemma string_app_nil_r (s : string) : s +:+ "" = s.
Proof. induction s as [|c s IH]; [done|]. exact (f_equal (String c) IH). Qed.

(** A text all of whose characters are complete, as every encoded [str] is. *)
Definition wellformed (s : string) : Prop := Forall (λ c, complete c = true) (chars s).

(** ** Cutting an encoded text *)

Lemma complete_whole c b x : complete c = true → c = String b x → is_continuation b = false.
Proof.
  intros Hc ->. simpl in Hc. apply bool_decide_eq_true in Hc. unfold width, byte_of, is_continuation in *.
  destruct b as [[] [] [] [] [] [] [] []]; try reflexivity; vm_compute in Hc; lia.
Qed.

Lemma char_width b x : complete (String b x) = true → (String.length (String b x) ≤ 4)%nat.
Proof.
  simpl. intros H%bool_decide_eq_true. rewrite H. unfold width. repeat case_match; lia.
Qed.

Lemma bytes_upto_app n a b :
  bytes_upto n (a +:+ b) = if decide (n ≤ String.length a)%nat then bytes_upto n a
                           else a +:+ bytes_upto (n - String.length a) b.
Proof.
  revert n. induction a as [|c a IH]; intros n.
  - change ("" +:+ b) with b. simpl. case_decide; [by assert (n = 0%nat) as -> by lia; destruct b|]. by rewrite Nat.sub_0_r.
  - destruct n as [|n]; [by rewrite decide_True by lia|].
    change (String c a +:+ b) with (String c (a +:+ b)). simpl. rewrite IH. repeat case_decide; try lia; done.
Qed.

Lemma bytes_from_app n a b :
  bytes_from n (a +:+ b) = if decide (n ≤ String.length a)%nat then bytes_from n a +:+ b
                           else bytes_from (n - String.length a) b.
Proof.
  revert n. induction a as [|c a IH]; intros n.
  - change ("" +:+ b) with b. simpl. case_decide; [by assert (n = 0%nat) as -> by lia; destruct b|]. by rewrite Nat.sub_0_r.
  - destruct n as [|n]; [by rewrite decide_True by lia|].
    change (String c a +:+ b) with (String c (a +:+ b)). simpl. rewrite IH. repeat case_decide; try lia; done.
Qed.

Lemma bytes_upto_all n s : (String.length s ≤ n)%nat → bytes_upto n s = s.
Proof.
  revert n. induction s as [|c s IH]; intros [|n] H; simpl in *; [done..|lia|]. by rewrite IH by lia.
Qed.

Lemma bytes_upto_length n s : String.length (bytes_upto n s) = Nat.min n (String.length s).
Proof. revert n. induction s as [|c s IH]; intros [|n]; simpl; try done. by rewrite IH. Qed.

Lemma wellformed_chars s : wellformed s → Forall (λ c, complete c = true ∧ whole c ∧ begins c) (chars s).
Proof.
  unfold wellformed. intros H. pose proof (chars_cut s) as [Hw _]. apply Forall_forall. intros c Hin.
  rewrite Forall_forall in H. specialize (H _ Hin). rewrite Forall_forall in Hw. split_and!; [done|by apply Hw|].
  destruct c as [|b x]; [done|]. by eapply complete_whole.
Qed.

Lemma continued_upto n x : continued x = true → continued (bytes_upto n x) = true.
Proof. revert n. induction x as [|b x IH]; intros [|n] H; simpl in *; try done. destruct (is_continuation b); [|done]. by apply IH. Qed.
Lemma continued_from n x : continued x = true → continued (bytes_from n x) = true.
Proof. revert n. induction x as [|b x IH]; intros [|n] H; simpl in *; try done. destruct (is_continuation b); [|done]. by apply IH. Qed.

Abbreviation good := (λ c, complete c = true ∧ whole c ∧ begins c).

Lemma good_chars cs : Forall good cs → chars (concat_text cs) = cs.
Proof.
  intros H. apply chars_concat. split; [by eapply Forall_impl; [exact H|]; intros ? (?&?&?)|].
  destruct H as [|c cs _ H]; [done|]. simpl. by eapply Forall_impl; [exact H|]; intros ? (?&?&?).
Qed.

(** What follows a character in a text begins another. *)
Definition starts (t : string) : Prop := match t with String b _ => is_continuation b = false | EmptyString => True end.
Lemma chars_cons c t : whole c → starts t → chars (c +:+ t) = c :: chars t.
Proof.
  intros Hw Hs. assert (concat_text (c :: chars t) = c +:+ t) as <- by (simpl; by rewrite concat_chars).
  apply chars_concat. destruct (chars_cut t) as [Hwt Hbt]. split; [by constructor|]. simpl.
  pose proof (concat_chars t) as Ht. destruct (chars t) as [|[|b x] cs]; [done|by apply Forall_cons in Hwt as [[] _]|].
  constructor; [|done]. simpl in *. subst t. done.
Qed.
Lemma starts_concat cs : Forall good cs → starts (concat_text cs).
Proof. intros [|c cs' (Hc & Hw & Hb) _]; [done|]. by destruct c. Qed.
Lemma starts_upto n t : starts t → starts (bytes_upto n t).
Proof. by destruct n, t. Qed.

Lemma decode_cons c t : good c → starts t → decode_ignore (c +:+ t) = c +:+ decode_ignore t.
Proof.
  intros (Hc & Hw & _) Hs. unfold decode_ignore. rewrite chars_cons by done. by rewrite filter_cons_True.
Qed.

Lemma decode_broken c : whole c → complete c = false → decode_ignore c = "".
Proof.
  intros Hw Hc. pose proof (chars_cons c "" Hw I) as E. rewrite string_app_nil_r in E. unfold decode_ignore.
  rewrite E, filter_none; [done|]. intros ? ->%list_elem_of_singleton. congruence.
Qed.

(** Decoding a cut-off encoding keeps the characters that are whole: as many as fit. *)
Lemma decode_upto n cs : Forall good cs →
  ∃ k, decode_ignore (bytes_upto n (concat_text cs)) = concat_text (take k cs)
  ∧ ((String.length (concat_text cs) ≤ n)%nat ∨ (n < String.length (concat_text (take k cs)) + 4)%nat).
Proof.
  revert n. induction cs as [|c cs IH]; intros n Hall; [exists 0%nat; split; [by destruct n|left; simpl; lia]|].
  apply Forall_cons in Hall as [Hg Hall]. simpl concat_text. rewrite bytes_upto_app.
  destruct (decide (n ≤ String.length c)%nat) as [Hn|Hn]; [destruct (decide (n = String.length c)) as [->|Hne]|].
  - exists 1%nat. assert (concat_text (take 1 (c :: cs)) = c) as -> by apply string_app_nil_r.
    split; [|right; lia]. rewrite bytes_upto_all by done. rewrite <- (string_app_nil_r c) at 1.
    rewrite decode_cons by done. apply string_app_nil_r.
  - exists 0%nat. destruct Hg as (Hc & Hw & Hb). destruct c as [|b x]; [done|].
    split; [|right; simpl take; pose proof (char_width b x Hc); simpl in *; lia].
    destruct n as [|n]; [done|]. apply decode_broken; [by apply continued_upto|].
    simpl. apply bool_decide_eq_false. simpl in Hc. apply bool_decide_eq_true in Hc.
    rewrite bytes_upto_length. simpl in *. lia.
  - destruct (IH (n - String.length c)%nat Hall) as (k & Hk & Hlen). exists (S k). simpl. split.
    + rewrite decode_cons by (done || by apply starts_upto, starts_concat). by rewrite Hk.
    + rewrite !string_length_app. lia.
Qed.

Lemma decode_all cs : Forall good cs → decode_ignore (concat_text cs) = concat_text cs.
Proof.
  induction 1 as [|c cs Hg Hall IH]; [done|]. simpl. by rewrite decode_cons, IH by (done || by apply starts_concat).
Qed.

(** Decoding the end of an encoding keeps the characters that begin in it. *)
Lemma decode_tail n cs : Forall good cs →
  ∃ k, decode_ignore (bytes_from n (concat_text cs)) = concat_text (drop k cs)
  ∧ (String.length (concat_text (drop k cs)) ≤ String.length (concat_text cs) - n)%nat
  ∧ (String.length (concat_text cs) - n < String.length (concat_text (drop k cs)) + 4)%nat.
Proof.
  revert n. induction cs as [|c cs IH]; intros n Hall; [exists 0%nat; split_and!; [by destruct n|simpl; lia..]|].
  apply Forall_cons in Hall as [Hg Hall]. simpl concat_text. rewrite bytes_from_app.
  destruct (decide (n ≤ String.length c)%nat) as [Hn|Hn]; [destruct n as [|n]|].
  - exists 0%nat. assert (bytes_from 0 c = c) as -> by (by destruct c).
    rewrite decode_cons, decode_all by (done || by apply starts_concat). simpl. split_and!; [done|lia..].
  - exists 1%nat. simpl. rewrite drop_0. destruct Hg as (Hc & Hw & Hb). destruct c as [|b x]; [done|].
    pose proof (char_width b x Hc) as Hcw. rewrite !string_length_app. simpl in *. split_and!; [|lia..].
    pose proof (continued_from n x Hw) as Hx. destruct (bytes_from n x) as [|d y] eqn:E; [by apply decode_all|].
    simpl in Hx. apply andb_true_iff in Hx as [Hd Hy].
    unfold decode_ignore. rewrite (chars_cons (String d y)) by (done || by apply starts_concat).
    rewrite filter_cons_False, good_chars, filter_all; [done| |done|].
    + intros z Hz. rewrite Forall_forall in Hall. by apply Hall.
    + intros Ed. by rewrite (complete_whole _ d y Ed eq_refl) in Hd.
  - destruct (IH (n - String.length c)%nat Hall) as (k & Hk & Hl1 & Hl2). exists (S k). simpl. rewrite string_length_app.
    split_and!; [done|lia..].
Qed.

Lemma decode_length s : (String.length (decode_ignore s) ≤ String.length s)%nat.
Proof.
  rewrite <- (concat_chars s) at 2. unfold decode_ignore. induction (chars s) as [|c cs IH]; [done|].
  rewrite filter_cons. case_decide; simpl; rewrite ?string_length_app; lia.
Qed.

(** ** The redacted text *)

Lemma traced_forall (P : string → Prop) fuel p marker t :
  Forall P marker → Forall P (text_of t) → Forall P (text_of (traced fuel p marker t)).
Proof.
  intros Hm. revert t. induction fuel as [|fuel IH]; intros [|[x o] t] Ht; try done. cbn [traced].
  destruct (match_at p (text_of ((x, o) :: t))) as [rest|].
  - unfold text_of. rewrite fmap_app. apply Forall_app. split.
    + rewrite <- list_fmap_compose. change (fst ∘ λ y : string, (y, false)) with (λ y : string, y). by rewrite list_fmap_id.
    + apply IH. unfold text_of. rewrite fmap_drop. by apply Forall_drop.
  - apply Forall_cons in Ht as [Hx Ht]. constructor; [done|]. by apply IH.
Qed.

Lemma wellformed_eval s : forallb complete (chars s) = true → wellformed s.
Proof. intros H. apply Forall_forall. intros c Hc. rewrite forallb_forall in H. by apply H, list_elem_of_In. Qed.

Lemma markers_good name p : (name, p) ∈ _SECRET_PATTERNS → Forall good (marker_of name).
Proof.
  intros Hin. apply wellformed_chars, wellformed_eval.
  assert (forallb (λ np, forallb complete (marker_of np.1)) _SECRET_PATTERNS = true) as Hall by (vm_compute; reflexivity).
  rewrite forallb_forall in Hall. by apply (Hall (name, p)), list_elem_of_In.
Qed.

Lemma redacted_good content : wellformed content → Forall good (text_of (redact_traced content)).
Proof.
  intros Hc%wellformed_chars. unfold redact_traced. pose proof markers_good as Hm.
  assert (Forall (λ np, Forall good (marker_of np.1)) _SECRET_PATTERNS) as Hall.
  { apply Forall_forall. intros [name p] Hin. by apply (Hm name p). }
  clear Hm.
  assert (Forall good (text_of ((λ x, (x, true)) <$> chars content))) as Ht.
  { unfold text_of. rewrite <- list_fmap_compose. change (fst ∘ λ x : string, (x, true)) with (λ x : string, x).
    by rewrite list_fmap_id. }
  revert Ht. generalize ((λ x, (x, true)) <$> chars content). induction Hall as [|np ps Hnp _ IH]; intros t Ht; [done|].
  simpl. apply IH. by apply traced_forall.
Qed.

Lemma redact_text content : (redact_secrets content).1 = concat_text (text_of (redact_traced content)).
Proof.
  destruct (redact_secrets content) as [out fired] eqn:E. by destruct (redact_facts _ _ _ E) as (-> & _).
Qed.

(** What a stored text holds of a redacted one: a part of it, clean of every pattern. *)
Definition part_of_redacted (content stored : string) : Prop :=
  ∃ a t b, redact_traced content = a ++ t ++ b ∧ stored = concat_text (text_of t)
  ∧ ∀ name p, (name, p) ∈ _SECRET_PATTERNS → clean p t.

Lemma clean_part p a t b : clean p (a ++ t ++ b) → clean p t.
Proof.
  intros H a' w b' -> Hw. apply (H (a ++ a') w (b' ++ b)); [|done]. by rewrite <- !app_assoc.
Qed.

Lemma part_redacted content a t b : redact_traced content = a ++ t ++ b →
  part_of_redacted content (concat_text (text_of t)).
Proof.
  intros E. exists a, t, b. split_and!; [done..|]. intros name p Hp. apply (clean_part p a t b). rewrite <- E.
  destruct (redact_secrets content) as [out fired] eqn:Er. destruct (redact_facts _ _ _ Er) as (_ & Hc & _). by apply (Hc name).
Qed.

(** [C34] What an envelope stores of a result.  Its message fits the column's bound; the
    flags say exactly whether the redacted text was longer than the bound and whether
    a pattern was found; an envelope with neither flag holds the result itself; a
    truncated one ends at a character and loses at most three bytes of the bound; and
    whatever the cut, no stretch of the stored text that comes from the result is
    described by a pattern. *)
Theorem envelopes_are_bounded last_message status terminal_id :
  wellformed last_message →
  let e := build_envelope last_message status terminal_id in
  let text := (redact_secrets last_message).1 in
  (String.length (se_last_message e) ≤ WORKFLOW_JOURNAL_RESULT_MAX_BYTES)%nat
  ∧ (se_truncated e = true ↔ (WORKFLOW_JOURNAL_RESULT_MAX_BYTES < String.length text)%nat)
  ∧ (se_redacted e = true ↔ scan_for_secrets last_message ≠ None)
  ∧ (se_truncated e = false → se_last_message e = text)
  ∧ (se_truncated e = true → (WORKFLOW_JOURNAL_RESULT_MAX_BYTES < String.length (se_last_message e) + 4)%nat)
  ∧ (se_truncated e = false → se_redacted e = false → se_last_message e = last_message)
  ∧ part_of_redacted last_message (se_last_message e)
  ∧ se_status e = status ∧ se_terminal_id e = terminal_id.
Proof.
  intros Hw e text. pose proof (redacted_good _ Hw) as Hg. pose proof (redact_text last_message) as Ht. fold text in Ht.
  destruct (redact_secrets last_message) as [out fired] eqn:Er. subst text. simpl in Ht.
  destruct (redact_facts _ _ _ Er) as (_ & _ & _ & Hh & Hs).
  assert (negb (bool_decide (fired = [])) = true ↔ scan_for_secrets last_message ≠ None) as Hred.
  { rewrite <- Hh. by destruct fired. }
  unfold e, build_envelope. rewrite Er. cbn [se_last_message se_truncated se_redacted se_status se_terminal_id fst].
  destruct (bool_decide_reflect (WORKFLOW_JOURNAL_RESULT_MAX_BYTES < String.length out)%nat) as [Hlong|Hshort].
  - destruct (decode_upto WORKFLOW_JOURNAL_RESULT_MAX_BYTES (text_of (redact_traced last_message)) Hg) as (k & Hk & Hlen).
    rewrite <- Ht in Hk, Hlen.
    refine (conj _ (conj _ (conj Hred (conj _ (conj _ (conj _ (conj _ (conj eq_refl eq_refl)))))))).
    + etrans; [apply decode_length|]. rewrite bytes_upto_length. lia.
    + by split.
    + done.
    + intros _. rewrite Hk. lia.
    + done.
    + rewrite Hk. unfold text_of. rewrite <- fmap_take. apply (part_redacted _ [] _ (drop k (redact_traced last_message))).
      by rewrite app_nil_l, take_drop.
  - refine (conj _ (conj _ (conj Hred (conj _ (conj _ (conj _ (conj _ (conj eq_refl eq_refl)))))))).
    + lia.
    + by split.
    + done.
    + done.
    + intros _ Hf. apply Hs. destruct (scan_for_secrets last_message) eqn:Es; [|done]. exfalso.
      by rewrite (proj2 Hred) in Hf.
    + rewrite Ht. apply (part_redacted _ [] _ []). by rewrite app_nil_l, app_nil_r.
Qed.

(** ** The error column *)

Lemma pretty_go_length_le x : ∀ y s t, (x ≤ y)%N → (String.length s ≤ String.length t)%nat →
  (String.length (pretty_N_go x s) ≤ String.length (pretty_N_go y t))%nat.
Proof.
  induction (N.lt_wf_0 x) as [x _ IH]. intros y s t Hxy Hst. destruct (decide (y = 0%N)) as [->|Hy].
  { assert (x = 0%N) as -> by lia. done. }
  rewrite (pretty_N_go_step y) by lia. destruct (decide (x = 0%N)) as [->|Hx].
  - rewrite pretty_N_go_0. clear IH Hxy Hy. revert t Hst. generalize (y `div` 10)%N, (pretty_N_char (y `mod` 10)).
    intros z c t Hst. assert (∀ z u, (String.length u ≤ String.length (pretty_N_go z u))%nat) as Hgrow.
    { clear. intros z. induction (N.lt_wf_0 z) as [z _ IH]. intros u. destruct (decide (z = 0%N)) as [->|Hz]; [done|].
      rewrite pretty_N_go_step by lia. etrans; [|apply IH, N.div_lt; lia]. simpl. lia. }
    etrans; [exact Hst|]. etrans; [|apply Hgrow]. simpl. lia.
  - rewrite (pretty_N_go_step x) by lia. apply IH; [apply N.div_lt; lia|by apply N.Div0.div_le_mono|]. simpl. lia.
Qed.

Lemma pretty_length_le (x y : nat) : (x ≤ y)%nat →
  (String.length (pretty (Z.of_nat x)) ≤ String.length (pretty (Z.of_nat y)))%nat.
Proof.
  intros Hxy. assert (∀ n : nat, (pretty (Z.of_nat n) : string) = pretty (N.of_nat n)) as Hn by (by intros []).
  rewrite !Hn. unfold pretty, pretty_N. destruct (decide (N.of_nat x = 0%N)) as [Hx|Hx], (decide (N.of_nat y = 0%N)); try lia.
  - etrans; [|apply (pretty_go_length_le 1 (N.of_nat y) "" ""); lia]. vm_compute. lia.
  - apply pretty_go_length_le; lia.
Qed.

Lemma marker_length_le x y : (x ≤ y)%nat →
  (String.length (_ERROR_TRUNCATION_MARKER x) ≤ String.length (_ERROR_TRUNCATION_MARKER y))%nat.
Proof.
  intros H%pretty_length_le. unfold _ERROR_TRUNCATION_MARKER. rewrite !string_length_app. lia.
Qed.

(** What the error column stores.  The stored error fits the bound, marker
    included; one that fits is stored whole; of a longer one the end is stored, from
    the beginning of a character, under a marker that counts exactly the bytes in
    front of it, and at most three more bytes are lost than the marker needs; no
    stretch of it that comes from the error is described by a pattern. *)
Theorem stored_errors_fit error stored :
  wellformed error → _sanitise_error (Some error) = Some stored →
  (String.length stored ≤ WORKFLOW_JOURNAL_RESULT_MAX_BYTES)%nat
  ∧ let text := (redact_secrets error).1 in
    let marker := _ERROR_TRUNCATION_MARKER (String.length text) in
    if bool_decide (String.length text ≤ WORKFLOW_JOURNAL_RESULT_MAX_BYTES)%nat then stored = text
    else (String.length marker < WORKFLOW_JOURNAL_RESULT_MAX_BYTES)%nat →
      ∃ dropped tail, stored = _ERROR_TRUNCATION_MARKER dropped +:+ tail
      ∧ (String.length text = dropped + String.length tail)%nat
      ∧ (WORKFLOW_JOURNAL_RESULT_MAX_BYTES < String.length marker + String.length tail + 4)%nat
      ∧ part_of_redacted error tail.
Proof.
  intros Hw. pose proof (redacted_good _ Hw) as Hg. pose proof (redact_text error) as Ht. unfold _sanitise_error.
  generalize dependent ((redact_secrets error).1). intros text Ht.
  destruct (bool_decide_reflect (String.length text ≤ WORKFLOW_JOURNAL_RESULT_MAX_BYTES)%nat) as [Hs|Hl]; [by intros [= <-]|].
  destruct (bool_decide_reflect (WORKFLOW_JOURNAL_RESULT_MAX_BYTES ≤ String.length (_ERROR_TRUNCATION_MARKER (String.length text)))%nat)
    as [Hc|Hc]; intros Hst; apply (inj Some) in Hst; subst stored.
  { split; [|intros; lia]. etrans; [apply decode_length|]. rewrite bytes_upto_length. lia. }
  set (reserve := String.length (_ERROR_TRUNCATION_MARKER (String.length text))) in *.
  destruct (decode_tail (String.length text - (WORKFLOW_JOURNAL_RESULT_MAX_BYTES - reserve)) (text_of (redact_traced error)) Hg)
    as (k & Hk & Hl1 & Hl2).
  rewrite <- Ht in Hk, Hl1, Hl2. set (tail := decode_ignore _) in *. rewrite <- Hk in Hl1, Hl2.
  pose proof (marker_length_le (String.length text - String.length tail) (String.length text) ltac:(lia)) as Hmk.
  fold reserve in Hmk. split; [rewrite string_length_app; lia|]. intros _.
  exists (String.length text - String.length tail)%nat, tail. split_and!; [done|lia|lia|].
  rewrite Hk. unfold text_of. rewrite <- fmap_drop. apply (part_redacted _ (take k (redact_traced error)) _ []).
  by rewrite app_nil_r, take_drop.
Qed.

(** The placeholder of a document that is too large fits the bound, as does every
    document that is not replaced. *)
Lemma stored_outputs_fit document :
  ∃ stored, _sanitise_output_json (Some document) = Some stored
  ∧ (stored = redact_json_leaves document ∧ (String.length (dumps_compact stored) ≤ WORKFLOW_JOURNAL_RESULT_MAX_BYTES)%nat
     ∨ ∃ n, stored = _output_placeholder "oversize" n ∧ (WORKFLOW_JOURNAL_RESULT_MAX_BYTES < n)%nat).
Proof.
  unfold _sanitise_output_json. destruct (bool_decide_reflect (WORKFLOW_JOURNAL_RESULT_MAX_BYTES <
    String.length (dumps_compact (redact_json_leaves document)))%nat); eexists; (split; [done|]); [right|left]; [by eexists|].
  split; [done|lia].
Qed.

Definition sample_result : string := "done: token AKIA0123456789ABCDEF — é".

Lemma envelopes_are_bounded_witness :
  wellformed sample_result
  ∧ part_of_redacted sample_result (se_last_message (build_envelope sample_result "completed" (Some "t1"%string))).
Proof.
  assert (wellformed sample_result) as Hw by (apply wellformed_eval; vm_compute; reflexivity).
  split; [exact Hw|]. exact (proj1 (proj2 (proj2 (proj2 (proj2 (proj2 (proj2
    (envelopes_are_bounded sample_result "completed" (Some "t1"%string) Hw)))))))).
Defined.

Example sample_envelope :
  let e := build_envelope sample_result "completed" (Some "t1"%string) in
  (se_last_message e, se_truncated e, se_redacted e) = ("done: [REDACTED:bearer_token] — é"%string, false, true).
Proof. vm_compute. reflexivity. Qed.

(** Three bytes of a text cut in the middle of its second character. *)
Example cut_in_a_character : decode_ignore (bytes_upto 3 ("é—x")) = "é" ∧ decode_ignore (bytes_from 1 "é—x") = "—x".
Proof. vm_compute. split; reflexivity. Qed.

Lemma stored_errors_fit_witness :
  _sanitise_error (Some sample_result) = Some "done: [REDACTED:bearer_token] — é"%string
  ∧ (String.length "done: [REDACTED:bearer_token] — é" ≤ WORKFLOW_JOURNAL_RESULT_MAX_BYTES)%nat.
Proof.
  assert (_sanitise_error (Some sample_result) = Some "done: [REDACTED:bearer_token] — é"%string) as Hs
    by (vm_compute; reflexivity).
  assert (wellformed sample_result) as Hw by (apply wellformed_eval; vm_compute; reflexivity).
  split; [exact Hs|]. exact (proj1 (stored_errors_fit sample_result _ Hw Hs)).
Defined.
