(* ===== verification/Json.v ===== *)
(** * JSON texts — [json.loads], against [json.dumps]

    [Envelope.dumps_compact] writes a document; this file reads one back, as Python's
    decoder does: white space, escapes and surrogate pairs, the grammar of numbers,
    repeated keys, and nothing after the value.  Numbers stay the text they are written
    as; the decoder's recursion is not bounded.  What [dumps_compact] writes is read
    back as it was. *)

From S2P Require Import Prelude Text Chars Secrets Envelope.

Definition dquote : ascii := ascii_of_nat 34.
Definition bslash : ascii := ascii_of_nat 92.

(** ** White space and strings *)

Definition json_space (c : ascii) : bool := bool_decide (byte_of c ∈ [32; 9; 10; 13]).
Fixpoint skip_ws (s : string) : string :=
  match s with String c rest => if json_space c then skip_ws rest else s | EmptyString => "" end.

Definition hex_value (c : ascii) : option Z :=
  let v := byte_of c in
  if (48 <=? v) && (v <=? 57) then Some (v - 48)
  else if (97 <=? v) && (v <=? 102) then Some (v - 87)
  else if (65 <=? v) && (v <=? 70) then Some (v - 55)
  else None.
Definition hex4_value (a b c d : ascii) : option Z :=
  x ← hex_value a; y ← hex_value b; z ← hex_value c; w ← hex_value d; Some (((x * 16 + y) * 16 + z) * 16 + w).
Definition simple_escape (c : ascii) : option ascii :=
  let v := byte_of c in
  if bool_decide (v ∈ [34; 92; 47]) then Some c
  else if v =? 98 then Some (ascii_of_nat 8) else if v =? 102 then Some (ascii_of_nat 12)
  else if v =? 110 then Some (ascii_of_nat 10) else if v =? 114 then Some (ascii_of_nat 13)
  else if v =? 116 then Some (ascii_of_nat 9) else None.
Definition is_high (v : Z) : bool := (0xD800 <=? v) && (v <=? 0xDBFF).
Definition is_low (v : Z) : bool := (0xDC00 <=? v) && (v <=? 0xDFFF).
Definition pair_point (high low : Z) : Z := 0x10000 + (high - 0xD800) * 1024 + (low - 0xDC00).

Definition before (t : string) (r : option (string * string)) : option (string * string) :=
  match r with Some (s, rest) => Some (t +:+ s, rest) | None => None end.
(** What follows an opening quote: the text, and what follows the closing one. *)
Fixpoint scan_string (s : string) : option (string * string) :=
  match s with
  | EmptyString => None
  | String c rest =>
      if decide (c = dquote) then Some ("", rest)
      else if decide (c = bslash) then
        match rest with
        | String e rest =>
            if byte_of e =? 117 then
              match rest with
              | String a (String b (String c (String d rest))) =>
                  match hex4_value a b c d with
                  | None => None
                  | Some v =>
                      let alone := before (utf8 v) (scan_string rest) in
                      if is_high v then
                        match rest with
                        | String bs (String u (String a' (String b' (String c' (String d' rest))))) =>
                            if bool_decide (bs = bslash) && (byte_of u =? 117) then
                              match hex4_value a' b' c' d' with
                              | Some w => if is_low w then before (utf8 (pair_point v w)) (scan_string rest) else alone
                              | None => alone
                              end
                            else alone
                        | _ => alone
                        end
                      else alone
                  end
              | _ => None
              end
            else match simple_escape e with Some x => before (String x "") (scan_string rest) | None => None end
        | EmptyString => None
        end
      else if byte_of c <? 32 then None
      else before (String c "") (scan_string rest)
  end.

(** ** Numbers *)

Definition digit (c : ascii) : bool := (48 <=? byte_of c) && (byte_of c <=? 57).
Fixpoint take_digits (s : string) : string * string :=
  match s with
  | String c rest => if digit c then let '(d, r) := take_digits rest in (String c d, r) else ("", s)
  | EmptyString => ("", "")
  end.
Definition take_sign (plus : bool) (s : string) : string * string :=
  match s with
  | String c rest => if (byte_of c =? 45) || plus && (byte_of c =? 43) then (String c "", rest) else ("", s)
  | EmptyString => ("", "")
  end.
(** The digits before the point; none when there is no number. *)
Definition take_int (s : string) : string * string :=
  match s with
  | String c rest => if byte_of c =? 48 then (String c "", rest) else take_digits s
  | EmptyString => ("", "")
  end.
Definition take_frac (s : string) : string * string :=
  match s with
  | String c rest =>
      if byte_of c =? 46 then let '(d, r) := take_digits rest in if decide (d = "") then ("", s) else (String c d, r) else ("", s)
  | EmptyString => ("", "")
  end.
Definition take_exp (s : string) : string * string :=
  match s with
  | String c rest =>
      if (byte_of c =? 101) || (byte_of c =? 69)
      then let '(sign, r) := take_sign true rest in
           let '(d, r) := take_digits r in if decide (d = "") then ("", s) else (String c (sign +:+ d), r)
      else ("", s)
  | EmptyString => ("", "")
  end.
Definition scan_number (s : string) : option (string * string) :=
  let '(sign, s) := take_sign false s in
  let '(int, s) := take_int s in
  if decide (int = "") then None else
  let '(frac, s) := take_frac s in
  let '(exp, s) := take_exp s in
  Some (sign +:+ int +:+ frac +:+ exp, s).

(** ** Values *)

Fixpoint drop_prefix (p s : string) : option string :=
  match p, s with
  | EmptyString, _ => Some s
  | String a p, String b s => if decide (a = b) then drop_prefix p s else None
  | String _ _, EmptyString => None
  end.
Definition literal (p : string) (v : json) (s : string) : option (json * string) := rest ← drop_prefix p s; Some (v, rest).
Definition first_of {A} (a b : option A) : option A := match a with Some _ => a | None => b end.
(** A value that is no string and no container. *)
Definition scan_scalar (s : string) : option (json * string) :=
  first_of (literal "null" JNull s) (first_of (literal "true" (JBool true) s) (first_of (literal "false" (JBool false) s)
  (first_of (literal "NaN" (JNum "NaN") s) (first_of (literal "Infinity" (JNum "Infinity") s)
  (first_of (literal "-Infinity" (JNum "-Infinity") s)
    ('(n, rest) ← scan_number s; Some (JNum n, rest))))))).
Definition dict_of (pairs : list (string * json)) : list (string * json) := foldl (λ d kv, dict_put kv.1 kv.2 d) [] pairs.

(** [elements] and [members] begin at the first of them. *)
Fixpoint scan_value (fuel : nat) (s : string) : option (json * string) :=
  match fuel, s with
  | S fuel, String c rest =>
      if decide (c = dquote) then '(t, rest) ← scan_string rest; Some (JStr t, rest)
      else if byte_of c =? 91 then
        match skip_ws rest with
        | String e after => if byte_of e =? 93 then Some (JArr [], after)
                            else '(l, rest) ← scan_elements fuel (String e after); Some (JArr l, rest)
        | EmptyString => None
        end
      else if byte_of c =? 123 then
        match skip_ws rest with
        | String e after => if byte_of e =? 125 then Some (JObj [], after)
                            else '(l, rest) ← scan_members fuel (String e after); Some (JObj (dict_of l), rest)
        | EmptyString => None
        end
      else scan_scalar s
  | _, _ => None
  end
with scan_elements (fuel : nat) (s : string) : option (list json * string) :=
  match fuel with
  | O => None
  | S fuel =>
      '(v, rest) ← scan_value fuel s;
      match skip_ws rest with
      | String c rest =>
          if byte_of c =? 93 then Some ([v], rest)
          else if byte_of c =? 44 then '(l, rest) ← scan_elements fuel (skip_ws rest); Some (v :: l, rest)
          else None
      | EmptyString => None
      end
  end
with scan_members (fuel : nat) (s : string) : option (list (string * json) * string) :=
  match fuel, s with
  | S fuel, String c rest =>
      if decide (c = dquote) then
        '(k, rest) ← scan_string rest;
        match skip_ws rest with
        | String c rest =>
            if byte_of c =? 58 then
              '(v, rest) ← scan_value fuel (skip_ws rest);
              match skip_ws rest with
              | String c rest =>
                  if byte_of c =? 125 then Some ([(k, v)], rest)
                  else if byte_of c =? 44 then '(l, rest) ← scan_members fuel (skip_ws rest); Some ((k, v) :: l, rest)
                  else None
              | EmptyString => None
              end
            else None
        | EmptyString => None
        end
      else None
  | _, _ => None
  end.
(** Every step of the scan is at most two away from a character it consumes. *)
Definition loads (s : string) : option json :=
  '(v, rest) ← scan_value (2 * String.length s + 2) (skip_ws s);
  if decide (skip_ws rest = "") then Some v else None.

(** ** Code points *)

(** A code point that a text can hold and UTF-8 can encode. *)
Definition scalar (cp : Z) : Prop := 0 ≤ cp < 0xD800 ∨ 0xE000 ≤ cp < 0x110000.
#[export] Instance scalar_dec cp : Decision (scalar cp). Proof. unfold scalar. apply _. Defined.
(** A Python text without surrogates, as its encoding. *)
Definition text_of_points (cps : list Z) : string := concat_text (utf8 <$> cps).
Definition valid_text (s : string) : Prop := ∃ cps, s = text_of_points cps ∧ Forall scalar cps.

Lemma byte_of_ascii v : 0 ≤ v < 256 → byte_of (ascii_of_N (Z.to_N v)) = v.
Proof. intros H. unfold byte_of. rewrite N_ascii_embedding by lia. lia. Qed.

Ltac bits := rewrite ?(Z.land_ones _ 6), ?(Z.land_ones _ 4), ?(Z.land_ones _ 10), ?Z.shiftr_div_pow2 by lia;
  change (2 ^ 4) with 16; change (2 ^ 6) with 64; change (2 ^ 12) with 4096; change (2 ^ 18) with 262144; change (2 ^ 10) with 1024;
  change (2 ^ 8) with 256; change (2 ^ 0) with 1.
Ltac divs := Z.to_euclidean_division_equations; lia.

(** The bytes of an encoded code point. *)
Definition tail_byte (v : Z) : Z := 0x80 + Z.land v 0x3F.
Lemma tail_byte_eq v : tail_byte v = 128 + v mod 64.
Proof. unfold tail_byte. change 0x3F with (Z.ones 6). by rewrite Z.land_ones by lia. Qed.
Definition encoded (cp : Z) : list Z :=
  if cp <? 0x80 then [cp]
  else if cp <? 0x800 then [0xC0 + Z.shiftr cp 6; tail_byte cp]
  else if cp <? 0x10000 then [0xE0 + Z.shiftr cp 12; tail_byte (Z.shiftr cp 6); tail_byte cp]
  else [0xF0 + Z.shiftr cp 18; tail_byte (Z.shiftr cp 12); tail_byte (Z.shiftr cp 6); tail_byte cp].
Lemma utf8_encoded cp : utf8 cp = String.string_of_list_ascii ((λ v, ascii_of_N (Z.to_N v)) <$> encoded cp).
Proof. unfold utf8, encoded. by destruct (cp <? 0x80), (cp <? 0x800), (cp <? 0x10000). Qed.
Lemma encoded_bytes cp : 0 ≤ cp < 0x110000 → Forall (λ v, 0 ≤ v < 256) (encoded cp).
Proof.
  intros H. unfold encoded. rewrite !tail_byte_eq, !Z.shiftr_div_pow2 by lia.
  change (2 ^ 6) with 64; change (2 ^ 12) with 4096; change (2 ^ 18) with 262144.
  destruct (Z.ltb_spec cp 0x80); [|destruct (Z.ltb_spec cp 0x800); [|destruct (Z.ltb_spec cp 0x10000)]];
    repeat (constructor; [divs|]); constructor.
Qed.
Lemma list_of_utf8 cp : 0 ≤ cp < 0x110000 → byte_of <$> String.list_ascii_of_string (utf8 cp) = encoded cp.
Proof.
  intros H. rewrite utf8_encoded, String.list_ascii_of_string_of_list_ascii, <-list_fmap_compose.
  pose proof (encoded_bytes cp H) as Hb. induction Hb as [|v l Hv Hl IH]; [done|]. simpl. f_equal; [by apply byte_of_ascii|done].
Qed.
Lemma code_point_utf8 cp : 0 ≤ cp < 0x110000 → code_point (utf8 cp) = cp.
Proof.
  intros H. unfold code_point. rewrite list_of_utf8 by done. unfold encoded. rewrite !tail_byte_eq, !Z.shiftr_div_pow2 by lia.
  change (2 ^ 6) with 64; change (2 ^ 12) with 4096; change (2 ^ 18) with 262144.
  destruct (Z.ltb_spec cp 0x80); [done|destruct (Z.ltb_spec cp 0x800); [|destruct (Z.ltb_spec cp 0x10000)]]; divs.
Qed.
Lemma continuation_range b : is_continuation b = (128 <=? byte_of b) && (byte_of b <? 192).
Proof. by destruct b as [[] [] [] [] [] [] [] []]. Qed.
Lemma tail_continues v : is_continuation (ascii_of_N (Z.to_N (tail_byte v))) = true.
Proof. rewrite continuation_range, tail_byte_eq, byte_of_ascii by divs. apply andb_true_iff. split; [apply Z.leb_le|apply Z.ltb_lt]; divs. Qed.
(** A character is its first byte and as many continuation bytes as that asks for. *)
Lemma good_bytes v x : 0 ≤ v < 256 → String.length (String (ascii_of_N (Z.to_N v)) x) = width (ascii_of_N (Z.to_N v)) →
  (v < 128 ∨ 192 ≤ v) → continued x = true → good (String (ascii_of_N (Z.to_N v)) x).
Proof.
  intros Hv Hw Hr Hx. split_and!; [by apply bool_decide_eq_true|done|]. simpl. rewrite continuation_range, byte_of_ascii by done.
  apply andb_false_iff. rewrite Z.leb_gt, Z.ltb_ge. lia.
Qed.
Lemma utf8_good cp : scalar cp → good (utf8 cp).
Proof.
  intros Hs. assert (0 ≤ cp < 0x110000) as H by (unfold scalar in Hs; lia). rewrite utf8_encoded.
  pose proof (encoded_bytes cp H) as Hb. unfold encoded in *.
  rewrite !Z.shiftr_div_pow2 in * by lia. change (2 ^ 6) with 64 in *; change (2 ^ 12) with 4096 in *; change (2 ^ 18) with 262144 in *.
  destruct (Z.ltb_spec cp 0x80); [|destruct (Z.ltb_spec cp 0x800); [|destruct (Z.ltb_spec cp 0x10000)]]; cbn [fmap list_fmap String.string_of_list_ascii];
    apply Forall_cons in Hb as [Hb _]; apply good_bytes; try done; try (cbn [continued]; by rewrite ?tail_continues); try divs;
    unfold width; rewrite byte_of_ascii by done; simpl String.length.
  - by rewrite (proj2 (Z.ltb_lt _ _)) by lia.
  - rewrite (proj2 (Z.ltb_ge _ _)), (proj2 (Z.ltb_ge _ _)), (proj2 (Z.ltb_lt _ _)) by divs. done.
  - rewrite !(proj2 (Z.ltb_ge _ _)) by divs. by rewrite (proj2 (Z.ltb_lt _ _)) by divs.
  - rewrite !(proj2 (Z.ltb_ge _ _)) by divs. by rewrite (proj2 (Z.ltb_lt _ _)) by divs.
Qed.
Lemma chars_of_points cps : Forall scalar cps → chars (text_of_points cps) = utf8 <$> cps.
Proof. intros H. apply good_chars, Forall_fmap. eapply Forall_impl; [exact H|]. apply utf8_good. Qed.

(** ** Strings are read back *)

Lemma append_cons c (s t : string) : String c s +:+ t = String c (s +:+ t).
Proof. reflexivity. Qed.
Lemma concat_cons c l : concat_text (c :: l) = c +:+ concat_text l.
Proof. reflexivity. Qed.
Lemma append_nil (t : string) : "" +:+ t = t.
Proof. reflexivity. Qed.

Definition hex_digit (n : Z) : ascii := ascii_of_N (Z.to_N (if n <? 10 then 48 + n else 87 + n)).
Lemma hex_value_digit n : 0 ≤ n < 16 → hex_value (hex_digit n) = Some n.
Proof.
  intros H. assert (Forall (λ n, hex_value (hex_digit n) = Some n) (seqZ 0 16)) as Ha by (vm_compute; repeat constructor).
  rewrite Forall_forall in Ha. apply Ha, elem_of_seqZ. lia.
Qed.
Definition nibble (v k : Z) : Z := Z.land (Z.shiftr v k) 15.
Lemma nibble_eq v k : 0 ≤ k → nibble v k = (v / 2 ^ k) mod 16.
Proof. intros Hk. unfold nibble. change 15 with (Z.ones 4). by rewrite Z.land_ones, Z.shiftr_div_pow2 by lia. Qed.
Lemma hex4_digits v : hex4 v = String.string_of_list_ascii (hex_digit <$> [nibble v 12; nibble v 8; nibble v 4; nibble v 0]).
Proof. reflexivity. Qed.
Lemma hex4_read v t : 0 ≤ v < 0x10000 → ∃ a b c d, hex4 v +:+ t = String a (String b (String c (String d t))) ∧ hex4_value a b c d = Some v.
Proof.
  intros H. rewrite hex4_digits. eexists _, _, _, _. split; [reflexivity|]. unfold hex4_value.
  rewrite !hex_value_digit by (rewrite nibble_eq by lia; apply Z.mod_pos_bound; lia). simpl. f_equal. rewrite !nibble_eq by lia.
  change (2 ^ 12) with 4096; change (2 ^ 8) with 256; change (2 ^ 4) with 16; change (2 ^ 0) with 1. divs.
Qed.

Definition backslash_u : string := String bslash "u".
Lemma scan_unicode v t : 0 ≤ v < 0x10000 → is_high v = false →
  scan_string (backslash_u +:+ hex4 v +:+ t) = before (utf8 v) (scan_string t).
Proof.
  intros Hv Hh. destruct (hex4_read v t Hv) as (a & b & c & d & E & Hx). unfold backslash_u. rewrite !append_cons, append_nil, E.
  cbn [scan_string]. rewrite decide_False by done. rewrite decide_True by done. change (byte_of "u" =? 117) with true. cbv iota.
  by rewrite Hx, Hh.
Qed.
Lemma scan_pair v t : 0x10000 ≤ v < 0x110000 → let w := v - 0x10000 in
  scan_string (backslash_u +:+ hex4 (0xD800 + Z.shiftr w 10) +:+ backslash_u +:+ hex4 (0xDC00 + Z.land w 0x3FF) +:+ t)
  = before (utf8 v) (scan_string t).
Proof.
  intros Hv w. change 0x3FF with (Z.ones 10). rewrite Z.land_ones, Z.shiftr_div_pow2 by lia. change (2 ^ 10) with 1024.
  assert (0 ≤ w < 1048576) as Hw by lia.
  destruct (hex4_read (0xDC00 + w mod 1024) t) as (a' & b' & c' & d' & E' & Hx'); [divs|].
  destruct (hex4_read (0xD800 + w / 1024) (String bslash (String "u" (String a' (String b' (String c' (String d' t)))))))
    as (a & b & c & d & E & Hx); [divs|].
  unfold backslash_u. rewrite !append_cons, !append_nil, E', E.
  cbn [scan_string]. rewrite decide_False by done. rewrite decide_True by done. change (byte_of "u" =? 117) with true. cbv iota.
  rewrite Hx, Hx'. assert (is_high (0xD800 + w / 1024) = true) as ->
    by (unfold is_high; apply andb_true_iff; split; apply Z.leb_le; divs).
  rewrite bool_decide_true by done. cbn [andb]. assert (is_low (0xDC00 + w mod 1024) = true) as ->
    by (unfold is_low; apply andb_true_iff; split; apply Z.leb_le; divs).
  f_equal. f_equal. unfold pair_point. divs.
Qed.
Lemma scan_plain b t : b ≠ dquote → b ≠ bslash → 32 ≤ byte_of b → scan_string (String b t) = before (String b "") (scan_string t).
Proof.
  intros H1 H2 H3. cbn [scan_string]. rewrite !decide_False by done. by rewrite (proj2 (Z.ltb_ge _ _)) by lia.
Qed.
Lemma scan_simple e x t : byte_of e ≠ 117 → simple_escape e = Some x →
  scan_string (String bslash (String e t)) = before (String x "") (scan_string t).
Proof.
  intros H1 H2. cbn [scan_string]. rewrite decide_False by done. rewrite decide_True by done.
  rewrite (proj2 (Z.eqb_neq _ _)) by done. by rewrite H2.
Qed.

Lemma scan_escaped cp t : scalar cp → scan_string (escape_char (utf8 cp) +:+ t) = before (utf8 cp) (scan_string t).
Proof.
  intros Hs. assert (0 ≤ cp < 0x110000) as H by (unfold scalar in Hs; lia). unfold escape_char. rewrite code_point_utf8 by done.
  assert (∀ k x, cp = k → utf8 k = String x "" → ∀ e, byte_of e ≠ 117 → simple_escape e = Some x →
    scan_string (String bslash (String e t)) = before (utf8 cp) (scan_string t)) as Hsimple.
  { intros k x -> -> e. apply scan_simple. }
  destruct (Z.eqb_spec cp 34); [by eapply Hsimple|]. destruct (Z.eqb_spec cp 92); [by eapply Hsimple|].
  destruct (Z.eqb_spec cp 10); [by eapply Hsimple|]. destruct (Z.eqb_spec cp 13); [by eapply Hsimple|].
  destruct (Z.eqb_spec cp 9); [by eapply Hsimple|]. destruct (Z.eqb_spec cp 12); [by eapply Hsimple|].
  destruct (Z.eqb_spec cp 8); [by eapply Hsimple|].
  assert (∀ v t, backslash +:+ "u" +:+ hex4 v +:+ t = backslash_u +:+ hex4 v +:+ t) as Hu by done.
  destruct (Z.ltb_spec cp 32).
  { rewrite <-!string_app_assoc, Hu. apply scan_unicode; [lia|]. unfold is_high. apply andb_false_iff. left. apply Z.leb_gt. lia. }
  destruct (Z.ltb_spec cp 127).
  { assert (utf8 cp = String (ascii_of_N (Z.to_N cp)) "") as -> by (unfold utf8; by rewrite (proj2 (Z.ltb_lt _ _)) by lia).
    assert (byte_of (ascii_of_N (Z.to_N cp)) = cp) as Hb by (apply byte_of_ascii; lia). rewrite append_cons, append_nil.
    apply scan_plain; [intros Hq; rewrite Hq in Hb; vm_compute in Hb; lia..|lia]. }
  destruct (Z.ltb_spec cp 0x10000).
  - rewrite <-!string_app_assoc, Hu. apply scan_unicode; [lia|]. unfold is_high, scalar in *. apply andb_false_iff. rewrite !Z.leb_gt. lia.
  - rewrite <-!string_app_assoc, !Hu. apply scan_pair. lia.
Qed.
Lemma scan_quoted cps t : Forall scalar cps →
  scan_string (concat_text (escape_char <$> (utf8 <$> cps)) +:+ String dquote t) = Some (text_of_points cps, t).
Proof.
  induction 1 as [|cp cps Hcp Hcps IH]; [done|]. unfold text_of_points in *. rewrite !fmap_cons, !concat_cons, <-string_app_assoc.
  rewrite scan_escaped by done. by rewrite IH.
Qed.
Lemma quoted_read s t : valid_text s → ∃ u, quoted s +:+ t = String dquote u ∧ scan_string u = Some (s, t).
Proof.
  intros (cps & -> & H). unfold quoted. rewrite chars_of_points by done.
  exists (concat_text (escape_char <$> (utf8 <$> cps)) +:+ String dquote t). split; [|by apply scan_quoted].
  cbv zeta. fold dquote. rewrite !append_cons, append_nil, <-string_app_assoc. by rewrite append_cons, append_nil.
Qed.

(** ** Numbers are read back *)

(** What may follow a value inside a document. *)
Definition stops (rest : string) : Prop :=
  match rest with EmptyString => True | String c _ => byte_of c ∈ [44; 93; 125] end.
Lemma stops_byte c rest : stops (String c rest) → byte_of c = 44 ∨ byte_of c = 93 ∨ byte_of c = 125.
Proof. simpl. rewrite !elem_of_cons, elem_of_nil. tauto. Qed.
Definition local (g : string → string * string) : Prop :=
  ∀ s rest, stops rest → g (s +:+ rest) = ((g s).1, (g s).2 +:+ rest).

Ltac stopped := match goal with H : stops (String ?c ?r) |- _ => pose proof (stops_byte c r H) end.
Lemma digit_stops c rest : stops (String c rest) → digit c = false.
Proof. intros H. stopped. unfold digit. apply andb_false_iff. rewrite !Z.leb_gt. lia. Qed.
Lemma local_digits : local take_digits.
Proof.
  intros s rest Hr. induction s as [|c s IH].
  - destruct rest as [|c rest]; [done|]. cbn [take_digits]. rewrite append_nil. cbn [take_digits]. by rewrite (digit_stops _ _ Hr).
  - rewrite append_cons. cbn [take_digits]. destruct (digit c); [|by rewrite <-append_cons]. rewrite IH. by destruct (take_digits s).
Qed.
Lemma local_sign plus : local (take_sign plus).
Proof.
  intros [|c s] rest Hr.
  - destruct rest as [|c rest]; [done|]. rewrite append_nil. cbn [take_sign]. stopped.
    rewrite !(proj2 (Z.eqb_neq _ _)) by lia. by rewrite andb_false_r.
  - rewrite append_cons. cbn [take_sign]. destruct (_ || _); [done|by rewrite <-append_cons].
Qed.
Lemma local_int : local take_int.
Proof.
  intros [|c s] rest Hr.
  - destruct rest as [|c rest]; [done|]. rewrite append_nil. cbn [take_int]. pose proof (digit_stops _ _ Hr) as Hd. stopped.
    rewrite (proj2 (Z.eqb_neq _ _)) by lia. cbn [take_digits]. by rewrite Hd.
  - rewrite append_cons. unfold take_int at 1 2 3. destruct (_ =? _); [done|]. rewrite <-append_cons. by apply local_digits.
Qed.
Lemma local_frac : local take_frac.
Proof.
  intros [|c s] rest Hr.
  - destruct rest as [|c rest]; [done|]. rewrite append_nil. cbn [take_frac]. stopped. by rewrite (proj2 (Z.eqb_neq _ _)) by lia.
  - rewrite append_cons. cbn [take_frac]. destruct (_ =? _); [|by rewrite <-append_cons]. rewrite local_digits by done.
    destruct (take_digits s) as [d r]. simpl. case_decide; [by rewrite <-append_cons|done].
Qed.
Lemma local_exp : local take_exp.
Proof.
  intros [|c s] rest Hr.
  - destruct rest as [|c rest]; [done|]. rewrite append_nil. cbn [take_exp]. stopped. by rewrite !(proj2 (Z.eqb_neq _ _)) by lia.
  - rewrite append_cons. cbn [take_exp]. destruct (_ || _); [|by rewrite <-append_cons]. rewrite local_sign by done.
    destruct (take_sign true s) as [sg r]. cbn [fst snd]. rewrite local_digits by done.
    destruct (take_digits r) as [d r']. cbn [fst snd]. case_decide; [by rewrite <-append_cons|done].
Qed.

(** The texts of JSON's grammar of numbers. *)
Definition number_text (t : string) : Prop := scan_number t = Some (t, "").
Lemma scan_number_local s rest : stops rest → is_Some (scan_number s) →
  scan_number (s +:+ rest) = '(n, r) ← scan_number s; Some (n, r +:+ rest).
Proof.
  intros Hr Hs. unfold scan_number in *. rewrite local_sign by done. destruct (take_sign false s) as [sg s1]. cbn [fst snd].
  rewrite local_int by done. destruct (take_int s1) as [i s2]. cbn [fst snd]. case_decide; [by destruct Hs|].
  rewrite local_frac by done. destruct (take_frac s2) as [f s3]. cbn [fst snd].
  rewrite local_exp by done. by destruct (take_exp s3) as [e s4].
Qed.
Lemma number_read t rest : number_text t → stops rest → scan_number (t +:+ rest) = Some (t, rest).
Proof. intros Ht Hr. rewrite scan_number_local by (by rewrite ?Ht). by rewrite Ht. Qed.
(** A number begins with a digit, or a minus and a digit. *)
Lemma take_int_first s i r : take_int s = (i, r) → i ≠ "" → ∃ c s', s = String c s' ∧ digit c = true.
Proof.
  destruct s as [|c s]; [by intros [= <-]|]. cbn [take_int]. intros H Hi. exists c, s. split; [done|].
  destruct (Z.eqb_spec (byte_of c) 48); [unfold digit; apply andb_true_iff; split; apply Z.leb_le; lia|].
  revert H. cbn [take_digits]. destruct (digit c); [done|]. by intros [= <- <-].
Qed.
Lemma number_first t : number_text t → ∃ c s, t = String c s ∧
  (digit c = true ∨ byte_of c = 45 ∧ ∃ c' s', s = String c' s' ∧ digit c' = true).
Proof.
  unfold number_text, scan_number. destruct t as [|c s]; [done|]. cbn [take_sign]. rewrite andb_false_l, orb_false_r.
  destruct (Z.eqb_spec (byte_of c) 45).
  - destruct (take_int s) as [i r] eqn:Hi. case_decide; [done|]. intros _.
    destruct (take_int_first _ _ _ Hi) as (c' & s' & -> & Hc); [done|]. exists c, (String c' s'). eauto 10.
  - destruct (take_int (String c s)) as [i r] eqn:Hi. case_decide; [done|]. intros _.
    destruct (take_int_first _ _ _ Hi) as (c' & s' & [= -> ->] & Hc); [done|]. eauto 10.
Qed.

(** ** Documents are read back *)

(** A document that JSON can write and read: numbers of its grammar, texts without
    surrogates, and no key twice. *)
Inductive plain : json → Prop :=
| plain_null : plain JNull
| plain_bool b : plain (JBool b)
| plain_num t : number_text t → plain (JNum t)
| plain_str s : valid_text s → plain (JStr s)
| plain_arr l : Forall plain l → plain (JArr l)
| plain_obj l : NoDup l.*1 → Forall valid_text l.*1 → Forall plain l.*2 → plain (JObj l).

Lemma drop_prefix_head a p c s : byte_of a ≠ byte_of c → drop_prefix (String a p) (String c s) = None.
Proof. intros H. cbn [drop_prefix]. rewrite decide_False; [done|]. by intros ->. Qed.
Lemma scan_scalar_number t rest : number_text t → stops rest → scan_scalar (t +:+ rest) = Some (JNum t, rest).
Proof.
  intros Ht Hr. unfold scan_scalar. rewrite (number_read _ _ Ht Hr).
  assert (∀ p v, (∃ a b p', p = String a (String b p') ∧ ((digit a = false ∧ byte_of a ≠ 45) ∨ byte_of a = 45 ∧ digit b = false)) →
    literal p v (t +:+ rest) = None) as Hl.
  { intros p v (a & b & p' & -> & Ha). unfold literal. destruct (number_first t Ht) as (c & s & -> & Hc). rewrite append_cons.
    destruct (decide (byte_of a = byte_of c)) as [E|E]; [|by rewrite drop_prefix_head].
    assert (digit a = digit c) as Hd by (unfold digit; by rewrite E).
    destruct Ha as [[Ha Ha']|[Ha Ha']], Hc as [Hc|(Hc & c' & s' & -> & Hc')]; try congruence.
    - unfold digit in Hc. rewrite <-E, Ha in Hc. done.
    - cbn [drop_prefix]. destruct (decide (a = c)); [|done]. rewrite append_cons. cbn [drop_prefix].
      rewrite decide_False; [done|]. intros ->. congruence. }
  rewrite !Hl by (eexists _, _, _; split; [reflexivity|]; first [by left | by right]). done.
Qed.

Lemma joining_cons sep x l : join_with sep (x :: l) = x +:+ concat_text ((λ y, sep +:+ y) <$> l).
Proof.
  unfold join_with. revert x. induction l as [|y l IH]; intros x; simpl; [by rewrite string_app_nil_r|].
  rewrite IH. by rewrite !string_app_assoc.
Qed.
Lemma join_cons2 x y l : join_with "," (x :: y :: l) = x +:+ String "," (join_with "," (y :: l)).
Proof. rewrite !joining_cons, fmap_cons, concat_cons. by rewrite append_cons, append_nil. Qed.
Lemma dumps_arr l : dumps_compact (JArr l) = "[" +:+ join_with "," (dumps_compact <$> l) +:+ "]".
Proof. reflexivity. Qed.
Definition dumps_pair (kv : string * json) : string := quoted kv.1 +:+ ":" +:+ dumps_compact kv.2.
Lemma dumps_obj l : dumps_compact (JObj l) = "{" +:+ join_with "," (dumps_pair <$> l) +:+ "}".
Proof. cbn [dumps_compact]. do 3 f_equal. induction l as [|[k v] l IH]; [done|]. exact (f_equal (cons (dumps_pair (k, v))) IH). Qed.

Lemma dict_put_new {A} k (v : A) d : k ∉ d.*1 → dict_put k v d = d ++ [(k, v)].
Proof.
  induction d as [|[k' v'] d IH]; [done|]. simpl. rewrite not_elem_of_cons. intros [Hk Hd]. rewrite decide_False by done. by rewrite IH.
Qed.
Lemma dict_of_distinct l : NoDup l.*1 → dict_of l = l.
Proof.
  intros H. unfold dict_of. assert (∀ d : list (string * json), NoDup (d ++ l).*1 → foldl (λ d kv, dict_put kv.1 kv.2 d) d l = d ++ l) as Hd.
  { clear H. induction l as [|[k v] l IH]; intros d Hd; simpl; [by rewrite app_nil_r|].
    rewrite dict_put_new; [rewrite IH; [by rewrite <-app_assoc|by rewrite <-app_assoc]|].
    rewrite fmap_app in Hd. apply NoDup_app in Hd as (_ & Hd & _). intros Hk. apply (Hd _ Hk). by left. }
  by apply Hd.
Qed.

(** The first character a document is written with is no white space. *)
Definition solid (s : string) : Prop := match s with String c _ => json_space c = false ∧ byte_of c ≠ 93 ∧ byte_of c ≠ 125 | _ => False end.
Lemma skip_solid s : solid s → skip_ws s = s.
Proof. destruct s as [|c s]; [done|]. intros [H _]. cbn [skip_ws]. by rewrite H. Qed.
Lemma solid_app s t : solid s → solid (s +:+ t).
Proof. by destruct s. Qed.
Lemma quoted_solid s : solid (quoted s).
Proof. done. Qed.
Lemma dumps_solid d : plain d → solid (dumps_compact d).
Proof.
  intros [|[]|t Ht|s Hs|l Hl|l Hk Hv Hp]; try done.
  destruct (number_first t Ht) as (c & s & -> & Hc). simpl. unfold json_space, digit in *.
  assert (byte_of c = 45 ∨ 48 ≤ byte_of c ≤ 57) as Hb.
  { destruct Hc as [Hc|[Hc _]]; [right|by left]. apply andb_true_iff in Hc as [?%Z.leb_le ?%Z.leb_le]. lia. }
  split; [|lia]. apply bool_decide_eq_false. rewrite !elem_of_cons, elem_of_nil. lia.
Qed.
Lemma stops_solid rest : stops rest → skip_ws rest = rest.
Proof.
  destruct rest as [|c rest]; [done|]. intros H%stops_byte. cbn [skip_ws]. unfold json_space. rewrite bool_decide_false; [done|].
  rewrite !elem_of_cons, elem_of_nil. lia.
Qed.

(** The texts between the brackets. *)
Definition elements_text (l : list json) : string := join_with "," (dumps_compact <$> l).
Definition members_text (l : list (string * json)) : string := join_with "," (dumps_pair <$> l).
Notation size s := (String.length s).

Lemma stops_close b rest : byte_of b = 93 ∨ byte_of b = 125 ∨ byte_of b = 44 → stops (String b rest).
Proof. simpl. rewrite !elem_of_cons, elem_of_nil. lia. Qed.
Lemma skip_close b rest : byte_of b = 93 ∨ byte_of b = 125 ∨ byte_of b = 44 → skip_ws (String b rest) = String b rest.
Proof. intros H. by apply stops_solid, stops_close. Qed.

Lemma pair_text k v : dumps_pair (k, v) = quoted k +:+ String ":" (dumps_compact v).
Proof. reflexivity. Qed.
Lemma pair_solid kv : solid (dumps_pair kv).
Proof. by destruct kv as [k v]. Qed.
Lemma elements_solid v l : plain v → solid (elements_text (v :: l)).
Proof. intros Hv. unfold elements_text. rewrite fmap_cons, joining_cons. by apply solid_app, dumps_solid. Qed.
Lemma members_solid kv l : solid (members_text (kv :: l)).
Proof. unfold members_text. rewrite fmap_cons, joining_cons. apply solid_app, pair_solid. Qed.

Definition value_reads (fuel : nat) : Prop := ∀ d rest, plain d → stops rest → (2 * size (dumps_compact d) ≤ fuel)%nat →
  scan_value fuel (dumps_compact d +:+ rest) = Some (d, rest).
Definition elements_read (fuel : nat) : Prop := ∀ v l rest, Forall plain (v :: l) → (2 * size (elements_text (v :: l)) + 1 ≤ fuel)%nat →
  scan_elements fuel (elements_text (v :: l) +:+ String "]" rest) = Some (v :: l, rest).
Definition members_read (fuel : nat) : Prop := ∀ kv l rest, Forall valid_text (kv :: l).*1 → Forall plain (kv :: l).*2 →
  (2 * size (members_text (kv :: l)) + 1 ≤ fuel)%nat →
  scan_members fuel (members_text (kv :: l) +:+ String "}" rest) = Some (kv :: l, rest).

Lemma elements_step fuel : value_reads fuel → elements_read fuel → elements_read (S fuel).
Proof.
  intros IHv IHe v l rest Hl Hf. cbn [scan_elements]. apply Forall_cons in Hl as [Hv Hl]. destruct l as [|w l].
  - change (elements_text [v]) with (dumps_compact v) in *. rewrite IHv; [|done|by apply stops_close; left|lia]. done.
  - assert (elements_text (v :: w :: l) = dumps_compact v +:+ String "," (elements_text (w :: l))) as E by apply join_cons2.
    rewrite E in Hf |- *. rewrite string_length_app in Hf. cbn [String.length] in Hf. rewrite <-string_app_assoc, append_cons.
    rewrite IHv; [|done|by apply stops_close; right; right|lia]. cbn [mbind option_bind].
    rewrite skip_close by by right; right. simpl. rewrite skip_solid by (apply solid_app, elements_solid; by apply Forall_cons in Hl as []).
    rewrite IHe; [done|done|lia].
Qed.
Lemma members_step fuel : value_reads fuel → members_read fuel → members_read (S fuel).
Proof.
  intros IHv IHm [k v] l rest Hk Hv Hf. apply Forall_cons in Hk as [Hk Hks]. apply Forall_cons in Hv as [Hv Hvs]. simpl in Hk, Hv.
  assert (Hstep : ∀ tail, stops tail → (2 * size (dumps_compact v) ≤ fuel)%nat → ∃ u, dumps_pair (k, v) +:+ tail = String dquote u ∧
    scan_members (S fuel) (String dquote u) = match tail with
      | String c rest => if byte_of c =? 125 then Some ([(k, v)], rest)
          else if byte_of c =? 44 then '(l, rest) ← scan_members fuel (skip_ws rest); Some ((k, v) :: l, rest) else None
      | EmptyString => None end).
  { intros tail Ht Hfv. rewrite pair_text, <-string_app_assoc, append_cons.
    destruct (quoted_read k (String ":" (dumps_compact v +:+ tail)) Hk) as (u & Eu & Hu). exists u. split; [done|].
    cbn [scan_members]. rewrite decide_True by done. rewrite Hu. cbn [mbind option_bind].
    change (skip_ws (String ":" (dumps_compact v +:+ tail))) with (String ":" (dumps_compact v +:+ tail)). cbv iota.
    change (byte_of ":" =? 58) with true. cbv iota. rewrite skip_solid by by apply solid_app, dumps_solid.
    rewrite IHv by done. cbn [mbind option_bind]. by rewrite stops_solid. }
  destruct l as [|kv l].
  - change (members_text [(k, v)]) with (dumps_pair (k, v)) in *. rewrite pair_text, string_length_app in Hf. cbn [String.length] in Hf.
    destruct (Hstep (String "}" rest)) as (u & -> & ->); [apply stops_close; by right; left|lia|]. done.
  - assert (members_text ((k, v) :: kv :: l) = dumps_pair (k, v) +:+ String "," (members_text (kv :: l))) as E by apply join_cons2.
    rewrite E in Hf |- *. rewrite string_length_app, pair_text, string_length_app in Hf. cbn [String.length] in Hf.
    rewrite <-string_app_assoc, append_cons.
    destruct (Hstep (String "," (members_text (kv :: l) +:+ String "}" rest))) as (u & -> & ->);
      [apply stops_close; by right; right|lia|].
    simpl. rewrite skip_solid by apply solid_app, members_solid. rewrite IHm; [done|done|done|lia].
Qed.
Lemma value_step fuel : elements_read fuel → members_read fuel → value_reads (S fuel).
Proof.
  intros IHe IHm d rest Hd Hr Hf. assert (∀ c s, digit c = true ∨ byte_of c = 45 → scan_value (S fuel) (String c s) = scan_scalar (String c s)) as Hscalar.
  { intros c s Hc. assert (byte_of c = 45 ∨ 48 ≤ byte_of c ≤ 57) as Hb.
    { destruct Hc as [Hc|]; [right|by left]. apply andb_true_iff in Hc as [?%Z.leb_le ?%Z.leb_le]. lia. }
    cbn [scan_value]. rewrite decide_False by (intros ->; change (byte_of dquote) with 34 in Hb; lia).
    by rewrite !(proj2 (Z.eqb_neq _ _)) by lia. }
  destruct Hd as [|[]|t Ht|s Hs|l Hl|l Hn Hk Hv]; [done..| | | |].
  - change (dumps_compact (JNum t)) with t. rewrite <-(scan_scalar_number t rest) by done.
    destruct (number_first t Ht) as (c & s & -> & Hc). rewrite append_cons. apply Hscalar. tauto.
  - destruct (quoted_read s rest Hs) as (u & Eu & Hu). change (dumps_compact (JStr s)) with (quoted s). rewrite Eu.
    cbn [scan_value]. rewrite decide_True by done. by rewrite Hu.
  - rewrite dumps_arr in Hf |- *. fold (elements_text l) in *. rewrite <-!string_app_assoc, append_cons, append_nil.
    rewrite !string_length_app in Hf. cbn [String.length] in Hf. cbn [scan_value]. rewrite decide_False by done.
    change (byte_of "[" =? 91) with true. cbv iota. rewrite append_cons, append_nil. destruct l as [|v l]; [done|].
    assert (solid (elements_text (v :: l))) as Hsol by (apply elements_solid; by apply Forall_cons in Hl as []).
    rewrite skip_solid by by apply solid_app. destruct (elements_text (v :: l)) as [|c s] eqn:E; [done|]. rewrite append_cons.
    rewrite (proj2 (Z.eqb_neq _ _)) by apply Hsol. rewrite <-append_cons, <-E, IHe; [done|done|]. rewrite E. simpl in *. lia.
  - rewrite dumps_obj in Hf |- *. fold (members_text l) in *. rewrite <-!string_app_assoc, append_cons, append_nil.
    rewrite !string_length_app in Hf. cbn [String.length] in Hf. cbn [scan_value]. rewrite decide_False by done.
    change (byte_of "{" =? 91) with false. change (byte_of "{" =? 123) with true. cbv iota. rewrite append_cons, append_nil.
    destruct l as [|kv l]; [done|].
    assert (solid (members_text (kv :: l))) as Hsol by apply members_solid.
    rewrite skip_solid by by apply solid_app. destruct (members_text (kv :: l)) as [|c s] eqn:E; [done|]. rewrite append_cons.
    rewrite (proj2 (Z.eqb_neq _ _)) by apply Hsol. rewrite <-append_cons, <-E, IHm; [|done|done|rewrite E; simpl in *; lia].
    simpl. by rewrite dict_of_distinct.
Qed.
Lemma scans_read fuel : value_reads fuel ∧ elements_read fuel ∧ members_read fuel.
Proof.
  induction fuel as [|fuel (IHv & IHe & IHm)].
  - split_and!; [intros d rest Hd _ Hf|intros v l rest _ Hf|intros kv l rest _ _ Hf]; [|lia..].
    pose proof (dumps_solid d Hd) as Hs. destruct (dumps_compact d); [done|simpl in Hf; lia].
  - split_and!; [by apply value_step|by apply elements_step|by apply members_step].
Qed.

(** What is written is read back. *)
Lemma loads_dumps d : plain d → loads (dumps_compact d) = Some d.
Proof.
  intros Hd. unfold loads. rewrite skip_solid by by apply dumps_solid.
  destruct (scans_read (2 * size (dumps_compact d) + 2)) as [Hv _]. specialize (Hv d "" Hd I ltac:(lia)).
  rewrite string_app_nil_r in Hv. by rewrite Hv.
Qed.

Example loads_samples :
  loads (String (ascii_of_nat 32) (dumps_compact (JObj [("a", JArr [JNum "-1.5e3"; JNull; JStr "é"]); ("b", JObj [])]%string)))
    = Some (JObj [("a", JArr [JNum "-1.5e3"; JNull; JStr "é"]); ("b", JObj [])]%string) ∧
  loads "[1,]" = None ∧ loads "01" = None ∧ loads "[1] 2" = None ∧ loads "1.e" = None ∧ loads "" = None.
Proof. by vm_compute. Qed.

(** ** Induction, and what redaction and cuts leave *)

Lemma json_nested (P : json → Prop) :
  P JNull → (∀ b, P (JBool b)) → (∀ t, P (JNum t)) → (∀ s, P (JStr s)) →
  (∀ l, Forall P l → P (JArr l)) → (∀ l, Forall P l.*2 → P (JObj l)) → ∀ d, P d.
Proof.
  intros Hn Hb Ht Hs Ha Ho. fix IH 1. intros [|b|t|s|l|l]; [done|done|done|done| |].
  - apply Ha. induction l as [|v l IHl]; [constructor|constructor; [apply IH|exact IHl]].
  - apply Ho. induction l as [|[k v] l IHl]; [constructor|constructor; [apply IH|exact IHl]].
Qed.

Definition scalar_char (c : string) : Prop := scalar (code_point c) ∧ utf8 (code_point c) = c.
#[export] Instance scalar_char_dec c : Decision (scalar_char c). Proof. unfold scalar_char. apply _. Defined.
Lemma scalar_char_good c : scalar_char c → good c.
Proof. intros [H E]. rewrite <-E. by apply utf8_good. Qed.
Lemma valid_text_chars s : valid_text s ↔ Forall scalar_char (chars s).
Proof.
  split.
  - intros (cps & -> & H). rewrite chars_of_points by done. apply Forall_fmap. eapply Forall_impl; [exact H|]. intros cp Hcp.
    unfold scalar_char. simpl. rewrite code_point_utf8 by (unfold scalar in Hcp; lia). done.
  - intros H. exists (code_point <$> chars s). split.
    + unfold text_of_points. rewrite <-(concat_chars s) at 1. f_equal. rewrite <-list_fmap_compose.
      induction H as [|c l [_ E] H IH]; [done|]. rewrite fmap_cons. f_equal; [by symmetry|exact IH].
    + apply Forall_fmap. eapply Forall_impl; [exact H|]. by intros c [].
Qed.
Lemma valid_concat cs : Forall scalar_char cs → valid_text (concat_text cs).
Proof.
  intros H. apply valid_text_chars. rewrite good_chars; [done|]. eapply Forall_impl; [exact H|]. apply scalar_char_good.
Qed.
Lemma valid_redacted s : valid_text s → valid_text (redact_secrets s).1.
Proof.
  intros Hs%valid_text_chars. rewrite redact_text. apply valid_concat. unfold redact_traced.
  assert (Forall (λ np, Forall scalar_char (marker_of np.1)) _SECRET_PATTERNS) as Hall.
  { assert (forallb (λ np, forallb (λ c, bool_decide (scalar_char c)) (marker_of np.1)) _SECRET_PATTERNS = true) as Hc by (vm_compute; reflexivity).
    apply Forall_forall. intros np Hnp. rewrite forallb_forall in Hc. specialize (Hc np (proj1 (list_elem_of_In _ _) Hnp)).
    rewrite forallb_forall in Hc. apply Forall_forall. intros c Hin. by eapply bool_decide_eq_true, Hc, list_elem_of_In. }
  assert (Forall scalar_char (text_of ((λ x, (x, true)) <$> chars s))) as Ht.
  { unfold text_of. rewrite <-list_fmap_compose. change (fst ∘ λ x : string, (x, true)) with (λ x : string, x). by rewrite list_fmap_id. }
  revert Ht. generalize ((λ x, (x, true)) <$> chars s). induction Hall as [|np ps Hnp _ IH]; intros t Ht; [done|].
  simpl. apply IH. by apply traced_forall.
Qed.
Lemma valid_cut n s : valid_text s → valid_text (decode_ignore (bytes_upto n s)).
Proof.
  intros Hs%valid_text_chars. assert (Forall good (chars s)) as Hg by (eapply Forall_impl; [exact Hs|apply scalar_char_good]).
  destruct (decode_upto n (chars s) Hg) as (k & Hk & _). rewrite concat_chars in Hk. rewrite Hk. by apply valid_concat, Forall_take.
Qed.
(** A text that is plainly valid. *)
Lemma valid_eval s : forallb (λ c, bool_decide (scalar_char c)) (chars s) = true → valid_text s.
Proof.
  intros H. apply valid_text_chars, Forall_forall. intros c Hc. rewrite forallb_forall in H.
  by eapply bool_decide_eq_true, H, list_elem_of_In.
Qed.
Lemma valid_chars_app s t : Forall scalar_char (chars s) → Forall scalar_char (chars t) → valid_text (s +:+ t).
Proof.
  intros Hs Ht. rewrite <-(concat_chars s), <-(concat_chars t), <-concat_app. apply valid_concat. by apply Forall_app.
Qed.

Lemma redact_array l : redact_json_leaves (JArr l) = JArr (redact_json_leaves <$> l).
Proof. reflexivity. Qed.
Definition redact_pair (kv : string * json) : string * json := ((redact_secrets kv.1).1, redact_json_leaves kv.2).
Lemma redact_object l : redact_json_leaves (JObj l) = JObj (dict_of (redact_pair <$> l)).
Proof.
  cbn [redact_json_leaves]. f_equal. unfold dict_of. generalize (@nil (string * json)).
  induction l as [|[k v] l IH]; intros d; [done|]. rewrite fmap_cons. cbn [foldl]. apply IH.
Qed.
Lemma dict_put_keys {A} k (v : A) d : NoDup d.*1 → NoDup (dict_put k v d).*1 ∧ ∀ x, x ∈ (dict_put k v d).*1 ↔ x = k ∨ x ∈ d.*1.
Proof.
  induction d as [|[k' v'] d IH]; simpl; intros Hd; [split; [apply NoDup_singleton|intros x; set_solver]|].
  apply NoDup_cons in Hd as [Hk Hd]. case_decide as E.
  - subst k'. simpl. split; [by constructor|]. intros x. set_solver.
  - destruct (IH Hd) as [H1 H2]. simpl. split; [|intros x; rewrite !elem_of_cons, H2; tauto].
    constructor; [|done]. rewrite H2. intros [->|]; [by destruct E|done].
Qed.
Lemma dict_put_forall {A} (P : A → Prop) k v d : P v → Forall P d.*2 → Forall P (dict_put k v d).*2.
Proof.
  intros Hv. induction d as [|[k' v'] d IH]; simpl; intros Hd; [by repeat constructor|].
  apply Forall_cons in Hd as [Hv' Hd]. case_decide; simpl; constructor; auto.
Qed.
Lemma dict_of_good l : Forall valid_text l.*1 → Forall plain l.*2 → plain (JObj (dict_of l)).
Proof.
  unfold dict_of. intros Hk Hv. assert (∀ d : list (string * json), NoDup d.*1 → Forall valid_text d.*1 → Forall plain d.*2 →
    plain (JObj (foldl (λ d kv, dict_put kv.1 kv.2 d) d l))) as H.
  { revert Hk Hv. induction l as [|[k v] l IH]; intros Hk Hv d H1 H2 H3; [by constructor|].
    apply Forall_cons in Hk as [Hk Hks]. apply Forall_cons in Hv as [Hv Hvs]. simpl. apply IH; [done|done|by apply dict_put_keys| |by apply dict_put_forall].
    apply Forall_forall. intros x Hx. apply (dict_put_keys k v d H1) in Hx as [->|Hx]; [done|]. rewrite Forall_forall in H2. by apply H2. }
  apply H; constructor.
Qed.
Lemma redact_plain d : plain d → plain (redact_json_leaves d).
Proof.
  induction d as [| | | |l IH|l IH] using json_nested; intros Hd; inversion Hd as [| | |? Hs|? Hl|? Hn Hk Hv]; subst.
  - constructor.
  - constructor.
  - by constructor.
  - constructor. by apply valid_redacted.
  - rewrite redact_array. constructor. apply Forall_fmap. rewrite Forall_forall in *. naive_solver.
  - rewrite redact_object. apply dict_of_good.
    + rewrite <-list_fmap_compose. apply Forall_fmap. rewrite Forall_fmap in Hk. eapply Forall_impl; [exact Hk|]. intros kv. apply valid_redacted.
    + rewrite <-list_fmap_compose. apply Forall_fmap. rewrite Forall_fmap in Hv, IH. rewrite Forall_forall in *. intros kv Hin. simpl. naive_solver.
Qed.
