(* ===== verification/Manifest.v ===== *)
(** * The frozen manifest of a run — [services/execution_manifest.py]

    How a script run was launched, redacted and bounded, and later the memory it was
    given.  A manifest that was read back holds whatever its text held, so its fields
    are documents; [None] is an optional field that is not there. *)

From S2P Require Import Prelude Text Sha256 Chars Secrets Envelope Json.

Definition WORKFLOW_MANIFEST_MAX_BYTES : Z := 256 * 1024.

Record FrozenMemoryRecord := {
  fm_content : json;
  fm_source : json;
  fm_content_hash : json;
  fm_truncated : json;
}.
Record ExecutionManifestEnvelope := {
  em_plan_id : json;
  em_source_hash : json;
  em_inputs : json;
  em_repo_baseline : json;
  em_provider : option json;
  em_model : option json;
  em_profile : option json;
  em_permissions : option json;
  em_limits : option json;
  em_retry_policy : option json;
  em_memory : FrozenMemoryRecord;
  em_truncated : json;
  em_redacted : json;
  em_notes : json;
}.
Definition set_memory (m : FrozenMemoryRecord) (truncated redacted : json) (e : ExecutionManifestEnvelope) : ExecutionManifestEnvelope := {|
  em_plan_id := em_plan_id e; em_source_hash := em_source_hash e; em_inputs := em_inputs e; em_repo_baseline := em_repo_baseline e;
  em_provider := em_provider e; em_model := em_model e; em_profile := em_profile e; em_permissions := em_permissions e;
  em_limits := em_limits e; em_retry_policy := em_retry_policy e; em_memory := m; em_truncated := truncated;
  em_redacted := redacted; em_notes := em_notes e |}.

(** ** Python's view of a document *)

(** A number that is zero, written in any way. *)
Fixpoint mantissa_zero (s : string) : bool :=
  match s with
  | String c s => if (byte_of c =? 101) || (byte_of c =? 69) then true
                  else bool_decide (byte_of c ∈ [45; 46; 48]) && mantissa_zero s
  | EmptyString => true
  end.
Definition truthy (v : json) : bool :=
  match v with
  | JNull => false
  | JBool b => b
  | JNum t => negb (mantissa_zero t)
  | JStr s => negb (bool_decide (s = ""))
  | JArr l => negb (bool_decide (l = []))
  | JObj l => match l with [] => false | _ => true end
  end%string.
#[local] Instance json_nil_dec (l : list json) : Decision (l = []). Proof. destruct l; [by left|by right]. Defined.

Fixpoint lookup_key {A} (k : string) (l : list (string * A)) : option A :=
  match l with [] => None | (k', v) :: l => if decide (k = k') then Some v else lookup_key k l end.
(** [d.get(k)], and [d[k]] with an exception for a key that is not there. *)
Definition member (k : string) (d : json) : option json := match d with JObj l => lookup_key k l | _ => None end.
(** [d.get(k)], where a null is as good as nothing. *)
Definition not_null (v : option json) : option json := match v with Some JNull => None | _ => v end.
Definition member_or_none (k : string) (d : json) : option json := not_null (member k d).
Definition same_text (a b : json) : bool := match a, b with JStr s, JStr t => bool_decide (s = t) | _, _ => false end.

(** ** The document *)

Definition omittable (name : string) (v : option json) : list (string * json) := match v with Some v => [(name, v)] | None => [] end.
Definition memory_document (m : FrozenMemoryRecord) : json :=
  JObj [("content", fm_content m); ("source", fm_source m); ("content_hash", fm_content_hash m); ("truncated", fm_truncated m)]%string.
Definition _document (e : ExecutionManifestEnvelope) : json :=
  JObj ([("plan_id", em_plan_id e); ("source_hash", em_source_hash e); ("inputs", em_inputs e); ("repo_baseline", em_repo_baseline e)]%string
    ++ omittable "provider" (em_provider e) ++ omittable "model" (em_model e) ++ omittable "profile" (em_profile e)
    ++ omittable "permissions" (em_permissions e) ++ omittable "limits" (em_limits e) ++ omittable "retry_policy" (em_retry_policy e)
    ++ [("memory", memory_document (em_memory e)); ("truncated", em_truncated e); ("redacted", em_redacted e)]%string
    ++ (if truthy (em_notes e) then [("notes"%string, em_notes e)] else [])).
Definition serialise (e : ExecutionManifestEnvelope) : string := dumps_compact (_document e).
(** Everything [dumps_compact] writes is ASCII, so its bytes are its characters. *)
Definition _encoded_length (e : ExecutionManifestEnvelope) : Z := Z.of_nat (String.length (serialise e)).

(** ** Bounding *)

Definition with_content (e : ExecutionManifestEnvelope) (content : string) : ExecutionManifestEnvelope :=
  let m := em_memory e in
  set_memory {| fm_content := JStr content; fm_source := fm_source m; fm_content_hash := fm_content_hash m; fm_truncated := JBool true |}
    (JBool true) (em_redacted e) e.
(** The loop of [_bound]; [None] when it is not over after [fuel] turns. *)
Fixpoint trim (fuel : nat) (e : ExecutionManifestEnvelope) (content : string) (keep : Z) : option ExecutionManifestEnvelope :=
  match fuel with
  | O => None
  | S fuel =>
      let candidate := with_content e (decode_ignore (bytes_upto (Z.to_nat keep) content)) in
      if (_encoded_length candidate <=? WORKFLOW_MANIFEST_MAX_BYTES) || (keep =? 0) then Some candidate
      else trim fuel e content (Z.max 0 (keep - Z.max 1 (keep / 8)))
  end.
(** [None]: the content is no text, which has no bytes. *)
Definition _bound (e : ExecutionManifestEnvelope) : option ExecutionManifestEnvelope :=
  let overflow := _encoded_length e - WORKFLOW_MANIFEST_MAX_BYTES in
  if overflow <=? 0 then Some e else
  match fm_content (em_memory e) with
  | JStr content =>
      let keep := Z.max 0 (Z.of_nat (String.length content) - overflow) in
      trim (S (Z.to_nat keep)) e content keep
  | _ => None
  end.

(** ** Building, filling, reading *)

Definition item (k : string) (d : json) : json := default JNull (member k d).
Definition option_item (k : string) (d : json) : option json := member_or_none k d.
Definition none_as_null (v : option json) : json := default JNull v.
Record ManifestFields := {
  mf_plan_id : string;
  mf_source_hash : string;
  mf_inputs : json;
  mf_repo_baseline : json;
  mf_provider : option json;
  mf_model : option json;
  mf_profile : option json;
  mf_permissions : option json;
  mf_limits : option json;
  mf_retry_policy : option json;
  mf_notes : string;
  mf_memory_content : string;
  mf_memory_source : string;
}.
(** The tree that is redacted: every key of it is a constant without a secret. *)
Definition raw_document (f : ManifestFields) : json :=
  JObj [("plan_id", JStr (mf_plan_id f)); ("source_hash", JStr (mf_source_hash f)); ("inputs", mf_inputs f);
        ("repo_baseline", mf_repo_baseline f); ("provider", none_as_null (mf_provider f)); ("model", none_as_null (mf_model f));
        ("profile", none_as_null (mf_profile f)); ("permissions", none_as_null (mf_permissions f)); ("limits", none_as_null (mf_limits f));
        ("retry_policy", none_as_null (mf_retry_policy f)); ("notes", JStr (mf_notes f));
        ("memory_content", JStr (mf_memory_content f)); ("memory_source", JStr (mf_memory_source f))]%string.

Fixpoint json_eqb (a b : json) : bool :=
  match a, b with
  | JNull, JNull => true
  | JBool x, JBool y => bool_decide (x = y)
  | JNum x, JNum y | JStr x, JStr y => bool_decide (x = y)
  | JArr l, JArr l' =>
      (fix go (l l' : list json) := match l, l' with
       | [], [] => true | x :: l, y :: l' => json_eqb x y && go l l' | _, _ => false end) l l'
  | JObj l, JObj l' =>
      (fix go (l l' : list (string * json)) := match l, l' with
       | [], [] => true | (k, x) :: l, (k', y) :: l' => bool_decide (k = k') && json_eqb x y && go l l' | _, _ => false end) l l'
  | _, _ => false
  end.
Definition build (f : ManifestFields) : option ExecutionManifestEnvelope :=
  let memory_hash := sha256_hex (mf_memory_content f) in
  let cleaned := redact_json_leaves (raw_document f) in
  _bound {|
    em_plan_id := item "plan_id" cleaned; em_source_hash := item "source_hash" cleaned; em_inputs := item "inputs" cleaned;
    em_repo_baseline := item "repo_baseline" cleaned; em_provider := option_item "provider" cleaned; em_model := option_item "model" cleaned;
    em_profile := option_item "profile" cleaned; em_permissions := option_item "permissions" cleaned;
    em_limits := option_item "limits" cleaned; em_retry_policy := option_item "retry_policy" cleaned;
    em_memory := {| fm_content := item "memory_content" cleaned; fm_source := item "memory_source" cleaned;
                    fm_content_hash := JStr memory_hash; fm_truncated := JBool false |};
    em_truncated := JBool false; em_redacted := JBool (negb (json_eqb cleaned (raw_document f))); em_notes := item "notes" cleaned |}.

Definition memory_pair (content source : string) : json := JObj [("memory_content", JStr content); ("memory_source", JStr source)]%string.
(** [a or b] *)
Definition or_flag (a : json) (b : bool) : json := if truthy a then a else JBool b.
Definition with_memory (e : ExecutionManifestEnvelope) (content source : string) : option ExecutionManifestEnvelope :=
  let memory_hash := sha256_hex content in
  let cleaned := redact_json_leaves (memory_pair content source) in
  _bound (set_memory {| fm_content := item "memory_content" cleaned; fm_source := item "memory_source" cleaned;
                        fm_content_hash := JStr memory_hash; fm_truncated := JBool false |}
            (em_truncated e) (or_flag (em_redacted e) (negb (json_eqb cleaned (memory_pair content source)))) e).

(** Whatever is missing or malformed makes it [None]. *)
Definition parse_document (d : json) : option ExecutionManifestEnvelope :=
  memory ← member "memory" d;
  plan_id ← member "plan_id" d; source_hash ← member "source_hash" d; inputs ← member "inputs" d; repo_baseline ← member "repo_baseline" d;
  content ← member "content" memory; source ← member "source" memory; content_hash ← member "content_hash" memory;
  cut ← member "truncated" memory; truncated ← member "truncated" d; redacted ← member "redacted" d;
  Some {|
    em_plan_id := plan_id; em_source_hash := source_hash; em_inputs := inputs; em_repo_baseline := repo_baseline;
    em_provider := member_or_none "provider" d; em_model := member_or_none "model" d; em_profile := member_or_none "profile" d;
    em_permissions := member_or_none "permissions" d; em_limits := member_or_none "limits" d;
    em_retry_policy := member_or_none "retry_policy" d;
    em_memory := {| fm_content := content; fm_source := source; fm_content_hash := content_hash; fm_truncated := cut |};
    em_truncated := truncated; em_redacted := redacted; em_notes := default (JStr "") (member "notes" d) |}.
Definition parse (manifest_json : option string) : option ExecutionManifestEnvelope :=
  match manifest_json with
  | None => None
  | Some text => if decide (text = "") then None else loads text ≫= parse_document
  end%string.

(** ** The keys *)

Lemma redact_fixed l : NoDup l.*1 → Forall (λ k, (redact_secrets k).1 = k) l.*1 →
  redact_json_leaves (JObj l) = JObj ((λ kv, (kv.1, redact_json_leaves kv.2)) <$> l).
Proof.
  intros Hn Hk. rewrite redact_object. assert (redact_pair <$> l = (λ kv, (kv.1, redact_json_leaves kv.2)) <$> l) as ->.
  { apply list_fmap_ext. intros i kv Hi. unfold redact_pair. f_equal. rewrite Forall_forall in Hk. apply Hk.
    apply list_elem_of_fmap. exists kv. split; [done|]. by eapply list_elem_of_lookup_2. }
  by rewrite dict_of_distinct by by rewrite <-list_fmap_compose.
Qed.
Lemma redact_pair_document content source : redact_json_leaves (memory_pair content source) =
  memory_pair (redact_secrets content).1 (redact_secrets source).1.
Proof.
  unfold memory_pair. rewrite redact_fixed; [done| |].
  - apply (bool_decide_unpack _). by vm_compute.
  - repeat constructor; vm_compute; reflexivity.
Qed.
Lemma redact_raw f : redact_json_leaves (raw_document f) =
  JObj [("plan_id", JStr (redact_secrets (mf_plan_id f)).1); ("source_hash", JStr (redact_secrets (mf_source_hash f)).1);
        ("inputs", redact_json_leaves (mf_inputs f)); ("repo_baseline", redact_json_leaves (mf_repo_baseline f));
        ("provider", redact_json_leaves (none_as_null (mf_provider f))); ("model", redact_json_leaves (none_as_null (mf_model f)));
        ("profile", redact_json_leaves (none_as_null (mf_profile f))); ("permissions", redact_json_leaves (none_as_null (mf_permissions f)));
        ("limits", redact_json_leaves (none_as_null (mf_limits f))); ("retry_policy", redact_json_leaves (none_as_null (mf_retry_policy f)));
        ("notes", JStr (redact_secrets (mf_notes f)).1); ("memory_content", JStr (redact_secrets (mf_memory_content f)).1);
        ("memory_source", JStr (redact_secrets (mf_memory_source f)).1)]%string.
Proof.
  unfold raw_document. rewrite redact_fixed; [done| |].
  - apply (bool_decide_unpack _). by vm_compute.
  - repeat constructor; vm_compute; reflexivity.
Qed.

Lemma json_eqb_true a b : json_eqb a b = true ↔ a = b.
Proof.
  revert b. induction a as [|x|x|x|l IH|l IH] using json_nested; intros b.
  - by destruct b.
  - destruct b; simpl; rewrite ?bool_decide_eq_true; naive_solver.
  - destruct b; simpl; rewrite ?bool_decide_eq_true; naive_solver.
  - destruct b; simpl; rewrite ?bool_decide_eq_true; naive_solver.
  - destruct b as [| | | |l'|]; try done. simpl. transitivity (l = l'); [|naive_solver]. revert l'.
    induction IH as [|x l Hx Hl IHl]; intros [|y l']; try done. rewrite andb_true_iff, Hx, IHl. naive_solver.
  - destruct b as [| | | | |l']; try done. simpl. transitivity (l = l'); [|naive_solver]. revert l'.
    induction l as [|[k x] l IHl]; intros [|[k' y] l']; try done. apply Forall_cons in IH as [Hx Hl]. simpl in Hx.
    rewrite !andb_true_iff, bool_decide_eq_true, Hx, (IHl Hl). naive_solver.
Qed.

(** ** What is written is what is read *)

(** An envelope as this file makes them: its fields are plain documents, an optional
    one is absent rather than null, and the notes are a text. *)
Definition memory_fields (m : FrozenMemoryRecord) : list json := [fm_content m; fm_source m; fm_content_hash m; fm_truncated m].
Definition plan_fields (e : ExecutionManifestEnvelope) : list json := [em_plan_id e; em_source_hash e; em_inputs e; em_repo_baseline e].
Definition optional_fields (e : ExecutionManifestEnvelope) : list (option json) :=
  [em_provider e; em_model e; em_profile e; em_permissions e; em_limits e; em_retry_policy e].
Definition written (v : option json) : Prop := v ≠ Some JNull ∧ ∀ d, v = Some d → plain d.
Record storable (e : ExecutionManifestEnvelope) : Prop := {
  st_plan : Forall plain (plan_fields e);
  st_optional : Forall written (optional_fields e);
  st_memory : Forall plain (memory_fields (em_memory e));
  st_flags : plain (em_truncated e) ∧ plain (em_redacted e);
  st_notes : ∃ s, em_notes e = JStr s ∧ valid_text s;
}.
Lemma lookup_key_app {A} k (a b : list (string * A)) : lookup_key k (a ++ b) = first_of (lookup_key k a) (lookup_key k b).
Proof. induction a as [|[k' v] a IH]; [done|]. simpl. by case_decide. Qed.
Lemma lookup_key_omittable k name v : lookup_key k (omittable name v) = if decide (k = name) then v else None.
Proof. destruct v; simpl; by case_decide. Qed.
Lemma first_none {A} (a : option A) : first_of a None = a.
Proof. by destruct a. Qed.
(** The notes are left out when they are empty, and read as empty then. *)
Lemma notes_read s : default (JStr "") (lookup_key "notes" (if truthy (JStr s) then [("notes"%string, JStr s)] else [])) = JStr s.
Proof. simpl. case_bool_decide; [by subst|]. done. Qed.
Lemma not_null_id (v : option json) : v ≠ Some JNull → not_null v = v.
Proof. destruct v as [[]|]; naive_solver. Qed.
#[local] Arguments not_null : simpl never.
Lemma notes_elsewhere k (n : json) : k ≠ "notes"%string → lookup_key k (if truthy n then [("notes"%string, n)] else []) = None.
Proof. intros Hk. destruct (truthy n); [|done]. simpl. by rewrite decide_False. Qed.

Ltac key_steps := repeat first [rewrite decide_False by done | rewrite decide_True by done].
Lemma member_document k e : member k (_document e) =
  if decide (k = "plan_id") then Some (em_plan_id e) else if decide (k = "source_hash") then Some (em_source_hash e)
  else if decide (k = "inputs") then Some (em_inputs e) else if decide (k = "repo_baseline") then Some (em_repo_baseline e)
  else if decide (k = "provider") then em_provider e else if decide (k = "model") then em_model e
  else if decide (k = "profile") then em_profile e else if decide (k = "permissions") then em_permissions e
  else if decide (k = "limits") then em_limits e else if decide (k = "retry_policy") then em_retry_policy e
  else if decide (k = "memory") then Some (memory_document (em_memory e)) else if decide (k = "truncated") then Some (em_truncated e)
  else if decide (k = "redacted") then Some (em_redacted e)
  else lookup_key k (if truthy (em_notes e) then [("notes"%string, em_notes e)] else []).
Proof.
  unfold _document, member. rewrite !lookup_key_app, !lookup_key_omittable. cbn [lookup_key].
  repeat (match goal with |- context [decide (k = ?n)] => destruct (decide (k = n)) as [->|] end; cbn [first_of];
    [key_steps; cbn [first_of]; rewrite ?notes_elsewhere, ?first_none by done; done|]).
  done.
Qed.
Lemma parse_document_document e : storable e → parse_document (_document e) = Some e.
Proof.
  intros [_ Ho _ _ [s [Hs _]]]. unfold optional_fields in Ho. rewrite !Forall_cons in Ho.
  destruct Ho as ([H1 _] & [H2 _] & [H3 _] & [H4 _] & [H5 _] & [H6 _] & _).
  unfold parse_document, member_or_none. rewrite !member_document.
  key_steps. cbn [mbind option_bind memory_document member lookup_key]. key_steps. cbn [mbind option_bind].
  rewrite !not_null_id by done. rewrite Hs, notes_read, <-Hs. by destruct e as [? ? ? ? ? ? ? ? ? ? [] ? ? ?].
Qed.

Lemma Forall_of_sublist {A} (P : A → Prop) l k : sublist l k → Forall P k → Forall P l.
Proof. rewrite !Forall_forall. intros H Hk x Hx. eapply Hk, elem_of_sublist; done. Qed.
Definition keys : list string :=
  ["plan_id"; "source_hash"; "inputs"; "repo_baseline"; "provider"; "model"; "profile"; "permissions"; "limits"; "retry_policy";
   "memory"; "truncated"; "redacted"; "notes"]%string.
Lemma sublist_omittable name v l k : sublist l k → sublist ((omittable name v).*1 ++ l) (name :: k).
Proof. intros H. destruct v; [by apply sublist_skip|by apply sublist_cons]. Qed.
Definition members_of (d : json) : list (string * json) := match d with JObj l => l | _ => [] end.
Lemma document_keys e : sublist (members_of (_document e)).*1 keys.
Proof.
  unfold _document, members_of. rewrite !fmap_app. unfold keys. cbn [fmap list_fmap fst app].
  repeat first [apply sublist_skip | apply sublist_omittable]. by destruct (truthy (em_notes e)); repeat constructor.
Qed.
Lemma plain_members l : sublist l.*1 keys → Forall plain l.*2 → plain (JObj l).
Proof.
  intros Hk Hv. constructor; [|apply (Forall_of_sublist _ _ keys Hk)|done].
  - eapply sublist_NoDup; [|exact Hk]. apply (bool_decide_unpack _). by vm_compute.
  - unfold keys. repeat constructor; apply valid_eval; by vm_compute.
Qed.
Lemma omittable_plain name v : written v → Forall plain (omittable name v).*2.
Proof. intros [_ H]. destruct v as [d|]; repeat constructor. by apply H. Qed.
Lemma memory_plain m : Forall plain (memory_fields m) → plain (memory_document m).
Proof.
  intros Hm. constructor; [apply (bool_decide_unpack _); by vm_compute| |exact Hm].
  repeat constructor; apply valid_eval; by vm_compute.
Qed.
Lemma document_plain e : storable e → plain (_document e).
Proof.
  intros [Hp Ho Hm [Ht Hr] [s [Hs Hv]]]. change (_document e) with (JObj (members_of (_document e))).
  apply plain_members; [apply document_keys|]. unfold _document, members_of. unfold optional_fields in Ho. rewrite !Forall_cons in Ho. destruct Ho as (? & ? & ? & ? & ? & ? & _).
  rewrite !fmap_app, !Forall_app. split_and!; try by apply omittable_plain.
  - exact Hp.
  - constructor; [by apply memory_plain|by repeat constructor].
  - rewrite Hs. destruct (truthy _); repeat constructor. done.
Qed.
Lemma stored_reads e : storable e → parse (Some (serialise e)) = Some e.
Proof.
  intros He. unfold parse. rewrite decide_False.
  - unfold serialise. rewrite loads_dumps by by apply document_plain. by apply parse_document_document.
  - pose proof (dumps_solid _ (document_plain e He)). unfold serialise. by destruct (dumps_compact (_document e)).
Qed.

(** ** What bounding does *)

Definition fits (e : ExecutionManifestEnvelope) : Prop := _encoded_length e ≤ WORKFLOW_MANIFEST_MAX_BYTES.
Definition cut_to (e : ExecutionManifestEnvelope) (content : string) (n : nat) : ExecutionManifestEnvelope :=
  with_content e (decode_ignore (bytes_upto n content)).
Lemma trim_ends fuel e content keep : 0 ≤ keep < Z.of_nat fuel →
  ∃ n, trim fuel e content keep = Some (cut_to e content n) ∧ (fits (cut_to e content n) ∨ n = 0%nat).
Proof.
  revert keep. induction fuel as [|fuel IH]; intros keep Hk; [lia|]. cbn [trim]. fold (cut_to e content (Z.to_nat keep)).
  destruct (Z.leb_spec (_encoded_length (cut_to e content (Z.to_nat keep))) WORKFLOW_MANIFEST_MAX_BYTES); [by eexists; auto|].
  destruct (Z.eqb_spec keep 0) as [->|]; [by eexists; auto|]. cbn [orb]. apply IH.
  pose proof (Z.div_lt_upper_bound keep 8 keep). pose proof (Z.div_pos keep 8). lia.
Qed.
(** Bounding ends; what is over the bound is cut until it fits, or to nothing. *)
Lemma bound_exact e content : fm_content (em_memory e) = JStr content →
  _bound e = Some e ∧ fits e
  ∨ ¬ fits e ∧ ∃ n, _bound e = Some (cut_to e content n) ∧ (fits (cut_to e content n) ∨ n = 0%nat).
Proof.
  intros Hc. unfold _bound, fits. destruct (Z.leb_spec (_encoded_length e - WORKFLOW_MANIFEST_MAX_BYTES) 0); [left; split; [done|lia]|].
  right. rewrite Hc. split; [lia|]. apply trim_ends. lia.
Qed.
Lemma storable_cut e content n : storable e → valid_text content → storable (cut_to e content n).
Proof.
  intros [Hp Ho Hm [Ht Hr] Hn] Hv. unfold memory_fields in Hm. rewrite !Forall_cons in Hm. destruct Hm as (_ & ? & ? & _ & _). split; try done.
  - repeat constructor; try done. by apply valid_cut.
  - split; [constructor|done].
Qed.
Lemma bound_storable e content : storable e → fm_content (em_memory e) = JStr content → valid_text content →
  ∃ e', _bound e = Some e' ∧ storable e'.
Proof.
  intros He Hc Hv. destruct (bound_exact e content Hc) as [[H _]|(_ & n & H & _)]; eexists; split; eauto. by apply storable_cut.
Qed.

(** ** Hash texts *)

Lemma valid_ascii b s : byte_of b < 128 → valid_text s → valid_text (String b s).
Proof.
  intros Hb (cps & -> & Hc). assert (0 ≤ byte_of b) by (unfold byte_of; lia). exists (byte_of b :: cps). split.
  - change (text_of_points (byte_of b :: cps)) with (utf8 (byte_of b) +:+ text_of_points cps). unfold utf8, byte_of in *.
    destruct (Z.ltb_spec (Z.of_N (N_of_ascii b)) 0x80); [|lia]. rewrite N2Z.id, ascii_N_embedding. by rewrite append_cons, append_nil.
  - constructor; [|done]. left. lia.
Qed.
Lemma valid_hex n : ∀ v acc, valid_text acc → valid_text (hex n v acc).
Proof.
  induction n as [|n IH]; intros v acc Ha; [done|]. cbn [hex]. apply IH, valid_ascii; [|done].
  rewrite Z.land_ones with (n := 4) by lia. pose proof (Z.mod_pos_bound v (2 ^ 4) ltac:(lia)). unfold Sha256.hex_digit.
  destruct (Z.ltb_spec (v mod 2 ^ 4) 10); rewrite byte_of_ascii; lia.
Qed.
Lemma hash_valid s : valid_text (sha256_hex s).
Proof.
  with_strategy transparent [sha256_hex] unfold sha256_hex. unfold hexdigest. induction (sha256 (bytes_of s)) as [|w l IH]; [by exists []|]. cbn [foldr]. by apply valid_hex.
Qed.

(** ** Building *)

Lemma written_item v : plain (none_as_null v) → written (not_null (Some (redact_json_leaves (none_as_null v)))).
Proof.
  intros H%redact_plain. unfold written, not_null. destruct (redact_json_leaves _); split; try done; intros d [= <-]; exact H.
Qed.
Definition filled (f : ManifestFields) : ExecutionManifestEnvelope := {|
  em_plan_id := JStr (redact_secrets (mf_plan_id f)).1; em_source_hash := JStr (redact_secrets (mf_source_hash f)).1;
  em_inputs := redact_json_leaves (mf_inputs f); em_repo_baseline := redact_json_leaves (mf_repo_baseline f);
  em_provider := not_null (Some (redact_json_leaves (none_as_null (mf_provider f))));
  em_model := not_null (Some (redact_json_leaves (none_as_null (mf_model f))));
  em_profile := not_null (Some (redact_json_leaves (none_as_null (mf_profile f))));
  em_permissions := not_null (Some (redact_json_leaves (none_as_null (mf_permissions f))));
  em_limits := not_null (Some (redact_json_leaves (none_as_null (mf_limits f))));
  em_retry_policy := not_null (Some (redact_json_leaves (none_as_null (mf_retry_policy f))));
  em_memory := {| fm_content := JStr (redact_secrets (mf_memory_content f)).1; fm_source := JStr (redact_secrets (mf_memory_source f)).1;
                  fm_content_hash := JStr (sha256_hex (mf_memory_content f)); fm_truncated := JBool false |};
  em_truncated := JBool false; em_redacted := JBool (negb (json_eqb (redact_json_leaves (raw_document f)) (raw_document f)));
  em_notes := JStr (redact_secrets (mf_notes f)).1 |}.
Lemma build_filled f : build f = _bound (filled f).
Proof.
  unfold build, filled. by f_equal.
Qed.
Lemma filled_storable f : plain (raw_document f) → storable (filled f).
Proof.
  intros H. unfold raw_document in H. inversion H as [| | | | |? _ _ Hv]; subst. simpl in Hv. rewrite !Forall_cons in Hv.
  destruct Hv as (H1 & H2 & H3 & H4 & H5 & H6 & H7 & H8 & H9 & H10 & H11 & H12 & H13 & _). split; cbn.
  - apply redact_plain in H1, H2, H3, H4. exact (Forall_cons_2 _ _ _ H1 (Forall_cons_2 _ _ _ H2 (Forall_cons_2 _ _ _ H3 (Forall_cons_2 _ _ _ H4 (Forall_nil_2 _))))).
  - unfold optional_fields. cbn. rewrite !Forall_cons. split_and!; try by apply written_item. apply Forall_nil_2.
  - apply redact_plain in H12, H13. unfold memory_fields. rewrite !Forall_cons. split_and!; [done|done|constructor; apply hash_valid|constructor|constructor].
  - split; constructor.
  - apply redact_plain in H11. inversion H11. by eexists.
Qed.

(** ** The frozen memory *)

Definition remembered (e : ExecutionManifestEnvelope) (content source : string) : ExecutionManifestEnvelope :=
  set_memory {| fm_content := JStr (redact_secrets content).1; fm_source := JStr (redact_secrets source).1;
                fm_content_hash := JStr (sha256_hex content); fm_truncated := JBool false |}
    (em_truncated e) (or_flag (em_redacted e) (negb (json_eqb (redact_json_leaves (memory_pair content source)) (memory_pair content source)))) e.
Lemma with_memory_remembered e content source : with_memory e content source = _bound (remembered e content source).
Proof. unfold with_memory, remembered. by f_equal. Qed.
Lemma remembered_storable e content source : storable e → valid_text content → valid_text source → storable (remembered e content source).
Proof.
  intros [Hp Ho Hm [Ht Hr] Hn] Hc Hs. split; try done.
  - unfold memory_fields. rewrite !Forall_cons. split_and!; constructor; try by apply valid_redacted. apply hash_valid.
  - split; [done|]. cbn. unfold or_flag. destruct (truthy (em_redacted e)); [done|constructor].
Qed.
Lemma cut_part content n : wellformed content → part_of_redacted content (decode_ignore (bytes_upto n (redact_secrets content).1)).
Proof.
  intros Hw. rewrite redact_text. destruct (decode_upto n _ (redacted_good _ Hw)) as (k & -> & _).
  unfold text_of. rewrite <-fmap_take. apply (part_redacted _ [] _ (drop k (redact_traced content))). by rewrite app_nil_l, take_drop.
Qed.
Lemma whole_part content : part_of_redacted content (redact_secrets content).1.
Proof. rewrite redact_text. apply (part_redacted _ [] _ []). by rewrite app_nil_l, app_nil_r. Qed.
Lemma valid_wellformed s : valid_text s → wellformed s.
Proof. intros H%valid_text_chars. eapply Forall_impl; [exact H|]. intros c Hc. by apply scalar_char_good in Hc as [? _]. Qed.
Lemma or_flag_exact a b : truthy (or_flag a b) = truthy a || b.
Proof. unfold or_flag. by destruct (truthy a) eqn:E. Qed.
Lemma pair_changed content source :
  negb (json_eqb (redact_json_leaves (memory_pair content source)) (memory_pair content source)) = true
  ↔ (redact_secrets content).1 ≠ content ∨ (redact_secrets source).1 ≠ source.
Proof.
  rewrite redact_pair_document, negb_true_iff, <-not_true_iff_false, json_eqb_true. unfold memory_pair.
  generalize (redact_secrets content).1 (redact_secrets source).1. intros a b.
  destruct (decide (a = content)), (decide (b = source)); naive_solver.
Qed.

(** [C19] A manifest is stored without loss.  Whatever fields a run was launched with,
    as long as they are documents JSON can carry, a manifest is built; what is written
    of it is read back as that manifest; and filling its memory, with any text, gives a
    manifest that is read back too and that leaves alone every field a plan was approved
    by. *)
Theorem manifests_are_read_back f : plain (raw_document f) →
  ∃ e, build f = Some e ∧ parse (Some (serialise e)) = Some e
  ∧ ∀ content source, valid_text content → valid_text source →
    ∃ e', with_memory e content source = Some e' ∧ parse (Some (serialise e')) = Some e'
    ∧ plan_fields e' = plan_fields e ∧ optional_fields e' = optional_fields e ∧ em_notes e' = em_notes e.
Proof.
  intros Hf. pose proof (filled_storable f Hf) as Hs. rewrite build_filled.
  assert (plain (JStr (redact_secrets (mf_memory_content f)).1)) as Hv by exact (List.Forall_inv (st_memory _ Hs)).
  inversion Hv; subst.
  destruct (bound_storable _ _ Hs eq_refl ltac:(eassumption)) as (e & He & Hse). exists e. split_and!; [done|by apply stored_reads|].
  intros content source Hc Hsrc. rewrite with_memory_remembered. pose proof (remembered_storable e _ _ Hse Hc Hsrc) as Hr.
  destruct (bound_storable _ _ Hr eq_refl (valid_redacted _ Hc)) as (e' & He' & Hse'). exists e'.
  split_and!; [done|by apply stored_reads|..];
    destruct (bound_exact (remembered e content source) _ eq_refl) as [[Hx _]|(_ & n & Hx & _)]; rewrite He' in Hx; by injection Hx as ->.
Qed.

(** [C20] The memory of a run is frozen within bounds.  Filling the memory of a manifest
    always ends; the document then fits its column unless the memory has been cut to
    nothing; the hash is the one of the whole text, the stored text is a part of the
    redacted one that no pattern describes, all of it unless the manifest says that it
    was cut, which happens exactly when the whole would not have fitted; and the mark of
    redaction is set when the filling redacted anything and is never taken back. *)
Theorem frozen_memory_fits e content source : storable e → valid_text content → valid_text source →
  ∃ e' stored, with_memory e content source = Some e' ∧ fm_content (em_memory e') = JStr stored
  ∧ (fits e' ∨ stored = ""%string)
  ∧ fm_content_hash (em_memory e') = JStr (sha256_hex content)
  ∧ part_of_redacted content stored
  ∧ (fits (remembered e content source) ∧ stored = (redact_secrets content).1 ∧ fm_truncated (em_memory e') = JBool false
     ∨ ¬ fits (remembered e content source) ∧ fm_truncated (em_memory e') = JBool true ∧ em_truncated e' = JBool true)
  ∧ (truthy (em_redacted e') = true ↔
       truthy (em_redacted e) = true ∨ (redact_secrets content).1 ≠ content ∨ (redact_secrets source).1 ≠ source).
Proof.
  intros He Hc Hs. rewrite with_memory_remembered.
  assert (∀ a, em_redacted a = em_redacted (remembered e content source) → truthy (em_redacted a) = true ↔
    truthy (em_redacted e) = true ∨ (redact_secrets content).1 ≠ content ∨ (redact_secrets source).1 ≠ source) as Hred.
  { intros a ->. cbn [remembered set_memory em_redacted]. by rewrite or_flag_exact, orb_true_iff, pair_changed. }
  destruct (bound_exact (remembered e content source) _ eq_refl) as [[Hx Hfit]|(Hover & n & Hx & Hfit)]; rewrite Hx.
  - do 2 eexists. split_and!; [done|done|by left|done|apply whole_part|by left|by apply Hred].
  - do 2 eexists. split_and!; [done|done| |done|by apply cut_part, valid_wellformed|by right|by apply Hred].
    destruct Hfit as [Hf| ->]; [by left|by right].
Qed.

(** ** A run with a token among its inputs *)

Definition sample_fields : ManifestFields := {|
  mf_plan_id := "plan-1"; mf_source_hash := sha256_hex "x"; mf_inputs := JObj [("token", JStr "AKIA0123456789ABCDEF"); ("tries", JNum "3")];
  mf_repo_baseline := JNull; mf_provider := None; mf_model := None; mf_profile := Some (JStr "dev"); mf_permissions := None;
  mf_limits := None; mf_retry_policy := None; mf_notes := "six fields are left out"; mf_memory_content := ""; mf_memory_source := "" |}%string.
Local Notation remembered_text := "prefers é over e; key AKIA0123456789ABCDEF"%string.
Lemma sample_plain : plain (raw_document sample_fields).
Proof.
  unfold raw_document. constructor.
  - apply (bool_decide_unpack _). by vm_compute.
  - repeat constructor; apply valid_eval; by vm_compute.
  - repeat (apply Forall_cons_2 || apply Forall_nil_2); try (apply plain_null || (apply plain_str; apply valid_eval; by vm_compute)).
    constructor; [apply (bool_decide_unpack _); by vm_compute|repeat constructor; apply valid_eval; by vm_compute|].
    repeat (apply Forall_cons_2 || apply Forall_nil_2); [apply plain_str; apply valid_eval; by vm_compute|apply plain_num; by vm_compute].
Qed.
Lemma manifests_are_read_back_witness : ∃ e, build sample_fields = Some e ∧ parse (Some (serialise e)) = Some e.
Proof. destruct (manifests_are_read_back sample_fields sample_plain) as (e & He & Hp & _). exact (ex_intro _ e (conj He Hp)). Defined.
Lemma frozen_memory_fits_witness : ∃ e' stored, with_memory (filled sample_fields) remembered_text "cao-memory" = Some e'
  ∧ fm_content (em_memory e') = JStr stored ∧ part_of_redacted remembered_text stored.
Proof.
  assert (valid_text remembered_text) as H1 by (apply valid_eval; vm_compute; reflexivity).
  assert (valid_text "cao-memory") as H2 by (apply valid_eval; vm_compute; reflexivity).
  destruct (frozen_memory_fits _ _ _ (filled_storable _ sample_plain) H1 H2) as (e' & s & H & Hs & _ & _ & Hp & _).
  exact (ex_intro _ e' (ex_intro _ s (conj H (conj Hs Hp)))).
Defined.
(** What is read back of the sample, its hashes apart. *)
Example sample_inputs :
  option_map em_inputs (parse (Some (serialise (filled sample_fields))))
  = Some (JObj [("token", JStr "[REDACTED:aws_access_key]"); ("tries", JNum "3")])%string.
Proof. rewrite stored_reads by apply filled_storable, sample_plain. vm_compute. reflexivity. Qed.
