(* ===== verification/Journal.v ===== *)
(** * The workflow journal — [services/workflow_journal.py]

    Four tables: runs, steps keyed by run and step, events keyed by run and
    sequence, and the highest sequence ever allocated to a run.  Each definition is
    one function of the file, its statements in their transaction; a column holds
    the text the code stores, except [result_json], which is the envelope it encodes
    or some other text, and [output_json], which is its document. *)

From stdpp Require Import gmap.
From S2P Require Import Prelude Secrets Envelope.

Record RunRow := {
  rr_run_id : string;
  rr_workflow_name : string;
  rr_spec_snapshot : string;
  rr_inputs_json : string;
  rr_state : string;
  rr_current_step_id : option string;
  rr_started_at : string;
  rr_finished_at : option string;
  rr_tier : string;
  rr_generation : string;
  rr_manifest_json : option string;
}.
Record StepRow := {
  sr_run_id : string;
  sr_step_id : string;
  sr_state : string;
  sr_attempts : Z;
  sr_output_json : option json;
  sr_error : option string;
  sr_updated_at : string;
  sr_call_fingerprint : option string;
  sr_terminal_id : option string;
  sr_reprompted : option Z;
  sr_error_kind : option string;
  sr_result_json : option result_text;
}.
Record EventRow := {
  er_run_id : string;
  er_seq : Z;
  er_event_type : string;
  er_event_schema_version : Z;
  er_ts : string;
  er_step_id : option string;
  er_attempt : option Z;
  er_state : option string;
  er_elapsed_ms : option Z;
  er_provider : option string;
  er_agent_profile : option string;
  er_engine : option string;
  er_terminal_id : option string;
  er_terminal_offset_start : option Z;
  er_terminal_offset_len : option Z;
  er_error_kind : option string;
  er_reason : option string;
  er_validation_result : option string;
  er_output_ref : option string;
  er_iteration : option Z;
  er_which_guard_fired : option string;
}.
Record GapMarker := {
  gm_after_seq : Z;
  gm_before_seq : Z;
  gm_missing_count : Z;
  gm_reason : string;
}.
Record RunSummaryRow := {
  rs_run_id : string;
  rs_workflow_name : string;
  rs_state : string;
  rs_tier : string;
  rs_started_at : string;
  rs_finished_at : option string;
  rs_current_step_id : option string;
}.

Record journal := {
  j_runs : gmap string RunRow;
  j_steps : gmap (string * string) StepRow;
  j_events : gmap (string * Z) EventRow;
  j_seq : gmap string Z;
}.
Definition on_runs (f : gmap string RunRow → gmap string RunRow) (j : journal) : journal :=
  {| j_runs := f (j_runs j); j_steps := j_steps j; j_events := j_events j; j_seq := j_seq j |}.
Definition on_steps (f : gmap (string * string) StepRow → gmap (string * string) StepRow) (j : journal) : journal :=
  {| j_runs := j_runs j; j_steps := f (j_steps j); j_events := j_events j; j_seq := j_seq j |}.
Definition on_events (f : gmap (string * Z) EventRow → gmap (string * Z) EventRow) (j : journal) : journal :=
  {| j_runs := j_runs j; j_steps := j_steps j; j_events := f (j_events j); j_seq := j_seq j |}.
Definition on_seq (f : gmap string Z → gmap string Z) (j : journal) : journal :=
  {| j_runs := j_runs j; j_steps := j_steps j; j_events := j_events j; j_seq := f (j_seq j) |}.

Abbreviation J := (M journal).

(** ** Runs *)

Definition new_run (run_id workflow_name spec_snapshot inputs_json state started_at tier generation : string)
    (manifest_json : option string) : RunRow := {|
  rr_run_id := run_id; rr_workflow_name := workflow_name; rr_spec_snapshot := spec_snapshot;
  rr_inputs_json := inputs_json; rr_state := state; rr_current_step_id := None; rr_started_at := started_at;
  rr_finished_at := None; rr_tier := tier; rr_generation := generation; rr_manifest_json := manifest_json |}.

Definition insert_run (row : RunRow) : J () := λ j,
  match j_runs j !! rr_run_id row with
  | Some _ => (j, Raised (IntegrityError "workflow_run.run_id"))
  | None => (on_runs <[rr_run_id row := row]> j, Returned ())
  end.

(** [INSERT OR REPLACE] leaves none of the columns it does not name. *)
Definition new_step (run_id step_id state updated_at : string) (fingerprint : option string) : StepRow := {|
  sr_run_id := run_id; sr_step_id := step_id; sr_state := state; sr_attempts := 0; sr_output_json := None;
  sr_error := None; sr_updated_at := updated_at; sr_call_fingerprint := fingerprint; sr_terminal_id := None;
  sr_reprompted := None; sr_error_kind := None; sr_result_json := None |}.

Definition insert_steps (run_id : string) (steps : list (string * string)) (updated_at : string) : J () :=
  modify (on_steps (λ t, foldl (λ t '(step_id, state),
    <[(run_id, step_id) := new_step run_id step_id state updated_at None]> t) t steps)).

Definition insert_run_with_steps (row : RunRow) (steps : list (string * string)) (updated_at : string) : J () :=
  transaction (insert_run row ;; insert_steps (rr_run_id row) steps updated_at).

Definition update_run (run_id : string) (f : RunRow → RunRow) : J () := modify (on_runs (alter f run_id)).

Definition set_manifest (m : option string) (r : RunRow) : RunRow := {|
  rr_run_id := rr_run_id r; rr_workflow_name := rr_workflow_name r; rr_spec_snapshot := rr_spec_snapshot r;
  rr_inputs_json := rr_inputs_json r; rr_state := rr_state r; rr_current_step_id := rr_current_step_id r;
  rr_started_at := rr_started_at r; rr_finished_at := rr_finished_at r; rr_tier := rr_tier r;
  rr_generation := rr_generation r; rr_manifest_json := m |}.
Definition compare_and_set_run_manifest (run_id expected_manifest_json manifest_json : string) : J bool := λ j,
  match j_runs j !! run_id with
  | Some r =>
      if bool_decide (rr_manifest_json r = Some expected_manifest_json)
      then (on_runs <[run_id := set_manifest (Some manifest_json) r]> j, Returned true) else (j, Returned false)
  | None => (j, Returned false)
  end.

Definition set_current_step (s : option string) (r : RunRow) : RunRow := {|
  rr_run_id := rr_run_id r; rr_workflow_name := rr_workflow_name r; rr_spec_snapshot := rr_spec_snapshot r;
  rr_inputs_json := rr_inputs_json r; rr_state := rr_state r; rr_current_step_id := s;
  rr_started_at := rr_started_at r; rr_finished_at := rr_finished_at r; rr_tier := rr_tier r;
  rr_generation := rr_generation r; rr_manifest_json := rr_manifest_json r |}.
Definition update_run_current_step (run_id : string) (current_step_id : option string) : J () :=
  update_run run_id (set_current_step current_step_id).

Definition set_run_state (state : string) (finished_at : option string) (r : RunRow) : RunRow := {|
  rr_run_id := rr_run_id r; rr_workflow_name := rr_workflow_name r; rr_spec_snapshot := rr_spec_snapshot r;
  rr_inputs_json := rr_inputs_json r; rr_state := state; rr_current_step_id := rr_current_step_id r;
  rr_started_at := rr_started_at r; rr_finished_at := finished_at; rr_tier := rr_tier r;
  rr_generation := rr_generation r; rr_manifest_json := rr_manifest_json r |}.
Definition update_run_state (run_id state : string) (finished_at : option string) : J () :=
  update_run run_id (set_run_state state finished_at).

Definition settle_run_state_if_running (run_id state : string) (finished_at : option string) : J bool := λ j,
  match j_runs j !! run_id with
  | Some r => if bool_decide (rr_state r = "running"%string)
              then (on_runs <[run_id := set_run_state state finished_at r]> j, Returned true) else (j, Returned false)
  | None => (j, Returned false)
  end.

(** [workflow_service.update_run_generation] *)
Definition set_generation (generation : string) (r : RunRow) : RunRow := {|
  rr_run_id := rr_run_id r; rr_workflow_name := rr_workflow_name r; rr_spec_snapshot := rr_spec_snapshot r;
  rr_inputs_json := rr_inputs_json r; rr_state := rr_state r; rr_current_step_id := rr_current_step_id r;
  rr_started_at := rr_started_at r; rr_finished_at := rr_finished_at r; rr_tier := rr_tier r;
  rr_generation := generation; rr_manifest_json := rr_manifest_json r |}.
Definition update_run_generation (run_id generation : string) : J () := update_run run_id (set_generation generation).

Definition get_run (run_id : string) : J (option RunRow) := gets (λ j, j_runs j !! run_id).

(** ** Steps *)

Definition update_step (run_id step_id state : string) (attempts : Z) (updated_at : string) (output_json : option json)
    (error error_kind : option string) : J () :=
  modify (on_steps (alter (λ r, {|
    sr_run_id := sr_run_id r; sr_step_id := sr_step_id r; sr_state := state; sr_attempts := attempts;
    sr_output_json := output_json; sr_error := error; sr_updated_at := updated_at;
    sr_call_fingerprint := sr_call_fingerprint r; sr_terminal_id := sr_terminal_id r; sr_reprompted := sr_reprompted r;
    sr_error_kind := error_kind; sr_result_json := sr_result_json r |}) (run_id, step_id))).

Definition get_step (run_id step_id : string) : J (option StepRow) := gets (λ j, j_steps j !! (run_id, step_id)).
(** No order is asked for. *)
Definition get_steps (run_id : string) : J (list StepRow) :=
  gets (λ j, snd <$> filter (λ kr, kr.1.1 = run_id) (map_to_list (j_steps j))).

Definition set_step_state (state : string) (r : StepRow) : StepRow := {|
  sr_run_id := sr_run_id r; sr_step_id := sr_step_id r; sr_state := state; sr_attempts := sr_attempts r;
  sr_output_json := sr_output_json r; sr_error := sr_error r; sr_updated_at := sr_updated_at r;
  sr_call_fingerprint := sr_call_fingerprint r; sr_terminal_id := sr_terminal_id r; sr_reprompted := sr_reprompted r;
  sr_error_kind := sr_error_kind r; sr_result_json := sr_result_json r |}.

Definition append_step (run_id step_id state updated_at call_fingerprint : string) : J () :=
  modify (on_steps (λ t, match t !! (run_id, step_id) with
    | None => <[(run_id, step_id) := new_step run_id step_id state updated_at (Some call_fingerprint)]> t
    | Some r => <[(run_id, step_id) := {|
        sr_run_id := sr_run_id r; sr_step_id := sr_step_id r; sr_state := state; sr_attempts := sr_attempts r;
        sr_output_json := sr_output_json r; sr_error := sr_error r; sr_updated_at := updated_at;
        sr_call_fingerprint := sr_call_fingerprint r; sr_terminal_id := sr_terminal_id r;
        sr_reprompted := sr_reprompted r; sr_error_kind := sr_error_kind r; sr_result_json := sr_result_json r |}]> t
    end)).

(** The step runs from now on; the fingerprint of a completed one is kept. *)
Definition begun (updated_at call_fingerprint : string) (r : StepRow) : StepRow := {|
  sr_run_id := sr_run_id r; sr_step_id := sr_step_id r; sr_state := "running"; sr_attempts := sr_attempts r;
  sr_output_json := sr_output_json r; sr_error := sr_error r; sr_updated_at := updated_at;
  sr_call_fingerprint := if bool_decide (sr_state r ≠ "completed"%string) then Some call_fingerprint else sr_call_fingerprint r;
  sr_terminal_id := sr_terminal_id r; sr_reprompted := sr_reprompted r; sr_error_kind := sr_error_kind r;
  sr_result_json := sr_result_json r |}.
Definition begin_step (run_id step_id updated_at call_fingerprint : string) : J () :=
  modify (on_steps (λ t, match t !! (run_id, step_id) with
    | None => <[(run_id, step_id) := new_step run_id step_id "running" updated_at (Some call_fingerprint)]> t
    | Some r => <[(run_id, step_id) := begun updated_at call_fingerprint r]> t
    end)).

Definition settled (state updated_at : string) (result_json : option result_text) (output_json : option json)
    (error : option string) (r : StepRow) : StepRow := {|
  sr_run_id := sr_run_id r; sr_step_id := sr_step_id r; sr_state := state; sr_attempts := sr_attempts r + 1;
  sr_output_json := output_json; sr_error := error; sr_updated_at := updated_at;
  sr_call_fingerprint := sr_call_fingerprint r; sr_terminal_id := sr_terminal_id r; sr_reprompted := sr_reprompted r;
  sr_error_kind := sr_error_kind r; sr_result_json := result_json |}.
Definition settle_step (run_id step_id state updated_at : string) (result_json : option result_text)
    (output_json : option json) (error : option string) : J bool := λ j,
  let '(existed, row) := match j_steps j !! (run_id, step_id) with
    | Some r => (true, r) | None => (false, new_step run_id step_id state updated_at None) end in
  (on_steps <[(run_id, step_id) := settled state updated_at result_json output_json error row]> j, Returned existed).

Definition lookup_replay (run_id step_id call_fingerprint : string) : J (option StepRow) :=
  row ← get_step run_id step_id;
  match row with
  | None => mret None
  | Some row =>
      if negb (bool_decide (sr_state row = "completed"%string)) then mret None
      else if negb (bool_decide (sr_call_fingerprint row = Some call_fingerprint))
      then raise (ExternalError "ReplayDivergenceError") else mret (Some row)
  end.

(** ** Recovery decisions — with [parse_decision] of [models/workflow_runtime.py] *)

Inductive RecoveryDecision := RERUN | SKIP.
#[export] Instance RecoveryDecision_eq_dec : EqDecision RecoveryDecision. Proof. solve_decision. Defined.
Definition RecoveryDecision_value (d : RecoveryDecision) : string := match d with RERUN => "rerun" | SKIP => "skip" end.
Definition parse_decision (value : string) : outcome RecoveryDecision :=
  if bool_decide (value = "rerun"%string) then Returned RERUN
  else if bool_decide (value = "skip"%string) then Returned SKIP
  else Raised (ValueError "not a recovery decision").

Definition DECISION_STATES (d : RecoveryDecision) : string :=
  match d with RERUN => "rerun_authorized" | SKIP => "replay_authorized" end.
Definition authorised_states : list string := DECISION_STATES <$> [RERUN; SKIP].

(** The first loop: every decision names a step of the run and can be read. *)
Fixpoint resolve_decisions (known : string → bool) (decisions : list (string * string)) : outcome (list (string * RecoveryDecision)) :=
  match decisions with
  | [] => Returned []
  | (step_id, value) :: rest =>
      if negb (known step_id) then Raised (ValueError "run has no step") else
      match parse_decision value with
      | Raised _ => Raised (ValueError "step decision")
      | Returned decision =>
          match resolve_decisions known rest with
          | Returned resolved => Returned ((step_id, decision) :: resolved)
          | Raised e => Raised e
          end
      end
  end.

(** The mapping has each step once; what is returned is the states before. *)
Definition apply_decisions (run_id : string) (decisions : list (string * string)) : J (list (string * string)) :=
  if bool_decide (decisions = []) then mret [] else
  prior ← gets (λ j step_id, sr_state <$> j_steps j !! (run_id, step_id));
  resolved ← lift_outcome (resolve_decisions (λ step_id, bool_decide (is_Some (prior step_id))) decisions);
  modify (on_steps (λ t, foldl (λ t '(step_id, decision),
    alter (set_step_state (DECISION_STATES decision)) (run_id, step_id) t) t resolved)) ;;
  mret ((λ '(step_id, _), (step_id, default "" (prior step_id))) <$> resolved).

(** One entry of the restore: only a consent that is still there. *)
Definition revoke_one (run_id : string) (t : gmap (string * string) StepRow) (entry : string * string)
    : gmap (string * string) StepRow * bool :=
  let '(step_id, prior) := entry in
  if bool_decide (prior ∈ authorised_states) then (t, false) else
  match t !! (run_id, step_id) with
  | Some r => if bool_decide (sr_state r ∈ authorised_states)
              then (<[(run_id, step_id) := set_step_state prior r]> t, true) else (t, false)
  | None => (t, false)
  end.
Definition revoke_step (run_id : string) (acc : gmap (string * string) StepRow * list string) (entry : string * string)
    : gmap (string * string) StepRow * list string :=
  let '(t, done_) := revoke_one run_id acc.1 entry in
  (t, if (done_ : bool) then acc.2 ++ [entry.1] else acc.2).
Definition revoke_unconsumed_decisions (run_id : string) (prior_states : list (string * string)) : J (list string) := λ j,
  let '(t, revoked) := foldl (revoke_step run_id) (j_steps j, []) prior_states in
  (on_steps (λ _, t) j, Returned revoked).

(** ** Events *)

Definition append_event (event : EventRow) : J () := λ j,
  match j_events j !! (er_run_id event, er_seq event) with
  | Some _ => (j, Raised (IntegrityError "workflow_run_event"))
  | None => (on_events <[(er_run_id event, er_seq event) := event]> j, Returned ())
  end.

Definition persist_high_water (run_id : string) (seq : Z) : J () :=
  modify (on_seq (λ t, <[run_id := match t !! run_id with Some high_water => Z.max high_water seq | None => seq end]> t)).

Definition seq_le (a b : EventRow) : Prop := er_seq a <= er_seq b.
#[export] Instance seq_le_dec a b : Decision (seq_le a b). Proof. unfold seq_le. apply _. Defined.

Definition run_events (run_id : string) (j : journal) : list EventRow :=
  snd <$> filter (λ ke, ke.1.1 = run_id) (map_to_list (j_events j)).
Definition is_after (after_seq : option Z) (e : EventRow) : bool :=
  match after_seq with None => true | Some n => n <? er_seq e end.
Definition read_events (run_id : string) (after_seq : option Z) : J (list EventRow) :=
  gets (λ j, merge_sort seq_le (select_where (is_after after_seq) (run_events run_id j))).

(** What follows answers a default when the database cannot be read ([up]). *)
Definition _TERMINAL_RUN_STATES : list string := ["completed"; "failed"; "cancelled"].
Definition _is_terminal_run (up : bool) (run_id : string) (j : journal) : bool :=
  if negb up then false else
  match j_runs j !! run_id with Some r => bool_decide (rr_state r ∈ _TERMINAL_RUN_STATES) | None => false end.
Definition persisted_high_water (up : bool) (run_id : string) (j : journal) : Z :=
  if up then default 0 (j_seq j !! run_id) else 0.
Definition max_event_seq (up : bool) (run_id : string) (j : journal) : Z :=
  match (if up then er_seq <$> run_events run_id j else []) with
  | [] => 0
  | x :: l => foldl Z.max x l
  end.

(** The loop over the rows: what was the last sequence, and the gaps so far. *)
Fixpoint interior_gaps (prev : Z) (rows : list EventRow) : list GapMarker * Z :=
  match rows with
  | [] => ([], prev)
  | row :: rows =>
      let '(gaps, last) := interior_gaps (er_seq row) rows in
      (if prev + 1 <? er_seq row
       then {| gm_after_seq := prev; gm_before_seq := er_seq row; gm_missing_count := er_seq row - prev - 1;
               gm_reason := "append_failed" |} :: gaps else gaps, last)
  end.

Definition read_events_with_gaps (state_up high_water_up : bool) (run_id : string) (after_seq : option Z)
    : J (list EventRow * list GapMarker) :=
  rows ← read_events run_id after_seq;
  j ← gets id;
  let start := match after_seq with Some n => Z.max n 0 | None => 0 end in
  let '(gaps, prev) := interior_gaps start rows in
  let high_water := persisted_high_water high_water_up run_id j in
  let trailing :=
    if _is_terminal_run state_up run_id j && (prev <? high_water)
    then [{| gm_after_seq := prev; gm_before_seq := high_water + 1; gm_missing_count := high_water - prev;
             gm_reason := "append_failed_trailing" |}] else [] in
  mret (rows, gaps ++ trailing).

(** ** Lists and deletion *)

(** [ORDER BY started_at DESC, run_id DESC] *)
Definition newest_le (a b : RunRow) : Prop :=
  text_le (rr_started_at b) (rr_started_at a) ∧ (rr_started_at a = rr_started_at b → text_le (rr_run_id b) (rr_run_id a)).
#[export] Instance newest_le_dec a b : Decision (newest_le a b). Proof. unfold newest_le. apply _. Defined.

Definition summary (r : RunRow) : RunSummaryRow := {|
  rs_run_id := rr_run_id r; rs_workflow_name := rr_workflow_name r; rs_state := rr_state r; rs_tier := rr_tier r;
  rs_started_at := rr_started_at r; rs_finished_at := rr_finished_at r; rs_current_step_id := rr_current_step_id r |}.
Definition list_runs (state : option string) (limit offset : Z) : J (list RunSummaryRow) :=
  let limit := Z.max 1 (Z.min limit 500) in
  let offset := Z.max 0 offset in
  gets (λ j,
    let rows := select_where (λ r, match state with Some s => bool_decide (rr_state r = s) | None => true end)
                  (snd <$> map_to_list (j_runs j)) in
    summary <$> take (Z.to_nat limit) (drop (Z.to_nat offset) (merge_sort newest_le rows))).
Definition list_run_ids_by_age : J (list (string * string)) :=
  gets (λ j, (λ r, (rr_run_id r, rr_started_at r)) <$> merge_sort newest_le (snd <$> map_to_list (j_runs j))).

Definition delete_run_events (run_id : string) : J () := modify (on_events (filter (λ ke, ke.1.1 ≠ run_id))).
Definition delete_run (run_id : string) : J () := transaction (
  delete_run_events run_id ;;
  modify (on_seq (delete run_id)) ;;
  modify (on_steps (filter (λ kr, kr.1.1 ≠ run_id))) ;;
  modify (on_runs (delete run_id))).

(** ** Emission — [_next_event_seq], [_journal_event] and the re-seeding of
    [_rebuild_record_from_journal] of [services/workflow_service.py]

    For one run: the counter of its live record, if this process has one. *)

Record emitter := { em_journal : journal; em_event_seq : option Z }.
Definition set_journal (j : journal) (m : emitter) : emitter := {| em_journal := j; em_event_seq := em_event_seq m |}.

(** A journal call that reaches the database or not. *)
Definition reaching {S A} (up : bool) (m : M S A) : M S A := if up then m else raise (ExternalError "sqlite3.Error").
(** [try: .. except Exception: logger.warning(..)] *)
Definition best_effort {S A} (m : M S A) : M S () := catch (m ;; mret ()) (λ _, mret ()).

Definition with_seq (seq : Z) (e : EventRow) : EventRow := {|
  er_run_id := er_run_id e; er_seq := seq; er_event_type := er_event_type e;
  er_event_schema_version := er_event_schema_version e; er_ts := er_ts e; er_step_id := er_step_id e;
  er_attempt := er_attempt e; er_state := er_state e; er_elapsed_ms := er_elapsed_ms e; er_provider := er_provider e;
  er_agent_profile := er_agent_profile e; er_engine := er_engine e; er_terminal_id := er_terminal_id e;
  er_terminal_offset_start := er_terminal_offset_start e; er_terminal_offset_len := er_terminal_offset_len e;
  er_error_kind := er_error_kind e; er_reason := er_reason e; er_validation_result := er_validation_result e;
  er_output_ref := er_output_ref e; er_iteration := er_iteration e; er_which_guard_fired := er_which_guard_fired e |}.

(** The event of the arguments, whose sequence the call allocates; nothing happens in
    a process that has no record of the run. *)
Definition _journal_event (high_water_up append_up : bool) (event : EventRow) : M emitter () :=
  m ← gets id;
  match em_event_seq m with
  | None => mret ()
  | Some last =>
      let seq := last + 1 in
      modify (λ m, {| em_journal := em_journal m; em_event_seq := Some seq |}) ;;
      zoom em_journal set_journal (best_effort (reaching high_water_up (persist_high_water (er_run_id event) seq))) ;;
      zoom em_journal set_journal (best_effort (reaching append_up (append_event (with_seq seq event))))
  end.

Definition rebuild_event_seq (high_water_up max_up : bool) (run_id : string) : M emitter () :=
  modify (λ m, {| em_journal := em_journal m; em_event_seq := Some (
    Z.max (Z.max (persisted_high_water high_water_up run_id (em_journal m)) (max_event_seq max_up run_id (em_journal m)))
      (default 0 (em_event_seq m))) |}).
