(* ===== verification/FrozenMemory.v ===== *)
(** * The memory of a run, resolved once — [services/frozen_run_memory.py]

    Every terminal of a run asks for the memory block it must be given.  The first one
    to ask resolves it and stores it in the run's manifest; the others are given what is
    stored.  A caller is a sequence of steps, one per access to the journal or to the
    memory service, so that callers in any number of processes interleave; the journal
    is [Journal]'s, and what the memory service answers is an argument of the step. *)

From stdpp Require Import gmap.
From S2P Require Import Prelude Text Chars Secrets Envelope Json Manifest Journal.

Definition MEMORY_SOURCE_CURATED : string := "cao-memory:curated".

(** Where a caller is; [Answered None] is the answer that the caller resolve memory
    live, [Escaped] an exception of the memory service, which nothing catches. *)
Inductive caller :=
| Reading
| Resolving (row : string) (envelope : ExecutionManifestEnvelope)
| Storing (row : string) (filled : ExecutionManifestEnvelope)
| Reloading
| Answered (content : option json)
| Escaped.

Definition resolved_already (envelope : ExecutionManifestEnvelope) : bool := truthy (fm_source (em_memory envelope)).
(** The head of the loop. *)
Definition loop_head (row : string) (envelope : ExecutionManifestEnvelope) : caller :=
  if resolved_already envelope then Answered (Some (fm_content (em_memory envelope))) else Resolving row envelope.
(** What a row that was read leads to; [absent]: the answer when there is no manifest to
    be read. *)
Definition look (absent : option json) (row : option RunRow) : caller :=
  match row ≫= rr_manifest_json with
  | None => Answered absent
  | Some text => match parse (Some text) with None => Answered absent | Some envelope => loop_head text envelope end
  end.
Definition no_memory : json := JStr "".

(** One step of [frozen_memory_for]: [up] tells whether the journal answers, [resolved]
    what the memory service returns, if it does. *)
Definition frozen_memory_for (run_id : string) (up : bool) (resolved : option string) (c : caller) (j : journal) : journal * caller :=
  match c with
  | Reading =>
      if up then match get_run run_id j with (j, Returned row) => (j, look None row) | (j, Raised _) => (j, Answered None) end
      else (j, Answered None)
  | Resolving row envelope =>
      match resolved ≫= λ content, with_memory envelope content MEMORY_SOURCE_CURATED with
      | Some filled => (j, Storing row filled)
      | None => (j, Escaped)
      end
  | Storing row filled =>
      if up then
        match compare_and_set_run_manifest run_id row (serialise filled) j with
        | (j, Returned true) => (j, Answered (Some (fm_content (em_memory filled))))
        | (j, Returned false) => (j, Reloading)
        | (j, Raised _) => (j, Answered (Some no_memory))
        end
      else (j, Answered (Some no_memory))
  | Reloading =>
      if up then match get_run run_id j with (j, Returned row) => (j, look (Some no_memory) row) | (j, Raised _) => (j, Answered (Some no_memory)) end
      else (j, Answered (Some no_memory))
  | Answered _ | Escaped => (j, c)
  end.

(** ** Callers side by side *)

Definition manifest_of (run_id : string) (j : journal) : option string := j_runs j !! run_id ≫= rr_manifest_json.
#[local] Arguments manifest_of : simpl never.
Record scene := { sn_journal : journal; sn_callers : list caller }.
(** What happens next: a step of a caller, or some other writer of the journal, who
    leaves the manifest alone or deletes the run. *)
Inductive event :=
| Act (i : nat) (up : bool) (resolved : option string)
| Elsewhere (j : journal).
Definition happen (run_id : string) (e : event) (s : scene) : scene :=
  match e with
  | Act i up resolved =>
      match sn_callers s !! i with
      | Some c => let '(j, c) := frozen_memory_for run_id up resolved c (sn_journal s) in {| sn_journal := j; sn_callers := <[i := c]> (sn_callers s) |}
      | None => s
      end
  | Elsewhere j => {| sn_journal := j; sn_callers := sn_callers s |}
  end.
(** A sound event: another writer touches no manifest; the memory service returns texts. *)
Definition allowed (run_id : string) (e : event) (s : scene) : Prop :=
  match e with
  | Act _ _ resolved => ∀ content, resolved = Some content → valid_text content
  | Elsewhere j => manifest_of run_id j = manifest_of run_id (sn_journal s) ∨ manifest_of run_id j = None
  end.
Inductive history (run_id : string) : scene → list event → scene → Prop :=
| history_start s : history run_id s [] s
| history_next s es t e : history run_id s es t → allowed run_id e t → history run_id s (es ++ [e]) (happen run_id e t).

(** ** The invariant *)

Section Run.
Context (run_id : string) (first : ExecutionManifestEnvelope) (first_storable : storable first).

(** [e] was made of the first manifest by one filling. *)
Definition made (e : ExecutionManifestEnvelope) : Prop :=
  resolved_already first = false ∧ ∃ content, valid_text content ∧ with_memory first content MEMORY_SOURCE_CURATED = Some e.
(** [calm]: no access of the journal failed so far. *)
Definition caller_ok (calm : Prop) (now : ExecutionManifestEnvelope) (gone : Prop) (c : caller) : Prop :=
  match c with
  | Reading | Escaped => True
  | Resolving row envelope => resolved_already first = false ∧ row = serialise first ∧ envelope = first
  | Storing row filled => row = serialise first ∧ made filled
  | Reloading => gone ∨ resolved_already now = true
  | Answered a =>
      let stored := resolved_already now = true ∧ a = Some (fm_content (em_memory now)) in
      (a = None ∨ a = Some no_memory ∨ stored) ∧ (calm → gone ∨ stored)
  end.
Definition stored_as (now : ExecutionManifestEnvelope) (j : journal) : Prop := manifest_of run_id j = Some (serialise now) ∨ manifest_of run_id j = None.
Definition good_scene (calm : Prop) (now : ExecutionManifestEnvelope) (s : scene) : Prop :=
  storable now ∧ stored_as now (sn_journal s) ∧ (now = first ∨ made now)
  ∧ Forall (caller_ok calm now (manifest_of run_id (sn_journal s) = None)) (sn_callers s).

Lemma curated_source e content e' : storable e → valid_text content → with_memory e content MEMORY_SOURCE_CURATED = Some e' →
  storable e' ∧ resolved_already e' = true.
Proof.
  intros He Hc. rewrite with_memory_remembered. assert (valid_text MEMORY_SOURCE_CURATED) as Hs by (apply valid_eval; vm_compute; reflexivity).
  pose proof (remembered_storable e content _ He Hc Hs) as Hr. destruct (bound_storable _ _ Hr eq_refl (valid_redacted _ Hc)) as (e2 & H2 & Hst).
  intros H. rewrite H in H2. injection H2 as <-. split; [exact Hst|].
  destruct (bound_exact (remembered e content MEMORY_SOURCE_CURATED) _ eq_refl) as [[Hx _]|(_ & n & Hx & _)]; rewrite H in Hx; injection Hx as ->;
    vm_compute; reflexivity.
Qed.
Lemma made_resolved e : made e → storable e ∧ resolved_already e = true.
Proof. intros (_ & content & Hc & Hw). by eapply curated_source. Qed.
Lemma serialise_inj a b : storable a → storable b → serialise a = serialise b → a = b.
Proof. intros Ha Hb H. apply stored_reads in Ha, Hb. rewrite H in Ha. congruence. Qed.
Lemma look_stored absent now j : storable now → manifest_of run_id j = Some (serialise now) →
  look absent (j_runs j !! run_id) = loop_head (serialise now) now.
Proof. intros Hn Hm. unfold look. unfold manifest_of in Hm. rewrite Hm. by rewrite stored_reads. Qed.
Lemma look_gone absent j : manifest_of run_id j = None → look absent (j_runs j !! run_id) = Answered absent.
Proof. intros Hm. unfold look. unfold manifest_of in Hm. by rewrite Hm. Qed.
Lemma settle_ok calm now gone : now = first ∨ made now → caller_ok calm now gone (loop_head (serialise now) now).
Proof.
  intros Hn. unfold loop_head. destruct (resolved_already now) eqn:Hr.
  - simpl. auto.
  - destruct Hn as [->|Hn]; [done|]. apply made_resolved in Hn as [_ Hn]. congruence.
Qed.
Lemma look_ok calm now j absent : storable now → stored_as now j → now = first ∨ made now → absent = None ∨ absent = Some no_memory →
  caller_ok calm now (manifest_of run_id j = None) (look absent (j_runs j !! run_id)).
Proof.
  intros Hst [Hm|Hm] Hn Ha.
  - rewrite (look_stored _ now) by done. by apply settle_ok.
  - rewrite look_gone by done. simpl. split; [tauto|]. by left.
Qed.
(** Whoever stores finds the first manifest, or one that was filled since, or none. *)
Lemma store_cases now j filled : storable now → stored_as now j → now = first ∨ made now → made filled →
  (now = first ∧ manifest_of run_id j ≠ None ∧ ∃ j', compare_and_set_run_manifest run_id (serialise first) (serialise filled) j = (j', Returned true)
     ∧ manifest_of run_id j' = Some (serialise filled))
  ∨ compare_and_set_run_manifest run_id (serialise first) (serialise filled) j = (j, Returned false)
    ∧ (manifest_of run_id j = None ∨ resolved_already now = true).
Proof.
  intros Hst Hs Hn Hf. unfold compare_and_set_run_manifest, stored_as, manifest_of in *.
  destruct (j_runs j !! run_id) as [r|] eqn:E; simpl in *; [|by right; auto].
  case_bool_decide as Hr.
  - left. destruct Hs as [Hs|Hs]; [|congruence]. split; [apply serialise_inj; [done|done|congruence]|]. split; [congruence|].
    eexists. split; [done|]. simpl. by rewrite lookup_insert_eq.
  - right. split; [done|]. destruct Hs as [Hs|Hs]; [|by left]. right. destruct Hn as [->|Hn]; [congruence|]. by apply made_resolved in Hn as [_ ?].
Qed.
Lemma caller_weaken (calm calm' gone gone' : Prop) now c : (calm' → calm) → (gone → gone') → caller_ok calm now gone c → caller_ok calm' now gone' c.
Proof. destruct c; simpl; tauto. Qed.
Lemma caller_refill (calm gone gone' : Prop) filled c : ¬ gone → made filled → caller_ok calm first gone c → caller_ok calm filled gone' c.
Proof.
  intros Hg Hm. pose proof (made_resolved _ Hm) as [_ Hr]. destruct Hm as [Hf _]. destruct c; simpl; rewrite ?Hf; try done; intuition congruence.
Qed.
Lemma step_ok calm now j i up resolved c l : storable now → stored_as now j → now = first ∨ made now →
  Forall (caller_ok calm now (manifest_of run_id j = None)) l → caller_ok calm now (manifest_of run_id j = None) c →
  (∀ content, resolved = Some content → valid_text content) →
  ∃ now', let '(j', c') := frozen_memory_for run_id up resolved c j in
    good_scene (calm ∧ up = true) now' {| sn_journal := j'; sn_callers := <[i := c']> l |}.
Proof.
  intros Hst Hj Hn Hl Hc Hres.
  assert (∀ gone : Prop, ((manifest_of run_id j = None) → gone) → Forall (caller_ok (calm ∧ up = true) now gone) l) as Hl'
    by (intros gone Hgone; eapply Forall_impl; [exact Hl|]; intros x; apply caller_weaken; tauto).
  assert (∀ c', caller_ok (calm ∧ up = true) now (manifest_of run_id j = None) c' →
    good_scene (calm ∧ up = true) now {| sn_journal := j; sn_callers := <[i := c']> l |}) as Hstay
    by (intros c' Hc'; split_and!; [done..|]; by apply Forall_insert; [apply Hl'|]).
  assert (∀ a, up = false → a = None ∨ a = Some no_memory → caller_ok (calm ∧ up = true) now (manifest_of run_id j = None) (Answered a)) as Hdown
    by (intros a -> Ha; simpl; split; [tauto|]; by intros [_ [=]]).
  destruct c as [|row envelope|row filled| |a|]; simpl.
  - exists now. destruct up; apply Hstay; [apply look_ok; auto|by apply Hdown; auto].
  - destruct Hc as (Hf & -> & ->). exists now. destruct resolved as [content|]; simpl; [|by apply Hstay].
    destruct (with_memory first content MEMORY_SOURCE_CURATED) as [filled|] eqn:E; apply Hstay; [|done].
    split; [done|]. split; [done|]. exists content. by split; [apply Hres|].
  - destruct Hc as [-> Hm]. destruct up; [|exists now; apply Hstay, Hdown; auto].
    destruct (store_cases now j filled Hst Hj Hn Hm) as [(-> & Hg & j' & -> & Hj')|[-> Hrel]].
    + exists filled. pose proof (made_resolved _ Hm) as [Hsf Hr]. split_and!; [done|by left|by right|].
      apply Forall_insert.
      * eapply Forall_impl; [exact Hl|]. intros x Hx. apply (caller_weaken calm _ (manifest_of run_id j' = None) _); [tauto|done|]. by eapply caller_refill.
      * simpl. split; [auto|]. intros _. by right.
    + exists now. apply Hstay. simpl. tauto.
  - exists now. destruct up; apply Hstay; [apply look_ok; auto|by apply Hdown; auto].
  - exists now. apply Hstay. eapply caller_weaken; [| |exact Hc]; tauto.
  - exists now. by apply Hstay.
Qed.

Definition sound (e : event) : Prop := match e with Act _ up _ => up = true | Elsewhere _ => True end.
Lemma happens_ok calm now s e : good_scene calm now s → allowed run_id e s → ∃ now', good_scene (calm ∧ sound e) now' (happen run_id e s).
Proof.
  intros (Hst & Hj & Hn & Hl) Ha. destruct e as [i up resolved|j]; simpl in Ha.
  - unfold happen. destruct (sn_callers s !! i) as [c|] eqn:E.
    + destruct (step_ok calm now (sn_journal s) i up resolved c (sn_callers s)) as (now' & H); try done; [by eapply Forall_lookup_1|].
      exists now'. by destruct (frozen_memory_for run_id up resolved c (sn_journal s)).
    + exists now. split_and!; try done. eapply Forall_impl; [exact Hl|]. intros x. apply caller_weaken; tauto.
  - exists now. unfold good_scene, stored_as in *. split_and!; [done| |done|]; simpl.
    + destruct Ha as [->| ->]; [done|by right].
    + eapply Forall_impl; [exact Hl|]. intros x. apply caller_weaken; [tauto|]. simpl. destruct Ha as [->| ->]; done.
Qed.
Lemma history_ok s es t : manifest_of run_id (sn_journal s) = Some (serialise first) → Forall (λ c, c = Reading) (sn_callers s) →
  history run_id s es t → ∃ now, good_scene (Forall sound es) now t.
Proof.
  intros Hm Hc. induction 1 as [|s es t e _ IH Ha].
  - exists first. split_and!; [done|by left|by left|]. eapply Forall_impl; [exact Hc|]. by intros c ->.
  - destruct (IH Hm Hc) as (now & Hg). destruct (happens_ok _ _ _ _ Hg Ha) as (now' & Hst & Hj & Hn & Hl). exists now'.
    split_and!; [done..|]. eapply Forall_impl; [exact Hl|]. intros x. apply caller_weaken; [|done]. rewrite Forall_app, Forall_singleton. tauto.
Qed.

(** How many steps a caller has made, unless it is over. *)
Definition over (c : caller) : Prop := match c with Answered _ | Escaped => True | _ => False end.
Definition rank (c : caller) : nat := match c with Reading => 0 | Resolving _ _ => 1 | Storing _ _ => 2 | Reloading => 3 | _ => 4 end.
Definition act_of (i : nat) (e : event) : nat := match e with Act k _ _ => if decide (k = i) then 1%nat else 0%nat | Elsewhere _ => 0%nat end.
Fixpoint acts (i : nat) (es : list event) : nat := match es with [] => 0%nat | e :: es => (act_of i e + acts i es)%nat end.
Lemma acts_snoc i es e : acts i (es ++ [e]) = (acts i es + act_of i e)%nat.
Proof. induction es as [|x es IH]; [simpl; lia|]. rewrite <-app_comm_cons. cbn [acts]. lia. Qed.

Lemma step_rank calm now j up resolved c : storable now → stored_as now j → now = first ∨ made now →
  caller_ok calm now (manifest_of run_id j = None) c → ¬ over c →
  let c' := (frozen_memory_for run_id up resolved c j).2 in over c' ∨ rank c' = S (rank c).
Proof.
  intros Hst Hj Hn Hc Ho.
  assert (∀ absent, over (look absent (j_runs j !! run_id)) ∨ rank (look absent (j_runs j !! run_id)) = 1%nat ∧ resolved_already now = false
    ∧ manifest_of run_id j ≠ None) as Hlook.
  { intros absent. destruct Hj as [Hm|Hm]; [|rewrite look_gone by done; by left]. rewrite (look_stored _ now) by done. unfold loop_head.
    destruct (resolved_already now); [by left|]. right. split_and!; [done|done|congruence]. }
  destruct c as [|row envelope|row filled| | |]; simpl in *; try done.
  - destruct up; [|by left]. simpl. destruct (Hlook None) as [|[? _]]; auto.
  - destruct (_ ≫= _); [by right|by left].
  - destruct Hc as [-> Hm]. destruct up; [|by left]. destruct (store_cases now j filled Hst Hj Hn Hm) as [(_ & _ & j' & -> & _)|[-> _]]; [by left|by right].
  - destruct up; [|by left]. simpl. left. destruct (Hlook (Some no_memory)) as [|(_ & Hr & Hg)]; [done|]. destruct Hc; congruence.
Qed.
Lemma history_ranks s es t i c : manifest_of run_id (sn_journal s) = Some (serialise first) → Forall (λ c, c = Reading) (sn_callers s) →
  history run_id s es t → sn_callers t !! i = Some c → over c ∨ acts i es = rank c.
Proof.
  intros Hm Hc H. revert c. induction H as [|s es t e Hh IH Ha]; intros c Hi.
  - right. rewrite Forall_lookup in Hc. by rewrite (Hc _ _ Hi).
  - rewrite acts_snoc. destruct e as [k up resolved|j]; simpl in *; [|rewrite Nat.add_0_r; auto].
    destruct (sn_callers t !! k) as [c0|] eqn:Hk.
    + destruct (history_ok s es t Hm Hc Hh) as (now & Hst & Hj & Hn & Hl).
      assert (caller_ok (Forall sound es) now (manifest_of run_id (sn_journal t) = None) c0) as Hok by by eapply Forall_lookup_1.
      pose proof (step_rank _ now (sn_journal t) up resolved c0 Hst Hj Hn Hok) as Hs.
      destruct (decide (k = i)) as [->|Hne].
      * assert (over c0 → c = c0) as Hover.
        { intros Ho. destruct c0; try done; simpl in Hi; rewrite list_lookup_insert_eq in Hi by (by eapply lookup_lt_Some); congruence. }
        assert (c = (frozen_memory_for run_id up resolved c0 (sn_journal t)).2) as ->.
        { destruct (frozen_memory_for _ _ _ _ _). simpl in *. rewrite list_lookup_insert_eq in Hi by (by eapply lookup_lt_Some). congruence. }
        destruct (IH Hm Hc _ Hk) as [Ho|Hr]; [left; by rewrite Hover|].
        assert (over c0 ∨ ¬ over c0) as [Ho|Ho] by (destruct c0; simpl; tauto); [left; by rewrite Hover|].
        destruct (Hs Ho) as [|E]; [by left|]. right. rewrite E, Hr. lia.
      * rewrite Nat.add_0_r. apply IH; [done|done|]. destruct (frozen_memory_for _ _ _ _ _). simpl in Hi. by rewrite list_lookup_insert_ne in Hi.
    + destruct (decide (k = i)) as [->|]; [congruence|]. rewrite Nat.add_0_r. by apply IH.
Qed.

Lemma made_keeps e : made e → plan_fields e = plan_fields first ∧ optional_fields e = optional_fields first.
Proof.
  intros (_ & content & _ & Hw). rewrite with_memory_remembered in Hw.
  destruct (bound_exact (remembered first content MEMORY_SOURCE_CURATED) _ eq_refl) as [[Hx _]|(_ & n & Hx & _)]; rewrite Hw in Hx; by injection Hx as ->.
Qed.
End Run.

(** [C18] A run has one memory.  Whatever the interleaving of the callers of a run, the
    texts the memory service returns them, the faults they meet and what other writers
    do, short of another manifest: the manifest is filled at most once, never if it was
    filled before, and the fields its plan was approved by stay; every caller that is
    given a memory is given the one the manifest holds, or none; while no access fails
    and the run is not deleted, each of them is given that memory; and a caller is over
    after four steps of its own, its memory service having failed at the worst. *)
Theorem frozen_memory_is_one run_id first s es t :
  storable first → manifest_of run_id (sn_journal s) = Some (serialise first) → Forall (λ c, c = Reading) (sn_callers s) →
  history run_id s es t →
  ∃ now, (manifest_of run_id (sn_journal t) = Some (serialise now) ∨ manifest_of run_id (sn_journal t) = None)
  ∧ (now = first ∨ resolved_already first = false ∧ resolved_already now = true
       ∧ ∃ content, with_memory first content MEMORY_SOURCE_CURATED = Some now)
  ∧ plan_fields now = plan_fields first ∧ optional_fields now = optional_fields first
  ∧ (∀ i a, sn_callers t !! i = Some (Answered a) →
       let stored := resolved_already now = true ∧ a = Some (fm_content (em_memory now)) in
       (a = None ∨ a = Some no_memory ∨ stored)
       ∧ (Forall sound es → manifest_of run_id (sn_journal t) ≠ None → stored))
  ∧ (∀ i c, sn_callers t !! i = Some c → (4 ≤ acts i es)%nat → over c).
Proof.
  intros Hf Hm Hc Hh. destruct (history_ok run_id first Hf s es t Hm Hc Hh) as (now & Hst & Hj & Hn & Hl). exists now.
  split; [exact Hj|]. split; [|split_and!].
  - destruct Hn as [->|Hn]; [by left|right]. pose proof (made_resolved first Hf now Hn) as [_ Hr]. destruct Hn as (H1 & content & _ & Hw). eauto.
  - destruct Hn as [->|Hn]; [done|]. by apply made_keeps.
  - destruct Hn as [->|Hn]; [done|]. by apply made_keeps.
  - intros i a Hi. rewrite Forall_lookup in Hl. destruct (Hl _ _ Hi) as [H1 H2]. split; [exact H1|]. intros Hs Hg. destruct (H2 Hs); [done|assumption].
  - intros i c Hi H4. destruct (history_ranks run_id first Hf s es t i c Hm Hc Hh Hi) as [Ho|Hr]; [done|].
    rewrite Hr in H4. destruct c; simpl in H4; try lia; done.
Qed.

(** ** Two terminals of one run *)

Definition sample_row : RunRow := set_manifest (Some (serialise (filled sample_fields)))
  (new_run "r" "review" "{}" "{}" "running" "2026-01-01T00:00:00+00:00" "script" "1" None).
Definition sample_scene : scene :=
  {| sn_journal := {| j_runs := {["r" := sample_row]}; j_steps := ∅; j_events := ∅; j_seq := ∅ |}; sn_callers := [Reading; Reading] |}%string.
(** Both read, both resolve, to different texts; the first one stores. *)
Definition race : list event :=
  [Act 0 true None; Act 1 true None; Act 0 true (Some "prefers tabs"); Act 1 true (Some "prefers spaces");
   Act 0 true None; Act 1 true None; Act 1 true None]%string.
Definition texts_only (e : event) : Prop := match e with Act _ _ resolved => ∀ content, resolved = Some content → valid_text content | Elsewhere _ => False end.
Lemma acts_history run_id s es : Forall texts_only es → history run_id s es (foldl (λ s e, happen run_id e s) s es).
Proof.
  induction es as [|e es IH] using rev_ind; intros H; [constructor|].
  rewrite Forall_app, Forall_singleton in H. destruct H as [H He]. rewrite foldl_app.
  simpl. apply history_next; [by apply IH|]. destruct e; [exact He|destruct He].
Qed.
Lemma race_texts : Forall texts_only race.
Proof.
  repeat (apply Forall_cons_2; [intros content E; first [discriminate E|injection E as <-; apply valid_eval; vm_compute; reflexivity]|]).
  apply Forall_nil_2.
Qed.
Definition after_race : scene := foldl (λ s e, happen "r" e s) sample_scene race.
Example race_agrees : sn_callers after_race =
  [Answered (Some (JStr "prefers tabs")); Answered (Some (JStr "prefers tabs"))]%string.
Proof. vm_compute. reflexivity. Qed.
Lemma frozen_memory_is_one_witness : ∃ now, resolved_already now = true ∧ Some (JStr "prefers tabs") = Some (fm_content (em_memory now)).
Proof.
  destruct (frozen_memory_is_one "r" (filled sample_fields) sample_scene race after_race) as (now & _ & _ & _ & _ & Ha & _).
  - apply filled_storable, sample_plain.
  - unfold manifest_of, sample_scene. simpl. rewrite lookup_singleton_eq. reflexivity.
  - repeat constructor.
  - apply acts_history, race_texts.
  - exists now. destruct (Ha 0%nat (Some (JStr "prefers tabs"%string))) as [_ Hs]; [vm_compute; reflexivity|]. apply Hs.
    + repeat constructor.
    + vm_compute. discriminate.
Defined.

(** What is not promised: a run whose memory is stored reads live memory when its row
    cannot be read, and an exception of the memory service is the caller's. *)
Example read_fault_resolves_live : (frozen_memory_for "r" false None Reading (sn_journal after_race)).2 = Answered None
  ∧ (frozen_memory_for "r" true None Reading (sn_journal after_race)).2 = Answered (Some (JStr "prefers tabs")).
Proof. split; vm_compute; reflexivity. Qed.
Example memory_fault_escapes row envelope j : frozen_memory_for "r" true None (Resolving row envelope) j = (j, Escaped).
Proof. reflexivity. Qed.
