(* ===== verification/JournalThms.v ===== *)
(** * What the journal's readers and its decisions promise *)

From stdpp Require Import gmap.
From S2P Require Import Prelude Secrets Envelope Journal.

(** ** Events and their gaps *)

Definition seqs (rows : list EventRow) : list Z := er_seq <$> rows.
Definition in_gap (n : Z) (g : GapMarker) : Prop := gm_after_seq g < n < gm_before_seq g.

(** The keys of the table are those of its rows. *)
Definition events_ok (j : journal) : Prop :=
  ∀ run_id seq e, j_events j !! (run_id, seq) = Some e → er_run_id e = run_id ∧ er_seq e = seq.

Lemma run_events_spec run_id j e : events_ok j →
  e ∈ run_events run_id j ↔ j_events j !! (run_id, er_seq e) = Some e.
Proof.
  intros Hok. unfold run_events. rewrite list_elem_of_fmap. split.
  - intros ([[r n] e'] & -> & [Hr Hin]%list_elem_of_filter). simpl in *. subst r. apply elem_of_map_to_list in Hin.
    by destruct (Hok _ _ _ Hin) as [_ ->].
  - intros H. exists ((run_id, er_seq e), e). split; [done|]. apply list_elem_of_filter. split; [done|].
    by apply elem_of_map_to_list.
Qed.

Lemma run_events_keys run_id j : events_ok j → NoDup (seqs (run_events run_id j)).
Proof.
  intros Hok. unfold seqs, run_events. rewrite <- list_fmap_compose.
  assert (∀ l, NoDup l → (∀ x, x ∈ l → j_events j !! x.1 = Some x.2 ∧ x.1.1 = run_id) →
    NoDup ((λ x : string * Z * EventRow, er_seq x.2) <$> l)) as Hgen.
  { induction 1 as [|x l Hx Hl IH]; intros Hall; [constructor|]. rewrite fmap_cons. constructor.
    - intros (y & Hy & Hin)%list_elem_of_fmap. apply Hx. destruct x as [[r n] e], y as [[r' n'] e'].
      destruct (Hall ((r, n), e)) as [H1 H2]; [left|]. destruct (Hall ((r', n'), e')) as [H3 H4]; [by right|].
      simpl in *. subst r r'. destruct (Hok _ _ _ H1) as [_ <-], (Hok _ _ _ H3) as [_ <-]. rewrite Hy in *. congruence.
    - apply IH. intros y Hy. apply Hall. by right. }
  apply Hgen.
  - apply NoDup_filter, NoDup_map_to_list.
  - intros [[r n] e] [Hr Hin]%list_elem_of_filter. simpl in *. by apply elem_of_map_to_list in Hin.
Qed.

Lemma seq_le_total a b : seq_le a b ∨ seq_le b a.
Proof. unfold seq_le. lia. Qed.

(** Rows in strictly increasing order. *)
Definition ascending (rows : list EventRow) : Prop := StronglySorted (λ a b, er_seq a < er_seq b) rows.

Lemma sorted_ascending l : NoDup (seqs l) → ascending (merge_sort seq_le l).
Proof.
  intros Hnd. assert (NoDup (seqs (merge_sort seq_le l))) as Hnd'.
  { unfold seqs. by rewrite merge_sort_Permutation. }
  assert (StronglySorted seq_le (merge_sort seq_le l)) as Hs.
  { apply Sorted_StronglySorted; [intros a b c; unfold seq_le; lia|]. apply Sorted_merge_sort. intros a b. apply seq_le_total. }
  revert Hnd'. unfold ascending, seqs. induction Hs as [|x k Hk IH Hx]; intros Hnd'; [constructor|].
  rewrite fmap_cons in Hnd'. apply NoDup_cons in Hnd' as [Hnin Hnd']. constructor; [by apply IH|].
  rewrite Forall_forall in Hx |- *. intros y Hy. specialize (Hx y Hy). unfold seq_le in Hx.
  assert (er_seq x ≠ er_seq y); [|lia]. intros E. apply Hnin. rewrite E. by apply list_elem_of_fmap_2.
Qed.

(** The markers between the rows cover what is missing, and nothing else. *)
Lemma interior_spec prev rows gaps last :
  interior_gaps prev rows = (gaps, last) → ascending rows → Forall (λ e, prev < er_seq e) rows →
  prev <= last
  ∧ (∀ e, e ∈ rows → er_seq e <= last)
  ∧ (∀ n, Exists (in_gap n) gaps ↔ prev < n <= last ∧ n ∉ seqs rows)
  ∧ Forall (λ g, prev <= gm_after_seq g ∧ gm_before_seq g <= last
                 ∧ gm_missing_count g = gm_before_seq g - gm_after_seq g - 1 ∧ 0 < gm_missing_count g) gaps
  ∧ StronglySorted (λ a b, gm_before_seq a <= gm_after_seq b) gaps.
Proof.
  revert prev gaps last. induction rows as [|x rows IH]; intros prev gaps last; simpl.
  { intros [= <- <-] _ _. split_and!; [done|by intros ? ?%not_elem_of_nil|intros n; rewrite Exists_nil; lia|constructor..]. }
  destruct (interior_gaps (er_seq x) rows) as [gaps' last'] eqn:E. intros H Ha Hp.
  apply StronglySorted_inv in Ha as [Ha Hx]. apply Forall_cons in Hp as [Hpx Hp].
  destruct (IH _ _ _ E Ha Hx) as (H1 & H2 & H3 & H4 & H5). injection H as Hg ->.
  assert (∀ n, Exists (in_gap n) gaps ↔ (prev < n < er_seq x) ∨ Exists (in_gap n) gaps') as Hex.
  { intros n. subst gaps. destruct (Z.ltb_spec (prev + 1) (er_seq x)); [rewrite Exists_cons; unfold in_gap; simpl; tauto|].
    intuition lia. }
  split_and!; [lia|by intros e [->|He]%elem_of_cons; [|apply H2]| | |].
  - intros n. rewrite Hex, H3. change (seqs (x :: rows)) with (er_seq x :: seqs rows). rewrite not_elem_of_cons. split.
    + intros [Hn|[Hn Hnin]]; [|split; [lia|split; [lia|done]]]. split; [lia|]. split; [lia|].
      intros (e & -> & He)%list_elem_of_fmap. rewrite Forall_forall in Hx. specialize (Hx e He). lia.
    + intros (Hn & Hne & Hnin). destruct (Z.lt_total n (er_seq x)) as [?|[?|?]]; [left; lia|done|right; split; [lia|done]].
  - assert (Forall (λ g, prev <= gm_after_seq g ∧ gm_before_seq g <= last
      ∧ gm_missing_count g = gm_before_seq g - gm_after_seq g - 1 ∧ 0 < gm_missing_count g) gaps') as H4'
      by (eapply Forall_impl; [exact H4|]; simpl; lia).
    subst gaps. destruct (Z.ltb_spec (prev + 1) (er_seq x)); [|done]. constructor; [simpl; lia|done].
  - subst gaps. destruct (prev + 1 <? er_seq x); [|done]. constructor; [done|].
    eapply Forall_impl; [exact H4|]. simpl. lia.
Qed.

(** What a reader of a run may know to exist: up to the last row, and, once the run is
    over, up to the highest sequence that was handed out. *)
Definition known_to (state_up high_water_up : bool) (run_id : string) (start : Z) (rows : list EventRow) (j : journal) : Z :=
  let last := foldl Z.max start (seqs rows) in
  if _is_terminal_run state_up run_id j then Z.max last (persisted_high_water high_water_up run_id j) else last.

Lemma interior_last prev rows gaps last :
  interior_gaps prev rows = (gaps, last) → ascending rows → Forall (λ e, prev < er_seq e) rows →
  last = foldl Z.max prev (seqs rows).
Proof.
  revert prev gaps last. induction rows as [|x rows IH]; intros prev gaps last; simpl; [by intros [= <- <-]|].
  destruct (interior_gaps (er_seq x) rows) as [gaps' last'] eqn:E. intros [= _ <-] Ha Hp.
  apply StronglySorted_inv in Ha as [Ha Hx]. apply Forall_cons in Hp as [Hpx Hp].
  rewrite (IH _ _ _ E Ha Hx). f_equal. lia.
Qed.

(** Gaps are exact.  A reader gets the run's events after its cursor, each once
    and in order, and markers of what is missing: a sequence after the cursor is
    within a marker exactly when it is known to have been handed out and its event is
    not there — up to the last event that was read, and, once the run is over, up to
    the highest sequence persisted for it.  Markers are in order, do not overlap, are
    not empty and count what they cover. *)
Theorem gaps_are_exact state_up high_water_up run_id after_seq j :
  events_ok j → (∀ n e, j_events j !! (run_id, n) = Some e → 0 < n) →
  ∃ rows gaps, read_events_with_gaps state_up high_water_up run_id after_seq j = (j, Returned (rows, gaps))
  ∧ let start := default 0 (Z.max 0 <$> after_seq) in
    let top := known_to state_up high_water_up run_id start rows j in
    ascending rows
    ∧ (∀ e, e ∈ rows ↔ j_events j !! (run_id, er_seq e) = Some e ∧ start < er_seq e)
    ∧ (∀ n, Exists (in_gap n) gaps ↔ start < n <= top ∧ j_events j !! (run_id, n) = None)
    ∧ Forall (λ g, gm_missing_count g = gm_before_seq g - gm_after_seq g - 1 ∧ 0 < gm_missing_count g) gaps
    ∧ StronglySorted (λ a b, gm_before_seq a <= gm_after_seq b) gaps.
Proof.
  intros Hok Hpos. unfold read_events_with_gaps, read_events.
  set (rows := merge_sort seq_le (select_where (is_after after_seq) (run_events run_id j))). set (start := match after_seq with Some n => Z.max n 0 | None => 0 end).
  assert (default 0 (Z.max 0 <$> after_seq) = start) as Hst by (unfold start; destruct after_seq; simpl; lia).
  assert (∀ e, e ∈ rows ↔ j_events j !! (run_id, er_seq e) = Some e ∧ start < er_seq e) as Hin.
  { intros e. unfold rows. rewrite merge_sort_Permutation, elem_of_select, run_events_spec by done.
    unfold start, is_after. destruct after_seq as [n|]; rewrite ?Z.ltb_lt; split; intros [H1 H2]; split; try done;
      first [pose proof (Hpos _ _ H2)|pose proof (Hpos _ _ H1)]; lia. }
  assert (ascending rows) as Hasc.
  { apply sorted_ascending. unfold seqs. eapply NoDup_key_sublist; [by apply run_events_keys|]. apply select_where_sublist. }
  assert (Forall (λ e, start < er_seq e) rows) as Hall by (apply Forall_forall; intros e He; by apply Hin).
  destruct (interior_gaps start rows) as [gaps last] eqn:E.
  destruct (interior_spec _ _ _ _ E Hasc Hall) as (H1 & H2 & H3 & H4 & H5).
  pose proof (interior_last _ _ _ _ E Hasc Hall) as Hlast.
  set (high := persisted_high_water high_water_up run_id j).
  assert (∀ n, start < n → n ∉ seqs rows ↔ j_events j !! (run_id, n) = None) as Habs.
  { intros n Hn. split; intros Hno.
    - destruct (j_events j !! (run_id, n)) as [e|] eqn:Ee; [|done]. destruct Hno. destruct (Hok _ _ _ Ee) as [_ <-].
      apply list_elem_of_fmap_2, Hin. by split.
    - intros (e & -> & He%Hin)%list_elem_of_fmap. destruct He as [He _]. by rewrite He in Hno. }
  assert (∀ n, Exists (in_gap n) gaps ↔ start < n <= last ∧ j_events j !! (run_id, n) = None) as Hex.
  { intros n. rewrite H3. split; intros [Hn Hno]; (split; [done|]); apply Habs; by lia || done. }
  assert (Forall (λ g, gm_missing_count g = gm_before_seq g - gm_after_seq g - 1 ∧ 0 < gm_missing_count g) gaps) as Hcount
    by (eapply Forall_impl; [exact H4|]; simpl; intros ? (?&?&?&?); done).
  exists rows, (gaps ++ if _is_terminal_run state_up run_id j && (last <? high)
    then [{| gm_after_seq := last; gm_before_seq := high + 1; gm_missing_count := high - last;
             gm_reason := "append_failed_trailing" |}] else []). split; [unfold mbind, M_bind; cbn [fst snd gets]; fold rows; fold start; rewrite E; reflexivity|].
  cbn zeta. rewrite Hst. unfold known_to. rewrite <- Hlast. fold high.
  split; [done|]. split; [exact Hin|].
  destruct (_is_terminal_run state_up run_id j); simpl; [|by rewrite app_nil_r].
  destruct (Z.ltb_spec last high); [|by rewrite app_nil_r, Z.max_l by lia].
  rewrite Z.max_r by lia. split; [|split].
  - intros n. rewrite Exists_app, Hex, Exists_cons, Exists_nil. unfold in_gap. simpl. split.
    + intros [[Hn Hno]|[Hn|[]]]; [by split; [lia|]|].
      split; [lia|]. apply Habs; [lia|]. intros (e & -> & He)%list_elem_of_fmap. specialize (H2 e He). lia.
    + intros [Hn Hno]. destruct (Z.le_gt_cases n last); [left; by split; [lia|]|right; left; lia].
  - apply Forall_app. split; [done|]. repeat constructor; simpl; lia.
  - apply StronglySorted_snoc; [done|]. intros g Hg. rewrite Forall_forall in H4. destruct (H4 g Hg) as (?&?&?&?). simpl. lia.
Qed.

Definition sample_event (n : Z) (e : string) : EventRow := {|
  er_run_id := "r1"; er_seq := n; er_event_type := e; er_event_schema_version := 1; er_ts := "t"; er_step_id := None;
  er_attempt := None; er_state := None; er_elapsed_ms := None; er_provider := None; er_agent_profile := None;
  er_engine := None; er_terminal_id := None; er_terminal_offset_start := None; er_terminal_offset_len := None;
  er_error_kind := None; er_reason := None; er_validation_result := None; er_output_ref := None; er_iteration := None;
  er_which_guard_fired := None |}.
Definition empty_journal : journal := {| j_runs := ∅; j_steps := ∅; j_events := ∅; j_seq := ∅ |}.
(** Events 2 and 5 of a finished run, for which 7 were handed out. *)
Definition gapped : journal := {|
  j_runs := {[ "r1"%string := new_run "r1" "w" "" "" "completed" "t0" "yaml" "1" None ]}; j_steps := ∅;
  j_events := {[ ("r1"%string, 2) := sample_event 2 "step_started"; ("r1"%string, 5) := sample_event 5 "step_done" ]};
  j_seq := {[ "r1"%string := 7 ]} |}.

Lemma gapped_ok : events_ok gapped ∧ ∀ n e, j_events gapped !! ("r1"%string, n) = Some e → 0 < n.
Proof.
  split.
  - intros r n e H. simpl in H. rewrite lookup_insert_Some, lookup_singleton_Some in H.
    destruct H as [[E <-]|[_ [E <-]]]; by injection E as <- <-.
  - intros n e H. simpl in H. rewrite lookup_insert_Some, lookup_singleton_Some in H.
    destruct H as [[E <-]|[_ [E <-]]]; injection E as <-; lia.
Defined.

Lemma gaps_are_exact_witness :
  ∃ rows gaps, read_events_with_gaps true true "r1" (Some 1) gapped = (gapped, Returned (rows, gaps))
  ∧ ∀ n, Exists (in_gap n) gaps ↔ 1 < n <= known_to true true "r1" 1 rows gapped ∧ j_events gapped !! ("r1"%string, n) = None.
Proof.
  destruct (gaps_are_exact true true "r1" (Some 1) gapped) as (rows & gaps & H1 & _ & _ & H2 & _);
    [exact (proj1 gapped_ok)|exact (proj2 gapped_ok)|]. exists rows, gaps. by split.
Defined.

Example gapped_reads :
  match value_of (read_events_with_gaps true true "r1" (Some 1) gapped) with
  | Returned (rows, gaps) =>
      (er_seq <$> rows, (λ g, (gm_after_seq g, gm_before_seq g, gm_missing_count g)) <$> gaps)
      = ([2; 5], [(2, 5, 2); (5, 8, 2)])
  | Raised _ => False
  end.
Proof. vm_compute. reflexivity. Qed.

(** ** Emission under failing writes and restarts *)

(** A call of the engine of one run: an emission with the fates of its two writes, a
    rebuild with those of its two reads, or the end of the process. *)
Inductive emission := Emit (high_water_up append_up : bool) (event : EventRow) | Rebuild (high_water_up max_up : bool) | Crash.

Section Emission.
Context (run_id : string).

Definition emits (q : emission) : M emitter () :=
  match q with
  | Emit h a e => _journal_event h a e
  | Rebuild h x => rebuild_event_seq h x run_id
  | Crash => modify (λ m, {| em_journal := em_journal m; em_event_seq := None |})
  end.
Definition emissions (qs : list emission) (m : emitter) : emitter := foldl (λ m q, state_of (emits q m)) m qs.

(** A process that has no record of the run reads the database when it rebuilds one;
    emissions are of this run. *)
Definition readable_rebuild (m : emitter) (q : emission) : Prop :=
  match q with
  | Rebuild h x => em_event_seq m = None → h = true ∧ x = true
  | Emit _ _ e => er_run_id e = run_id
  | Crash => True
  end.
Fixpoint orderly (qs : list emission) (m : emitter) : Prop :=
  match qs with [] => True | q :: qs => readable_rebuild m q ∧ orderly qs (state_of (emits q m)) end.

(** Every stored sequence is below the counter, and positive. *)
Definition floored (m : emitter) : Prop :=
  events_ok (em_journal m)
  ∧ (∀ n e, j_events (em_journal m) !! (run_id, n) = Some e → 0 < n ∧ (∀ s, em_event_seq m = Some s → n <= s))
  ∧ (∀ s, em_event_seq m = Some s → 0 <= s).

Lemma max_event_seq_spec j n e : events_ok j → j_events j !! (run_id, n) = Some e → n <= max_event_seq true run_id j.
Proof.
  intros Hok He. assert (e ∈ run_events run_id j) as Hin.
  { apply run_events_spec; [done|]. by destruct (Hok _ _ _ He) as [_ ->]. }
  assert (n ∈ er_seq <$> run_events run_id j) as Hn.
  { apply list_elem_of_fmap. exists e. split; [|done]. by destruct (Hok _ _ _ He). }
  unfold max_event_seq. destruct (er_seq <$> run_events run_id j) as [|x l]; [by apply not_elem_of_nil in Hn|]. clear -Hn.
  revert x Hn. induction l as [|y l IH]; intros x Hn; simpl.
  - apply list_elem_of_singleton in Hn. lia.
  - assert (∀ l a, a <= foldl Z.max a l) as Hge by (clear; induction l as [|b l IH]; intros a; simpl; [lia|]; specialize (IH (Z.max a b)); lia).
    apply elem_of_cons in Hn as [->|[->|Hn]%elem_of_cons].
    + etrans; [|apply Hge]. lia.
    + etrans; [|apply Hge]. lia.
    + apply IH. by right.
Qed.

Definition landed_events (s : Z) (h a : bool) (e : EventRow) (m : emitter) : emitter := {|
  em_journal :=
    (let j := if h then on_seq (λ t, <[er_run_id e := match t !! er_run_id e with
                Some high_water => Z.max high_water (s + 1) | None => s + 1 end]> t) (em_journal m) else em_journal m in
     if a then on_events <[(er_run_id e, s + 1) := with_seq (s + 1) e]> j else j);
  em_event_seq := Some (s + 1) |}.

(** An append that reaches the database is never refused. *)
Lemma emit_exact m s h a e : floored m → em_event_seq m = Some s → er_run_id e = run_id →
  emits (Emit h a e) m = (landed_events s h a e m, Returned ()).
Proof using Type.
  intros (_ & Hn & _) Hs He.
  assert (j_events (em_journal m) !! (er_run_id e, s + 1) = None) as Hfree.
  { rewrite He. destruct (j_events (em_journal m) !! (run_id, s + 1)) as [e'|] eqn:E; [|done].
    destruct (Hn _ _ E) as [_ Hle]. specialize (Hle s Hs). lia. }
  destruct m as [[runs steps events seqs_] live]. simpl in Hs, Hfree. subst live.
  cbv [emits _journal_event landed_events mbind M_bind mret M_ret gets modify zoom best_effort catch reaching persist_high_water append_event raise].
  destruct h, a; cbn; by rewrite ?Hfree.
Qed.

Lemma emit_floored q m : floored m → readable_rebuild m q →
  floored (state_of (emits q m)) ∧ ∀ k e, j_events (em_journal m) !! k = Some e →
    j_events (em_journal (state_of (emits q m))) !! k = Some e.
Proof using Type.
  intros Hf Hq. destruct q as [h a e|h x|].
  - destruct (em_event_seq m) as [s|] eqn:Hs.
    + rewrite (emit_exact m s h a e) by done. destruct Hf as (Hok & Hn & Hp). simpl in Hq. unfold state_of, landed_events. simpl fst.
      assert (∀ k e', j_events (em_journal (landed_events s h a e m)) !! k = Some e' →
        j_events (em_journal m) !! k = Some e' ∨ (k = (run_id, s + 1) ∧ e' = with_seq (s + 1) e)) as Hev.
      { intros k e'. unfold landed_events. simpl. destruct a, h; simpl; auto; rewrite Hq, lookup_insert_Some; naive_solver. }
      split; [split_and!|].
      * intros r n e' [H|[[= -> ->] ->]]%Hev; [by apply Hok|by split].
      * intros n e' [H|[[= ->] ->]]%Hev; (split; [|intros s' [= <-]]); [by apply (Hn _ _ H)| | |].
        -- destruct (Hn _ _ H) as [_ Hle]. specialize (Hle s Hs). lia.
        -- specialize (Hp s Hs). lia.
        -- lia.
      * intros s' [= <-]. specialize (Hp s Hs). lia.
      * intros [r n] e' He'. destruct a, h; simpl; auto; rewrite Hq; apply lookup_insert_Some; right;
          (split; [|done]); intros [= <- <-]; destruct (Hn _ _ He') as [_ Hle]; specialize (Hle s Hs); lia.
    + destruct m as [jm live]. simpl in Hs. subst live. by split.
  - destruct Hf as (Hok & Hn & Hp). split; [|done]. split_and!; [done| |]; simpl.
    + intros n e He. destruct (Hn _ _ He) as [H0 Hle]. split; [done|]. intros s [= <-].
      destruct (em_event_seq m) as [s|] eqn:Hs; simpl.
      * specialize (Hle s eq_refl). lia.
      * destruct (Hq Hs) as [-> ->]. pose proof (max_event_seq_spec _ _ _ Hok He). lia.
    + intros s [= <-]. destruct (em_event_seq m) as [s|]; simpl; [specialize (Hp s eq_refl)|]; lia.
  - destruct Hf as (Hok & Hn & Hp). split; [|done]. split_and!; simpl; [done| |done].
    intros n e He. by destruct (Hn _ _ He).
Qed.

Lemma emissions_floored qs m : floored m → orderly qs m →
  floored (emissions qs m) ∧ ∀ k e, j_events (em_journal m) !! k = Some e →
    j_events (em_journal (emissions qs m)) !! k = Some e.
Proof using Type.
  revert m. induction qs as [|q qs IH]; intros m Hf Ho; [by split|]. destruct Ho as [Hq Ho].
  destruct (emit_floored q m Hf Hq) as [Hf' Hk]. destruct (IH _ Hf' Ho) as [H1 H2]. split; [exact H1|].
  intros k e He. by apply H2, Hk.
Qed.

Lemma orderly_app qs1 qs2 m : orderly (qs1 ++ qs2) m ↔ orderly qs1 m ∧ orderly qs2 (emissions qs1 m).
Proof using Type. revert m. induction qs1 as [|q qs1 IH]; intros m; simpl; [tauto|]. rewrite IH. tauto. Qed.

(** [C32] Events are never renumbered.  Start from a record whose counter is above what
    the database holds, and take any emissions of the run, whichever of their writes
    fail, any crashes and any rebuilds, provided that a rebuild in a process that has
    no counter can read the database ([orderly]).  An emission whose append reaches the database
    stores its event under the next sequence of the counter, which is above every
    sequence stored before, and the event stays there, under that sequence, for good.
    (A sequence of which neither write reached the database is forgotten by a crash and
    allocated again, [lost_sequence_is_reused]; no stored event had it.) *)
Theorem events_are_never_renumbered before h e after m last :
  floored m → orderly (before ++ Emit h true e :: after) m →
  em_event_seq (emissions before m) = Some last →
  j_events (em_journal (emissions (before ++ Emit h true e :: after) m)) !! (run_id, last + 1) = Some (with_seq (last + 1) e)
  ∧ ∀ n e', j_events (em_journal (emissions before m)) !! (run_id, n) = Some e' → n < last + 1.
Proof using Type.
  intros Hf (Hb & He & Ha)%orderly_app Hl. destruct (emissions_floored _ _ Hf Hb) as [Hf' _].
  split.
  - unfold emissions. rewrite foldl_app. fold (emissions before m). simpl. fold (emissions after).
    destruct (emit_floored _ _ Hf' He) as [Hf2 _]. apply (emissions_floored _ _ Hf2 Ha).
    rewrite (emit_exact _ last) by done. simpl in He. unfold state_of, landed_events. simpl.
    destruct h; simpl; rewrite He; apply lookup_insert_eq.
  - intros n e' Hn. destruct Hf' as (_ & Hn' & _). destruct (Hn' _ _ Hn) as [_ Hle]. specialize (Hle last Hl). lia.
Qed.
End Emission.

(** Two events of one sequence: neither write of the first reached the database, and the
    process ended. *)
Example lost_sequence_is_reused :
  let first := Emit false false (sample_event 0 "run_started") in
  let second := Emit true true (sample_event 0 "run_started") in
  let m := {| em_journal := empty_journal; em_event_seq := None |} in
  (em_event_seq (emissions "r1" [Rebuild true true; first] m),
   em_event_seq (emissions "r1" [Rebuild true true; first; Crash; Rebuild true true; second] m)) = (Some 1, Some 1).
Proof. vm_compute. reflexivity. Qed.

Lemma events_are_never_renumbered_witness :
  let qs := [Rebuild true true; Emit false true (sample_event 0 "run_started"); Emit true false (sample_event 0 "step_started");
             Crash; Rebuild true true] in
  let qs' := qs ++ [Emit true true (sample_event 0 "step_done"); Rebuild false false] in
  let m := {| em_journal := empty_journal; em_event_seq := None |} in
  floored "r1" m
  ∧ j_events (em_journal (emissions "r1" qs' m)) !! ("r1"%string, 3) = Some (sample_event 3 "step_done").
Proof.
  cbn zeta. assert (floored "r1" {| em_journal := empty_journal; em_event_seq := None |}) as Hf.
  { split_and!; by intros. }
  split; [exact Hf|].
  apply (events_are_never_renumbered "r1" [Rebuild true true; Emit false true (sample_event 0 "run_started");
    Emit true false (sample_event 0 "step_started"); Crash; Rebuild true true] true (sample_event 0 "step_done")
    [Rebuild false false] {| em_journal := empty_journal; em_event_seq := None |} 2 Hf).
  - vm_compute. repeat split; done.
  - vm_compute. reflexivity.
Defined.

(** A rebuild that can read neither the counter nor the events takes the numbers of
    events that are there; the append of the next one is refused and lost. *)
Example blind_rebuild_loses_an_event :
  let m := emissions "r1" [Rebuild true true; Emit true true (sample_event 0 "run_started"); Crash; Rebuild false false;
                           Emit true true (sample_event 0 "step_started")] {| em_journal := empty_journal; em_event_seq := None |} in
  (em_event_seq m, er_event_type <$> run_events "r1" (em_journal m)) = (Some 1, ["run_started"%string]).
Proof. vm_compute. reflexivity. Qed.
