(* ===== verification/Replay.v ===== *)
(** * The replay gate — [services/step_replay.py], with [HaltRule] of
    [services/workflow_errors.py] and [RecoveryPolicy] of [models/workflow.py]

    Ten ordered rules decide, from the one row of a step, whether its call is run,
    answered with the stored result, refused as another call, or put to a human.  The
    prose of the reasons is left out. *)

From stdpp Require Import gmap.
From S2P Require Import Prelude Fingerprint Secrets Envelope Journal.

Inductive RecoveryPolicy := IDEMPOTENT | RECONCILE | MANUAL.
#[export] Instance RecoveryPolicy_eq_dec : EqDecision RecoveryPolicy. Proof. solve_decision. Defined.

Inductive HaltRule :=
| INTERRUPTED_NO_POLICY | ENVELOPE_ABSENT | PROVENANCE_UNVERIFIABLE | POLICY_MANUAL | OUTCOME_FAILED | ENVELOPE_LOSSY.
#[export] Instance HaltRule_eq_dec : EqDecision HaltRule. Proof. solve_decision. Defined.

Inductive ReplayVerdict := EXECUTE | REPLAY | DIVERGED | DECISION_REQUIRED.
#[export] Instance ReplayVerdict_eq_dec : EqDecision ReplayVerdict. Proof. solve_decision. Defined.

Record ReplayDecision := {
  rd_verdict : ReplayVerdict;
  rd_envelope : option StepResultEnvelope;
  rd_rule : option HaltRule;
}.
#[export] Instance ReplayDecision_eq_dec : EqDecision ReplayDecision. Proof. solve_decision. Defined.

Definition _REEXECUTION_PERMITTED : list RecoveryPolicy := [IDEMPOTENT; RECONCILE].
Definition reexecution_permitted (policy : option RecoveryPolicy) : bool :=
  match policy with Some p => bool_decide (p ∈ _REEXECUTION_PERMITTED) | None => false end.

Definition _RUNNING : string := "running".
Definition _RERUN_AUTHORIZED : string := "rerun_authorized".
Definition _REPLAY_AUTHORIZED : string := "replay_authorized".
Definition _FAILED : string := "failed".

Definition verdict (v : ReplayVerdict) : ReplayDecision := {| rd_verdict := v; rd_envelope := None; rd_rule := None |}.
Definition halt (r : HaltRule) : ReplayDecision :=
  {| rd_verdict := DECISION_REQUIRED; rd_envelope := None; rd_rule := Some r |}.
Definition replay (e : StepResultEnvelope) : ReplayDecision :=
  {| rd_verdict := REPLAY; rd_envelope := Some e; rd_rule := None |}.

(** The rules, on the row that was read. *)
Definition judge (row : option StepRow) (fingerprint : string) (declared_policy : option RecoveryPolicy) : ReplayDecision :=
  match row with
  | None => verdict EXECUTE
  | Some row =>
      if bool_decide (sr_state row = _RERUN_AUTHORIZED) then verdict EXECUTE
      else if bool_decide (sr_state row = _RUNNING)
      then if reexecution_permitted declared_policy then verdict EXECUTE else halt INTERRUPTED_NO_POLICY
      else match parse_envelope (sr_result_json row) with
           | None => halt ENVELOPE_ABSENT
           | Some envelope =>
               if negb (bool_decide (scheme_of (sr_call_fingerprint row) = SCHEME_v2))
               then if reexecution_permitted declared_policy then verdict EXECUTE else halt PROVENANCE_UNVERIFIABLE
               else if negb (bool_decide (sr_call_fingerprint row = Some fingerprint)) then verdict DIVERGED
               else if bool_decide (declared_policy = Some MANUAL) && negb (bool_decide (sr_state row = _REPLAY_AUTHORIZED))
               then halt POLICY_MANUAL
               else if bool_decide (sr_state row = _FAILED) then halt OUTCOME_FAILED
               else if (se_truncated envelope || se_redacted envelope)
                       && negb (bool_decide (sr_state row = _REPLAY_AUTHORIZED))
               then halt ENVELOPE_LOSSY
               else replay envelope
           end
  end.

Definition decide (run_id step_id fingerprint : string) (declared_policy : option RecoveryPolicy) : J ReplayDecision :=
  if negb (bool_decide (scheme_of (Some fingerprint) = SCHEME_v2))
  then raise (ValueError "fingerprint not of the current scheme") else
  row ← get_step run_id step_id;
  mret (judge row fingerprint declared_policy).

(** ** What the rules say, without an order *)

(** A step that was neither never dispatched, nor authorised to run again, nor is on
    its way. *)
Definition is_settled (r : StepRow) : Prop := sr_state r ≠ _RERUN_AUTHORIZED ∧ sr_state r ≠ _RUNNING.
(** A result that was stored for this very call. *)
Definition holds_result (r : StepRow) (fingerprint : string) (e : StepResultEnvelope) : Prop :=
  is_settled r ∧ parse_envelope (sr_result_json r) = Some e ∧ sr_call_fingerprint r = Some fingerprint.
Definition served_whole (r : StepRow) (policy : option RecoveryPolicy) (e : StepResultEnvelope) : Prop :=
  sr_state r = _REPLAY_AUTHORIZED
  ∨ (sr_state r ≠ _FAILED ∧ policy ≠ Some MANUAL ∧ se_truncated e = false ∧ se_redacted e = false).

Lemma reexecution_permitted_spec policy :
  reexecution_permitted policy = true ↔ policy = Some IDEMPOTENT ∨ policy = Some RECONCILE.
Proof. destruct policy as [[]|]; simpl; split; intros H; try done; auto; by destruct H. Qed.

(** One case of the rules. *)
Ltac by_rules := cbn [verdict halt replay rd_verdict rd_envelope rd_rule negb andb orb] in *; intuition congruence.

(** [C30] What the gate answers.  For a call of the current scheme: it is run exactly when
    its step has no row, or a human authorised it to run again, or its author declared
    re-execution safe and either its last outcome is unknown or the stored call cannot
    be verified; it is answered from the journal exactly when a readable result was
    stored for the same call and either a human accepted it or it is a success, whole,
    of a step whose author did not ask to be asked; it is refused as another call
    exactly when a readable result was stored for a different call of the scheme; in
    every other case a human decides.  Only an answer carries a result, only a halt
    carries a rule, and the gate writes nothing. *)
Theorem gate_is_exact j run_id step_id fingerprint policy :
  scheme_of (Some fingerprint) = SCHEME_v2 →
  ∃ d, decide run_id step_id fingerprint policy j = (j, Returned d)
  ∧ (rd_verdict d = EXECUTE ↔
       j_steps j !! (run_id, step_id) = None
       ∨ ∃ r, j_steps j !! (run_id, step_id) = Some r
         ∧ (sr_state r = _RERUN_AUTHORIZED
            ∨ (policy = Some IDEMPOTENT ∨ policy = Some RECONCILE)
              ∧ (sr_state r = _RUNNING
                 ∨ is_settled r ∧ parse_envelope (sr_result_json r) ≠ None ∧ scheme_of (sr_call_fingerprint r) ≠ SCHEME_v2)))
  ∧ (∀ e, rd_verdict d = REPLAY ∧ rd_envelope d = Some e ↔
       ∃ r, j_steps j !! (run_id, step_id) = Some r ∧ holds_result r fingerprint e ∧ served_whole r policy e)
  ∧ (rd_verdict d = DIVERGED ↔
       ∃ r, j_steps j !! (run_id, step_id) = Some r ∧ is_settled r ∧ parse_envelope (sr_result_json r) ≠ None
         ∧ scheme_of (sr_call_fingerprint r) = SCHEME_v2 ∧ sr_call_fingerprint r ≠ Some fingerprint)
  ∧ (rd_envelope d ≠ None ↔ rd_verdict d = REPLAY)
  ∧ (rd_rule d ≠ None ↔ rd_verdict d = DECISION_REQUIRED).
Proof.
  intros Hv2. unfold decide. rewrite bool_decide_eq_true_2 by done. simpl.
  exists (judge (j_steps j !! (run_id, step_id)) fingerprint policy). split; [done|].
  destruct (j_steps j !! (run_id, step_id)) as [r|]; [|simpl; naive_solver].
  assert (∀ P : StepRow → Prop, (∃ r0, Some r = Some r0 ∧ P r0) ↔ P r) as Hex by naive_solver.
  setoid_rewrite Hex. clear Hex. unfold judge, holds_result, served_whole, is_settled.
  pose proof (reexecution_permitted_spec policy) as Hpol.
  destruct (bool_decide_reflect (sr_state r = _RERUN_AUTHORIZED)) as [H1|H1]; [by_rules|].
  destruct (bool_decide_reflect (sr_state r = _RUNNING)) as [H2|H2].
  { destruct (reexecution_permitted policy); by_rules. }
  destruct (parse_envelope (sr_result_json r)) as [e|]; [|by_rules].
  destruct (bool_decide_reflect (scheme_of (sr_call_fingerprint r) = SCHEME_v2)) as [H3|H3]; cbn [negb].
  2: { destruct (reexecution_permitted policy); by_rules. }
  destruct (bool_decide_reflect (sr_call_fingerprint r = Some fingerprint)) as [H4|H4]; cbn [negb]; [|by_rules].
  destruct (bool_decide_reflect (policy = Some MANUAL)) as [H5|H5],
    (bool_decide_reflect (sr_state r = _REPLAY_AUTHORIZED)) as [H6|H6],
    (bool_decide_reflect (sr_state r = _FAILED)) as [H7|H7]; cbn [negb andb];
    try (rewrite H6 in H7; discriminate);
    destruct (se_truncated e) eqn:Ht, (se_redacted e) eqn:Hr; by_rules.
Qed.

(** * Recovery decisions — what a human's answer does to the gate

    [apply_decisions] and [revoke_unconsumed_decisions] of the journal, followed to
    the verdict of the next call of the step. *)

(** ** The updates, key by key *)

Section Updates.
Context (run_id : string).
Implicit Types (t : gmap (string * string) StepRow).

Definition authorise t (sd : string * RecoveryDecision) : gmap (string * string) StepRow :=
  alter (set_step_state (DECISION_STATES sd.2)) (run_id, sd.1) t.

Lemma authorise_other l t key : (∀ s, s ∈ l.*1 → key ≠ (run_id, s)) → foldl authorise t l !! key = t !! key.
Proof using Type.
  revert t. induction l as [|[s d] l IH]; intros t H; [done|]. simpl. rewrite IH.
  - apply lookup_alter_ne. intros E. by apply (H s); [left|].
  - intros s' Hs. apply H. by right.
Qed.

Lemma authorise_one l t s d : NoDup l.*1 → (s, d) ∈ l →
  foldl authorise t l !! (run_id, s) = set_step_state (DECISION_STATES d) <$> t !! (run_id, s).
Proof using Type.
  revert t. induction l as [|[s' d'] l IH]; intros t Hnd Hin; [by apply not_elem_of_nil in Hin|].
  apply NoDup_cons in Hnd as [Hnin Hnd]. simpl. apply elem_of_cons in Hin as [[= <- <-]|Hin].
  - rewrite authorise_other; [apply lookup_alter_eq|]. intros s2 Hs2 [= <-]. done.
  - rewrite (IH _ Hnd Hin). f_equal. apply lookup_alter_ne. intros [= ->]. apply Hnin.
    by apply (list_elem_of_fmap_2 fst) in Hin.
Qed.

Lemma revoke_step_table acc entry : (revoke_step run_id acc entry).1 = (revoke_one run_id acc.1 entry).1.
Proof using Type. unfold revoke_step. by destruct (revoke_one run_id acc.1 entry). Qed.

Lemma revoke_other entries acc key : (∀ s, s ∈ entries.*1 → key ≠ (run_id, s)) →
  (foldl (revoke_step run_id) acc entries).1 !! key = acc.1 !! key.
Proof using Type.
  revert acc. induction entries as [|[s p] l IH]; intros acc H; [done|]. simpl. rewrite IH.
  - rewrite revoke_step_table. unfold revoke_one. repeat case_match; try done.
    apply lookup_insert_ne. intros E. by apply (H s); [left|].
  - intros s' Hs. apply H. by right.
Qed.

(** What the restore does to one of its entries. *)
Definition withdrawn (prior : string) (r : StepRow) : StepRow :=
  if bool_decide (sr_state r ∈ authorised_states ∧ prior ∉ authorised_states) then set_step_state prior r else r.

Lemma revoke_entry entries acc s prior : NoDup entries.*1 → (s, prior) ∈ entries →
  (foldl (revoke_step run_id) acc entries).1 !! (run_id, s) = withdrawn prior <$> acc.1 !! (run_id, s).
Proof using Type.
  revert acc. induction entries as [|[s' p] l IH]; intros acc Hnd Hin; [by apply not_elem_of_nil in Hin|].
  apply NoDup_cons in Hnd as [Hnin Hnd]. simpl. apply elem_of_cons in Hin as [[= <- <-]|Hin].
  - rewrite revoke_other, revoke_step_table; [|by intros s2 Hs2 [= <-]]. unfold revoke_one, withdrawn.
    destruct (bool_decide_reflect (prior ∈ authorised_states)) as [Hp|Hp].
    { simpl. destruct (acc.1 !! (run_id, s)); [|done]. simpl. by rewrite bool_decide_eq_false_2 by naive_solver. }
    destruct (acc.1 !! (run_id, s)) as [r|] eqn:Er; [|simpl; by rewrite Er].
    destruct (bool_decide_reflect (sr_state r ∈ authorised_states)) as [Hr|Hr]; simpl.
    + by rewrite lookup_insert_eq, bool_decide_eq_true_2.
    + by rewrite Er, bool_decide_eq_false_2 by naive_solver.
  - rewrite (IH _ Hnd Hin), revoke_step_table. f_equal. unfold revoke_one.
    assert ((run_id, s') ≠ (run_id, s)) as Hne.
    { intros [= ->]. apply Hnin. by apply (list_elem_of_fmap_2 fst) in Hin. }
    repeat case_match; try done. by apply lookup_insert_ne.
Qed.
End Updates.

(** ** Reading the answers *)

Lemma resolve_spec known ds resolved : resolve_decisions known ds = Returned resolved →
  resolved.*1 = ds.*1 ∧ (∀ s, s ∈ ds.*1 → known s = true)
  ∧ ∀ s v, (s, v) ∈ ds → ∃ d, v = RecoveryDecision_value d ∧ (s, d) ∈ resolved.
Proof.
  revert resolved. induction ds as [|[s v] ds IH]; intros resolved; simpl.
  { intros [= <-]. split_and!; [done|by intros ? ?%not_elem_of_nil|by intros ? ? ?%not_elem_of_nil]. }
  destruct (known s) eqn:Hk; simpl; [|done]. unfold parse_decision.
  assert (∀ d, v = RecoveryDecision_value d →
    match resolve_decisions known ds with Returned r => Returned ((s, d) :: r) | Raised e => Raised e end = Returned resolved →
    resolved.*1 = s :: ds.*1 ∧ (∀ s', s' ∈ s :: ds.*1 → known s' = true)
    ∧ ∀ s' v', (s', v') ∈ (s, v) :: ds → ∃ d, v' = RecoveryDecision_value d ∧ (s', d) ∈ resolved) as Hd.
  { intros d -> H. destruct (resolve_decisions known ds) as [r|]; [|done]. injection H as <-.
    destruct (IH r eq_refl) as (H1 & H2 & H3). split_and!; [change (s :: r.*1 = s :: ds.*1); by rewrite H1|by intros s' [->|?]%elem_of_cons; auto|].
    intros s' v' [[= -> ->]|Hin]%elem_of_cons; [exists d; by split; [|left]|].
    destruct (H3 _ _ Hin) as (d' & ? & ?). exists d'. by split; [|right]. }
  destruct (bool_decide_reflect (v = "rerun"%string)) as [Hv|Hv]; [by apply (Hd RERUN)|].
  destruct (bool_decide_reflect (v = "skip"%string)) as [Hv'|Hv']; [by apply (Hd SKIP)|done].
Qed.

Lemma apply_exact run_id ds j : ds ≠ [] →
  (∃ e, apply_decisions run_id ds j = (j, Raised e)) ∨
  ∃ resolved, resolve_decisions (λ s, bool_decide (is_Some (sr_state <$> j_steps j !! (run_id, s)))) ds = Returned resolved
  ∧ apply_decisions run_id ds j
    = (on_steps (λ t, foldl (authorise run_id) t resolved) j,
       Returned ((λ '(s, _), (s, default "" (sr_state <$> j_steps j !! (run_id, s)))) <$> resolved)).
Proof.
  intros Hne. unfold apply_decisions. rewrite bool_decide_eq_false_2 by done.
  unfold mbind, M_bind, gets, lift_outcome. destruct (resolve_decisions _ ds) as [resolved|e]; [|left; by exists e].
  right. exists resolved. split; [done|]. unfold modify, mret, M_ret, on_steps. f_equal. f_equal.
  generalize (j_steps j). induction resolved as [|[s d] l IH]; intros t; [done|]. simpl. apply IH.
Qed.

(** A human's answer settles the matter.  Decisions are applied all or none: one that
    names no step of the run or cannot be read leaves every row as it was.  Once they
    are applied, a step answered with a rerun is run by its next call, whatever that
    call is and its author declared; a step answered with a skip is answered from the
    journal exactly when a readable result is stored for that call — no failure,
    policy or lossy text is put to the human again — and every other step is as it
    was. *)
Theorem decisions_settle_halts run_id decisions j :
  NoDup decisions.*1 →
  (∃ e, apply_decisions run_id decisions j = (j, Raised e)) ∨
  ∃ j' prior, apply_decisions run_id decisions j = (j', Returned prior)
  ∧ (∀ step_id fingerprint policy, (step_id, "rerun"%string) ∈ decisions → scheme_of (Some fingerprint) = SCHEME_v2 →
       decide run_id step_id fingerprint policy j' = (j', Returned (verdict EXECUTE)))
  ∧ (∀ step_id fingerprint policy e, (step_id, "skip"%string) ∈ decisions → scheme_of (Some fingerprint) = SCHEME_v2 →
       (decide run_id step_id fingerprint policy j' = (j', Returned (replay e)) ↔
        ∃ r, j_steps j !! (run_id, step_id) = Some r ∧ parse_envelope (sr_result_json r) = Some e
          ∧ sr_call_fingerprint r = Some fingerprint))
  ∧ (∀ key, (∀ step_id, step_id ∈ decisions.*1 → key ≠ (run_id, step_id)) → j_steps j' !! key = j_steps j !! key)
  ∧ (∀ step_id, step_id ∈ decisions.*1 → ∃ r, j_steps j !! (run_id, step_id) = Some r ∧ (step_id, sr_state r) ∈ prior).
Proof.
  intros Hnd. destruct decisions as [|d0 ds0] eqn:Eds.
  { right. exists j, []. split; [done|]. split_and!; intros; by (done || (exfalso; eapply not_elem_of_nil)). }
  rewrite <- Eds in *. destruct (apply_exact run_id decisions j) as [[e He]|(resolved & Hr & Ha)]; [by subst|left; by exists e|].
  right. destruct (resolve_spec _ _ _ Hr) as (Hk & Hknown & Hval). rewrite <- Hk in Hnd.
  eexists _, _. split; [exact Ha|]. rewrite <- Hk. clear Ha Hr Eds.
  assert (∀ s d, (s, d) ∈ resolved → ∃ r, j_steps j !! (run_id, s) = Some r
    ∧ foldl (authorise run_id) (j_steps j) resolved !! (run_id, s) = Some (set_step_state (DECISION_STATES d) r)) as Hrow.
  { intros s d Hin. rewrite (authorise_one _ _ _ s d) by done.
    assert (s ∈ decisions.*1) as Hs by (rewrite <- Hk; by apply (list_elem_of_fmap_2 fst) in Hin).
    apply Hknown in Hs. apply bool_decide_eq_true in Hs as [x Hx].
    destruct (j_steps j !! (run_id, s)) as [r|]; [|done]. by exists r. }
  assert (∀ s d fp pol, (s, d) ∈ resolved → scheme_of (Some fp) = SCHEME_v2 → ∃ r, j_steps j !! (run_id, s) = Some r
    ∧ ∀ j', j_steps j' = foldl (authorise run_id) (j_steps j) resolved →
       decide run_id s fp pol j' = (j', Returned (judge (Some (set_step_state (DECISION_STATES d) r)) fp pol))) as Hdec.
  { intros s d fp pol Hin Hfp. destruct (Hrow s d Hin) as (r & Hr & Hr'). exists r. split; [done|]. intros j' Hj.
    unfold decide. rewrite bool_decide_eq_true_2 by done. unfold get_step, mbind, M_bind, gets. simpl. by rewrite Hj, Hr'. }
  split_and!.
  - intros s fp pol Hin Hfp. destruct (Hval _ _ Hin) as ([] & Hv & Hin'); [|done].
    destruct (Hdec s RERUN fp pol Hin' Hfp) as (r & _ & Hd). by rewrite Hd.
  - intros s fp pol e Hin Hfp. destruct (Hval _ _ Hin) as ([] & Hv & Hin'); [done|].
    destruct (Hdec s SKIP fp pol Hin' Hfp) as (r & Hr & Hd). rewrite Hd by done. rewrite Hr. clear Hdec Hrow Hd.
    unfold judge. simpl. split.
    + intros [= Hj]. exists r. split; [done|]. destruct (parse_envelope (sr_result_json r)) as [e'|]; [|done].
      destruct (bool_decide_reflect (scheme_of (sr_call_fingerprint r) = SCHEME_v2)); simpl in Hj; [|by destruct (reexecution_permitted pol)].
      destruct (bool_decide_reflect (sr_call_fingerprint r = Some fp)); simpl in Hj; [|done].
      rewrite !andb_false_r in Hj. by injection Hj as ->.
    + intros (r' & [= <-] & -> & ->). rewrite Hfp. rewrite (bool_decide_eq_true_2 (Some fp = Some fp)) by done. simpl.
      by rewrite !andb_false_r.
  - intros key Hkey. by apply authorise_other.
  - intros s ([s' d] & -> & Hin)%list_elem_of_fmap. destruct (Hrow s' d Hin) as (r & Hr & _). exists r. split; [done|].
    apply list_elem_of_fmap. exists (s', d). by rewrite Hr.
Qed.

Lemma withdrawn_authorised d r : sr_state r ∉ authorised_states →
  withdrawn (sr_state r) (set_step_state (DECISION_STATES d) r) = r.
Proof.
  intros Hn. unfold withdrawn. rewrite bool_decide_eq_true_2; [by destruct r|]. split; [|done].
  apply list_elem_of_fmap. exists d. by split; [|destruct d; by_eval].
Qed.

(** [C31] What a consent replaced is put back, unless it was a consent.  Let a list of
    decisions on different steps be applied, which returns the states they replaced.
    If no step that was decided held an authorisation before, taking them back at once
    restores the journal.  And in any journal, whatever has happened since, taking
    back touches only rows of the decided steps, and of those exactly the ones that
    hold an authorisation now and did not hold one before: each gets the state it had.
    A consent that replaced an earlier one stays ([renewed_consent_survives]). *)
Theorem consent_round_trip run_id decisions j j' prior :
  NoDup decisions.*1 → apply_decisions run_id decisions j = (j', Returned prior) →
  ((∀ step_id r, step_id ∈ decisions.*1 → j_steps j !! (run_id, step_id) = Some r → sr_state r ∉ authorised_states) →
    ∃ revoked, revoke_unconsumed_decisions run_id prior j' = (j, Returned revoked))
  ∧ ∀ j1, ∃ j2 revoked, revoke_unconsumed_decisions run_id prior j1 = (j2, Returned revoked)
    ∧ (∀ key, (∀ step_id, step_id ∈ decisions.*1 → key ≠ (run_id, step_id)) → j_steps j2 !! key = j_steps j1 !! key)
    ∧ ∀ step_id r, step_id ∈ decisions.*1 → j_steps j1 !! (run_id, step_id) = Some r →
        ∃ was, j_steps j !! (run_id, step_id) = Some was
        ∧ j_steps j2 !! (run_id, step_id)
          = Some (if bool_decide (sr_state r ∈ authorised_states ∧ sr_state was ∉ authorised_states)
                  then set_step_state (sr_state was) r else r).
Proof.
  intros Hnd Ha. destruct (decide_rel (=) decisions []) as [->|Hne].
  { unfold apply_decisions in Ha. simpl in Ha. injection Ha as <- <-. split.
    - exists []. by destruct j.
    - intros j1. exists j1, []. split; [by destruct j1|]. split; [done|]. by intros ? ? ?%not_elem_of_nil. }
  destruct (apply_exact run_id decisions j Hne) as [[e He]|(resolved & Hr & He)]; rewrite He in Ha; [done|].
  injection Ha as <- <-. destruct (resolve_spec _ _ _ Hr) as (Hk & Hknown & _). rewrite <- Hk in *. clear He Hr Hne.
  set (entry := λ '(s, _), (s, default "" (sr_state <$> j_steps j !! (run_id, s)))).
  assert ((entry <$> resolved).*1 = resolved.*1) as Hkeys.
  { rewrite <- list_fmap_compose. apply list_fmap_ext. by intros i [s d] _. }
  assert (∀ s d, (s, d) ∈ resolved → ∃ r, j_steps j !! (run_id, s) = Some r ∧ (s, sr_state r) ∈ entry <$> resolved) as Hentry.
  { intros s d Hin. assert (s ∈ resolved.*1) as Hs by (by apply (list_elem_of_fmap_2 fst) in Hin).
    pose proof (Hknown s Hs) as Hx. apply bool_decide_eq_true in Hx as [x Hx].
    destruct (j_steps j !! (run_id, s)) as [r|] eqn:E; [|done]. exists r. split; [done|].
    apply list_elem_of_fmap. exists (s, d). split; [|done]. unfold entry. by rewrite E. }
  rewrite <- Hkeys in Hnd. split.
  - intros Hfresh. rewrite <- Hkeys in Hfresh. unfold revoke_unconsumed_decisions.
    destruct (foldl (revoke_step run_id) _ (entry <$> resolved)) as [t revoked] eqn:E. exists revoked. f_equal.
    assert (t = j_steps j) as ->; [|by destruct j]. apply map_eq. intros key.
    assert (t = (foldl (revoke_step run_id) (foldl (authorise run_id) (j_steps j) resolved, []) (entry <$> resolved)).1) as ->
      by (simpl in E; by rewrite E).
    destruct (decide_rel elem_of key ((λ s, (run_id, s)) <$> resolved.*1)) as [Hin|Hout].
    + apply list_elem_of_fmap in Hin as (s & -> & ([s' d] & -> & Hin)%list_elem_of_fmap). simpl.
      destruct (Hentry s' d Hin) as (r & Hr & Hp).
      assert (sr_state r ∉ authorised_states) as Hn
        by (apply (Hfresh s'); [rewrite Hkeys; by apply (list_elem_of_fmap_2 fst) in Hin|done]).
      rewrite (revoke_entry _ _ _ _ _ Hnd Hp). simpl.
      rewrite Hkeys in Hnd. rewrite (authorise_one _ _ _ s' d) by done. rewrite Hr. simpl. f_equal. by apply withdrawn_authorised.
    + rewrite revoke_other; simpl; [apply authorise_other|]; intros s Hs ->; apply Hout, list_elem_of_fmap_2; [done|by rewrite <- Hkeys].
  - intros j1. unfold revoke_unconsumed_decisions.
    destruct (foldl (revoke_step run_id) (j_steps j1, []) (entry <$> resolved)) as [t revoked] eqn:E.
    assert (t = (foldl (revoke_step run_id) (j_steps j1, []) (entry <$> resolved)).1) as -> by (by rewrite E).
    eexists _, revoked. split; [reflexivity|]. simpl. split.
    + intros key Hkey. apply revoke_other. by rewrite Hkeys.
    + intros s r ([s' d] & -> & Hin)%list_elem_of_fmap Hr. simpl in *. destruct (Hentry s' d Hin) as (was & Hw & Hp).
      exists was. split; [done|]. rewrite (revoke_entry _ _ _ _ _ Hnd Hp). simpl. by rewrite Hr.
Qed.

(** ** A run at work *)

Definition sample_fp : string := "v2:0123".
Definition sample_envelope_of (m : string) : StepResultEnvelope :=
  {| se_last_message := m; se_status := "completed"; se_terminal_id := Some "t1"; se_truncated := false; se_redacted := false |}.
Definition sample_row (step_id state : string) (result : option result_text) : StepRow := {|
  sr_run_id := "r1"; sr_step_id := step_id; sr_state := state; sr_attempts := 1; sr_output_json := None; sr_error := None;
  sr_updated_at := "t"; sr_call_fingerprint := Some sample_fp; sr_terminal_id := None; sr_reprompted := None;
  sr_error_kind := None; sr_result_json := result |}.
(** A step that was running when the server stopped, one that failed, one whose result is lost. *)
Definition halted : journal := {|
  j_runs := {[ "r1"%string := new_run "r1" "w" "" "" "running" "t0" "script" "1" None ]};
  j_steps := list_to_map [(("r1", "a"), sample_row "a" "running" None);
    (("r1", "b"), sample_row "b" "failed" (Some (EnvelopeText (sample_envelope_of "no"))));
    (("r1", "c"), sample_row "c" "completed" (Some (OtherText "?")))]%string;
  j_events := ∅; j_seq := ∅ |}.
Definition sample_decisions : list (string * string) := [("a", "rerun"); ("b", "skip")]%string.

Lemma sample_decisions_nodup : NoDup sample_decisions.*1.
Proof. apply (bool_decide_unpack _). vm_compute. exact I. Defined.

Lemma gate_is_exact_witness :
  scheme_of (Some sample_fp) = SCHEME_v2
  ∧ ∃ d, decide "r1" "b" sample_fp None halted = (halted, Returned d) ∧ (rd_rule d ≠ None ↔ rd_verdict d = DECISION_REQUIRED).
Proof.
  split; [reflexivity|]. destruct (gate_is_exact halted "r1" "b" sample_fp None eq_refl) as (d & H1 & _ & _ & _ & _ & H2).
  by exists d.
Defined.

Lemma decisions_settle_halts_witness :
  NoDup sample_decisions.*1
  ∧ ∃ j' prior, apply_decisions "r1" sample_decisions halted = (j', Returned prior)
    ∧ decide "r1" "a" sample_fp None j' = (j', Returned (verdict EXECUTE)).
Proof.
  split; [exact sample_decisions_nodup|].
  destruct (decisions_settle_halts "r1" sample_decisions halted sample_decisions_nodup)
    as [[e H]|(j' & prior & H1 & H2 & _)]; [vm_compute in H; discriminate|].
  exists j', prior. split; [exact H1|]. apply H2; [left|reflexivity].
Defined.

Lemma consent_round_trip_witness :
  ∃ j' prior, apply_decisions "r1" sample_decisions halted = (j', Returned prior)
  ∧ ∃ revoked, revoke_unconsumed_decisions "r1" prior j' = (halted, Returned revoked).
Proof.
  destruct (apply_decisions "r1" sample_decisions halted) as [j' [prior|e]] eqn:E; [|vm_compute in E; discriminate].
  exists j', prior. split; [reflexivity|].
  apply (consent_round_trip "r1" sample_decisions halted j' prior sample_decisions_nodup E).
  intros s r Hs Hr. repeat (apply elem_of_cons in Hs as [->|Hs]; [vm_compute in Hr; injection Hr as <-; by_eval|]).
  by apply not_elem_of_nil in Hs.
Defined.

Example halts :
  (λ s, value_of (decide "r1" s sample_fp None halted)) <$> ["a"; "b"; "c"; "d"]%string
  = [Returned (halt INTERRUPTED_NO_POLICY); Returned (halt OUTCOME_FAILED); Returned (halt ENVELOPE_ABSENT);
     Returned (verdict EXECUTE)].
Proof. vm_compute. reflexivity. Qed.

(** A skip does not answer a step whose result is lost: the same question comes back. *)
Example skip_without_result :
  let j := state_of (apply_decisions "r1" [("c", "skip")]%string halted) in
  value_of (decide "r1" "c" sample_fp None j) = Returned (halt ENVELOPE_ABSENT).
Proof. vm_compute. reflexivity. Qed.

(** A decision on a step that still holds an earlier consent: the consent it replaces
    is what a revocation would restore, so it is not revoked. *)
Example renewed_consent_survives :
  let j1 := state_of (apply_decisions "r1" [("a", "rerun")]%string halted) in
  match apply_decisions "r1" [("a", "rerun")]%string j1 with
  | (j2, Returned prior) => (prior, value_of (revoke_unconsumed_decisions "r1" prior j2)) = ([("a", "rerun_authorized")]%string, Returned [])
  | _ => False
  end.
Proof. vm_compute. reflexivity. Qed.
