(* ===== verification/Steps.v ===== *)
(** * Script workflows and their steps — [services/script_runner.py], [run_step] of
    [api/main.py], [services/step_output_store.py]

    A script runs as a process and makes one HTTP call per step.  The call passes the
    generation fence and the replay gate, is handed to [run_agent_step], reports when
    its terminal is ready and settles the step's row when it ends.  A call is three
    steps of the server, a drive of a run begins and ends, and everything else may
    happen in between.  [run_agent_step] and the script's process are not modelled:
    what they do is the argument of the steps. *)

From stdpp Require Import gmap.
From S2P Require Import Prelude Text Fingerprint Secrets Envelope Journal Replay.

(** ** Names — [models/workflow_runtime.py] *)

Inductive StepState :=
| STEP_PENDING | STEP_RUNNING | STEP_COMPLETED | STEP_FAILED | STEP_CANCELLED | STEP_SKIPPED
| STEP_COMPLETED_UNVALIDATED | STEP_RERUN_AUTHORIZED | STEP_REPLAY_AUTHORIZED.
#[export] Instance StepState_eq_dec : EqDecision StepState. Proof. solve_decision. Defined.
Definition StepState_value (s : StepState) : string :=
  match s with
  | STEP_PENDING => "pending" | STEP_RUNNING => "running" | STEP_COMPLETED => "completed" | STEP_FAILED => "failed"
  | STEP_CANCELLED => "cancelled" | STEP_SKIPPED => "skipped" | STEP_COMPLETED_UNVALIDATED => "completed_unvalidated"
  | STEP_RERUN_AUTHORIZED => "rerun_authorized" | STEP_REPLAY_AUTHORIZED => "replay_authorized"
  end.
Definition StepState_members : list StepState :=
  [STEP_PENDING; STEP_RUNNING; STEP_COMPLETED; STEP_FAILED; STEP_CANCELLED; STEP_SKIPPED;
   STEP_COMPLETED_UNVALIDATED; STEP_RERUN_AUTHORIZED; STEP_REPLAY_AUTHORIZED].
Definition StepState_of (value : string) : option StepState :=
  head (filter (λ s, StepState_value s = value) StepState_members).

Inductive RunState := RUN_RUNNING | RUN_CANCELLING | RUN_COMPLETED | RUN_FAILED | RUN_CANCELLED.
#[export] Instance RunState_eq_dec : EqDecision RunState. Proof. solve_decision. Defined.
Definition RunState_value (s : RunState) : string :=
  match s with
  | RUN_RUNNING => "running" | RUN_CANCELLING => "cancelling" | RUN_COMPLETED => "completed" | RUN_FAILED => "failed"
  | RUN_CANCELLED => "cancelled"
  end.
Definition RunState_of (value : string) : option RunState :=
  head (filter (λ s, RunState_value s = value) [RUN_RUNNING; RUN_CANCELLING; RUN_COMPLETED; RUN_FAILED; RUN_CANCELLED]).
Definition run_over (s : RunState) : bool := bool_decide (s ∈ [RUN_COMPLETED; RUN_FAILED; RUN_CANCELLED]).

(** [StepOutputRecord]: the errors only explain the verdict. *)
Record StepOutputRecord := { so_output : json; so_validated : bool }.

(** [StepRunState] of [services/workflow_service.py]: what a script's steps use. *)
Record StepRunState := {
  st_state : StepState;
  st_attempts : Z;
  st_output : option StepOutputRecord;
  st_terminal_id : option string;
  st_error : option string;
  st_call_fingerprint : option string;
}.
Record ScriptRunRecord := {
  sc_run_id : string;
  sc_workflow_name : string;
  sc_state : RunState;
  sc_cancelled : bool;
  sc_step_states : gmap string StepRunState;
  sc_generation : string;
  sc_started_at : string;
  sc_finished_at : option string;
}.

(** ** The server *)

(** A call of [run_step] between its admission and its end: the record its closures
    hold, if any, and whether its terminal was there. *)
Record Call := {
  cl_run_id : string;
  cl_step_id : string;
  cl_record : option nat;
  cl_fields : StepCallFields;
  cl_recovery : option RecoveryPolicy;
  cl_ready : bool;
}.
(** Where a request that starts, resumes or cancels a run stands: what follows a
    journal call belongs to the next step. *)
Inductive phase :=
| Waiting
| Inserted (started_at : string)
| Recorded (rid : nat)
| ResumeRead (row : RunRow) (decisions : list (string * string))
| Claimed (row : RunRow) (decisions : list (string * string))
| Gated (row : RunRow) (decisions : list (string * string))
| Applied (row : RunRow) (granted : list (string * string))
| Opened (rid : nat) (granted : list (string * string))
| Driving (rid : nat) (granted : list (string * string))
| Expired (rid : nat) (granted : list (string * string))
| Finished (rid : nat) (granted : list (string * string)) (returned : bool)
| Cancelling (rid : nat).
Record Drive := {
  dr_run_id : string;
  dr_background : bool;
  dr_phase : phase;
}.
(** What the world outside has seen: a prompt sent for a step, with the policy its
    author declared, whether it went through the gate and whether its row was written;
    and a human's decision that was applied. *)
Inductive happening :=
| Executed (key : string * string) (policy : option RecoveryPolicy) (gated recorded : bool)
| Decided (key : string * string) (value : string).
#[export] Instance happening_eq_dec : EqDecision happening. Proof. solve_decision. Defined.

Record Server := {
  sv_journal : journal;
  sv_records : list ScriptRunRecord;
  sv_registry : gmap string nat;
  sv_active : gset string;
  sv_outputs : list (string * string * StepOutputRecord);
  sv_calls : gmap nat Call;
  sv_drives : gmap nat Drive;
  sv_log : list happening;
}.
Section Setters.
Context (s : Server).
Definition set_sv_journal (j : journal) : Server := {| sv_journal := j; sv_records := sv_records s; sv_registry := sv_registry s;
  sv_active := sv_active s; sv_outputs := sv_outputs s; sv_calls := sv_calls s; sv_drives := sv_drives s; sv_log := sv_log s |}.
Definition set_records x : Server := {| sv_journal := sv_journal s; sv_records := x; sv_registry := sv_registry s;
  sv_active := sv_active s; sv_outputs := sv_outputs s; sv_calls := sv_calls s; sv_drives := sv_drives s; sv_log := sv_log s |}.
Definition set_registry x : Server := {| sv_journal := sv_journal s; sv_records := sv_records s; sv_registry := x;
  sv_active := sv_active s; sv_outputs := sv_outputs s; sv_calls := sv_calls s; sv_drives := sv_drives s; sv_log := sv_log s |}.
Definition set_active x : Server := {| sv_journal := sv_journal s; sv_records := sv_records s; sv_registry := sv_registry s;
  sv_active := x; sv_outputs := sv_outputs s; sv_calls := sv_calls s; sv_drives := sv_drives s; sv_log := sv_log s |}.
Definition set_outputs x : Server := {| sv_journal := sv_journal s; sv_records := sv_records s; sv_registry := sv_registry s;
  sv_active := sv_active s; sv_outputs := x; sv_calls := sv_calls s; sv_drives := sv_drives s; sv_log := sv_log s |}.
Definition set_calls x : Server := {| sv_journal := sv_journal s; sv_records := sv_records s; sv_registry := sv_registry s;
  sv_active := sv_active s; sv_outputs := sv_outputs s; sv_calls := x; sv_drives := sv_drives s; sv_log := sv_log s |}.
Definition set_drives x : Server := {| sv_journal := sv_journal s; sv_records := sv_records s; sv_registry := sv_registry s;
  sv_active := sv_active s; sv_outputs := sv_outputs s; sv_calls := sv_calls s; sv_drives := x; sv_log := sv_log s |}.
Definition happened x : Server := {| sv_journal := sv_journal s; sv_records := sv_records s; sv_registry := sv_registry s;
  sv_active := sv_active s; sv_outputs := sv_outputs s; sv_calls := sv_calls s; sv_drives := sv_drives s; sv_log := sv_log s ++ x |}.
End Setters.

Definition on_journal {A} (m : J A) : M Server A := zoom sv_journal (λ j s, set_sv_journal s j) m.
(** A journal call that the database may refuse. *)
Definition journal_call {A} (up : bool) (m : J A) : M Server A := on_journal (reaching up m).

Definition update_record (rid : nat) (f : ScriptRunRecord → ScriptRunRecord) : M Server () :=
  modify (λ s, set_records s (alter f rid (sv_records s))).
Definition set_step_states (f : gmap string StepRunState → gmap string StepRunState) (r : ScriptRunRecord) : ScriptRunRecord := {|
  sc_run_id := sc_run_id r; sc_workflow_name := sc_workflow_name r; sc_state := sc_state r; sc_cancelled := sc_cancelled r;
  sc_step_states := f (sc_step_states r); sc_generation := sc_generation r; sc_started_at := sc_started_at r;
  sc_finished_at := sc_finished_at r |}.
Definition set_sc_state (state : RunState) (finished : option string) (r : ScriptRunRecord) : ScriptRunRecord := {|
  sc_run_id := sc_run_id r; sc_workflow_name := sc_workflow_name r; sc_state := state; sc_cancelled := sc_cancelled r;
  sc_step_states := sc_step_states r; sc_generation := sc_generation r; sc_started_at := sc_started_at r;
  sc_finished_at := finished |}.
Definition set_sc_generation (generation : string) (cancelled : bool) (r : ScriptRunRecord) : ScriptRunRecord := {|
  sc_run_id := sc_run_id r; sc_workflow_name := sc_workflow_name r; sc_state := sc_state r; sc_cancelled := cancelled;
  sc_step_states := sc_step_states r; sc_generation := generation; sc_started_at := sc_started_at r;
  sc_finished_at := sc_finished_at r |}.

(** ** The output store *)

Definition WORKFLOW_OUTPUT_STORE_MAX_ENTRIES : nat := Z.to_nat 10000.

(** [put]: the newest entry last; the oldest goes when there are too many. *)
Definition put_output (max_entries : nat) (key : string * string) (record : StepOutputRecord)
    (store : list (string * string * StepOutputRecord)) : list (string * string * StepOutputRecord) :=
  let store := filter (λ e, e.1 ≠ key) store ++ [(key, record)] in
  drop (length store - max_entries) store.
Definition get_output (key : string * string) (store : list (string * string * StepOutputRecord)) : option StepOutputRecord :=
  snd <$> head (filter (λ e, e.1 = key) store).

(** [_validate_key_part]: the pattern's [$] also matches before a last newline. *)
Definition name_char (c : ascii) : bool :=
  let v := Chars.byte_of c in
  bool_decide (48 <= v <= 57) || bool_decide (65 <= v <= 90) || bool_decide (97 <= v <= 122) || (v =? 95) || (v =? 45).
Definition without_newline (value : string) : string :=
  match rev (String.list_ascii_of_string value) with
  | c :: rest => if bool_decide (c = ascii_of_nat 10) then String.string_of_list_ascii (rev rest) else value
  | [] => value
  end.
Definition name_matches (value : string) : bool :=
  forallb name_char (String.list_ascii_of_string value) && bool_decide (1 <= String.length value <= 64)%nat.
Definition _validate_key_part (value : string) : outcome () :=
  if bool_decide (value ∈ ["."; ".."]%string) then Raised (ValueError "traversal token")
  else if name_matches value || name_matches (without_newline value) then Returned () else Raised (ValueError "invalid name").

(** The verdict of [jsonschema] on an output: it is third-party code. *)
Inductive schema_verdict := NoSchema | Valid | Invalid | BadSchema.
#[export] Instance schema_verdict_eq_dec : EqDecision schema_verdict. Proof. solve_decision. Defined.
Definition record_step_output (run_id step_id : string) (output : json) (schema : schema_verdict) : M Server StepOutputRecord :=
  lift_outcome (_validate_key_part run_id) ;;
  lift_outcome (_validate_key_part step_id) ;;
  match schema with
  | BadSchema => raise (ValueError "output_schema is not valid JSON-Schema")
  | _ =>
      let record := {| so_output := output; so_validated := negb (bool_decide (schema = Invalid)) |} in
      modify (λ s, set_outputs s (put_output WORKFLOW_OUTPUT_STORE_MAX_ENTRIES (run_id, step_id) record (sv_outputs s))) ;;
      mret record
  end.

(** ** One call of [run_step] *)

(** The request: the keys of [env_vars] that identify a workflow step, whether a reused
    terminal refuses input, and what the step is.  [effective_working_directory] is
    already in the fields: resolving it asks the caller's terminal. *)
Record StepRequest := {
  rq_run_id : option string;
  rq_generation : option string;
  rq_step_id : option string;
  rq_input_refused : bool;
  rq_fields : StepCallFields;
  rq_recovery : option RecoveryPolicy;
}.
Definition truthy (s : option string) : bool := match s with None | Some EmptyString => false | Some _ => true end.
(** [validate_env_var_shape]: pairs go together, a step has a run, and a reused terminal
    takes no variables. *)
Definition request_shape_ok (rq : StepRequest) : bool :=
  let has x := bool_decide (is_Some x) in
  Bool.eqb (has (rq_run_id rq)) (has (rq_generation rq))
  && (negb (has (rq_step_id rq)) || has (rq_run_id rq))
  && negb ((has (rq_run_id rq) || has (rq_step_id rq)) && sc_reused_terminal (rq_fields rq)).

(** An answer: a result, run or replayed, or an HTTP error with the [kind] of its body. *)
Inductive response :=
| Answered (terminal_id last_message status : string) (replayed : bool)
| Refused (code : Z) (kind : string)
| Running
| Done.

Definition KeyError : exn := ExternalError "KeyError".
Definition StaleGenerationError : exn := ExternalError "StaleGenerationError".

(** [workflow_service.check_generation] *)
Definition check_generation (run_id generation : string) : J () :=
  row ← get_run run_id;
  match row with
  | None => raise KeyError
  | Some row => if bool_decide (generation = rr_generation row) then mret () else raise StaleGenerationError
  end.

(** The step and the record the closures of a request are made for, if they are made. *)
Definition recorder_of (rq : StepRequest) (s : Server) : option (string * string * nat) :=
  if truthy (rq_run_id rq) && truthy (rq_step_id rq) then
    run_id ← rq_run_id rq; step_id ← rq_step_id rq; rid ← sv_registry s !! run_id; Some (run_id, step_id, rid)
  else None.

Definition new_step_state : StepRunState := {|
  st_state := STEP_RUNNING; st_attempts := 0; st_output := None; st_terminal_id := None; st_error := None;
  st_call_fingerprint := None |}.

(** [_record] of [make_step_terminal_recorder] *)
Definition terminal_ready (rid : nat) (run_id step_id : string) (up : bool) (terminal_id call_fingerprint now : string)
    : M Server () :=
  update_record rid (set_step_states (λ states,
    let st := default new_step_state (states !! step_id) in
    <[step_id := {| st_state := st_state st; st_attempts := st_attempts st; st_output := st_output st;
       st_terminal_id := Some terminal_id; st_error := st_error st; st_call_fingerprint := Some call_fingerprint |}]> states)) ;;
  catch (journal_call up (begin_step run_id step_id now call_fingerprint)) (λ _, mret ()).

(** [_record_replay] of [record_step_replay]; the run's result shows the row. *)
Definition record_replay (rid : nat) (run_id step_id : string) (up : bool) : M Server () :=
  row ← journal_call up (get_step run_id step_id);
  match row with
  | None => mret ()
  | Some row =>
      update_record rid (set_step_states (<[step_id := {|
        st_state := default STEP_RUNNING (StepState_of (sr_state row)); st_attempts := sr_attempts row;
        st_output := (λ o, {| so_output := o; so_validated := true |}) <$> sr_output_json row;
        st_terminal_id := None; st_error := sr_error row; st_call_fingerprint := sr_call_fingerprint row |}]>))
  end.

(** What the live record of the step becomes when a call of it ends. *)
Definition settled_state (terminal_id error : option string) (output : option StepOutputRecord) (st : StepRunState)
    : StepRunState :=
  let terminal_id := match terminal_id with Some t => Some t | None => st_terminal_id st end in
  match error with
  | Some e => {| st_state := STEP_FAILED; st_attempts := st_attempts st + 1; st_output := st_output st;
                 st_terminal_id := terminal_id; st_error := Some e; st_call_fingerprint := st_call_fingerprint st |}
  | None =>
      {| st_state := match output with
                     | Some rec => if so_validated rec then STEP_COMPLETED else STEP_COMPLETED_UNVALIDATED
                     | None => STEP_COMPLETED
                     end;
         st_attempts := st_attempts st + 1;
         st_output := match output with Some rec => Some rec | None => st_output st end;
         st_terminal_id := terminal_id; st_error := None; st_call_fingerprint := st_call_fingerprint st |}
  end.

(** [_settle] of [record_step_completion] *)
Definition _settle (rid : nat) (run_id step_id : string) (up : bool) (terminal_id error last_message response_status : option string)
    (now : string) : M Server () :=
  s ← gets id;
  match sv_records s !! rid with
  | None => mret ()
  | Some record =>
      let st := settled_state terminal_id error (get_output (run_id, step_id) (sv_outputs s))
                  (default new_step_state (sc_step_states record !! step_id)) in
      update_record rid (set_step_states <[step_id := st]>) ;;
      let state := StepState_value (st_state st) in
      catch (journal_call up (settle_step run_id step_id state now
               (Some (serialise_envelope (build_envelope (default "" last_message) (default state response_status) (st_terminal_id st))))
               (_sanitise_output_json (so_output <$> st_output st)) (_sanitise_error (st_error st))) ;; mret ())
        (λ _, mret ())
  end.

(** [_settle_step] of the route: nothing without closures. *)
Definition settle_step_of (recorder : option (string * string * nat)) (up : bool)
    (terminal_id error last_message response_status : option string) (now : string) : M Server () :=
  match recorder with
  | None => mret ()
  | Some (run_id, step_id, rid) => _settle rid run_id step_id up terminal_id error last_message response_status now
  end.

(** [str(e)] *)
Definition exn_text (e : exn) : string :=
  match e with
  | ValueError t | RuntimeError t | TypeError t | IntegrityError t | ExternalError t | PersistentEnqueueRejection t
  | IdempotencyConflict t | GateError t | GateQuestionError t => t
  | AssertionError => ""
  end.

(** The faults of an admission: which of its journal calls reach the database. *)
Record AdmitFaults := { af_fence : bool; af_gate : bool; af_row : bool; af_settle : bool }.

(** The fence, before the [try] of the route. *)
Definition fence (up : bool) (rq : StepRequest) : M Server (option response) :=
  match rq_run_id rq, rq_generation rq with
  | Some run_id, Some generation =>
      catch (journal_call up (check_generation run_id generation) ;; mret None) (λ e,
        if bool_decide (e = StaleGenerationError) then mret (Some (Refused 409 "stale generation"))
        else if bool_decide (e = KeyError) then mret (Some (Refused 404 "unknown run"))
        else raise e)
  | _, _ => mret None
  end.

(** What follows the gate: [None] when the step is to be run. *)
Definition after_gate (recorder : string * string * nat) (up_row : bool) (decision : ReplayDecision) : M Server (option response) :=
  let '(run_id, step_id, rid) := recorder in
  match rd_verdict decision with
  | REPLAY =>
      match rd_envelope decision with
      | None => raise (RuntimeError "no result envelope")
      | Some envelope =>
          match se_terminal_id envelope with
          | None => raise (RuntimeError "no terminal id")
          | Some terminal_id =>
              catch (record_replay rid run_id step_id up_row) (λ _, mret ()) ;;
              mret (Some (Answered terminal_id (se_last_message envelope) (se_status envelope) true))
          end
      end
  | DIVERGED => mret (Some (Refused 409 "diverged"))
  | DECISION_REQUIRED => mret (Some (Refused 409 "decision_required"))
  | EXECUTE => mret None
  end.

(** The route up to [run_agent_step].  An exception of the gate ends in the last arm of
    the [try], which settles the step. *)
Definition arrive (c : nat) (rq : StepRequest) (faults : AdmitFaults) (now : string) : M Server response :=
  if negb (request_shape_ok rq) then mret (Refused 422 "env_vars") else
  recorder ← gets (recorder_of rq);
  if sc_reused_terminal (rq_fields rq) && rq_input_refused rq then mret (Refused 409 "terminal protected") else
  refused ← fence (af_fence faults) rq;
  match refused with
  | Some r => mret r
  | None =>
      answer ← catch
        (match recorder with
         | Some (run_id, step_id, rid) =>
             decision ← journal_call (af_gate faults) (decide run_id step_id (compute (rq_fields rq)) (rq_recovery rq));
             after_gate (run_id, step_id, rid) (af_row faults) decision
         | None => mret None
         end)
        (λ e, settle_step_of recorder (af_settle faults) None (Some (exn_text e)) None None now ;;
              mret (Some (Refused 500 "")));
      match answer with
      | Some r => mret r
      | None =>
          modify (λ s, set_calls s (<[c := {|
            cl_run_id := default "" (rq_run_id rq); cl_step_id := default "" (rq_step_id rq);
            cl_record := snd <$> recorder; cl_fields := rq_fields rq; cl_recovery := rq_recovery rq; cl_ready := false |}]> (sv_calls s))) ;;
          mret Running
      end
  end.

Definition recorder_of_call (cl : Call) : option (string * string * nat) :=
  (λ rid, (cl_run_id cl, cl_step_id cl, rid)) <$> cl_record cl.

(** [run_agent_step] reports, once, that its terminal is there, and sends the prompt. *)
Definition made_ready (cl : Call) : Call := {|
  cl_run_id := cl_run_id cl; cl_step_id := cl_step_id cl; cl_record := cl_record cl; cl_fields := cl_fields cl;
  cl_recovery := cl_recovery cl; cl_ready := true |}.
Definition ready (c : nat) (up : bool) (terminal_id now : string) : M Server response :=
  s ← gets id;
  match sv_calls s !! c with
  | None => mret Done
  | Some cl =>
      if cl_ready cl then mret Done else
      match recorder_of_call cl with
      | Some (run_id, step_id, rid) => terminal_ready rid run_id step_id up terminal_id (compute (cl_fields cl)) now
      | None => mret ()
      end ;;
      modify (λ s, set_calls s (<[c := made_ready cl]> (sv_calls s))) ;;
      modify (λ s, happened s [Executed (cl_run_id cl, cl_step_id cl) (cl_recovery cl)
                                 (bool_decide (is_Some (cl_record cl))) (bool_decide (is_Some (cl_record cl)) && up)]) ;;
      mret Running
  end.

(** How [run_agent_step] ends, by the arm of the route that handles it. *)
Inductive step_outcome :=
| Succeeded (terminal_id last_message status : string)
| StepExecutionError (kind : string) (terminal_id : option string) (error : string)
| TerminalCapExceeded
| TimedOut (error : string)
| KiroCapabilityError (error : string)
| OutputExtractionError (error : string)
| TerminalLimitError (error : string)
| ValueErrorRaised (bad_directory : bool)
| WorktreeError (error : string)
| OtherError (error : string).

Definition finish (c : nat) (up : bool) (outcome : step_outcome) (now : string) : M Server response :=
  s ← gets id;
  match sv_calls s !! c with
  | None => mret Done
  | Some cl =>
      modify (λ s, set_calls s (delete c (sv_calls s))) ;;
      let settling terminal_id error last_message status :=
        settle_step_of (recorder_of_call cl) up terminal_id error last_message status now in
      match outcome with
      | Succeeded terminal_id last_message status =>
          settling (Some terminal_id) None (Some last_message) (Some status) ;;
          mret (Answered terminal_id last_message status false)
      | StepExecutionError kind terminal_id error =>
          settling terminal_id (Some error) None None ;;
          mret (Refused (if bool_decide (kind ∈ ["delivery_deferred"; "input_blocked"; "waiting_user_input"]%string) then 409
                         else if bool_decide (kind = "error"%string) then 502 else 504) kind)
      | TerminalCapExceeded => mret (Refused 409 "terminal_cap")
      | TimedOut error => settling None (Some error) None None ;; mret (Refused 504 "timeout")
      | KiroCapabilityError error => settling None (Some error) None None ;; mret (Refused 400 "")
      | OutputExtractionError error => settling None (Some error) None None ;; mret (Refused 500 "")
      | TerminalLimitError error => settling None (Some error) None None ;; mret (Refused 429 "")
      | ValueErrorRaised bad_directory => mret (Refused (if (bad_directory : bool) then 400 else 404) "")
      | WorktreeError error => settling None (Some error) None None ;; mret (Refused 400 "")
      | OtherError error => settling None (Some error) None None ;; mret (Refused 500 "")
      end
  end.
