(* ===== verification/Drives.v ===== *)
(** * Runs of a script — [services/script_runner.py], the start, resume and cancel routes
    of [api/main.py], [_check_run_id_available] and [_is_resumable_for_tier] of
    [services/workflow_service.py]

    A request that starts, resumes or cancels a run waits for the journal several
    times.  One step of it goes from the return of a journal call to the return of the
    next, and any other request may be served in between.  The lint, the plan's
    approval, the snapshot on disk and the process are arguments. *)

From stdpp Require Import gmap.
From S2P Require Import Prelude Secrets Envelope Journal Replay Steps.
From S2P Require Seam.

(** [_bump] *)
Definition _bump (generation : string) : string :=
  match Seam.py_int generation with Some n => pretty (n + 1) | None => "2" end.

Definition in_phase (d : nat) (dr : Drive) (p : phase) : M Server () :=
  modify (λ s, set_drives s (<[d := {| dr_run_id := dr_run_id dr; dr_background := dr_background dr; dr_phase := p |}]> (sv_drives s))).
Definition closed (d : nat) : M Server () := modify (λ s, set_drives s (delete d (sv_drives s))).
Definition refuse (d : nat) (code : Z) (kind : string) : M Server response := closed d ;; mret (Refused code kind).
(** A request that is still at work, in a phase the step is for. *)
Definition at_phase (d : nat) (m : Drive → phase → option (M Server response)) : M Server response :=
  s ← gets id;
  match sv_drives s !! d with
  | None => mret Done
  | Some dr => default (mret Done) (m dr (dr_phase dr))
  end.

Definition new_record (run_id workflow_name generation started_at : string) : ScriptRunRecord := {|
  sc_run_id := run_id; sc_workflow_name := workflow_name; sc_state := RUN_RUNNING; sc_cancelled := false;
  sc_step_states := ∅; sc_generation := generation; sc_started_at := started_at; sc_finished_at := None |}.
Definition add_record (r : ScriptRunRecord) : M Server nat := λ s,
  (set_records s (sv_records s ++ [r]), Returned (length (sv_records s))).
Definition register (run_id : string) (rid : nat) : M Server () :=
  modify (λ s, set_registry s (<[run_id := rid]> (sv_registry s))).
Definition claim_run (run_id : string) : M Server () := modify (λ s, set_active s ({[run_id]} ∪ sv_active s)).
Definition release_run (run_id : string) : M Server () := modify (λ s, set_active s (sv_active s ∖ {[run_id]})).

(** ** Starting *)

(** [_check_run_id_available] *)
Definition _check_run_id_available (run_id : string) (up : bool) : M Server () :=
  s ← gets id;
  if bool_decide (is_Some (sv_registry s !! run_id)) || bool_decide (run_id ∈ sv_active s) then raise KeyError else
  row ← catch (journal_call up (get_run run_id)) (λ _, mret None);
  match row with Some _ => raise KeyError | None => mret () end.

(** The routes up to the manifest: a request in the background checks the name of a run
    first, and neither when it made the name up; the blocking one, only that it is free. *)
Definition start_admit (d : nat) (run_id : string) (background minted up : bool) : M Server response :=
  let admitted :=
    modify (λ s, set_drives s (<[d := {| dr_run_id := run_id; dr_background := background; dr_phase := Waiting |}]> (sv_drives s))) ;;
    mret Running in
  let free := catch (_check_run_id_available run_id up ;; admitted) (λ _, mret (Refused 409 "exists")) in
  if background then
    if minted then admitted
    else match _validate_key_part run_id with Raised _ => mret (Refused 400 "") | Returned _ => free end
  else free.

(** From the admission to the row, [refusal] being the answer of the lint or of the
    approval gate: the route in the background must write the row ... *)
Definition submit (d : nat) (dr : Drive) (row : RunRow) (refusal : option Z) (up : bool) : M Server response :=
  match refusal with
  | Some code => refuse d code ""
  | None =>
      catch (journal_call up (insert_run row) ;; in_phase d dr (Inserted (rr_started_at row)) ;; mret Running)
        (λ e, match e with IntegrityError _ => refuse d 409 "exists" | _ => refuse d 500 "" end)
  end.
(** ... and the blocking one registers the run and tries to. *)
Definition run_script_workflow (d : nat) (dr : Drive) (row : RunRow) (refusal : option Z) (up : bool) : M Server response :=
  match _validate_key_part (rr_run_id row), refusal with
  | Raised _, _ => refuse d 400 ""
  | Returned _, Some code => refuse d code ""
  | Returned _, None =>
      rid ← add_record (new_record (rr_run_id row) (rr_workflow_name row) (rr_generation row) (rr_started_at row));
      register (rr_run_id row) rid ;;
      best_effort (journal_call up (insert_run row)) ;;
      in_phase d dr (Recorded rid) ;;
      mret Running
  end.
Definition start_open (d : nat) (workflow_name spec_snapshot inputs_json : string) (manifest_json : option string)
    (refusal : option Z) (up : bool) (now : string) : M Server response :=
  at_phase d (λ dr p, match p with
  | Waiting => Some (
      let row := new_run (dr_run_id dr) workflow_name spec_snapshot inputs_json "running" now "script" "1" manifest_json in
      if dr_background dr then submit d dr row refusal up else run_script_workflow d dr row refusal up)
  | _ => None
  end).

(** The background route registers the run once its row is there. *)
Definition start_register (d : nat) (workflow_name : string) : M Server response :=
  at_phase d (λ dr p, match p with
  | Inserted now => Some (
      rid ← add_record (new_record (dr_run_id dr) workflow_name "1" now);
      register (dr_run_id dr) rid ;;
      in_phase d dr (Recorded rid) ;;
      mret Running)
  | _ => None
  end).
Definition start_drive (d : nat) : M Server response :=
  at_phase d (λ dr p, match p with
  | Recorded rid => Some (claim_run (dr_run_id dr) ;; in_phase d dr (Driving rid []) ;; mret Running)
  | _ => None
  end).

(** ** A drive ends — [_drive_process], [_finalize] *)

Inductive exit_of :=
| SpawnFailed
| TimeoutBound
| Exited (returncode : Z)
| Interrupted.

Definition finalize (rid : nat) (run_id : string) (state : RunState) (up : bool) (now : string) : M Server () :=
  update_record rid (set_sc_state state (Some now)) ;;
  best_effort (journal_call up (update_run_state run_id (RunState_value state) (Some now))).

(** An exception leaves the record as it is. *)
Definition drive_exit (d : nat) (exit : exit_of) (up : bool) (now : string) : M Server response :=
  at_phase d (λ dr p, match p with
  | Driving rid granted => Some (
      s ← gets id;
      match sv_records s !! rid with
      | None => mret Done
      | Some record =>
          let ends state := finalize rid (dr_run_id dr) state up now ;; in_phase d dr (Finished rid granted true) ;; mret Running in
          match exit with
          | SpawnFailed => ends RUN_FAILED
          | TimeoutBound =>
              let generation := _bump (sc_generation record) in
              update_record rid (set_sc_generation generation (sc_cancelled record)) ;;
              best_effort (journal_call up (update_run_generation (dr_run_id dr) generation)) ;;
              in_phase d dr (Expired rid granted) ;;
              mret Running
          | Exited returncode =>
              if sc_cancelled record || bool_decide (sc_state record = RUN_CANCELLED) then ends RUN_CANCELLED
              else if returncode =? 0 then ends RUN_COMPLETED else ends RUN_FAILED
          | Interrupted => in_phase d dr (Finished rid granted false) ;; mret Running
          end
      end)
  | _ => None
  end).
Definition drive_expire (d : nat) (up : bool) (now : string) : M Server response :=
  at_phase d (λ dr p, match p with
  | Expired rid granted => Some (
      finalize rid (dr_run_id dr) RUN_FAILED up now ;; in_phase d dr (Finished rid granted true) ;; mret Running)
  | _ => None
  end).

(** The restore of a resume: consent nobody used is taken back, and the live record
    shows it. *)
Definition mirrored (granted : list (string * string)) (states : gmap string StepRunState) (step_id : string)
    : gmap string StepRunState :=
  match StepState_of (default "" (snd <$> head (filter (λ e, e.1 = step_id) granted))) with
  | Some prior => alter (λ st, {| st_state := prior; st_attempts := st_attempts st; st_output := st_output st;
                    st_terminal_id := st_terminal_id st; st_error := st_error st;
                    st_call_fingerprint := st_call_fingerprint st |}) step_id states
  | None => states
  end.
Definition take_back (run_id : string) (rid : option nat) (granted : list (string * string)) (up : bool) : M Server () :=
  if bool_decide (granted = []) then mret () else
  best_effort (
    revoked ← journal_call up (revoke_unconsumed_decisions run_id granted);
    match rid with
    | Some rid => update_record rid (set_step_states (λ states, foldl (mirrored granted) states revoked))
    | None => mret ()
    end).

(** The [finally] of the drive, and the backstop of the task in the background. *)
Definition drive_leave (d : nat) (up : bool) (now : string) : M Server response :=
  at_phase d (λ dr p, match p with
  | Finished rid granted returned => Some (
      release_run (dr_run_id dr) ;;
      take_back (dr_run_id dr) (Some rid) granted up ;;
      (if dr_background dr && negb returned
       then best_effort (journal_call up (settle_run_state_if_running (dr_run_id dr) "failed" (Some now))) else mret ()) ;;
      closed d ;;
      mret (if (returned : bool) then Done else Refused 500 ""))
  | _ => None
  end).

(** ** Resuming — [resume_script_run] and the errors the route gives for it *)

Definition resume_read (d : nat) (run_id : string) (decisions : list (string * string)) (up : bool) : M Server response :=
  match _validate_key_part run_id with
  | Raised _ => mret (Refused 400 "")
  | Returned _ =>
      row ← journal_call up (get_run run_id);
      match row with
      | None => mret (Refused 404 "unknown run")
      | Some row =>
          modify (λ s, set_drives s (<[d := {| dr_run_id := run_id; dr_background := false;
            dr_phase := ResumeRead row decisions |}]> (sv_drives s))) ;;
          mret Running
      end
  end.

(** Leaving before a record was made. *)
Definition resume_leave (d : nat) (dr : Drive) (granted : list (string * string)) (up : bool) (code : Z) : M Server response :=
  release_run (dr_run_id dr) ;;
  take_back (dr_run_id dr) None granted up ;;
  refuse d code "".

(** [_is_resumable_for_tier]; [None] when the state cannot be read. *)
Definition _is_resumable_for_tier (row : RunRow) : option bool :=
  (λ state, negb (bool_decide (state = RUN_COMPLETED))) <$> RunState_of (rr_state row).

Definition resume_claim (d : nat) (snapshot_readable : bool) : M Server response :=
  at_phase d (λ dr p, match p with
  | ResumeRead row decisions => Some (
      s ← gets id;
      if bool_decide (dr_run_id dr ∈ sv_active s) then refuse d 409 "not allowed" else
      claim_run (dr_run_id dr) ;;
      match _is_resumable_for_tier row with
      | None => resume_leave d dr [] true 400
      | Some false => resume_leave d dr [] true 409
      | Some true =>
          if snapshot_readable then in_phase d dr (Claimed row decisions) ;; mret Running
          else resume_leave d dr [] true 422
      end)
  | _ => None
  end).

(** Consent of an earlier resume that this one does not renew, and the plan. *)
Definition unconsumed (decisions : list (string * string)) (rows : list StepRow) : bool :=
  existsb (λ r, bool_decide (sr_state r ∈ authorised_states) && negb (bool_decide (sr_step_id r ∈ decisions.*1))) rows.
Definition resume_gates (d : nat) (approved up : bool) : M Server response :=
  at_phase d (λ dr p, match p with
  | Claimed row decisions => Some (
      catch
        (rows ← journal_call up (get_steps (dr_run_id dr));
         if unconsumed decisions rows then resume_leave d dr [] true 409
         else if negb approved then resume_leave d dr [] true 403
         else in_phase d dr (Gated row decisions) ;; mret Running)
        (λ _, resume_leave d dr [] true 500))
  | _ => None
  end).

Definition resume_apply (d : nat) (up : bool) : M Server response :=
  at_phase d (λ dr p, match p with
  | Gated row decisions => Some (
      catch
        (granted ← journal_call (up || bool_decide (decisions = [])) (apply_decisions (dr_run_id dr) decisions);
         modify (λ s, happened s ((λ '(step_id, value), Decided (dr_run_id dr, step_id) value) <$> decisions)) ;;
         in_phase d dr (Applied row granted) ;;
         mret Running)
        (λ e, resume_leave d dr [] true (match e with ValueError _ => 400 | _ => 500 end)))
  | _ => None
  end).

(** The new generation must be written before anything is spawned. *)
Definition resume_open (d : nat) (up back_up : bool) : M Server response :=
  at_phase d (λ dr p, match p with
  | Applied row granted => Some (
      let generation := _bump (rr_generation row) in
      rid ← add_record (new_record (rr_run_id row) (rr_workflow_name row) generation (rr_started_at row));
      catch (journal_call up (update_run_generation (dr_run_id dr) generation) ;;
             in_phase d dr (Opened rid granted) ;; mret Running)
        (λ _, release_run (dr_run_id dr) ;; take_back (dr_run_id dr) (Some rid) granted back_up ;; refuse d 500 ""))
  | _ => None
  end).
Definition resume_register (d : nat) (up : bool) : M Server response :=
  at_phase d (λ dr p, match p with
  | Opened rid granted => Some (
      register (dr_run_id dr) rid ;;
      best_effort (journal_call up (update_run_state (dr_run_id dr) "running" None)) ;;
      in_phase d dr (Driving rid granted) ;;
      mret Running)
  | _ => None
  end).

(** ** Cancelling — [cancel_script_run] and its route *)

(** A run with no live record: the route marks its row. *)
Definition cancel_detached (run_id : string) (up : bool) (now : string) : M Server response :=
  row ← journal_call up (get_run run_id);
  match row with
  | None => mret (Refused 404 "unknown run")
  | Some row =>
      if bool_decide ((run_over <$> RunState_of (rr_state row)) = Some true) then mret (Refused 409 "already over")
      else journal_call up (update_run_state run_id "cancelled" (Some now)) ;; mret Done
  end.
(** [cancel_script_run], up to the end of the process. *)
Definition cancel_live (d rid : nat) (run_id : string) (record : ScriptRunRecord) (up : bool) : M Server response :=
  if run_over (sc_state record) then mret Done
  else if sc_cancelled record then mret Done
  else
    let generation := _bump (sc_generation record) in
    update_record rid (set_sc_generation generation true) ;;
    best_effort (journal_call up (update_run_generation run_id generation)) ;;
    modify (λ s, set_drives s (<[d := {| dr_run_id := run_id; dr_background := false; dr_phase := Cancelling rid |}]> (sv_drives s))) ;;
    mret Running.
Definition cancel_begin (d : nat) (run_id : string) (up : bool) (now : string) : M Server response :=
  s ← gets id;
  match sv_registry s !! run_id with
  | None => cancel_detached run_id up now
  | Some rid =>
      match sv_records s !! rid with
      | None => mret Done
      | Some record =>
          if run_over (sc_state record) then mret (Refused 409 "already over") else cancel_live d rid run_id record up
      end
  end.
Definition cancel_end (d : nat) (up : bool) (now : string) : M Server response :=
  at_phase d (λ dr p, match p with
  | Cancelling rid => Some (finalize rid (dr_run_id dr) RUN_CANCELLED up now ;; closed d ;; mret Done)
  | _ => None
  end).

(** ** The server *)

(** A restart keeps the journal; the log is what the world has seen. *)
Definition restarted (s : Server) : Server := {|
  sv_journal := sv_journal s; sv_records := []; sv_registry := ∅; sv_active := ∅; sv_outputs := [];
  sv_calls := ∅; sv_drives := ∅; sv_log := sv_log s |}.

Inductive request :=
| Arrive (c : nat) (rq : StepRequest) (faults : AdmitFaults) (now : string)
| Ready (c : nat) (up : bool) (terminal_id now : string)
| Finish (c : nat) (up : bool) (outcome : step_outcome) (now : string)
| Output (run_id step_id : string) (output : json) (schema : schema_verdict)
| StartAdmit (d : nat) (run_id : string) (background minted up : bool)
| StartOpen (d : nat) (workflow_name spec_snapshot inputs_json : string) (manifest_json : option string) (refusal : option Z)
    (up : bool) (now : string)
| StartRegister (d : nat) (workflow_name : string)
| StartDrive (d : nat)
| DriveExit (d : nat) (exit : exit_of) (up : bool) (now : string)
| DriveExpire (d : nat) (up : bool) (now : string)
| DriveLeave (d : nat) (up : bool) (now : string)
| ResumeRun (d : nat) (run_id : string) (decisions : list (string * string)) (up : bool)
| ResumeClaim (d : nat) (snapshot_readable : bool)
| ResumeGates (d : nat) (approved up : bool)
| ResumeApply (d : nat) (up : bool)
| ResumeOpen (d : nat) (up back_up : bool)
| ResumeRegister (d : nat) (up : bool)
| CancelBegin (d : nat) (run_id : string) (up : bool) (now : string)
| CancelEnd (d : nat) (up : bool) (now : string)
| Restart.

(** An identifier that is in use names no new request. *)
Definition new_call (c : nat) (m : M Server response) : M Server response :=
  s ← gets id; if bool_decide (is_Some (sv_calls s !! c)) then mret Done else m.
Definition new_drive (d : nat) (m : M Server response) : M Server response :=
  s ← gets id; if bool_decide (is_Some (sv_drives s !! d)) then mret Done else m.

Definition handle (r : request) : M Server response :=
  match r with
  | Arrive c rq faults now => new_call c (arrive c rq faults now)
  | Ready c up terminal_id now => ready c up terminal_id now
  | Finish c up outcome now => finish c up outcome now
  | Output run_id step_id output schema =>
      catch (record_step_output run_id step_id output schema ;; mret Done) (λ _, mret (Refused 400 ""))
  | StartAdmit d run_id background minted up => new_drive d (start_admit d run_id background minted up)
  | StartOpen d workflow_name spec_snapshot inputs_json manifest_json refusal up now =>
      start_open d workflow_name spec_snapshot inputs_json manifest_json refusal up now
  | StartRegister d workflow_name => start_register d workflow_name
  | StartDrive d => start_drive d
  | DriveExit d exit up now => drive_exit d exit up now
  | DriveExpire d up now => drive_expire d up now
  | DriveLeave d up now => drive_leave d up now
  | ResumeRun d run_id decisions up => new_drive d (resume_read d run_id decisions up)
  | ResumeClaim d snapshot_readable => resume_claim d snapshot_readable
  | ResumeGates d approved up => resume_gates d approved up
  | ResumeApply d up => resume_apply d up
  | ResumeOpen d up back_up => resume_open d up back_up
  | ResumeRegister d up => resume_register d up
  | CancelBegin d run_id up now => new_drive d (cancel_begin d run_id up now)
  | CancelEnd d up now => cancel_end d up now
  | Restart => modify restarted ;; mret Done
  end.
(** What no arm of a route catches is a 500. *)
Definition serve_request (r : request) : M Server response := catch (handle r) (λ _, mret (Refused 500 "")).
Definition served (s : Server) (rs : list request) : Server := foldl (λ s r, (serve_request r s).1) s rs.
