(* ===== verification/StepsThms.v ===== *)
(** * What the script plane promises

    That the prompt of a step is not sent again unless its author or a human allows it,
    whatever else the server does in between, as long as no two calls of the step race. *)

From stdpp Require Import gmap.
From S2P Require Import Prelude Fingerprint Secrets Envelope Journal Replay Steps Drives.

(** ** Statements that send nothing *)

Abbreviation key := (string * string)%type.
Definition authorised_to_rerun (r : StepRow) : Prop := sr_state r = _RERUN_AUTHORIZED.

(** A row that no rerun is authorised for stays such a row. *)
Definition tame (t t' : gmap key StepRow) : Prop :=
  ∀ k r, t !! k = Some r → ¬ authorised_to_rerun r → ∃ r', t' !! k = Some r' ∧ ¬ authorised_to_rerun r'.
#[export] Instance tame_preorder : PreOrder tame.
Proof.
  split; [intros t k r H1 H2; by exists r|]. intros t1 t2 t3 H12 H23 k r H1 H2.
  destruct (H12 k r H1 H2) as (r2 & H3 & H4). by apply (H23 k r2).
Qed.
Definition tame_journal (j j' : journal) : Prop := tame (j_steps j) (j_steps j').
#[export] Instance tame_journal_preorder : PreOrder tame_journal.
Proof. split; [intros j; unfold tame_journal; reflexivity|]. unfold tame_journal. intros ??? H1 H2. by etrans. Qed.

Definition calm (s s' : Server) : Prop :=
  tame_journal (sv_journal s) (sv_journal s') ∧ sv_log s' = sv_log s ∧ sv_calls s' ⊆ sv_calls s.
#[export] Instance calm_preorder : PreOrder calm.
Proof.
  split; [by intros s|]. intros s1 s2 s3 (H1 & H2 & H3) (H4 & H5 & H6).
  split; [by etrans|]. split; [congruence|by etrans].
Qed.

Lemma tame_insert t k r : ¬ authorised_to_rerun r → tame t (<[k := r]> t).
Proof.
  intros Hr k' r' H1 H2. destruct (decide_rel (=) k k') as [->|Hne].
  - exists r. by rewrite lookup_insert_eq.
  - exists r'. by rewrite lookup_insert_ne.
Qed.

Lemma calm_journal j s : tame_journal (sv_journal s) j → calm s (set_sv_journal s j).
Proof. intros H. by split. Qed.
Lemma keeps_journal_call {A} up (m : J A) : keeps tame_journal m → keeps calm (journal_call up m).
Proof.
  intros Hm. unfold journal_call, on_journal. apply (keeps_zoom tame_journal _ _ calm).
  - intros s j H. by apply calm_journal.
  - unfold reaching. destruct up; [done|]. apply keeps_raise, _.
Qed.
Lemma keeps_update_record rid f : keeps calm (update_record rid f).
Proof. intros s. by split. Qed.
Lemma keeps_best_effort {A} (m : M Server A) : keeps calm m → keeps calm (best_effort m).
Proof. intros H. unfold best_effort. eauto with cao. Qed.

Lemma tame_update_run run_id f : keeps tame_journal (update_run run_id f).
Proof. intros j. unfold tame_journal. simpl. reflexivity. Qed.
Lemma tame_begin_step run_id step_id now fp : keeps tame_journal (begin_step run_id step_id now fp).
Proof. intros j. unfold tame_journal. simpl. destruct (j_steps j !! _); by apply tame_insert. Qed.
Lemma tame_settle_step run_id step_id state now r o e :
  state ≠ _RERUN_AUTHORIZED → keeps tame_journal (settle_step run_id step_id state now r o e).
Proof.
  intros Hs j. unfold tame_journal, settle_step. destruct (j_steps j !! _); by apply tame_insert.
Qed.
Lemma tame_insert_run row : keeps tame_journal (insert_run row).
Proof. intros j. unfold tame_journal, insert_run. case_match; simpl; reflexivity. Qed.
Lemma tame_settle_run run_id state finished_at : keeps tame_journal (settle_run_state_if_running run_id state finished_at).
Proof. intros j. unfold tame_journal, settle_run_state_if_running. repeat case_match; simpl; reflexivity. Qed.
Lemma tame_gets {A} (f : journal → A) : keeps tame_journal (gets f).
Proof. apply keeps_gets, _. Qed.

Lemma tame_revoke run_id prior : keeps tame_journal (revoke_unconsumed_decisions run_id prior).
Proof.
  intros j. unfold tame_journal, revoke_unconsumed_decisions.
  destruct (foldl (revoke_step run_id) (j_steps j, []) prior) as [t revoked] eqn:E. simpl.
  assert (t = (foldl (revoke_step run_id) (j_steps j, []) prior).1) as -> by (by rewrite E). clear E.
  assert (∀ acc, tame acc.1 (foldl (revoke_step run_id) acc prior).1) as H; [|apply (H (_, _))].
  induction prior as [|[s p] l IH]; intros acc; simpl; [reflexivity|]. etrans; [|apply IH].
  rewrite revoke_step_table. unfold revoke_one.
  destruct (bool_decide_reflect (p ∈ authorised_states)) as [|Hp]; [reflexivity|].
  destruct (acc.1 !! (run_id, s)) eqn:Hr; [|reflexivity]. case_bool_decide; [|reflexivity]. simpl. apply tame_insert.
  intros Hs. apply Hp. rewrite Hs. by_eval.
Qed.

#[export] Hint Resolve keeps_journal_call keeps_update_record keeps_best_effort tame_update_run tame_begin_step
  tame_settle_step tame_insert_run tame_settle_run tame_gets tame_revoke : cao.

Lemma keeps_settle rid run_id step_id up t e m st now : keeps calm (_settle rid run_id step_id up t e m st now).
Proof.
  unfold _settle. apply keeps_bind; [apply _|apply keeps_gets, _|]. intros s.
  destruct (sv_records s !! rid) as [record|]; [|apply keeps_ret, _].
  apply keeps_bind; [apply _|apply keeps_update_record|]. intros _.
  apply keeps_catch; [apply _| |intros; apply keeps_ret, _].
  apply keeps_bind; [apply _| |intros; apply keeps_ret, _]. apply keeps_journal_call, tame_settle_step.
  destruct e; simpl; [done|]. destruct (get_output _ _) as [o|]; simpl; [destruct (so_validated o)|]; done.
Qed.
Lemma keeps_settle_step_of recorder up t e m st now : keeps calm (settle_step_of recorder up t e m st now).
Proof. destruct recorder as [[[r s] rid]|]; simpl; [apply keeps_settle|apply keeps_ret, _]. Qed.
#[export] Hint Resolve keeps_settle keeps_settle_step_of : cao.

(** Everything but an admission, a prompt and an answer of a human. *)
Lemma keeps_at_phase d m : (∀ dr p x, m dr p = Some x → keeps calm x) → keeps calm (at_phase d m).
Proof.
  intros H. unfold at_phase. apply keeps_bind; [apply _|apply keeps_gets, _|]. intros s.
  destruct (sv_drives s !! d) as [dr|]; [|apply keeps_ret, _].
  destruct (m dr (dr_phase dr)) as [x|] eqn:E; simpl; [by eapply H|apply keeps_ret, _].
Qed.
Lemma keeps_in_phase d dr p : keeps calm (in_phase d dr p). Proof. intros s. by split. Qed.
Lemma keeps_closed d : keeps calm (closed d). Proof. intros s. by split. Qed.
Lemma keeps_add_record r : keeps calm (add_record r). Proof. intros s. by split. Qed.
Lemma keeps_register run_id rid : keeps calm (register run_id rid). Proof. intros s. by split. Qed.
Lemma keeps_claim_run run_id : keeps calm (claim_run run_id). Proof. intros s. by split. Qed.
Lemma keeps_release_run run_id : keeps calm (release_run run_id). Proof. intros s. by split. Qed.
#[export] Hint Resolve keeps_in_phase keeps_closed keeps_add_record keeps_register keeps_claim_run keeps_release_run : cao.

(** Statement by statement. *)
Ltac by_statements := repeat first
  [ apply keeps_modify; intros; by split
  | by apply keeps_modify
  | progress eauto 3 with cao
  | apply keeps_bind; [apply _| |intros]
  | apply keeps_catch; [apply _| |intros]
  | match goal with |- keeps _ (match ?x with _ => _ end) => destruct x end ].

Lemma keeps_finalize rid run_id state up now : keeps calm (finalize rid run_id state up now).
Proof. unfold finalize, update_run_state. by_statements. Qed.
Lemma keeps_take_back run_id rid granted up : keeps calm (take_back run_id rid granted up).
Proof. unfold take_back. by_statements. Qed.
Lemma keeps_refuse d code kind : keeps calm (refuse d code kind). Proof. unfold refuse. by_statements. Qed.
#[export] Hint Resolve keeps_finalize keeps_take_back keeps_refuse : cao.
Lemma keeps_resume_leave d dr granted up code : keeps calm (resume_leave d dr granted up code).
Proof. unfold resume_leave. by_statements. Qed.
#[export] Hint Resolve keeps_resume_leave : cao.

Ltac by_phase := apply keeps_at_phase; intros dr p x Hx; destruct p; try done; injection Hx as <-; by_statements.

Lemma calm_get_run up run_id : keeps calm (journal_call up (get_run run_id)).
Proof. apply keeps_journal_call, tame_gets. Qed.
#[export] Hint Resolve calm_get_run : cao.

(** The requests that neither admit a step, send its prompt nor apply an answer. *)
Definition is_calm (r : request) : bool :=
  match r with Arrive _ _ _ _ | Ready _ _ _ _ | ResumeApply _ _ => false | _ => true end.

Lemma keeps_finish c up outcome now : keeps calm (finish c up outcome now).
Proof.
  unfold finish. apply keeps_bind; [apply _|apply keeps_gets, _|]. intros s0.
  destruct (sv_calls s0 !! c) as [cl|]; [|apply keeps_ret, _].
  apply keeps_bind; [apply _|intros s; split; [simpl; reflexivity|split; [done|apply delete_subseteq]]|]. intros _.
  destruct outcome; by_statements.
Qed.
Lemma keeps_output run_id step_id output schema : keeps calm (record_step_output run_id step_id output schema).
Proof. unfold record_step_output. by_statements. Qed.
Lemma keeps_start_admit d run_id background minted up : keeps calm (start_admit d run_id background minted up).
Proof. unfold start_admit, _check_run_id_available. by_statements. Qed.
Lemma keeps_resume_read d run_id decisions up : keeps calm (resume_read d run_id decisions up).
Proof. unfold resume_read. by_statements. Qed.
Lemma keeps_cancel_begin d run_id up now : keeps calm (cancel_begin d run_id up now).
Proof. unfold cancel_begin, cancel_detached, cancel_live, update_run_state, update_run_generation. by_statements. Qed.
Lemma keeps_drive_exit d exit up now : keeps calm (drive_exit d exit up now).
Proof. unfold drive_exit, update_run_generation. by_phase. Qed.
Lemma keeps_drive_leave d up now : keeps calm (drive_leave d up now).
Proof. unfold drive_leave. by_phase. Qed.
Lemma keeps_start_open d name snapshot inputs manifest refusal up now :
  keeps calm (start_open d name snapshot inputs manifest refusal up now).
Proof. unfold start_open, submit, run_script_workflow. by_phase. Qed.
Lemma keeps_resume_gates d approved up : keeps calm (resume_gates d approved up).
Proof.
  unfold resume_gates. by_phase.
Qed.
Lemma keeps_new_drive d m : keeps calm m → keeps calm (new_drive d m).
Proof. intros H. unfold new_drive. by_statements. Qed.
#[export] Hint Resolve keeps_finish keeps_output keeps_start_admit keeps_resume_read keeps_cancel_begin keeps_drive_exit
  keeps_drive_leave keeps_start_open keeps_resume_gates keeps_new_drive : cao.

Lemma calm_requests r : is_calm r = true → keeps calm (serve_request r).
Proof.
  intros Hr. unfold serve_request. apply keeps_catch; [apply _| |intros; apply keeps_ret, _].
  destruct r; try done; simpl; auto with cao.
  - unfold start_register. by_phase.
  - unfold start_drive. by_phase.
  - unfold drive_expire. by_phase.
  - unfold resume_claim. by_phase.
  - unfold resume_open, update_run_generation. by_phase.
  - unfold resume_register, update_run_state. by_phase.
  - unfold cancel_end. by_phase.
  - intros s. simpl. split; [simpl; reflexivity|]. split; [done|]. apply map_empty_subseteq.
Qed.

(** ** An admission *)

Lemma fence_reads up rq s : (fence up rq s).1 = s.
Proof.
  unfold fence. destruct (rq_run_id rq) as [run_id|]; [|done]. destruct (rq_generation rq) as [g|]; [|done].
  destruct up; simpl.
  - unfold catch, mbind, M_bind, journal_call, on_journal, reaching, zoom, check_generation, get_run, gets, mbind, M_bind.
    simpl. destruct s as [j ? ? ? ? ? ? ?]; simpl. destruct (j_runs j !! run_id) as [row|]; simpl; [|by repeat case_match].
    case_bool_decide; simpl; [done|]. by repeat case_match.
  - destruct s. done.
Qed.

(** The gate reads one row. *)
Lemma decide_reads run_id step_id fp policy j :
  (decide run_id step_id fp policy j).1 = j ∧
  ∀ d, (decide run_id step_id fp policy j).2 = Returned d → d = judge (j_steps j !! (run_id, step_id)) fp policy.
Proof.
  unfold decide. destruct (bool_decide _); simpl; [|by split]. split; [done|]. by intros d [= <-].
Qed.

(** The call that is admitted. *)
Definition call_of (rq : StepRequest) (recorder : option (string * string * nat)) : Call := {|
  cl_run_id := default "" (rq_run_id rq); cl_step_id := default "" (rq_step_id rq); cl_record := snd <$> recorder;
  cl_fields := rq_fields rq; cl_recovery := rq_recovery rq; cl_ready := false |}.
Definition call_key (cl : Call) : key := (cl_run_id cl, cl_step_id cl).

Lemma recorder_of_key rq s recorder : recorder_of rq s = Some recorder →
  recorder.1 = call_key (call_of rq (Some recorder)) ∧ sv_registry s !! recorder.1.1 = Some recorder.2.
Proof.
  unfold recorder_of, call_of, call_key. destruct (truthy _ && truthy _); [|done].
  destruct (rq_run_id rq) as [r|]; [|done]. destruct (rq_step_id rq) as [st|]; [|done]. simpl.
  destruct (sv_registry s !! r) eqn:E; [|done]. by intros [= <-].
Qed.

Lemma keeps_after_gate recorder up_row decision : keeps calm (after_gate recorder up_row decision).
Proof.
  destruct recorder as [[run_id step_id] rid]. unfold after_gate, record_replay. by_statements.
Qed.

(** An admission is calm, or the step was let through: it has no record, or the gate
    read its row and said that it is to be run. *)
Lemma arrive_spec c rq faults now s :
  calm s (arrive c rq faults now s).1 ∨
  (∃ recorder, (arrive c rq faults now s).1 = set_calls s (<[c := call_of rq recorder]> (sv_calls s)) ∧ recorder = recorder_of rq s
     ∧ (recorder = None ∨ rd_verdict (judge (j_steps (sv_journal s) !! call_key (call_of rq recorder)) (compute (rq_fields rq)) (rq_recovery rq)) = EXECUTE)).
Proof.
  destruct (arrive c rq faults now s) as [s' o] eqn:E. cbn [fst]. revert E. unfold arrive.
  destruct (negb (request_shape_ok rq)); [intros [= <- _]; by left|].
  unfold mbind at 1. unfold M_bind at 1. cbn [gets].
  destruct (sc_reused_terminal (rq_fields rq) && rq_input_refused rq); [intros [= <- _]; by left|].
  unfold mbind at 1. unfold M_bind at 1. pose proof (fence_reads (af_fence faults) rq s) as Hf.
  destruct (fence (af_fence faults) rq s) as [s0 [[r|]|e]]; simpl in Hf; subst s0; [intros [= <- _]; by left| |intros [= <- _]; by left].
  set (m := match recorder_of rq s with Some _ => _ | None => _ end). unfold mbind at 1. unfold M_bind at 1. unfold catch at 1.
  assert (keeps calm m) as Hm.
  { subst m. destruct (recorder_of rq s) as [[[r st] rid]|]; [|apply keeps_ret, _].
    apply keeps_bind; [apply _| |intros; apply keeps_after_gate]. apply keeps_journal_call.
    intros j. destruct (decide_reads r st (compute (rq_fields rq)) (rq_recovery rq) j) as [Hj _].
    rewrite Hj. reflexivity. }
  assert (∀ s1, m s = (s1, Returned None) → s1 = s ∧ (recorder_of rq s = None
    ∨ rd_verdict (judge (j_steps (sv_journal s) !! call_key (call_of rq (recorder_of rq s))) (compute (rq_fields rq)) (rq_recovery rq)) = EXECUTE)) as Hnone.
  { intros s1. subst m. destruct (recorder_of rq s) as [[[r st] rid]|] eqn:Hrec; [|intros [= <-]; auto].
    destruct (recorder_of_key _ _ _ Hrec) as [<- _]. simpl. unfold mbind, M_bind, journal_call, on_journal, zoom, reaching.
    destruct (af_gate faults); [|done]. destruct (decide_reads r st (compute (rq_fields rq)) (rq_recovery rq) (sv_journal s)) as [Hj Hd].
    destruct (decide r st _ _ (sv_journal s)) as [j [d|e]]; simpl in Hj, Hd; subst j; [|done]. rewrite <- (Hd d eq_refl). clear Hd.
    replace (set_sv_journal s (sv_journal s)) with s by (by destruct s). unfold after_gate.
    destruct (rd_verdict d); [intros [= <-]; auto| |done|done].
    destruct (rd_envelope d) as [e|]; [|done]. destruct (se_terminal_id e); [|done].
    unfold mbind, M_bind, catch. destruct (record_replay _ _ _ _ s) as [? [[]|]]; simpl; done. }
  specialize (Hm s). destruct (m s) as [s1 [[r|]|e]]; simpl in Hm |- *.
  - intros [= <- _]. by left.
  - destruct (Hnone s1 eq_refl) as [-> H]. intros [= <- _]. right. by exists (recorder_of rq s).
  - unfold mbind, M_bind.
    pose proof (keeps_settle_step_of (recorder_of rq s) (af_settle faults) None (Some (exn_text e)) None None now s1) as Hs.
    destruct (settle_step_of _ _ _ _ _ _ _ s1) as [s2 [[]|e']]; simpl in *; intros [= <- _]; left; by etrans.
Qed.

(** ** A prompt and an answer *)

Lemma terminal_ready_spec rid run_id step_id up terminal_id fp now s :
  ∃ s', terminal_ready rid run_id step_id up terminal_id fp now s = (s', Returned ()) ∧ calm s s' ∧ sv_calls s' = sv_calls s
  ∧ (up = true → ∃ r, j_steps (sv_journal s') !! (run_id, step_id) = Some r ∧ ¬ authorised_to_rerun r).
Proof.
  destruct up; (eexists; split; [reflexivity|]); simpl; [|by destruct s].
  split; [split; [apply (tame_begin_step run_id step_id now fp (sv_journal s))|by split]|]. split; [done|]. intros _.
  destruct (j_steps (sv_journal s) !! _) as [r|]; rewrite lookup_insert_eq; by eexists.
Qed.

Lemma ready_spec c up terminal_id now s :
  calm s (ready c up terminal_id now s).1 ∨
  ∃ cl s', sv_calls s !! c = Some cl ∧ cl_ready cl = false ∧ calm s s' ∧ sv_calls s' = sv_calls s
  ∧ (is_Some (cl_record cl) → up = true → ∃ r, j_steps (sv_journal s') !! call_key cl = Some r ∧ ¬ authorised_to_rerun r)
  ∧ (ready c up terminal_id now s).1
    = happened (set_calls s' (<[c := made_ready cl]> (sv_calls s')))
        [Executed (call_key cl) (cl_recovery cl) (bool_decide (is_Some (cl_record cl))) (bool_decide (is_Some (cl_record cl)) && up)].
Proof.
  destruct (ready c up terminal_id now s) as [s1 o] eqn:E. cbn [fst]. revert E. unfold ready, recorder_of_call.
  unfold mbind at 1. unfold M_bind at 1. cbn [gets id]. destruct (sv_calls s !! c) as [cl|] eqn:Hc; [|intros [= <- _]; by left].
  destruct (cl_ready cl) eqn:Hr; [intros [= <- _]; by left|]. intros E. right. exists cl.
  destruct (cl_record cl) as [rid|] eqn:Hrec; cbn [fmap option_fmap option_map] in E.
  - destruct (terminal_ready_spec rid (cl_run_id cl) (cl_step_id cl) up terminal_id (compute (cl_fields cl)) now s)
      as (s' & Hs & H1 & H2 & H3). exists s'.
    unfold mbind at 1 in E. unfold M_bind at 1 in E. rewrite Hs in E. injection E as <- _. by split_and!.
  - exists s. injection E as <- _. split_and!; try done.
Qed.

(** The rows a list of answers authorises to run again. *)
Lemma authorise_any (run_id : string) (l : list (string * RecoveryDecision)) (t : gmap key StepRow) (k : key) r : t !! k = Some r →
  ∃ r', foldl (authorise run_id) t l !! k = Some r' ∧ (authorised_to_rerun r' → authorised_to_rerun r ∨ ∃ s, k = (run_id, s) ∧ (s, RERUN) ∈ l).
Proof.
  revert t r. induction l as [|[s d] l IH]; intros t r Hr; simpl; [exists r; auto|].
  destruct (decide_rel (=) k (run_id, s)) as [->|Hne].
  - destruct (IH (authorise run_id t (s, d)) (set_step_state (DECISION_STATES d) r)) as (r' & H1 & H2).
    { unfold authorise. simpl. by rewrite lookup_alter_eq, Hr. }
    exists r'. split; [done|]. intros Ha. right. exists s. split; [done|]. destruct (H2 Ha) as [Hd|(s' & [= <-] & Hin)]; [|by right].
    destruct d; [by left|done].
  - destruct (IH (authorise run_id t (s, d)) r) as (r' & H1 & H2).
    { unfold authorise. by rewrite lookup_alter_ne. }
    exists r'. split; [done|]. intros Ha. destruct (H2 Ha) as [|(s' & -> & Hin)]; [by left|]. right. exists s'. by split; [|right].
Qed.

Lemma resolve_back known ds resolved s d : resolve_decisions known ds = Returned resolved → (s, d) ∈ resolved →
  (s, RecoveryDecision_value d) ∈ ds.
Proof.
  revert resolved. induction ds as [|[s' v] ds IH]; intros resolved; simpl; [intros [= <-] H; by apply not_elem_of_nil in H|].
  destruct (known s'); simpl; [|done]. unfold parse_decision.
  destruct (resolve_decisions known ds) as [l|]; [|by repeat case_bool_decide].
  destruct (bool_decide_reflect (v = "rerun"%string)) as [->|_].
  { intros [= <-] [[= -> ->]|H]%elem_of_cons; [by left|right; by apply (IH l)]. }
  destruct (bool_decide_reflect (v = "skip"%string)) as [->|_]; [|done].
  intros [= <-] [[= -> ->]|H]%elem_of_cons; [by left|right; by apply (IH l)].
Qed.

Lemma resume_apply_spec d up s :
  calm s (resume_apply d up s).1 ∨
  ∃ run_id decisions, let s' := (resume_apply d up s).1 in
  sv_calls s' = sv_calls s ∧ sv_log s' = sv_log s ++ ((λ '(step_id, value), Decided (run_id, step_id) value) <$> decisions)
  ∧ ∀ k r, j_steps (sv_journal s) !! k = Some r → ∃ r', j_steps (sv_journal s') !! k = Some r'
    ∧ (authorised_to_rerun r' → authorised_to_rerun r ∨ ∃ step_id, k = (run_id, step_id) ∧ (step_id, "rerun"%string) ∈ decisions).
Proof.
  destruct (resume_apply d up s) as [s1 o] eqn:E. cbn [fst]. revert E. unfold resume_apply, at_phase.
  unfold mbind at 1. unfold M_bind at 1. cbn [gets id]. destruct (sv_drives s !! d) as [dr|]; [|intros [= <- _]; by left].
  destruct (dr_phase dr) as [| | | | |row decisions| | | | | |]; try (intros [= <- _]; by left). cbn [default from_option].
  set (leave := λ e : exn, resume_leave d dr [] true _). unfold catch at 1. intros E.
  assert (∀ e s2 o2, leave e s = (s2, o2) → calm s s2) as Hleave.
  { intros e s2 o2 H. pose proof (keeps_resume_leave d dr [] true (match e with ValueError _ => 400 | _ => 500 end) s) as Hk.
    subst leave. cbn beta in H. by rewrite H in Hk. }
  unfold journal_call, on_journal, zoom, reaching in E. unfold mbind at 1 in E. unfold M_bind at 1 in E.
  destruct (up || bool_decide (decisions = [])); [|left; revert E; simpl; replace (set_sv_journal s (sv_journal s)) with s by (by destruct s); by apply Hleave].
  destruct (decide_rel (=) decisions []) as [->|Hne]; [injection E as <- _; left; split; [simpl; reflexivity|]; simpl; by rewrite app_nil_r|].
  unfold id in E. destruct (apply_exact (dr_run_id dr) decisions (sv_journal s) Hne) as [[e He]|(resolved & Hr & He)]; rewrite He in E.
  - left. revert E. replace (set_sv_journal s (sv_journal s)) with s by (by destruct s). apply Hleave.
  - right. exists (dr_run_id dr), decisions. injection E as <- _. split; [done|]. split; [done|]. intros k r Hk. simpl.
    destruct (authorise_any (dr_run_id dr) resolved _ k r Hk) as (r' & H1 & H2). exists r'. split; [done|].
    intros Ha. destruct (H2 Ha) as [|(st & -> & Hin)]; [by left|]. right. exists st. split; [done|].
    by apply (resolve_back _ _ _ _ _ Hr) in Hin.
Qed.

(** ** At most one prompt per permission *)

(** The step was prompted, its row written, and no rerun decided since. *)
Definition sees (k : key) (spent_ : bool) (h : happening) : bool :=
  match h with
  | Executed k' _ _ recorded => (bool_decide (k' = k) && recorded) || spent_
  | Decided k' value => if bool_decide (k' = k ∧ value = "rerun"%string) then false else spent_
  end.
Definition spent (k : key) (log : list happening) : bool := foldl (sees k) false log.

Lemma spent_app k l1 l2 : spent k (l1 ++ l2) = foldl (sees k) (spent k l1) l2.
Proof. unfold spent. by rewrite foldl_app. Qed.
Lemma sees_stays k l : Decided k "rerun" ∉ l → foldl (sees k) true l = true.
Proof.
  induction l as [|h l IH]; [done|]. intros [Hh Hl]%not_elem_of_cons. simpl. rewrite <- (IH Hl) at 2. f_equal.
  destruct h as [k' p g w|k' v]; simpl; [by rewrite orb_true_r|].
  rewrite bool_decide_eq_false_2; [done|]. intros [-> ->]. done.
Qed.
Lemma spent_decided k run_id (decisions : list (string * string)) log step_id :
  k = (run_id, step_id) → (step_id, "rerun"%string) ∈ decisions →
  spent k (log ++ ((λ '(step_id, value), Decided (run_id, step_id) value) <$> decisions)) = false.
Proof.
  intros -> Hin. rewrite spent_app. generalize (spent (run_id, step_id) log).
  assert (∀ l, foldl (sees (run_id, step_id)) false ((λ '(step_id, value), Decided (run_id, step_id) value) <$> l) = false) as Hf.
  { induction l as [|[s v] l IH]; [done|]. simpl. by case_bool_decide. }
  revert Hin. induction decisions as [|[s v] l IH]; intros Hin b; [by apply not_elem_of_nil in Hin|].
  apply elem_of_cons in Hin as [[= <- <-]|Hin]; [simpl; rewrite bool_decide_eq_true_2 by done; apply Hf|by apply IH].
Qed.
Lemma spent_decisions k run_id (decisions : list (string * string)) log :
  spent k (log ++ ((λ '(step_id, value), Decided (run_id, step_id) value) <$> decisions)) = true → spent k log = true.
Proof.
  rewrite spent_app. generalize (spent k log). induction decisions as [|[s v] l IH]; intros b; [done|]. simpl.
  case_bool_decide; intros H1; apply IH in H1; congruence.
Qed.

(** No call of the step is between its admission and its row. *)
Definition quiet (s : Server) (r : request) : Prop :=
  match r with
  | Arrive _ rq _ _ => map_Forall (λ _ cl, cl_ready cl = true ∨ cl_record cl = None
      ∨ call_key cl ≠ (default "" (rq_run_id rq), default "" (rq_step_id rq))%string) (sv_calls s)
  | _ => True
  end.
#[export] Instance quiet_dec s r : Decision (quiet s r).
Proof. destruct r; simpl; apply _. Defined.
Fixpoint quiet_run (s : Server) (rs : list request) : Prop :=
  match rs with [] => True | r :: rs => quiet s r ∧ quiet_run (serve_request r s).1 rs end.

Definition allowed (policy : option RecoveryPolicy) (k : key) (log : list happening) : Prop :=
  reexecution_permitted policy = true ∨ spent k log = false.
Record once (s : Server) : Prop := {
  once_row k : spent k (sv_log s) = true → ∃ r, j_steps (sv_journal s) !! k = Some r ∧ ¬ authorised_to_rerun r;
  once_call c cl : sv_calls s !! c = Some cl → cl_ready cl = false → is_Some (cl_record cl) →
    allowed (cl_recovery cl) (call_key cl) (sv_log s);
  once_distinct c c' cl cl' : sv_calls s !! c = Some cl → sv_calls s !! c' = Some cl' → cl_ready cl = false → cl_ready cl' = false →
    is_Some (cl_record cl) → is_Some (cl_record cl') → call_key cl = call_key cl' → c = c';
  once_log before after k policy recorded : sv_log s = before ++ Executed k policy true recorded :: after →
    allowed policy k before;
}.

Lemma once_calm s s' : calm s s' → once s → once s'.
Proof.
  intros (Ht & Hl & Hc) [H1 H2 H3 H4]. split; rewrite ?Hl.
  - intros k Hk. destruct (H1 k Hk) as (r & Hr & Ha). by apply (Ht k r).
  - intros c cl Hcl. apply (H2 c). by eapply lookup_weaken.
  - intros c c' cl cl' Hcl Hcl'. apply (H3 c c' cl cl'); by eapply lookup_weaken.
  - apply H4.
Qed.

Lemma executes r fp policy : rd_verdict (judge r fp policy) = EXECUTE →
  reexecution_permitted policy = true ∨ ∀ row, r = Some row → authorised_to_rerun row.
Proof.
  unfold judge, authorised_to_rerun. destruct r as [row|]; [|by right].
  destruct (bool_decide_reflect (sr_state row = _RERUN_AUTHORIZED)); [intros _; right; by intros ? [= <-]|].
  destruct (reexecution_permitted policy); [by left|]. by repeat case_match.
Qed.

Lemma once_arrive s c rq faults now : sv_calls s !! c = None → quiet s (Arrive c rq faults now) → once s →
  once (arrive c rq faults now s).1.
Proof.
  intros Hnew Hq Ho. destruct (arrive_spec c rq faults now s) as [Hcalm|(recorder & -> & Hrec & Hgate)]; [by apply (once_calm s)|].
  clear Hrec. destruct Ho as [H1 H2 H3 H4].
  assert (is_Some recorder → allowed (rq_recovery rq) (call_key (call_of rq recorder)) (sv_log s)) as Hallowed.
  { intros [? ->]. destruct Hgate as [|He]; [done|]. destruct (executes _ _ _ He) as [Hp|Hrow]; [by left|]. right.
    destruct (spent _ _) eqn:Hs; [|done]. destruct (H1 _ Hs) as (row & Hr & Ha). by destruct (Ha (Hrow row Hr)). }
  assert (∀ c' cl, sv_calls s !! c' = Some cl → cl_ready cl = false → is_Some (cl_record cl) →
    call_key cl ≠ call_key (call_of rq recorder)) as Hother.
  { intros c' cl Hc' Hr [? Hs]. destruct (Hq c' cl Hc') as [H|[H|H]]; [congruence|congruence|done]. }
  split; simpl; [done| | |done].
  - intros c' cl [[<- <-]|[Hne Hcl]]%lookup_insert_Some; [|by apply (H2 c')]. simpl. intros _ Hs. apply Hallowed.
    destruct recorder; [done|by destruct Hs].
  - intros c1 c2 cl1 cl2 [[<- <-]|[Hn1 Hc1]]%lookup_insert_Some [[<- <-]|[Hn2 Hc2]]%lookup_insert_Some; intros R1 R2 S1 S2 E; [done| | |].
    + by destruct (Hother c2 cl2 Hc2 R2 S2).
    + by destruct (Hother c1 cl1 Hc1 R1 S1).
    + by apply (H3 c1 c2 cl1 cl2).
Qed.

Lemma split_in_prefix {A} (l1 l2 before after : list A) x :
  l1 ++ l2 = before ++ x :: after → x ∉ l2 → ∃ after', l1 = before ++ x :: after'.
Proof.
  intros E Hx. apply app_eq_inv in E as [(k & -> & Hk)|(k & _ & ->)].
  - destruct k as [|y k]; simpl in Hk; [subst l2; exfalso; apply Hx; left|]. injection Hk as <- ->. by exists k.
  - exfalso. apply Hx, elem_of_app. right. left.
Qed.
Lemma spent_snoc k log h : spent k (log ++ [h]) = sees k (spent k log) h.
Proof. by rewrite spent_app. Qed.

Lemma once_ready s c up terminal_id now : once s → once (ready c up terminal_id now s).1.
Proof.
  intros Ho. destruct (ready_spec c up terminal_id now s) as [Hc|(cl & s' & Hcl & Hr & Hcalm & Hcalls & Hrow & ->)]; [by apply (once_calm s)|].
  pose proof (once_calm _ _ Hcalm Ho) as [H1 H2 H3 H4]. rewrite <- Hcalls in Hcl. clear Ho Hcalm Hcalls.
  set (h := Executed _ _ _ _).
  assert (∀ k, k ≠ call_key cl ∨ cl_record cl = None → sees k (spent k (sv_log s')) h = spent k (sv_log s')) as Hsame.
  { intros k [Hk|Hk]; simpl; [by rewrite bool_decide_eq_false_2|rewrite Hk; simpl; by rewrite andb_false_r]. }
  split; simpl.
  - intros k Hk. rewrite spent_snoc in Hk. simpl in Hk. apply orb_true_iff in Hk as [[Hk Hw]%andb_true_iff|Hk]; [|by apply H1].
    apply bool_decide_eq_true in Hk as <-. apply andb_true_iff in Hw as [Hrec Hup]. apply bool_decide_eq_true in Hrec.
    destruct (Hrow Hrec Hup) as (r & ? & ?). by exists r.
  - intros c' cl' [[<- <-]|[Hne Hcl']]%lookup_insert_Some; [done|]. intros R' S'.
    destruct (H2 c' cl' Hcl' R' S') as [|Hs]; [by left|]. right. rewrite spent_snoc, Hsame; [done|].
    destruct (cl_record cl) as [rid|] eqn:Hrec; [|by right]. left. intros E. apply Hne. symmetry.
    by apply (H3 c' c cl' cl Hcl' Hcl R' Hr S' ltac:(by rewrite Hrec)).
  - intros c1 c2 cl1 cl2 [[<- <-]|[Hn1 Hc1]]%lookup_insert_Some [[<- <-]|[Hn2 Hc2]]%lookup_insert_Some; try done. by apply H3.
  - intros before after k policy recorded E. destruct after as [|x after _] using rev_ind.
    + apply app_inj_tail in E as [<- E]. subst h. injection E as <- <- Hrec _. apply bool_decide_eq_true in Hrec.
      by apply (H2 c).
    + rewrite app_comm_cons, app_assoc in E. apply app_inj_tail in E as [E _]. by apply (H4 before after k policy recorded).
Qed.

Lemma once_apply s d up : once s → once (resume_apply d up s).1.
Proof.
  intros Ho. destruct (resume_apply_spec d up s) as [Hc|(run_id & decisions & Hcalls & Hlog & Hrows)]; [by apply (once_calm s)|].
  destruct Ho as [H1 H2 H3 H4]. split.
  - intros k Hk. rewrite Hlog in Hk. destruct (H1 k (spent_decisions _ _ _ _ Hk)) as (r & Hr & Ha).
    destruct (Hrows k r Hr) as (r' & Hr' & Ha'). exists r'. split; [done|]. intros Hc. destruct (Ha' Hc) as [|(st & -> & Hin)]; [done|].
    by rewrite (spent_decided _ _ _ _ st eq_refl Hin) in Hk.
  - intros c cl. rewrite Hcalls, Hlog. intros Hcl R S. destruct (H2 c cl Hcl R S) as [|Hs]; [by left|]. right.
    destruct (spent _ (_ ++ _)) eqn:E; [|done]. by rewrite (spent_decisions _ _ _ _ E) in Hs.
  - rewrite Hcalls. apply H3.
  - intros before after k policy recorded. rewrite Hlog. intros E.
    destruct (split_in_prefix _ _ _ _ _ E) as [after' E']; [|by apply (H4 before after' k policy recorded)].
    intros Hin. apply list_elem_of_fmap in Hin as ([st v] & ? & _). done.
Qed.

Lemma once_request s r : quiet s r → once s → once (serve_request r s).1.
Proof.
  intros Hq Ho. destruct (is_calm r) eqn:Hr; [by apply (once_calm s); [apply calm_requests|]|].
  unfold serve_request.
  assert (∀ (m : M Server response), once (m s).1 → once (catch m (λ _, mret (Refused 500 "")) s).1) as Hcatch.
  { intros m. unfold catch. by destruct (m s) as [s' [a|e]]. }
  apply Hcatch. destruct r; try done; simpl.
  - unfold new_call, mbind, M_bind. cbn [gets id].
    destruct (bool_decide_reflect (is_Some (sv_calls s !! c))) as [|Hn]; [done|]. apply once_arrive; [|done|done].
    by apply eq_None_not_Some.
  - by apply once_ready.
  - by apply once_apply.
Qed.

(** [C6] A step is prompted once per permission, unless its calls race.  Start from a
    server without calls and with an empty log, and let it be asked anything, in any
    order, with any of its journal writes lost and any number of restarts, provided
    that a call of a step only ever arrives while no other call of that step is between
    its admission and its row ([quiet_run]; without it two calls of one step can both
    be prompted, [racing_calls_run_twice]).  Then, once a step was prompted and its row
    written, a later prompt of the same step that went through the gate was declared
    safe to repeat by its author, or a human decided a rerun of that step in between. *)
Theorem steps_run_once s rs before after key policy recorded :
  sv_log s = [] → sv_calls s = ∅ → quiet_run s rs →
  sv_log (served s rs) = before ++ Executed key policy true recorded :: after →
  (policy = Some IDEMPOTENT ∨ policy = Some RECONCILE)
  ∨ ∀ before' between policy' gated', before = before' ++ Executed key policy' gated' true :: between →
      Decided key "rerun" ∈ between.
Proof.
  intros Hlog Hcalls Hq E.
  assert (once s) as Ho.
  { split; rewrite ?Hlog, ?Hcalls; [done|done|done|]. intros b a k p w H. by destruct b. }
  assert (once (served s rs)) as [_ _ _ H].
  { clear E Hlog Hcalls. revert s Hq Ho. induction rs as [|r rs IH]; intros s Hq Ho; [done|]. destruct Hq as [Hq1 Hq2].
    apply IH; [done|]. by apply once_request. }
  destruct (H _ _ _ _ _ E) as [Hp|Hs]; [left; by apply reexecution_permitted_spec|right].
  intros b' bt p' g' ->. rewrite spent_app in Hs. simpl in Hs. rewrite bool_decide_eq_true_2 in Hs by done. simpl in Hs.
  destruct (decide_rel elem_of (Decided key "rerun") bt) as [|Hn]; [done|]. by rewrite (sees_stays _ _ Hn) in Hs.
Qed.
