(* ===== verification/DrivesThms.v ===== *)
(** * Fences, replays and the end of a drive

    A superseded script is turned away, an ended step is answered from the journal
    across a restart, and a drive that ends takes back the consent nobody used. *)

From stdpp Require Import gmap.
From S2P Require Import Prelude SeamThms Fingerprint Secrets Envelope Journal Replay Steps Drives StepsThms.

(** ** Generations *)



(** The statements of a request, one after the other. *)
Ltac running := unfold best_effort, journal_call, on_journal, zoom, reaching, update_record, update_run_generation, update_run,
  catch, mbind, M_bind, mret, M_ret, modify, gets, id; cbn.

(** ** Turned away *)



Lemma generation_written s run_id row g j :
  j_runs (sv_journal s) !! run_id = Some row → j = (update_run_generation run_id g (sv_journal s)).1 →
  j_runs j !! run_id = Some (set_generation g row).
Proof. intros H ->. simpl. by rewrite lookup_alter_eq, H. Qed.


(** ** Answered from the journal *)

Lemma lossless m st t : let e := build_envelope m st t in
  se_truncated e = false → se_redacted e = false → se_last_message e = m.
Proof.
  unfold build_envelope. destruct (redact_secrets m) as [text fired] eqn:E.
  destruct (redact_facts _ _ _ E) as (_ & _ & _ & Hh & Hs). cbn [se_truncated se_redacted se_last_message].
  destruct (bool_decide _); [intros H; discriminate H|]. intros _ Hf. destruct fired; [|discriminate Hf].
  by apply Hs.
Qed.
Lemma envelope_of m st t : let e := build_envelope m st t in se_status e = st ∧ se_terminal_id e = t.
Proof. unfold build_envelope. by destruct (redact_secrets m). Qed.

(** The row a call that succeeds leaves. *)
Lemma succeeded_row s c cl rid record row t m st now :
  sv_calls s !! c = Some cl → cl_record cl = Some rid → sv_records s !! rid = Some record →
  j_steps (sv_journal s) !! call_key cl = Some row →
  ∃ state out, let r := serve_request (Finish c true (Succeeded t m st) now) s in
    r.2 = Returned (Answered t m st false)
    ∧ state ∈ [STEP_COMPLETED; STEP_COMPLETED_UNVALIDATED]
    ∧ j_steps (sv_journal r.1) !! call_key cl
      = Some (settled (StepState_value state) now (Some (EnvelopeText (build_envelope m st (Some t)))) out None row).
Proof.
  unfold call_key. intros Hc Hrid Hrec Hrow. unfold serve_request, handle, finish. running. rewrite Hc. cbn.
  unfold recorder_of_call. rewrite Hrid. unfold settle_step_of. cbn. unfold _settle. running. rewrite Hrec. cbn.
  unfold settle_step. rewrite Hrow. cbn.
  eexists _, _. split; [reflexivity|]. split; [|by rewrite lookup_insert_eq].
  destruct (get_output _ _) as [o|]; [destruct (so_validated o)|]; by_eval.
Qed.

(** What the gate answers on that row. *)
Lemma judged row state now m st t out fp policy :
  state ∈ [STEP_COMPLETED; STEP_COMPLETED_UNVALIDATED] → sr_call_fingerprint row = Some fp → scheme_of (Some fp) = SCHEME_v2 →
  let e := build_envelope m st t in
  judge (Some (settled (StepState_value state) now (Some (EnvelopeText e)) out None row)) fp policy
  = if bool_decide (policy = Some MANUAL) then halt POLICY_MANUAL
    else if se_truncated e || se_redacted e then halt ENVELOPE_LOSSY else replay e.
Proof.
  intros Hs Hfp Hv e. unfold judge. cbn [sr_state settled sr_result_json parse_envelope sr_call_fingerprint]. rewrite Hfp, Hv.
  rewrite (bool_decide_eq_true_2 (SCHEME_v2 = _)), (bool_decide_eq_true_2 (Some fp = _)) by done.
  repeat (apply elem_of_cons in Hs as [->|Hs]; [by repeat case_match|]). by apply not_elem_of_nil in Hs.
Qed.

(** The request of a later call of the same step with the same fingerprint, which
    passes the checks before the gate: the run has a live record, and the request
    carries the generation of the run's row. *)
Record later_call (s : Server) (cl : Call) (rq : StepRequest) : Prop := {
  lc_fields : compute (rq_fields rq) = compute (cl_fields cl);
  lc_recorder : fst <$> recorder_of rq s = Some (call_key cl);
  lc_shape : request_shape_ok rq = true;
  lc_input : sc_reused_terminal (rq_fields rq) && rq_input_refused rq = false;
  lc_generation : rq_generation rq = rr_generation <$> j_runs (sv_journal s) !! cl_run_id cl;
}.

Lemma arrive_judged s cl rq c row faults now :
  later_call s cl rq → af_fence faults = true → af_gate faults = true → sv_calls s !! c = None →
  j_steps (sv_journal s) !! call_key cl = Some row →
  ∃ recorder, recorder_of rq s = Some recorder ∧ recorder.1 = call_key cl ∧
  ∀ r s', after_gate recorder (af_row faults) (judge (Some row) (compute (cl_fields cl)) (rq_recovery rq)) s = (s', Returned (Some r)) →
    serve_request (Arrive c rq faults now) s = (s', Returned r).
Proof.
  intros [Hf Hr Hs Hi Hg] Hff Hfg Hc Hrow. destruct (recorder_of rq s) as [[k rid]|] eqn:Hrec; [|done]. simpl in Hr. injection Hr as ->.
  exists (call_key cl, rid). split; [done|]. split; [done|]. intros r s' Ha.
  destruct (recorder_of_key _ _ _ Hrec) as [Hk _]. unfold call_key, call_of in Hk. simpl in Hk. injection Hk as Hk1 Hk2.
  assert (rq_run_id rq = Some (cl_run_id cl)) as Hrun.
  { unfold recorder_of in Hrec. destruct (rq_run_id rq); [|by destruct (truthy _ && _)]. simpl in Hk1. by rewrite Hk1. }
  unfold serve_request, handle, new_call, catch, mbind, M_bind. cbn [gets id]. rewrite Hc. cbn -[after_gate]. unfold arrive. rewrite Hs.
  unfold mbind, M_bind. cbn -[after_gate]. rewrite Hi, Hrec. unfold fence. rewrite Hrun, Hg.
  assert (∀ j, decide (cl_run_id cl) (cl_step_id cl) (compute (cl_fields cl)) (rq_recovery rq) j
    = (j, Returned (judge (j_steps j !! call_key cl) (compute (cl_fields cl)) (rq_recovery rq)))) as Hdec.
  { intros j. unfold decide. by rewrite bool_decide_eq_true_2 by apply compute_scheme. }
  destruct (j_runs (sv_journal s) !! cl_run_id cl) as [run|] eqn:Hrr; cbn -[after_gate].
  - unfold catch, mbind, M_bind, journal_call, on_journal, reaching, zoom, check_generation, get_run, gets, mbind, M_bind.
    rewrite Hff, Hfg, Hrr. rewrite bool_decide_eq_true_2 by done. cbn -[after_gate].
    replace (set_sv_journal s (sv_journal s)) with s by (by destruct s). rewrite Hf, Hdec, Hrow.
    replace (set_sv_journal s (sv_journal s)) with s by (by destruct s). unfold call_key in Ha. rewrite Ha. done.
  - unfold catch, mbind, M_bind, journal_call, on_journal, reaching, zoom.
    rewrite Hfg. rewrite Hf, Hdec, Hrow.
    replace (set_sv_journal s (sv_journal s)) with s by (by destruct s). unfold call_key in Ha. rewrite Ha. done.
Qed.

Lemma record_replay_reads rid run_id step_id up s :
  ∃ s', catch (record_replay rid run_id step_id up) (λ _, mret ()) s = (s', Returned ())
  ∧ sv_journal s' = sv_journal s ∧ sv_log s' = sv_log s ∧ sv_calls s' = sv_calls s.
Proof.
  unfold record_replay. destruct up; running.
  - destruct (j_steps (sv_journal s) !! _); cbn; (eexists; split; [reflexivity|done]).
  - eexists; split; [reflexivity|done].
Qed.

(** [C7] An ended step is answered from the journal.  Let a call of a step of a live
    record succeed while the journal holds the row it began, under the fingerprint of
    the call, and let its settlement be written: its script gets the result.  Then take
    any later server — after a restart, a resume, under another generation — where
    that row is still what the journal holds for the step (no decision, no newer call
    of the step wrote it since) and the run has a live record, and a later call of the
    same step with the same fingerprint, which carries the generation of the run and
    whose reads of the generation and of the step's row succeed.  It sends no prompt,
    writes nothing to the journal and gets the very same terminal, message and status,
    marked as a replay — unless the stored text is cut or redacted, or its author asked
    to be asked, and then a human decides.  (A call of a run without a live record is
    not gated at all, [orphan_is_not_gated].) *)
Theorem ended_steps_are_answered s c cl rid record row t m st now s' c' rq faults now' :
  sv_calls s !! c = Some cl → cl_record cl = Some rid → sv_records s !! rid = Some record →
  j_steps (sv_journal s) !! call_key cl = Some row → sr_call_fingerprint row = Some (compute (cl_fields cl)) →
  let ended := serve_request (Finish c true (Succeeded t m st) now) s in
  later_call s' cl rq → af_fence faults = true → af_gate faults = true → sv_calls s' !! c' = None →
  j_steps (sv_journal s') !! call_key cl = j_steps (sv_journal ended.1) !! call_key cl →
  let e := build_envelope m st (Some t) in
  let again := serve_request (Arrive c' rq faults now') s' in
  ended.2 = Returned (Answered t m st false)
  ∧ sv_journal again.1 = sv_journal s' ∧ sv_log again.1 = sv_log s' ∧ sv_calls again.1 = sv_calls s'
  ∧ again.2 = Returned (if bool_decide (rq_recovery rq = Some MANUAL) || se_truncated e || se_redacted e
                        then Refused 409 "decision_required" else Answered t m st true).
Proof.
  intros Hc Hrid Hrec Hrow Hfp ended Hl Hf Hg Hc' Hsame e again.
  destruct (succeeded_row s c cl rid record row t m st now Hc Hrid Hrec Hrow) as (state & out & Hans & Hstate & Hnew).
  fold ended in Hans, Hnew. split; [done|]. rewrite Hnew in Hsame. clear Hnew Hans. clearbody ended.
  destruct (arrive_judged s' cl rq c' _ faults now' Hl Hf Hg Hc' Hsame) as ([k rid'] & _ & Hk & Hrun). simpl in Hk. subst k.
  rewrite (judged row state now m st (Some t) out (compute (cl_fields cl)) (rq_recovery rq) Hstate Hfp (compute_scheme _)) in Hrun.
  fold e in Hrun. subst again. destruct (bool_decide (rq_recovery rq = Some MANUAL)); [by rewrite (Hrun (Refused 409 "decision_required") s')|].
  pose proof (envelope_of m st (Some t)) as [He1 He2]. pose proof (lossless m st (Some t)) as He3. cbv zeta in He3. fold e in He1, He2, He3. clearbody e.
  destruct (se_truncated e); [by rewrite (Hrun (Refused 409 "decision_required") s')|].
  destruct (se_redacted e); [by rewrite (Hrun (Refused 409 "decision_required") s')|].
  destruct (record_replay_reads rid' (cl_run_id cl) (cl_step_id cl) (af_row faults) s') as (s2 & H1 & H2).
  rewrite (Hrun (Answered t m st true) s2); [by destruct H2 as (? & ? & ?)|].
  unfold after_gate, call_key. cbn [orb replay rd_verdict rd_envelope]. rewrite He2, He1, (He3 eq_refl eq_refl).
  unfold mbind, M_bind. by rewrite H1.
Qed.

(** ** The end of a drive *)

Lemma revoked_rows run_id granted j : NoDup granted.*1 →
  let j' := (revoke_unconsumed_decisions run_id granted j).1 in
  j_runs j' = j_runs j
  ∧ (∀ step_id prior, (step_id, prior) ∈ granted →
       j_steps j' !! (run_id, step_id) = withdrawn prior <$> j_steps j !! (run_id, step_id))
  ∧ ∀ key, (∀ step_id, step_id ∈ granted.*1 → key ≠ (run_id, step_id)) → j_steps j' !! key = j_steps j !! key.
Proof.
  intros Hnd. unfold revoke_unconsumed_decisions.
  destruct (foldl (revoke_step run_id) (j_steps j, []) granted) as [tbl revoked] eqn:E. simpl.
  assert (tbl = (foldl (revoke_step run_id) (j_steps j, []) granted).1) as -> by (by rewrite E). clear E.
  split; [done|]. split; [intros s p Hin; by apply (revoke_entry run_id granted (j_steps j, []))|].
  intros k Hk. by apply (revoke_other run_id granted (j_steps j, [])).
Qed.

(** How a drive leaves its record and its row: by the exit of the process. *)
Definition ends_as (exit : exit_of) (record : ScriptRunRecord) : option RunState :=
  match exit with
  | SpawnFailed | TimeoutBound => Some RUN_FAILED
  | Exited returncode => Some (if sc_cancelled record || bool_decide (sc_state record = RUN_CANCELLED) then RUN_CANCELLED
                               else if returncode =? 0 then RUN_COMPLETED else RUN_FAILED)
  | Interrupted => None
  end.

Definition driving (run_id : string) (background : bool) (p : phase) : Drive :=
  {| dr_run_id := run_id; dr_background := background; dr_phase := p |}.

(** Until the [finally]: the record and the row of the run, and nothing else. *)
Record process_over (d rid : nat) (dr : Drive) (granted : list (string * string)) (record : ScriptRunRecord) (s : Server)
    (state : option RunState) (landed : bool) (s' : Server) : Prop := {
  po_drive : sv_drives s' !! d = Some (driving (dr_run_id dr) (dr_background dr) (Finished rid granted (bool_decide (is_Some state))));
  po_active : sv_active s' = sv_active s;
  po_steps : j_steps (sv_journal s') = j_steps (sv_journal s);
  po_record : ∃ record', sv_records s' !! rid = Some record' ∧ sc_state record' = default (sc_state record) state
    ∧ sc_step_states record' = sc_step_states record;
  po_row row : j_runs (sv_journal s) !! dr_run_id dr = Some row → ∃ row', j_runs (sv_journal s') !! dr_run_id dr = Some row'
    ∧ (landed = true → ∀ st, state = Some st → rr_state row' = RunState_value st);
}.

Lemma finalize_returns rid run_id state up now s : ∃ s', finalize rid run_id state up now s = (s', Returned ()).
Proof. unfold finalize. destruct up; running; by eexists. Qed.
Lemma finalized s d dr rid granted record state up now : sv_records s !! rid = Some record →
  let r := (finalize rid (dr_run_id dr) state up now ;; in_phase d dr (Finished rid granted true) ;; mret Running) s in
  process_over d rid dr granted record s (Some state) up r.1 ∧ r.2 = Returned Running.
Proof.
  intros Hrec. unfold finalize. destruct up; running; (split; [|done]; split; cbn; try done).
  - by rewrite lookup_insert_eq.
  - eexists. rewrite list_lookup_alter_eq, Hrec. by split.
  - intros row Hrow. rewrite lookup_alter_eq, Hrow. eexists. split; [done|]. by intros _ st [= <-].
  - by rewrite lookup_insert_eq.
  - eexists. rewrite list_lookup_alter_eq, Hrec. by split.
  - intros row Hrow. by exists row.
Qed.

(** The end of a script that ran too long: the generation first, then as above. *)
Lemma timed_out s d dr rid granted record up now :
  sv_drives s !! d = Some dr → dr_phase dr = Driving rid granted → sv_records s !! rid = Some record →
  let s1 := (serve_request (DriveExit d TimeoutBound up now) s).1 in
  sv_drives s1 !! d = Some (driving (dr_run_id dr) (dr_background dr) (Expired rid granted))
  ∧ sv_active s1 = sv_active s ∧ j_steps (sv_journal s1) = j_steps (sv_journal s)
  ∧ sv_records s1 !! rid = Some (set_sc_generation (_bump (sc_generation record)) (sc_cancelled record) record)
  ∧ ∀ row, j_runs (sv_journal s) !! dr_run_id dr = Some row → is_Some (j_runs (sv_journal s1) !! dr_run_id dr).
Proof.
  intros Hd Hp Hrec. unfold serve_request, handle, drive_exit, at_phase. running. rewrite Hd. cbn. rewrite Hp. cbn. rewrite Hrec. cbn.
  destruct up; cbn; rewrite lookup_insert_eq, list_lookup_alter_eq, Hrec; split_and!; try done.
  intros row Hrow. rewrite lookup_alter_eq, Hrow. by eexists.
Qed.
Definition expiring (s : Server) (d : nat) (dr : Drive) (rid : nat) granted (up : bool) now : Server * outcome response :=
  (finalize rid (dr_run_id dr) RUN_FAILED up now ;;
   in_phase d (driving (dr_run_id dr) (dr_background dr) (Expired rid granted)) (Finished rid granted true) ;; mret Running) s.

Lemma process_ends s d dr rid granted record exit up up' now now' :
  sv_drives s !! d = Some dr → dr_phase dr = Driving rid granted → sv_records s !! rid = Some record →
  process_over d rid dr granted record s (ends_as exit record) (up && up')
    (served s [DriveExit d exit up now; DriveExpire d up' now']).
Proof.
  intros Hd Hp Hrec. unfold served. cbn [foldl].
  assert (∀ s1 state, process_over d rid dr granted record s state up s1 →
    process_over d rid dr granted record s state (up && up') (serve_request (DriveExpire d up' now') s1).1) as Hno.
  { intros s1 state Ho. unfold serve_request, handle, drive_expire, at_phase. running. rewrite (po_drive _ _ _ _ _ _ _ _ _ Ho). cbn.
    destruct Ho as [H1 H2 H3 H4 H5]. split; try done. intros row Hrow. destruct (H5 row Hrow) as (row' & Hr & Hs). exists row'.
    split; [done|]. intros [Hu _]%andb_true_iff. by apply Hs. }
  assert (∀ (state : RunState) o, serve_request (DriveExit d exit up now) s = catch
      (finalize rid (dr_run_id dr) state up now ;; in_phase d dr (Finished rid granted true) ;; mret Running) o s →
    process_over d rid dr granted record s (Some state) (up && up')
      (serve_request (DriveExpire d up' now') (serve_request (DriveExit d exit up now) s).1).1) as Hends.
  { intros state o ->. apply Hno. pose proof (finalized s d dr rid granted record state up now Hrec) as H.
    revert H. unfold catch.
    generalize ((finalize rid (dr_run_id dr) state up now ;; in_phase d dr (Finished rid granted true) ;; mret Running) s).
    intros [s1 [x|e]] [Ho Hr]; [exact Ho|discriminate Hr]. }
  destruct exit as [| |rc|]; cbn [ends_as].
  - apply (Hends _ (λ _, mret (Refused 500 ""))). unfold serve_request, handle, drive_exit, at_phase, catch, mbind, M_bind.
    cbn [gets id]. rewrite Hd. cbn -[finalize in_phase]. rewrite Hp. cbn -[finalize in_phase]. by rewrite Hrec.
  - destruct (timed_out s d dr rid granted record up now Hd Hp Hrec) as (Hd1 & Ha1 & Hs1 & Hr1 & Hrow1).
    destruct (serve_request _ s) as [s1 o1]. cbn [fst] in *.
    destruct (finalized s1 d (driving (dr_run_id dr) (dr_background dr) (Expired rid granted)) rid granted _ RUN_FAILED up' now' Hr1)
      as [[H1 H2 H3 H4 H5] _].
    assert ((serve_request (DriveExpire d up' now') s1).1 = (expiring s1 d dr rid granted up' now').1) as ->; [|].
    { unfold serve_request, handle, drive_expire, at_phase, catch, mbind, M_bind. cbn [gets id]. rewrite Hd1.
      cbn -[finalize in_phase]. unfold expiring, mbind, M_bind. cbn -[finalize in_phase].
      by destruct (finalize_returns rid (dr_run_id dr) RUN_FAILED up' now' s1) as [s2 ->]. }
    split; [exact H1|rewrite <- Ha1; exact H2|rewrite <- Hs1; exact H3|exact H4|]. intros row Hrow. destruct (Hrow1 row Hrow) as (row1 & Hrow1').
    destruct (H5 row1 Hrow1') as (row' & Hr' & Hst). exists row'. split; [done|]. intros [_ Hu]%andb_true_iff. by apply Hst.
  - apply (Hends _ (λ _, mret (Refused 500 ""))). unfold serve_request, handle, drive_exit, at_phase, catch, mbind, M_bind.
    cbn [gets id]. rewrite Hd. cbn -[finalize in_phase]. rewrite Hp. cbn -[finalize in_phase]. rewrite Hrec.
    by destruct (sc_cancelled record || _); [|destruct (rc =? 0)].
  - apply (Hno _ None). unfold serve_request, handle, drive_exit, at_phase, catch, mbind, M_bind.
    cbn [gets id]. rewrite Hd. cbn -[finalize]. rewrite Hp. cbn -[finalize]. rewrite Hrec. cbn.
    split; cbn; try done; [by rewrite lookup_insert_eq|by exists record|]. intros row Hrow. by exists row.
Qed.

(** The [finally], whatever came before. *)
Lemma taken_back run_id rid granted up s :
  ∃ s', take_back run_id rid granted up s = (s', Returned ())
  ∧ sv_drives s' = sv_drives s ∧ sv_active s' = sv_active s ∧ j_runs (sv_journal s') = j_runs (sv_journal s)
  ∧ j_steps (sv_journal s') = if up then j_steps (revoke_unconsumed_decisions run_id granted (sv_journal s)).1
                              else j_steps (sv_journal s).
Proof.
  unfold take_back. destruct (bool_decide_reflect (granted = [])) as [->|Hne].
  { exists s. split_and!; try done. by destruct up. }
  destruct up; running; [|eexists; split; [reflexivity|done]].
  unfold revoke_unconsumed_decisions. destruct (foldl (revoke_step run_id) _ granted) as [t revoked]. cbn.
  destruct rid; (eexists; split; [reflexivity|done]).
Qed.

Definition backstop (dr : Drive) (returned up : bool) (now : string) : M Server () :=
  if dr_background dr && negb returned
  then best_effort (journal_call up (settle_run_state_if_running (dr_run_id dr) "failed" (Some now))) else mret ().
Lemma backstopped dr returned up now s :
  ∃ s', backstop dr returned up now s = (s', Returned ())
  ∧ sv_drives s' = sv_drives s ∧ sv_active s' = sv_active s ∧ j_steps (sv_journal s') = j_steps (sv_journal s)
  ∧ ∀ row, j_runs (sv_journal s) !! dr_run_id dr = Some row → ∃ row', j_runs (sv_journal s') !! dr_run_id dr = Some row'
      ∧ (returned = true → row' = row)
      ∧ (up = true → dr_background dr = true → returned = false → rr_state row' ≠ "running"%string).
Proof.
  unfold backstop, settle_run_state_if_running. destruct (dr_background dr && negb returned) eqn:E.
  2: { exists s. split_and!; try done. intros row Hrow. exists row. split_and!; try done. intros _ Hb Hr. by rewrite Hb, Hr in E. }
  apply andb_true_iff in E as [_ Hr]. destruct returned; [done|]. destruct up; running.
  2: { eexists; split_and!; try done. intros row Hrow. by exists row. }
  destruct (j_runs (sv_journal s) !! dr_run_id dr) as [row|] eqn:Hrow; cbn; [|by eexists].
  destruct (bool_decide_reflect (rr_state row = "running"%string)) as [Hs|Hs]; cbn; eexists; (split; [reflexivity|]); split_and!; try done.
  - intros r [= <-]. cbn. rewrite lookup_insert_eq. by eexists.
  - intros r [= <-]. by exists row.
Qed.

Lemma drive_left s d dr rid granted returned up now :
  sv_drives s !! d = Some dr → dr_phase dr = Finished rid granted returned →
  let s' := (serve_request (DriveLeave d up now) s).1 in
  sv_drives s' = delete d (sv_drives s) ∧ sv_active s' = sv_active s ∖ {[dr_run_id dr]}
  ∧ j_steps (sv_journal s') = (if up then j_steps (revoke_unconsumed_decisions (dr_run_id dr) granted (sv_journal s)).1
                                else j_steps (sv_journal s))
  ∧ ∀ row, j_runs (sv_journal s) !! dr_run_id dr = Some row → ∃ row', j_runs (sv_journal s') !! dr_run_id dr = Some row'
      ∧ (returned = true → row' = row)
      ∧ (up = true → dr_background dr = true → returned = false → rr_state row' ≠ "running"%string).
Proof.
  intros Hd Hp. unfold serve_request, handle, drive_leave, at_phase. fold (backstop dr returned up now).
  unfold catch, mbind, M_bind. cbn [gets id]. rewrite Hd. cbn -[take_back backstop]. rewrite Hp. cbn -[take_back backstop].
  destruct (taken_back (dr_run_id dr) (Some rid) granted up (set_active s (sv_active s ∖ {[dr_run_id dr]})))
    as (s1 & -> & H1 & H2 & H3 & H4).
  fold (backstop dr returned up now).
  destruct (backstopped dr returned up now s1) as (s2 & -> & H5 & H6 & H7 & H8). cbn in *.
  split; [by rewrite H5, H1|]. split; [by rewrite H6, H2|]. split; [by rewrite H7, H4|]. intros row Hrow. apply H8. by rewrite H3.
Qed.

(** [C9] A drive leaves nothing behind.  However its process ends — it could not be
    spawned, ran too long, returned a code, or the drive itself was interrupted — after
    its last statements the request is gone and the run can be driven again.  The row
    of the run holds the state the exit stands for, if the writes of the exit land, and
    a drive in the background that was interrupted leaves no row that says it is
    running, if its last write lands.  If the write that takes back what this resume
    was granted lands, each row that still holds an authorisation gets back the state
    the grant replaced, unless that state was an authorisation itself (then it stays,
    as it does when the write fails); a row whose consent was used is left alone.
    Every other row of the journal's steps is as it was. *)
Theorem drives_leave_nothing_behind s d dr rid granted record exit up up' back_up now now' now'' :
  sv_drives s !! d = Some dr → dr_phase dr = Driving rid granted → sv_records s !! rid = Some record →
  NoDup granted.*1 →
  let s' := served s [DriveExit d exit up now; DriveExpire d up' now'; DriveLeave d back_up now''] in
  sv_drives s' !! d = None ∧ dr_run_id dr ∉ sv_active s'
  ∧ (∀ row, j_runs (sv_journal s) !! dr_run_id dr = Some row → ∃ row', j_runs (sv_journal s') !! dr_run_id dr = Some row'
       ∧ (up = true → up' = true → ∀ state, ends_as exit record = Some state → rr_state row' = RunState_value state)
       ∧ (back_up = true → dr_background dr = true → ends_as exit record = None → rr_state row' ≠ "running"%string))
  ∧ (back_up = true → ∀ step_id prior row, (step_id, prior) ∈ granted →
       j_steps (sv_journal s) !! (dr_run_id dr, step_id) = Some row →
       ∃ row', j_steps (sv_journal s') !! (dr_run_id dr, step_id) = Some row'
       ∧ (sr_state row ∈ authorised_states → prior ∉ authorised_states → row' = set_step_state prior row)
       ∧ (sr_state row ∉ authorised_states ∨ prior ∈ authorised_states → row' = row))
  ∧ (back_up = false → j_steps (sv_journal s') = j_steps (sv_journal s))
  ∧ ∀ key, (∀ step_id, step_id ∈ granted.*1 → key ≠ (dr_run_id dr, step_id)) →
      j_steps (sv_journal s') !! key = j_steps (sv_journal s) !! key.
Proof.
  intros Hd Hp Hrec Hnd. cbv zeta. change (served s [DriveExit d exit up now; DriveExpire d up' now'; DriveLeave d back_up now''])
    with (serve_request (DriveLeave d back_up now'') (served s [DriveExit d exit up now; DriveExpire d up' now'])).1.
  destruct (process_ends s d dr rid granted record exit up up' now now' Hd Hp Hrec) as [H1 H2 H3 _ H5].
  set (s1 := served s _) in *. clearbody s1.
  destruct (drive_left s1 d _ rid granted _ back_up now'' H1 eq_refl) as (H6 & H7 & H8 & H9).
  set (s' := (serve_request _ s1).1) in *. clearbody s'. cbn [driving dr_run_id dr_background] in *.
  destruct (revoked_rows (dr_run_id dr) granted (sv_journal s1) Hnd) as (_ & Hin & Hout).
  split; [rewrite H6; apply lookup_delete_eq|]. split; [rewrite H7; set_solver|]. split; [|split; [|split]].
  - intros row Hrow. destruct (H5 row Hrow) as (row1 & Hrow1 & Hst). destruct (H9 row1 Hrow1) as (row' & Hrow' & Hsame & Hstop).
    exists row'. split; [done|]. split.
    + intros Hu Hu' state He. rewrite He in Hsame. rewrite Hsame by done. by apply Hst; [rewrite Hu, Hu'|].
    + intros Hb Hg He. apply Hstop; [done|done|]. by rewrite He.
  - intros Hb step_id prior row Hg Hrow. rewrite H8, Hb.
    rewrite (Hin step_id prior Hg), H3, Hrow. exists (withdrawn prior row). split; [done|]. unfold withdrawn.
    split; [intros; by rewrite bool_decide_eq_true_2|]. intros Hn. rewrite bool_decide_eq_false_2; [done|naive_solver].
  - intros Hb. by rewrite H8, Hb, H3.
  - intros k Hk. rewrite H8. destruct back_up; [rewrite (Hout k Hk)|]; by rewrite H3.
Qed.

(** * A run, its restart and its resume

    A concrete server, which the theorems of the script plane are applied to, and what
    happens outside their assumptions. *)

Definition fresh : Server := {|
  sv_journal := {| j_runs := ∅; j_steps := ∅; j_events := ∅; j_seq := ∅ |}; sv_records := []; sv_registry := ∅;
  sv_active := ∅; sv_outputs := []; sv_calls := ∅; sv_drives := ∅; sv_log := [] |}.
Definition works : AdmitFaults := {| af_fence := true; af_gate := true; af_row := true; af_settle := true |}.
Definition prompt_of (text : string) : StepCallFields := {|
  sc_provider := "p"; sc_agent := "g"; sc_prompt := text; sc_model := None; sc_engine := None; sc_allowed_tools := None;
  sc_effective_working_directory := None; sc_use_worktree := false; sc_reused_terminal := false; sc_timeout := 600000000 |}.
Definition asks (generation text : string) : StepRequest := {|
  rq_run_id := Some "r1"%string; rq_generation := Some generation; rq_step_id := Some "a"%string; rq_input_refused := false;
  rq_fields := prompt_of text; rq_recovery := None |}.

Definition starts : list request :=
  [StartAdmit 0 "r1" false false true; StartOpen 0 "w" "s" "{}" None None true "t0"; StartDrive 0]%string.
Definition resumes (d : nat) (decisions : list (string * string)) : list request :=
  [ResumeRun d "r1" decisions true; ResumeClaim d true; ResumeGates d true true; ResumeApply d true; ResumeOpen d true true;
   ResumeRegister d true]%string.
Definition says (c : nat) (generation text : string) : list request :=
  [Arrive c (asks generation text) works "t1"; Ready c true "term" "t2"]%string.
Definition prompted (s : Server) (c : nat) (generation text : string) : outcome response :=
  (serve_request (Arrive c (asks generation text) works "t1") s).2.

(** The server stops while the step runs; a human decides a rerun. *)
Definition interrupted : list request := starts ++ says 0 "1" "do it" ++ [Restart].
Definition rerun : list request := interrupted ++ resumes 1 [("a", "rerun")]%string ++ says 1 "2" "do it".

Example rerun_log :
  sv_log (served fresh rerun)
  = [Executed ("r1", "a") None true true; Decided ("r1", "a") "rerun"; Executed ("r1", "a") None true true]%string.
Proof. vm_compute. reflexivity. Qed.

Example halted_resume :
  prompted (served fresh (interrupted ++ resumes 1 [])) 1 "2" "do it" = Returned (Refused 409 "decision_required").
Proof. vm_compute. reflexivity. Qed.

Fixpoint quiet_runb (s : Server) (rs : list request) : bool :=
  match rs with [] => true | r :: rs => bool_decide (quiet s r) && quiet_runb (serve_request r s).1 rs end.
Lemma quiet_run_eval s rs : quiet_runb s rs = true → quiet_run s rs.
Proof.
  revert s. induction rs as [|r rs IH]; intros s; [done|]. simpl. intros [H1 H2]%andb_true_iff.
  apply bool_decide_eq_true in H1. split; [done|by apply IH].
Defined.

Lemma steps_run_once_witness :
  quiet_run fresh rerun
  ∧ ∀ before' between policy' gated',
      [Executed ("r1", "a") None true true; Decided ("r1", "a") "rerun"]%string
      = before' ++ Executed ("r1", "a")%string policy' gated' true :: between → Decided ("r1", "a") "rerun" ∈ between.
Proof.
  assert (quiet_run fresh rerun) as Hq by (apply quiet_run_eval; vm_compute; reflexivity).
  split; [exact Hq|]. intros b bt p g E.
  destruct (steps_run_once fresh rerun [Executed ("r1", "a") None true true; Decided ("r1", "a") "rerun"]%string []
    ("r1", "a")%string None true eq_refl eq_refl Hq) as [[H|H]|H]; [vm_compute; reflexivity|discriminate H|discriminate H|].
  exact (H b bt p g E).
Defined.

(** Two calls of one step before the first has a row: both are prompted. *)
Example racing_calls_run_twice :
  let rs := starts ++ [Arrive 0 (asks "1" "do it") works "t1"; Arrive 1 (asks "1" "do it") works "t1";
                       Ready 0 true "u" "t2"; Ready 1 true "v" "t2"]%string in
  quiet_runb fresh rs = false
  ∧ sv_log (served fresh rs) = [Executed ("r1", "a") None true true; Executed ("r1", "a") None true true]%string.
Proof. vm_compute. done. Qed.

(** The row of a prompt is lost: the next call of the step is run, and nobody was asked. *)
Example lost_row_runs_again :
  let rs := starts ++ [Arrive 0 (asks "1" "do it") works "t1"; Ready 0 false "u" "t2"; Restart]%string
            ++ resumes 1 [] ++ says 1 "2" "do it" in
  sv_log (served fresh rs) = [Executed ("r1", "a") None true false; Executed ("r1", "a") None true true]%string.
Proof. vm_compute. reflexivity. Qed.

(** A script that survives the server: its calls pass the fence and no gate is asked. *)
Example orphan_is_not_gated :
  let s := served fresh interrupted in
  prompted s 1 "1" "do it" = Returned Running
  ∧ sv_log (served s (says 1 "1" "do it")) = [Executed ("r1", "a") None true true; Executed ("r1", "a") None false false]%string.
Proof. vm_compute. done. Qed.

(** Cancelling the run it belongs to changes its state only. *)
Example cancelled_orphan_is_not_fenced :
  let s := served fresh (interrupted ++ [CancelBegin 1 "r1" true "t3"]) in
  (rr_state <$> j_runs (sv_journal s) !! "r1"%string, prompted s 1 "1" "do it") = (Some "cancelled"%string, Returned Running).
Proof. vm_compute. reflexivity. Qed.

(** A rerun that was interrupted and is then skipped: the stored result is that of the
    earlier call, and the row says it is the later one's. *)
Example skip_serves_an_older_call :
  let rs := starts ++ says 0 "1" "old" ++ [Finish 0 true (Succeeded "u" "old result" "completed") "t3"; Restart]%string
            ++ resumes 1 [("a", "rerun")]%string ++ says 1 "2" "new" ++ [Restart] ++ resumes 2 [("a", "skip")]%string in
  prompted (served fresh rs) 2 "3" "new" = Returned (Answered "u" "old result" "completed" true).
Proof. vm_compute. reflexivity. Qed.

(** ** The theorems at work *)



Definition at_work : Server := served fresh (starts ++ says 0 "1" "do it").
Definition the_call : Call := {|
  cl_run_id := "r1"; cl_step_id := "a"; cl_record := Some 0%nat; cl_fields := prompt_of "do it"; cl_recovery := None; cl_ready := true |}.
Definition restarted_after : Server :=
  served (serve_request (Finish 0 true (Succeeded "term" "all done" "completed") "t3") at_work).1 (Restart :: resumes 1 []).

Lemma later_sample : later_call restarted_after the_call (asks "2" "do it").
Proof. split; vm_compute; reflexivity. Qed.

Lemma ended_steps_are_answered_witness :
  (serve_request (Arrive 1 (asks "2" "do it") works "t4") restarted_after).2
  = Returned (Answered "term" "all done" "completed" true).
Proof.
  destruct (sv_records at_work !! 0%nat) as [record|] eqn:Hrec; [|vm_compute in Hrec; discriminate].
  destruct (j_steps (sv_journal at_work) !! ("r1", "a")%string) as [row|] eqn:Hrow; [|vm_compute in Hrow; discriminate].
  destruct (ended_steps_are_answered at_work 0 the_call 0 record row "term" "all done" "completed" "t3" restarted_after 1
    (asks "2" "do it") works "t4") as (_ & _ & _ & _ & H).
  - vm_compute. reflexivity.
  - reflexivity.
  - exact Hrec.
  - exact Hrow.
  - vm_compute in Hrow. injection Hrow as <-. vm_compute. reflexivity.
  - exact later_sample.
  - reflexivity.
  - reflexivity.
  - vm_compute. reflexivity.
  - vm_compute. reflexivity.
  - rewrite H. vm_compute. reflexivity.
Defined.

Definition consented : Server := served fresh (interrupted ++ resumes 1 [("a", "rerun")]%string).

Lemma drives_leave_nothing_behind_witness :
  let s' := served consented [DriveExit 1 (Exited 1) true "t5"; DriveExpire 1 true "t5"; DriveLeave 1 true "t6"]%string in
  sr_state <$> j_steps (sv_journal consented) !! ("r1", "a")%string = Some "rerun_authorized"%string
  ∧ "r1"%string ∉ sv_active s' ∧ sr_state <$> j_steps (sv_journal s') !! ("r1", "a")%string = Some "running"%string.
Proof.
  destruct (sv_records consented !! 0%nat) as [record|] eqn:Hrec; [|vm_compute in Hrec; discriminate].
  destruct (j_steps (sv_journal consented) !! ("r1", "a")%string) as [row|] eqn:Hrow; [|vm_compute in Hrow; discriminate].
  destruct (drives_leave_nothing_behind consented 1 (driving "r1" false (Driving 0 [("a", "running")]%string)) 0 [("a", "running")]%string
    record (Exited 1) true true true "t5" "t5" "t6") as (_ & H2 & _ & H4 & _).
  - vm_compute. reflexivity.
  - reflexivity.
  - exact Hrec.
  - apply (bool_decide_unpack _). vm_compute. exact I.
  - assert (sr_state row = "rerun_authorized"%string) as Hs by (vm_compute in Hrow; by injection Hrow as <-).
    split; [|split; [exact H2|]].
    + vm_compute in Hrow. injection Hrow as <-. vm_compute. reflexivity.
    + destruct (H4 eq_refl "a"%string "running"%string row) as (row' & Hr & Ha & _); [left|exact Hrow|].
      change (dr_run_id _) with "r1"%string in Hr. rewrite Hr. simpl. rewrite Ha; [reflexivity|rewrite Hs; by_eval|by_eval].
Defined.
