(* ===== verification/Workflow.v ===== *)
(** * Workflow specifications — [models/workflow.py], and [_validate_inputs] of
    [services/workflow_service.py]

    The grammar of a spec, what its inputs may be, and which of its constructs are
    reserved.  The YAML parser, the field types of pydantic and the meta-schema of
    jsonschema are third-party code: a spec is the record they give, and the verdict
    on a schema is an argument. *)

From S2P Require Import Prelude Text Chars Secrets Steps.

Definition WORKFLOW_MAX_STEPS : Z := 100.
Definition WORKFLOW_MAX_INPUTS : Z := 64.
Definition WORKFLOW_OUTPUT_SCHEMA_MAX_DEPTH : Z := 8.
Definition WORKFLOW_MAX_RETRIES : Z := 10.
Definition WORKFLOW_DEFAULT_STEP_RETRIES : Z := 3.
Definition WORKFLOW_SHIPPED_UNITS : list string := [].

Inductive input_type := type_string | type_int | type_bool | type_path.
#[export] Instance input_type_eq_dec : EqDecision input_type. Proof. solve_decision. Defined.
(** A value of a run's inputs: what JSON gives. *)
Inductive value := VStr (s : string) | VInt (n : Z) | VBool (b : bool) | VDoc (d : json).
Record InputDecl := { id_type : input_type; id_required : bool; id_default : option value }.

Inductive on_failure := halt_run | continue_run.
#[export] Instance on_failure_eq_dec : EqDecision on_failure. Proof. solve_decision. Defined.
Record WorkflowStep := {
  ws_id : string;
  ws_provider : string;
  ws_agent : string;
  ws_prompt : string;
  ws_engine : option string;
  ws_output_schema : option json;
  ws_when : option string;
  ws_until : option string;
  ws_max_iterations : option Z;
  ws_on_stall : option string;
  ws_on_no_progress : option string;
  ws_on_failure : option on_failure;
  ws_retries : option Z;
}.
Inductive spec_mode := sequential | parallel | pipeline | loop.
#[export] Instance spec_mode_eq_dec : EqDecision spec_mode. Proof. solve_decision. Defined.
Record WorkflowSpec := {
  wf_name : string;
  wf_description : string;
  wf_mode : spec_mode;
  wf_inputs : list (string * InputDecl);
  wf_steps : list WorkflowStep;
}.
Definition spec_mode_value (m : spec_mode) : string :=
  match m with sequential => "sequential" | parallel => "parallel" | pipeline => "pipeline" | loop => "loop" end.

(** ** The grammar *)

Definition has_value {A} (o : option A) : bool := bool_decide (is_Some o).
Definition is_loop (s : WorkflowStep) : bool :=
  has_value (ws_until s) || has_value (ws_max_iterations s) || has_value (ws_on_stall s) || has_value (ws_on_no_progress s).

Definition _default_matches_type (default_ : value) (declared : input_type) : bool :=
  match declared, default_ with
  | type_bool, VBool _ | type_int, VInt _ | type_string, VStr _ | type_path, VStr _ => true
  | _, _ => false
  end.

Fixpoint _schema_depth (cap : Z) (depth : Z) (node : json) : Z :=
  if cap <? depth then depth else
  match node with
  | JObj members => (fix go l := match l with [] => depth | (_, v) :: l => Z.max (_schema_depth cap (depth + 1) v) (go l) end) members
  | JArr items => (fix go l := match l with [] => depth | v :: l => Z.max (_schema_depth cap (depth + 1) v) (go l) end) items
  | _ => depth
  end.

(** [true] when the schema is refused; [well_formed] is the verdict of the library. *)
Definition _check_output_schema (well_formed : json → bool) (schema : json) : bool :=
  (WORKFLOW_OUTPUT_SCHEMA_MAX_DEPTH <? _schema_depth WORKFLOW_OUTPUT_SCHEMA_MAX_DEPTH 1 schema) || negb (well_formed schema).

Inductive grammar_error :=
| InvalidName (name : string)
| InvalidStepId (step_id : string)
| DuplicateStepId (step_id : string)
| NoSteps
| TooManySteps (n : nat)
| TooManyInputs (n : nat)
| DefaultMismatch (key : string)
| InvalidSchema (step_id : string)
| RetriesOutOfRange (step_id : string) (retries : Z)
| MissingGuards (step_id : string) (names : list string).

(** The loop over the step ids, with the ids it has seen. *)
Fixpoint id_errors (seen : list string) (steps : list WorkflowStep) : list grammar_error :=
  match steps with
  | [] => []
  | s :: steps =>
      (if name_matches (ws_id s) then [] else [InvalidStepId (ws_id s)])
      ++ (if bool_decide (ws_id s ∈ seen) then [DuplicateStepId (ws_id s)] else [])
      ++ id_errors (ws_id s :: seen) steps
  end.
Definition missing_guards (s : WorkflowStep) : list string :=
  (if has_value (ws_max_iterations s) then [] else ["max_iterations"])
  ++ (if has_value (ws_on_stall s) then [] else ["on_stall"])
  ++ (if has_value (ws_on_no_progress s) then [] else ["on_no_progress"]).

Definition validate_grammar (well_formed : json → bool) (spec : WorkflowSpec) : list grammar_error :=
  let n := length (wf_steps spec) in
  let k := length (wf_inputs spec) in
  (if name_matches (wf_name spec) then [] else [InvalidName (wf_name spec)])
  ++ id_errors [] (wf_steps spec)
  ++ (if bool_decide (n < 1)%nat then [NoSteps] else [])
  ++ (if WORKFLOW_MAX_STEPS <? Z.of_nat n then [TooManySteps n] else [])
  ++ (if WORKFLOW_MAX_INPUTS <? Z.of_nat k then [TooManyInputs k] else [])
  ++ flat_map (λ '(key, decl), match id_default decl with
       | Some d => if _default_matches_type d (id_type decl) then [] else [DefaultMismatch key]
       | None => []
       end) (wf_inputs spec)
  ++ flat_map (λ s, match ws_output_schema s with
       | Some schema => if _check_output_schema well_formed schema then [InvalidSchema (ws_id s)] else []
       | None => []
       end) (wf_steps spec)
  ++ flat_map (λ s, match ws_retries s with
       | Some r => if (0 <=? r) && (r <=? WORKFLOW_MAX_RETRIES) then [] else [RetriesOutOfRange (ws_id s) r]
       | None => []
       end) (wf_steps spec)
  ++ flat_map (λ s, if is_loop s && negb (bool_decide (missing_guards s = []))
                    then [MissingGuards (ws_id s) (missing_guards s)] else []) (wf_steps spec).

(** ** Reserved constructs *)

Definition TIER_REGISTRY : list (string * string) :=
  [("parallel", "N7"); ("pipeline", "N7"); ("loop", "N8"); ("until", "N8"); ("max_iterations", "N8"); ("on_stall", "N8");
   ("on_no_progress", "N8"); ("when", "reserved"); ("rich_templating", "reserved")]%string.
Definition lookup_in {A} (key : string) (l : list (string * A)) : option A := snd <$> head (filter (λ kv, kv.1 = key) l).
Definition is_reserved (construct : string) : bool :=
  match lookup_in construct TIER_REGISTRY with
  | None => false
  | Some unit_ => negb (bool_decide (unit_ ∈ WORKFLOW_SHIPPED_UNITS))
  end.
Definition step_constructs (s : WorkflowStep) : list string :=
  (if has_value (ws_when s) then ["when"] else []) ++ (if has_value (ws_until s) then ["until"] else [])
  ++ (if has_value (ws_max_iterations s) then ["max_iterations"] else []) ++ (if has_value (ws_on_stall s) then ["on_stall"] else [])
  ++ (if has_value (ws_on_no_progress s) then ["on_no_progress"] else []).
Definition use_construct (used : list string) (token : string) : list string :=
  if bool_decide (token ∈ used) then used else used ++ [token].
Definition _constructs_used (spec : WorkflowSpec) : list string :=
  foldl use_construct (if bool_decide (wf_mode spec = sequential) then [] else [spec_mode_value (wf_mode spec)])
    (flat_map step_constructs (wf_steps spec)).

Inductive validation := valid_spec | valid_reserved (constructs : list string) | invalid_spec (errors : list grammar_error).
(** [validate_only] of a text that pydantic gives a record for. *)
Definition validate_spec (well_formed : json → bool) (spec : WorkflowSpec) : validation :=
  match validate_grammar well_formed spec with
  | [] => match filter is_reserved (_constructs_used spec) with [] => valid_spec | l => valid_reserved l end
  | errors => invalid_spec errors
  end.

(** ** Inputs *)

(** [resolve] is the validator of paths, which reads the disk. *)
Definition check_input (resolve : string → outcome string) (decl : InputDecl) (v : value) : outcome value :=
  match id_type decl, v with
  | type_bool, VBool _ | type_int, VInt _ | type_string, VStr _ => Returned v
  | type_path, VStr s => match resolve s with Returned p => Returned (VStr p) | Raised e => Raised e end
  | type_bool, _ => Raised (ValueError "must be a bool")
  | type_int, _ => Raised (ValueError "must be an int")
  | type_string, _ => Raised (ValueError "must be a string")
  | type_path, _ => Raised (ValueError "must be a path string")
  end.
Fixpoint resolve_inputs (resolve : string → outcome string) (decls : list (string * InputDecl)) (inputs : list (string * value))
    : outcome (list (string * value)) :=
  match decls with
  | [] => Returned []
  | (name, decl) :: decls =>
      match (match lookup_in name inputs with Some v => Some v | None => id_default decl end) with
      | None => if id_required decl then Raised (ValueError "missing required input") else resolve_inputs resolve decls inputs
      | Some v =>
          match check_input resolve decl v with
          | Raised e => Raised e
          | Returned v =>
              match resolve_inputs resolve decls inputs with
              | Returned rest => Returned ((name, v) :: rest)
              | Raised e => Raised e
              end
          end
      end
  end.
Definition _validate_inputs (resolve : string → outcome string) (decls : list (string * InputDecl)) (inputs : list (string * value))
    : outcome (list (string * value)) :=
  match resolve_inputs resolve decls inputs with
  | Raised e => Raised e
  | Returned resolved =>
      if forallb (λ '(name, _), bool_decide (is_Some (lookup_in name decls))) inputs then Returned resolved
      else Raised (ValueError "unknown input")
  end.

(** ** What a spec that is accepted looks like *)

(** How deep a document nests, with no cap. *)
Fixpoint nesting (node : json) : Z :=
  match node with
  | JObj members => 1 + (fix go l := match l with [] => 0 | (_, v) :: l => Z.max (nesting v) (go l) end) members
  | JArr items => 1 + (fix go l := match l with [] => 0 | v :: l => Z.max (nesting v) (go l) end) items
  | _ => 1
  end.

Fixpoint json_size (node : json) : nat :=
  match node with
  | JObj members => S ((fix go l := match l with [] => O | (_, v) :: l => (json_size v + go l)%nat end) members)
  | JArr items => S ((fix go l := match l with [] => O | v :: l => (json_size v + go l)%nat end) items)
  | _ => 1%nat
  end.
Lemma json_size_pos v : (0 < json_size v)%nat.
Proof. destruct v; simpl; lia. Qed.

Lemma nesting_pos node : 1 <= nesting node.
Proof.
  destruct node as [| | | |l|l]; simpl; try lia.
  - induction l as [|v l IH]; [lia|]. lia.
  - induction l as [|[k v] l IH]; [lia|]. lia.
Qed.

(** The capped walk passes the cap exactly when the document does. *)
Lemma schema_depth_cap cap n : ∀ node depth, (json_size node ≤ n)%nat →
  depth <= _schema_depth cap depth node ∧
  (cap < _schema_depth cap depth node ↔ cap < depth + nesting node - 1).
Proof.
  induction n as [|n IH]; intros node depth Hn; [pose proof (json_size_pos node); lia|].
  destruct (Z.ltb_spec cap depth) as [Hd|Hd].
  { assert (_schema_depth cap depth node = depth) as ->.
    { destruct node; cbn [_schema_depth]; by rewrite (proj2 (Z.ltb_lt cap depth) Hd). }
    pose proof (nesting_pos node). lia. }
  assert (depth + 1 - 1 = depth) as Hone by lia.
  destruct node as [| | | |items|members]; cbn [_schema_depth nesting]; rewrite (proj2 (Z.ltb_ge cap depth) Hd); try lia.
  - simpl in Hn. revert Hn. induction items as [|v items IHl]; intros Hn; [lia|].
    destruct (IH v (depth + 1) ltac:(lia)) as [H1 H2]. destruct IHl as [H3 H4]; [lia|]. split; [lia|].
    rewrite !Z.max_lt_iff, H2, H4. lia.
  - simpl in Hn. revert Hn. induction members as [|[k v] members IHl]; intros Hn; [lia|].
    destruct (IH v (depth + 1) ltac:(lia)) as [H1 H2]. destruct IHl as [H3 H4]; [lia|]. split; [lia|].
    rewrite !Z.max_lt_iff, H2, H4. lia.
Qed.

Lemma check_output_schema_exact well_formed schema :
  _check_output_schema well_formed schema = false ↔
  nesting schema <= WORKFLOW_OUTPUT_SCHEMA_MAX_DEPTH ∧ well_formed schema = true.
Proof.
  unfold _check_output_schema. rewrite orb_false_iff, negb_false_iff, Z.ltb_ge.
  destruct (schema_depth_cap WORKFLOW_OUTPUT_SCHEMA_MAX_DEPTH (json_size schema) schema 1 ltac:(done)) as [_ H].
  apply and_iff_compat_r. lia.
Qed.

Record runnable (well_formed : json → bool) (spec : WorkflowSpec) : Prop := {
  rn_name : name_matches (wf_name spec) = true;
  rn_ids s : s ∈ wf_steps spec → name_matches (ws_id s) = true;
  rn_distinct : NoDup (ws_id <$> wf_steps spec);
  rn_steps : 1 <= Z.of_nat (length (wf_steps spec)) <= WORKFLOW_MAX_STEPS;
  rn_inputs : Z.of_nat (length (wf_inputs spec)) <= WORKFLOW_MAX_INPUTS;
  rn_defaults k decl d : (k, decl) ∈ wf_inputs spec → id_default decl = Some d → _default_matches_type d (id_type decl) = true;
  rn_schemas s schema : s ∈ wf_steps spec → ws_output_schema s = Some schema →
    nesting schema <= WORKFLOW_OUTPUT_SCHEMA_MAX_DEPTH ∧ well_formed schema = true;
  rn_retries s r : s ∈ wf_steps spec → ws_retries s = Some r → 0 <= r <= WORKFLOW_MAX_RETRIES;
  rn_loops s : s ∈ wf_steps spec → is_loop s = true →
    is_Some (ws_max_iterations s) ∧ is_Some (ws_on_stall s) ∧ is_Some (ws_on_no_progress s);
}.

Lemma flat_map_nil {A B} (f : A → list B) l : flat_map f l = [] ↔ ∀ x, x ∈ l → f x = [].
Proof.
  induction l as [|x l IH]; simpl.
  - split; [by intros _ x ?%not_elem_of_nil|done].
  - rewrite app_nil, IH. split.
    + intros [Hx Hl] y [->|Hy]%elem_of_cons; [done|by apply Hl].
    + intros H. split; [apply H; left|]. intros y Hy. apply H. by right.
Qed.

Lemma if_nil {A} (b : bool) (x : A) : (if b then [] else [x]) = [] ↔ b = true.
Proof. by destruct b. Qed.
Lemma if_nil' {A} (b : bool) (x : A) : (if b then [x] else []) = [] ↔ b = false.
Proof. by destruct b. Qed.

Lemma id_errors_nil seen steps : id_errors seen steps = [] ↔
  (∀ s, s ∈ steps → name_matches (ws_id s) = true ∧ ws_id s ∉ seen) ∧ NoDup (ws_id <$> steps).
Proof.
  revert seen. induction steps as [|s steps IH]; intros seen; simpl.
  - split; [|done]. intros _. split; [by intros s ?%not_elem_of_nil|constructor].
  - rewrite !app_nil, if_nil, if_nil', bool_decide_eq_false, IH, NoDup_cons. split.
    + intros (H1 & H2 & H3 & H4). split; [|split; [|done]].
      * intros t [->|Ht]%elem_of_cons; [done|]. apply H3 in Ht. set_solver.
      * intros (t & E & Ht)%list_elem_of_fmap. apply H3 in Ht as [_ Ht]. rewrite E in Ht. by destruct Ht; left.
    + intros (H1 & H2 & H3). destruct (H1 s ltac:(left)) as [Hs Hseen]. split_and!; [done|done| |done].
      intros t Ht. destruct (H1 t ltac:(by right)) as [? Hn]. split; [done|]. apply not_elem_of_cons. split; [|done].
      intros E. apply H2. rewrite <-E. by apply list_elem_of_fmap_2.
Qed.

Lemma missing_guards_nil s : missing_guards s = [] ↔
  is_Some (ws_max_iterations s) ∧ is_Some (ws_on_stall s) ∧ is_Some (ws_on_no_progress s).
Proof. unfold missing_guards, has_value. by rewrite !app_nil, !if_nil, !bool_decide_eq_true. Qed.

(** [C36] the grammar refuses exactly the specs that are not runnable. *)
Theorem grammar_is_exact well_formed spec : validate_grammar well_formed spec = [] ↔ runnable well_formed spec.
Proof.
  unfold validate_grammar. rewrite !app_nil, !flat_map_nil, id_errors_nil, if_nil, !if_nil', bool_decide_eq_false, !Z.ltb_ge.
  split.
  - intros (H1 & [H2 H3] & H4 & H5 & H6 & H7 & H8 & H9 & H10). split.
    + done.
    + intros s Hs. by apply H2.
    + done.
    + lia.
    + done.
    + intros k decl d Hk Hd. specialize (H7 _ Hk). simpl in H7. by rewrite Hd, if_nil in H7.
    + intros s schema Hs E. specialize (H8 _ Hs). rewrite E, if_nil' in H8. by apply check_output_schema_exact.
    + intros s r Hs E. specialize (H9 _ Hs). rewrite E, if_nil, andb_true_iff, !Z.leb_le in H9. done.
    + intros s Hs E. specialize (H10 _ Hs). rewrite E, if_nil', andb_true_l, negb_false_iff, bool_decide_eq_true in H10.
      by apply missing_guards_nil.
  - intros [H1 H2 H3 H4 H5 H6 H7 H8 H9]. split_and!; try done; try lia.
    + intros s Hs. split; [by apply H2|apply not_elem_of_nil].
    + intros [k decl] Hk. destruct (id_default decl) as [d|] eqn:E; [|done]. apply if_nil. by apply (H6 k).
    + intros s Hs. destruct (ws_output_schema s) as [schema|] eqn:E; [|done]. apply if_nil', check_output_schema_exact. by apply (H7 s).
    + intros s Hs. destruct (ws_retries s) as [r|] eqn:E; [|done]. apply if_nil. rewrite andb_true_iff, !Z.leb_le. by apply (H8 s).
    + intros s Hs. apply if_nil'. destruct (is_loop s) eqn:E; [|done]. simpl. rewrite negb_false_iff, bool_decide_eq_true.
      apply missing_guards_nil. by apply (H9 s).
Qed.
