(* ===== verification/Order.v ===== *)
(** * The order of a workflow's steps — [_topological_order] of
    [services/workflow_service.py]

    A depth-first visit over what each step needs, ties broken by the order of
    declaration.  The visit is recursive, so it has a depth: Python raises when its
    stack is full. *)

From stdpp Require Import gmap.
From S2P Require Import Prelude Text Steps Workflow Wp.

Section Order.
(** The steps of the spec by id, and what each needs. *)
Context (ids : list string) (edges : string → list string).

Definition RecursionError : exn := RuntimeError "maximum recursion depth exceeded".
Definition CycleError (step_id : string) : exn := ValueError ("workflow has a dependency cycle at step '" +:+ step_id +:+ "'").
Definition UnknownStep (step_id dep : string) : exn := ValueError ("step '" +:+ step_id +:+ "' needs unknown step '" +:+ dep +:+ "'").

(** [decl_index.get(d, 0)]: of a repeated id the last one counts. *)
Fixpoint last_index (d : string) (i : nat) (l : list string) : option nat :=
  match l with
  | [] => None
  | x :: l => match last_index d (S i) l with Some j => Some j | None => if decide (x = d) then Some i else None end
  end.
Definition decl_index (d : string) : nat := default 0%nat (last_index d 0 ids).
Definition declared_before (a b : string) : Prop := (decl_index a ≤ decl_index b)%nat.
#[export] Instance declared_before_dec a b : Decision (declared_before a b). Proof. unfold declared_before. apply _. Defined.

(** [visited]: present and [false] while the step is being visited. *)
Record visits := { vs_visited : gmap string bool; vs_order : list string }.
Definition visiting (step_id : string) (v : visits) : visits :=
  {| vs_visited := <[step_id := false]> (vs_visited v); vs_order := vs_order v |}.
Definition visited (step_id : string) (v : visits) : visits :=
  {| vs_visited := <[step_id := true]> (vs_visited v); vs_order := vs_order v ++ [step_id] |}.

Fixpoint _visit (depth : nat) (step_id : string) : M visits () :=
  match depth with
  | O => raise RecursionError
  | S depth =>
      v ← gets id;
      match vs_visited v !! step_id with
      | Some true => mret ()
      | Some false => raise (CycleError step_id)
      | None =>
          modify (visiting step_id) ;;
          for_each (merge_sort declared_before (edges step_id)) () (λ _ dep,
            if decide (dep ∈ ids) then _visit depth dep else raise (UnknownStep step_id dep)) ;;
          modify (visited step_id)
      end
  end.

Definition visit_all (depth : nat) : M visits () := for_each ids () (λ _ step_id, _visit depth step_id).
Definition nothing_visited : visits := {| vs_visited := ∅; vs_order := [] |}.

(** ** What the visit keeps *)

Definition needs (a b : string) : Prop := b ∈ edges a.
(** Everything in the order comes after what it needs. *)
Definition closed (order : list string) : Prop :=
  ∀ before x after, order = before ++ x :: after → ∀ d, needs x d → d ∈ before.
(** The steps being visited, the newest first, each needed by the next. *)
Fixpoint chain (stack : list string) : Prop :=
  match stack with x :: (y :: _) as rest => needs y x ∧ chain rest | _ => True end.

Record good (stack : list string) (v : visits) : Prop := {
  gd_done x : vs_visited v !! x = Some true ↔ x ∈ vs_order v;
  gd_doing x : vs_visited v !! x = Some false ↔ x ∈ stack;
  gd_declared x : is_Some (vs_visited v !! x) → x ∈ ids;
  gd_nodup : NoDup (vs_order v);
  gd_closed : closed (vs_order v);
  gd_chain : chain stack;
}.

(** Why a spec has no order. *)
Definition stuck (e : exn) : Prop :=
  (∃ x, x ∈ ids ∧ tc needs x x ∧ e = CycleError x) ∨ (∃ x d, x ∈ ids ∧ needs x d ∧ d ∉ ids ∧ e = UnknownStep x d).

(** The steps nobody has come to. *)
Definition unvisited (v : visits) : nat := size (list_to_set ids ∖ dom (vs_visited v) : gset string).

Lemma unvisited_marked v x b o : x ∈ ids → vs_visited v !! x = None →
  (unvisited {| vs_visited := <[x := b]> (vs_visited v); vs_order := o |} < unvisited v)%nat.
Proof using edges ids.
  intros Hx Hv. unfold unvisited. simpl. apply subset_size. split; [set_solver|].
  intros H. assert (x ∈ (list_to_set ids ∖ dom (<[x := b]> (vs_visited v)) : gset string)) as Hin.
  { apply H, elem_of_difference. split; [by apply elem_of_list_to_set|by apply not_elem_of_dom]. }
  set_solver.
Qed.
Lemma unvisited_mono v v' : dom (vs_visited v) ⊆ dom (vs_visited v') → (unvisited v' ≤ unvisited v)%nat.
Proof using edges ids. intros H. unfold unvisited. apply subseteq_size. set_solver. Qed.

Lemma chain_reaches stack x y : chain (x :: stack) → y ∈ stack → tc needs y x.
Proof using edges.
  revert x. induction stack as [|z stack IH]; intros x Hc Hy; [by apply not_elem_of_nil in Hy|].
  destruct Hc as [Hz Hc]. apply elem_of_cons in Hy as [->|Hy]; [by apply tc_once|].
  eapply tc_r; [by apply IH|done].
Qed.

Lemma closed_snoc order x : closed order → (∀ d, needs x d → d ∈ order) → closed (order ++ [x]).
Proof using edges.
  intros Hc Hx before y after E d Hd. destruct after as [|z after _] using rev_ind.
  - apply app_inj_tail in E as [<- <-]. by apply Hx.
  - rewrite app_comm_cons, app_assoc in E. apply app_inj_tail in E as [E _]. by apply (Hc before y after E).
Qed.

Lemma good_visiting stack x v : good stack v → x ∈ ids → vs_visited v !! x = None →
  (match stack with y :: _ => needs y x | [] => True end) → good (x :: stack) (visiting x v).
Proof using edges ids.
  intros [H1 H2 H3 H4 H5 H6] Hx Hv Hs. split; simpl; try done.
  - intros y. destruct (decide (y = x)) as [->|Hne]; [|rewrite lookup_insert_ne by done; apply H1].
    rewrite lookup_insert_eq. split; [done|]. intros Hy%H1. congruence.
  - intros y. rewrite elem_of_cons. destruct (decide (y = x)) as [->|Hne]; [rewrite lookup_insert_eq; naive_solver|].
    rewrite lookup_insert_ne by done. rewrite H2. naive_solver.
  - intros y. destruct (decide (y = x)) as [->|Hne]; [done|]. rewrite lookup_insert_ne by done. apply H3.
  - by destruct stack.
Qed.

Lemma good_visited stack x v : good (x :: stack) v → x ∉ stack → (∀ d, needs x d → d ∈ vs_order v) → x ∈ ids →
  good stack (visited x v).
Proof using edges ids.
  intros [H1 H2 H3 H4 H5 H6] Hout Hneeds Hx.
  assert (x ∉ vs_order v) as Hnew.
  { intros Hin%H1. assert (vs_visited v !! x = Some false) as Hf by (apply H2; left). congruence. }
  split; simpl.
  - intros y. rewrite elem_of_app, list_elem_of_singleton. destruct (decide (y = x)) as [->|Hne].
    { rewrite lookup_insert_eq. naive_solver. }
    rewrite lookup_insert_ne by done. rewrite H1. naive_solver.
  - intros y. destruct (decide (y = x)) as [->|Hne].
    { rewrite lookup_insert_eq. naive_solver. }
    rewrite lookup_insert_ne by done. rewrite H2, elem_of_cons. naive_solver.
  - intros y. destruct (decide (y = x)) as [->|Hne]; [done|]. rewrite lookup_insert_ne by done. apply H3.
  - apply NoDup_app. split_and!; [done| |apply NoDup_singleton]. by intros y Hy ->%list_elem_of_singleton.
  - by apply closed_snoc.
  - by destruct stack; [|destruct H6].
Qed.

(** [v'] is a later moment of the visit than [v]. *)
Definition later (v v' : visits) : Prop := vs_order v `prefix_of` vs_order v' ∧ dom (vs_visited v) ⊆ dom (vs_visited v').
#[export] Instance later_preorder : PreOrder later.
Proof. split; [by intros v|]. intros v1 v2 v3 [] []. split; by etrans. Qed.

Lemma visit_correct depth : ∀ stack x v,
  good stack v → x ∈ ids → (match stack with y :: _ => needs y x | [] => True end) → (unvisited v < depth)%nat →
  wp (_visit depth x) v (λ _ v', good stack v' ∧ x ∈ vs_order v' ∧ later v v') (λ e _, stuck e).
Proof using edges ids.
  induction depth as [|depth IH]; intros stack x v Hg Hx Hstack Hdepth; [lia|]. cbn [_visit].
  apply wp_bind, wp_gets. unfold id. destruct (vs_visited v !! x) as [[]|] eqn:Hv.
  - apply wp_ret. split; [done|]. split; [by apply (gd_done _ _ Hg)|done].
  - apply wp_raise. left. exists x. split; [done|]. split; [|done]. apply (gd_doing _ _ Hg) in Hv.
    pose proof (gd_chain _ _ Hg) as Hc. destruct stack as [|y stack]; [by apply not_elem_of_nil in Hv|].
    apply (chain_reaches (y :: stack)); [by split|done].
  - assert (x ∉ stack) as Hout by (intros Hin%(gd_doing _ _ Hg); congruence).
    pose proof (good_visiting stack x v Hg Hx Hv Hstack) as Hg0.
    pose proof (unvisited_marked v x false (vs_order v) Hx Hv) as Hd0.
    apply wp_bind, wp_modify, wp_bind.
    eapply (wp_for_each _ (λ todo (_ : ()) v', (∀ d, d ∈ todo → needs x d) ∧ good (x :: stack) v' ∧ later (visiting x v) v' ∧
              ∀ d, needs x d → d ∈ todo ∨ d ∈ vs_order v')).
    + intros d todo [] v1 (Hn & Hg1 & [Hp Hdom] & Hall). destruct (decide (d ∈ ids)) as [Hd|Hd]; last first.
      { apply wp_raise. right. exists x, d. split_and!; [done|apply Hn; left|done|done]. }
      eapply wp_mono; [apply (IH (x :: stack)); [done|done| |]| |done].
      * apply Hn. left.
      * pose proof (unvisited_mono _ _ Hdom). unfold visiting in *. lia.
      * simpl. intros _ v2 (Hg2 & Hin & Hl). split; [by intros; apply Hn; right|]. split; [done|]. split; [etrans; [by split|done]|].
        intros d' [[->|Hd']%elem_of_cons|Hd']%Hall; [by right|by left|right]. by eapply elem_of_prefix; [|apply Hl].
    + intros [] v1 (_ & Hg1 & [Hp Hdom] & Hall). apply wp_modify. split_and!.
      * apply good_visited; [done|done| |done]. intros d [Hd|Hd]%Hall; [by apply not_elem_of_nil in Hd|done].
      * apply elem_of_app. right. by apply list_elem_of_singleton.
      * split; simpl in *; [etrans; [done|by apply prefix_app_r]|set_solver].
    + split_and!; [by intros d Hd; rewrite merge_sort_Permutation in Hd|done|done|]. intros d Hd. left. by rewrite merge_sort_Permutation.
Qed.

Lemma visit_all_correct depth : (size (list_to_set ids : gset string) < depth)%nat →
  wp (visit_all depth) nothing_visited (λ _ v, good [] v ∧ ∀ x, x ∈ ids → x ∈ vs_order v) (λ e _, stuck e).
Proof using edges ids.
  intros Hdepth. unfold visit_all.
  eapply (wp_for_each _ (λ todo (_ : ()) v, good [] v ∧ todo ⊆ ids ∧ ∀ x, x ∈ ids → x ∈ todo ∨ x ∈ vs_order v)).
  - intros x todo [] v (Hg & Hsub & Hall).
    eapply wp_mono; [apply (visit_correct depth [] x v Hg); [set_solver|done|]| |done].
    + unfold unvisited. eapply Nat.le_lt_trans; [|exact Hdepth]. apply subseteq_size. set_solver.
    + simpl. intros _ v' (Hg' & Hin & Hl & _). split; [done|]. split; [set_solver|].
      intros y [[->|Hy]%elem_of_cons|Hy]%Hall; [by right|by left|right]. by eapply elem_of_prefix.
  - intros [] v (Hg & _ & Hall). split; [done|]. intros x [Hx|Hx]%Hall; [by apply not_elem_of_nil in Hx|done].
  - split; [|set_solver]. split; simpl; try done.
    + intros x. rewrite lookup_empty. split; [done|by intros ?%not_elem_of_nil].
    + intros x. rewrite lookup_empty. split; [done|by intros ?%not_elem_of_nil].
    + intros x. rewrite lookup_empty. by intros [].
    + constructor.
    + intros before x after E. by destruct before.
Qed.

(** An order that is closed has room for no cycle. *)
Lemma closed_reaches order x y : closed order → tc needs x y →
  ∀ before after, order = before ++ x :: after → y ∈ before.
Proof using edges.
  intros Hc Hxy. induction Hxy as [x y Hn|x z y Hn _ IH]; intros before after E; [by eapply Hc|].
  assert (z ∈ before) as Hz by (by eapply Hc). apply list_elem_of_split in Hz as (b1 & b2 & ->).
  specialize (IH b1 (b2 ++ x :: after) ltac:(rewrite E; by rewrite <-app_assoc)). apply elem_of_app. by left.
Qed.

Lemma closed_not_stuck order e : closed order → NoDup order → (∀ x, x ∈ order ↔ x ∈ ids) → ~ stuck e.
Proof using edges.
  intros Hc Hnd Hall [(x & Hx & Hcyc & _)|(x & d & Hx & Hn & Hd & _)];
    apply Hall, list_elem_of_split in Hx as (before & after & ->).
  - assert (x ∈ before) as Hin by (by eapply closed_reaches).
    apply NoDup_app in Hnd as (_ & Hdis & _). by apply (Hdis x Hin); left.
  - apply Hd, Hall. apply elem_of_app. left. by eapply Hc.
Qed.
End Order.

(** ** The order of a spec

    [needs_of] is what [getattr(step, "needs", None) or []] gives: the grammar of
    today has no such field. *)

Section Spec.
Context (needs_of : WorkflowStep → list string).

Definition step_ids (steps : list WorkflowStep) : list string := ws_id <$> steps.
(** A dictionary keyed by id: of a repeated id the last step counts. *)
Definition by_id (steps : list WorkflowStep) (step_id : string) : option WorkflowStep :=
  last (filter (λ s, ws_id s = step_id) steps).
Definition edges_of (steps : list WorkflowStep) (step_id : string) : list string :=
  from_option needs_of [] (by_id steps step_id).

Definition _topological_order (depth : nat) (spec : WorkflowSpec) : outcome (list WorkflowStep) :=
  let steps := wf_steps spec in
  match visit_all (step_ids steps) (edges_of steps) depth nothing_visited with
  | (v, Returned _) => Returned (omap (by_id steps) (vs_order v))
  | (_, Raised e) => Raised e
  end.

(** Each step comes after the steps it needs. *)
Definition needed_first (order : list WorkflowStep) : Prop :=
  ∀ before s after, order = before ++ s :: after → ∀ d, d ∈ needs_of s → d ∈ step_ids before.
(** What keeps a spec from having an order: a step that needs itself in the end, or
    a step that is not there. *)
Definition spec_stuck (spec : WorkflowSpec) (e : exn) : Prop :=
  stuck (step_ids (wf_steps spec)) (edges_of (wf_steps spec)) e.

Lemma by_id_some steps d s : by_id steps d = Some s → s ∈ steps ∧ ws_id s = d.
Proof using Type. unfold by_id. intros H%last_Some_elem_of. by apply list_elem_of_filter in H as [-> ?]. Qed.

Lemma by_id_there steps d : d ∈ step_ids steps → is_Some (by_id steps d).
Proof using Type.
  intros (s & -> & Hs)%list_elem_of_fmap. unfold by_id. apply last_is_Some. intros E.
  assert (s ∈ filter (λ t, ws_id t = ws_id s) steps) as Hin by (by apply list_elem_of_filter). rewrite E in Hin.
  by apply not_elem_of_nil in Hin.
Qed.

Lemma by_id_exact steps s : NoDup (step_ids steps) → s ∈ steps → by_id steps (ws_id s) = Some s.
Proof using Type.
  intros Hnd Hs. destruct (by_id_there steps (ws_id s)) as [t Ht]; [by apply list_elem_of_fmap_2|].
  rewrite Ht. f_equal. apply by_id_some in Ht as [Ht E].
  apply list_elem_of_lookup in Hs as [i Hi], Ht as [j Hj].
  assert (i = j) as ->; [|congruence]. apply (NoDup_lookup _ i j (ws_id s) Hnd); unfold step_ids; rewrite list_lookup_fmap.
  - by rewrite Hi.
  - by rewrite Hj, <-E.
Qed.

Lemma steps_of_ids steps order : NoDup (step_ids steps) → (∀ d, d ∈ order → d ∈ step_ids steps) →
  step_ids (omap (by_id steps) order) = order.
Proof using Type.
  intros Hnd. induction order as [|d order IH]; intros Hin; [done|].
  destruct (by_id_there steps d) as [s Hs]; [apply Hin; left|]. simpl. rewrite Hs. simpl.
  apply by_id_some in Hs as [_ <-]. f_equal. apply IH. intros d' Hd'. apply Hin. by right.
Qed.

Lemma ids_permute (l k : list WorkflowStep) : NoDup (step_ids k) → step_ids l ≡ₚ step_ids k → (∀ s, s ∈ l → s ∈ k) → l ≡ₚ k.
Proof using Type.
  intros Hk Hp Hsub.
  assert (NoDup l) as Hl by (apply (NoDup_fmap_1 ws_id); fold (step_ids l); by rewrite Hp).
  apply (submseteq_length_Permutation l k); [by apply NoDup_submseteq|].
  apply Permutation_length in Hp. unfold step_ids in Hp. rewrite !length_fmap in Hp. lia.
Qed.

Lemma topological_order_spec depth spec :
  NoDup (step_ids (wf_steps spec)) → (length (wf_steps spec) < depth)%nat →
  match _topological_order depth spec with
  | Returned order => order ≡ₚ wf_steps spec ∧ needed_first order ∧ ∀ e, ~ spec_stuck spec e
  | Raised e => spec_stuck spec e
  end.
Proof.
  intros Hnd Hdepth. set (ids := step_ids (wf_steps spec)) in *. set (edges := edges_of (wf_steps spec)).
  assert (size (list_to_set ids : gset string) < depth)%nat as Hsize.
  { unfold ids, step_ids in *. rewrite size_list_to_set, length_fmap by done. done. }
  pose proof (visit_all_correct ids edges depth Hsize) as H. unfold wp in H. unfold _topological_order.
  fold ids edges. destruct (visit_all ids edges depth nothing_visited) as [v [[]|e]]; [|done]. destruct H as [Hg Hall].
  assert (∀ x, x ∈ vs_order v ↔ x ∈ ids) as Hsame.
  { intros x. split; [|by apply Hall]. intros Hx%(gd_done _ _ _ _ Hg). by apply (gd_declared _ _ _ _ Hg). }
  pose proof (steps_of_ids (wf_steps spec) (vs_order v) Hnd (λ d, proj1 (Hsame d))) as Hids.
  split_and!.
  - apply ids_permute; [done| |].
    + rewrite Hids. apply NoDup_Permutation; [apply Hg|done|done].
    + intros s (d & _ & Hd)%list_elem_of_omap. by apply by_id_some in Hd as [? _].
  - intros before s after E d Hd.
    assert (s ∈ wf_steps spec) as Hs.
    { assert (s ∈ omap (by_id (wf_steps spec)) (vs_order v)) as (x & _ & Hx)%list_elem_of_omap.
      { rewrite E. apply elem_of_app. right. left. }
      by apply by_id_some in Hx as [? _]. }
    apply (gd_closed _ _ _ _ Hg (step_ids before) (ws_id s) (step_ids after)).
    + rewrite <-Hids, E. unfold step_ids. by rewrite fmap_app.
    + unfold needs, edges, edges_of. by rewrite by_id_exact.
  - intros e. apply (closed_not_stuck ids edges (vs_order v)); [apply Hg|apply Hg|done].
Qed.

(** [C22] the order is the steps of the spec, each after the steps it needs; there is
    none exactly when a step needs itself in the end or one that is not there, and
    then the error names it. *)
Theorem needed_steps_run_first depth spec :
  NoDup (step_ids (wf_steps spec)) → (length (wf_steps spec) < depth)%nat →
  match _topological_order depth spec with
  | Returned order => order ≡ₚ wf_steps spec ∧ needed_first order ∧ ∀ e, ~ spec_stuck spec e
  | Raised e => spec_stuck spec e
  end.
Proof. apply topological_order_spec. Qed.
End Spec.

(** With no needs, the order of declaration. *)
Lemma visit_no_needs ids edges depth x v : (∀ d, edges d = []) → vs_visited v !! x = None →
  _visit ids edges (S depth) x v = (visited x (visiting x v), Returned ()).
Proof. intros He Hv. cbn [_visit]. unfold mbind, M_bind. simpl. rewrite Hv, He. done. Qed.

Lemma topological_order_declared depth spec : NoDup (step_ids (wf_steps spec)) →
  _topological_order (λ _, []) (S depth) spec = Returned (wf_steps spec).
Proof.
  intros Hnd. unfold _topological_order, visit_all. set (ids := step_ids (wf_steps spec)) in *.
  set (edges := edges_of _ _). assert (∀ d, edges d = []) as He by (intros d; unfold edges, edges_of; by destruct (by_id _ d)).
  assert (∀ todo v, NoDup todo → (∀ x, x ∈ todo → vs_visited v !! x = None) →
    ∃ v', for_each todo () (λ _ d, _visit ids edges (S depth) d) v = (v', Returned ()) ∧ vs_order v' = vs_order v ++ todo) as H.
  { induction todo as [|x todo IH]; intros v Htodo Hv; [exists v; split; [done|by rewrite app_nil_r]|].
    apply NoDup_cons in Htodo as [Hx Htodo]. destruct (IH (visited x (visiting x v)) Htodo) as (v' & E & Ho).
    - intros y Hy. simpl. rewrite !lookup_insert_ne by (intros ->; done). apply Hv. by right.
    - exists v'. split; [|rewrite Ho; simpl; by rewrite <-app_assoc].
      cbn [for_each]. rewrite (bind_returned _ _ v (visited x (visiting x v)) ()); [exact E|].
      apply visit_no_needs; [done|]. apply Hv. left. }
  destruct (H ids nothing_visited Hnd) as (v & E & Ho); [by intros; apply lookup_empty|]. rewrite E, Ho. simpl. f_equal.
  assert (∀ l, l ⊆ wf_steps spec → omap (by_id (wf_steps spec)) (step_ids l) = l) as Hl.
  { induction l as [|s l IH]; intros Hsub; [done|]. simpl. rewrite by_id_exact by (done || (apply Hsub; left)).
    f_equal. apply IH. intros y Hy. apply Hsub. by right. }
  by apply Hl.
Qed.
