(* ===== verification/Template.v ===== *)
(** * Prompt templates — [_substitute] of [services/workflow_service.py]

    A placeholder is a pair of braces around text without braces.  Two shapes of
    reference resolve, every other one is an error of the engine; what is put in is
    never read again.  Braces are ASCII, so the scan goes byte by byte. *)

From stdpp Require Import gmap pretty.
From S2P Require Import Prelude Text Chars Secrets Steps Workflow.

(** What [str] gives for a document; [repr] is Python's for numbers and containers. *)
Definition py_str (repr : json → string) (d : json) : string :=
  match d with
  | JStr s => s
  | JNull => "None"
  | JBool b => if b then "True" else "False"
  | _ => repr d
  end.
Definition value_str (repr : json → string) (v : value) : string :=
  match v with
  | VStr s => s
  | VInt n => pretty n
  | VBool b => if b then "True" else "False"
  | VDoc d => py_str repr d
  end.

(** ** References *)

(** [s.strip()] *)
Fixpoint drop_spaces (cs : list string) : list string :=
  match cs with c :: rest => if is_space c then drop_spaces rest else cs | [] => [] end.
Definition py_strip (s : string) : string := concat_text (rev (drop_spaces (rev (drop_spaces (chars s))))).

Fixpoint split_on (c : ascii) (s : list ascii) : list (list ascii) :=
  match s with
  | [] => [[]]
  | d :: s => if decide (d = c) then [] :: split_on c s
              else match split_on c s with w :: ws => (d :: w) :: ws | [] => [[d]] end
  end.
Definition word_ok (w : list ascii) : bool := negb (bool_decide (w = [])) && forallb name_char w.

Inductive reference :=
| InputRef (name : string)
| StepRef (step_id field : string).
#[export] Instance reference_eq_dec : EqDecision reference. Proof. solve_decision. Defined.
(** [_INPUT_REF_RE] and [_STEP_REF_RE] on a stripped text, which ends in no newline. *)
Definition parse_reference (ref : string) : option reference :=
  match split_on "." (String.list_ascii_of_string ref) with
  | [w; i; name] =>
      if decide (w = String.list_ascii_of_string "workflow" ∧ i = String.list_ascii_of_string "inputs") then
        if word_ok name then Some (InputRef (String.string_of_list_ascii name)) else None
      else None
  | [s; step_id; o; field] =>
      if decide (s = String.list_ascii_of_string "steps" ∧ o = String.list_ascii_of_string "output") then
        if word_ok step_id && word_ok field
        then Some (StepRef (String.string_of_list_ascii step_id) (String.string_of_list_ascii field)) else None
      else None
  | _ => None
  end.

Definition WorkflowEngineError (what : string) : exn := ExternalError ("WorkflowEngineError: " +:+ what).

(** ** The scan *)

Definition open_brace : ascii := "{".
Definition close_brace : ascii := "}".
Definition is_brace (c : ascii) : bool := bool_decide (c = open_brace) || bool_decide (c = close_brace).

(** The text up to the next brace, and the rest. *)
Fixpoint braceless (s : list ascii) : list ascii * list ascii :=
  match s with
  | [] => ([], [])
  | c :: rest => if is_brace c then ([], s) else let '(b, rest) := braceless rest in (c :: b, rest)
  end.
(** [_PLACEHOLDER_RE] at the beginning of the text. *)
Definition placeholder (s : list ascii) : option (list ascii) :=
  match s with
  | c :: d :: rest =>
      if decide (c = open_brace ∧ d = open_brace) then
        match braceless rest with
        | ((_ :: _) as body, e :: f :: _) => if decide (e = close_brace ∧ f = close_brace) then Some body else None
        | _ => None
        end
      else None
  | _ => None
  end.

(** [_PLACEHOLDER_RE.sub(_resolve, template)]: [skip] bytes belong to the last match. *)
Fixpoint sub_placeholders (resolve : string → outcome string) (skip : nat) (s : list ascii) : outcome string :=
  match s with
  | [] => Returned ""
  | c :: rest =>
      match skip with
      | S skip => sub_placeholders resolve skip rest
      | O =>
          match placeholder s with
          | Some body =>
              match resolve (py_strip (String.string_of_list_ascii body)) with
              | Raised e => Raised e
              | Returned text =>
                  match sub_placeholders resolve (length body + 3) rest with
                  | Returned more => Returned (text +:+ more)
                  | Raised e => Raised e
                  end
              end
          | None =>
              match sub_placeholders resolve 0 rest with
              | Returned more => Returned (String c more)
              | Raised e => Raised e
              end
          end
      end
  end.

(** [_resolve], the inputs and the outputs of the steps being those of the run. *)
Definition resolve_reference (repr : json → string) (inputs : list (string * value))
    (output_of : string → option (list (string * json))) (ref : string) : outcome string :=
  match parse_reference ref with
  | Some (InputRef name) =>
      match lookup_in name inputs with
      | Some v => Returned (value_str repr v)
      | None => Raised (WorkflowEngineError ("template references unknown input '" +:+ name +:+ "' (reference '{{" +:+ ref +:+ "}}')"))
      end
  | Some (StepRef step_id field) =>
      match output_of step_id with
      | None => Raised (WorkflowEngineError ("template references step '" +:+ step_id +:+ "' output, but that step has produced no output (reference '{{" +:+ ref +:+ "}}')"))
      | Some members =>
          match lookup_in field members with
          | Some d => Returned (py_str repr d)
          | None => Raised (WorkflowEngineError ("template references field '" +:+ field +:+ "' not present in step '" +:+ step_id +:+ "' output (reference '{{" +:+ ref +:+ "}}')"))
          end
      end
  | None => Raised (WorkflowEngineError ("unsupported template reference '{{" +:+ ref +:+ "}}' (only {{workflow.inputs.<name>}} and {{steps.<id>.output.<field>}} are supported)"))
  end.
Definition _substitute (repr : json → string) (inputs : list (string * value))
    (output_of : string → option (list (string * json))) (template : string) : outcome string :=
  sub_placeholders (resolve_reference repr inputs output_of) 0 (String.list_ascii_of_string template).

(** ** What a template is: text and placeholders *)

Inductive segment :=
| Plain (text : list ascii)
| Hole (body : list ascii).
Definition seg_bytes (g : segment) : list ascii :=
  match g with Plain t => t | Hole b => [open_brace; open_brace] ++ b ++ [close_brace; close_brace] end.
Definition render (l : list segment) : list ascii := flat_map seg_bytes l.

Definition hole_ok (b : list ascii) : Prop := b ≠ [] ∧ forallb (λ c, negb (is_brace c)) b = true.
(** No placeholder anywhere in the text. *)
Definition plain (t : list ascii) : Prop :=
  ∀ before body after, hole_ok body → t ≠ before ++ seg_bytes (Hole body) ++ after.
(** Holes that are placeholders, text that has none, and no two texts in a row. *)
Fixpoint normal (l : list segment) : Prop :=
  match l with
  | [] => True
  | Plain t :: l => plain t ∧ (match l with Plain _ :: _ => False | _ => True end) ∧ normal l
  | Hole b :: l => hole_ok b ∧ normal l
  end.

(** The template with every hole filled, or the first hole that cannot be. *)
Fixpoint fill (resolve : string → outcome string) (l : list segment) : outcome string :=
  match l with
  | [] => Returned ""
  | g :: l =>
      match (match g with Plain t => Returned (String.string_of_list_ascii t)
                        | Hole b => resolve (py_strip (String.string_of_list_ascii b)) end) with
      | Raised e => Raised e
      | Returned text => match fill resolve l with Returned more => Returned (text +:+ more) | Raised e => Raised e end
      end
  end.

Lemma braceless_app b s : forallb (λ c, negb (is_brace c)) b = true →
  (match s with c :: _ => is_brace c = true | [] => True end) → braceless (b ++ s) = (b, s).
Proof.
  induction b as [|c b IH]; intros Hb Hs.
  - destruct s as [|c s]; [done|]. simpl. by rewrite Hs.
  - simpl in *. apply andb_true_iff in Hb as [Hc Hb]. apply negb_true_iff in Hc. by rewrite Hc, IH.
Qed.

Lemma braceless_spec s b rest : braceless s = (b, rest) → s = b ++ rest ∧ forallb (λ c, negb (is_brace c)) b = true.
Proof.
  revert b. induction s as [|c s IH]; intros b H; simpl in H.
  - by injection H as <- <-.
  - destruct (is_brace c) eqn:Hc; [by injection H as <- <-|]. destruct (braceless s) as [b' rest'] eqn:E.
    injection H as <- <-. destruct (IH b' eq_refl) as [-> Hb]. split; [done|]. simpl. by rewrite Hc.
Qed.

(** The scan finds a placeholder exactly where there is one. *)
Lemma placeholder_exact s b : placeholder s = Some b ↔ hole_ok b ∧ ∃ after, s = seg_bytes (Hole b) ++ after.
Proof.
  split.
  - destruct s as [|c [|d rest]]; try done. cbn [placeholder]. destruct (decide _) as [[-> ->]|]; [|done].
    destruct (braceless rest) as [[|x body] [|e [|f after]]] eqn:E; try done.
    destruct (decide _) as [[-> ->]|]; [|done]. intros [= <-]. apply braceless_spec in E as [-> Hb].
    split; [done|]. exists after. simpl. by rewrite <-app_assoc.
  - intros [[Hne Hb] [after ->]]. unfold placeholder. simpl.
    rewrite <-app_assoc, braceless_app by done. by destruct b.
Qed.

Lemma placeholder_none s : placeholder s = None ↔ ∀ b, hole_ok b → ∀ after, s ≠ seg_bytes (Hole b) ++ after.
Proof.
  split.
  - intros E b Hb after Hs. assert (placeholder s = Some b) as E' by (apply placeholder_exact; eauto). congruence.
  - intros H. destruct (placeholder s) as [b|] eqn:E; [|done]. apply placeholder_exact in E as [Hb [after Hs]].
    by destruct (H b Hb after).
Qed.

(** A text with no placeholder stays as it is, and nothing begins in it that a
    placeholder or the end of the template follows. *)
Lemma plain_tail c t : plain (c :: t) → plain t.
Proof. intros H before body after Hb ->. by apply (H (c :: before) body after). Qed.

Lemma braceless_open b x y : forallb (λ c, negb (is_brace c)) b = true → open_brace :: x = b ++ close_brace :: y → False.
Proof. destruct b as [|c b]; intros Hb E; [done|]. injection E as <- _. by apply andb_true_iff in Hb as [? _]. Qed.

Lemma no_hole_across c t next : plain (c :: t) →
  (match next with [] => True | _ => ∃ rest, next = open_brace :: open_brace :: rest end) →
  placeholder (c :: t ++ next) = None.
Proof.
  intros Ht Hnext. apply placeholder_none. intros b [Hne Hb] after E. destruct next as [|n next].
  { rewrite app_nil_r in E. by apply (Ht [] b after). }
  destruct Hnext as [rest [= -> ->]]. simpl in E. injection E as -> E.
  destruct t as [|d t]; simpl in E; [injection E as E; destruct b as [|x b]; [done|]|].
  { injection E as <- _. by apply andb_true_iff in Hb as [? _]. }
  injection E as -> E.
  destruct (app_eq_inv t (open_brace :: open_brace :: rest) (b ++ [close_brace; close_brace]) after)
    as [(k & E1 & E2)|(k & E1 & E2)].
  { rewrite E. by rewrite <-app_assoc. }
  - by apply (Ht [] b k); [split|rewrite E1; simpl; rewrite <-app_assoc].
  - destruct k as [|x k]; [by apply (Ht [] b []); [split|rewrite app_nil_r in E1 |- *; simpl; rewrite E1]|].
    injection E2 as <- E2. destruct (app_eq_inv b [close_brace; close_brace] t (open_brace :: k) E1)
      as [(k' & F1 & F2)|(k' & F1 & F2)].
    + rewrite F1 in Hb. rewrite forallb_app in Hb. apply andb_true_iff in Hb as [_ Hb].
      destruct k' as [|y k']; [discriminate|]. injection F2 as <- F2. by apply andb_true_iff in Hb as [? _].
    + by destruct k' as [|y [|z [|? ?]]]; injection F2; intros; try discriminate.
Qed.

(** ** What the scan does *)

Lemma sub_skip f a s : sub_placeholders f (length a) (a ++ s) = sub_placeholders f 0 s.
Proof. by induction a as [|c a IH]. Qed.

Lemma sub_hole f b s : hole_ok b →
  sub_placeholders f 0 (seg_bytes (Hole b) ++ s) =
  match f (py_strip (String.string_of_list_ascii b)) with
  | Raised e => Raised e
  | Returned text => match sub_placeholders f 0 s with Returned more => Returned (text +:+ more) | Raised e => Raised e end
  end.
Proof.
  intros Hb. assert (placeholder (seg_bytes (Hole b) ++ s) = Some b) as E by (apply placeholder_exact; eauto).
  cbn [seg_bytes app] in *. cbn [sub_placeholders]. rewrite E. destruct (f _) as [text|e]; [|done].
  assert (sub_placeholders f (length b + 3) (open_brace :: (b ++ [close_brace; close_brace]) ++ s)
          = sub_placeholders f 0 s) as Hs.
  { rewrite <-(sub_skip f (open_brace :: b ++ [close_brace; close_brace]) s). f_equal. simpl. rewrite length_app. simpl. lia. }
  simpl in Hs |- *. by rewrite Hs.
Qed.

Lemma sub_plain f t next : plain t →
  (match next with [] => True | _ => ∃ rest, next = open_brace :: open_brace :: rest end) →
  sub_placeholders f 0 (t ++ next) =
  match sub_placeholders f 0 next with
  | Returned more => Returned (String.string_of_list_ascii t +:+ more)
  | Raised e => Raised e
  end.
Proof.
  intros Ht Hnext. induction t as [|c t IH]; [simpl; by destruct (sub_placeholders f 0 next)|].
  cbn [app sub_placeholders]. rewrite no_hole_across by done. rewrite IH by (by eapply plain_tail).
  by destruct (sub_placeholders f 0 next).
Qed.

Lemma sub_fills f l : normal l → sub_placeholders f 0 (render l) = fill f l.
Proof.
  induction l as [|[t|b] l IH]; [done| |]; intros Hl.
  - destruct Hl as (Ht & Hnext & Hl). unfold render. cbn [flat_map]. fold (render l). cbn [seg_bytes].
    rewrite sub_plain; [|done|].
    + by rewrite IH.
    + destruct l as [|[|b] l]; [done|done|]. destruct Hl as [[Hb _] _]. simpl. eauto.
  - destruct Hl as [Hb Hl]. unfold render. cbn [flat_map]. fold (render l). rewrite sub_hole by done. by rewrite IH.
Qed.

(** Every template is text and placeholders. *)
Lemma plain_nil : plain [].
Proof. intros before b after _ E. by destruct before. Qed.

Lemma plain_cons c t next : plain t → placeholder (c :: t ++ next) = None → plain (c :: t).
Proof.
  intros Ht Hn before b after Hb E. destruct before as [|d before].
  - rewrite placeholder_none in Hn. apply (Hn b Hb (after ++ next)).
    rewrite app_assoc. by rewrite <-(app_nil_l (_ ++ after)), <-E.
  - injection E as -> E. by apply (Ht before b after).
Qed.

Lemma templates_parse s : ∃ l, normal l ∧ render l = s.
Proof.
  remember (length s) as n eqn:En. revert s En. induction (Nat.lt_wf_0 n) as [n _ IH]. intros s ->.
  destruct (placeholder s) as [b|] eqn:Hp.
  - apply placeholder_exact in Hp as [Hb [after ->]].
    destruct (IH (length after)) with (s := after) as (l & Hl & <-); [rewrite length_app; simpl; lia|done|].
    by exists (Hole b :: l).
  - destruct s as [|c s]; [by exists []|].
    destruct (IH (length s)) with (s := s) as (l & Hl & <-); [simpl; lia|done|].
    destruct l as [|[t|b] l].
    + exists [Plain [c]]. split; [|done]. split; [|done]. by apply (plain_cons c [] []), Hp; apply plain_nil.
    + exists (Plain (c :: t) :: l). split; [|done]. destruct Hl as (Ht & Hnext & Hl). split; [|done].
      by apply (plain_cons c t (render l)).
    + exists (Plain [c] :: Hole b :: l). split; [|done]. split; [|done].
      by apply (plain_cons c [] (render (Hole b :: l))), Hp; apply plain_nil.
Qed.

(** [C35] a prompt is its template, every placeholder filled once and what fills it
    taken as it is, or the error of the first one that cannot be filled; every
    template is text and placeholders in one such way. *)
Theorem substitution_is_single_pass repr inputs output_of template :
  (∃ l, normal l ∧ render l = String.list_ascii_of_string template) ∧
  (∀ l, normal l → render l = String.list_ascii_of_string template →
   _substitute repr inputs output_of template = fill (resolve_reference repr inputs output_of) l).
Proof.
  split; [apply templates_parse|]. intros l Hl E. unfold _substitute. rewrite <-E. by apply sub_fills.
Qed.

Example substitute_samples :
  let inputs := [("who", VStr "{{workflow.inputs.who}}"); ("n", VInt (-7))]%string in
  let output_of s := if decide (s = "a"%string) then Some [("x", JStr "1"); ("ok", JBool true)]%string else None in
  _substitute (λ _, "") inputs output_of <$>
    ["{{{ workflow.inputs.who }}} {{workflow.inputs.n}}"; "{{steps.a.output.x}}{{steps.a.output.ok}}{}{{}}"]%string
  = [Returned "{{{workflow.inputs.who}}} -7"; Returned "1True{}{{}}"]%string ∧
  (λ t, bool_decide (is_Some (match _substitute (λ _, "") inputs output_of t with Raised e => Some e | Returned _ => None end))) <$>
    ["{{ }}"; "{{workflow.inputs.zz}}"; "{{steps.b.output.x}}"; "{{steps.a.output.y}}"; "{{steps.a.output.x.y}}"]%string
  = [true; true; true; true; true].
Proof. vm_compute. split; reflexivity. Qed.
