(* ===== verification/Plans.v ===== *)
(** * Execution plans — [services/plan_identifier.py], [services/manifest_freeze.py],
    [services/approval_store.py], [services/approval_gate.py]

    Which plan a script run executes, and whether it may.  Inputs are Python values as
    [json.loads] makes them; a finite float is the dyadic number it is, and what
    [json.dumps] writes for it is an argument.  The baseline of the repository is an
    argument too. *)

From stdpp Require Import gmap.
From S2P Require Import Prelude Text Sha256 Chars Secrets Envelope Template Json Manifest.

(** ** Python values *)

(** [Finite m e] is [m * 2^e]. *)
Inductive float := Finite (m e : Z) | Infinite (negative : bool) | NotANumber.
Inductive node :=
| NNone
| NBool (b : bool)
| NInt (z : Z)
| NFloat (f : float)
| NStr (s : string)
| NList (l : list node)
| NDict (l : list (string * node)).

(** The number as a fraction, and [f"{value:.6f}"]: the sixth decimal is rounded half
    to even. *)
Definition numerator (m e : Z) : Z := m * 2 ^ Z.max 0 e.
Definition denominator (e : Z) : Z := 2 ^ Z.max 0 (- e).
Definition round_half_even (n d : Z) : Z :=
  let q := n / d in let r := n mod d in
  if 2 * r <? d then q else if d <? 2 * r then q + 1 else if Z.even q then q else q + 1.
Definition _NUMBER_PRECISION : nat := 6.
Definition fixed (m e : Z) : string :=
  let unit := 10 ^ Z.of_nat _NUMBER_PRECISION in
  let q := round_half_even (Z.abs (numerator m e) * unit) (denominator e) in
  (if m <? 0 then "-" else "") +:+ pretty (q / unit) +:+ "." +:+ zero_padded _NUMBER_PRECISION (q mod unit).
Definition is_integer (m e : Z) : bool := numerator m e mod denominator e =? 0.

(** ** Plan identifiers — [plan_identifier.py] *)

Definition PLAN_SCHEME_PREFIX : string := "plan-v1:".
Definition _NOT_SUPPLIED : string := String (ascii_of_nat 1) "not-supplied".
Definition _FRAME_SEP : ascii := ":".

Record PlanFields := {
  pf_source_hash : option string;
  pf_inputs : node;
  pf_repo_baseline : node;
  pf_provider : option string;
  pf_model : option string;
  pf_profile : option string;
  pf_permissions : node;
  pf_limits : node;
  pf_retry_policy : node;
}.
Definition _text (value : option string) : string := match value with None => _NOT_SUPPLIED | Some s => s end.
(** What [_number] makes of a leaf, as the document it is written as. *)
Definition _number (value : node) : json :=
  match value with
  | NNone => JNull
  | NBool b => JBool b
  | NInt z => JStr (pretty z)
  | NFloat (Finite m e) => JStr (if is_integer m e then pretty (numerator m e / denominator e) else fixed m e)
  | NFloat (Infinite negative) => JStr (if negative then "-inf" else "inf")
  | NFloat NotANumber => JStr "nan"
  | NStr s => JStr s
  | NList _ | NDict _ => JNull
  end.
Fixpoint _canonicalise (n : node) : json :=
  match n with
  | NDict l => JObj ((λ kv, (kv.1, _canonicalise kv.2)) <$> l)
  | NList l => JArr (_canonicalise <$> l)
  | leaf => _number leaf
  end.

(** [sort_keys=True] *)
Definition key_le {A} (a b : string * A) : Prop := String.leb a.1 b.1 = true.
#[export] Instance key_le_dec {A} (a b : string * A) : Decision (key_le a b). Proof. unfold key_le. apply _. Defined.
Fixpoint sort_keys (d : json) : json :=
  match d with
  | JArr l => JArr (sort_keys <$> l)
  | JObj l => JObj (merge_sort key_le ((λ kv, (kv.1, sort_keys kv.2)) <$> l))
  | _ => d
  end.
Definition _structure (value : node) : string := dumps_compact (sort_keys (_canonicalise value)).
Definition _frame (component : string) : string :=
  pretty (Z.of_nat (String.length component)) +:+ String _FRAME_SEP component.
Definition plan_components (f : PlanFields) : list string :=
  [_text (pf_source_hash f); _structure (pf_inputs f); _structure (pf_repo_baseline f); _text (pf_provider f); _text (pf_model f);
   _text (pf_profile f); _structure (pf_permissions f); _structure (pf_limits f); _structure (pf_retry_policy f)].
Definition framed (f : PlanFields) : string := concat_text (_frame <$> plan_components f).
Definition compute (fields : PlanFields) : string := PLAN_SCHEME_PREFIX +:+ sha256_hex (framed fields).

Inductive plan_scheme := plan_v1 | unknown | absent.
Definition scheme_of (stored : option string) : plan_scheme :=
  match stored with
  | None => absent
  | Some s => if decide (s = "") then absent else if startswith s PLAN_SCHEME_PREFIX then plan_v1 else unknown
  end%string.

(** ** Freezing — [manifest_freeze.py] *)

Section Freeze.
(** What [json.dumps] writes for a finite float. *)
Context (float_repr : Z → Z → string).
Fixpoint document_of (n : node) : json :=
  match n with
  | NNone => JNull
  | NBool b => JBool b
  | NInt z => JNum (pretty z)
  | NFloat (Finite m e) => JNum (float_repr m e)
  | NFloat (Infinite negative) => JNum (if negative then "-Infinity" else "Infinity")
  | NFloat NotANumber => JNum "NaN"
  | NStr s => JStr s
  | NList l => JArr (document_of <$> l)
  | NDict l => JObj ((λ kv, (kv.1, document_of kv.2)) <$> l)
  end.
Definition OMITTED_FIELDS_NOTE : string :=
  "provider, model, profile, permissions, limits and retry_policy are omitted: they have no run-level source in the script tier (each is a per-step argument to step()). They are covered transitively by source_hash, because the script's own source chooses them.".
Definition frozen_fields (source_hash : string) (inputs baseline : node) : PlanFields := {|
  pf_source_hash := Some source_hash; pf_inputs := inputs; pf_repo_baseline := baseline; pf_provider := None; pf_model := None;
  pf_profile := None; pf_permissions := NNone; pf_limits := NNone; pf_retry_policy := NNone |}.
(** [baseline]: what [derive_baseline] returns, and whether it says it is available. *)
Definition build_manifest_json (source_hash : string) (inputs baseline : node) (available : bool) : option string :=
  if available then
    let plan_id := compute (frozen_fields source_hash inputs baseline) in
    envelope ← build {|
      mf_plan_id := plan_id; mf_source_hash := source_hash; mf_inputs := document_of inputs; mf_repo_baseline := document_of baseline;
      mf_provider := None; mf_model := None; mf_profile := None; mf_permissions := None; mf_limits := None; mf_retry_policy := None;
      mf_notes := OMITTED_FIELDS_NOTE; mf_memory_content := ""; mf_memory_source := "" |};
    Some (serialise envelope)
  else None.
End Freeze.

(** ** Approvals — [approval_store.py] *)

Record PlanApproval := { pa_plan_id : string; pa_approved_at : string; pa_approved_by : string }.
(** The rows of [workflow_plan_approval]; [plan_id] is its primary key. *)
Abbreviation approvals := (gmap string PlanApproval).
(** [INSERT OR IGNORE] *)
Definition grant (plan_id now approved_by : string) (t : approvals) : approvals :=
  match t !! plan_id with
  | Some _ => t
  | None => <[plan_id := {| pa_plan_id := plan_id; pa_approved_at := now; pa_approved_by := approved_by |}]> t
  end.
(** [up]: the database answers. *)
Definition is_approved (up : bool) (plan_id : string) (t : approvals) : bool := up && bool_decide (is_Some (t !! plan_id)).
Definition get_approval (up : bool) (plan_id : string) (t : approvals) : option PlanApproval := if up then t !! plan_id else None.

(** The route that approves: what it answers, and the rows after it. *)
Inductive approval_answer := BadRequest | NotRecorded | Approved (changed : bool) (row : PlanApproval).
Definition approve_workflow_plan (up_read up_write up_back : bool) (plan_id now local_account : string) (t : approvals)
    : approvals * approval_answer :=
  if bool_decide (py_strip plan_id = "") then (t, BadRequest) else
  match get_approval up_read plan_id t with
  | Some existing => (t, Approved false existing)
  | None =>
      if up_write then
        let t := grant plan_id now local_account t in
        match get_approval up_back plan_id t with Some recorded => (t, Approved true recorded) | None => (t, NotRecorded) end
      else (t, NotRecorded)
  end%string.

(** ** The gate — [approval_gate.py] *)

Definition SCRIPT_TIER : string := "script".
Definition plan_id_from_manifest (manifest_json : option string) : option string :=
  match manifest_json with
  | None => None
  | Some text =>
      if decide (text = "") then None else
      match loads text with
      | Some (JObj l) =>
          match lookup_key "plan_id" l with Some (JStr s) => if decide (s = "") then None else Some s | _ => None end
      | _ => None
      end
  end%string.
Inductive admission := Admitted_run | PlanApprovalRequiredError (plan_id : option string).
Definition ensure_plan_approved (required up : bool) (t : approvals) (tier : string) (manifest_json : option string) : admission :=
  if negb (bool_decide (tier = SCRIPT_TIER)) then Admitted_run
  else if negb required then Admitted_run
  else match plan_id_from_manifest manifest_json with
       | None => PlanApprovalRequiredError None
       | Some plan_id => if is_approved up plan_id t then Admitted_run else PlanApprovalRequiredError (Some plan_id)
       end.

(** ** Framing *)

Lemma append_same_length (a b s t : string) : String.length a = String.length b → a +:+ s = b +:+ t → a = b ∧ s = t.
Proof.
  revert b. induction a as [|x a IH]; intros [|y b] Hl; try done. rewrite !append_cons. intros [= -> H].
  destruct (IH b) as [-> ->]; [by injection Hl|done|done].
Qed.
Lemma length_digits (n : nat) : no_char _FRAME_SEP (pretty (Z.of_nat n) : string).
Proof. apply pretty_Z_no_char; [done|]. intros d. unfold pretty_N_char. by repeat case_match. Qed.
Lemma frame_cut a b s t : _frame a +:+ s = _frame b +:+ t → a = b ∧ s = t.
Proof.
  unfold _frame. rewrite <-!string_app_assoc, !append_cons. intros H. apply split_at_char in H as [Hn H]; [|apply length_digits..].
  apply (inj pretty) in Hn. apply append_same_length; [lia|done].
Qed.
Lemma frames_injective l1 l2 : length l1 = length l2 → concat_text (_frame <$> l1) = concat_text (_frame <$> l2) → l1 = l2.
Proof.
  revert l2. induction l1 as [|a l1 IH]; intros [|b l2] Hl; try done. rewrite !fmap_cons, !concat_cons.
  intros [-> H]%frame_cut. f_equal. apply IH; [by injection Hl|done].
Qed.

(** ** Documents up to the order of their keys *)

Inductive reordered : json → json → Prop :=
| re_same d : reordered d d
| re_arr l l' : Forall2 reordered l l' → reordered (JArr l) (JArr l')
| re_obj l m l' : l ≡ₚ m → Forall2 (λ a b, a.1 = b.1 ∧ reordered a.2 b.2) m l' → reordered (JObj l) (JObj l').

#[local] Instance key_le_total {A} : Total (@key_le A).
Proof. intros a b. unfold key_le. destruct (String.leb_total a.1 b.1); auto. Qed.
#[local] Instance key_le_trans {A} : Transitive (@key_le A).
Proof. intros a b c. apply string_leb_trans. Qed.
Definition sort_member (kv : string * json) : string * json := (kv.1, sort_keys kv.2).
Lemma sort_obj l : sort_keys (JObj l) = JObj (merge_sort key_le (sort_member <$> l)).
Proof. reflexivity. Qed.
Lemma sort_arr l : sort_keys (JArr l) = JArr (sort_keys <$> l).
Proof. reflexivity. Qed.
Lemma sorted_members_unique {A} (l l' : list (string * A)) : NoDup l.*1 → l ≡ₚ l' → merge_sort key_le l = merge_sort key_le l'.
Proof.
  intros Hn Hp. apply (Sorted_unique_strong key_le); [|apply Sorted_merge_sort, _..|by rewrite !merge_sort_Permutation].
  intros [k x] [k' y]. rewrite !merge_sort_Permutation, <-Hp. intros Hx Hy H1 H2. assert (k = k') as <- by by apply String.leb_antisym.
  f_equal. apply (elem_of_list_to_map_1 (M := gmap string)) in Hx, Hy; [congruence|done..].
Qed.

Lemma map_related {A B} (f : A → B) (R : A → A → Prop) l l' :
  Forall (λ x, ∀ y, f x = f y → R x y) l → f <$> l = f <$> l' → Forall2 R l l'.
Proof.
  intros H. revert l'. induction H as [|x l Hx _ IH]; intros [|y l'] E; try done. rewrite !fmap_cons in E. injection E as E1 E2.
  constructor; auto.
Qed.
Lemma related_map {A B} (f : A → B) (R : A → A → Prop) l l' :
  Forall (λ x, ∀ y, R x y → f x = f y) l → Forall2 R l l' → f <$> l = f <$> l'.
Proof. intros H E. induction E as [|x y l l' Hr _ IH]; [done|]. apply Forall_cons in H as [Hx H]. rewrite !fmap_cons. f_equal; auto. Qed.

Lemma same_sorted a : ∀ b, sort_keys a = sort_keys b → reordered a b.
Proof.
  induction a as [|?|?|?|l IH|l IH] using json_nested; intros d H; try by (destruct d; try done; first [apply re_same|injection H as ->; apply re_same]).
  - destruct d as [| | | |l'|]; try done. rewrite !sort_arr in H. injection H as H. by apply re_arr, (map_related sort_keys).
  - destruct d as [| | | | |l']; try done. rewrite !sort_obj in H. injection H as H.
    assert (sort_member <$> l' ≡ₚ sort_member <$> l) as Hp
      by (rewrite <-(merge_sort_Permutation key_le (sort_member <$> l')), <-H; apply merge_sort_Permutation).
    apply Permutation_map_inv in Hp as (m & Hm & Hl). apply (re_obj l m l' Hl), (map_related sort_member); [|done].
    rewrite Forall_fmap in IH. rewrite Hl in IH. eapply Forall_impl; [exact IH|]. intros [k x] Hx [k' y] [= -> E]. auto.
Qed.
Lemma sorted_same a : ∀ b, plain a → reordered a b → sort_keys a = sort_keys b.
Proof.
  induction a as [|?|?|?|l IH|l IH] using json_nested; intros d Ha Hr; inversion Hr as [|? l' Hl'|? m l' Hm Hl']; subst; try done.
  - inversion Ha as [| | | |? Hl|]; subst. rewrite !sort_arr. f_equal. apply (related_map _ reordered); [|done].
    rewrite Forall_forall in *. naive_solver.
  - inversion Ha as [| | | | |? Hn _ Hv]; subst. rewrite !sort_obj. f_equal.
    rewrite Forall_fmap in IH, Hv. rewrite Hm in IH, Hv. transitivity (merge_sort key_le (sort_member <$> m)).
    + apply sorted_members_unique; [by rewrite <-list_fmap_compose|by rewrite Hm].
    + f_equal. eapply related_map; [|exact Hl']. rewrite Forall_forall in *. intros [k x] Hin [k' y] [Hk Hxy]. simpl in *. subst k'.
      unfold sort_member. simpl. f_equal. eapply (IH (k, x)); [done|by apply (Hv (k, x))|done].
Qed.
Lemma sorted_plain d : plain d → plain (sort_keys d).
Proof.
  induction d as [| | | |l IH|l IH] using json_nested; intros Hd; inversion Hd as [| | |? Hs|? Hl|? Hn Hk Hv]; subst; try done.
  - rewrite sort_arr. constructor. apply Forall_fmap. rewrite Forall_forall in *. naive_solver.
  - rewrite sort_obj. rewrite Forall_fmap in IH. constructor.
    + by rewrite merge_sort_Permutation, <-list_fmap_compose.
    + by rewrite merge_sort_Permutation, <-list_fmap_compose.
    + rewrite merge_sort_Permutation, <-list_fmap_compose. apply Forall_fmap. rewrite Forall_fmap in Hv. rewrite Forall_forall in *.
      intros kv Hin. simpl. naive_solver.
Qed.

(** ** What a plan identifier identifies *)

(** The value of a number, as precise as it is hashed: a whole number, or the nearest
    number of millionths with its sign, or none of these. *)
Inductive number := Whole (z : Z) | Millionths (negative : bool) (q : Z) | Unbounded (negative : bool) | NoNumber.
(** [q] millionths are nearest to [n / d]; of two that are, the even one. *)
Definition nearest (n d q : Z) : Prop :=
  2 * Z.abs (n * 1000000 - q * d) <= d ∧ (2 * Z.abs (n * 1000000 - q * d) = d → Z.even q = true).
Inductive valued : node → number → Prop :=
| va_int z : valued (NInt z) (Whole z)
| va_whole m e z : numerator m e = z * denominator e → valued (NFloat (Finite m e)) (Whole z)
| va_fraction m e q : (∀ z, numerator m e ≠ z * denominator e) → nearest (Z.abs (numerator m e)) (denominator e) q →
    valued (NFloat (Finite m e)) (Millionths (m <? 0) q)
| va_infinite b : valued (NFloat (Infinite b)) (Unbounded b)
| va_nan : valued (NFloat NotANumber) NoNumber.
(** The text that spells a number. *)
Definition numeral (v : number) : string :=
  match v with
  | Whole z => pretty z
  | Millionths negative q => (if negative then "-" else "") +:+ pretty (q / 1000000) +:+ "." +:+ zero_padded 6 (q mod 1000000)
  | Unbounded negative => if negative then "-inf" else "inf"
  | NoNumber => "nan"
  end.

(** Python values that are one for a plan: up to the order of the keys of a dictionary,
    numbers of one value, and a number and the text that spells it. *)
Inductive same_value : node → node → Prop :=
| sv_none : same_value NNone NNone
| sv_bool b : same_value (NBool b) (NBool b)
| sv_text s : same_value (NStr s) (NStr s)
| sv_number a b v : valued a v → valued b v → same_value a b
| sv_spelt a v : valued a v → same_value a (NStr (numeral v))
| sv_spells b v : valued b v → same_value (NStr (numeral v)) b
| sv_list l l' : Forall2 same_value l l' → same_value (NList l) (NList l')
| sv_dict l m l' : l ≡ₚ m → Forall2 (λ a b, a.1 = b.1 ∧ same_value a.2 b.2) m l' → same_value (NDict l) (NDict l').
(** Texts that are one: equal ones, and no text and the marker of it. *)
Definition same_text (a b : option string) : Prop :=
  a = b ∨ (a = None ∧ b = Some _NOT_SUPPLIED) ∨ (a = Some _NOT_SUPPLIED ∧ b = None).

Definition structures (f : PlanFields) : list node := [pf_inputs f; pf_repo_baseline f; pf_permissions f; pf_limits f; pf_retry_policy f].
Definition texts (f : PlanFields) : list (option string) := [pf_source_hash f; pf_provider f; pf_model f; pf_profile f].
Definition same_plan (a b : PlanFields) : Prop := Forall2 same_text (texts a) (texts b) ∧ Forall2 same_value (structures a) (structures b).
(** What the loader gives: texts without surrogates, no key twice in a dictionary. *)
Definition loaded (n : node) : Prop := plain (_canonicalise n).

(** *** Numbers *)

Lemma denominator_pos e : 0 < denominator e.
Proof. unfold denominator. apply Z.pow_pos_nonneg; lia. Qed.
Lemma nearest_round n d q : 0 < d → nearest n d q → q = round_half_even (n * 1000000) d.
Proof.
  intros Hd [H1 H2]. unfold round_half_even. pose proof (Z.div_mod (n * 1000000) d ltac:(lia)) as E.
  pose proof (Z.mod_pos_bound (n * 1000000) d Hd) as Hr.
  set (k := n * 1000000 / d) in *. set (r := (n * 1000000) mod d) in *. rewrite E in H1, H2. clearbody k r.
  replace (d * k + r - q * d) with (d * (k - q) + r) in * by lia.
  assert (q = k ∨ q = k + 1) as [-> | ->] by nia.
  - replace (d * (k - k) + r) with r in * by lia. rewrite Z.abs_eq in * by lia.
    destruct (Z.ltb_spec (2 * r) d); [done|]. rewrite (proj2 (Z.ltb_ge d (2 * r))) by lia. by rewrite H2 by lia.
  - replace (d * (k - (k + 1)) + r) with (r - d) in * by lia. rewrite Z.abs_neq in * by lia.
    rewrite (proj2 (Z.ltb_ge (2 * r) d)) by lia. destruct (Z.ltb_spec d (2 * r)); [done|].
    replace (Z.even k) with false; [done|]. specialize (H2 ltac:(lia)). rewrite Z.add_1_r, Z.even_succ in H2.
    by rewrite <-Z.negb_odd, H2.
Qed.
Lemma round_nearest n d : 0 < d → nearest n d (round_half_even (n * 1000000) d).
Proof.
  intros Hd. unfold nearest, round_half_even. pose proof (Z.div_mod (n * 1000000) d ltac:(lia)) as E.
  pose proof (Z.mod_pos_bound (n * 1000000) d Hd) as Hr.
  set (k := n * 1000000 / d) in *. set (r := (n * 1000000) mod d) in *. rewrite E. clearbody k r. clear E.
  replace (d * k + r - k * d) with r by lia. replace (d * k + r - (k + 1) * d) with (r - d) by lia.
  destruct (Z.ltb_spec (2 * r) d).
  { replace (d * k + r - k * d) with r by lia. rewrite Z.abs_eq by lia. split; lia. }
  destruct (Z.ltb_spec d (2 * r)).
  { replace (d * k + r - (k + 1) * d) with (r - d) by lia. rewrite Z.abs_neq by lia. split; lia. }
  destruct (Z.even k) eqn:Hk.
  - replace (d * k + r - k * d) with r by lia. rewrite Z.abs_eq by lia. split; [lia|done].
  - replace (d * k + r - (k + 1) * d) with (r - d) by lia. rewrite Z.abs_neq by lia. split; [lia|].
    intros _. rewrite Z.add_1_r, Z.even_succ, <-Z.negb_even. by rewrite Hk.
Qed.
Lemma nearest_nonneg n d q : 0 < d → 0 <= n → nearest n d q → 0 <= q.
Proof. intros Hd Hn [H _]. nia. Qed.

Lemma whole_spec m e : is_integer m e = true ↔ ∃ z, numerator m e = z * denominator e.
Proof.
  unfold is_integer. pose proof (denominator_pos e). rewrite Z.eqb_eq, Z.mod_divide by lia. done.
Qed.
Lemma valued_spelt n v : valued n v → _canonicalise n = JStr (numeral v).
Proof.
  intros H. destruct H as [z|m e z Hz|m e q Hz Hq|b|]; [done| | |by destruct b|done]; pose proof (denominator_pos e) as Hd; simpl.
  - rewrite (proj2 (whole_spec m e)) by by exists z. rewrite Hz, Z.div_mul by lia. done.
  - destruct (is_integer m e) eqn:Hi; [apply whole_spec in Hi as [z Hi]; by destruct (Hz z)|].
    unfold fixed. change (10 ^ Z.of_nat _NUMBER_PRECISION) with 1000000. by rewrite <-(nearest_round _ _ q Hd Hq).
Qed.
Lemma int_valued z : ∃ v, valued (NInt z) v.
Proof. eexists. constructor. Qed.
Lemma float_valued f : ∃ v, valued (NFloat f) v.
Proof.
  destruct f as [m e|b|]; [|by eexists; constructor..]. destruct (is_integer m e) eqn:Hi.
  - apply whole_spec in Hi as [z Hz]. eexists. by apply va_whole.
  - eexists. apply va_fraction; [|apply round_nearest, denominator_pos]. intros z Hz.
    rewrite (proj2 (whole_spec m e)) in Hi by by exists z. done.
Qed.

Definition sensible (v : number) : Prop := match v with Millionths _ q => 0 <= q | _ => True end.
Lemma valued_sensible n v : valued n v → sensible v.
Proof. intros [| |m e q _ Hq| |]; try done. simpl. eapply nearest_nonneg; [apply denominator_pos| |exact Hq]. lia. Qed.

Lemma pretty_no_sign (z : Z) s t : 0 <= z → pretty z +:+ "." +:+ s ≠ "-" +:+ t.
Proof.
  intros Hz H. assert (no_char "-" (pretty z : string)) as Hn.
  { replace (pretty z : string) with (pretty (Z.to_N z) : string) by by destruct z.
    apply pretty_N_no_char. intros d. unfold pretty_N_char. by repeat case_match. }
  destruct (pretty z) as [|c r]; [done|]. rewrite !append_cons in H. injection H as ->. by destruct Hn.
Qed.
Lemma pretty_no_dot (z : Z) : no_char "." (pretty z : string).
Proof. apply pretty_Z_no_char; [done|]. intros d. unfold pretty_N_char. by repeat case_match. Qed.
Lemma pretty_no_n (z : Z) : no_char "n" (pretty z : string).
Proof. apply pretty_Z_no_char; [done|]. intros d. unfold pretty_N_char. by repeat case_match. Qed.

(** A text of millionths, cut at its point. *)
Definition signed (b : bool) : string := if b then "-" else "".
Lemma millionths_inj b c q r : 0 <= q → 0 <= r → numeral (Millionths b q) = numeral (Millionths c r) → b = c ∧ q = r.
Proof.
  intros Hq Hr H. simpl in H.
  assert (∀ x, 0 <= x → 0 <= x / 1000000) as Hx by (intros x ?; by apply Z.div_pos).
  assert (b = c) as <-.
  { destruct b, c; try done; exfalso; rewrite append_nil in H; [symmetry in H|];
      apply (pretty_no_sign _ _ _ (Hx _ Hq)) in H || apply (pretty_no_sign _ _ _ (Hx _ Hr)) in H; done. }
  split; [done|]. assert (pretty (q / 1000000) +:+ "." +:+ zero_padded 6 (q mod 1000000)
    = pretty (r / 1000000) +:+ "." +:+ zero_padded 6 (r mod 1000000)) as H'.
  { destruct b; [|exact H]. rewrite !append_cons in H. by injection H. }
  rewrite !append_cons, !append_nil in H'. apply split_at_char in H' as [H1%(inj pretty) H2]; [|apply pretty_no_dot..].
  apply zero_padded_inj in H2; [|by apply Z.mod_pos_bound..].
  rewrite (Z.div_mod q 1000000), (Z.div_mod r 1000000) by lia. by rewrite H1, H2.
Qed.
Lemma no_char_middle c s t : ¬ no_char c (s +:+ String c t).
Proof. intros [_ [H _]]%no_char_app. done. Qed.
Lemma millionths_dot b q : ¬ no_char "." (numeral (Millionths b q)).
Proof. simpl. rewrite string_app_assoc, append_cons, append_nil. apply no_char_middle. Qed.
Lemma numeral_inj v w : sensible v → sensible w → numeral v = numeral w → v = w.
Proof.
  intros Hv Hw H. assert (∀ b q x, numeral (Millionths b q) = x → no_char "." x → False) as Hdot
    by (intros b q x <- Hn; exact (millionths_dot b q Hn)).
  assert (∀ z, numeral (Whole z) ≠ "inf"%string ∧ numeral (Whole z) ≠ "-inf"%string ∧ numeral (Whole z) ≠ "nan"%string) as Hword.
  { intros z. pose proof (pretty_no_n z) as Hn. split_and!; intros E; simpl in E; rewrite E in Hn; naive_solver. }
  destruct v as [z|b q|b|], w as [z'|c r|c|]; try done.
  - f_equal. by apply (inj pretty).
  - exfalso. symmetry in H. by eapply Hdot, pretty_no_dot.
  - exfalso. destruct (Hword z) as (? & ? & ?). by destruct c.
  - exfalso. by destruct (Hword z) as (? & ? & ?).
  - exfalso. by eapply Hdot, pretty_no_dot.
  - by destruct (millionths_inj b c q r Hv Hw H) as [-> ->].
  - exfalso. eapply Hdot; [exact H|]. by destruct c; repeat split.
  - exfalso. eapply Hdot; [exact H|]. by repeat split.
  - exfalso. symmetry in H. destruct (Hword z') as (? & ? & ?). by destruct b.
  - exfalso. symmetry in H. eapply Hdot; [exact H|]. by destruct b; repeat split.
  - by destruct b, c.
  - by destruct b.
  - exfalso. symmetry in H. by destruct (Hword z') as (? & ? & ?).
  - exfalso. symmetry in H. eapply Hdot; [exact H|]. by repeat split.
  - by destruct c.
Qed.

(** *** Structures *)

Lemma node_nested (P : node → Prop) :
  P NNone → (∀ b, P (NBool b)) → (∀ z, P (NInt z)) → (∀ f, P (NFloat f)) → (∀ s, P (NStr s)) →
  (∀ l, Forall P l → P (NList l)) → (∀ l, Forall P l.*2 → P (NDict l)) → ∀ n, P n.
Proof.
  intros Hn Hb Hi Hf Hs Ha Ho. fix IH 1. intros [|b|z|f|s|l|l]; [done|done|done|done|done| |].
  - apply Ha. induction l as [|v l IHl]; [constructor|constructor; [apply IH|exact IHl]].
  - apply Ho. induction l as [|[k v] l IHl]; [constructor|constructor; [apply IH|exact IHl]].
Qed.
Lemma reordered_arr l l' : reordered (JArr l) (JArr l') ↔ Forall2 reordered l l'.
Proof.
  split; [|apply re_arr]. intros H. inversion H as [|? ? H'|]; subst; [|done].
  induction l' as [|x l' IH]; constructor; [apply re_same|]. apply IH. apply re_same.
Qed.
Definition same_member (a b : string * json) : Prop := a.1 = b.1 ∧ reordered a.2 b.2.
Lemma reordered_obj l l' : reordered (JObj l) (JObj l') ↔ ∃ m, l ≡ₚ m ∧ Forall2 same_member m l'.
Proof.
  split; [|intros (m & ? & ?); by apply (re_obj l m)]. intros H. inversion H as [| |? m ? Hm H']; subst; [|by exists m].
  exists l'. split; [done|]. clear. induction l' as [|x l' IH]; constructor; [split; [done|apply re_same]|done].
Qed.
Definition canonical_member (kv : string * node) : string * json := (kv.1, _canonicalise kv.2).
Lemma canonical_list l : _canonicalise (NList l) = JArr (_canonicalise <$> l).
Proof. reflexivity. Qed.
Lemma canonical_dict l : _canonicalise (NDict l) = JObj (canonical_member <$> l).
Proof. reflexivity. Qed.

(** A value that is no container is a number, or stands for itself. *)
Lemma spelt_by n s : reordered (_canonicalise n) (JStr s) ∨ reordered (JStr s) (_canonicalise n) →
  n = NStr s ∨ ∃ v, valued n v ∧ s = numeral v.
Proof.
  intros H. assert (_canonicalise n = JStr s) as E by (destruct H as [H|H]; by inversion H). clear H.
  destruct n as [|b|z|f|t|l|l]; try done; [right|right|left].
  - destruct (int_valued z) as [v Hv]. exists v. split; [done|]. rewrite (valued_spelt _ _ Hv) in E. by injection E.
  - destruct (float_valued f) as [v Hv]. exists v. split; [done|]. rewrite (valued_spelt _ _ Hv) in E. by injection E.
  - simpl in E. by injection E as ->.
Qed.
Lemma number_reordered a v b : valued a v → reordered (_canonicalise a) (_canonicalise b) → same_value a b.
Proof.
  intros Ha H. rewrite (valued_spelt a v Ha) in H. destruct (spelt_by b _ (or_intror H)) as [->|(w & Hb & E)]; [by apply sv_spelt|].
  apply numeral_inj in E as <-; [by eapply sv_number|by eapply valued_sensible..].
Qed.
Lemma reordered_value a : ∀ b, reordered (_canonicalise a) (_canonicalise b) → same_value a b.
Proof.
  induction a as [|x|z|f|s|l IH|l IH] using node_nested; intros b H.
  - assert (_canonicalise b = JNull) as E by by inversion H. destruct b as [| | |[]| | |]; try done. constructor.
  - assert (_canonicalise b = JBool x) as E by by inversion H. destruct b as [| | |[]| | |]; try done. injection E as ->. constructor.
  - destruct (int_valued z) as [v Hv]. by eapply number_reordered.
  - destruct (float_valued f) as [v Hv]. by eapply number_reordered.
  - destruct (spelt_by b s (or_intror H)) as [->|(v & Hv & ->)]; by constructor.
  - destruct b as [| | |[]| |l'|l']; try by inversion H. rewrite !canonical_list in H. apply reordered_arr in H.
    apply sv_list. apply Forall2_fmap_1 in H. revert H. clear -IH. revert l'. induction IH as [|x l Hx _ IHl]; intros l' H.
    + apply Forall2_nil_inv_l in H as ->. constructor.
    + apply Forall2_cons_inv_l in H as (y & l2 & Hy & Hl & ->). constructor; auto.
  - destruct b as [| | |[]| |l'|l']; try by inversion H. rewrite !canonical_dict in H. apply reordered_obj in H as (m & Hm & H).
    symmetry in Hm. apply Permutation_map_inv in Hm as (m' & -> & Hm). apply (sv_dict l m' l' Hm). apply Forall2_fmap_1 in H.
    rewrite Forall_fmap, Hm in IH. revert H. clear -IH. revert l'. induction IH as [|x l Hx _ IHl]; intros l' H.
    + apply Forall2_nil_inv_l in H as ->. constructor.
    + apply Forall2_cons_inv_l in H as (y & l2 & [Hk Hy] & Hl & ->). constructor; [split; [exact Hk|by apply Hx]|auto].
Qed.
Lemma value_reordered a : ∀ b, same_value a b → reordered (_canonicalise a) (_canonicalise b).
Proof.
  assert (∀ a b, same_value a b → (∀ l, a ≠ NList l) → (∀ l, a ≠ NDict l) → _canonicalise a = _canonicalise b) as Hleaf.
  { clear. intros x y H Hl Hd. destruct H as [| | |a b v Ha Hb|a v Ha|b v Hb|l l' _|l m l' _ _]; try done.
    - by rewrite (valued_spelt a v Ha), (valued_spelt b v Hb).
    - by rewrite (valued_spelt a v Ha).
    - by rewrite (valued_spelt b v Hb).
    - by destruct (Hl l).
    - by destruct (Hd l). }
  induction a as [|x|z|f|s|l IH|l IH] using node_nested; intros b H; try by (rewrite (Hleaf _ _ H); [apply re_same|done..]).
  - inversion H as [| | |? ? v Hv|? v Hv|? v Hv|? l' Hl|]; subst; try by inversion Hv. rewrite !canonical_list. apply re_arr.
    apply Forall2_fmap_2. clear -IH Hl. induction Hl as [|x y l l' Hx _ IHl]; [constructor|].
    apply Forall_cons in IH as [H1 H2]. constructor; auto.
  - inversion H as [| | |? ? v Hv|? v Hv|? v Hv| |? m l' Hm Hl]; subst; try by inversion Hv. rewrite !canonical_dict.
    apply (re_obj _ (canonical_member <$> m)); [by rewrite Hm|]. apply Forall2_fmap_2. rewrite Forall_fmap, Hm in IH. clear -IH Hl.
    induction Hl as [|x y l l' [Hk Hx] _ IHl]; [constructor|]. apply Forall_cons in IH as [H1 H2].
    constructor; [split; [exact Hk|by apply H1]|auto].
Qed.
Lemma text_same a b : _text a = _text b ↔ same_text a b.
Proof. unfold same_text. destruct a as [a|], b as [b|]; simpl; naive_solver. Qed.
Lemma structure_same a b : loaded a → loaded b → _structure a = _structure b ↔ same_value a b.
Proof.
  intros Ha Hb. transitivity (reordered (_canonicalise a) (_canonicalise b)); [|split; [apply reordered_value|apply value_reordered]].
  unfold _structure. split.
  - intros H%(f_equal loads). rewrite !loads_dumps in H by by apply sorted_plain. apply same_sorted. congruence.
  - intros H. by rewrite (sorted_same _ _ Ha H).
Qed.
Lemma framed_same a b : Forall loaded (structures a) → Forall loaded (structures b) → framed a = framed b ↔ same_plan a b.
Proof.
  unfold structures. rewrite !Forall_cons. intros (La1 & La2 & La3 & La4 & La5 & _) (Lb1 & Lb2 & Lb3 & Lb4 & Lb5 & _).
  transitivity (plan_components a = plan_components b).
  { split; [by apply frames_injective|]. unfold framed. by intros ->. }
  unfold same_plan, texts, structures, plan_components. rewrite !Forall2_cons. split.
  - intros E. injection E as E0 E1 E2 E3 E4 E5 E6 E7 E8. apply text_same in E0, E3, E4, E5.
    apply structure_same in E1, E2, E6, E7, E8; [|done..]. by split_and!.
  - intros [(T1 & T2 & T3 & T4 & _) (H1 & H2 & H3 & H4 & H5 & _)]. apply text_same in T1, T2, T3, T4.
    apply structure_same in H1, H2, H3, H4, H5; [|done..]. congruence.
Qed.

(** ** A plan identifier holds no secret *)

Definition plan_alphabet : list string := chars "0123456789abcdefplanv-:".
Definition plan_text (s : string) : Prop := starts s ∧ Forall (λ c, c ∈ plan_alphabet) (chars s).
(** No text of the alphabet begins with the pattern: each of its first words has a class without a character of it. *)
Definition foreign (p : pattern) : bool :=
  match p with
  | OneOf words :: _ => forallb (λ w, existsb (λ c : cls, forallb (λ x, negb (c x)) plan_alphabet) w) words
  | _ => false
  end.
Lemma foreign_unmatched p s : foreign p = true → Forall (λ c, c ∈ plan_alphabet) s → match_at p s = None.
Proof.
  intros Hp Hs. destruct (match_at p s) as [r|] eqn:Hm; [|done]. apply matches_found in Hm as (w & -> & Hd).
  destruct p as [|[words|] p]; try done. destruct Hd as (u & v & cs & -> & Hcs & Hu & _). cbn [foreign] in Hp.
  rewrite forallb_forall in Hp. specialize (Hp cs (proj1 (list_elem_of_In _ _) Hcs)). apply existsb_exists in Hp as (c & Hc & Hno).
  rewrite forallb_forall in Hno. apply list_elem_of_In, list_elem_of_lookup in Hc as [i Hi].
  destruct (Forall2_lookup_l _ _ _ _ _ Hu Hi) as (x & Hx & Hcx). rewrite !Forall_app in Hs. destruct Hs as [[Hs _] _].
  rewrite Forall_lookup in Hs. specialize (Hno x (proj1 (list_elem_of_In _ _) (Hs _ _ Hx))). by rewrite Hcx in Hno.
Qed.
Lemma foreign_unfound p s : foreign p = true → Forall (λ c, c ∈ plan_alphabet) s → search p s = false.
Proof.
  intros Hp Hs. induction Hs as [|x s Hx Hs IH]; simpl; [by rewrite (foreign_unmatched p []) by done|].
  rewrite (foreign_unmatched p (x :: s)); [done|done|by constructor].
Qed.
Lemma plan_text_clean s : plan_text s → (redact_secrets s).1 = s.
Proof.
  intros [_ Hs]. destruct (redact_secrets s) as [out fired] eqn:E. destruct (redact_facts _ _ _ E) as (_ & _ & _ & _ & H). simpl. apply H.
  assert (forallb (λ np, foreign np.2) _SECRET_PATTERNS = true) as Hf by (vm_compute; reflexivity).
  unfold scan_for_secrets. clear H E.
  induction _SECRET_PATTERNS as [|np ps IH]; [done|]. simpl in Hf. apply andb_true_iff in Hf as [Hp Hf].
  rewrite filter_cons, decide_False by (rewrite (foreign_unfound _ _ Hp Hs); done). by apply IH.
Qed.

Lemma plan_text_cons c s : String c "" ∈ plan_alphabet → byte_of c < 128 → plan_text s → plan_text (String c s).
Proof.
  intros Hc Hb [Hs Ha]. assert (0 ≤ byte_of c) by (unfold byte_of; lia). assert (is_continuation c = false) as Hcont
    by (rewrite continuation_range; lia).
  split; [done|]. change (String c s) with (String c "" +:+ s). rewrite chars_cons by done. by constructor.
Qed.
Lemma plan_hex v : 0 ≤ v < 16 → String (Sha256.hex_digit v) "" ∈ plan_alphabet ∧ byte_of (Sha256.hex_digit v) < 128.
Proof.
  intros Hv. assert (v ∈ seqZ 0 16) as Hin by (apply elem_of_seqZ; lia). revert Hin. clear Hv.
  assert (forallb (λ v, bool_decide (String (Sha256.hex_digit v) "" ∈ plan_alphabet) && (byte_of (Sha256.hex_digit v) <? 128)) (seqZ 0 16) = true)
    as H by (vm_compute; reflexivity).
  rewrite forallb_forall in H. intros Hin%list_elem_of_In%H. apply andb_true_iff in Hin as [H1%bool_decide_eq_true H2]. split; [done|lia].
Qed.
Lemma plan_text_hex n : ∀ v s, plan_text s → plan_text (hex n v s).
Proof.
  induction n as [|n IH]; intros v s Hs; [done|]. cbn [hex]. apply IH.
  assert (0 ≤ Z.land v 15 < 16) as Hv by (rewrite Z.land_ones with (n := 4) by lia; by apply Z.mod_pos_bound).
  destruct (plan_hex _ Hv). by apply plan_text_cons.
Qed.
Lemma compute_plan_text f : plan_text (compute f).
Proof.
  unfold compute, PLAN_SCHEME_PREFIX. rewrite !append_cons, append_nil.
  do 8 (apply plan_text_cons; [apply (bool_decide_unpack _); by vm_compute|by vm_compute|]).
  with_strategy transparent [sha256_hex] unfold sha256_hex. unfold hexdigest.
  induction (sha256 (bytes_of (framed f))) as [|w l IH]; [by split|]. cbn [foldr]. by apply plan_text_hex.
Qed.

(** ** What the gate reads *)

Lemma document_plan_id e : ∃ l, _document e = JObj l ∧ lookup_key "plan_id" l = Some (em_plan_id e).
Proof. eexists. split; [done|]. simpl. by rewrite ?decide_True. Qed.
Lemma extracted e s : storable e → em_plan_id e = JStr s → s ≠ ""%string → plan_id_from_manifest (Some (serialise e)) = Some s.
Proof.
  intros He Hp Hs. unfold plan_id_from_manifest. rewrite decide_False.
  - unfold serialise. rewrite loads_dumps by by apply document_plain. destruct (document_plan_id e) as (l & -> & ->). rewrite Hp. by rewrite decide_False.
  - pose proof (dumps_solid _ (document_plain e He)). unfold serialise. by destruct (dumps_compact (_document e)).
Qed.
Lemma bound_plan_id e content e' : fm_content (em_memory e) = JStr content → _bound e = Some e' → em_plan_id e' = em_plan_id e.
Proof. intros Hc H. destruct (bound_exact e content Hc) as [[Hx _]|(_ & n & Hx & _)]; rewrite H in Hx; by injection Hx as ->. Qed.
Lemma with_memory_keeps e content source s : storable e → valid_text content → valid_text source → em_plan_id e = JStr s →
  ∃ e', with_memory e content source = Some e' ∧ storable e' ∧ em_plan_id e' = JStr s.
Proof.
  intros He Hc Hs Hp. rewrite with_memory_remembered.
  destruct (bound_storable _ _ (remembered_storable e _ _ He Hc Hs) eq_refl (valid_redacted _ Hc)) as (e' & Hb & He').
  exists e'. split_and!; [done|done|]. by rewrite (bound_plan_id (remembered e content source) _ _ eq_refl Hb).
Qed.

Section Frozen.
Context (float_repr : Z → Z → string).
Definition manifest_fields (source_hash : string) (inputs baseline : node) : ManifestFields := {|
  mf_plan_id := compute (frozen_fields source_hash inputs baseline); mf_source_hash := source_hash;
  mf_inputs := document_of float_repr inputs; mf_repo_baseline := document_of float_repr baseline;
  mf_provider := None; mf_model := None; mf_profile := None; mf_permissions := None; mf_limits := None; mf_retry_policy := None;
  mf_notes := OMITTED_FIELDS_NOTE; mf_memory_content := ""; mf_memory_source := "" |}.
Lemma compute_valid f : valid_text (compute f).
Proof.
  unfold compute, PLAN_SCHEME_PREFIX. rewrite !append_cons, append_nil. do 8 (apply valid_ascii; [by vm_compute|]). apply hash_valid.
Qed.
Lemma manifest_fields_plain source_hash inputs baseline : valid_text source_hash →
  plain (document_of float_repr inputs) → plain (document_of float_repr baseline) → plain (raw_document (manifest_fields source_hash inputs baseline)).
Proof.
  intros Hs Hi Hb. constructor.
  - apply (bool_decide_unpack _). by vm_compute.
  - repeat constructor; apply valid_eval; by vm_compute.
  - do 13 (apply Forall_cons_2; [first [apply plain_null|apply plain_str, compute_valid|exact Hi|exact Hb|apply plain_str; exact Hs|
      apply plain_str, valid_eval; by vm_compute]|]). apply Forall_nil_2.
Qed.
(** A frozen manifest, as stored: it reads as an envelope that carries the identifier. *)
Lemma frozen_manifest source_hash inputs baseline : valid_text source_hash →
  plain (document_of float_repr inputs) → plain (document_of float_repr baseline) →
  ∃ e, build_manifest_json float_repr source_hash inputs baseline true = Some (serialise e) ∧ storable e
  ∧ em_plan_id e = JStr (compute (frozen_fields source_hash inputs baseline)).
Proof.
  intros Hs Hi Hb. pose proof (filled_storable _ (manifest_fields_plain _ _ _ Hs Hi Hb)) as Hf.
  destruct (bound_storable (filled (manifest_fields source_hash inputs baseline)) _ Hf eq_refl) as (e & He & Hse); [apply valid_eval; by vm_compute|].
  exists e. split_and!; [|done|].
  - unfold build_manifest_json. fold (manifest_fields source_hash inputs baseline). rewrite build_filled, He. done.
  - rewrite (bound_plan_id (filled (manifest_fields source_hash inputs baseline)) _ _ eq_refl He). simpl. by rewrite (plan_text_clean _ (compute_plan_text _)).
Qed.
End Frozen.

(** ** The properties *)

(** [C21] What a plan identifier identifies.  For fields as they are loaded, the hashed
    text is the same exactly for plans whose texts and structures are the same for a
    plan.  Texts are, if they are equal, or one is absent and the other is the marker of
    an absent one.  Structures are, if at every depth lists agree in order, dictionaries
    up to the order of their keys, numbers in their value — whole numbers exactly, in
    whichever type, others to the nearest millionth with their sign, infinities and
    not-a-number each as one — and a text equals the same text or is the very text
    that spells the number.  So such plans share one identifier, and one approval; any
    other pair that shares an identifier is a collision of SHA-256.  Every identifier
    says its scheme. *)
Theorem plan_ids_identify a b :
  Forall loaded (structures a) → Forall loaded (structures b) →
  (framed a = framed b ↔ same_plan a b)
  ∧ (same_plan a b → compute a = compute b)
  ∧ (compute a = compute b → ¬ same_plan a b → framed a ≠ framed b ∧ sha256_hex (framed a) = sha256_hex (framed b))
  ∧ scheme_of (Some (compute a)) = plan_v1.
Proof.
  intros Ha Hb. pose proof (framed_same a b Ha Hb) as Hf. split_and!; [done|..].
  - intros H. unfold compute. by rewrite (proj2 Hf H).
  - unfold compute. intros [_ H]%append_same_length Hn; [|done]. rewrite <-Hf in Hn. done.
  - unfold scheme_of, compute, PLAN_SCHEME_PREFIX. rewrite !append_cons. rewrite decide_False by done. by destruct ("" +:+ sha256_hex (framed a)).
Qed.

(** The requests to approve that reached the store, in order; each may meet a database
    that is down at its read, its write or its reading back. *)
Record approval_request := {
  aq_plan_id : string; aq_now : string; aq_account : string;
  aq_read : bool; aq_write : bool; aq_back : bool;
}.
Definition after (t : approvals) (q : approval_request) : approvals :=
  (approve_workflow_plan (aq_read q) (aq_write q) (aq_back q) (aq_plan_id q) (aq_now q) (aq_account q) t).1.
(** A request that writes when the plan has no row. *)
Definition grants (id : string) (q : approval_request) : Prop := aq_plan_id q = id ∧ aq_write q = true ∧ py_strip id ≠ ""%string.

Lemma grant_keeps id now account t i a : t !! i = Some a → grant id now account t !! i = Some a.
Proof. intros H. unfold grant. destruct (t !! id) eqn:E; [done|]. rewrite lookup_insert_ne; [done|congruence]. Qed.
Lemma grant_has id now account t i : is_Some (grant id now account t !! i) ↔ is_Some (t !! i) ∨ i = id.
Proof.
  unfold grant. destruct (t !! id) eqn:E.
  - split; [by left|]. intros [H| ->]; [done|by rewrite E].
  - rewrite lookup_insert_is_Some. destruct (decide (i = id)) as [->|]; naive_solver.
Qed.
Lemma after_cases t q : after t q = t ∧ (grants (aq_plan_id q) q → is_Some (t !! aq_plan_id q))
  ∨ grants (aq_plan_id q) q ∧ after t q = grant (aq_plan_id q) (aq_now q) (aq_account q) t.
Proof.
  unfold after, approve_workflow_plan, grants. case_bool_decide as Hb; [left; naive_solver|].
  destruct (get_approval (aq_read q) (aq_plan_id q) t) as [x|] eqn:E.
  - left. split; [done|]. intros _. unfold get_approval in E. destruct (aq_read q); [|done]. by rewrite E.
  - destruct (aq_write q); [right|left; naive_solver]. split; [done|]. by case_match.
Qed.
Lemma after_keeps t q i a : t !! i = Some a → after t q !! i = Some a.
Proof. intros H. destruct (after_cases t q) as [[-> _]|[_ ->]]; [done|by apply grant_keeps]. Qed.
Lemma after_has t q i : is_Some (after t q !! i) ↔ is_Some (t !! i) ∨ grants i q.
Proof.
  destruct (after_cases t q) as [[-> Hg]|[Hg ->]].
  - split; [by left|]. intros [H|[<- H]]; [done|]. by apply Hg.
  - rewrite grant_has. split; [intros [H| ->]; auto|]. intros [H|[<- H]]; auto.
Qed.

(** [C17] Only a granted plan runs.  With approval required, and whatever requests to
    approve the store has seen, a row once written stays as it was; the start of a
    script run is admitted exactly when the database answers and the identifier of the
    very plan that is frozen has a row, one that was there or that a request wrote; a
    refusal names that identifier; the resume of the run, its memory filled or not, is
    judged as its start was; and a run without a manifest is refused. *)
Theorem admitted_plans_were_granted float_repr source_hash inputs baseline t requests up :
  valid_text source_hash → plain (document_of float_repr inputs) → plain (document_of float_repr baseline) →
  let id := compute (frozen_fields source_hash inputs baseline) in
  let rows := foldl after t requests in
  ∃ e, build_manifest_json float_repr source_hash inputs baseline true = Some (serialise e)
  ∧ (∀ i a, t !! i = Some a → rows !! i = Some a)
  ∧ (ensure_plan_approved true up rows SCRIPT_TIER (Some (serialise e)) = Admitted_run ↔
       up = true ∧ (is_Some (t !! id) ∨ Exists (grants id) requests))
  ∧ (ensure_plan_approved true up rows SCRIPT_TIER (Some (serialise e)) ≠ Admitted_run →
       ensure_plan_approved true up rows SCRIPT_TIER (Some (serialise e)) = PlanApprovalRequiredError (Some id))
  ∧ (∀ content source, valid_text content → valid_text source → ∃ e', with_memory e content source = Some e'
       ∧ plan_id_from_manifest (Some (serialise e')) = plan_id_from_manifest (Some (serialise e)))
  ∧ ensure_plan_approved true up rows SCRIPT_TIER None = PlanApprovalRequiredError None.
Proof.
  intros Hs Hi Hb id rows. destruct (frozen_manifest float_repr _ _ _ Hs Hi Hb) as (e & He & Hst & Hp). fold id in Hp. exists e.
  assert (id ≠ ""%string) as Hne by (unfold id, compute, PLAN_SCHEME_PREFIX; by rewrite append_cons).
  pose proof (extracted e id Hst Hp Hne) as Hx.
  assert (is_Some (rows !! id) ↔ is_Some (t !! id) ∨ Exists (grants id) requests) as Hrows.
  { unfold rows. clear. revert t. induction requests as [|q qs IH]; intros t; simpl; [rewrite Exists_nil; tauto|].
    rewrite IH, after_has, Exists_cons. tauto. }
  assert (ensure_plan_approved true up rows SCRIPT_TIER (Some (serialise e)) =
    if is_approved up id rows then Admitted_run else PlanApprovalRequiredError (Some id)) as Hg.
  { unfold ensure_plan_approved. by rewrite Hx. }
  refine (conj He (conj _ (conj _ (conj _ (conj _ eq_refl))))).
  - unfold rows. clear. revert t. induction requests as [|q qs IH]; intros t i a H; simpl; [done|]. by apply IH, after_keeps.
  - rewrite Hg, <-Hrows. unfold is_approved. clear. clearbody id rows. destruct up; simpl; [|naive_solver]. case_bool_decide; naive_solver.
  - rewrite Hg. clear. clearbody id rows. by destruct (is_approved up id rows).
  - intros content source Hc Hsrc. destruct (with_memory_keeps e content source id Hst Hc Hsrc Hp) as (e' & Hw & He' & Hp').
    exists e'. split; [exact Hw|]. rewrite Hx. exact (extracted e' id He' Hp' Hne).
Qed.

(** ** Samples *)

Definition with_inputs (l : list (string * node)) : PlanFields := frozen_fields "abc" (NDict l) (NDict []).
Lemma sample_loaded l : loaded (NDict l) → Forall loaded (structures (with_inputs l)).
Proof. intros H. repeat (apply Forall_cons_2 || apply Forall_nil_2); try exact H; try constructor; constructor. Qed.
Local Notation one_way := [("n", NInt 600); ("s", NStr "x")]%string.
Local Notation other_way := [("s", NStr "x"); ("n", NFloat (Finite 75 3))]%string.
Lemma sample_ways : loaded (NDict one_way) ∧ loaded (NDict other_way).
Proof.
  split; constructor; try (apply (bool_decide_unpack _); by vm_compute);
    repeat (apply Forall_cons_2 || apply Forall_nil_2); try apply plain_str; apply valid_eval; by vm_compute.
Qed.
(** The order of the keys and the type of a whole number make no other plan. *)
Lemma plan_ids_identify_witness : same_plan (with_inputs one_way) (with_inputs other_way)
  ∧ compute (with_inputs one_way) = compute (with_inputs other_way).
Proof.
  assert (same_plan (with_inputs one_way) (with_inputs other_way)) as Hs.
  { split; [repeat constructor|]. repeat (apply Forall2_cons_2 || apply Forall2_nil_2); try constructor.
    - eapply sv_dict; [apply Permutation_swap|]. repeat (apply Forall2_cons_2 || apply Forall2_nil_2); (split; [done|]).
      + constructor.
      + eapply sv_number; [apply va_int|by apply va_whole].
    - by eapply (sv_dict [] [] []). }
  split; [exact Hs|]. destruct sample_ways as [H1 H2].
  exact (proj1 (proj2 (plan_ids_identify _ _ (sample_loaded _ H1) (sample_loaded _ H2))) Hs).
Defined.

(** What the spelling of numbers also identifies: a number and the text of it, and two
    floats that agree to the sixth decimal. *)
Example number_and_text_share_a_plan : compute (with_inputs [("n", NInt 1)]) = compute (with_inputs [("n", NStr "1")])%string.
Proof. vm_compute. reflexivity. Qed.
Example small_floats_share_a_plan :
  compute (with_inputs [("rate", NFloat (Finite 1 (-30)))]) = compute (with_inputs [("rate", NFloat (Finite 1 (-40)))])%string.
Proof. vm_compute. reflexivity. Qed.
(** An absent text and the text that is its marker stand in one slot. *)
Definition with_provider (p : option string) : PlanFields := {|
  pf_source_hash := None; pf_inputs := NNone; pf_repo_baseline := NNone; pf_provider := p; pf_model := None; pf_profile := None;
  pf_permissions := NNone; pf_limits := NNone; pf_retry_policy := NNone |}.
Example marker_is_no_text : compute (with_provider None) = compute (with_provider (Some _NOT_SUPPLIED))
  ∧ compute (with_provider None) ≠ compute (with_provider (Some ""%string)).
Proof. split; [reflexivity|]. vm_compute. discriminate. Qed.
Example known_decimals : (fixed 1 (-1), fixed (-5) (-2), fixed 1 (-7), fixed 3 (-7), fixed (-1) (-40))%string
  = ("0.500000", "-1.250000", "0.007812", "0.023438", "-0.000000")%string.
Proof. vm_compute. reflexivity. Qed.

Local Notation sample_request id := {| aq_plan_id := id; aq_now := "2026-01-01T00:00:00+00:00"; aq_account := "dev";
  aq_read := true; aq_write := true; aq_back := true |}%string.
Lemma admitted_plans_were_granted_witness :
  let id := compute (frozen_fields "abc" (NDict []) (NDict [])) in
  ∃ e, build_manifest_json (λ _ _, "0.5"%string) "abc" (NDict []) (NDict []) true = Some (serialise e)
  ∧ ensure_plan_approved true true (foldl after ∅ [sample_request id]) SCRIPT_TIER (Some (serialise e)) = Admitted_run.
Proof.
  intros id. assert (valid_text "abc") as H1 by (apply valid_eval; by vm_compute).
  assert (plain (document_of (λ _ _, "0.5"%string) (NDict []))) as H2 by (constructor; constructor).
  destruct (admitted_plans_were_granted (λ _ _, "0.5"%string) "abc" (NDict []) (NDict []) ∅ [sample_request id] true H1 H2 H2)
    as (e & He & _ & Hg & _). exists e. split; [exact He|]. apply Hg. split; [reflexivity|]. right. left.
  split; [reflexivity|]. split; [reflexivity|]. unfold id, compute, PLAN_SCHEME_PREFIX. vm_compute. discriminate.
Defined.
(** The digest that [test_plan_identifier.py] pins. *)
Example pinned_digest : compute {|
    pf_source_hash := Some "h"; pf_inputs := NDict [("a", NInt 1); ("b", NInt 2)]; pf_repo_baseline := NDict [];
    pf_provider := Some "mock_cli"; pf_model := Some "m"; pf_profile := Some "dev"; pf_permissions := NDict []; pf_limits := NDict [];
    pf_retry_policy := NDict [] |}%string
  = "plan-v1:0743b0b78d9c2a75c770a6aad22caa4681d5e4705d155e0ab98482bb2cf728d0"%string.
Proof. vm_compute. reflexivity. Qed.
