(* ===== verification/Engine.v ===== *)
(** * The engine of YAML workflows — the drive of [services/workflow_service.py]

    One drive runs the steps of a spec in order, each by handing its prompt to an
    agent.  The loop is asynchronous: at every [await] something else may happen —
    the run is cancelled, an agent returns an output, the write of CANCELLING goes
    through — and every write to the journal may fail.  What happens at the awaits is
    an argument, [world]; [run_agent_step] and Python's [repr] are arguments too. *)

From stdpp Require Import gmap pretty.
From S2P Require Import Prelude Text Secrets Envelope Journal Steps Workflow Order Template.

Definition EVENT_SCHEMA_VERSION : Z := 1.
Definition NON_RETRYABLE_STEP_KINDS : list string := ["input_blocked"; "waiting_user_input"; "cancelled"].

(** ** The record of a run *)

(** [StepRunState]: what a YAML run uses of it. *)
Record StepRun := {
  sn_state : StepState;
  sn_attempts : Z;
  sn_reprompted : bool;
  sn_output : option StepOutputRecord;
  sn_terminal_id : option string;
  sn_error : option string;
}.
Definition new_step_run : StepRun := {|
  sn_state := STEP_PENDING; sn_attempts := 0; sn_reprompted := false; sn_output := None; sn_terminal_id := None; sn_error := None |}.

Section StepSetters.
Context (st : StepRun).
Definition sn_set_state x : StepRun := {| sn_state := x; sn_attempts := sn_attempts st; sn_reprompted := sn_reprompted st;
  sn_output := sn_output st; sn_terminal_id := sn_terminal_id st; sn_error := sn_error st |}.
Definition sn_set_attempts x : StepRun := {| sn_state := sn_state st; sn_attempts := x; sn_reprompted := sn_reprompted st;
  sn_output := sn_output st; sn_terminal_id := sn_terminal_id st; sn_error := sn_error st |}.
Definition sn_set_reprompted x : StepRun := {| sn_state := sn_state st; sn_attempts := sn_attempts st; sn_reprompted := x;
  sn_output := sn_output st; sn_terminal_id := sn_terminal_id st; sn_error := sn_error st |}.
Definition sn_set_output x : StepRun := {| sn_state := sn_state st; sn_attempts := sn_attempts st; sn_reprompted := sn_reprompted st;
  sn_output := x; sn_terminal_id := sn_terminal_id st; sn_error := sn_error st |}.
Definition sn_set_terminal x : StepRun := {| sn_state := sn_state st; sn_attempts := sn_attempts st; sn_reprompted := sn_reprompted st;
  sn_output := sn_output st; sn_terminal_id := x; sn_error := sn_error st |}.
Definition sn_set_error x : StepRun := {| sn_state := sn_state st; sn_attempts := sn_attempts st; sn_reprompted := sn_reprompted st;
  sn_output := sn_output st; sn_terminal_id := sn_terminal_id st; sn_error := x |}.
End StepSetters.

(** [RunRecord].  [yr_cancel_task] is [cancelling_journal_task]: [Some true] while its
    write has not been made; [yr_steps] is keyed by the ids of the spec. *)
Record RunRecord := {
  yr_run_id : string;
  yr_workflow_name : string;
  yr_spec : WorkflowSpec;
  yr_inputs : list (string * value);
  yr_state : RunState;
  yr_current : option string;
  yr_cancelled : bool;
  yr_steps : gmap string StepRun;
  yr_started_at : string;
  yr_finished_at : option string;
  yr_cancel_task : option bool;
  yr_event_seq : Z;
}.
Section RecordSetters.
Context (r : RunRecord).
Definition yr_set (state : RunState) (cancelled : bool) (task : option bool) : RunRecord := {|
  yr_run_id := yr_run_id r; yr_workflow_name := yr_workflow_name r; yr_spec := yr_spec r; yr_inputs := yr_inputs r;
  yr_state := state; yr_current := yr_current r; yr_cancelled := cancelled; yr_steps := yr_steps r;
  yr_started_at := yr_started_at r; yr_finished_at := yr_finished_at r; yr_cancel_task := task; yr_event_seq := yr_event_seq r |}.
Definition yr_set_state (state : RunState) : RunRecord := yr_set state (yr_cancelled r) (yr_cancel_task r).
Definition yr_set_task (task : option bool) : RunRecord := yr_set (yr_state r) (yr_cancelled r) task.
Definition yr_set_current (x : option string) (finished : option string) : RunRecord := {|
  yr_run_id := yr_run_id r; yr_workflow_name := yr_workflow_name r; yr_spec := yr_spec r; yr_inputs := yr_inputs r;
  yr_state := yr_state r; yr_current := x; yr_cancelled := yr_cancelled r; yr_steps := yr_steps r;
  yr_started_at := yr_started_at r; yr_finished_at := finished; yr_cancel_task := yr_cancel_task r;
  yr_event_seq := yr_event_seq r |}.
Definition yr_set_steps x : RunRecord := {|
  yr_run_id := yr_run_id r; yr_workflow_name := yr_workflow_name r; yr_spec := yr_spec r; yr_inputs := yr_inputs r;
  yr_state := yr_state r; yr_current := yr_current r; yr_cancelled := yr_cancelled r; yr_steps := x;
  yr_started_at := yr_started_at r; yr_finished_at := yr_finished_at r; yr_cancel_task := yr_cancel_task r;
  yr_event_seq := yr_event_seq r |}.
Definition yr_set_seq x : RunRecord := {|
  yr_run_id := yr_run_id r; yr_workflow_name := yr_workflow_name r; yr_spec := yr_spec r; yr_inputs := yr_inputs r;
  yr_state := yr_state r; yr_current := yr_current r; yr_cancelled := yr_cancelled r; yr_steps := yr_steps r;
  yr_started_at := yr_started_at r; yr_finished_at := yr_finished_at r; yr_cancel_task := yr_cancel_task r;
  yr_event_seq := x |}.
End RecordSetters.

(** ** The drive's surroundings *)

(** How [run_agent_step] ends: [StepCancelledError], another [StepExecutionError], or
    an exception of another class. *)
Inductive failure :=
| Stopped (message : string) (terminal_id : option string)
| Crashed (kind message : string) (terminal_id : option string).
Inductive agent_result :=
| AgentDone (terminal_id : string)
| AgentFails (f : failure)
| AgentRaises (e : exn).

(** What may happen while the drive awaits. *)
Inductive meanwhile :=
| CancelAsked
| OutputPut (key : string * string) (record : StepOutputRecord)
| CancelTaskRuns (up : bool).
(** One await: what happens meanwhile, whether the database can be reached (and still
    can for a second write), how the agent ends if one is awaited, and the time. *)
Record moment := {
  mo_meanwhile : list meanwhile;
  mo_up : bool;
  mo_still_up : bool;
  mo_agent : agent_result;
  mo_now : string;
}.
(** [en_clock] counts the awaits, [en_calls] lists the prompts handed to an agent. *)
Record Engine := {
  en_journal : journal;
  en_outputs : list (string * string * StepOutputRecord);
  en_record : RunRecord;
  en_clock : nat;
  en_calls : list (string * string);
}.
Section EngineSetters.
Context (e : Engine).
Definition en_set_journal x : Engine := {| en_journal := x; en_outputs := en_outputs e; en_record := en_record e;
  en_clock := en_clock e; en_calls := en_calls e |}.
Definition en_set_outputs x : Engine := {| en_journal := en_journal e; en_outputs := x; en_record := en_record e;
  en_clock := en_clock e; en_calls := en_calls e |}.
Definition en_set_record x : Engine := {| en_journal := en_journal e; en_outputs := en_outputs e; en_record := x;
  en_clock := en_clock e; en_calls := en_calls e |}.
Definition en_tick : Engine := {| en_journal := en_journal e; en_outputs := en_outputs e; en_record := en_record e;
  en_clock := S (en_clock e); en_calls := en_calls e |}.
Definition en_called x : Engine := {| en_journal := en_journal e; en_outputs := en_outputs e; en_record := en_record e;
  en_clock := en_clock e; en_calls := en_calls e ++ [x] |}.
End EngineSetters.

Definition on_record (f : RunRecord → RunRecord) : M Engine () := modify (λ e, en_set_record e (f (en_record e))).
Definition journal_write (up : bool) (m : J ()) : M Engine () := zoom en_journal (λ j e, en_set_journal e j) (best_effort (reaching up m)).
Definition the_step (step_id : string) : M Engine StepRun :=
  r ← gets en_record; match yr_steps r !! step_id with Some st => mret st | None => raise KeyError end.
Definition on_step (step_id : string) (f : StepRun → StepRun) : M Engine () :=
  on_record (λ r, yr_set_steps r (alter f step_id (yr_steps r))).

(** [cancel_run] of a run that is being driven; of a run that is over it raises. *)
Definition cancel_asked (r : RunRecord) : RunRecord :=
  if decide (yr_state r = RUN_CANCELLING) then r
  else if run_over (yr_state r) then r
  else yr_set r RUN_CANCELLING true (match yr_cancel_task r with None => Some true | task => task end).
(** [_journal_run_state_snapshot], in the task of [cancel_run]. *)
Definition cancel_task (up : bool) : M Engine () :=
  r ← gets en_record;
  match yr_cancel_task r with
  | Some true =>
      journal_write up (update_run_state (yr_run_id r) (RunState_value RUN_CANCELLING) None) ;;
      on_record (λ r, yr_set_task r (Some false))
  | _ => mret ()
  end.
Definition meanwhile_does (m : meanwhile) : M Engine () :=
  match m with
  | CancelAsked => on_record cancel_asked
  | OutputPut key record => modify (λ e, en_set_outputs e (put_output WORKFLOW_OUTPUT_STORE_MAX_ENTRIES key record (en_outputs e)))
  | CancelTaskRuns up => cancel_task up
  end.

Section Drive.
Context (world : nat → moment) (repr : json → string) (digest : json → string).

Definition await : M Engine moment :=
  mo ← gets (λ e, world (en_clock e));
  modify en_tick ;;
  for_each (mo_meanwhile mo) () (λ _ m, meanwhile_does m) ;;
  mret mo.

(** ** Writes to the journal — [_ajournal] and what it runs *)

Definition _output_json (record : option StepOutputRecord) : option json := so_output <$> record.
Definition output_reference (o : option json) : option string := (λ d, "sha256:" +:+ String.substring 0 16 (digest d)) <$> o.

Definition _journal_step (step_id : string) (error_kind : option string) : M Engine () :=
  mo ← await;
  st ← the_step step_id;
  r ← gets en_record;
  journal_write (mo_up mo) (update_step (yr_run_id r) step_id (StepState_value (sn_state st)) (sn_attempts st) (mo_now mo)
    (_output_json (sn_output st)) (sn_error st) error_kind).
Definition _journal_current_step : M Engine () :=
  mo ← await;
  r ← gets en_record;
  journal_write (mo_up mo) (update_run_current_step (yr_run_id r) (yr_current r)).
Definition _journal_run_state : M Engine () :=
  mo ← await;
  r ← gets en_record;
  journal_write (mo_up mo) (update_run_state (yr_run_id r) (RunState_value (yr_state r)) (yr_finished_at r)).
Definition _journal_insert_run (spec_snapshot inputs_json : string) : M Engine () :=
  mo ← await;
  r ← gets en_record;
  journal_write (mo_up mo) (
    insert_run (new_run (yr_run_id r) (yr_workflow_name r) spec_snapshot inputs_json (RunState_value (yr_state r))
      (yr_started_at r) "yaml" "1" None) ;;
    reaching (mo_still_up mo)
      (insert_steps (yr_run_id r) ((λ s, (ws_id s, StepState_value STEP_PENDING)) <$> wf_steps (yr_spec r)) (mo_now mo))).
Definition _await_cancelling_journal : M Engine () :=
  r ← gets en_record;
  match yr_cancel_task r with
  | None => mret ()
  | Some false => on_record (λ r, yr_set_task r None)
  | Some true => mo ← await; cancel_task (mo_up mo) ;; on_record (λ r, yr_set_task r None)
  end.

(** ** Events *)

(** The columns the engine fills; the sequence and the time come with the write. *)
Definition event (event_type : string) (step_id : option string) (attempt : option Z)
    (state provider agent_profile terminal_id error_kind reason validation_result output_ref : option string) : EventRow := {|
  er_run_id := ""; er_seq := 0; er_event_type := event_type; er_event_schema_version := EVENT_SCHEMA_VERSION; er_ts := "";
  er_step_id := step_id; er_attempt := attempt; er_state := state; er_elapsed_ms := None; er_provider := provider;
  er_agent_profile := agent_profile; er_engine := None; er_terminal_id := terminal_id; er_terminal_offset_start := None;
  er_terminal_offset_len := None; er_error_kind := error_kind; er_reason := reason; er_validation_result := validation_result;
  er_output_ref := output_ref; er_iteration := None; er_which_guard_fired := None |}.
Definition placed (run_id : string) (seq : Z) (ts : string) (e : EventRow) : EventRow := {|
  er_run_id := run_id; er_seq := seq; er_event_type := er_event_type e;
  er_event_schema_version := er_event_schema_version e; er_ts := ts; er_step_id := er_step_id e;
  er_attempt := er_attempt e; er_state := er_state e; er_elapsed_ms := er_elapsed_ms e; er_provider := er_provider e;
  er_agent_profile := er_agent_profile e; er_engine := er_engine e; er_terminal_id := er_terminal_id e;
  er_terminal_offset_start := er_terminal_offset_start e; er_terminal_offset_len := er_terminal_offset_len e;
  er_error_kind := er_error_kind e; er_reason := er_reason e; er_validation_result := er_validation_result e;
  er_output_ref := er_output_ref e; er_iteration := er_iteration e; er_which_guard_fired := er_which_guard_fired e |}.

Definition _journal_event (ev : EventRow) : M Engine () :=
  on_record (λ r, yr_set_seq r (yr_event_seq r + 1)) ;;
  r ← gets en_record;
  let seq := yr_event_seq r in
  mo ← await;
  journal_write (mo_up mo) (persist_high_water (yr_run_id r) seq) ;;
  mo ← await;
  journal_write (mo_up mo) (append_event (placed (yr_run_id r) seq (mo_now mo) ev)).
Definition step_event (event_type : string) (step : WorkflowStep) (attempt : option Z)
    (state terminal_id error_kind : option string) : EventRow :=
  event event_type (Some (ws_id step)) attempt state (Some (ws_provider step)) (Some (ws_agent step)) terminal_id error_kind
    None None None.

(** ** One step *)

Definition _reprompt_prompt (step : WorkflowStep) (output_schema : json) : string :=
  let nl := String (ascii_of_nat 10) "" in
  ws_prompt step +:+ nl +:+ nl +:+
  "Your previous turn did not produce a valid structured output for this workflow step. Call the `workflow_return` tool with output that matches this JSON-Schema:"
  +:+ nl +:+ repr output_schema.

Definition run_agent_step (step_id prompt : string) : M Engine (failure + string) :=
  modify (λ e, en_called e (step_id, prompt)) ;;
  mo ← await;
  match mo_agent mo with
  | AgentDone terminal_id => mret (inr terminal_id)
  | AgentFails f => mret (inl f)
  | AgentRaises e => raise e
  end.
Definition read_output (step_id : string) : M Engine (option StepOutputRecord) :=
  gets (λ e, get_output (yr_run_id (en_record e), step_id) (en_outputs e)).
Definition validated (o : option StepOutputRecord) : bool := match o with Some r => so_validated r | None => false end.

(** The failures of the reprompt are those of the attempt. *)
Definition _collect_structured_output (step : WorkflowStep) : M Engine (failure + StepState) :=
  let id := ws_id step in
  match ws_output_schema step with
  | None => mret (inr STEP_COMPLETED)
  | Some schema =>
      rec ← read_output id;
      if validated rec then on_step id (λ st, sn_set_output st rec) ;; mret (inr STEP_COMPLETED)
      else
        st ← the_step id;
        if negb (sn_reprompted st) then
          on_step id (λ st, sn_set_reprompted st true) ;;
          _journal_event (event "step.reprompted" (Some id) None None (Some (ws_provider step)) (Some (ws_agent step))
            (sn_terminal_id st) None (Some "invalid_or_missing_output"%string) None None) ;;
          result ← run_agent_step id (_reprompt_prompt step schema);
          match result with
          | inl f => mret (inl f)
          | inr terminal_id =>
              on_step id (λ st, sn_set_terminal st (Some terminal_id)) ;;
              rec ← read_output id;
              on_step id (λ st, sn_set_output st rec) ;;
              mret (inr (if validated rec then STEP_COMPLETED else STEP_COMPLETED_UNVALIDATED))
          end
        else on_step id (λ st, sn_set_output st rec) ;; mret (inr STEP_COMPLETED_UNVALIDATED)
  end.

(** The outputs a template may refer to: those of the steps of the record. *)
Definition members_of (d : json) : list (string * json) := match d with JObj l => l | _ => [] end.
Definition output_of (r : RunRecord) (step_id : string) : option (list (string * json)) :=
  st ← yr_steps r !! step_id; members_of ∘ so_output <$> sn_output st.
Definition substitute_prompt (step : WorkflowStep) : M Engine string :=
  r ← gets en_record; lift_outcome (_substitute repr (yr_inputs r) (output_of r) (ws_prompt step)).

(** The body of the [try]: the agent and what it returned. *)
Definition attempt_once (step : WorkflowStep) (attempt : Z) (prompt : string) : M Engine (failure + StepState) :=
  let id := ws_id step in
  result ← run_agent_step id prompt;
  match result with
  | inl f => mret (inl f)
  | inr terminal_id =>
      on_step id (λ st, sn_set_terminal st (Some terminal_id)) ;;
      _journal_event (step_event "terminal.created" step (Some attempt) None (Some terminal_id) None) ;;
      _collect_structured_output step
  end.

Definition state_name (s : StepState) : option string := Some (StepState_value s).
Definition keep_terminal (terminal_id : option string) (st : StepRun) : StepRun :=
  match terminal_id with Some t => sn_set_terminal st (Some t) | None => st end.

(** [except StepCancelledError] *)
Definition step_stopped (step : WorkflowStep) (attempt : Z) (terminal_id : option string) : M Engine () :=
  let id := ws_id step in
  on_step id (λ st, sn_set_state (keep_terminal terminal_id st) STEP_SKIPPED) ;;
  _journal_step id None ;;
  st ← the_step id;
  _journal_event (event "step.skipped" (Some id) (Some attempt) (state_name (sn_state st)) None None (sn_terminal_id st) None
    (Some "cancelled"%string) None None).
(** What follows the loop when no attempt succeeded. *)
Definition step_failed (step : WorkflowStep) (last_error_kind : option string) : M Engine () :=
  let id := ws_id step in
  on_step id (λ st, sn_set_state st STEP_FAILED) ;;
  _journal_step id last_error_kind ;;
  st ← the_step id;
  _journal_event (step_event "step.failed" step (Some (sn_attempts st)) (state_name (sn_state st)) (sn_terminal_id st) last_error_kind) ;;
  if decide (default halt_run (ws_on_failure step) = halt_run) then on_record (λ r, yr_set_state r RUN_FAILED) else mret ().
(** The step is done, validated or not. *)
Definition step_settled (step : WorkflowStep) (attempt : Z) (outcome : StepState) : M Engine () :=
  let id := ws_id step in
  on_step id (λ st, sn_set_state st outcome) ;;
  _journal_step id None ;;
  st ← the_step id;
  (match sn_output st with
   | Some output =>
       _journal_event (event "step.output.received" (Some id) (Some attempt) None None None (sn_terminal_id st) None None
         (Some (if so_validated output then "valid" else "invalid")%string) (output_reference (_output_json (Some output))))
   | None => mret ()
   end) ;;
  st ← the_step id;
  _journal_event (step_event "step.completed" step (Some attempt) (state_name (sn_state st)) (sn_terminal_id st) None).
(** The run was cancelled: before an attempt, or while one failed. *)
Definition step_cancelled (step_id : string) : M Engine () :=
  on_step step_id (λ st, sn_set_state st STEP_CANCELLED) ;;
  _await_cancelling_journal ;;
  _journal_step step_id None.

(** The loop over the attempts, [remaining] of which remain. *)
Fixpoint attempts (step : WorkflowStep) (remaining : nat) (attempt : Z) (last_error_kind : option string) : M Engine () :=
  let id := ws_id step in
  match remaining with
  | O => step_failed step last_error_kind
  | S remaining =>
      r ← gets en_record;
      if yr_cancelled r then
        on_step id (λ st, sn_set_error st (Some "step cancelled before attempt"%string)) ;; step_cancelled id
      else
        on_step id (λ st, sn_set_error (sn_set_attempts st attempt) None) ;;
        _journal_event (step_event "step.attempt.started" step (Some attempt) None None None) ;;
        prompt ← substitute_prompt step;
        result ← attempt_once step attempt prompt;
        match result with
        | inl (Stopped _ terminal_id) => step_stopped step attempt terminal_id
        | inl (Crashed kind message terminal_id) =>
            on_step id (λ st, keep_terminal terminal_id (sn_set_error st (Some message))) ;;
            r ← gets en_record;
            if bool_decide (kind = "cancelled"%string) || yr_cancelled r then step_cancelled id
            else
              _journal_step id (Some kind) ;;
              st ← the_step id;
              _journal_event (step_event "step.attempt.failed" step (Some attempt) (state_name (sn_state st)) terminal_id (Some kind)) ;;
              if decide (kind ∈ NON_RETRYABLE_STEP_KINDS) then step_failed step (Some kind)
              else attempts step remaining (attempt + 1) (Some kind)
        | inr outcome => step_settled step attempt outcome
        end
  end.

Definition n_retries (step : WorkflowStep) : Z := default WORKFLOW_DEFAULT_STEP_RETRIES (ws_retries step).
Definition _run_step (step : WorkflowStep) : M Engine () :=
  let id := ws_id step in
  on_record (λ r, yr_set_current r (Some id) (yr_finished_at r)) ;;
  st ← the_step id;
  on_step id (λ st, sn_set_state st STEP_RUNNING) ;;
  _journal_step id None ;;
  _journal_current_step ;;
  st ← the_step id;
  _journal_event (step_event "step.started" step None (state_name (sn_state st)) None None) ;;
  attempts step (Z.to_nat (n_retries step + 1)) 1 None.

(** ** The drive *)

Definition _skip_remaining (steps : list WorkflowStep) : M Engine () :=
  for_each steps () (λ _ step,
    let id := ws_id step in
    st ← the_step id;
    if decide (sn_state st = STEP_PENDING) then
      on_step id (λ st, sn_set_state st STEP_SKIPPED) ;;
      _journal_step id None ;;
      st ← the_step id;
      r ← gets en_record;
      _journal_event (event "step.skipped" (Some id) None (state_name (sn_state st)) None None None None
        (Some (if yr_cancelled r then "cancelled" else "upstream_halt")%string) None None)
    else mret ()).

Definition step_done (s : StepState) : bool := bool_decide (s ∈ [STEP_COMPLETED; STEP_COMPLETED_UNVALIDATED]).
(** A cancel seen at the boundary of a step. *)
Definition boundary_cancel (rest : list WorkflowStep) : M Engine () :=
  _await_cancelling_journal ;;
  _skip_remaining rest ;;
  on_record (λ r, yr_set_state r RUN_CANCELLED).

Fixpoint drive_steps (order : list WorkflowStep) : M Engine () :=
  match order with
  | [] => mret ()
  | step :: rest =>
      r ← gets en_record;
      if yr_cancelled r then boundary_cancel (step :: rest)
      else
        st ← the_step (ws_id step);
        if step_done (sn_state st) then drive_steps rest
        else
          _run_step step ;;
          r ← gets en_record;
          if yr_cancelled r then boundary_cancel rest
          else if decide (yr_state r = RUN_FAILED) then _skip_remaining rest
          else drive_steps rest
  end.

Definition is_engine_error (e : exn) : bool :=
  match e with ExternalError what => String.prefix "WorkflowEngineError: " what | _ => false end.
(** The exception goes on once the run is FAILED. *)
Definition engine_failed {A} (e : exn) : M Engine A :=
  r ← gets en_record;
  (match yr_current r with
   | Some id => on_step id (λ st, if step_done (sn_state st) then st else sn_set_state st STEP_FAILED)
   | None => mret ()
   end) ;;
  now ← gets (λ e, mo_now (world (en_clock e)));
  on_record (λ r, yr_set_current (yr_set_state r RUN_FAILED) None (Some now)) ;;
  _journal_current_step ;;
  r ← gets en_record;
  _journal_event (event "run.failed" None None (Some (RunState_value (yr_state r))) None None None (Some "error"%string) None None None) ;;
  _journal_run_state ;;
  raise e.

Record StepResult := {
  re_id : string;
  re_state : StepState;
  re_attempts : Z;
  re_output : option json;
  re_error : option string;
}.
Record WorkflowRunResult := {
  wr_run_id : string;
  wr_workflow_name : string;
  wr_state : RunState;
  wr_steps : list StepResult;
  wr_started_at : string;
  wr_finished_at : option string;
}.
Definition step_result (step_id : string) (st : StepRun) : StepResult := {|
  re_id := step_id; re_state := sn_state st; re_attempts := sn_attempts st; re_output := so_output <$> sn_output st;
  re_error := sn_error st |}.
Definition _build_result (order : list WorkflowStep) : M Engine WorkflowRunResult :=
  steps ← for_each order [] (λ steps step, st ← the_step (ws_id step); mret (steps ++ [step_result (ws_id step) st]));
  r ← gets en_record;
  mret {| wr_run_id := yr_run_id r; wr_workflow_name := yr_workflow_name r; wr_state := yr_state r; wr_steps := steps;
          wr_started_at := yr_started_at r; wr_finished_at := yr_finished_at r |}.

Definition final_event (state : RunState) : EventRow :=
  match state with
  | RUN_CANCELLED => event "run.cancelled" None None (Some (RunState_value state)) None None None None None None None
  | RUN_FAILED => event "run.failed" None None (Some (RunState_value state)) None None None (Some "error"%string) None None None
  | _ => event "run.completed" None None (Some (RunState_value state)) None None None None None None None
  end.
Definition finalize_run : M Engine () :=
  r ← gets en_record;
  (if yr_cancelled r then _await_cancelling_journal ;; on_record (λ r, yr_set_state r RUN_CANCELLED) else mret ()) ;;
  on_record (λ r, if decide (yr_state r ∈ [RUN_FAILED; RUN_CANCELLED]) then r else yr_set_state r RUN_COMPLETED) ;;
  now ← gets (λ e, mo_now (world (en_clock e)));
  on_record (λ r, yr_set_current r None (Some now)) ;;
  _journal_current_step ;;
  r ← gets en_record;
  _journal_event (final_event (yr_state r)) ;;
  _journal_run_state.
Definition _drive (order : list WorkflowStep) : M Engine WorkflowRunResult :=
  catch (drive_steps order) (λ e, if is_engine_error e then engine_failed e else raise e) ;;
  finalize_run ;;
  _build_result order.
End Drive.
