(* ===== verification/EngineThms.v ===== *)
(** * What a drive does to its run

    [quiet] is what an await may change: the run may be asked to stop, and nothing
    about its steps.  [doing] follows one step between two awaits; [step_went] is what
    one step of a drive leaves behind. *)

From stdpp Require Import gmap.
From S2P Require Import Prelude Text Secrets Envelope Journal Steps Workflow Order Template Wp Engine.

Definition steps_of (e : Engine) : gmap string StepRun := yr_steps (en_record e).
Definition rows_of (e : Engine) : gmap (string * string) StepRow := j_steps (en_journal e).
Definition run_of (e : Engine) : string := yr_run_id (en_record e).

(** ** What stays *)

Record same_run (r r' : RunRecord) : Prop := {
  sm_run_id : yr_run_id r' = yr_run_id r;
  sm_name : yr_workflow_name r' = yr_workflow_name r;
  sm_spec : yr_spec r' = yr_spec r;
  sm_inputs : yr_inputs r' = yr_inputs r;
  sm_started : yr_started_at r' = yr_started_at r;
  sm_finished : yr_finished_at r' = yr_finished_at r;
}.
#[export] Instance same_run_preorder : PreOrder same_run.
Proof. split; [done|]. intros r1 r2 r3 [] []. split; congruence. Qed.

(** A live run may have been asked to stop. *)
Definition asked (r r' : RunRecord) : Prop :=
  (yr_state r' = yr_state r ∧ yr_cancelled r' = yr_cancelled r) ∨
  (run_over (yr_state r) = false ∧ yr_state r' = RUN_CANCELLING ∧ yr_cancelled r' = true).
#[export] Instance asked_preorder : PreOrder asked.
Proof.
  split; [by left|]. intros r1 r2 r3 [[E1 E2]|(H1 & E1 & E2)] [[E3 E4]|(H3 & E3 & E4)]; unfold asked.
  - left. split; congruence.
  - right. rewrite <-E1. done.
  - right. split; [done|]. split; congruence.
  - right. done.
Qed.

Record quiet (e e' : Engine) : Prop := {
  qt_run : same_run (en_record e) (en_record e');
  qt_asked : asked (en_record e) (en_record e');
  qt_current : yr_current (en_record e') = yr_current (en_record e);
  qt_steps : steps_of e' = steps_of e;
  qt_rows : rows_of e' = rows_of e;
  qt_calls : en_calls e' = en_calls e;
}.
#[export] Instance quiet_preorder : PreOrder quiet.
Proof. split; [by intros e; split|]. intros e1 e2 e3 [] []. split; try (etrans; eassumption); congruence. Qed.

(** A statement that is quiet and raises nothing. *)
Definition calm {A} (m : M Engine A) : Prop := ∀ e, wp m e (λ _ e', quiet e e') (λ _ _, False).

Lemma wp_calm {A} (m : M Engine A) e (Q : A → Engine → Prop) E :
  calm m → (∀ a e', quiet e e' → Q a e') → wp m e Q E.
Proof. intros Hm HQ. eapply wp_mono; [apply Hm|exact HQ|done]. Qed.

Lemma calm_ret {A} (a : A) : calm (mret a).
Proof. by intros e. Qed.
Lemma calm_gets {A} (f : Engine → A) : calm (gets f).
Proof. by intros e. Qed.
Lemma calm_modify f : (∀ e, quiet e (f e)) → calm (modify f).
Proof. intros H e. apply H. Qed.
Lemma calm_bind {A B} (m : M Engine A) (f : A → M Engine B) : calm m → (∀ a, calm (f a)) → calm (m ≫= f).
Proof.
  intros Hm Hf e. apply wp_bind. apply wp_calm; [done|]. intros a e1 H1.
  eapply wp_mono; [apply Hf| |done]. intros b e2 H2. by etrans.
Qed.
Lemma calm_for_each {A B} (l : list A) (acc : B) body : (∀ acc x, calm (body acc x)) → calm (for_each l acc body).
Proof. intros H. revert acc. induction l as [|x l IH]; intros acc; simpl; [apply calm_ret|by apply calm_bind]. Qed.
Lemma calm_match_bool {A} (b : bool) (m n : M Engine A) : calm m → calm n → calm (if b then m else n).
Proof. by destruct b. Qed.

(** A write is refused silently; one that leaves the steps' table alone is calm. *)
Lemma calm_journal_write up (m : J ()) : (∀ j, j_steps (m j).1 = j_steps j) → calm (journal_write up m).
Proof.
  intros Hm e. unfold journal_write, best_effort, reaching. destruct up; [|done].
  unfold wp, zoom, catch. unfold mbind, M_bind. specialize (Hm (en_journal e)).
  destruct (m (en_journal e)) as [j []]; simpl in *; split; simpl; done || (unfold asked; by left).
Qed.

Lemma calm_on_record f :
  (∀ r, same_run r (f r) ∧ asked r (f r) ∧ yr_current (f r) = yr_current r ∧ yr_steps (f r) = yr_steps r) → calm (on_record f).
Proof. intros H. apply calm_modify. intros e. destruct (H (en_record e)) as (H1 & H2 & H3 & H4). by split. Qed.

Lemma calm_cancel_asked : calm (on_record cancel_asked).
Proof.
  apply calm_on_record. intros r. unfold cancel_asked. destruct (decide _) as [_|_]; [done|].
  destruct (run_over (yr_state r)) eqn:E; [done|]. split; [done|]. split; [by right|done].
Qed.

Lemma calm_task r task : same_run r (yr_set_task r task) ∧ asked r (yr_set_task r task)
  ∧ yr_current (yr_set_task r task) = yr_current r ∧ yr_steps (yr_set_task r task) = yr_steps r.
Proof. split; [done|]. split; [by left|done]. Qed.

Lemma calm_cancel_task up : calm (cancel_task up).
Proof.
  unfold cancel_task. apply calm_bind; [apply calm_gets|]. intros r. destruct (yr_cancel_task r) as [[]|]; try apply calm_ret.
  apply calm_bind; [by apply calm_journal_write|]. intros _. apply calm_on_record. intros. apply calm_task.
Qed.

Lemma calm_meanwhile m : calm (meanwhile_does m).
Proof. destruct m; simpl; [apply calm_cancel_asked|apply calm_modify; by intros e; split; [|left|..]|apply calm_cancel_task]. Qed.

Create HintDb calm discriminated.
#[export] Hint Resolve calm_ret calm_gets calm_bind calm_meanwhile calm_cancel_task calm_for_each calm_match_bool : calm.
#[export] Hint Extern 1 (calm (on_record (λ r, yr_set_task r _))) => apply calm_on_record; intros ?; apply calm_task : calm.
#[export] Hint Extern 1 (calm (journal_write _ _)) => apply calm_journal_write; done : calm.
#[export] Hint Extern 1 (calm (match ?x with _ => _ end)) => destruct x : calm.

Section Awaits.
Context (world : nat → moment).

Lemma calm_await : calm (await world).
Proof.
  unfold await. apply calm_bind; [apply calm_gets|]. intros mo. apply calm_bind; [apply calm_modify; by intros e; split; [|left|..]|].
  intros _. eauto with calm.
Qed.
Lemma wp_await e Q E : (∀ t e', quiet e e' → Q (world t) e') → wp (await world) e Q E.
Proof.
  intros HQ. pose proof (calm_await e) as H. unfold wp, await in *. unfold mbind, M_bind in *. simpl in *.
  destruct (for_each _ () _ _) as [e' []]; simpl in *; [|done]. by apply HQ.
Qed.
Hint Resolve calm_await : calm.

Lemma calm_journal_event ev : calm (_journal_event world ev).
Proof.
  unfold _journal_event. apply calm_bind; [apply calm_on_record; intros r; by split; [|split; [left|]]|]. intros _.
  apply calm_bind; [apply calm_gets|]. intros r. apply calm_bind; [apply calm_await|]. intros mo.
  apply calm_bind; [by apply calm_journal_write|]. intros _. apply calm_bind; [apply calm_await|]. intros mo'.
  apply calm_journal_write. intros j. unfold append_event. by destruct (j_events j !! _).
Qed.
Lemma calm_await_cancelling : calm (_await_cancelling_journal world).
Proof.
  unfold _await_cancelling_journal. apply calm_bind; [apply calm_gets|]. intros r. destruct (yr_cancel_task r) as [[]|]; eauto 10 with calm.
Qed.
Lemma calm_journal_current : calm (_journal_current_step world).
Proof. unfold _journal_current_step. eauto 10 with calm. Qed.
Lemma calm_journal_run_state : calm (_journal_run_state world).
Proof. unfold _journal_run_state. eauto 10 with calm. Qed.
End Awaits.
#[export] Hint Resolve calm_await calm_journal_event calm_await_cancelling calm_journal_current calm_journal_run_state : calm.

(** ** One step, while it runs *)

(** A row says what the record says of a step. *)
Definition shows (st : StepRun) (w : option StepRow) : Prop :=
  ∀ row, w = Some row → sr_state row = StepState_value (sn_state st) ∧ sr_attempts row = sn_attempts st ∧
    sr_output_json row = _output_json (sn_output st) ∧ sr_error row = sn_error st.
Definition says (s : StepState) (w : option StepRow) : Prop := ∀ row, w = Some row → sr_state row = StepState_value s.

(** Since [e0]: the step [id] has come to [st] and its row to [w], the agents were
    given [b]; every other step and row is as it was.  [c]: the run was seen cancelled. *)
Record doing (id : string) (e0 : Engine) (c : bool) (e : Engine) (st : StepRun) (b : list (string * string)) (w : option StepRow) : Prop := {
  dg_run : same_run (en_record e0) (en_record e);
  dg_asked : asked (en_record e0) (en_record e);
  dg_current : yr_current (en_record e) = yr_current (en_record e0);
  dg_others i : i ≠ id → steps_of e !! i = steps_of e0 !! i;
  dg_step : steps_of e !! id = Some st;
  dg_rows k : k ≠ (run_of e0, id) → rows_of e !! k = rows_of e0 !! k;
  dg_row : rows_of e !! (run_of e0, id) = w;
  dg_there : is_Some w ↔ is_Some (rows_of e0 !! (run_of e0, id));
  dg_calls : en_calls e = en_calls e0 ++ b;
  dg_stop : c = true → yr_cancelled (en_record e) = true;
}.

Lemma asked_cancelled r r' : asked r r' → yr_cancelled r = true → yr_cancelled r' = true.
Proof. intros [[_ ->]|(_ & _ & ->)]; done. Qed.

Lemma doing_quiet id e0 c e e' st b w : quiet e e' → doing id e0 c e st b w → doing id e0 c e' st b w.
Proof.
  intros [] []. split; try (etrans; eassumption); try congruence.
  - intros i Hi. rewrite qt_steps0. by apply dg_others0.
  - intros k Hk. rewrite qt_rows0. by apply dg_rows0.
  - intros Hc. by eapply asked_cancelled; [|apply dg_stop0].
Qed.
(** The run is seen cancelled. *)
Lemma doing_seen id e0 c e st b w : doing id e0 c e st b w → yr_cancelled (en_record e) = true → doing id e0 true e st b w.
Proof. intros [] Hc. by split. Qed.

Lemma doing_run id e0 c e st b w : doing id e0 c e st b w → run_of e = run_of e0.
Proof. intros []. apply dg_run0. Qed.

Section Doing.
Context (world : nat → moment) (id : string) (e0 : Engine) (c : bool).
Definition all_up : Prop := ∀ t, mo_up (world t) = true.
Implicit Types (e : Engine) (st : StepRun).

Lemma wp_doing_calm {A} (m : M Engine A) e st b w (Q : A → Engine → Prop) E :
  doing id e0 c e st b w → calm m → (∀ a e', doing id e0 c e' st b w → Q a e') → wp m e Q E.
Proof using Type. intros Hd Hm HQ. apply wp_calm; [done|]. intros a e' Hq. apply HQ. by eapply doing_quiet. Qed.

Lemma wp_doing_step e st b w (Q : StepRun → Engine → Prop) E :
  doing id e0 c e st b w → Q st e → wp (the_step id) e Q E.
Proof using Type.
  intros Hd HQ. unfold the_step. apply wp_bind, wp_gets. pose proof (dg_step _ _ _ _ _ _ _ Hd) as H. unfold steps_of in H.
  by rewrite H.
Qed.

Lemma doing_on_step f e st b w : doing id e0 c e st b w →
  doing id e0 c (en_set_record e (yr_set_steps (en_record e) (alter f id (yr_steps (en_record e))))) (f st) b w.
Proof using Type.
  intros [H1 H2 H3 H4 H5 H6 H7 H8 H9 H10]. split; try done.
  - by destruct H1.
  - intros i Hi. unfold steps_of. simpl. rewrite lookup_alter_ne by done. by apply H4.
  - unfold steps_of in *. simpl. by rewrite lookup_alter_eq, H5.
Qed.
Lemma wp_doing_on_step f e st b w (Q : () → Engine → Prop) E :
  doing id e0 c e st b w → (∀ e', doing id e0 c e' (f st) b w → Q () e') → wp (on_step id f) e Q E.
Proof using Type. intros Hd HQ. apply wp_modify, HQ. by apply doing_on_step. Qed.

Lemma wp_doing_journal_step kind e st b w (Q : () → Engine → Prop) E :
  doing id e0 c e st b w →
  (∀ e' w', doing id e0 c e' st b w' → (all_up → shows st w') → (w' = w ∨ shows st w') → Q () e') →
  wp (_journal_step world id kind) e Q E.
Proof using Type.
  intros Hd HQ. unfold _journal_step. apply wp_bind, wp_await. intros t e1 Hq.
  pose proof (doing_quiet _ _ _ _ _ _ _ _ Hq Hd) as Hd1. apply wp_bind. eapply wp_doing_step; [done|]. apply wp_bind, wp_gets.
  unfold wp, journal_write, zoom, best_effort, reaching. destruct (mo_up (world t)) eqn:Hup; simpl.
  - pose proof (doing_run _ _ _ _ _ _ _ Hd1) as Hrun.
    set (w' := (λ r, {| sr_run_id := sr_run_id r; sr_step_id := sr_step_id r; sr_state := StepState_value (sn_state st);
      sr_attempts := sn_attempts st; sr_output_json := _output_json (sn_output st); sr_error := sn_error st;
      sr_updated_at := mo_now (world t); sr_call_fingerprint := sr_call_fingerprint r; sr_terminal_id := sr_terminal_id r;
      sr_reprompted := sr_reprompted r; sr_error_kind := kind; sr_result_json := sr_result_json r |}) <$> w).
    assert (shows st w') as Hshows by (intros row; unfold w'; destruct w; simpl; [by intros [= <-]|done]).
    apply (HQ _ w'); [|done|by right].
    destruct Hd1 as [H1 H2 H3 H4 H5 H6 H7 H8 H9 H10]. split; try done.
    + intros k Hk. unfold rows_of. simpl. unfold run_of in Hrun. rewrite Hrun, lookup_alter_ne by done. by apply H6.
    + unfold rows_of in *. simpl. unfold run_of in *. rewrite Hrun, lookup_alter_eq. by rewrite H7.
    + unfold w'. by rewrite fmap_is_Some.
  - apply (HQ _ w); [|intros Hall; by rewrite Hall in Hup|by left].
    destruct Hd1 as [H1 H2 H3 H4 H5 H6 H7 H8 H9 H10]. by split.
Qed.

Lemma wp_doing_agent prompt e st b w (Q : failure + string → Engine → Prop) E :
  doing id e0 c e st b w →
  (∀ e' f t, doing id e0 c e' st (b ++ [(id, prompt)]) w → mo_agent (world t) = AgentFails f → Q (inl f) e') →
  (∀ e' terminal_id, doing id e0 c e' st (b ++ [(id, prompt)]) w → Q (inr terminal_id) e') →
  (∀ e' x t, doing id e0 c e' st (b ++ [(id, prompt)]) w → mo_agent (world t) = AgentRaises x → E x e') →
  wp (run_agent_step world id prompt) e Q E.
Proof using Type.
  intros Hd Hf Hdone Hr. unfold run_agent_step. apply wp_bind, wp_modify, wp_bind, wp_await. intros t e1 Hq.
  assert (doing id e0 c e1 st (b ++ [(id, prompt)]) w) as Hd1.
  { eapply doing_quiet; [exact Hq|]. destruct Hd as [H1 H2 H3 H4 H5 H6 H7 H8 H9 H10]. split; try done.
    simpl. by rewrite H9, app_assoc. }
  destruct (mo_agent (world t)) as [term|f|x] eqn:E'; [by apply Hdone|by eapply Hf|by eapply Hr].
Qed.
End Doing.

(** ** One step, from its start to its end *)

Definition step_over (s : StepState) : Prop :=
  s ∈ [STEP_COMPLETED; STEP_COMPLETED_UNVALIDATED; STEP_FAILED; STEP_CANCELLED; STEP_SKIPPED].
Definition halts (step : WorkflowStep) : Prop := default halt_run (ws_on_failure step) = halt_run.
#[export] Instance halts_dec step : Decision (halts step). Proof. unfold halts. apply _. Defined.
(** How many prompts a step may cost: its attempts, and one reprompt. *)
Definition budget (step : WorkflowStep) : nat := S (Z.to_nat (n_retries step + 1)).
Definition halted (e : Engine) : Engine := en_set_record e (yr_set_state (en_record e) RUN_FAILED).

Section Step.
Context (world : nat → moment) (repr : json → string) (digest : json → string) (step : WorkflowStep) (e0 : Engine).
Local Notation sid := (ws_id step).

(** An agent that gives up though nobody cancelled the run. *)
Definition agent_stops : Prop := ∃ t message terminal_id,
  mo_agent (world t) = AgentFails (Stopped message terminal_id) ∨ mo_agent (world t) = AgentFails (Crashed "cancelled" message terminal_id).
Definition agent_fails (f : failure) : Prop := ∃ t, mo_agent (world t) = AgentFails f.
(** What an exception that leaves a step may be. *)
Definition breaks (x : exn) : Prop :=
  (∃ inputs outputs, _substitute repr inputs outputs (ws_prompt step) = Raised x) ∨ ∃ t, mo_agent (world t) = AgentRaises x.

Definition unspent (st : StepRun) : nat := if sn_reprompted st then 0%nat else 1%nat.
Definition block_of (b : list (string * string)) : Prop := Forall (λ c, c.1 = sid) b.

Definition at_work (c : bool) (e : Engine) (n : nat) : Prop := ∃ st b w,
  doing sid e0 c e st b w ∧ sn_state st = STEP_RUNNING ∧ block_of b ∧ (length b + unspent st ≤ n)%nat ∧
  (all_up world → says STEP_RUNNING w).
Definition finishing (c : bool) (e : Engine) (st : StepRun) : Prop := ∃ b w,
  doing sid e0 c e st b w ∧ block_of b ∧ (length b ≤ budget step)%nat ∧ (all_up world → shows st w).
Definition ended (e' : Engine) : Prop := ∃ c st e, finishing c e st ∧ step_over (sn_state st) ∧
  (sn_state st ∈ [STEP_CANCELLED; STEP_SKIPPED] → c = true ∨ agent_stops) ∧
  (sn_state st = STEP_FAILED ∧ halts step ∧ e' = halted e ∨ ~ (sn_state st = STEP_FAILED ∧ halts step) ∧ e' = e).

Lemma wp_work_calm {A} (m : M Engine A) c e n (Q : A → Engine → Prop) E :
  at_work c e n → calm m → (∀ a e', at_work c e' n → Q a e') → wp m e Q E.
Proof using Type.
  intros (st & b & w & Hd & H) Hm HQ. eapply wp_doing_calm; [done|done|]. intros a e' Hd'. apply HQ. by exists st, b, w.
Qed.
Lemma wp_work_on_step f c e n (Q : () → Engine → Prop) E :
  at_work c e n → (∀ st, sn_state (f st) = sn_state st ∧ sn_reprompted (f st) = sn_reprompted st) →
  (∀ e', at_work c e' n → Q () e') → wp (on_step sid f) e Q E.
Proof using Type.
  intros (st & b & w & Hd & Hst & Hb & Hn & Hw) Hf HQ. eapply wp_doing_on_step; [done|]. intros e' Hd'. apply HQ.
  destruct (Hf st) as [F1 F2]. exists (f st), b, w. unfold unspent. rewrite F1, F2. done.
Qed.
Lemma wp_work_step c e n (Q : StepRun → Engine → Prop) E :
  at_work c e n → (∀ st, sn_state st = STEP_RUNNING → Q st e) → wp (the_step sid) e Q E.
Proof using Type. intros (st & b & w & Hd & Hst & H) HQ. eapply wp_doing_step; [done|]. by apply HQ. Qed.
Lemma wp_work_journal kind c e n (Q : () → Engine → Prop) E :
  at_work c e n → (∀ e', at_work c e' n → Q () e') → wp (_journal_step world sid kind) e Q E.
Proof using Type.
  intros (st & b & w & Hd & Hst & Hb & Hn & Hw) HQ. eapply wp_doing_journal_step; [done|]. intros e' w' Hd' Hup _. apply HQ.
  exists st, b, w'. split_and!; try done. intros Hall row Hrow. rewrite <-Hst. by apply (Hup Hall row Hrow).
Qed.
Lemma wp_work_agent prompt c e n (Q : failure + string → Engine → Prop) (E : exn → Engine → Prop) :
  at_work c e n →
  (∀ e' r, at_work c e' (S n) → (match r with inl f => agent_fails f | inr _ => True end) → Q r e') →
  (∀ e' x, at_work c e' (S n) → breaks x → E x e') →
  wp (run_agent_step world sid prompt) e Q E.
Proof using Type.
  intros (st & b & w & Hd & Hst & Hb & Hn & Hw) HQ HE.
  assert (∀ e', doing sid e0 c e' st (b ++ [(sid, prompt)]) w → at_work c e' (S n)) as Hwork.
  { intros e' Hd'. exists st, (b ++ [(sid, prompt)]), w. split_and!; try done.
    - apply Forall_app. split; [done|by constructor].
    - rewrite length_app. simpl. lia. }
  eapply wp_doing_agent; [done|..].
  - intros e' f t Hd' Ht. apply HQ; [by apply Hwork|by exists t].
  - intros e' term Hd'. apply HQ; [by apply Hwork|done].
  - intros e' x t Hd' Ht. apply HE; [by apply Hwork|]. right. by exists t.
Qed.
Lemma at_work_weaken c e n n' : (n ≤ n')%nat → at_work c e n → at_work c e n'.
Proof using Type. intros H (st & b & w & Hd & Hst & Hb & Hn & Hw). exists st, b, w. split_and!; try done. lia. Qed.
Lemma at_work_seen c e n : at_work c e n → yr_cancelled (en_record e) = true → at_work true e n.
Proof using Type. intros (st & b & w & Hd & H) Hc. exists st, b, w. split; [by eapply doing_seen|done]. Qed.

(** The step leaves RUNNING. *)
Lemma wp_work_finish f kind c e n {A} (k : () → M Engine A) (Q : A → Engine → Prop) E :
  at_work c e n → (n ≤ budget step)%nat →
  (∀ e' st, finishing c e' (f st) → sn_state st = STEP_RUNNING → wp (k ()) e' Q E) →
  wp (on_step sid f ;; (_journal_step world sid kind ≫= k)) e Q E.
Proof using Type.
  intros (st & b & w & Hd & Hst & Hb & Hn & Hw) Hbudget HQ. apply wp_bind. eapply wp_doing_on_step; [done|]. intros e1 Hd1.
  apply wp_bind. eapply wp_doing_journal_step; [done|]. intros e2 w' Hd2 Hup _. apply (HQ e2 st); [|done].
  exists b, w'. split_and!; try done. lia.
Qed.
Lemma wp_finishing_calm {A} (m : M Engine A) c e st (Q : A → Engine → Prop) E :
  finishing c e st → calm m → (∀ a e', finishing c e' st → Q a e') → wp m e Q E.
Proof using Type.
  intros (b & w & Hd & H) Hm HQ. eapply wp_doing_calm; [done|done|]. intros a e' Hd'. apply HQ. by exists b, w.
Qed.
Lemma wp_finishing_step c e st (Q : StepRun → Engine → Prop) E : finishing c e st → Q st e → wp (the_step sid) e Q E.
Proof using Type. intros (b & w & Hd & H) HQ. by eapply wp_doing_step. Qed.
Lemma finishing_ended c e st : finishing c e st → step_over (sn_state st) → sn_state st ≠ STEP_FAILED →
  (sn_state st ∈ [STEP_CANCELLED; STEP_SKIPPED] → c = true ∨ agent_stops) → ended e.
Proof using Type. intros Hf Ho Hn Hs. exists c, st, e. split_and!; [done|done|done|]. right. naive_solver. Qed.

Lemma wp_step_failed kind e n : at_work false e n → (n ≤ budget step)%nat →
  wp (step_failed world step kind) e (λ _ e', ended e') (λ _ _, False).
Proof using Type.
  intros Hw Hn. unfold step_failed. eapply wp_work_finish; [exact Hw|exact Hn|]. intros e1 st Hf _.
  apply wp_bind. eapply wp_finishing_step; [done|]. apply wp_bind. eapply wp_finishing_calm; [done|auto with calm|]. intros _ e2 Hf2.
  destruct (decide (default halt_run (ws_on_failure step) = halt_run)) as [Hh|Hh].
  - apply wp_modify. exists false, (sn_set_state st STEP_FAILED), e2. split; [done|]. simpl.
    split; [unfold step_over; set_solver|]. split; [set_solver|]. by left.
  - apply wp_ret. exists false, (sn_set_state st STEP_FAILED), e2. split; [done|]. simpl.
    split; [unfold step_over; set_solver|]. split; [set_solver|]. right. split; [by intros []|done].
Qed.

Lemma wp_step_stopped attempt term e n : at_work false e n → (n ≤ budget step)%nat → agent_stops →
  wp (step_stopped world step attempt term) e (λ _ e', ended e') (λ _ _, False).
Proof using Type.
  intros Hw Hn Hs. unfold step_stopped. eapply wp_work_finish; [exact Hw|exact Hn|]. intros e1 st Hf _.
  apply wp_bind. eapply wp_finishing_step; [done|]. eapply wp_finishing_calm; [done|auto with calm|]. intros _ e2 Hf2.
  eapply finishing_ended; [done|simpl; unfold step_over; set_solver|done|]. by right.
Qed.

Lemma wp_step_settled attempt outcome e n : at_work false e n → (n ≤ budget step)%nat →
  outcome ∈ [STEP_COMPLETED; STEP_COMPLETED_UNVALIDATED] →
  wp (step_settled world digest step attempt outcome) e (λ _ e', ended e') (λ _ _, False).
Proof using Type.
  intros Hw Hn Ho. unfold step_settled. eapply wp_work_finish; [exact Hw|exact Hn|]. intros e1 st Hf _.
  apply wp_bind. eapply wp_finishing_step; [done|]. apply wp_bind. eapply wp_finishing_calm; [done|auto with calm|]. intros _ e2 Hf2.
  apply wp_bind. eapply wp_finishing_step; [done|]. eapply wp_finishing_calm; [done|auto with calm|]. intros _ e3 Hf3.
  eapply finishing_ended; [done| | |]; simpl; unfold step_over; set_solver.
Qed.

Lemma wp_step_cancelled c e n : at_work c e n → (n ≤ budget step)%nat → c = true ∨ agent_stops →
  wp (step_cancelled world sid) e (λ _ e', ended e') (λ _ _, False).
Proof using Type.
  intros (st & b & w & Hd & Hst & Hb & Hn & Hw) Hbudget Hc. unfold step_cancelled.
  apply wp_bind. eapply wp_doing_on_step; [done|]. intros e1 Hd1.
  apply wp_bind. eapply wp_doing_calm; [done|auto with calm|]. intros _ e2 Hd2.
  eapply wp_doing_journal_step; [done|]. intros e3 w' Hd3 Hup _.
  eapply (finishing_ended c _ (sn_set_state st STEP_CANCELLED)); [|simpl; unfold step_over; set_solver|done|done].
  exists b, w'. split_and!; try done. lia.
Qed.

(** What the agent returned: within the try, one more reprompt at most. *)
Definition outcome_ok (r : failure + StepState) : Prop :=
  match r with inl f => agent_fails f | inr s => s ∈ [STEP_COMPLETED; STEP_COMPLETED_UNVALIDATED] end.
Lemma wp_collect e n : at_work false e n →
  wp (_collect_structured_output world repr step) e (λ r e', at_work false e' n ∧ outcome_ok r) (λ x e', at_work false e' n ∧ breaks x).
Proof using Type.
  clear digest. intros Hw. unfold _collect_structured_output. destruct (ws_output_schema step) as [schema|]; [|apply wp_ret; split; [done|simpl; set_solver]].
  apply wp_bind, wp_gets. set (rec := get_output _ _). destruct (validated rec).
  { apply wp_bind. eapply wp_work_on_step; [done|by split|]. intros e1 Hw1. apply wp_ret. split; [done|simpl; set_solver]. }
  destruct Hw as (st & b & w & Hd & Hst & Hb & Hn & Hrow). apply wp_bind. eapply wp_doing_step; [done|].
  destruct (sn_reprompted st) eqn:Hre; simpl.
  { apply wp_bind. eapply wp_doing_on_step; [done|]. intros e1 Hd1. apply wp_ret. split; [|simpl; set_solver].
    exists (sn_set_output st rec), b, w. done. }
  apply wp_bind. eapply wp_doing_on_step; [done|]. intros e1 Hd1.
  assert (at_work false e1 (n - 1)) as Hw1.
  { exists (sn_set_reprompted st true), b, w. unfold unspent in *. rewrite Hre in Hn. split_and!; try done. simpl. lia. }
  assert (n = S (n - 1)) as -> by (unfold unspent in Hn; rewrite Hre in Hn; lia). set (m := (n - 1)%nat) in *.
  apply wp_bind. eapply wp_work_calm; [done|auto with calm|]. intros _ e2 Hw2.
  apply wp_bind. eapply wp_work_agent; [done| |].
  - intros e3 [f|term] Hw3 Hf; [by apply wp_ret|]. apply wp_bind. eapply wp_work_on_step; [done|by split|]. intros e4 Hw4.
    apply wp_bind, wp_gets. apply wp_bind. eapply wp_work_on_step; [done|by split|]. intros e5 Hw5. apply wp_ret.
    split; [done|]. simpl. destruct (validated _); set_solver.
  - done.
Qed.

Lemma wp_attempt_once attempt prompt e n : at_work false e n →
  wp (attempt_once world repr step attempt prompt) e (λ r e', at_work false e' (S n) ∧ outcome_ok r) (λ x e', at_work false e' (S n) ∧ breaks x).
Proof using Type.
  intros Hw. unfold attempt_once. apply wp_bind. eapply wp_work_agent; [done| |done].
  intros e1 [f|term] Hw1 Hf; [by apply wp_ret|]. apply wp_bind. eapply wp_work_on_step; [done|by split|]. intros e2 Hw2.
  apply wp_bind. eapply wp_work_calm; [done|auto with calm|]. intros _ e3 Hw3. by apply wp_collect.
Qed.

Lemma wp_attempts remaining : ∀ attempt kind e n, at_work false e n → (n + remaining ≤ budget step)%nat →
  wp (attempts world repr digest step remaining attempt kind) e (λ _ e', ended e') (λ x e', at_work false e' (budget step) ∧ breaks x).
Proof using digest e0 repr step world.
  induction remaining as [|remaining IH]; intros attempt kind e n Hw Hn.
  { eapply wp_mono; [eapply wp_step_failed; [done|lia]|done|done]. }
  cbn [attempts]. apply wp_bind, wp_gets. destruct (yr_cancelled (en_record e)) eqn:Hc.
  { apply (at_work_seen _ _ _ Hw) in Hc. apply wp_bind. eapply wp_work_on_step; [done|by split|]. intros e1 Hw1.
    eapply wp_mono; [eapply wp_step_cancelled; [exact Hw1|lia|by left]|done|done]. }
  apply wp_bind. eapply wp_work_on_step; [done|by split|]. intros e1 Hw1.
  apply wp_bind. eapply wp_work_calm; [done|auto with calm|]. intros _ e2 Hw2.
  unfold substitute_prompt. apply wp_bind, wp_bind, wp_gets, wp_lift.
  2:{ intros x Hx. split; [by eapply at_work_weaken; [|done]; lia|]. left. eauto. }
  intros prompt _. apply wp_bind. eapply wp_mono; [by apply wp_attempt_once| |].
  2:{ intros x e3 [Hw3 Hx]. split; [by eapply at_work_weaken; [|done]; lia|done]. }
  intros [[msg term|k msg term]|outcome] e3 [Hw3 Hr].
  - eapply wp_mono; [eapply wp_step_stopped; [done|lia|]|done|done]. destruct Hr as [t Ht]. exists t, msg, term. by left.
  - apply wp_bind. eapply wp_work_on_step; [done|intros st; by destruct term|]. intros e4 Hw4. apply wp_bind, wp_gets.
    destruct (bool_decide_reflect (k = "cancelled"%string)) as [->|Hk]; simpl.
    { eapply wp_mono; [eapply wp_step_cancelled; [done|lia|right]|done|done]. destruct Hr as [t Ht]. exists t, msg, term. by right. }
    destruct (yr_cancelled (en_record e4)) eqn:Hc4.
    { apply (at_work_seen _ _ _ Hw4) in Hc4. eapply wp_mono; [eapply wp_step_cancelled; [done|lia|by left]|done|done]. }
    apply wp_bind. eapply wp_work_journal; [done|]. intros e5 Hw5. apply wp_bind. eapply wp_work_step; [done|]. intros st _.
    apply wp_bind. eapply wp_work_calm; [done|auto with calm|]. intros _ e6 Hw6. destruct (decide _).
    + eapply wp_mono; [eapply wp_step_failed; [done|lia]|done|done].
    + eapply IH; [done|lia].
  - eapply wp_mono; [eapply wp_step_settled; [done|lia|done]|done|done].
Qed.
End Step.

(** ** The steps of a drive *)

(** What one step of the order leaves: [b] are its prompts. *)
Record step_went (world : nat → moment) (e e' : Engine) (step : WorkflowStep) (b : list (string * string)) (st st' : StepRun) : Prop := {
  sw_before : steps_of e !! ws_id step = Some st;
  sw_after : steps_of e' !! ws_id step = Some st';
  sw_over : step_over (sn_state st');
  sw_block : block_of step b;
  sw_budget : (length b ≤ budget step)%nat;
  sw_kept : step_done (sn_state st) = true → st' = st ∧ b = [] ∧ rows_of e' !! (run_of e, ws_id step) = rows_of e !! (run_of e, ws_id step);
  sw_shows : all_up world → (step_done (sn_state st) = true → shows st (rows_of e !! (run_of e, ws_id step))) →
    shows st' (rows_of e' !! (run_of e, ws_id step));
  sw_row : is_Some (rows_of e' !! (run_of e, ws_id step)) ↔ is_Some (rows_of e !! (run_of e, ws_id step));
}.

(** Nothing but the steps [ids] and their rows. *)
Record only (ids : list string) (e e' : Engine) : Prop := {
  on_run : same_run (en_record e) (en_record e');
  on_others i : i ∉ ids → steps_of e' !! i = steps_of e !! i;
  on_rows k : (∀ i, i ∈ ids → k ≠ (run_of e, i)) → rows_of e' !! k = rows_of e !! k;
}.
Lemma only_run ids e e' : only ids e e' → run_of e' = run_of e.
Proof. intros [H _ _]. apply H. Qed.
Lemma only_app l k e1 e2 e3 : only l e1 e2 → only k e2 e3 → only (l ++ k) e1 e3.
Proof.
  intros H1 H2. pose proof (only_run _ _ _ H1) as Hr. destruct H1 as [R1 O1 W1], H2 as [R2 O2 W2]. split.
  - by etrans.
  - intros i Hi. rewrite not_elem_of_app in Hi. rewrite O2, O1 by tauto. done.
  - intros key Hk. rewrite W2, W1; [done| |].
    + intros i Hi. apply Hk, elem_of_app. by left.
    + intros i Hi. rewrite Hr. apply Hk, elem_of_app. by right.
Qed.
Lemma quiet_only e e' : quiet e e' → only [] e e'.
Proof. intros [H1 _ _ H2 H3 _]. split; [done|by rewrite H2|by rewrite H3]. Qed.

(** The steps of [order], one after the other. *)
Inductive walked (world : nat → moment) (e e' : Engine) : list WorkflowStep → list (list (string * string)) → Prop :=
| walked_nil : walked world e e' [] []
| walked_cons step order b bs st st' :
    step_went world e e' step b st st' → walked world e e' order bs → walked world e e' (step :: order) (b :: bs).

Record drove (world : nat → moment) (order : list WorkflowStep) (e e' : Engine) : Prop := {
  dr_only : only (step_ids order) e e';
  dr_walked : ∃ bs, walked world e e' order bs ∧ en_calls e' = en_calls e ++ concat bs;
}.

Lemma key_ne run i j : i ≠ j → (run, i) ≠ ((run, j) : string * string).
Proof. intros H [=]. done. Qed.

(** What came before and what comes after does not touch a step. *)
Lemma step_went_after world e e1 e2 step b st st' l :
  step_went world e e1 step b st st' → run_of e1 = run_of e → only l e1 e2 → ws_id step ∉ l → step_went world e e2 step b st st'.
Proof.
  intros [] Hr [R O W] Hl.
  assert (rows_of e2 !! (run_of e, ws_id step) = rows_of e1 !! (run_of e, ws_id step)) as Hrow.
  { apply W. intros i Hi. rewrite Hr. apply key_ne. intros E. apply Hl. by rewrite E. }
  split; rewrite ?Hrow; first [assumption|by rewrite O].
Qed.
Lemma step_went_before world e e1 e2 step b st st' l :
  only l e e1 → ws_id step ∉ l → step_went world e1 e2 step b st st' → step_went world e e2 step b st st'.
Proof.
  intros Ho Hl. pose proof (only_run _ _ _ Ho) as Hr. destruct Ho as [R O W]. intros [].
  assert (rows_of e1 !! (run_of e, ws_id step) = rows_of e !! (run_of e, ws_id step)) as Hrow.
  { apply W. intros i Hi. apply key_ne. intros E. apply Hl. by rewrite E. }
  rewrite Hr, ?Hrow in *. split; first [assumption|by rewrite <-O].
Qed.
Lemma walked_before world l e e1 e2 order bs :
  only l e e1 → (∀ s, s ∈ order → ws_id s ∉ l) → walked world e1 e2 order bs → walked world e e2 order bs.
Proof.
  intros Ho Hl Hw. induction Hw as [|step order b bs st st' Hs Hw IH]; [constructor|].
  econstructor; [|apply IH; intros s Hs'; apply Hl; by right]. eapply step_went_before; [done| |done]. apply Hl. left.
Qed.
Lemma walked_after world l e e1 e2 order bs :
  run_of e1 = run_of e → only l e1 e2 → (∀ s, s ∈ order → ws_id s ∉ l) → walked world e e1 order bs → walked world e e2 order bs.
Proof.
  intros Hr Ho Hl Hw. induction Hw as [|step order b bs st st' Hs Hw IH]; [constructor|].
  econstructor; [|apply IH; intros s Hs'; apply Hl; by right]. eapply step_went_after; [done|done|done|]. apply Hl. left.
Qed.

(** One more step, and the rest. *)
Lemma drove_cons world step order e e1 e2 b st st' :
  ws_id step ∉ step_ids order → only [ws_id step] e e1 → step_went world e e1 step b st st' → en_calls e1 = en_calls e ++ b →
  drove world order e1 e2 → drove world (step :: order) e e2.
Proof.
  intros Hn Ho Hs Hc [Ho2 (bs & Hw & Hc2)]. split.
  - by apply (only_app [ws_id step] (step_ids order) e e1 e2).
  - exists (b :: bs). split; [|by rewrite Hc2, Hc, <-app_assoc]. econstructor.
    + eapply step_went_after; [done|by eapply only_run|done|done].
    + eapply walked_before; [done| |done]. intros s Hs' Hin. apply Hn.
      apply list_elem_of_singleton in Hin. rewrite <-Hin. by apply list_elem_of_fmap_2.
Qed.
Lemma drove_quiet world order e e1 e2 : quiet e e1 → drove world order e1 e2 → drove world order e e2.
Proof.
  intros Hq [Ho (bs & Hw & Hc)]. split; [by apply (only_app [] _ e e1 e2); [apply quiet_only|]|].
  exists bs. split; [|rewrite Hc; f_equal; apply Hq]. eapply (walked_before world []); [by apply quiet_only| |done].
  intros s _. apply not_elem_of_nil.
Qed.
Lemma drove_then_quiet world order e e1 e2 : drove world order e e1 → quiet e1 e2 → drove world order e e2.
Proof.
  intros [Ho (bs & Hw & Hc)] Hq. split; [by rewrite <-(app_nil_r (step_ids order)); eapply only_app; [|apply quiet_only]|].
  exists bs. split; [|rewrite <-Hc; apply Hq]. eapply (walked_after world []); [by eapply only_run|by apply quiet_only| |done].
  intros s _. apply not_elem_of_nil.
Qed.

Section DriveSteps.
Context (world : nat → moment) (repr : json → string) (digest : json → string).

Definition there (e : Engine) (step : WorkflowStep) : Prop := ∃ st, steps_of e !! ws_id step = Some st ∧
  (sn_state st = STEP_PENDING ∨ step_done (sn_state st) = true).
Lemma there_only l e e1 step : only l e e1 → ws_id step ∉ l → there e step → there e1 step.
Proof using Type. intros Ho Hl (st & Hst & H). exists st. split; [|done]. by rewrite (on_others _ _ _ Ho). Qed.

(** The step is not touched any more. *)
Lemma step_untouched e step st : steps_of e !! ws_id step = Some st → step_done (sn_state st) = true →
  step_went world e e step [] st st.
Proof using Type.
  intros Hst Hd. split; try done.
  - unfold step_done in Hd. apply bool_decide_eq_true in Hd. unfold step_over. set_solver.
  - constructor.
  - simpl. lia.
  - intros _ H. by apply H.
Qed.

(** What [_run_step] leaves, unless it raises. *)
Lemma only_doing id e0 c e st b w : doing id e0 c e st b w → only [id] e0 e.
Proof using Type.
  intros []. split; [done| |].
  - intros i Hi. apply dg_others0. intros ->. apply Hi. left.
  - intros k Hk. apply dg_rows0, Hk. left.
Qed.
(** The run, with [step] as its current one. *)
Definition begin_step (e : Engine) (step : WorkflowStep) : Engine :=
  en_set_record e (yr_set_current (en_record e) (Some (ws_id step)) (yr_finished_at (en_record e))).
Lemma only_begin e step : only [] e (begin_step e step).
Proof using Type. by split. Qed.

Lemma wp_run_step step e st0 : steps_of e !! ws_id step = Some st0 →
  wp (_run_step world repr digest step) e (λ _ e', ended world step (begin_step e step) e')
    (λ x e', at_work world step (begin_step e step) false e' (budget step) ∧ breaks world repr step x).
Proof using Type.
  intros Hst. unfold _run_step. apply wp_bind, wp_modify. fold (begin_step e step).
  set (e1 := begin_step e step). set (w := rows_of e !! (run_of e, ws_id step)).
  assert (doing (ws_id step) e1 false e1 st0 [] w) as Hd1.
  { split; try done. by rewrite app_nil_r. }
  apply wp_bind. eapply wp_doing_step; [done|]. apply wp_bind. eapply wp_doing_on_step; [done|]. intros e2 Hd2.
  apply wp_bind. eapply wp_doing_journal_step; [done|]. intros e3 w' Hd3 Hup _.
  assert (at_work world step e1 false e3 1) as Hw3.
  { exists (sn_set_state st0 STEP_RUNNING), [], w'. split_and!; try done; [constructor|unfold unspent; destruct (sn_reprompted _); simpl; lia|].
    intros Hall row Hrow. by apply (Hup Hall row). }
  apply wp_bind. eapply wp_work_calm; [done|auto with calm|]. intros _ e4 Hw4.
  apply wp_bind. eapply wp_work_step; [done|]. intros st _.
  apply wp_bind. eapply wp_work_calm; [done|auto with calm|]. intros _ e5 Hw5.
  apply wp_attempts with (n := 1%nat); [done|]. unfold budget. lia.
Qed.

(** What a step that came to its end leaves, and where it leaves the run. *)
Record ran (step : WorkflowStep) (e e' : Engine) (st st' : StepRun) (b : list (string * string)) : Prop := {
  rn_only : only [ws_id step] e e';
  rn_went : step_went world e e' step b st st';
  rn_calls : en_calls e' = en_calls e ++ b;
  rn_stop : sn_state st' ∈ [STEP_CANCELLED; STEP_SKIPPED] → yr_cancelled (en_record e') = true ∨ agent_stops world;
  rn_state : sn_state st' = STEP_FAILED ∧ halts step ∧ yr_state (en_record e') = RUN_FAILED ∨
             ~ (sn_state st' = STEP_FAILED ∧ halts step) ∧ asked (en_record e) (en_record e');
}.
Lemma ended_ran step e e' st : steps_of e !! ws_id step = Some st → step_done (sn_state st) = false →
  ended world step (begin_step e step) e' → ∃ st' b, ran step e e' st st' b.
Proof using Type.
  intros Hst Hnd (c & st' & e1 & (b & w & Hd & Hb & Hn & Hshows) & Hover & Hstop & Hend). exists st', b.
  pose proof (only_doing _ _ _ _ _ _ _ Hd) as Ho1. pose proof (only_app _ _ _ _ _ (only_begin e step) Ho1) as Ho. simpl in Ho.
  assert (only [ws_id step] e e' ∧ steps_of e' = steps_of e1 ∧ rows_of e' = rows_of e1 ∧ en_calls e' = en_calls e1
          ∧ yr_cancelled (en_record e') = yr_cancelled (en_record e1)) as (Ho' & Es & Er & Ec & Ex).
  { destruct Hend as [(_ & _ & ->)|(_ & ->)]; [|done]. split; [|done]. destruct Ho as [R O W]. split; [by destruct R|done|done]. }
  destruct Hd as [D1 D2 D3 D4 D5 D6 D7 D8 D9 D10]. split.
  - done.
  - split; rewrite ?Es, ?Er; try done.
    + by rewrite Hnd.
    + intros Hall _. change (run_of e) with (run_of (begin_step e step)). rewrite D7. by apply Hshows.
    + change (run_of e) with (run_of (begin_step e step)). by rewrite D7.
  - by rewrite Ec, D9.
  - rewrite Ex. intros H. destruct (Hstop H) as [Hc|Hs]; [left; by apply D10|by right].
  - destruct Hend as [(F & H & ->)|(F & ->)]; [by left|right]. by split.
Qed.

(** The steps that are skipped. *)
Definition left_alone (e e' : Engine) (step : WorkflowStep) : Prop := ∃ st st',
  steps_of e !! ws_id step = Some st ∧ steps_of e' !! ws_id step = Some st' ∧
  (step_done (sn_state st) = true ∨ sn_state st' = STEP_SKIPPED).
Lemma wp_skip_one step e st : steps_of e !! ws_id step = Some st → sn_state st = STEP_PENDING →
  ∀ (Q : () → Engine → Prop) E, 
  (∀ e' st', only [ws_id step] e e' → step_went world e e' step [] st st' → sn_state st' = STEP_SKIPPED → en_calls e' = en_calls e →
    asked (en_record e) (en_record e') → Q () e') →
  wp (on_step (ws_id step) (λ st, sn_set_state st STEP_SKIPPED) ;;
      _journal_step world (ws_id step) None ;;
      st ← the_step (ws_id step);
      r ← gets en_record;
      _journal_event world (event "step.skipped" (Some (ws_id step)) None (state_name (sn_state st)) None None None None
        (Some (if yr_cancelled r then "cancelled" else "upstream_halt")%string) None None)) e Q E.
Proof using Type.
  intros Hst Hp Q E HQ. set (w := rows_of e !! (run_of e, ws_id step)).
  assert (doing (ws_id step) e false e st [] w) as Hd.
  { split; try done. by rewrite app_nil_r. }
  apply wp_bind. eapply wp_doing_on_step; [done|]. intros e1 Hd1.
  apply wp_bind. eapply wp_doing_journal_step; [done|]. intros e2 w' Hd2 Hup _.
  apply wp_bind. eapply wp_doing_step; [done|]. apply wp_bind, wp_gets.
  eapply wp_doing_calm; [done|auto with calm|]. intros [] e3 Hd3.
  pose proof (only_doing _ _ _ _ _ _ _ Hd3) as Ho. destruct Hd3 as [D1 D2 D3 D4 D5 D6 D7 D8 D9 D10].
  apply (HQ e3 (sn_set_state st STEP_SKIPPED)); [done| |done|by rewrite D9, app_nil_r|done].
  split; try done.
  - simpl. unfold step_over. set_solver.
  - constructor.
  - simpl. lia.
  - by rewrite Hp.
  - intros Hall _. rewrite D7. by apply Hup.
  - by rewrite D7.
Qed.

(** How a walk leaves its steps. *)
Definition ends_as (P : WorkflowStep → StepRun → StepRun → Prop) (e e' : Engine) (order : list WorkflowStep) : Prop :=
  ∀ step, step ∈ order → ∃ st st', steps_of e !! ws_id step = Some st ∧ steps_of e' !! ws_id step = Some st' ∧ P step st st'.
Definition skipped_or_kept (_ : WorkflowStep) (st st' : StepRun) : Prop := step_done (sn_state st) = true ∨ sn_state st' = STEP_SKIPPED.

Lemma ends_as_cons P step order e e1 e2 st st' l :
  only l e1 e2 → ws_id step ∉ l → only [ws_id step] e e1 → ws_id step ∉ step_ids order →
  steps_of e !! ws_id step = Some st → steps_of e1 !! ws_id step = Some st' → P step st st' →
  ends_as P e1 e2 order → ends_as P e e2 (step :: order).
Proof using Type.
  intros Ho Hl Ho1 Hn Hst Hst' HP Hrest s [->|Hs]%elem_of_cons.
  - exists st, st'. split_and!; try done. by rewrite (on_others _ _ _ Ho).
  - destruct (Hrest s Hs) as (u & u' & Hu & Hu' & HPu). exists u, u'. split_and!; try done.
    rewrite <-(on_others _ _ _ Ho1); [done|]. intros Hin%list_elem_of_singleton. apply Hn. rewrite <-Hin. by apply list_elem_of_fmap_2.
Qed.

Lemma drove_nil e : drove world [] e e.
Proof using Type. split; [by split|]. exists []. split; [constructor|]. by rewrite app_nil_r. Qed.
Lemma step_ids_cons step order : NoDup (step_ids (step :: order)) → ws_id step ∉ step_ids order ∧ NoDup (step_ids order).
Proof using Type. intros H. by apply NoDup_cons in H. Qed.
Lemma there_rest step order e e1 :
  ws_id step ∉ step_ids order → only [ws_id step] e e1 → (∀ s, s ∈ step :: order → there e s) → ∀ s, s ∈ order → there e1 s.
Proof using Type.
  intros Hn Ho Ht s Hs. eapply there_only; [done| |by apply Ht; right].
  intros Hin%list_elem_of_singleton. apply Hn. rewrite <-Hin. by apply list_elem_of_fmap_2.
Qed.

Lemma wp_skip_remaining order : ∀ e, NoDup (step_ids order) → (∀ s, s ∈ order → there e s) →
  wp (_skip_remaining world order) e (λ _ e', drove world order e e' ∧ asked (en_record e) (en_record e') ∧
    ends_as skipped_or_kept e e' order) (λ _ _, False).
Proof using Type.
  induction order as [|step order IH]; intros e Hnd Ht.
  { apply wp_ret. split; [apply drove_nil|]. split; [done|]. by intros s ?%not_elem_of_nil. }
  apply step_ids_cons in Hnd as [Hn Hnd]. unfold _skip_remaining. cbn [for_each]. fold (_skip_remaining world order). apply wp_bind.
  destruct (Ht step ltac:(left)) as (st & Hst & Hs). apply wp_bind.
  unfold the_step at 1. apply wp_bind, wp_gets. unfold steps_of in Hst. rewrite Hst. fold (steps_of e) in Hst. apply wp_ret.
  assert (∀ e1 st1, only [ws_id step] e e1 → step_went world e e1 step [] st st1 → en_calls e1 = en_calls e →
    asked (en_record e) (en_record e1) → skipped_or_kept step st st1 →
    wp (_skip_remaining world order) e1 (λ _ e', drove world (step :: order) e e' ∧ asked (en_record e) (en_record e') ∧
      ends_as skipped_or_kept e e' (step :: order)) (λ _ _, False)) as Hnext.
  { intros e1 st1 Ho Hw Hc Ha HP. eapply wp_mono; [apply IH; [done|by apply (there_rest step order e e1)]| |done].
    intros _ e2 (Hd & Ha2 & He). split; [|split].
    - eapply drove_cons; [done|done|done|by rewrite app_nil_r|done].
    - by etrans.
    - eapply ends_as_cons; [apply Hd|done|done|done|done|apply Hw|done|done]. }
  destruct (decide (sn_state st = STEP_PENDING)) as [Hp|Hp].
  - eapply wp_skip_one; [done|done|]. intros e1 st1 Ho Hw Hsk Hc Ha. eapply Hnext; try done. by right.
  - destruct Hs as [Hs|Hs]; [done|]. apply wp_ret. eapply (Hnext e st); [by split|by apply step_untouched|done|done|by left].
Qed.

(** ** Where a run stands *)

Definition alive (r : RunRecord) : Prop :=
  yr_cancelled r = false ∧ yr_state r = RUN_RUNNING ∨ yr_cancelled r = true ∧ yr_state r = RUN_CANCELLING.
Lemma alive_asked r r' : alive r → asked r r' → alive r'.
Proof using Type.
  intros Ha [[E1 E2]|(_ & E1 & E2)]; [|by right]. unfold alive. by rewrite E1, E2.
Qed.
Definition fine (step : WorkflowStep) (st st' : StepRun) : Prop :=
  ~ (sn_state st' = STEP_FAILED ∧ halts step) ∧
  (step_done (sn_state st) = true ∨ (sn_state st' ∈ [STEP_CANCELLED; STEP_SKIPPED] → agent_stops world)).
(** Cancelled; or stopped by a step that failed; or through. *)
Definition come_to (order : list WorkflowStep) (e e' : Engine) : Prop :=
  (yr_cancelled (en_record e') = true ∧ (yr_state (en_record e') = RUN_CANCELLED ∨ yr_state (en_record e') = RUN_CANCELLING)) ∨
  (yr_cancelled (en_record e') = false ∧ yr_state (en_record e') = RUN_FAILED ∧
   ∃ step st, step ∈ order ∧ steps_of e' !! ws_id step = Some st ∧ sn_state st = STEP_FAILED ∧ halts step) ∨
  (yr_cancelled (en_record e') = false ∧ yr_state (en_record e') = RUN_RUNNING ∧ ends_as fine e e' order).

Lemma wp_boundary_cancel rest e : NoDup (step_ids rest) → (∀ s, s ∈ rest → there e s) → yr_cancelled (en_record e) = true →
  wp (boundary_cancel world rest) e (λ _ e', drove world rest e e' ∧ yr_cancelled (en_record e') = true ∧
    yr_state (en_record e') = RUN_CANCELLED) (λ _ _, False).
Proof using Type.
  intros Hnd Ht Hc. unfold boundary_cancel. apply wp_bind. eapply wp_calm; [auto with calm|]. intros _ e1 Hq.
  apply wp_bind. eapply wp_mono; [apply wp_skip_remaining; [done|]| |done].
  { intros s Hs. eapply there_only; [by apply quiet_only|apply not_elem_of_nil|by apply Ht]. }
  intros _ e2 (Hd & Ha & _). apply wp_modify.
  pose proof (asked_cancelled _ _ (qt_asked _ _ Hq) Hc) as Hc1. pose proof (asked_cancelled _ _ Ha Hc1) as Hc2.
  split; [|by split]. eapply drove_quiet; [done|]. destruct Hd as [[R O W] Hd]. split; [split; [by destruct R|done|done]|].
  destruct Hd as (bs & Hw & Hcalls). exists bs. split; [|done]. clear -Hw.
  induction Hw as [|step order b bs st st' [] Hw IH]; [constructor|]. econstructor; [|done]. by split.
Qed.

(** The prompts of a step: as many as it may cost, none if it was done before. *)
Definition cost (e : Engine) (step : WorkflowStep) (b : list (string * string)) : Prop :=
  block_of step b ∧ (length b ≤ budget step)%nat ∧
  (∀ st, steps_of e !! ws_id step = Some st → step_done (sn_state st) = true → b = []).
Lemma walked_cost e e' order bs : walked world e e' order bs → Forall2 (cost e) order bs.
Proof using Type.
  induction 1 as [|step order b bs st st' [] Hw IH]; constructor; [|done]. split; [done|]. split; [done|].
  intros u Hu Hd. rewrite sw_before0 in Hu. injection Hu as <-. by apply sw_kept0.
Qed.
Lemma cost_only l e e1 step b : only l e e1 → ws_id step ∉ l → cost e1 step b → cost e step b.
Proof using Type. intros Ho Hl (H1 & H2 & H3). split; [done|]. split; [done|]. intros st Hst. apply H3. by rewrite (on_others _ _ _ Ho). Qed.
Lemma costs_only l e e1 order bs : only l e e1 → (∀ s, s ∈ order → ws_id s ∉ l) → Forall2 (cost e1) order bs → Forall2 (cost e) order bs.
Proof using Type.
  intros Ho Hl Hc. induction Hc as [|s b order bs Hs Hc IH]; constructor.
  - eapply cost_only; [done| |done]. apply Hl. left.
  - apply IH. intros t Ht. apply Hl. by right.
Qed.

(** An exception leaves the drive: a step is still RUNNING. *)
Definition broke (order : list WorkflowStep) (e : Engine) (x : exn) (e' : Engine) : Prop := ∃ before step after bs st,
  order = before ++ step :: after ∧ Forall2 (cost e) (before ++ [step]) bs ∧ en_calls e' = en_calls e ++ concat bs ∧ breaks world repr step x ∧ steps_of e' !! ws_id step = Some st ∧ sn_state st = STEP_RUNNING ∧
  yr_current (en_record e') = Some (ws_id step) ∧ same_run (en_record e) (en_record e') ∧ alive (en_record e') ∧
  (all_up world → says STEP_RUNNING (rows_of e' !! (run_of e', ws_id step))).

Lemma working_broke step order e e' x : at_work world step (begin_step e step) false e' (budget step) → breaks world repr step x →
  alive (en_record e) → (∀ st, steps_of e !! ws_id step = Some st → step_done (sn_state st) = false) → broke (step :: order) e x e'.
Proof using Type.
  intros (st & b & w & Hd & Hst & Hb & Hn & Hrow) Hx Ha Hnd. pose proof (doing_run _ _ _ _ _ _ _ Hd) as Hr.
  destruct Hd as [D1 D2 D3 D4 D5 D6 D7 D8 D9 D10]. exists [], step, order, [b], st. split_and!; try done.
  - constructor; [|constructor]. split; [done|]. split; [unfold unspent in Hn; destruct (sn_reprompted st); lia|].
    intros u Hu. by rewrite (Hnd u Hu).
  - rewrite D9. simpl. by rewrite app_nil_r.
  - by destruct D1.
  - by apply (alive_asked (en_record (begin_step e step))).
  - intros Hall. rewrite Hr, D7. by apply Hrow.
Qed.

Lemma wp_drive_steps order : ∀ e, NoDup (step_ids order) → (∀ s, s ∈ order → there e s) → alive (en_record e) →
  wp (drive_steps world repr digest order) e (λ _ e', drove world order e e' ∧ come_to order e e') (broke order e).
Proof using digest repr world.
  induction order as [|step order IH]; intros e Hnd Ht Ha.
  { apply wp_ret. split; [apply drove_nil|]. destruct Ha as [[H1 H2]|[H1 H2]]; [|by left; split; [|right]].
    right. right. split_and!; [done|done|]. by intros s ?%not_elem_of_nil. }
  cbn [drive_steps]. apply wp_bind, wp_gets. destruct (yr_cancelled (en_record e)) eqn:Hc.
  { eapply wp_mono; [by apply wp_boundary_cancel| |done]. intros _ e' (Hd & H1 & H2). split; [done|]. left. split; [done|by left]. }
  assert (yr_state (en_record e) = RUN_RUNNING) as Hrun by (destruct Ha as [[_ ?]|[? _]]; [done|congruence]).
  apply step_ids_cons in Hnd as [Hn Hnd]. destruct (Ht step ltac:(left)) as (st & Hst & Hs).
  apply wp_bind. unfold the_step at 1. apply wp_bind, wp_gets. unfold steps_of in Hst. rewrite Hst. fold (steps_of e) in Hst. apply wp_ret.
  (** what follows a step that let the run go on *)
  assert (∀ e1 st1 b, only [ws_id step] e e1 → step_went world e e1 step b st st1 → en_calls e1 = en_calls e ++ b →
    yr_cancelled (en_record e1) = false → yr_state (en_record e1) = RUN_RUNNING → fine step st st1 →
    wp (drive_steps world repr digest order) e1 (λ _ e', drove world (step :: order) e e' ∧ come_to (step :: order) e e')
      (broke (step :: order) e)) as Hnext.
  { intros e1 st1 b Ho Hw Hcalls Hc1 Hr1 HP. eapply wp_mono; [apply IH; [done|by apply (there_rest step order e e1)|by left]| |].
    - intros _ e2 [Hd Hcome]. split; [by eapply drove_cons|].
      destruct Hcome as [?|[(H1 & H2 & s & u & Hs' & Hu)|(H1 & H2 & H3)]]; [by left| |].
      + right. left. split_and!; [done|done|]. exists s, u. split; [by right|done].
      + right. right. split_and!; [done|done|]. eapply ends_as_cons; [apply Hd|done|done|done|done|apply Hw|done|done].
    - intros x e2 (before & s & after & bs & u & -> & Hcost & Hcalls2 & Hb & Hu & Hur & Hcur & Hsame & Hal & Hsay).
      exists (step :: before), s, after, (b :: bs), u. split_and!; try done; [|by rewrite Hcalls2, Hcalls, <-app_assoc|by etrans; [apply Ho|]].
      simpl. constructor.
      + assert (walked world e e1 [step] [b]) as Hwk by (by econstructor; [|constructor]).
        apply walked_cost in Hwk. by apply Forall2_cons in Hwk as [? _].
      + eapply costs_only; [exact Ho| |done]. intros t Hmem Hin%list_elem_of_singleton. apply Hn. rewrite <-Hin.
        apply list_elem_of_fmap_2. rewrite !elem_of_app, list_elem_of_singleton in *. destruct Hmem as [?| ->]; [by left|right; left]. }
  destruct (step_done (sn_state st)) eqn:Hdone.
  { eapply (Hnext e st []); [by split|by apply step_untouched|by rewrite app_nil_r|done|done|].
    split; [|by left]. intros [E _]. by rewrite E in Hdone. }
  apply wp_bind. eapply wp_mono; [by eapply wp_run_step| |].
  2:{ intros x e1 [Hw Hx]. eapply working_broke; [done|done|done|]. intros u Hu. congruence. }
  intros [] e1 (st1 & b & [Ho Hw Hcalls Hstop Hstate])%(ended_ran step e e1 st); [|done|done].
  assert (∀ s, s ∈ order → there e1 s) as Ht1 by (by apply (there_rest step order e e1)).
  apply wp_bind, wp_gets. destruct (yr_cancelled (en_record e1)) eqn:Hc1.
  { eapply wp_mono; [by apply wp_boundary_cancel| |done]. intros _ e2 (Hd & H1 & H2). split; [by eapply drove_cons|].
    left. split; [done|by left]. }
  destruct (decide (yr_state (en_record e1) = RUN_FAILED)) as [Hf|Hf].
  - eapply wp_mono; [by apply wp_skip_remaining| |done]. intros _ e2 (Hd & Ha2 & _). split; [by eapply drove_cons|].
    right. left. destruct Ha2 as [[E1 E2]|(Hover & _)]; [|by rewrite Hf in Hover].
    split; [congruence|]. split; [congruence|]. exists step, st1. split; [left|]. split.
    + by rewrite (on_others _ _ _ (dr_only _ _ _ _ Hd)); [apply Hw|].
    + destruct Hstate as [(H1 & H2 & _)|(_ & [[E _]|(_ & E & _)])]; [done|congruence|congruence].
  - destruct Hstate as [(_ & _ & ?)|(Hnf & Ha1)]; [done|]. apply (Hnext e1 st1 b); try done.
    + destruct Ha1 as [[E _]|(_ & _ & E)]; congruence.
    + split; [done|]. right. intros Hin. destruct (Hstop Hin) as [?|?]; [congruence|done].
Qed.
End DriveSteps.
