(* ===== verification/EngineRuns.v ===== *)
(** * How a drive ends

    Every way out of [_drive]: the run is over and its steps are accounted for, an
    error of the engine has been recorded, or another exception has left the run as
    if it were still going. *)

From stdpp Require Import gmap.
From S2P Require Import Prelude Text Secrets Envelope Journal Steps Workflow Order Template Wp Engine EngineThms.

(** The record of a run but for its end. *)
Record same_run_so_far (r r' : RunRecord) : Prop := {
  ss_run_id : yr_run_id r' = yr_run_id r;
  ss_name : yr_workflow_name r' = yr_workflow_name r;
  ss_spec : yr_spec r' = yr_spec r;
  ss_inputs : yr_inputs r' = yr_inputs r;
  ss_started : yr_started_at r' = yr_started_at r;
}.
Lemma same_run_far r r' : same_run r r' → same_run_so_far r r'.
Proof. by intros []. Qed.
#[export] Instance same_run_so_far_preorder : PreOrder same_run_so_far.
Proof. split; [done|]. intros r1 r2 r3 [] []. split; congruence. Qed.

(** The run is over. *)
Record closed_run (state : RunState) (e e' : Engine) : Prop := {
  cl_run : same_run_so_far (en_record e) (en_record e');
  cl_state : yr_state (en_record e') = state;
  cl_current : yr_current (en_record e') = None;
  cl_finished : is_Some (yr_finished_at (en_record e'));
  cl_cancelled : yr_cancelled (en_record e') = yr_cancelled (en_record e);
  cl_steps : steps_of e' = steps_of e;
  cl_rows : rows_of e' = rows_of e;
  cl_calls : en_calls e' = en_calls e;
}.
Lemma closed_quiet state e e1 e2 : run_over state = true → closed_run state e e1 → quiet e1 e2 → closed_run state e e2.
Proof.
  intros Ho [] []. destruct qt_asked as [[A1 A2]|(A & _)]; [|rewrite cl_state0 in A; congruence].
  split; try congruence.
  - etrans; [done|by apply same_run_far].
  - destruct qt_run as [_ _ _ _ _ ->]. done.
Qed.

Definition final_state (cancelled : bool) (state : RunState) : RunState :=
  if cancelled then RUN_CANCELLED else if decide (state = RUN_FAILED) then RUN_FAILED else RUN_COMPLETED.

Section Ends.
Context (world : nat → moment) (repr : json → string) (digest : json → string).

Lemma wp_finalize e :
  (yr_cancelled (en_record e) = false → yr_state (en_record e) ∈ [RUN_FAILED; RUN_RUNNING]) →
  wp (finalize_run world) e (λ _ e', closed_run (final_state (yr_cancelled (en_record e)) (yr_state (en_record e))) e e') (λ _ _, False).
Proof using Type.
  intros Hstate. unfold finalize_run. apply wp_bind, wp_gets. set (c := yr_cancelled (en_record e)). set (s := yr_state (en_record e)).
  assert (∀ e1, same_run_so_far (en_record e) (en_record e1) → yr_cancelled (en_record e1) = c →
    steps_of e1 = steps_of e → rows_of e1 = rows_of e → en_calls e1 = en_calls e →
    yr_state (if decide (yr_state (en_record e1) ∈ [RUN_FAILED; RUN_CANCELLED]) then en_record e1
              else yr_set_state (en_record e1) RUN_COMPLETED) = final_state c s →
    run_over (final_state c s) = true →
    wp (on_record (λ r, if decide (yr_state r ∈ [RUN_FAILED; RUN_CANCELLED]) then r else yr_set_state r RUN_COMPLETED) ;;
        now ← gets (λ e, mo_now (world (en_clock e)));
        on_record (λ r, yr_set_current r None (Some now)) ;;
        _journal_current_step world ;;
        r ← gets en_record;
        _journal_event world (final_event (yr_state r)) ;;
        _journal_run_state world) e1 (λ _ e', closed_run (final_state c s) e e') (λ _ _, False)) as Hrest.
  { intros e1 Hsame Hc Hs Hr Hk Hst Hover. apply wp_bind, wp_modify, wp_bind, wp_gets, wp_bind, wp_modify.
    set (e2 := en_set_record _ _). assert (closed_run (final_state c s) e e2) as Hcl.
    { destruct Hsame. split; unfold e2; cbn; try done; destruct (decide _); done. }
    apply wp_bind. eapply wp_calm; [auto with calm|]. intros _ e3 H3. apply wp_bind, wp_gets.
    apply wp_bind. eapply wp_calm; [auto with calm|]. intros _ e4 H4. eapply wp_calm; [auto with calm|]. intros _ e5 H5.
    eapply closed_quiet; [done| |exact H5]. eapply closed_quiet; [done| |exact H4]. by eapply closed_quiet. }
  apply wp_bind. destruct c eqn:Hc; unfold c in Hc.
  - apply wp_bind. eapply wp_calm; [auto with calm|]. intros _ e1 Hq. apply wp_modify. apply Hrest; try done.
    + destruct Hq as [[] _ _ _ _ _]. done.
    + simpl. by eapply asked_cancelled; [apply Hq|].
    + apply Hq.
    + apply Hq.
    + apply Hq.
  - apply wp_ret. specialize (Hstate Hc). apply Hrest; try done; fold s in Hstate |- *; unfold final_state;
      apply elem_of_cons in Hstate as [E | E%list_elem_of_singleton]; rewrite ?E; done.
Qed.

Lemma wp_build_result order e : (∀ s, s ∈ order → is_Some (steps_of e !! ws_id s)) →
  wp (_build_result order) e (λ res e', e' = e ∧ wr_run_id res = run_of e ∧ wr_workflow_name res = yr_workflow_name (en_record e) ∧
    wr_state res = yr_state (en_record e) ∧ wr_started_at res = yr_started_at (en_record e) ∧
    wr_finished_at res = yr_finished_at (en_record e) ∧
    Forall2 (λ s r, ∃ st, steps_of e !! ws_id s = Some st ∧ r = step_result (ws_id s) st) order (wr_steps res)) (λ _ _, False).
Proof using Type.
  intros Hall. unfold _build_result. apply wp_bind.
  assert (∀ todo acc before, before ++ todo = order →
    Forall2 (λ s r, ∃ st, steps_of e !! ws_id s = Some st ∧ r = step_result (ws_id s) st) before acc →
    wp (for_each todo acc (λ steps step, st ← the_step (ws_id step); mret (steps ++ [step_result (ws_id step) st]))) e
      (λ steps e', e' = e ∧ Forall2 (λ s r, ∃ st, steps_of e !! ws_id s = Some st ∧ r = step_result (ws_id s) st) order steps)
      (λ _ _, False)) as H.
  { induction todo as [|s todo IH]; intros acc before E Hacc.
    - apply wp_ret. split; [done|]. by rewrite <-E, app_nil_r.
    - cbn [for_each]. apply wp_bind, wp_bind. unfold the_step. apply wp_bind, wp_gets.
      destruct (Hall s) as [st Hst]; [rewrite <-E; apply elem_of_app; right; left|]. pose proof Hst as Hst'. unfold steps_of in Hst'.
      rewrite Hst'. apply wp_ret, wp_ret. apply (IH _ (before ++ [s])); [by rewrite <-app_assoc|].
      apply Forall2_app; [done|]. constructor; [by exists st|constructor]. }
  eapply wp_mono; [apply (H order [] [] eq_refl); constructor| |done]. intros steps e1 [-> Hf]. by apply wp_bind, wp_gets, wp_ret.
Qed.

Lemma wp_engine_failed {A} x e id st : yr_current (en_record e) = Some id → steps_of e !! id = Some st →
  sn_state st = STEP_RUNNING →
  wp (engine_failed world x : M Engine A) e (λ _ _, False) (λ y e', y = x ∧
    same_run_so_far (en_record e) (en_record e') ∧ yr_state (en_record e') = RUN_FAILED ∧ yr_current (en_record e') = None ∧
    is_Some (yr_finished_at (en_record e')) ∧ steps_of e' = <[id := sn_set_state st STEP_FAILED]> (steps_of e) ∧
    rows_of e' = rows_of e ∧ en_calls e' = en_calls e).
Proof using Type.
  intros Hcur Hst Hrun. unfold engine_failed. apply wp_bind, wp_gets. rewrite Hcur. apply wp_bind, wp_modify.
  set (e1 := en_set_record _ _).
  assert (steps_of e1 = <[id := sn_set_state st STEP_FAILED]> (steps_of e)) as Hs1.
  { unfold steps_of, e1. cbn. apply map_eq. intros j. destruct (decide (j = id)) as [->|Hj].
    - rewrite lookup_alter_eq, lookup_insert_eq. unfold steps_of in Hst. rewrite Hst. simpl. unfold step_done.
      by rewrite Hrun.
    - by rewrite lookup_alter_ne, lookup_insert_ne by done. }
  apply wp_bind, wp_gets, wp_bind, wp_modify. set (e2 := en_set_record _ _).
  assert (closed_run RUN_FAILED e1 e2) as H2 by (by split).
  apply wp_bind. eapply wp_calm; [auto with calm|]. intros _ e3 H3. apply wp_bind, wp_gets.
  apply wp_bind. eapply wp_calm; [auto with calm|]. intros _ e4 H4. apply wp_bind. eapply wp_calm; [auto with calm|]. intros _ e5 H5.
  apply wp_raise. assert (closed_run RUN_FAILED e1 e5) as [C1 C2 C3 C4 C5 C6 C7 C8].
  { eapply closed_quiet; [done| |exact H5]. eapply closed_quiet; [done| |exact H4]. by eapply closed_quiet. }
  split_and!; try done; try congruence. by destruct C1.
Qed.

(** ** The drive *)

(** What a drive starts from: every step is new or done, and the run is live. *)
Record ready (order : list WorkflowStep) (e : Engine) : Prop := {
  rd_distinct : NoDup (step_ids order);
  rd_there step : step ∈ order → there e step;
  rd_alive : alive (en_record e);
}.

(** The run came to its end, and this is its result. *)
Record came_to_end (order : list WorkflowStep) (e e' : Engine) (res : WorkflowRunResult) : Prop := {
  ce_current : yr_current (en_record e') = None;
  ce_finished : is_Some (yr_finished_at (en_record e'));
  ce_over step : step ∈ order → ∃ st, steps_of e' !! ws_id step = Some st ∧ step_over (sn_state st);
  ce_kept step st : step ∈ order → steps_of e !! ws_id step = Some st → step_done (sn_state st) = true →
    steps_of e' !! ws_id step = Some st;
  ce_cancelled : yr_cancelled (en_record e') = true → yr_state (en_record e') = RUN_CANCELLED;
  ce_through : yr_cancelled (en_record e') = false →
    (yr_state (en_record e') = RUN_FAILED ∧
     ∃ step st, step ∈ order ∧ steps_of e' !! ws_id step = Some st ∧ sn_state st = STEP_FAILED ∧ halts step) ∨
    (yr_state (en_record e') = RUN_COMPLETED ∧ ends_as (fine world) e e' order);
  ce_result : wr_state res = yr_state (en_record e') ∧ wr_finished_at res = yr_finished_at (en_record e') ∧
    Forall2 (λ s r, ∃ st, steps_of e' !! ws_id s = Some st ∧ r = step_result (ws_id s) st) order (wr_steps res);
}.
(** An exception left the drive while a step was running. *)
Definition left_by (order : list WorkflowStep) (e e' : Engine) (x : exn) : Prop := ∃ step st,
  step ∈ order ∧ breaks world repr step x ∧ steps_of e' !! ws_id step = Some st ∧
  (all_up world → says STEP_RUNNING (rows_of e' !! (run_of e', ws_id step))) ∧
  (if is_engine_error x
   then sn_state st = STEP_FAILED ∧ yr_state (en_record e') = RUN_FAILED ∧ yr_current (en_record e') = None ∧
        is_Some (yr_finished_at (en_record e'))
   else sn_state st = STEP_RUNNING ∧ alive (en_record e') ∧ yr_current (en_record e') = Some (ws_id step) ∧
        yr_finished_at (en_record e') = yr_finished_at (en_record e)).
(** The prompts: in the order of the steps, each within its budget. *)
Definition prompted (ran : list WorkflowStep) (e e' : Engine) : Prop := ∃ bs,
  Forall2 (cost e) ran bs ∧ en_calls e' = en_calls e ++ concat bs.

Lemma walked_at e e' order bs step : walked world e e' order bs → step ∈ order →
  ∃ b st st', step_went world e e' step b st st'.
Proof using Type.
  intros Hw. induction Hw as [|s order b bs st st' Hs Hw IH]; [by intros ?%not_elem_of_nil|].
  intros [->|Hin]%elem_of_cons; [by exists b, st, st'|by apply IH].
Qed.

Lemma come_to_state order e e' : come_to world order e e' →
  yr_cancelled (en_record e') = false → yr_state (en_record e') ∈ [RUN_FAILED; RUN_RUNNING].
Proof using Type. intros [[H _]|[(_ & -> & _)|(_ & -> & _)]] Hc; [congruence|left|right; left]. Qed.

Lemma came_to_end_intro order e e1 e2 res : drove world order e e1 → come_to world order e e1 →
  closed_run (final_state (yr_cancelled (en_record e1)) (yr_state (en_record e1))) e1 e2 →
  (wr_state res = yr_state (en_record e2) ∧ wr_finished_at res = yr_finished_at (en_record e2) ∧
    Forall2 (λ s r, ∃ st, steps_of e2 !! ws_id s = Some st ∧ r = step_result (ws_id s) st) order (wr_steps res)) →
  came_to_end order e e2 res.
Proof using Type.
  intros [Ho (bs & Hw & _)] Hcome [C1 C2 C3 C4 C5 C6 C7 C8] Hres.
  assert (∀ step, step ∈ order → ∃ b st st', step_went world e e1 step b st st') as Hat by (intros; by eapply walked_at).
  split; try done.
  - intros step Hin. destruct (Hat step Hin) as (b & st & st' & Hs). exists st'. rewrite C6. by destruct Hs.
  - intros step u Hin Hu Hd. destruct (Hat step Hin) as (b & st & st' & Hs). rewrite C6. destruct Hs as [S1 S2 _ _ _ S3 _ _].
    rewrite Hu in S1. injection S1 as ->. by destruct (S3 Hd) as (-> & _).
  - rewrite C2, C5. by intros ->.
  - rewrite C2, C5. intros Hc. unfold final_state. rewrite Hc.
    destruct Hcome as [[? _]|[(_ & Hst & step & st & Hin & Hst' & Hf)|(_ & Hst & He)]]; [congruence| |].
    + left. rewrite Hst. split; [done|]. exists step, st. by rewrite C6.
    + right. rewrite Hst. split; [done|]. intros step Hin. rewrite C6. by apply He.
Qed.

Lemma wp_drive order e : ready order e →
  wp (_drive world repr digest order) e
    (λ res e', came_to_end order e e' res ∧ prompted order e e' ∧
       ∃ e1, drove world order e e1 ∧ come_to world order e e1 ∧
         closed_run (final_state (yr_cancelled (en_record e1)) (yr_state (en_record e1))) e1 e')
    (λ x e', left_by order e e' x ∧ ∃ ran, ran `prefix_of` order ∧ prompted ran e e').
Proof using Type*.
  intros [Hnd Ht Ha]. unfold _drive. apply wp_bind, wp_catch. eapply wp_mono; [by apply wp_drive_steps| |].
  - intros [] e1 [Hd Hcome]. apply wp_bind. eapply wp_mono; [apply wp_finalize; by eapply come_to_state| |done].
    intros [] e2 Hcl. eapply wp_mono; [apply (wp_build_result order)| |done].
    { intros s Hs. destruct Hd as [_ (bs & Hw & _)]. destruct (walked_at _ _ _ _ s Hw Hs) as (b & st & st' & []).
      rewrite (cl_steps _ _ _ Hcl). by exists st'. }
    intros res e3 (-> & _ & _ & R1 & _ & R2 & R3). split; [by eapply came_to_end_intro|]. split; [|by exists e1].
    destruct Hd as [_ (bs & Hw & Hc)]. exists bs. split; [by eapply walked_cost|]. by rewrite (cl_calls _ _ _ Hcl).
  - intros x e1 (before & step & after & bs & st & -> & Hcost & Hcalls & Hx & Hst & Hrun & Hcur & Hsame & Hal & Hsay).
    assert (step ∈ before ++ step :: after) as Hin by (apply elem_of_app; right; left).
    assert (before ++ [step] `prefix_of` before ++ step :: after) as Hpre by (exists after; by rewrite <-app_assoc).
    destruct (is_engine_error x) eqn:Hx'.
    + eapply wp_mono; [by eapply (wp_engine_failed (A := ()) x)|done|].
      intros y e2 (-> & F1 & F2 & F3 & F4 & F5 & F6 & F7). split; [|exists (before ++ [step]); split; [done|]; exists bs; by rewrite F7].
      exists step, (sn_set_state st STEP_FAILED). rewrite Hx'. split_and!; try done.
      * by rewrite F5, lookup_insert_eq.
      * intros Hall. rewrite F6. unfold run_of. rewrite (ss_run_id _ _ F1). by apply Hsay.
    + apply wp_raise. split; [|exists (before ++ [step]); split; [done|]; by exists bs].
      exists step, st. rewrite Hx'. split_and!; try done. apply Hsame.
Qed.

(** [C10] a drive that returns leaves its run over: every step accounted for, those that
    were done before untouched, CANCELLED when the run was cancelled, FAILED when a
    step that halts the run failed, and COMPLETED when no such step failed; one that
    raises has recorded an error of the engine, and only that. *)
Theorem drives_end_settled order e : ready order e →
  match _drive world repr digest order e with
  | (e', Returned res) => came_to_end order e e' res
  | (e', Raised x) => left_by order e e' x
  end.
Proof using Type*.
  intros H. pose proof (wp_drive order e H) as Hw. unfold wp in Hw. destruct (_drive _ _ _ order e) as [e' [res|x]]; apply Hw.
Qed.

(** [C13] whatever the agents answer, the prompts are those of the steps in order, at
    most one per attempt and one more; a step that was done gets none. *)
Theorem prompts_are_bounded order e : ready order e →
  ∃ ran, ran `prefix_of` order ∧ prompted ran e (_drive world repr digest order e).1.
Proof using Type*.
  intros H. pose proof (wp_drive order e H) as Hw. unfold wp in Hw. destruct (_drive _ _ _ order e) as [e' [res|x]].
  - exists order. split; [done|]. apply Hw.
  - apply Hw.
Qed.
End Ends.
