(* ===== verification/Runs.v ===== *)
(** * Starting, resuming and cancelling YAML runs — [services/workflow_service.py]

    The server as one run id sees it: the record in [run_registry], whether a drive
    of it is active, the recovery task of a cold cancel, and the journal.  Pydantic's
    reading and writing of a spec and the JSON of the inputs are arguments. *)

From stdpp Require Import gmap.
From S2P Require Import Prelude Text Secrets Envelope Journal Steps Workflow Order Template Engine.

(** [_cancel_recovery_tasks]: the task holds the id of the step it settles. *)
Inductive recovery := NoRecovery | Recovering (step_id : option string) | Recovered.
Record Host := {
  ho_journal : journal;
  ho_outputs : list (string * string * StepOutputRecord);
  ho_registry : option RunRecord;
  ho_active : bool;
  ho_recovery : recovery;
  ho_clock : nat;
  ho_calls : list (string * string);
}.
Section HostSetters.
Context (h : Host).
Definition ho_set_journal x : Host := {| ho_journal := x; ho_outputs := ho_outputs h; ho_registry := ho_registry h;
  ho_active := ho_active h; ho_recovery := ho_recovery h; ho_clock := ho_clock h; ho_calls := ho_calls h |}.
Definition ho_register x : Host := {| ho_journal := ho_journal h; ho_outputs := ho_outputs h; ho_registry := x;
  ho_active := ho_active h; ho_recovery := ho_recovery h; ho_clock := ho_clock h; ho_calls := ho_calls h |}.
Definition ho_set_active x : Host := {| ho_journal := ho_journal h; ho_outputs := ho_outputs h; ho_registry := ho_registry h;
  ho_active := x; ho_recovery := ho_recovery h; ho_clock := ho_clock h; ho_calls := ho_calls h |}.
Definition ho_set_recovery x : Host := {| ho_journal := ho_journal h; ho_outputs := ho_outputs h; ho_registry := ho_registry h;
  ho_active := ho_active h; ho_recovery := x; ho_clock := ho_clock h; ho_calls := ho_calls h |}.
End HostSetters.

(** Code that works on the record [r], which is the registered one. *)
Definition on_run_of {A} (r : RunRecord) (m : M Engine A) : M Host A := λ h,
  let '(e, o) := m {| en_journal := ho_journal h; en_outputs := ho_outputs h; en_record := r; en_clock := ho_clock h;
                      en_calls := ho_calls h |} in
  ({| ho_journal := en_journal e; ho_outputs := en_outputs e; ho_registry := Some (en_record e); ho_active := ho_active h;
      ho_recovery := ho_recovery h; ho_clock := en_clock e; ho_calls := en_calls e |}, o).
(** [try: m finally: f], where [f] does not raise *)
Definition with_finally {S A} (m : M S A) (f : M S ()) : M S A := λ s,
  let '(s, r) := m s in ((f s).1, r).

Definition NotBuiltYetError (what : string) : exn := ExternalError ("NotBuiltYetError: " +:+ what).
Definition ResumeNotAllowedError : exn := ExternalError "ResumeNotAllowedError".
Definition ResumeCorruptError : exn := ExternalError "ResumeCorruptError".

(** [_dispatch_reserved_mode] *)
Definition _dispatch_reserved_mode (mode : spec_mode) : exn :=
  match mode with
  | parallel | pipeline => NotBuiltYetError "parallel/pipeline execution is reserved (not built yet; unit N7)"
  | loop => NotBuiltYetError "loop execution is reserved (not built yet; unit N8)"
  | sequential => NotBuiltYetError "workflow mode 'sequential' is reserved (not built yet)"
  end.

(** Which of the reads of a rebuild reach the database. *)
Record reads_up := { ru_run : bool; ru_steps : bool; ru_high_water : bool; ru_max : bool }.

Section Runs.
Context (run_id : string).
Context (world : nat → moment) (repr digest : json → string) (needs_of : WorkflowStep → list string) (depth : nat).
Context (parse_spec : string → option WorkflowSpec) (dump_spec : WorkflowSpec → string).
Context (parse_inputs : string → option (list (string * value))) (dump_inputs : list (string * value) → string).
Context (resolve : string → outcome string).

(** ** [start_run] *)

(** A journal that cannot be read does not block a new run. *)
Definition _check_run_id_available (up : bool) : M Host () :=
  h ← gets id;
  if bool_decide (is_Some (ho_registry h)) || ho_active h then raise KeyError
  else if up && bool_decide (is_Some (j_runs (ho_journal h) !! run_id)) then raise KeyError else mret ().

Definition seeded (spec : WorkflowSpec) : gmap string StepRun :=
  list_to_map ((λ s, (ws_id s, new_step_run)) <$> wf_steps spec).
Definition new_record (spec : WorkflowSpec) (inputs : list (string * value)) (started_at : string) : RunRecord := {|
  yr_run_id := run_id; yr_workflow_name := wf_name spec; yr_spec := spec; yr_inputs := inputs; yr_state := RUN_RUNNING;
  yr_current := None; yr_cancelled := false; yr_steps := seeded spec; yr_started_at := started_at; yr_finished_at := None;
  yr_cancel_task := None; yr_event_seq := 0 |}.

(** The drive of a registered record, between the marks that it is live. *)
Definition driven {A} (r : RunRecord) (m : M Engine A) : M Host A :=
  modify (λ h, ho_set_active h true) ;;
  with_finally (on_run_of r m)
    (h ← gets id;
     (match ho_registry h with Some r => on_run_of r (_await_cancelling_journal world) | None => mret () end) ;;
     modify (λ h, ho_set_active h false)).

Definition ordered_drive (spec : WorkflowSpec) : M Engine WorkflowRunResult :=
  order ← lift_outcome (_topological_order needs_of depth spec);
  _drive world repr digest order.

Definition start_run (spec : WorkflowSpec) (inputs : list (string * value)) (up : bool) : M Host WorkflowRunResult :=
  lift_outcome (_validate_key_part run_id) ;;
  _check_run_id_available up ;;
  resolved ← lift_outcome (_validate_inputs resolve (wf_inputs spec) inputs);
  if negb (bool_decide (wf_mode spec = sequential)) then raise (_dispatch_reserved_mode (wf_mode spec))
  else
    now ← gets (λ h, mo_now (world (ho_clock h)));
    let record := new_record spec resolved now in
    driven record (
      _journal_insert_run world (dump_spec spec) (dump_inputs resolved) ;;
      _journal_event world (event "run.started" None None (Some (RunState_value RUN_RUNNING)) None None None None None None None) ;;
      ordered_drive spec).
(** The entry of the route in the background: the row is there and [r] registered. *)
Definition start_run_prepared (r : RunRecord) : M Host WorkflowRunResult := driven r (ordered_drive (yr_spec r)).

(** ** The record, rebuilt *)

(** [_record_from_json]: a row that was settled is taken as valid. *)
Definition _record_from_json (output_json : option json) : option StepOutputRecord :=
  match output_json with Some (JObj l) => Some {| so_output := JObj l; so_validated := true |} | _ => None end.
Definition overlay (row : option StepRow) (st : StepRun) : StepRun :=
  match row with
  | Some row =>
      match StepState_of (sr_state row) with
      | Some s => {| sn_state := s; sn_attempts := sr_attempts row; sn_reprompted := false;
                     sn_output := _record_from_json (sr_output_json row); sn_terminal_id := None; sn_error := sr_error row |}
      | None => st
      end
  | None => st
  end.
(** The rows of steps the spec has; a row of another step is skipped. *)
Definition rebuilt_steps (ups : reads_up) (j : journal) (spec : WorkflowSpec) : gmap string StepRun :=
  if ru_steps ups then map_imap (λ id st, Some (overlay (j_steps j !! (run_id, id)) st)) (seeded spec) else seeded spec.

Definition _rebuild_record_from_journal (ups : reads_up) (h : Host) : option RunRecord :=
  if negb (ru_run ups) then None else
  row ← j_runs (ho_journal h) !! run_id;
  spec ← parse_spec (rr_spec_snapshot row);
  inputs ← parse_inputs (rr_inputs_json row);
  state ← RunState_of (rr_state row);
  Some {| yr_run_id := rr_run_id row; yr_workflow_name := rr_workflow_name row; yr_spec := spec; yr_inputs := inputs;
     yr_state := state; yr_current := rr_current_step_id row; yr_cancelled := false;
     yr_steps := rebuilt_steps ups (ho_journal h) spec; yr_started_at := rr_started_at row;
     yr_finished_at := rr_finished_at row; yr_cancel_task := None;
     yr_event_seq := Z.max (Z.max (persisted_high_water (ru_high_water ups) run_id (ho_journal h))
                                  (max_event_seq (ru_max ups) run_id (ho_journal h)))
                           (from_option yr_event_seq 0 (ho_registry h)) |}.

(** ** [cancel_run] *)

(** [_persist_stranded_cancel], in its task *)
Definition recover : M Host () :=
  h ← gets id;
  match ho_recovery h, ho_registry h with
  | Recovering step_id, Some r =>
      on_run_of r (
        (match step_id with
         | Some id => if decide (is_Some (yr_steps r !! id)) then _journal_step world id None else raise KeyError
         | None => mret ()
         end) ;;
        _journal_current_step world ;;
        _journal_run_state world)
  | _, _ => mret ()
  end.
(** The task ends, however it does. *)
Definition recovery_runs : M Host () :=
  with_finally (catch recover (λ _, mret ())) (modify (λ h, match ho_recovery h with Recovering _ => ho_set_recovery h Recovered | _ => h end)).

Definition stranded (now : string) (r : RunRecord) : RunRecord :=
  let steps := match yr_current r with
    | Some id => alter (λ st, sn_set_error (sn_set_state st STEP_CANCELLED) (Some "step cancelled during stranded-run recovery"%string)) id (yr_steps r)
    | None => yr_steps r
    end in
  yr_set_current (yr_set (yr_set_steps r steps) RUN_CANCELLED true (yr_cancel_task r)) None (Some now).
Definition cancel_run (ups : reads_up) : M Host () :=
  h ← gets id;
  record ← (match ho_registry h with
    | Some r => mret r
    | None =>
        match _rebuild_record_from_journal ups h with
        | Some r => modify (λ h, ho_register h (Some r)) ;; mret r
        | None => raise KeyError
        end
    end);
  if bool_decide (yr_state record = RUN_CANCELLING) && ho_active h then mret ()
  else if run_over (yr_state record) then raise (ValueError "cannot cancel")
  else if ho_active h then modify (λ h, ho_register h (Some (cancel_asked record)))
  else
    now ← gets (λ h, mo_now (world (ho_clock h)));
    modify (λ h, ho_register h (Some (stranded now record))) ;;
    modify (λ h, match ho_recovery h with NoRecovery => ho_set_recovery h (Recovering (yr_current record)) | _ => h end).

(** ** [get_run_status] *)

Record RunStatus := {
  us_run_id : string;
  us_state : RunState;
  us_current_step_id : option string;
  us_steps : list (string * StepState * Z);
}.
Definition run_status (r : RunRecord) : RunStatus := {|
  us_run_id := yr_run_id r; us_state := yr_state r; us_current_step_id := yr_current r;
  us_steps := omap (λ s, (λ st, (ws_id s, sn_state st, sn_attempts st)) <$> yr_steps r !! ws_id s) (wf_steps (yr_spec r)) |}.
Definition cold_status (ups : reads_up) : M Host RunStatus :=
  h ← gets id;
  match _rebuild_record_from_journal ups h with
  | Some r => modify (λ h, ho_register h (Some r)) ;; mret (run_status r)
  | None => raise KeyError
  end.
(** A script's row answers for itself; its state must be one of the enumeration. *)
Definition get_run_status (up : bool) (ups : reads_up) : M Host RunStatus :=
  h ← gets id;
  match ho_registry h, (if up then j_runs (ho_journal h) !! run_id else None) with
  | Some r, _ => mret (run_status r)
  | None, Some row =>
      if bool_decide (rr_tier row = "script"%string) then
        match RunState_of (rr_state row) with
        | Some state => mret {| us_run_id := rr_run_id row; us_state := state; us_current_step_id := rr_current_step_id row; us_steps := [] |}
        | None => raise (ValueError "not a valid RunState")
        end
      else cold_status ups
  | None, None => cold_status ups
  end.

(** ** [resume_from_last_completed] *)

(** A step that is not done starts again. *)
Definition reset_step (st : StepRun) : StepRun :=
  if step_done (sn_state st) then st
  else {| sn_state := STEP_PENDING; sn_attempts := 0; sn_reprompted := false; sn_output := None; sn_terminal_id := None; sn_error := None |}.
Definition reopened (r : RunRecord) : RunRecord :=
  yr_set_current (yr_set (yr_set_steps r (reset_step <$> yr_steps r)) RUN_RUNNING false (yr_cancel_task r)) None None.
(** [_await_cancel_recovery] *)
Definition await_recovery : M Host () := recovery_runs ;; modify (λ h, ho_set_recovery h NoRecovery).

Definition host_await : M Host moment := λ h,
  ({| ho_journal := ho_journal h; ho_outputs := ho_outputs h; ho_registry := ho_registry h; ho_active := ho_active h;
      ho_recovery := ho_recovery h; ho_clock := S (ho_clock h); ho_calls := ho_calls h |}, Returned (world (ho_clock h))).
Definition host_write (up : bool) (m : J ()) : M Host () := zoom ho_journal (λ j h, ho_set_journal h j) (best_effort (reaching up m)).

Definition resume_from_last_completed (up : bool) (ups : reads_up) : M Host WorkflowRunResult :=
  lift_outcome (_validate_key_part run_id) ;;
  h ← gets id;
  if ho_active h then raise ResumeNotAllowedError
  else
    await_recovery ;;
    h ← gets id;
    match (if up then j_runs (ho_journal h) !! run_id else None) with
    | None => raise KeyError
    | Some row =>
        match RunState_of (rr_state row) with
        | None => raise ResumeCorruptError
        | Some state =>
            if decide (state = RUN_COMPLETED) then raise ResumeNotAllowedError
            else
              (if decide (state = RUN_CANCELLING)
               then mo ← host_await; host_write (mo_up mo) (update_run_state run_id (RunState_value RUN_CANCELLED) (Some (mo_now mo)))
               else mret ()) ;;
              match parse_spec (rr_spec_snapshot row) with
              | None => raise ResumeCorruptError
              | Some spec =>
                  h ← gets id;
                  match _rebuild_record_from_journal ups h with
                  | None => raise KeyError
                  | Some r =>
                      driven (reopened r) (
                        mo ← await world;
                        journal_write (mo_up mo) (update_run_state run_id (RunState_value RUN_RUNNING) None) ;;
                        _journal_current_step world ;;
                        ordered_drive spec)
                  end
              end
        end
    end.
End Runs.
