(* ===== verification/RunsThms.v ===== *)
(** * Runs across restarts

    What the journal keeps of a run, what a rebuild makes of it, and what a resume
    runs again. *)

From stdpp Require Import gmap.
From S2P Require Import Prelude Text Secrets Envelope Journal Steps Workflow Order Template Wp Engine EngineThms EngineRuns Runs.

(** ** The row of the run, while it is driven *)

(** What a run's row says of it for good. *)
Record same_row (w w' : RunRow) : Prop := {
  sa_run_id : rr_run_id w' = rr_run_id w;
  sa_name : rr_workflow_name w' = rr_workflow_name w;
  sa_spec : rr_spec_snapshot w' = rr_spec_snapshot w;
  sa_inputs : rr_inputs_json w' = rr_inputs_json w;
  sa_started : rr_started_at w' = rr_started_at w;
}.
#[export] Instance same_row_preorder : PreOrder same_row.
Proof. split; [done|]. intros w1 w2 w3 [] []. split; congruence. Qed.

Definition run_row (e : Engine) : option RunRow := j_runs (en_journal e) !! run_of e.
(** The write of CANCELLING is only there for a run that was cancelled. *)
Definition tasked (r : RunRecord) : Prop := yr_cancelled r = false → yr_cancel_task r = None.
Record on_file (e e' : Engine) : Prop := {
  of_run : run_of e' = run_of e;
  of_task : tasked (en_record e) → tasked (en_record e');
  of_row w : run_row e = Some w → ∃ w', run_row e' = Some w' ∧ same_row w w';
}.
#[export] Instance on_file_preorder : PreOrder on_file.
Proof.
  split; [intros e; split; [done|done|]; intros w Hw; by exists w|].
  intros e1 e2 e3 [H1 H2 H3] [K1 K2 K3]. split; [congruence|by auto|].
  intros w Hw. destruct (H3 w Hw) as (w2 & Hw2 & S2). destruct (K3 w2 Hw2) as (w3 & Hw3 & S3). exists w3. split; [done|by etrans].
Qed.

Lemma file_record f : (∀ r, yr_run_id (f r) = yr_run_id r ∧ (tasked r → tasked (f r))) → keeps on_file (on_record f).
Proof.
  intros H. apply keeps_modify. intros e. destruct (H (en_record e)) as [H1 H2]. split; [done|done|].
  intros w Hw. exists w. split; [|done]. unfold run_row, run_of in *. simpl. by rewrite H1.
Qed.
Lemma file_write up (m : J ()) :
  (∀ j rid w, j_runs j !! rid = Some w → ∃ w', j_runs (m j).1 !! rid = Some w' ∧ same_row w w') → keeps on_file (journal_write up m).
Proof.
  intros Hm e. unfold journal_write, best_effort, reaching, zoom, catch. destruct up; [|by destruct e].
  unfold mbind, M_bind. specialize (Hm (en_journal e) (run_of e)).
  destruct (m (en_journal e)) as [j []]; simpl in *; split; try done; intros w Hw; unfold run_row, run_of in *; simpl; by apply Hm.
Qed.

Lemma update_run_keeps rid f j k w : (∀ w, same_row w (f w)) → j_runs j !! k = Some w →
  ∃ w', j_runs (update_run rid f j).1 !! k = Some w' ∧ same_row w w'.
Proof.
  intros Hf Hw. simpl. destruct (decide (k = rid)) as [->|Hk].
  - rewrite lookup_alter_eq, Hw. by exists (f w).
  - rewrite lookup_alter_ne by done. by exists w.
Qed.

Lemma file_update_run up rid f : (∀ w, same_row w (f w)) → keeps on_file (journal_write up (update_run rid f)).
Proof. intros Hf. apply file_write. intros j k w Hw. by apply update_run_keeps. Qed.
Lemma file_other up (m : J ()) : (∀ j, j_runs (m j).1 = j_runs j) → keeps on_file (journal_write up m).
Proof. intros H. apply file_write. intros j k w Hw. rewrite H. by exists w. Qed.
Lemma file_event up ev : keeps on_file (journal_write up (append_event ev)).
Proof. apply file_other. intros j. unfold append_event. by destruct (j_events j !! _). Qed.

#[export] Hint Extern 1 (keeps on_file (journal_write _ (update_run_state _ _ _))) => apply file_update_run; done : cao.
#[export] Hint Extern 1 (keeps on_file (journal_write _ (update_run_current_step _ _))) => apply file_update_run; done : cao.
#[export] Hint Extern 1 (keeps on_file (journal_write _ (update_step _ _ _ _ _ _ _ _))) => apply file_other; done : cao.
#[export] Hint Extern 1 (keeps on_file (journal_write _ (persist_high_water _ _))) => apply file_other; done : cao.
#[export] Hint Resolve file_event : cao.
#[export] Hint Extern 1 (keeps on_file (on_record _)) => apply file_record; intros ?; by split : cao.
#[export] Hint Extern 1 (keeps on_file (on_step _ _)) => apply file_record; intros ?; by split : cao.

Lemma file_cancel_asked : keeps on_file (on_record cancel_asked).
Proof.
  apply file_record. intros r. unfold cancel_asked. destruct (decide _); [by split|]. destruct (run_over _); [by split|]. by split.
Qed.
Lemma file_task : keeps on_file (on_record (λ r, yr_set_task r None)).
Proof. apply file_record. intros r. by split. Qed.

(** A task that runs was there, so the run was cancelled. *)
Lemma file_cancel_task up : keeps on_file (cancel_task up).
Proof.
  intros e. unfold cancel_task. unfold mbind at 1, M_bind at 1. cbn [gets].
  destruct (yr_cancel_task (en_record e)) as [[]|] eqn:Ht; try reflexivity.
  unfold mbind, M_bind. destruct (file_update_run up (yr_run_id (en_record e)) (set_run_state (RunState_value RUN_CANCELLING) None) ltac:(done) e) as [F1 F2 F3].
  change (update_run (yr_run_id (en_record e)) (set_run_state (RunState_value RUN_CANCELLING) None))
    with (update_run_state (yr_run_id (en_record e)) (RunState_value RUN_CANCELLING) None) in *.
  assert (en_record (journal_write up (update_run_state (yr_run_id (en_record e)) (RunState_value RUN_CANCELLING) None) e).1 = en_record e) as Hr.
  { unfold journal_write, zoom. by destruct (best_effort _ _). }
  destruct (journal_write up _ e) as [e1 [[]|x]]; simpl in *; [|by split].
  split; [done| |done]. intros Htask Hc. simpl in *. rewrite Hr in Hc. specialize (Htask Hc). congruence.
Qed.
#[export] Hint Resolve file_cancel_asked file_task file_cancel_task : cao.

Lemma file_meanwhile m : keeps on_file (meanwhile_does m).
Proof. destruct m; simpl; [auto with cao| |auto with cao]. apply keeps_modify. intros e. split; [done|done|]. intros w Hw. by exists w. Qed.
#[export] Hint Resolve file_meanwhile : cao.

Section Files.
Context (world : nat → moment) (repr digest : json → string).

Lemma file_await : keeps on_file (await world).
Proof using Type.
  unfold await. apply keeps_bind; [apply _|auto with cao|]. intros mo. apply keeps_bind; [apply _| |].
  - apply keeps_modify. intros e. split; [done|done|]. intros w Hw. by exists w.
  - intros _. auto with cao.
Qed.
Hint Resolve file_await : cao.
Lemma file_the_step id : keeps on_file (the_step id).
Proof using Type. unfold the_step. auto with cao. Qed.
Hint Resolve file_the_step : cao.
Lemma file_journal_step id kind : keeps on_file (_journal_step world id kind).
Proof using Type. unfold _journal_step. auto 10 with cao. Qed.
Lemma file_journal_current : keeps on_file (_journal_current_step world).
Proof using Type. unfold _journal_current_step. auto 10 with cao. Qed.
Lemma file_journal_run_state : keeps on_file (_journal_run_state world).
Proof using Type. unfold _journal_run_state. auto 10 with cao. Qed.
Lemma file_journal_event ev : keeps on_file (_journal_event world ev).
Proof using Type. unfold _journal_event. auto 15 with cao. Qed.
Lemma file_await_cancelling : keeps on_file (_await_cancelling_journal world).
Proof using Type. unfold _await_cancelling_journal. auto 15 with cao. Qed.
Hint Resolve file_journal_step file_journal_current file_journal_run_state file_journal_event file_await_cancelling : cao.
Lemma file_agent id prompt : keeps on_file (run_agent_step world id prompt).
Proof using Type.
  unfold run_agent_step. apply keeps_bind; [apply _| |auto 10 with cao].
  apply keeps_modify. intros e. split; [done|done|]. intros w Hw. by exists w.
Qed.
Hint Resolve file_agent : cao.
Hint Extern 1 (keeps _ (if ?b then _ else _)) => destruct b : cao.
Lemma file_collect step : keeps on_file (_collect_structured_output world repr step).
Proof using Type. unfold _collect_structured_output. cbv zeta. unfold read_output. auto 20 with cao. Qed.
Hint Resolve file_collect : cao.
Lemma file_attempt step attempt prompt : keeps on_file (attempt_once world repr step attempt prompt).
Proof using Type. unfold attempt_once. cbv zeta. auto 20 with cao. Qed.
Lemma file_failed step kind : keeps on_file (step_failed world step kind).
Proof using Type. unfold step_failed. cbv zeta. auto 20 with cao. Qed.
Lemma file_stopped step attempt term : keeps on_file (step_stopped world step attempt term).
Proof using Type. unfold step_stopped. cbv zeta. auto 20 with cao. Qed.
Lemma file_settled step attempt outcome : keeps on_file (step_settled world digest step attempt outcome).
Proof using Type. unfold step_settled. cbv zeta. auto 20 with cao. Qed.
Lemma file_cancelled id : keeps on_file (step_cancelled world id).
Proof using Type. unfold step_cancelled. auto 20 with cao. Qed.
Lemma file_substitute step : keeps on_file (substitute_prompt repr step).
Proof using Type. unfold substitute_prompt. auto with cao. Qed.
Hint Resolve file_attempt file_failed file_stopped file_settled file_cancelled file_substitute : cao.
Lemma file_attempts step n : ∀ attempt kind, keeps on_file (attempts world repr digest step n attempt kind).
Proof using Type.
  induction n as [|n IH]; intros attempt kind; cbn [attempts]; [auto with cao|]. auto 30 with cao.
Qed.
Hint Resolve file_attempts : cao.
Lemma file_run_step step : keeps on_file (_run_step world repr digest step).
Proof using Type. unfold _run_step. cbv zeta. auto 20 with cao. Qed.
Lemma file_skip order : keeps on_file (_skip_remaining world order).
Proof using Type. unfold _skip_remaining. apply keeps_for_each; [apply _|]. intros ? ? _. cbv zeta. auto 20 with cao. Qed.
Hint Resolve file_run_step file_skip : cao.
Lemma file_boundary rest : keeps on_file (boundary_cancel world rest).
Proof using Type. unfold boundary_cancel. auto 20 with cao. Qed.
Hint Resolve file_boundary : cao.
Lemma file_drive_steps order : keeps on_file (drive_steps world repr digest order).
Proof using Type. induction order as [|step order IH]; cbn [drive_steps]; auto 20 with cao. Qed.
End Files.

(** ** The last writes of a run that is over *)

Definition settled_record (r : RunRecord) : Prop := run_over (yr_state r) = true ∧ yr_cancel_task r = None.
Record unmoved (e e' : Engine) : Prop := {
  un_record : yr_set_seq (en_record e') 0 = yr_set_seq (en_record e) 0;
  un_runs : j_runs (en_journal e') = j_runs (en_journal e);
  un_rows : rows_of e' = rows_of e;
}.
#[export] Instance unmoved_preorder : PreOrder unmoved.
Proof. split; [done|]. intros e1 e2 e3 [] []. split; congruence. Qed.
Definition stays (e e' : Engine) : Prop := settled_record (en_record e) → unmoved e e'.
Lemma unmoved_settled e e' : unmoved e e' → settled_record (en_record e) → settled_record (en_record e').
Proof.
  intros [H _ _] [H1 H2]. split.
  - change (run_over (yr_state (yr_set_seq (en_record e') 0)) = true). by rewrite H.
  - change (yr_cancel_task (yr_set_seq (en_record e') 0) = None). by rewrite H.
Qed.
#[export] Instance stays_preorder : PreOrder stays.
Proof.
  split; [by intros e|]. intros e1 e2 e3 H1 H2 Hs. pose proof (H1 Hs) as U1. etrans; [exact U1|].
  apply H2. by eapply unmoved_settled.
Qed.

Lemma stays_meanwhile m : keeps stays (meanwhile_does m).
Proof.
  destruct m; intros e [Hover Htask]; simpl; [|done|].
  - assert (cancel_asked (en_record e) = en_record e) as ->.
    { unfold cancel_asked. destruct (decide _); [done|]. by rewrite Hover. }
    by destruct e.
  - unfold cancel_task, mbind, M_bind. simpl. by rewrite Htask.
Qed.
#[export] Hint Resolve stays_meanwhile : cao.
Lemma stays_write up (m : J ()) : (∀ j, j_runs (m j).1 = j_runs j ∧ j_steps (m j).1 = j_steps j) → keeps stays (journal_write up m).
Proof.
  intros Hm e _. unfold journal_write, best_effort, reaching, zoom, catch. destruct up; [|by destruct e].
  unfold mbind, M_bind. destruct (Hm (en_journal e)). destruct (m (en_journal e)) as [j []]; done.
Qed.
#[export] Hint Extern 1 (keeps stays (journal_write _ (persist_high_water _ _))) => apply stays_write; done : cao.

Section Closing.
Context (world : nat → moment).
Lemma stays_await : keeps stays (await world).
Proof using Type.
  unfold await. apply keeps_bind; [apply _|auto with cao|]. intros mo.
  apply keeps_bind; [apply _|by apply keeps_modify; intros e|auto with cao].
Qed.
Hint Resolve stays_await : cao.
Lemma stays_event ev : keeps stays (_journal_event world ev).
Proof using Type.
  unfold _journal_event. apply keeps_bind; [apply _|by apply keeps_modify; intros e|]. intros _.
  assert (∀ up ev, keeps stays (journal_write up (append_event ev))) as H.
  { intros. apply stays_write. intros j. unfold append_event. by destruct (j_events j !! _). }
  auto 15 with cao.
Qed.

Lemma wp_stays {A} (m : M Engine A) e (Q : A → Engine → Prop) E : keeps stays m → settled_record (en_record e) →
  calm m → (∀ a e', unmoved e e' → quiet e e' → Q a e') → wp m e Q E.
Proof using Type.
  intros Hm Hs Hc HQ. specialize (Hc e). specialize (Hm e). unfold wp in *. destruct (m e) as [e' []]; simpl in *; [|done].
  apply HQ; [by apply Hm|done].
Qed.
Lemma wp_stays_await e (Q : moment → Engine → Prop) E : settled_record (en_record e) →
  (∀ t e', unmoved e e' → Q (world t) e') → wp (await world) e Q E.
Proof using Type.
  intros Hs HQ. pose proof (stays_await e Hs) as Hm. assert (wp (await world) e (λ mo e', ∃ t, mo = world t) (λ _ _, False)) as Hw.
  { apply wp_await. by eauto. }
  unfold wp in *. destruct (await world e) as [e' [mo|]]; simpl in *; [|done]. destruct Hw as [t ->]. by apply HQ.
Qed.

Lemma wp_update_run f e (Q : () → Engine → Prop) E :
  (∀ e', run_row e' = f <$> run_row e → en_record e' = en_record e → Q () e') →
  wp (journal_write true (update_run (run_of e) f)) e Q E.
Proof using Type. intros HQ. apply HQ; [|done]. unfold run_row, run_of. simpl. by rewrite lookup_alter_eq. Qed.

Lemma unmoved_row e e' : unmoved e e' → run_row e' = run_row e ∧ run_of e' = run_of e ∧ yr_state (en_record e') = yr_state (en_record e)
  ∧ yr_finished_at (en_record e') = yr_finished_at (en_record e) ∧ yr_current (en_record e') = yr_current (en_record e).
Proof using Type.
  intros [H1 H2 _]. assert (run_of e' = run_of e) as Hr by (apply (f_equal yr_run_id) in H1; exact H1).
  split; [unfold run_row; congruence|]. split; [done|]. split; [apply (f_equal yr_state) in H1; exact H1|].
  split; [apply (f_equal yr_finished_at) in H1; exact H1|apply (f_equal yr_current) in H1; exact H1].
Qed.

(** The row, once the run is over, says so. *)
Definition row_closed (w w' : RunRow) (r : RunRecord) : Prop := same_row w w' ∧ rr_state w' = RunState_value (yr_state r) ∧
  rr_finished_at w' = yr_finished_at r ∧ rr_current_step_id w' = None ∧ yr_current r = None ∧ settled_record r.
Lemma wp_close_row e w ev : all_up world → settled_record (en_record e) → yr_current (en_record e) = None → run_row e = Some w →
  wp (_journal_current_step world ;; r ← gets en_record; _journal_event world (ev r) ;; _journal_run_state world) e
    (λ _ e', ∃ w', run_row e' = Some w' ∧ row_closed w w' (en_record e')) (λ _ _, False).
Proof using Type.
  intros Hup Hs Hcur Hw. apply wp_bind. unfold _journal_current_step. apply wp_bind, wp_stays_await; [done|]. intros t e1 U1.
  apply wp_bind, wp_gets. rewrite (Hup t). apply (unmoved_settled _ _ U1) in Hs. destruct (unmoved_row _ _ U1) as (R1 & R2 & R3 & R4 & R5).
  unfold update_run_current_step. apply wp_update_run. intros e2 Hw2 Hr2. rewrite R1, Hw, R5, Hcur in Hw2. rewrite <-Hr2 in Hs.
  apply wp_bind, wp_gets, wp_bind. apply wp_stays; [apply stays_event|done|auto with calm|]. intros _ e3 U3 _.
  apply (unmoved_settled _ _ U3) in Hs. destruct (unmoved_row _ _ U3) as (S1 & _ & _ & _ & S5).
  unfold _journal_run_state. apply wp_bind, wp_stays_await; [done|]. intros t3 e4 U4.
  apply (unmoved_settled _ _ U4) in Hs. destruct (unmoved_row _ _ U4) as (T1 & T2 & _ & _ & T5). apply wp_bind, wp_gets. rewrite (Hup t3).
  unfold update_run_state. apply wp_update_run. intros e5 Hw5 Hr5. rewrite T1, S1, Hw2 in Hw5.
  eexists. split; [exact Hw5|]. rewrite Hr5. split_and!; try done. by rewrite T5, S5, Hr2, R5.
Qed.

Lemma wp_and {S A} (m : M S A) s (Q Q' : A → S → Prop) (E E' : exn → S → Prop) :
  wp m s Q E → wp m s Q' E' → wp m s (λ a s', Q a s' ∧ Q' a s') (λ x s', E x s' ∧ E' x s').
Proof using Type. unfold wp. by destruct (m s) as [? []]. Qed.
Lemma wp_keeps {S A} (R : relation S) (m : M S A) s : keeps R m → wp m s (λ _ s', R s s') (λ _ s', R s s').
Proof using Type. intros H. specialize (H s). unfold wp. by destruct (m s) as [? []]. Qed.

Lemma wp_cancelling_collected e : wp (_await_cancelling_journal world) e (λ _ e', yr_cancel_task (en_record e') = None) (λ _ _, False).
Proof using Type.
  unfold _await_cancelling_journal. apply wp_bind, wp_gets. destruct (yr_cancel_task (en_record e)) as [[]|] eqn:Ht; [| |by apply wp_ret].
  - apply wp_bind. apply wp_calm; [apply calm_await|]. intros mo e1 _. apply wp_bind. apply wp_calm; [apply calm_cancel_task|]. intros _ e2 _.
    by apply wp_modify.
  - by apply wp_modify.
Qed.

Lemma wp_finalize_row e w : all_up world → tasked (en_record e) → run_row e = Some w →
  wp (finalize_run world) e (λ _ e', ∃ w', run_row e' = Some w' ∧ row_closed w w' (en_record e')) (λ _ _, False).
Proof using Type.
  intros Hup Htask Hw. unfold finalize_run. apply wp_bind, wp_gets.
  assert (∀ e1 w1, run_row e1 = Some w1 → same_row w w1 → yr_cancel_task (en_record e1) = None →
    wp (on_record (λ r, if decide (yr_state r ∈ [RUN_FAILED; RUN_CANCELLED]) then r else yr_set_state r RUN_COMPLETED) ;;
        now ← gets (λ e, mo_now (world (en_clock e)));
        on_record (λ r, yr_set_current r None (Some now)) ;;
        _journal_current_step world ;;
        r ← gets en_record;
        _journal_event world (final_event (yr_state r)) ;;
        _journal_run_state world) e1 (λ _ e', ∃ w', run_row e' = Some w' ∧ row_closed w w' (en_record e')) (λ _ _, False)) as Hrest.
  { intros e1 w1 Hw1 Hsame Ht1. apply wp_bind, wp_modify, wp_bind, wp_gets, wp_bind, wp_modify. set (e2 := en_set_record _ _).
    assert (run_row e2 = Some w1) as Hw2 by (rewrite <-Hw1; unfold run_row, run_of, e2; cbn; by destruct (decide _)).
    assert (settled_record (en_record e2)) as Hs2.
    { unfold e2. cbn. split; simpl; destruct (decide _) as [Hd|Hd]; try done. 
      simpl. apply elem_of_cons in Hd as [-> | ->%list_elem_of_singleton]; done. }
    assert (yr_current (en_record e2) = None) as Hc2 by done. clearbody e2.
    eapply wp_mono; [by apply (wp_close_row e2 w1 (λ r, final_event (yr_state r)))| |done].
    intros _ e3 (w' & Hw' & R1 & R2). exists w'. split; [done|]. split; [by etrans|done]. }
  apply wp_bind. destruct (yr_cancelled (en_record e)) eqn:Hc.
  - apply wp_bind. eapply wp_mono; [apply wp_and; [apply wp_cancelling_collected|apply wp_keeps, file_await_cancelling]| |by intros ? ? []].
    intros _ e1 [Ht1 [H1 _ H2]]. destruct (H2 w Hw) as (w1 & Hw1 & Hs1). apply wp_modify.
    by apply (Hrest _ w1).
  - apply wp_ret. apply (Hrest e w); [done|done|by apply Htask].
Qed.
End Closing.

(** ** What a row gives back *)

(** What a rebuild cannot know of a step. *)
Definition forgotten (st : StepRun) : StepRun := {|
  sn_state := sn_state st; sn_attempts := sn_attempts st; sn_reprompted := false;
  sn_output := _record_from_json (_output_json (sn_output st)); sn_terminal_id := None; sn_error := sn_error st |}.

Lemma step_state_round s : StepState_of (StepState_value s) = Some s.
Proof. by destruct s. Qed.
Lemma run_state_round s : RunState_of (RunState_value s) = Some s.
Proof. by destruct s. Qed.

Lemma overlay_shows st row u : shows st (Some row) → overlay (Some row) u = forgotten st.
Proof.
  intros H. destruct (H row eq_refl) as (H1 & H2 & H3 & H4). unfold overlay. rewrite H1, step_state_round. unfold forgotten.
  by rewrite H2, H3, H4.
Qed.

Lemma seeded_lookup spec id : seeded spec !! id = if decide (id ∈ step_ids (wf_steps spec)) then Some new_step_run else None.
Proof.
  unfold seeded, step_ids. induction (wf_steps spec) as [|s l IH]; [by rewrite decide_False by apply not_elem_of_nil|].
  rewrite !fmap_cons, list_to_map_cons. destruct (decide (id = ws_id s)) as [->|Hne].
  - rewrite lookup_insert_eq, decide_True by left. done.
  - rewrite lookup_insert_ne by done. rewrite IH. apply decide_ext. rewrite elem_of_cons. naive_solver.
Qed.

Lemma inserted_rows j rid ids now : ∀ id, id ∈ ids.*1 →
  is_Some (j_steps (insert_steps rid ids now j).1 !! (rid, id)).
Proof.
  simpl. generalize (j_steps j). induction ids as [|[x st] ids IH] using rev_ind; intros t id Hid; [by apply not_elem_of_nil in Hid|].
  rewrite foldl_app. simpl. rewrite fmap_app, elem_of_app in Hid. destruct (decide (id = x)) as [->|Hne]; [by rewrite lookup_insert_eq|].
  rewrite lookup_insert_ne by congruence. apply IH. destruct Hid as [?|Hid]; [done|]. simpl in Hid. set_solver.
Qed.

(** ** The journal agrees with the record once a drive has returned *)

Section Restart.
Context (world : nat → moment) (repr digest : json → string).

(** Before a drive: the run's row is there, the steps' rows too, and what is done is
    shown by its row. *)
Record journaled (order : list WorkflowStep) (e : Engine) (w : RunRow) : Prop := {
  jd_row : run_row e = Some w;
  jd_task : tasked (en_record e);
  jd_there step : step ∈ order → is_Some (rows_of e !! (run_of e, ws_id step));
  jd_shows step st : step ∈ order → steps_of e !! ws_id step = Some st → step_done (sn_state st) = true →
    shows st (rows_of e !! (run_of e, ws_id step));
}.
(** After it: every row says what the record says. *)
Record agreed (order : list WorkflowStep) (w : RunRow) (e' : Engine) : Prop := {
  ag_row : ∃ w', run_row e' = Some w' ∧ row_closed w w' (en_record e');
  ag_steps step : step ∈ order → ∃ st row, steps_of e' !! ws_id step = Some st ∧
    rows_of e' !! (run_of e', ws_id step) = Some row ∧ shows st (Some row);
}.

Lemma wp_any {S A} (m : M S A) s : wp m s (λ _ _, True) (λ _ _, True).
Proof using Type. unfold wp. by destruct (m s) as [? []]. Qed.
Lemma engine_failed_raises {A} x e : wp (engine_failed world x : M Engine A) e (λ _ _, False) (λ _ _, True).
Proof using Type.
  unfold engine_failed. repeat (apply wp_bind; eapply wp_mono; [apply wp_any| |done]; intros ? ? _). by apply wp_raise.
Qed.

Lemma wp_drive_row order e w : all_up world → ready order e → journaled order e w →
  wp (_drive world repr digest order) e (λ _ e', agreed order w e' ∧ same_run_so_far (en_record e) (en_record e') ∧
    ∀ i, i ∉ step_ids order → steps_of e' !! i = steps_of e !! i) (λ _ _, True).
Proof using Type*.
  intros Hup [Hnd Ht Ha] [J1 J2 J3 J4]. unfold _drive. apply wp_bind, wp_catch.
  eapply wp_mono; [apply wp_and; [by apply wp_drive_steps|apply wp_keeps, file_drive_steps]| |].
  2:{ intros x e1 _. destruct (is_engine_error x); [|done]. by eapply wp_mono; [apply engine_failed_raises|done|]. }
  intros [] e1 [[[Ho (bs & Hw & _)] Hcome] [F1 F2 F3]]. destruct (F3 w J1) as (w1 & Hw1 & Hs1).
  apply wp_bind. eapply wp_mono; [apply wp_and; [apply wp_finalize; by eapply come_to_state|eapply wp_finalize_row; [done|by apply F2|exact Hw1]]| |by intros ? ? []].
  intros [] e2 [[C1 C2 C3 C4 C5 C6 C7 C8] (w2 & Hw2 & K1 & K2)].
  assert (run_of e2 = run_of e) as Hr by (unfold run_of in *; rewrite (ss_run_id _ _ C1); done).
  assert (∀ s, s ∈ order → ∃ b st st', step_went world e e1 s b st st') as Hat by (intros; by eapply walked_at).
  eapply wp_mono; [apply (wp_build_result order)| |done].
  { intros s Hs. destruct (Hat s Hs) as (b & st & st' & []). rewrite C6. by exists st'. }
  intros res e3 (-> & _). split; [split|split].
  - exists w2. split; [done|]. split; [by etrans|done].
  - intros s Hs. destruct (Hat s Hs) as (b & st & st' & [S1 S2 _ _ _ _ S3 S4]).
    destruct (proj2 S4 (J3 s Hs)) as [row Hrow]. exists st', row. rewrite C6, C7, Hr. split; [done|]. split; [done|].
    rewrite <-Hrow. apply S3; [done|]. intros Hd. by apply J4.
  - etrans; [apply same_run_far, (on_run _ _ _ Ho)|done].
  - intros i Hi. rewrite C6. by apply Ho.
Qed.

Definition engine_of (h : Host) (r : RunRecord) : Engine := {| en_journal := ho_journal h; en_outputs := ho_outputs h;
  en_record := r; en_clock := ho_clock h; en_calls := ho_calls h |}.
(** A drive that leaves its record over leaves it at that. *)
Lemma wp_driven {A} (r : RunRecord) (m : M Engine A) h (Q : A → Engine → Prop) :
  wp m (engine_of h r) (λ a e', Q a e' ∧ settled_record (en_record e')) (λ _ _, True) →
  wp (driven world r m) h (λ a h', ∃ e', Q a e' ∧ ho_registry h' = Some (en_record e') ∧ ho_journal h' = en_journal e') (λ _ _, True).
Proof using Type.
  unfold wp, driven, with_finally, on_run_of, engine_of. cbn. unfold mbind, M_bind. cbn.
  destruct (m _) as [e' [a|x]]; [|by cbn]. intros [HQ [_ Ht]]. cbn. unfold _await_cancelling_journal, mbind, M_bind. cbn. rewrite Ht. cbn.
  exists e'. done.
Qed.

(** No row before, no row after. *)
Definition absent (e e' : Engine) : Prop := run_of e' = run_of e ∧ (run_row e = None → run_row e' = None).
#[export] Instance absent_preorder : PreOrder absent.
Proof using Type. split; [done|]. intros e1 e2 e3 [H1 H2] [K1 K2]. split; [congruence|auto]. Qed.
Lemma absent_await : keeps absent (await world).
Proof using Type.
  unfold await. apply keeps_bind; [apply _|auto with cao|]. intros mo. apply keeps_bind; [apply _|by apply keeps_modify|].
  intros _. apply keeps_bind; [apply _| |auto with cao]. apply keeps_for_each; [apply _|]. intros _ m _.
  destruct m as [|key rec|up]; simpl; [|by apply keeps_modify|].
  - apply keeps_modify. intros e. split; unfold run_row, run_of, cancel_asked; simpl; destruct (decide _); try done; by destruct (run_over _).
  - intros e. unfold cancel_task, mbind, M_bind. simpl. destruct (yr_cancel_task (en_record e)) as [[]|]; [|done|done].
    unfold journal_write, zoom. destruct up; simpl; (split; [done|]); [|by destruct e]. unfold run_row, run_of. simpl. intros E.
    rewrite lookup_alter_eq. by rewrite E.
Qed.

(** The run is in the journal, with all of its steps. *)
Lemma wp_insert_run e snapshot inputs_json : all_up world → (∀ t, mo_still_up (world t) = true) → run_row e = None →
  wp (_journal_insert_run world snapshot inputs_json) e (λ _ e', ∃ state w,
    quiet e {| en_journal := en_journal e; en_outputs := en_outputs e'; en_record := en_record e'; en_clock := en_clock e'; en_calls := en_calls e' |} ∧
    (tasked (en_record e) → tasked (en_record e')) ∧ run_row e' = Some w ∧
    w = new_run (run_of e) (yr_workflow_name (en_record e)) snapshot inputs_json state (yr_started_at (en_record e)) "yaml" "1" None ∧
    ∀ s, s ∈ wf_steps (yr_spec (en_record e)) → is_Some (rows_of e' !! (run_of e, ws_id s))) (λ _ _, False).
Proof using Type.
  intros Hup Hstill Hrow. unfold _journal_insert_run. apply wp_bind.
  assert (wp (await world) e (λ mo e', (∃ t, mo = world t) ∧ quiet e e' ∧ on_file e e' ∧ absent e e') (λ _ _, False)) as Hw.
  { assert (wp (await world) e (λ mo e', (∃ t, mo = world t) ∧ quiet e e') (λ _ _, False)) as H1.
    { apply wp_await. eauto. }
    pose proof (wp_keeps on_file _ e (file_await world)) as H2. pose proof (wp_keeps absent _ e absent_await) as H3.
    unfold wp in *. destruct (await world e) as [e1 [mo|]]; [|done]. naive_solver. }
  eapply wp_mono; [exact Hw| |done]. intros mo e1 ([t ->] & Hq & Hf & [Hr Ha]). apply wp_bind, wp_gets.
  rewrite (Hup t), (Hstill t). destruct Hq as [[M1 M2 M3 M4 M5 M6] Q2 Q3 Q4 Q5 Q6]. specialize (Ha Hrow).
  unfold wp, journal_write, zoom, best_effort, reaching, catch. unfold mbind, M_bind. unfold insert_run.
  cbn [rr_run_id new_run]. unfold run_row, run_of in Ha. rewrite Ha. cbn [mret M_ret].
  set (state := RunState_value (yr_state (en_record e1))).
  exists state, (new_run (run_of e) (yr_workflow_name (en_record e)) snapshot inputs_json state (yr_started_at (en_record e)) "yaml" "1" None).
  split_and!.
  - by split.
  - apply Hf.
  - unfold run_row, run_of. simpl. rewrite lookup_insert_eq. unfold run_of. by rewrite M1, M2, M5.
  - done.
  - intros s Hs. unfold rows_of, run_of. rewrite <-M1. apply (inserted_rows _ _ ((λ s, (ws_id s, StepState_value STEP_PENDING)) <$> wf_steps (yr_spec (en_record e1)))).
    rewrite <-list_fmap_compose, M3. by apply (list_elem_of_fmap_2 ws_id).
Qed.

(** ** A run, from its start to the next process *)

Context (run_id : string) (needs_of : WorkflowStep → list string) (depth : nat).
Context (parse_spec : string → option WorkflowSpec) (dump_spec : WorkflowSpec → string).
Context (parse_inputs : string → option (list (string * value))) (dump_inputs : list (string * value) → string).
Context (resolve : string → outcome string).

Definition restarted (h : Host) : Host := {|
  ho_journal := ho_journal h; ho_outputs := []; ho_registry := None; ho_active := false; ho_recovery := NoRecovery;
  ho_clock := ho_clock h; ho_calls := ho_calls h |}.
Definition every_read : reads_up := {| ru_run := true; ru_steps := true; ru_high_water := true; ru_max := true |}.

(** The rows of every step, and a record with just those steps. *)
Lemma rebuilt_exact spec order w e' :
  agreed order w e' → order ≡ₚ wf_steps spec → run_of e' = run_id →
  (∀ i, i ∉ step_ids order → steps_of e' !! i = None) →
  rebuilt_steps run_id every_read (en_journal e') spec = forgotten <$> steps_of e'.
Proof using Type.
  intros [_ Hsteps] Hp Hr Hout. unfold rebuilt_steps. simpl. apply map_eq. intros id.
  rewrite map_lookup_imap, lookup_fmap, seeded_lookup.
  assert (step_ids order ≡ₚ step_ids (wf_steps spec)) as Hids by (by apply fmap_Permutation).
  destruct (decide (id ∈ step_ids (wf_steps spec))) as [Hin|Hin]; simpl.
  - rewrite <-Hids in Hin. apply list_elem_of_fmap in Hin as (s & -> & Hs).
    destruct (Hsteps s Hs) as (st & row & Hst & Hrow & Hsh). unfold rows_of in Hrow. rewrite Hr in Hrow. rewrite Hst, Hrow. simpl.
    f_equal. by apply overlay_shows.
  - rewrite <-Hids in Hin. by rewrite Hout.
Qed.

(** What a rebuild gives back of a record. *)
Record remembered (r r' : RunRecord) : Prop := {
  rm_run_id : yr_run_id r' = yr_run_id r;
  rm_name : yr_workflow_name r' = yr_workflow_name r;
  rm_spec : yr_spec r' = yr_spec r;
  rm_inputs : yr_inputs r' = yr_inputs r;
  rm_state : yr_state r' = yr_state r;
  rm_current : yr_current r' = yr_current r;
  rm_steps : yr_steps r' = forgotten <$> yr_steps r;
  rm_started : yr_started_at r' = yr_started_at r;
  rm_finished : yr_finished_at r' = yr_finished_at r;
}.

(** The row of a run that is over, and its steps, give the record back. *)
Lemma rebuild_remembers h e' w spec inputs order :
  agreed order w e' → order ≡ₚ wf_steps spec → run_of e' = run_id → (∀ i, i ∉ step_ids order → steps_of e' !! i = None) →
  yr_current (en_record e') = None → yr_workflow_name (en_record e') = rr_workflow_name w → yr_started_at (en_record e') = rr_started_at w →
  rr_run_id w = run_id → parse_spec (rr_spec_snapshot w) = Some spec → yr_spec (en_record e') = spec →
  parse_inputs (rr_inputs_json w) = Some inputs → yr_inputs (en_record e') = inputs →
  ho_journal h = en_journal e' →
  ∃ r', _rebuild_record_from_journal run_id parse_spec parse_inputs every_read (restarted h) = Some r' ∧ remembered (en_record e') r'.
Proof using Type.
  intros Hag Hp Hr Hout Hcur Hname Hstart Hid Hspec Hs Hinp Hi Hj.
  pose proof (rebuilt_exact spec order w e' Hag Hp Hr Hout) as Hsteps. destruct Hag as [(w' & Hw' & [S1 S2 S3 S4 S5] & R1 & R2 & R3 & _) _].
  unfold run_row in Hw'. rewrite Hr in Hw'. unfold _rebuild_record_from_journal. cbn. rewrite Hj, Hw'. cbn. rewrite S3, Hspec. cbn.
  rewrite S4, Hinp. cbn. rewrite R1, run_state_round. cbn. eexists. split; [reflexivity|].
  unfold run_of in Hr. unfold steps_of in Hsteps. split; cbn; try congruence. exact Hsteps.
Qed.

Lemma wp_start_run h spec inputs :
  all_up world → (∀ t, mo_still_up (world t) = true) →
  NoDup (step_ids (wf_steps spec)) → (length (wf_steps spec) < depth)%nat →
  parse_spec (dump_spec spec) = Some spec →
  (∀ l, _validate_inputs resolve (wf_inputs spec) inputs = Returned l → parse_inputs (dump_inputs l) = Some l) →
  wp (start_run run_id world repr digest needs_of depth dump_spec dump_inputs resolve spec inputs true) h
    (λ _ h', ∃ r r', ho_registry h' = Some r ∧ run_over (yr_state r) = true ∧
       _rebuild_record_from_journal run_id parse_spec parse_inputs every_read (restarted h') = Some r' ∧ remembered r r')
    (λ _ _, True).
Proof using Type*.
  intros Hup Hstill Hnd Hdepth Hspec Hinputs. unfold start_run. apply wp_bind, wp_lift; [intros [] _|done].
  apply wp_bind. unfold _check_run_id_available. apply wp_bind, wp_gets. unfold id.
  destruct (bool_decide _ || ho_active h); [by apply wp_raise|]. destruct (bool_decide_reflect (is_Some (j_runs (ho_journal h) !! run_id))) as [|Hnone]; [by apply wp_raise|].
  apply eq_None_not_Some in Hnone. apply wp_ret.
  apply wp_bind, wp_lift; [|done]. intros resolved Hresolved. specialize (Hinputs _ Hresolved). destruct (negb _); [by apply wp_raise|].
  apply wp_bind, wp_gets. set (r0 := new_record run_id spec resolved _).
  eapply wp_mono; [apply (wp_driven r0 _ h (λ _ e', yr_workflow_name (en_record e') = wf_name spec ∧ yr_spec (en_record e') = spec ∧ ∃ order w,
    agreed order w e' ∧ order ≡ₚ wf_steps spec ∧ run_of e' = run_id ∧ (∀ i, i ∉ step_ids order → steps_of e' !! i = None) ∧
    yr_current (en_record e') = None ∧ yr_workflow_name (en_record e') = rr_workflow_name w ∧ yr_started_at (en_record e') = rr_started_at w ∧
    rr_run_id w = run_id ∧ parse_spec (rr_spec_snapshot w) = Some spec ∧ parse_inputs (rr_inputs_json w) = Some resolved ∧
    yr_inputs (en_record e') = resolved))| |done].
  2:{ intros _ h' (e' & (_ & Hs & order & w & Hag & H2 & H3 & H4 & H5 & H6 & H7 & H8 & H9 & H10 & H11) & Hreg & Hj).
    destruct (rebuild_remembers h' e' w spec resolved order) as (r' & Hr' & Hm); try done.
    exists (en_record e'), r'. split_and!; try done. destruct Hag as [(w' & _ & _ & _ & _ & _ & _ & Hset) _]. apply Hset. }
  apply wp_bind. eapply wp_mono; [by apply wp_insert_run; [| |unfold run_row, run_of; simpl; exact Hnone]| |done].
  intros _ e1 (state & w & Hq & Htask & Hw & Ew & Hrows). specialize (Htask ltac:(done)).
  apply wp_bind. eapply wp_mono; [apply wp_and; [apply calm_journal_event|apply wp_keeps, file_journal_event]| |by intros ? ? []].
  intros _ e2 [Hq2 [F1 F2 F3]]. destruct (F3 w Hw) as (w2 & Hw2 & [S1 S2 S3 S4 S5]). specialize (F2 Htask).
  destruct Hq as [[M1 M2 M3 M4 M5 M6] A1 _ K1 _ _]. destruct Hq2 as [[N1 N2 N3 N4 N5 N6] A2 _ K2 L2 _].
  cbn in M1, M2, M3, M4, M5, M6, A1, K1. unfold steps_of in K1. cbn in K1.
  assert (run_of e2 = run_id) as Hr2 by (unfold run_of; congruence).
  unfold ordered_drive. apply wp_bind, wp_lift; [|done]. intros order Horder.
  pose proof (topological_order_spec needs_of depth spec Hnd Hdepth) as Ho. rewrite Horder in Ho. destruct Ho as (Hp & _ & _).
  assert (step_ids order ≡ₚ step_ids (wf_steps spec)) as Hids by (by apply fmap_Permutation).
  assert (∀ i, steps_of e2 !! i = seeded spec !! i) as Hseed by (intros i; rewrite K2; unfold steps_of; by rewrite K1).
  eapply wp_mono; [apply (wp_drive_row order e2 w2)| |done].
  - done.
  - split; [by rewrite Hids| |].
    + intros s Hs. exists new_step_run. split; [|by left]. rewrite Hseed, seeded_lookup, decide_True; [done|].
      rewrite <-Hids. by apply list_elem_of_fmap_2.
    + apply (alive_asked (en_record e1)); [|done]. by apply (alive_asked r0); [left|].
  - split; [done|done| |].
    + intros s Hs. rewrite L2, Hr2. unfold r0 in Hrows. cbn in Hrows. apply Hrows. cbn. by rewrite <-Hp.
    + intros s st Hs Hst Hd. rewrite Hseed, seeded_lookup in Hst. destruct (decide _); [|done]. by injection Hst as <-.
  - intros _ e3 (Hag & [T1 T2 T3 T4 T5] & Hout). pose proof Hag as [(w3 & _ & _ & _ & _ & _ & Hc3 & Hset) _].
    split; [|exact Hset]. split; [congruence|]. split; [congruence|]. exists order, w2.
    subst w. cbn in S1, S2, S3, S4, S5. split_and!; try done; try congruence.
    + unfold run_of in *. congruence.
    + intros i Hi. rewrite Hout, Hseed, seeded_lookup, decide_False; [done|by rewrite <-Hids|done].
Qed.

(** [C12] with the journal reachable, a run that has returned is rebuilt by the next
    process as this one left it: its state, its end, and of every step the state, the
    attempts, the error and the output. *)
Theorem finished_runs_survive_a_restart h spec inputs :
  all_up world → (∀ t, mo_still_up (world t) = true) →
  NoDup (step_ids (wf_steps spec)) → (length (wf_steps spec) < depth)%nat →
  parse_spec (dump_spec spec) = Some spec →
  (∀ l, _validate_inputs resolve (wf_inputs spec) inputs = Returned l → parse_inputs (dump_inputs l) = Some l) →
  match start_run run_id world repr digest needs_of depth dump_spec dump_inputs resolve spec inputs true h with
  | (h', Returned _) => ∃ r r', ho_registry h' = Some r ∧ run_over (yr_state r) = true ∧
      _rebuild_record_from_journal run_id parse_spec parse_inputs every_read (restarted h') = Some r' ∧ remembered r r'
  | (_, Raised _) => True
  end.
Proof using Type*.
  intros H1 H2 H3 H4 H5 H6. pose proof (wp_start_run h spec inputs H1 H2 H3 H4 H5 H6) as H. unfold wp in H.
  by destruct (start_run _ _ _ _ _ _ _ _ _ _ _ _ h) as [h' [res|x]].
Qed.

(** ** Resuming *)

Lemma driven_calls {A} (r : RunRecord) (m : M Engine A) h :
  ho_calls (driven world r m h).1 = en_calls (m (engine_of h r)).1.
Proof using Type.
  unfold driven, with_finally, on_run_of, engine_of. cbn. unfold mbind, M_bind. cbn.
  destruct (m _) as [e' o]. cbn. pose proof (calm_await_cancelling world
    {| en_journal := en_journal e'; en_outputs := en_outputs e'; en_record := en_record e'; en_clock := en_clock e'; en_calls := en_calls e' |}) as Hc.
  unfold wp in Hc. destruct (_await_cancelling_journal world _) as [e2 [[]|x]]; cbn; [|done]. by destruct Hc.
Qed.

(** A step whose row says it is done. *)
Definition done_in (j : journal) (step : WorkflowStep) : Prop := ∃ w s,
  j_steps j !! (run_id, ws_id step) = Some w ∧ StepState_of (sr_state w) = Some s ∧ step_done s = true.
(** The prompts of a resumed run: of steps of the spec, each within its budget, and if
    the rows of the steps could be read ([up]) of none that is done. *)
Definition resumed (up : bool) (j : journal) (spec : WorkflowSpec) (calls : list (string * string)) : Prop := ∃ ran bs,
  calls = concat bs ∧ NoDup (step_ids ran) ∧ ran ⊆ wf_steps spec ∧
  Forall2 (λ s b, block_of s b ∧ (length b ≤ budget s)%nat ∧ (up = true → done_in j s → b = [])) ran bs.
Lemma resumed_none up j spec : resumed up j spec [].
Proof using Type. exists [], []. split_and!; [done|constructor|set_solver|constructor]. Qed.

Lemma calm_reopen up rid state finished : calm (journal_write up (update_run_state rid state finished)).
Proof using Type. apply calm_journal_write. done. Qed.

Lemma wp_resumed_drive e spec j r ups : NoDup (step_ids (wf_steps spec)) → (length (wf_steps spec) < depth)%nat →
  yr_steps r = rebuilt_steps run_id ups j spec → en_record e = reopened r →
  let P e' := ∃ calls, en_calls e' = en_calls e ++ calls ∧ resumed (ru_steps ups) j spec calls in
  wp (mo ← await world;
      journal_write (mo_up mo) (update_run_state run_id (RunState_value RUN_RUNNING) None) ;;
      _journal_current_step world ;;
      ordered_drive world repr digest needs_of depth spec) e (λ _ e', P e') (λ _ e', P e').
Proof using Type*.
  intros Hnd Hdepth Hsteps Hr P. apply wp_bind, wp_await. intros t e1 Q1.
  apply wp_bind, wp_calm; [apply calm_reopen|]. intros _ e2 Q2. apply wp_bind, wp_calm; [apply calm_journal_current|]. intros _ e3 Q3.
  assert (quiet e e3) as [_ A _ K _ C] by (by etrans; [etrans|]). clear e1 e2 Q1 Q2 Q3.
  unfold ordered_drive. apply wp_bind, wp_lift.
  2:{ intros x _. exists []. split; [by rewrite app_nil_r|apply resumed_none]. }
  intros order Horder. pose proof (topological_order_spec needs_of depth spec Hnd Hdepth) as Ho. rewrite Horder in Ho. destruct Ho as (Hp & _ & _).
  assert (step_ids order ≡ₚ step_ids (wf_steps spec)) as Hids by (by apply fmap_Permutation).
  set (seen s := if ru_steps ups then overlay (j_steps j !! (run_id, ws_id s)) new_step_run else new_step_run).
  assert (∀ s, s ∈ order → steps_of e3 !! ws_id s = Some (reset_step (seen s))) as Hst.
  { intros s Hs. assert (ws_id s ∈ step_ids (wf_steps spec)) as Hin by (rewrite <-Hids; by apply list_elem_of_fmap_2).
    rewrite K. unfold steps_of. rewrite Hr. cbn. rewrite lookup_fmap, Hsteps. unfold rebuilt_steps, seen.
    destruct (ru_steps ups); rewrite ?map_lookup_imap, seeded_lookup, decide_True by done; done. }
  assert (ready order e3) as Hready.
  { split; [by rewrite Hids| |].
    - intros s Hs. eexists. split; [by apply Hst|]. unfold reset_step. destruct (step_done _) eqn:Hd; [by right|by left].
    - apply (alive_asked (en_record e)); [|done]. rewrite Hr. by left. }
  assert (∀ ran e', ran `prefix_of` order → prompted ran e3 e' → P e') as Hend.
  { intros ran e' Hpre (bs & Hcost & Hcalls). exists (concat bs). split; [by rewrite Hcalls, C|]. exists ran, bs. split; [done|].
    assert (NoDup (step_ids order)) as Hno by (by rewrite Hids). destruct Hpre as [rest ->].
    split; [unfold step_ids in *; rewrite fmap_app in Hno; by apply NoDup_app in Hno as [? _]|].
    split; [intros s Hs; rewrite <-Hp; apply elem_of_app; by left|].
    assert (∀ s, s ∈ ran → steps_of e3 !! ws_id s = Some (reset_step (seen s))) as Hran.
    { intros s Hs. apply Hst, elem_of_app. by left. }
    clear -Hcost Hran. induction Hcost as [|s b ran bs (H1 & H2 & H3) Hcost IH]; constructor.
    2:{ apply IH. intros t Hin. apply Hran. by right. }
    split; [done|]. split; [done|]. intros Hup (w & st & Hw & Hs & Hd). eapply H3; [apply Hran; left|].
    subst seen. rewrite Hup, Hw. unfold overlay. rewrite Hs. unfold reset_step. simpl. by rewrite Hd. }
  eapply wp_mono; [by apply wp_drive| |].
  - intros res e' (_ & Hpr & _). by apply (Hend order).
  - intros x e' (_ & ran & Hpre & Hpr). by apply (Hend ran).
Qed.

(** Up to the drive, a resume changes no step's row and asks no agent. *)
Record before_drive (h h' : Host) : Prop := {
  bd_calls : ho_calls h' = ho_calls h;
  bd_steps : j_steps (ho_journal h') = j_steps (ho_journal h);
}.
(** Waiting for a pending recovery asks no agent, and does not raise. *)
Definition same_calls (e e' : Engine) : Prop := en_calls e' = en_calls e.
#[local] Instance same_calls_preorder : PreOrder same_calls.
Proof using Type. split; [by intros e|]. unfold same_calls. congruence. Qed.
Lemma calm_same_calls {A} (m : M Engine A) : calm m → keeps same_calls m.
Proof using Type. intros Hm e. pose proof (Hm e) as H. unfold wp in H. destruct (m e) as [e' [a|x]]; simpl; [by destruct H|done]. Qed.
Lemma journal_write_calls up (m : J ()) : keeps same_calls (journal_write up m).
Proof using Type. intros e. unfold journal_write, zoom. by destruct (best_effort _ _). Qed.
Lemma journal_step_calls id kind : keeps same_calls (_journal_step world id kind).
Proof using Type.
  unfold _journal_step, the_step. apply keeps_bind; [apply _|apply calm_same_calls, calm_await|]. intros mo.
  apply keeps_bind; [apply _|auto with cao|]. intros st. apply keeps_bind; [apply _|auto with cao|]. intros r. apply journal_write_calls.
Qed.

Lemma on_run_of_calls {A} r (m : M Engine A) h : keeps same_calls m → ho_calls (on_run_of r m h).1 = ho_calls h.
Proof using Type.
  intros Hm. unfold on_run_of. match goal with |- context [m ?e] => specialize (Hm e); by destruct (m e) end.
Qed.

Lemma await_recovery_returns h : ∃ h', await_recovery world h = (h', Returned ()) ∧ ho_calls h' = ho_calls h.
Proof using Type.
  assert (ho_calls (recover world h).1 = ho_calls h) as Hc.
  { unfold recover. rewrite (bind_returned _ _ h h h) by done. unfold id.
    destruct (ho_recovery h) as [|id|]; [done| |done]. destruct (ho_registry h) as [r|]; [|done]. apply on_run_of_calls.
    apply keeps_bind; [apply _| |intros _; apply keeps_bind; [apply _|apply calm_same_calls, calm_journal_current|]; intros _;
      apply calm_same_calls, calm_journal_run_state].
    destruct id as [id|]; [|auto with cao]. destruct (decide _); [apply journal_step_calls|auto with cao]. }
  unfold await_recovery, recovery_runs, with_finally, catch, mbind, M_bind. destruct (recover world h) as [h1 [[]|x]]; simpl in *;
    (eexists; split; [reflexivity|]); simpl; by destruct (ho_recovery h1).
Qed.
Lemma await_recovery_idle h : (∀ id, ho_recovery h ≠ Recovering id) →
  ∃ h', await_recovery world h = (h', Returned ()) ∧ before_drive h h' ∧ j_runs (ho_journal h') = j_runs (ho_journal h).
Proof using Type.
  intros Hr. unfold await_recovery, recovery_runs, recover, with_finally, catch, mbind, M_bind. simpl.
  destruct (ho_recovery h) as [|id|] eqn:E; [|by destruct (Hr id)|]; simpl; rewrite ?E; simpl; rewrite ?E; eexists; (split; [reflexivity|]); by split.
Qed.

Lemma wp_resume up ups h :
  let h1 := (await_recovery world h).1 in
  (∀ row spec, j_runs (ho_journal h1) !! run_id = Some row → parse_spec (rr_spec_snapshot row) = Some spec →
     NoDup (step_ids (wf_steps spec)) ∧ (length (wf_steps spec) < depth)%nat) →
  let P h' := ∃ calls, ho_calls h' = ho_calls h ++ calls ∧ (calls = [] ∨ ∃ row spec,
    j_runs (ho_journal h1) !! run_id = Some row ∧ parse_spec (rr_spec_snapshot row) = Some spec ∧
    resumed (ru_steps ups) (ho_journal h1) spec calls) in
  wp (resume_from_last_completed run_id world repr digest needs_of depth parse_spec parse_inputs up ups) h (λ _ h', P h') (λ _ h', P h').
Proof using Type*.
  intros h1 Hspecs P. assert (await_recovery world h = (h1, Returned ()) ∧ ho_calls h1 = ho_calls h) as [E1 C1].
  { subst h1. by destruct (await_recovery_returns h) as (h' & -> & ?). }
  clearbody h1.
  assert (∀ h', ho_calls h' = ho_calls h → P h') as Hnone'.
  { intros h' H. exists []. split; [by rewrite app_nil_r|by left]. }
  assert (∀ h', before_drive h1 h' → P h') as Hnone.
  { intros h' [H _]. apply Hnone'. by rewrite H. }
  unfold resume_from_last_completed. apply wp_bind, wp_lift; [intros [] _|intros x _; by apply Hnone'].
  apply wp_bind, wp_gets. destruct (ho_active _); [by apply wp_raise, Hnone'|]. unfold id.
  eapply wp_known; [exact E1|]. clear E1. assert (before_drive h1 h1) as B1 by done.
  apply wp_bind, wp_gets. destruct up; [|by apply wp_raise, Hnone].
  destruct (j_runs (ho_journal h1) !! run_id) as [row|] eqn:Hrow; [|by apply wp_raise, Hnone].
  destruct (RunState_of (rr_state row)) as [state|]; [|by apply wp_raise, Hnone].
  destruct (decide (state = RUN_COMPLETED)); [by apply wp_raise, Hnone|].
  assert (wp (if decide (state = RUN_CANCELLING)
               then mo ← host_await world; host_write (mo_up mo) (update_run_state run_id (RunState_value RUN_CANCELLED) (Some (mo_now mo)))
               else mret ()) h1 (λ _ h2, before_drive h1 h2 ∧ ∀ row', j_runs (ho_journal h2) !! run_id = Some row' → same_row row row') (λ _ _, False)) as Hset.
  { destruct (decide _).
    - unfold wp, host_await, host_write, zoom, best_effort, reaching, catch, mbind, M_bind. destruct (mo_up _); simpl.
      + split; [by split|]. intros row'. rewrite lookup_alter_eq, Hrow. by intros [= <-].
      + split; [by split|]. intros row'. rewrite Hrow. by intros [= <-].
    - apply wp_ret. split; [done|]. intros row'. rewrite Hrow. by intros [= <-]. }
  apply wp_bind. eapply wp_mono; [exact Hset| |done]. intros [] h2 [B2 R2].
  destruct (parse_spec (rr_spec_snapshot row)) as [spec|] eqn:Hspec; [|by apply wp_raise, Hnone].
  apply wp_bind, wp_gets. destruct (_rebuild_record_from_journal _ _ _ _ h2) as [r|] eqn:Hr; [|by apply wp_raise, Hnone].
  assert (yr_steps r = rebuilt_steps run_id ups (ho_journal h2) spec) as Hsteps.
  { unfold _rebuild_record_from_journal in Hr. destruct (ru_run ups); [|done]. simpl in Hr.
    destruct (j_runs (ho_journal h2) !! run_id) as [row'|] eqn:Hrow'; [|done]. specialize (R2 row' eq_refl) as [_ _ S _ _]. simpl in Hr.
    rewrite S, Hspec in Hr. simpl in Hr. destruct (parse_inputs _); [|done]. simpl in Hr. destruct (RunState_of _); [|done]. by injection Hr as <-. }
  destruct (Hspecs row spec eq_refl Hspec) as [Hnd Hdepth].
  assert (∀ A (m : M Host A), P (m h2).1 → wp m h2 (λ _ h', P h') (λ _ h', P h')) as Hwp.
  { intros A m H. unfold wp. by destruct (m h2) as [? []]. }
  apply Hwp. unfold P. rewrite driven_calls.
  pose proof (wp_resumed_drive (engine_of h2 (reopened r)) spec (ho_journal h2) r ups Hnd Hdepth Hsteps eq_refl) as Hd.
  unfold wp in Hd. destruct B2 as [C2 J2].
  assert (∀ calls, resumed (ru_steps ups) (ho_journal h2) spec calls → resumed (ru_steps ups) (ho_journal h1) spec calls) as Hsame.
  { intros calls. unfold resumed, done_in. by rewrite J2. }
  destruct ((mo ← await world; _) (engine_of h2 (reopened r))) as [e' [res|x]]; simpl; destruct Hd as (calls & Hc & Hres); exists calls;
    (split; [rewrite Hc; simpl; by rewrite C2, C1|]); right; exists row, spec; auto.
Qed.

(** [C11] A resume runs only what is not done.  Whatever fails or is cancelled on the way,
    a resume asks agents only for steps of the run's spec, each within its budget.
    Take the rows as they are once a pending recovery of a stranded cancellation has
    ended (it may write CANCELLED over the step that was current,
    [a_stranded_cancel_undoes_a_step]; without one they are the rows of the journal).
    If the rows of the steps can be read, no step is run whose row says it is done; if
    that read fails, the resume takes every step for pending.  The spec has distinct
    step ids and fewer steps than the interpreter's recursion depth. *)
Theorem resume_runs_only_what_is_not_done up ups h :
  let h1 := (await_recovery world h).1 in
  (∀ row spec, j_runs (ho_journal h1) !! run_id = Some row → parse_spec (rr_spec_snapshot row) = Some spec →
     NoDup (step_ids (wf_steps spec)) ∧ (length (wf_steps spec) < depth)%nat) →
  ((∀ id, ho_recovery h ≠ Recovering id) →
     j_runs (ho_journal h1) = j_runs (ho_journal h) ∧ j_steps (ho_journal h1) = j_steps (ho_journal h)) ∧
  ∃ calls, ho_calls (resume_from_last_completed run_id world repr digest needs_of depth parse_spec parse_inputs up ups h).1 = ho_calls h ++ calls ∧
    (calls = [] ∨ ∃ row spec, j_runs (ho_journal h1) !! run_id = Some row ∧ parse_spec (rr_spec_snapshot row) = Some spec ∧
       resumed (ru_steps ups) (ho_journal h1) spec calls).
Proof using Type*.
  intros h1 H. split.
  - intros Hidle. unfold h1. by destruct (await_recovery_idle h Hidle) as (h' & -> & [_ Hs] & Hr).
  - pose proof (wp_resume up ups h H) as Hw. unfold wp in Hw.
    by destruct (resume_from_last_completed _ _ _ _ _ _ _ _ up ups h) as [h' [res|x]].
Qed.
End Restart.
