(* ===== verification/EngineSamples.v ===== *)
(** * Sample runs of the YAML engine

    The theorems of the engine at concrete runs, and three runs that show what the
    code does against its own comments. *)

From stdpp Require Import gmap.
From S2P Require Import Prelude Text Secrets Envelope Journal Steps Workflow Order Template Wp Engine EngineThms EngineRuns Runs RunsThms.

(** ** A spec of two steps *)

Definition sample_step (id prompt : string) (schema : option json) (retries : option Z) : WorkflowStep := {|
  ws_id := id; ws_provider := "codex"; ws_agent := "dev"; ws_prompt := prompt; ws_engine := None; ws_output_schema := schema;
  ws_when := None; ws_until := None; ws_max_iterations := None; ws_on_stall := None; ws_on_no_progress := None;
  ws_on_failure := None; ws_retries := retries |}.
Definition sample_input : InputDecl := {| id_type := type_string; id_required := true; id_default := None |}.
Definition sample_spec : WorkflowSpec := {|
  wf_name := "flow"; wf_description := ""; wf_mode := sequential; wf_inputs := [("who", sample_input)]%string;
  wf_steps := [sample_step "a" "greet {{workflow.inputs.who}}" (Some (JObj [])) (Some 1);
               sample_step "b" "repeat {{steps.a.output.text}}" None (Some 0)] |}.
Definition sample_inputs : list (string * value) := [("who", VStr "Ada")]%string.
Definition sample_record : RunRecord := new_record "r" sample_spec sample_inputs "t0".
Definition sample_files : journal := {|
  j_runs := {[ "r"%string := new_run "r" "flow" "spec" "inputs" "running" "t0" "yaml" "1" None ]};
  j_steps := <[("r", "a")%string := new_step "r" "a" "pending" "t0" None]> {[ ("r", "b")%string := new_step "r" "b" "pending" "t0" None ]};
  j_events := ∅; j_seq := ∅ |}.
Definition sample_engine : Engine := {| en_journal := sample_files; en_outputs := []; en_record := sample_record; en_clock := 0; en_calls := [] |}.
Definition sample_output : StepOutputRecord := {| so_output := JObj [("text", JStr "hi")]%string; so_validated := true |}.

Definition a_moment (meanwhile : list meanwhile) (agent : agent_result) : moment := {|
  mo_meanwhile := meanwhile; mo_up := true; mo_still_up := true; mo_agent := agent; mo_now := "t1" |}.
(** Every agent is done; the first returns its output while it is awaited. *)
Definition answering (n : nat) : moment :=
  a_moment (if decide (n = 6)%nat then [OutputPut ("r", "a")%string sample_output] else []) (AgentDone "term").
(** Nobody returns an output. *)
Definition mute (n : nat) : moment := a_moment [] (AgentDone "term").
Definition raising (n : nat) : moment := a_moment [] (AgentRaises (ValueError "no such directory")).
Definition no_repr (_ : json) : string := "{}".

Lemma sample_ready : ready (wf_steps sample_spec) sample_engine.
Proof.
  split; [by_eval| |by left].
  intros s Hs. exists new_step_run. split; [|by left]. unfold sample_spec in Hs. simpl in Hs.
  apply elem_of_cons in Hs as [-> | ->%list_elem_of_singleton]; reflexivity.
Qed.

Example answered_run :
  let '(e, o) := _drive answering no_repr no_repr (wf_steps sample_spec) sample_engine in
  en_calls e = [("a", "greet Ada"); ("b", "repeat hi")]%string ∧
  (match o with Returned res => wr_state res = RUN_COMPLETED | Raised _ => False end) ∧
  er_event_type <$> merge_sort seq_le (run_events "r" (en_journal e)) =
    ["step.started"; "step.attempt.started"; "terminal.created"; "step.output.received"; "step.completed";
     "step.started"; "step.attempt.started"; "terminal.created"; "step.completed"; "run.completed"]%string.
Proof. vm_compute. split; [reflexivity|]. split; reflexivity. Qed.

(** The corrective prompt is the template itself: nothing is filled in, though the
    terminal it goes to is a new one. *)
Lemma reprompts_send_the_template :
  let e := (_drive mute no_repr no_repr (wf_steps sample_spec) sample_engine).1 in
  match en_calls e with
  | first :: second :: _ => first = ("a", "greet Ada")%string ∧
      second.1 = "a"%string ∧ String.prefix "greet {{workflow.inputs.who}}" second.2 = true
  | _ => False
  end.
Proof. vm_compute. split; [reflexivity|]. split; reflexivity. Qed.

(** An exception that is not the engine's own: the drive is over and its run is still
    RUNNING, in memory and in the journal. *)
Lemma other_errors_leave_the_run_running :
  match _drive raising no_repr no_repr (wf_steps sample_spec) sample_engine with
  | (e, Raised x) => x = ValueError "no such directory" ∧ yr_state (en_record e) = RUN_RUNNING ∧
      rr_state <$> run_row e = Some "running"%string
  | _ => False
  end.
Proof. vm_compute. split; [reflexivity|]. split; reflexivity. Qed.

(** An error of the engine: the step is FAILED in memory and running in the journal. *)
Lemma engine_errors_are_not_journaled :
  match _drive mute no_repr no_repr (wf_steps sample_spec) sample_engine with
  | (e, Raised x) => is_engine_error x = true ∧ sn_state <$> steps_of e !! "b"%string = Some STEP_FAILED ∧
      sr_state <$> rows_of e !! ("r", "b")%string = Some "running"%string
  | _ => False
  end.
Proof. vm_compute. split; [reflexivity|]. split; reflexivity. Qed.

(** ** A process that stopped between two steps

    The first step is done and still the current one.  Cancelling the run that nobody
    drives marks it CANCELLED, and the resume that follows runs it again. *)

Definition between_steps : journal :=
  (update_run_current_step "r" (Some "a"%string) (update_step "r" "a" "completed" 1 "t1" (Some (JObj [("text", JStr "hi")]%string)) None None
     sample_files).1).1.
Definition next_process : Host := {| ho_journal := between_steps; ho_outputs := []; ho_registry := None; ho_active := false;
  ho_recovery := NoRecovery; ho_clock := 0; ho_calls := [] |}.
Definition reads_spec (_ : string) : option WorkflowSpec := Some sample_spec.
Definition reads_inputs (_ : string) : option (list (string * value)) := Some sample_inputs.
Definition no_needs (_ : WorkflowStep) : list string := [].
Definition sample_resume (world : nat → moment) : M Host WorkflowRunResult :=
  resume_from_last_completed "r" world no_repr no_repr no_needs 1000 reads_spec reads_inputs true every_read.
Definition sample_cancel : M Host () := cancel_run "r" mute reads_spec reads_inputs every_read.

(** Resumed at once, the step that is done stays done. *)
Example resumed_at_once : ho_calls (sample_resume mute next_process).1 = [("b", "repeat hi")]%string.
Proof. vm_compute. reflexivity. Qed.

Lemma a_stranded_cancel_undoes_a_step :
  let cancelled := (sample_cancel next_process).1 in
  let e := (sample_resume mute cancelled).1 in
  sr_state <$> j_steps between_steps !! ("r", "a")%string = Some "completed"%string ∧
  sr_state <$> j_steps (ho_journal (recovery_runs mute cancelled).1) !! ("r", "a")%string = Some "cancelled"%string ∧
  head (ho_calls e) = Some ("a", "greet Ada")%string.
Proof. vm_compute. split; [reflexivity|]. split; reflexivity. Qed.

(** ** The theorems at these runs *)

Lemma settled_witness : ready (wf_steps sample_spec) sample_engine ∧
  match _drive raising no_repr no_repr (wf_steps sample_spec) sample_engine with
  | (e', Returned res) => came_to_end raising (wf_steps sample_spec) sample_engine e' res
  | (e', Raised x) => left_by raising no_repr (wf_steps sample_spec) sample_engine e' x
  end.
Proof. split; [exact sample_ready|]. exact (drives_end_settled raising no_repr no_repr (wf_steps sample_spec) sample_engine sample_ready). Defined.

Lemma prompts_witness : ready (wf_steps sample_spec) sample_engine ∧
  ∃ ran, ran `prefix_of` wf_steps sample_spec ∧
    prompted ran sample_engine (_drive mute no_repr no_repr (wf_steps sample_spec) sample_engine).1.
Proof. split; [exact sample_ready|]. exact (prompts_are_bounded mute no_repr no_repr (wf_steps sample_spec) sample_engine sample_ready). Defined.

(** A spec that has an order, and one that has none. *)
Definition sample_needs (s : WorkflowStep) : list string := if decide (ws_id s = "a"%string) then ["b"%string] else [].
Lemma order_witness : NoDup (step_ids (wf_steps sample_spec)) ∧ (length (wf_steps sample_spec) < 1000)%nat ∧
  _topological_order sample_needs 1000 sample_spec = Returned (rev (wf_steps sample_spec)) ∧
  needed_first sample_needs (rev (wf_steps sample_spec)).
Proof.
  assert (NoDup (step_ids (wf_steps sample_spec))) as H1 by by_eval.
  assert (length (wf_steps sample_spec) < 1000)%nat as H2 by (simpl; lia).
  assert (_topological_order sample_needs 1000 sample_spec = Returned (rev (wf_steps sample_spec))) as H3 by (vm_compute; reflexivity).
  split; [exact H1|]. split; [exact H2|]. split; [exact H3|].
  pose proof (needed_steps_run_first sample_needs 1000 sample_spec H1 H2) as H. rewrite H3 in H. exact (proj1 (proj2 H)).
Defined.
Example cyclic_spec : _topological_order (λ s, if decide (ws_id s = "a") then ["b"] else ["a"])%string 1000 sample_spec
  = Raised (ValueError "workflow has a dependency cycle at step 'a'").
Proof. vm_compute. reflexivity. Qed.

Definition empty_host : Host := {| ho_journal := {| j_runs := ∅; j_steps := ∅; j_events := ∅; j_seq := ∅ |}; ho_outputs := [];
  ho_registry := None; ho_active := false; ho_recovery := NoRecovery; ho_clock := 0; ho_calls := [] |}.
Definition no_path (s : string) : outcome string := Returned s.
Definition no_text {A} (_ : A) : string := "".
Definition sample_start (world : nat → moment) : M Host WorkflowRunResult :=
  start_run "r" world no_repr no_repr no_needs 1000 no_text no_text no_path sample_spec sample_inputs true.

Lemma survives_witness : ∃ r r', ho_registry (sample_start answering empty_host).1 = Some r ∧ run_over (yr_state r) = true ∧
  _rebuild_record_from_journal "r" reads_spec reads_inputs every_read (restarted (sample_start answering empty_host).1) = Some r' ∧ remembered r r'.
Proof.
  assert (∀ l, _validate_inputs no_path (wf_inputs sample_spec) sample_inputs = Returned l → reads_inputs (no_text l) = Some l) as Hinputs.
  { intros l H. vm_compute in H. injection H as <-. reflexivity. }
  pose proof (finished_runs_survive_a_restart answering no_repr no_repr "r" no_needs 1000 reads_spec no_text reads_inputs no_text no_path
    empty_host sample_spec sample_inputs (λ _, eq_refl) (λ _, eq_refl) ltac:(by_eval) ltac:(simpl; lia) eq_refl Hinputs) as H.
  unfold sample_start. destruct (start_run _ _ _ _ _ _ _ _ _ _ _ _ empty_host) as [h' [res|x]] eqn:E; [exact H|].
  exfalso. assert (match (sample_start answering empty_host).2 with Returned _ => true | Raised _ => false end = true) as F by (vm_compute; reflexivity).
  unfold sample_start in F. rewrite E in F. discriminate F.
Defined.

Lemma resumes_witness : let h1 := (await_recovery mute next_process).1 in
  ho_journal h1 = ho_journal next_process ∧
  ∃ calls, ho_calls (sample_resume mute next_process).1 = ho_calls next_process ++ calls ∧
    (calls = [] ∨ ∃ row spec, j_runs (ho_journal h1) !! "r"%string = Some row ∧ reads_spec (rr_spec_snapshot row) = Some spec ∧
       resumed "r" true (ho_journal h1) spec calls).
Proof.
  intros h1. split; [vm_compute; reflexivity|].
  apply (resume_runs_only_what_is_not_done mute no_repr no_repr "r" no_needs 1000 reads_spec reads_inputs true every_read next_process).
  intros row spec _ [= <-]. split; [by_eval|simpl; lia].
Defined.
