(* ===== verification/AgentStep.v ===== *)
(** * One agent, one step — [services/agent_step.py], [wait_until_status] of
    [utils/terminal.py], [parse_kiro_engine] of [models/kiro_engine.py]

    A terminal is created or reused, awaited, given its prompt, watched until its turn
    is over, read, and torn down.  The terminal layer, the status sources, the clocks
    and whoever sets the cancel event are the class [TerminalLayer] over an arbitrary
    environment: every call may change it in any way, answer anything and raise
    anything.  Times are integers of microseconds. *)

From S2P Require Import Prelude Fingerprint Screen.

(** ** Exceptions and results *)

(** What a call of another file may raise: the two exceptions of the input path that
    this file tells apart, any other [Exception], and the cancellation of the task,
    which is none. *)
Inductive fault :=
| TerminalInputBlockedError (message : string)
| DeliveryDeferredError (message : string)
| OtherError (e : exn)
| TaskCancelled.
Inductive answer (A : Type) := Answers (a : A) | Faults (f : fault).
Arguments Answers {A} a.
Arguments Faults {A} f.

(** What may be raised here: the two classes of the file, or a fault.  [StillWaiting]
    is no exception: a loop has been followed for as long as asked. *)
Inductive raised :=
| StepCancelledError (terminal_id : option string)
| StepExecutionError (message kind : string) (terminal_id : option string)
| Fault (f : fault)
| StillWaiting.
Definition is_exception (r : raised) : bool :=
  match r with Fault TaskCancelled | StillWaiting => false | _ => true end.

Inductive result (A : Type) := Ok (a : A) | Err (r : raised).
Arguments Ok {A} a.
Arguments Err {A} r.

(** What a step does to the world and what it is told, in order.  [ExitAsked] and
    [DeleteAsked] are the requests of the teardown, whose failures are swallowed. *)
Inductive act :=
| Created (terminal_id : string)
| Labelled (terminal_id label : string)
| Notified (terminal_id call_fingerprint : string)
| Saw (status : option TerminalStatus)
| Gated (waits : bool)
| StatusGen (gen : option Z)
| InputGen (gen : Z)
| Sent (terminal_id prompt : string) (frozen_memory : option string)
| Reading (terminal_id : string)
| ExitAsked (terminal_id : string)
| DeleteAsked (terminal_id : string)
| Unlabelled (terminal_id : string)
| BlockedBy (rule : string).
#[export] Instance act_eq_dec : EqDecision act. Proof. solve_decision. Defined.

(** The environment, what happened, and the two flags of [run_agent_step]. *)
Record Step (E : Type) := {
  as_env : E;
  as_acts : list act;
  as_cleanup : bool;
  as_extracted : bool;
}.
Arguments as_env {E}. Arguments as_acts {E}. Arguments as_cleanup {E}. Arguments as_extracted {E}.

Definition T (E A : Type) : Type := Step E → Step E * result A.
#[export] Instance T_ret {E} : MRet (T E) := λ A a s, (s, Ok a).
#[export] Instance T_bind {E} : MBind (T E) := λ A B f m s,
  match m s with
  | (s', Ok a) => f a s'
  | (s', Err r) => (s', Err r)
  end.

Section Statements.
Context {E : Type}.
Definition throw {A} (r : raised) : T E A := λ s, (s, Err r).
(** A call of the environment. *)
Definition ask {A} (f : E → E * answer A) : T E A := λ s,
  let '(e, r) := f (as_env s) in
  ({| as_env := e; as_acts := as_acts s; as_cleanup := as_cleanup s; as_extracted := as_extracted s |},
   match r with Answers a => Ok a | Faults f => Err (Fault f) end).
Definition log (a : act) : T E () := λ s,
  ({| as_env := as_env s; as_acts := as_acts s ++ [a]; as_cleanup := as_cleanup s; as_extracted := as_extracted s |}, Ok ()).
Definition set_cleanup : T E () := λ s,
  ({| as_env := as_env s; as_acts := as_acts s; as_cleanup := true; as_extracted := as_extracted s |}, Ok ()).
Definition set_extracted : T E () := λ s,
  ({| as_env := as_env s; as_acts := as_acts s; as_cleanup := as_cleanup s; as_extracted := true |}, Ok ()).
Definition flag (f : Step E → bool) : T E bool := λ s, (s, Ok (f s)).
(** [try: m except <h>]: [h] says what it does with what it catches. *)
Definition except {A} (m : T E A) (h : raised → option (T E A)) : T E A := λ s,
  match m s with
  | (s', Err r) => match h r with Some m' => m' s' | None => (s', Err r) end
  | done => done
  end.
(** [try: m finally: f] *)
Definition try_finally {A} (m : T E A) (f : T E ()) : T E A := λ s,
  let '(s', r) := m s in
  match f s' with
  | (s'', Ok _) => (s'', r)
  | (s'', Err r') => (s'', Err r')
  end.
(** [except Exception: log] *)
Definition shrug (m : T E ()) : T E () := except m (λ r, if is_exception r then Some (mret ()) else None).
End Statements.

(** ** Kiro engines *)

Inductive KiroEngine := V2 | KAS.
#[export] Instance KiroEngine_eq_dec : EqDecision KiroEngine. Proof. solve_decision. Defined.
Definition KiroEngine_value (k : KiroEngine) : string := match k with V2 => "v2" | KAS => "kas" end.
Inductive engine_value := EngineMember (k : KiroEngine) | EngineText (s : string).
Definition parse_kiro_engine (value : option engine_value) : outcome (option KiroEngine) :=
  match value with
  | None => Returned None
  | Some (EngineMember k) => Returned (Some k)
  | Some (EngineText s) =>
      if decide (s = "v2") then Returned (Some V2)
      else if decide (s = "kas") then Returned (Some KAS)
      else Raised (ValueError "Invalid Kiro engine")
  end.
Definition engine_text (v : engine_value) : string :=
  match v with EngineMember k => KiroEngine_value k | EngineText s => s end.

(** ** What the file calls *)

Record CreateArgs (F : Type) := {
  ca_provider : string;
  ca_agent : string;
  ca_session_name : option string;
  ca_new_session : bool;
  ca_working_directory : option string;
  ca_allowed_tools : option (list string);
  ca_caller_id : option string;
  ca_env_vars : option (list (string * string));
  ca_fork_context : option F;
  ca_engine : option engine_value;
  ca_model : option string;
  ca_use_worktree : option bool;
  ca_cell_request_class : string;
}.

(** [terminal_service], [receiver_state_view], [status_monitor], [auto_responder],
    [frozen_run_memory], [fleet_labels], [os], [time] and [asyncio].  An event is known
    by its identity; [wait_event] waits for it for at most so long and says whether it
    was set. *)
Class TerminalLayer (E F : Type) := {
  get_working_directory : string → E → E * answer (option string);
  getcwd : E → E * answer string;
  seed_resume_bootstrap : string → string → string → E → E * answer (option F);
  create_terminal : CreateArgs F → E → E * answer string;
  get_terminal_metadata : string → E → E * answer (option (option string * option string));
  frozen_memory_for : option string → string → string → E → E * answer (option string);
  send_input : string → string → option string → E → E * answer ();
  get_output_last : string → E → E * answer string;
  exit_terminal_cli : string → E → E * answer ();
  delete_terminal : string → E → E * answer ();
  snapshot_view : string → E → E * answer (option TerminalStatus);
  get_status : string → E → E * answer TerminalStatus;
  get_raw_status : string → E → E * answer TerminalStatus;
  get_status_gen : string → E → E * answer (option Z);
  get_input_gen : string → E → E * answer Z;
  waiting_gate : string → E → E * answer bool;
  upsert_label : string → string → E → E;
  remove_label : string → E → E;
  wall_time : E → Z;
  monotonic_time : E → Z;
  sleep : Z → E → E * answer ();
  event_is_set : nat → E → bool;
  wait_event : nat → Z → E → E * answer bool;
}.

(** The callbacks a caller passes in. *)
Definition ready_callback (E : Type) : Type := string → string → E → E * answer ().
Record BlockedWaitPolicy (E : Type) := {
  probe : E → E * answer (option (string * string));
  blocked_cap : Z;
  on_first_blocked : string → E → E * answer ();
}.
Arguments probe {E}. Arguments blocked_cap {E}. Arguments on_first_blocked {E}.

Inductive _CompletionOutcome := OUT_COMPLETED | OUT_IDLE_DONE | OUT_ERROR | OUT_WAITING_USER | OUT_TIMEOUT | OUT_CANCELLED.
#[export] Instance _CompletionOutcome_eq_dec : EqDecision _CompletionOutcome. Proof. solve_decision. Defined.

Record AgentStepResult := { ar_terminal_id : string; ar_last_message : string; ar_status : TerminalStatus }.

Definition DEFAULT_READY_TIMEOUT : Z := 120000000.
Definition _READY_STATES : list TerminalStatus := [TS_IDLE; TS_COMPLETED].
Definition poll_interval : Z := 1000000.

Section AgentStep.
Context {E F : Type} `{!TerminalLayer E F}.
(** How Python writes a number of seconds, and a status. *)
Context (show_seconds : Z → string) (show_status : option TerminalStatus → string).
Local Notation TS := (T E).

Definition now : TS Z := λ s, (s, Ok (wall_time (as_env s))).
Definition monotonic : TS Z := λ s, (s, Ok (monotonic_time (as_env s))).
Definition is_set (signal : option nat) : TS bool := λ s,
  (s, Ok (match signal with Some i => event_is_set i (as_env s) | None => false end)).

(** ** Waiting until a terminal is ready *)

Record Waiting := {
  wt_unblocked : Z;
  wt_blocked : Z;
  wt_last_tick : Z;
  wt_previous_blocked : bool;
  wt_active_rule : option string;
  wt_clean_polls : Z;
  wt_notified : bool;
}.
(** The start of a turn of the loop: the time since the last one is counted. *)
Definition ticked (now : Z) (w : Waiting) : Waiting :=
  let delta := now - wt_last_tick w in {|
  wt_unblocked := if wt_previous_blocked w then wt_unblocked w else wt_unblocked w + delta;
  wt_blocked := if wt_previous_blocked w then wt_blocked w + delta else wt_blocked w;
  wt_last_tick := now; wt_previous_blocked := wt_previous_blocked w; wt_active_rule := wt_active_rule w;
  wt_clean_polls := wt_clean_polls w; wt_notified := wt_notified w |}.
Definition wait_rule (gate : option (string * string)) : option string :=
  match gate with
  | Some (kind, rule) => if bool_decide (kind = "wait_rule" ∧ rule ≠ "") then Some rule else None
  | None => None
  end%string.
(** The end of a turn: a rule blocks, or does not. *)
Definition blocked_by (rule : string) (w : Waiting) : Waiting :=
  let same := bool_decide (wt_active_rule w = Some rule) in {|
  wt_unblocked := wt_unblocked w; wt_blocked := wt_blocked w; wt_last_tick := wt_last_tick w;
  wt_previous_blocked := true; wt_active_rule := Some rule;
  wt_clean_polls := if same then wt_clean_polls w else 0; wt_notified := true |}.
Definition unblocked (w : Waiting) : Waiting :=
  let clean := match wt_active_rule w with Some _ => wt_clean_polls w + 1 | None => wt_clean_polls w end in
  let over := bool_decide (is_Some (wt_active_rule w)) && (2 <=? clean) in {|
  wt_unblocked := wt_unblocked w; wt_blocked := wt_blocked w; wt_last_tick := wt_last_tick w;
  wt_previous_blocked := false; wt_active_rule := if over then None else wt_active_rule w;
  wt_clean_polls := if over then 0 else clean; wt_notified := if over then false else wt_notified w |}.

Definition reaches (targets : list TerminalStatus) (min_gen : option Z) (current : TerminalStatus) (gen : option Z) : bool :=
  bool_decide (current ∈ targets)
  && match min_gen, gen with Some least, Some gen => least <=? gen | _, _ => true end.
Definition notify_blocked (policy : option (BlockedWaitPolicy E)) (rule : string) (w : Waiting) : TS () :=
  log (BlockedBy rule) ;;
  match policy with
  | Some p =>
      if wt_notified w && bool_decide (wt_active_rule w = Some rule) then mret ()
      else shrug (ask (on_first_blocked p rule))
  | None => mret ()
  end.

Fixpoint wait_loop (fuel : nat) (terminal_id : string) (targets : list TerminalStatus) (timeout interval : Z)
    (min_gen : option Z) (raw_status : bool) (policy : option (BlockedWaitPolicy E)) (w : Waiting) : TS bool :=
  match fuel with
  | O => throw StillWaiting
  | S fuel =>
      if negb (wt_unblocked w <? timeout) then mret false else
      t ← monotonic;
      let w := ticked t w in
      if match policy with Some p => blocked_cap p <? wt_blocked w | None => false end then mret false else
      current ← ask ((if raw_status then get_raw_status else get_status) terminal_id);
      log (Saw (Some current)) ;;
      gen ← (if decide (is_Some min_gen) then ask (get_status_gen terminal_id) else mret None);
      if reaches targets min_gen current gen then mret true else
      gate ← match policy with Some p => ask (probe p) | None => mret None end;
      w ← match wait_rule gate with
          | Some rule => notify_blocked policy rule w ;; mret (blocked_by rule w)
          | None => mret (unblocked w)
          end;
      ask (sleep interval) ;;
      wait_loop fuel terminal_id targets timeout interval min_gen raw_status policy w
  end.
Definition wait_until_status (fuel : nat) (terminal_id : string) (targets : list TerminalStatus) (timeout interval : Z)
    (min_gen : option Z) (raw_status : bool) (policy : option (BlockedWaitPolicy E)) : TS bool :=
  t ← monotonic;
  wait_loop fuel terminal_id targets timeout interval min_gen raw_status policy {|
    wt_unblocked := 0; wt_blocked := 0; wt_last_tick := t; wt_previous_blocked := false; wt_active_rule := None;
    wt_clean_polls := 0; wt_notified := false |}.

(** ** Waiting until the turn is over *)

Definition _resolve_cancel_signal (cancel_signal cancel_event : option nat) : TS (option nat) :=
  match cancel_signal, cancel_event with
  | None, _ => mret cancel_event
  | Some a, Some b => if decide (a = b) then mret cancel_signal else throw (Fault (OtherError (TypeError "pass only one of cancel_signal/cancel_event")))
  | Some _, None => mret cancel_signal
  end.
Definition cancelled_by (signal : option nat) (terminal_id : string) : TS () :=
  fired ← is_set signal; if (fired : bool) then throw (StepCancelledError (Some terminal_id)) else mret ().
Definition see (terminal_id : string) : TS (option TerminalStatus) :=
  current ← ask (snapshot_view terminal_id); log (Saw current) ;; mret current.
Definition see_gen (terminal_id : string) : TS (option Z) :=
  gen ← ask (get_status_gen terminal_id); log (StatusGen gen) ;; mret gen.

(** One reading: the outcome it decides, if any. *)
Definition completion_poll (terminal_id : string) (input_gen : Z) : TS (option _CompletionOutcome) :=
  current ← see terminal_id;
  match current with
  | Some TS_ERROR => mret (Some OUT_ERROR)
  | Some TS_WAITING_USER_ANSWER =>
      waits ← ask (waiting_gate terminal_id); log (Gated waits) ;;
      mret (if (waits : bool) then Some OUT_WAITING_USER else None)
  | Some TS_COMPLETED =>
      gen ← see_gen terminal_id;
      mret (if match gen with None => true | Some gen => input_gen <=? gen end then Some OUT_COMPLETED else None)
  | Some TS_IDLE =>
      gen ← see_gen terminal_id;
      mret (if match gen with None => false | Some gen => input_gen <=? gen end then Some OUT_IDLE_DONE else None)
  | _ => mret None
  end.
Definition pause (signal : option nat) (terminal_id : string) (interval : Z) : TS () :=
  match signal with
  | Some i => fired ← ask (wait_event i interval); if (fired : bool) then throw (StepCancelledError (Some terminal_id)) else mret ()
  | None => ask (sleep interval)
  end.
Fixpoint completion_loop (fuel : nat) (terminal_id : string) (input_gen timeout interval : Z) (signal : option nat)
    (start : Z) : TS _CompletionOutcome :=
  match fuel with
  | O => throw StillWaiting
  | S fuel =>
      t ← now;
      if t - start <? timeout
      then
        cancelled_by signal terminal_id ;;
        decided ← completion_poll terminal_id input_gen;
        match decided with
        | Some outcome => mret outcome
        | None => pause signal terminal_id interval ;;
                  completion_loop fuel terminal_id input_gen timeout interval signal start
        end
      else cancelled_by signal terminal_id ;; mret OUT_TIMEOUT
  end.
Definition _wait_for_completion (fuel : nat) (terminal_id : string) (input_gen timeout interval : Z)
    (cancel_signal cancel_event : option nat) : TS _CompletionOutcome :=
  signal ← _resolve_cancel_signal cancel_signal cancel_event;
  start ← now;
  completion_loop fuel terminal_id input_gen timeout interval signal start.

(** ** Before and after *)

Definition _teardown_terminal (terminal_id : string) : TS () :=
  shrug (log (ExitAsked terminal_id) ;; ask (exit_terminal_cli terminal_id)) ;;
  shrug (log (DeleteAsked terminal_id) ;; ask (delete_terminal terminal_id)).

Definition lift_exn {A} (o : outcome A) : TS A :=
  match o with Returned a => mret a | Raised e => throw (Fault (OtherError e)) end.
Definition value_error (what : string) : raised := Fault (OtherError (ValueError what)).
Definition _validate_reused_terminal (terminal_id requested_provider : string) (requested_engine : option engine_value) : TS () :=
  metadata ← ask (get_terminal_metadata terminal_id);
  match metadata with
  | None => match requested_engine with
            | None => mret ()
            | Some _ => throw (value_error "Terminal not found")
            end
  | Some (persisted_provider, persisted) =>
      if decide (persisted_provider = Some requested_provider) then
        match requested_engine with
        | None => mret ()
        | Some requested =>
            if decide (persisted_provider = Some "kiro_cli"%string) then
              explicit ← lift_exn (parse_kiro_engine (Some requested));
              persisted ← lift_exn (parse_kiro_engine (EngineText <$> persisted));
              if decide (explicit = Some (default V2 persisted)) then mret ()
              else throw (value_error "Kiro engine mismatch for reused terminal")
            else throw (value_error "Kiro engine selection is only valid for provider 'kiro_cli'")
        end
      else throw (value_error "Provider mismatch for reused terminal")
  end.

Definition resolve_effective_working_directory (working_directory caller_id : option string) : TS (option string) :=
  match working_directory, caller_id with
  | None, Some caller =>
      except (resolved ← ask (get_working_directory caller);
              mret (match resolved with Some d => if decide (d = "") then None else Some d | None => None end))
        (λ r, if is_exception r then Some (mret None) else None)
  | _, _ => mret working_directory
  end%string.

(** ** The step *)

Record StepArgs := {
  sa_provider : string;
  sa_agent : string;
  sa_prompt : string;
  sa_session_name : option string;
  sa_reuse_terminal_id : option string;
  sa_teardown : bool;
  sa_timeout : Z;
  sa_ready_timeout : Z;
  sa_working_directory : option string;
  sa_caller_id : option string;
  sa_allowed_tools : option (list string);
  sa_env_vars : option (list (string * string));
  sa_on_step_terminal_ready : option (ready_callback E);
  sa_cancel_signal : option nat;
  sa_cancel_event : option nat;
  sa_engine : option engine_value;
  sa_model : option string;
  sa_use_worktree : option bool;
  sa_task_label : option string;
  sa_cell_request_class : string;
}.
Section Run.
Context (args : StepArgs).

Definition created_here : bool := bool_decide (sa_reuse_terminal_id args = None).
Definition fingerprint_of (working_directory : option string) : string := compute {|
  sc_provider := sa_provider args; sc_agent := sa_agent args; sc_prompt := sa_prompt args; sc_model := sa_model args;
  sc_engine := engine_text <$> sa_engine args; sc_allowed_tools := sa_allowed_tools args;
  sc_effective_working_directory := working_directory; sc_use_worktree := default false (sa_use_worktree args);
  sc_reused_terminal := negb created_here; sc_timeout := sa_timeout args |}.
Definition _notify_terminal_ready (call_fingerprint ready_terminal_id : string) : TS () :=
  match sa_on_step_terminal_ready args with
  | None => mret ()
  | Some callback => shrug (log (Notified ready_terminal_id call_fingerprint) ;; ask (callback ready_terminal_id call_fingerprint))
  end.
Definition truthy_label : option string :=
  match sa_task_label args with Some l => if decide (l = "")%string then None else Some l | None => None end.
Definition or_cwd (working_directory : option string) : TS string :=
  match working_directory with
  | Some d => if decide (d = "")%string then ask getcwd else mret d
  | None => ask getcwd
  end.

Definition create (working_directory : option string) : TS string :=
  cwd ← or_cwd working_directory;
  fork_context ← ask (seed_resume_bootstrap (sa_agent args) (sa_provider args) cwd);
  terminal_id ← ask (create_terminal {|
    ca_provider := sa_provider args; ca_agent := sa_agent args; ca_session_name := sa_session_name args;
    ca_new_session := bool_decide (sa_session_name args = None); ca_working_directory := working_directory;
    ca_allowed_tools := sa_allowed_tools args; ca_caller_id := sa_caller_id args; ca_env_vars := sa_env_vars args;
    ca_fork_context := fork_context; ca_engine := sa_engine args; ca_model := sa_model args;
    ca_use_worktree := sa_use_worktree args; ca_cell_request_class := sa_cell_request_class args |});
  log (Created terminal_id) ;; mret terminal_id.
(** Up to the [try]: the terminal the step will run on. *)
Definition prepare (fuel : nat) : TS string :=
  working_directory ← (if created_here then resolve_effective_working_directory (sa_working_directory args) (sa_caller_id args)
                       else mret (sa_working_directory args));
  let call_fingerprint := fingerprint_of working_directory in
  match sa_reuse_terminal_id args with
  | None =>
      terminal_id ← create working_directory;
      match truthy_label with
      | Some label => if decide (terminal_id = "")%string then mret ()
                      else log (Labelled terminal_id label) ;; ask (λ e, (upsert_label terminal_id label e, Answers ()))
      | None => mret ()
      end ;;
      _notify_terminal_ready call_fingerprint terminal_id ;;
      ready ← wait_until_status fuel terminal_id _READY_STATES (sa_ready_timeout args) poll_interval None false None;
      if (ready : bool) then mret terminal_id
      else throw (StepExecutionError ("terminal " +:+ terminal_id +:+ " did not reach a ready status within "
                    +:+ show_seconds (sa_ready_timeout args) +:+ "s") "timeout" (Some terminal_id))
  | Some terminal_id =>
      _validate_reused_terminal terminal_id (sa_provider args) (sa_engine args) ;;
      _notify_terminal_ready call_fingerprint terminal_id ;;
      mret terminal_id
  end.

(** [if cancel_signal.is_set(): cleanup = True; raise StepCancelledError], in its two
    uses: at a boundary, and while another exception is handled. *)
Definition stop_here (signal : option nat) (terminal_id : string) : TS () :=
  fired ← is_set signal;
  if (fired : bool) then set_cleanup ;; throw (StepCancelledError (Some terminal_id)) else mret ().

Definition send (signal : option nat) (terminal_id : string) (frozen_memory : option string) : TS () :=
  except (log (Sent terminal_id (sa_prompt args) frozen_memory) ;; ask (send_input terminal_id (sa_prompt args) frozen_memory))
    (λ r, match r with
          | Fault (TerminalInputBlockedError _) => Some (
              stop_here signal terminal_id ;;
              current ← see terminal_id;
              throw (StepExecutionError ("terminal " +:+ terminal_id +:+ " is waiting on a dialog (status="
                       +:+ show_status current +:+ "); input blocked") "input_blocked" (Some terminal_id)))
          | Fault (DeliveryDeferredError message) => Some (throw (StepExecutionError message "delivery_deferred" (Some terminal_id)))
          | _ => if is_exception r then Some (stop_here signal terminal_id ;; throw r) else None
          end).

Definition in_error (terminal_id : string) : raised :=
  StepExecutionError ("terminal " +:+ terminal_id +:+ " reached ERROR status") "error" (Some terminal_id).
Definition watch (fuel : nat) (signal : option nat) (terminal_id : string) : TS () :=
  input_gen ← ask (get_input_gen terminal_id);
  log (InputGen input_gen) ;;
  outcome ← except (_wait_for_completion fuel terminal_id input_gen (sa_timeout args) poll_interval signal None)
    (λ r, match r with StepCancelledError _ => Some (set_cleanup ;; throw r) | _ => None end);
  match outcome with
  | OUT_CANCELLED => set_cleanup ;; throw (StepCancelledError (Some terminal_id))
  | OUT_ERROR => throw (in_error terminal_id)
  | OUT_WAITING_USER => throw (StepExecutionError ("terminal " +:+ terminal_id +:+ " is waiting for user input")
                                 "waiting_user_input" (Some terminal_id))
  | OUT_TIMEOUT =>
      current ← see terminal_id;
      if decide (current = Some TS_ERROR) then throw (in_error terminal_id)
      else throw (StepExecutionError ("step on terminal " +:+ terminal_id +:+ " did not complete within "
                    +:+ show_seconds (sa_timeout args) +:+ "s") "timeout" (Some terminal_id))
  | OUT_COMPLETED | OUT_IDLE_DONE => mret ()
  end ;;
  final ← see terminal_id;
  if decide (final = Some TS_ERROR) then throw (in_error terminal_id) else stop_here signal terminal_id.

Definition extract (signal : option nat) (terminal_id : string) : TS string :=
  except (log (Reading terminal_id) ;; message ← ask (get_output_last terminal_id); set_extracted ;; mret message)
    (λ r, if is_exception r then Some (stop_here signal terminal_id ;; set_cleanup ;; throw r) else None).

Definition cleaning_up (terminal_id : string) : TS () :=
  extracted ← flag as_extracted;
  (if (extracted : bool) then set_cleanup else mret ()) ;;
  cleanup ← flag as_cleanup;
  (if cleanup && sa_teardown args && created_here then _teardown_terminal terminal_id else mret ()) ;;
  if bool_decide (is_Some truthy_label) && negb (bool_decide (terminal_id = ""%string)) && created_here
  then log (Unlabelled terminal_id) ;; ask (λ e, (remove_label terminal_id e, Answers ()))
  else mret ().

Definition run_id_of : option string :=
  match sa_env_vars args with
  | Some vars => snd <$> head (filter (λ kv, kv.1 = "CAO_WORKFLOW_RUN_ID"%string) vars)
  | None => None
  end.
Definition fresh_flags : TS () := λ s,
  ({| as_env := as_env s; as_acts := as_acts s; as_cleanup := false; as_extracted := false |}, Ok ()).

Definition attempt (fuel : nat) (signal : option nat) (terminal_id : string) (frozen_memory : option string) : TS AgentStepResult :=
  stop_here signal terminal_id ;;
  send signal terminal_id frozen_memory ;;
  stop_here signal terminal_id ;;
  watch fuel signal terminal_id ;;
  message ← extract signal terminal_id;
  set_cleanup ;;
  mret {| ar_terminal_id := terminal_id; ar_last_message := message; ar_status := TS_COMPLETED |}.

Definition run_agent_step (fuel : nat) : TS AgentStepResult :=
  terminal_id ← prepare fuel;
  signal ← _resolve_cancel_signal (sa_cancel_signal args) (sa_cancel_event args);
  fresh_flags ;;
  frozen_memory ← ask (frozen_memory_for run_id_of terminal_id (sa_prompt args));
  try_finally (attempt fuel signal terminal_id frozen_memory) (cleaning_up terminal_id).
End Run.
End AgentStep.
