(* ===== verification/AgentStepThms.v ===== *)
(** * What one agent step promises

    Whatever the terminal layer does and whoever cancels: a step sends its prompt at
    most once, returns only what was read after a turn begun by that prompt was over,
    and tears down exactly the terminals it should.  Where the clocks advance, it ends. *)

From S2P Require Import Prelude Fingerprint Screen AgentStep.

(** ** Following the acts

    The environment is forgotten: a call may answer or raise anything. *)

Definition trace : Type := list act * bool * bool.
Definition trace_of {E} (s : Step E) : trace := (as_acts s, as_cleanup s, as_extracted s).

Definition traced {E A} (m : T E A) (h : trace) (Q : A → trace → Prop) (R : raised → trace → Prop) : Prop :=
  ∀ s, trace_of s = h → match m s with
                        | (s', Ok a) => Q a (trace_of s')
                        | (s', Err r) => R r (trace_of s')
                        end.

Definition then_acts (h : trace) (l : list act) : trace := (h.1.1 ++ l, h.1.2, h.2).
Lemma then_then h l l' : then_acts (then_acts h l) l' = then_acts h (l ++ l').
Proof. unfold then_acts. simpl. by rewrite app_assoc. Qed.
Lemma then_nil h : then_acts h [] = h.
Proof. destruct h as [[]]. unfold then_acts. simpl. by rewrite app_nil_r. Qed.

Section Rules.
Context {E : Type}.
Implicit Types (h : trace) (R : raised → trace → Prop).

Lemma traced_ret {A} (a : A) h Q R : Q a h → traced (E:=E) (mret a) h Q R.
Proof. by intros H s <-. Qed.
Lemma traced_throw {A} r h (Q : A → trace → Prop) R : R r h → traced (E:=E) (throw r) h Q R.
Proof. by intros H s <-. Qed.
Lemma traced_bind {A B} (m : T E A) (f : A → T E B) h Q R :
  traced m h (λ a h', traced (f a) h' Q R) R → traced (m ≫= f) h Q R.
Proof.
  intros H s Hs. specialize (H s Hs). unfold mbind, T_bind. destruct (m s) as [s' [a|r]]; [by apply H|done].
Qed.
Lemma traced_ask {A} (f : E → E * answer A) h Q R :
  (∀ a, Q a h) → (∀ x, R (Fault x) h) → traced (ask f) h Q R.
Proof. intros HQ HR s <-. unfold ask. destruct (f (as_env s)) as [e [a|x]]; [apply HQ|apply HR]. Qed.
Lemma traced_act (f : E → E) h (Q : () → trace → Prop) R : Q () h → traced (ask (λ e, (f e, Answers ()))) h Q R.
Proof. by intros H s <-. Qed.
Lemma traced_log a h (Q : () → trace → Prop) R : Q () (then_acts h [a]) → traced (E:=E) (log a) h Q R.
Proof. by intros H s <-. Qed.
Lemma traced_cleanup h (Q : () → trace → Prop) R : Q () (h.1.1, true, h.2) → traced (E:=E) set_cleanup h Q R.
Proof. by intros H s <-. Qed.
Lemma traced_extracted h (Q : () → trace → Prop) R : Q () (h.1.1, h.1.2, true) → traced (E:=E) set_extracted h Q R.
Proof. by intros H s <-. Qed.
Lemma traced_fresh h (Q : () → trace → Prop) R : Q () (h.1.1, false, false) → traced (E:=E) fresh_flags h Q R.
Proof. by intros H s <-. Qed.
Lemma traced_flag_extracted h (Q : bool → trace → Prop) R : Q h.2 h → traced (E:=E) (flag as_extracted) h Q R.
Proof. by intros H s <-. Qed.
Lemma traced_flag_cleanup h (Q : bool → trace → Prop) R : Q h.1.2 h → traced (E:=E) (flag as_cleanup) h Q R.
Proof. by intros H s <-. Qed.
Lemma traced_except {A} (m : T E A) k h Q R :
  traced m h Q (λ r h', match k r with Some m' => traced m' h' Q R | None => R r h' end) → traced (except m k) h Q R.
Proof.
  intros H s Hs. specialize (H s Hs). unfold except. destruct (m s) as [s' [a|r]]; [done|].
  destruct (k r) as [m'|]; [exact (H s' eq_refl)|exact H].
Qed.
Lemma traced_finally {A} (m : T E A) f h Q R :
  traced m h (λ a h', traced f h' (λ _, Q a) R) (λ r h', traced f h' (λ _, R r) R) → traced (try_finally m f) h Q R.
Proof.
  intros H s Hs. specialize (H s Hs). unfold try_finally. destruct (m s) as [s' [a|r]].
  all: specialize (H s' eq_refl); by destruct (f s') as [s'' []].
Qed.
Lemma traced_mono {A} (m : T E A) h (Q Q' : A → trace → Prop) R R' :
  traced m h Q R → (∀ a h', Q a h' → Q' a h') → (∀ r h', R r h' → R' r h') → traced m h Q' R'.
Proof. intros H HQ HR s Hs. specialize (H s Hs). destruct (m s) as [s' []]; auto. Qed.
(** A try that shrugs: what happened before the fault stays. *)
Lemma traced_shrug m h (Q : () → trace → Prop) R :
  traced (E:=E) m h Q (λ r h', if is_exception r then Q () h' else R r h') → traced (shrug m) h Q R.
Proof.
  intros H. apply traced_except. eapply traced_mono; [exact H|done|]. intros r h'. cbn beta.
  destruct (is_exception r); [apply traced_ret|done].
Qed.
End Rules.

Section Reads.
Context {E F : Type} `{!TerminalLayer E F}.
Lemma traced_now h Q (R : raised → trace → Prop) : (∀ t, Q t h) → traced (E:=E) now h Q R.
Proof. intros H s <-. apply H. Qed.
Lemma traced_monotonic h Q (R : raised → trace → Prop) : (∀ t, Q t h) → traced (E:=E) monotonic h Q R.
Proof. intros H s <-. apply H. Qed.
Lemma traced_is_set signal h Q (R : raised → trace → Prop) :
  (∀ b, (b = true → is_Some signal) → Q b h) → traced (E:=E) (is_set signal) h Q R.
Proof. intros H s <-. apply H. by destruct signal. Qed.
End Reads.

(** ** Statements that only add acts of one kind *)

(** [h'] is [h] and then acts of [P]; the flags are as they were. *)
Definition only (P : act → Prop) (h h' : trace) : Prop := ∃ l, Forall P l ∧ h' = then_acts h l.
(** Raised by somebody else. *)
Definition foreign (r : raised) : Prop := match r with Fault _ | StillWaiting => True | _ => False end.
Definition adds {E A} (P : act → Prop) (m : T E A) : Prop :=
  ∀ h, traced m h (λ _ h', only P h h') (λ r h', only P h h' ∧ foreign r).

#[export] Instance only_preorder P : PreOrder (only P).
Proof.
  split.
  - intros h. exists []. by rewrite then_nil.
  - intros h1 h2 h3 (l1 & H1 & ->) (l2 & H2 & ->). exists (l1 ++ l2). split; [by apply Forall_app|]. by rewrite then_then.
Qed.
Lemma only_mono (P P' : act → Prop) h h' : (∀ a, P a → P' a) → only P h h' → only P' h h'.
Proof. intros HP (l & Hl & ->). exists l. split; [by eapply Forall_impl|done]. Qed.

Section Adds.
Context {E : Type} (P : act → Prop).

Lemma adds_ret {A} (a : A) : adds (E:=E) P (mret a).
Proof. intros h. apply traced_ret. (cbn beta; reflexivity). Qed.
Lemma adds_throw {A} r : foreign r → adds (E:=E) (A:=A) P (throw r).
Proof. intros Hr h. apply traced_throw. split; [(cbn beta; reflexivity)|done]. Qed.
Lemma adds_bind {A B} (m : T E A) (f : A → T E B) : adds P m → (∀ a, adds P (f a)) → adds P (m ≫= f).
Proof.
  intros Hm Hf h. apply traced_bind. eapply traced_mono; [apply Hm| |].
  - intros a h' Ho. eapply traced_mono; [apply Hf| |]; cbn beta.
    + intros b h'' Ho'. by apply (transitivity (y:=h')).
    + intros r h'' [Ho' Hr]. split; [by apply (transitivity (y:=h'))|done].
  - done.
Qed.
Lemma adds_ask {A} (f : E → E * answer A) : adds P (ask f).
Proof. intros h. apply traced_ask; [intros; (cbn beta; reflexivity)|intros; split; [(cbn beta; reflexivity)|done]]. Qed.
Lemma adds_log a : P a → adds (E:=E) P (log a).
Proof. intros Ha h. apply traced_log. exists [a]. split; [by repeat constructor|done]. Qed.
Lemma adds_shrug m : adds (E:=E) P m → adds P (shrug m).
Proof.
  intros Hm h. apply traced_shrug. eapply traced_mono; [apply Hm|done|]. intros r h' [Ho Hr]. by destruct (is_exception r).
Qed.
Lemma adds_caught {A} (m m' : T E A) (f : raised → bool) :
  adds P m → adds P m' → adds P (except m (λ r, if f r then Some m' else None)).
Proof.
  intros Hm Hm' h. apply traced_except. eapply traced_mono; [apply Hm|done|]. intros r h' [Ho Hr]. destruct (f r); [|done].
  eapply traced_mono; [apply Hm'| |]; cbn beta.
  - intros a h'' Ho'. by apply (transitivity (y:=h')).
  - intros r' h'' [Ho' Hr']. split; [by apply (transitivity (y:=h'))|done].
Qed.
Lemma adds_at {A} (m : T E A) h Q R : adds P m →
  (∀ a h', only P h h' → Q a h') → (∀ r h', foreign r → only P h h' → R r h') → traced m h Q R.
Proof. intros Hm HQ HR. eapply traced_mono; [apply Hm|by auto|]. intros r h' []. auto. Qed.
End Adds.
#[export] Hint Resolve adds_ret adds_ask : adds.

Ltac adds_step := first
  [ apply adds_bind; [|intros ?] | apply adds_ret | apply adds_ask | apply adds_log; done | apply adds_shrug
  | apply adds_throw; done | apply adds_caught
  | match goal with
    | |- adds _ (if ?b then _ else _) => destruct b
    | |- adds _ (match ?x with _ => _ end) => destruct x
    | |- adds _ (let _ := _ in _) => cbv zeta
    end ].
Ltac adds_steps := repeat adds_step.

(** ** The loops *)

Definition observed (a : act) : Prop :=
  match a with Saw _ | Gated _ | StatusGen _ | InputGen _ | BlockedBy _ => True | _ => False end.
(** What may happen before the prompt is sent. *)
Definition setting_up (a : act) : Prop :=
  match a with Sent _ _ _ | Reading _ | ExitAsked _ | DeleteAsked _ | Unlabelled _ => False | _ => True end.
Lemma observed_setting_up a : observed a → setting_up a.
Proof. by destruct a. Qed.

(** The last readings [l] of a turn begun at generation [g], as an outcome sees them. *)
Definition fresh (g : Z) (gen : option Z) : Prop := match gen with Some n => g ≤ n | None => True end.
Definition decides (g : Z) (o : _CompletionOutcome) (l : list act) : Prop :=
  match o with
  | OUT_COMPLETED => ∃ gen, l = [Saw (Some TS_COMPLETED); StatusGen gen] ∧ fresh g gen
  | OUT_IDLE_DONE => ∃ n, l = [Saw (Some TS_IDLE); StatusGen (Some n)] ∧ g ≤ n
  | OUT_ERROR => l = [Saw (Some TS_ERROR)]
  | OUT_WAITING_USER => l = [Saw (Some TS_WAITING_USER_ANSWER); Gated true]
  | OUT_TIMEOUT => l = []
  | OUT_CANCELLED => False
  end.
Definition unfinished (l : list act) : Prop := Forall observed l ∧ Saw (Some TS_ERROR) ∉ l.
Lemma only_then P h l : Forall P l → only P h (then_acts h l).
Proof. by exists l. Qed.

Section Loops.
Context {E F : Type} `{!TerminalLayer E F}.

Lemma wait_loop_adds fuel t targets timeout interval min_gen raw policy w :
  adds (E:=E) observed (wait_loop fuel t targets timeout interval min_gen raw policy w).
Proof.
  revert w. induction fuel as [|fuel IH]; intros w; cbn [wait_loop]; [by apply adds_throw|].
  unfold notify_blocked. repeat (first [adds_step | apply IH | intros h; by apply traced_monotonic]).
Qed.
Lemma wait_until_status_adds fuel t targets timeout interval min_gen raw policy :
  adds (E:=E) observed (wait_until_status fuel t targets timeout interval min_gen raw policy).
Proof. apply adds_bind; [|intros; apply wait_loop_adds]. intros h. by apply traced_monotonic. Qed.

Lemma traced_see t h Q (R : raised → trace → Prop) :
  (∀ o, Q o (then_acts h [Saw o])) → (∀ x, R (Fault x) h) → traced (E:=E) (see t) h Q R.
Proof. intros HQ HR. apply traced_bind, traced_ask; [|done]. intros o. apply traced_bind, traced_log, traced_ret, HQ. Qed.
Lemma traced_see_gen t h Q (R : raised → trace → Prop) :
  (∀ o, Q o (then_acts h [StatusGen o])) → (∀ x, R (Fault x) h) → traced (E:=E) (see_gen t) h Q R.
Proof. intros HQ HR. apply traced_bind, traced_ask; [|done]. intros o. apply traced_bind, traced_log, traced_ret, HQ. Qed.

Lemma poll_spec t g h : traced (E:=E) (completion_poll t g) h
  (λ d h', ∃ l, h' = then_acts h l ∧ match d with Some o => o ≠ OUT_TIMEOUT ∧ decides g o l | None => unfinished l end)
  (λ r h', foreign r ∧ ∃ l, h' = then_acts h l ∧ Forall observed l).
Proof.
  apply traced_bind, traced_see.
  2: { intros x. split; [done|]. exists []. by rewrite then_nil. }
  intros o.
  assert (Hplain : ∀ l, Saw (Some TS_ERROR) ∉ l → Forall observed l → o ≠ Some TS_ERROR → unfinished ([Saw o] ++ l)).
  { intros l Hl Hf Ho. split; [by apply Forall_app; split; [repeat constructor|]|]. rewrite elem_of_app, list_elem_of_singleton.
    intros [[=]|?]; congruence. }
  assert (Hgen : ∀ k, (∀ gen, match k gen with
      | Some d => d ≠ OUT_TIMEOUT ∧ decides g d [Saw o; StatusGen gen] | None => o ≠ Some TS_ERROR end) →
    traced (E:=E) (gen ← see_gen t; mret (k gen)) (then_acts h [Saw o])
      (λ d h', ∃ l, h' = then_acts h l ∧ match d with Some o => o ≠ OUT_TIMEOUT ∧ decides g o l | None => unfinished l end)
      (λ r h', foreign r ∧ ∃ l, h' = then_acts h l ∧ Forall observed l)).
  { intros k Hk. apply traced_bind, traced_see_gen.
    - intros gen. apply traced_ret. rewrite then_then. exists [Saw o; StatusGen gen]. split; [done|]. specialize (Hk gen).
      destruct (k gen); [done|]. apply (Hplain [_]); [|by repeat constructor|done]. by rewrite list_elem_of_singleton.
    - intros x. split; [done|]. exists [Saw o]. split; [done|by repeat constructor]. }
  assert (Hnone : o ≠ Some TS_ERROR → traced (E:=E) (mret None) (then_acts h [Saw o])
      (λ d h', ∃ l, h' = then_acts h l ∧ match d with Some o => o ≠ OUT_TIMEOUT ∧ decides g o l | None => unfinished l end)
      (λ r h', foreign r ∧ ∃ l, h' = then_acts h l ∧ Forall observed l)).
  { intros Ho. apply traced_ret. exists ([Saw o] ++ []). split; [done|]. apply Hplain; [set_solver|done|done]. }
  destruct o as [[]|]; try (by apply Hnone).
  - apply Hgen. intros [n|]; [destruct (Z.leb_spec g n)|]; [|done..]. split; [done|]. by exists n.
  - apply Hgen. intros [n|]; [destruct (Z.leb_spec g n)|]; [|done|]; (split; [done|]); eexists; (split; [done|]); done.
  - apply traced_bind, traced_ask.
    + intros waits. apply traced_bind, traced_log, traced_ret. exists [Saw (Some TS_WAITING_USER_ANSWER); Gated waits].
      split; [by rewrite then_then|]. destruct waits; [done|]. apply (Hplain [_]); [|by repeat constructor|done].
      by rewrite list_elem_of_singleton.
    + intros x. split; [done|]. exists [Saw (Some TS_WAITING_USER_ANSWER)]. split; [done|by repeat constructor].
  - apply traced_ret. by exists [Saw (Some TS_ERROR)].
Qed.

(** How a wait for the end of a turn may end. *)
Definition turn_ended (g : Z) (o : _CompletionOutcome) (l : list act) : Prop :=
  ∃ l0 l1, l = l0 ++ l1 ∧ unfinished l0 ∧ decides g o l1.
Definition wait_broken (signal : option nat) (t : string) (r : raised) (l : list act) : Prop :=
  Forall observed l ∧ (foreign r ∨ r = StepCancelledError (Some t) ∧ is_Some signal).

Lemma traced_cancelled_by signal t h (Q : () → trace → Prop) R :
  Q () h → (is_Some signal → R (StepCancelledError (Some t)) h) → traced (E:=E) (cancelled_by signal t) h Q R.
Proof.
  intros HQ HR. apply traced_bind, traced_is_set. intros [] Hs; [apply traced_throw, HR, Hs; done|by apply traced_ret].
Qed.
Lemma traced_pause signal t interval h (Q : () → trace → Prop) R :
  Q () h → (is_Some signal → R (StepCancelledError (Some t)) h) → (∀ x, R (Fault x) h) →
  traced (E:=E) (pause signal t interval) h Q R.
Proof.
  intros HQ HR HF. unfold pause. destruct signal as [i|].
  - apply traced_bind, traced_ask; [|done]. intros []; [apply traced_throw; eauto|by apply traced_ret].
  - apply traced_ask; [|done]. by intros [].
Qed.

Lemma decides_observed g o l : decides g o l → Forall observed l.
Proof. destruct o; simpl; try naive_solver; intros H; decompose [ex and] H; subst; repeat constructor. Qed.
Lemma unfinished_app l l' : unfinished l → unfinished l' → unfinished (l ++ l').
Proof. intros [H1 H2] [H3 H4]. split; [by apply Forall_app|]. rewrite elem_of_app. tauto. Qed.

Lemma completion_loop_spec fuel t g timeout interval signal start h l0 : unfinished l0 →
  traced (E:=E) (completion_loop fuel t g timeout interval signal start) (then_acts h l0)
    (λ o h', ∃ l, h' = then_acts h l ∧ turn_ended g o l)
    (λ r h', ∃ l, h' = then_acts h l ∧ wait_broken signal t r l).
Proof.
  revert l0. induction fuel as [|fuel IH]; intros l0 H0; cbn [completion_loop].
  { apply traced_throw. exists l0. split; [done|]. split; [apply H0|by left]. }
  apply traced_bind, traced_now. intros now. destruct (now - start <? timeout).
  - apply traced_bind, traced_cancelled_by; cycle 1.
    { intros Hs. exists l0. split; [done|]. split; [apply H0|by right]. }
    apply traced_bind. eapply traced_mono; [apply poll_spec| |]; cbn beta.
    + intros d h' (l & -> & Hd). rewrite then_then. destruct d as [o|].
      * apply traced_ret. exists (l0 ++ l). split; [done|]. exists l0, l. by split_and!; [| |apply Hd].
      * assert (unfinished (l0 ++ l)) as H1 by by apply unfinished_app.
        apply traced_bind, traced_pause; [by apply IH| |]; intros; exists (l0 ++ l); (split; [done|]); (split; [apply H1|]).
        -- by right.
        -- by left.
    + intros r h' (Hr & l & -> & Hl). rewrite then_then. exists (l0 ++ l). split; [done|].
      split; [apply Forall_app; split; [apply H0|done]|by left].
  - apply traced_bind, traced_cancelled_by.
    + apply traced_ret. exists l0. split; [done|]. exists l0, []. by rewrite app_nil_r.
    + intros Hs. exists l0. split; [done|]. split; [apply H0|by right].
Qed.
Lemma wait_for_completion_spec fuel t g timeout interval signal h :
  traced (E:=E) (_wait_for_completion fuel t g timeout interval signal None) h
    (λ o h', ∃ l, h' = then_acts h l ∧ turn_ended g o l)
    (λ r h', ∃ l, h' = then_acts h l ∧ wait_broken signal t r l).
Proof.
  unfold _wait_for_completion. apply traced_bind. destruct signal; apply traced_ret.
  all: apply traced_bind, traced_now; intros start; rewrite <-(then_nil h) at 1; apply completion_loop_spec;
    (split; [done|]); apply not_elem_of_nil.
Qed.
End Loops.

(** ** The [try] of the step *)

(** The turn that was begun at generation [g] is over, and no error was seen on the way. *)
Definition settled (g : Z) (l : list act) : Prop := turn_ended g OUT_COMPLETED l ∨ turn_ended g OUT_IDLE_DONE l.
(** What is raised, whether it was while reading the output, and the flag [cleanup] then. *)
Definition broke (t : string) (r : raised) (reading cleanup : bool) : Prop :=
  match r with
  | StepCancelledError tid => tid = Some t ∧ cleanup = true
  | StepExecutionError _ _ tid => tid = Some t ∧ reading = false ∧ cleanup = false
  | Fault TaskCancelled | StillWaiting => cleanup = false
  | Fault _ => cleanup = reading
  end.
Definition from (h : trace) (l : list act) (cleanup : bool) : trace := (h.1.1 ++ l, cleanup, h.2).
Lemma then_from h l l' c : then_acts (from h l c) l' = from h (l ++ l') c.
Proof. unfold then_acts, from. simpl. by rewrite app_assoc. Qed.
Lemma from_then h l l' c : from (then_acts h l) l' c = from h (l ++ l') c.
Proof. unfold then_acts, from. simpl. by rewrite app_assoc. Qed.
Lemma from_flag h l : h.1.2 = false → then_acts h l = from h l false.
Proof. destruct h as [[] ]. simpl. by intros ->. Qed.

Section Attempt.
Context {E F : Type} `{!TerminalLayer E F} (show_seconds : Z → string) (show_status : option TerminalStatus → string).
Context (args : StepArgs (E:=E)) (t : string).
Local Notation prompt := (sa_prompt args).

Lemma traced_stop signal h (Q : () → trace → Prop) R :
  Q () h → (is_Some signal → R (StepCancelledError (Some t)) (h.1.1, true, h.2)) → traced (E:=E) (stop_here signal t) h Q R.
Proof.
  intros HQ HR. apply traced_bind, traced_is_set. intros [] Hs; [|by apply traced_ret].
  apply traced_bind, traced_cleanup, traced_throw, HR, Hs. done.
Qed.

Lemma send_spec signal mem h : h.1.2 = false →
  traced (send show_status args signal t mem) h
    (λ _ h', h' = then_acts h [Sent t prompt mem])
    (λ r h', ∃ l c, h' = from h (Sent t prompt mem :: l) c ∧ Forall observed l ∧ broke t r false c).
Proof.
  intros Hc. assert (∀ b r, broke t r false b → ∃ l c, from h [Sent t prompt mem] b = from h (Sent t prompt mem :: l) c
    ∧ Forall observed l ∧ broke t r false c) as Hend by by (intros b; exists [], b).
  apply traced_except. apply traced_bind, traced_log, traced_ask; [done|]. rewrite (from_flag _ _ Hc).
  intros [m|m|e|]; cbn [is_exception].
  - apply traced_bind, traced_stop; [|by intros; apply Hend].
    apply traced_bind, traced_see.
    + intros o. apply traced_throw. rewrite then_from. exists [Saw o], false. split_and!; [done|by repeat constructor|done..].
    + intros x. apply Hend. by destruct x.
  - apply traced_throw. by apply Hend.
  - apply traced_bind, traced_stop; [|by intros; apply Hend]. apply traced_throw. by apply Hend.
  - by apply Hend.
Qed.

Lemma watch_spec fuel signal h : h.1.2 = false →
  traced (watch show_seconds args fuel signal t) h
    (λ _ h', ∃ g w final, h' = then_acts h (InputGen g :: w ++ [Saw final]) ∧ settled g w ∧ final ≠ Some TS_ERROR)
    (λ r h', ∃ l c, h' = from h l c ∧ Forall observed l ∧ broke t r false c).
Proof.
  intros Hc. apply traced_bind, traced_ask.
  2: { intros x. exists [], false. rewrite <-from_flag, then_nil by done. split_and!; [done..|]. by destruct x. }
  intros g. apply traced_bind, traced_log, traced_bind, traced_except.
  assert (∀ l c, Forall observed l → ∀ r, broke t r false c →
    ∃ l' c', from h ([InputGen g] ++ l) c = from h l' c' ∧ Forall observed l' ∧ broke t r false c') as Hend.
  { intros l c Hl r Hr. exists ([InputGen g] ++ l), c. split_and!; [done|by constructor|done]. }
  eapply traced_mono; [apply wait_for_completion_spec| |]; cbn beta.
  2: { intros r h' (l & -> & Hl & Hr). rewrite then_then. destruct Hr as [Hr|[-> Hs]].
    - destruct r; try done; rewrite from_flag by done; apply Hend; [done|by destruct f|done|done].
    - apply traced_bind, traced_cleanup, traced_throw. change (_, true, _) with (from h ([InputGen g] ++ l) true). by apply Hend. }
  intros o h' (l & -> & Hl). rewrite then_then.
  assert (Forall observed l) as Hobs.
  { destruct Hl as (l0 & l1 & -> & [] & ?). apply Forall_app. split; [done|by eapply decides_observed]. }
  assert (Hfin : settled g l → traced (E:=E) (final ← see t;
      if decide (final = Some TS_ERROR) then throw (in_error t) else stop_here signal t) (then_acts h ([InputGen g] ++ l))
    (λ _ h', ∃ g w final, h' = then_acts h (InputGen g :: w ++ [Saw final]) ∧ settled g w ∧ final ≠ Some TS_ERROR)
    (λ r h', ∃ l c, h' = from h l c ∧ Forall observed l ∧ broke t r false c)).
  { intros Hs. apply traced_bind, traced_see.
    - intros final. rewrite then_then, <-app_assoc.
      assert (Forall observed (l ++ [Saw final])) by (apply Forall_app; by repeat constructor).
      case_decide as Hf.
      + apply traced_throw. rewrite from_flag by done. by apply Hend.
      + apply traced_stop; [by exists g, l, final|]. intros _.
        change (_, true, _) with (from h ([InputGen g] ++ l ++ [Saw final]) true). by apply Hend.
    - intros x. rewrite from_flag by done. apply Hend; [done|by destruct x]. }
  destruct o; try (apply traced_bind, traced_throw; rewrite from_flag by done; by apply Hend).
  - apply traced_bind, traced_ret, Hfin. by left.
  - apply traced_bind, traced_ret, Hfin. by right.
  - apply traced_bind, traced_bind, traced_see; [|by intros x; rewrite from_flag by done; apply Hend; [|destruct x]].
    intros o. rewrite then_then, <-app_assoc, from_flag by done.
    assert (Forall observed (l ++ [Saw o])) by (apply Forall_app; by repeat constructor).
    case_decide; apply traced_throw; by apply Hend.
  - apply traced_bind, traced_bind, traced_cleanup, traced_throw.
    change (_, true, _) with (from h ([InputGen g] ++ l) true). by apply Hend.
Qed.

Lemma extract_spec signal h : h.1.2 = false →
  traced (E:=E) (extract signal t) h
    (λ _ h', h' = (h.1.1 ++ [Reading t], false, true))
    (λ r h', ∃ c, h' = from h [Reading t] c ∧ broke t r true c).
Proof.
  intros Hc. apply traced_except, traced_bind, traced_log, traced_bind, traced_ask.
  - intros m. apply traced_bind, traced_extracted, traced_ret. unfold then_acts. simpl. by rewrite Hc.
  - rewrite from_flag by done. intros x. destruct (is_exception (Fault x)) eqn:Hx.
    + apply traced_bind, traced_stop.
      * apply traced_bind, traced_cleanup, traced_throw. exists true. by destruct x.
      * intros _. by exists true.
    + exists false. by destruct x.
Qed.

(** What the [try] does after [h], for each way it ends. *)
Definition succeeded (res : AgentStepResult) (l : list act) : Prop :=
  ar_terminal_id res = t ∧ ar_status res = TS_COMPLETED ∧
  ∃ mem g w final, l = Sent t prompt mem :: InputGen g :: w ++ [Saw final; Reading t] ∧ settled g w ∧ final ≠ Some TS_ERROR.
Definition failed (r : raised) (l : list act) (c : bool) : Prop :=
  (l = [] ∧ broke t r false c) ∨
  ∃ mem seen reading, l = Sent t prompt mem :: seen ++ (if reading : bool then [Reading t] else [])
    ∧ Forall observed seen ∧ broke t r reading c.

Lemma settled_observed g w : settled g w → Forall observed w.
Proof.
  intros [(l0 & l1 & -> & [] & ?)|(l0 & l1 & -> & [] & ?)]; apply Forall_app; (split; [done|]); by eapply decides_observed.
Qed.
Lemma attempt_spec fuel signal mem h : h.1.2 = false → h.2 = false →
  traced (attempt show_seconds show_status args fuel signal t mem) h
    (λ res h', ∃ l, h' = (h.1.1 ++ l, true, true) ∧ succeeded res l)
    (λ r h', ∃ l c, h' = from h l c ∧ failed r l c).
Proof.
  intros Hc Hx. apply traced_bind, traced_stop.
  2: { intros _. exists [], true. rewrite <-(app_nil_r h.1.1). split; [done|by left]. }
  apply traced_bind. eapply traced_mono; [by apply send_spec| |]; cbn beta.
  2: { intros r h' (l & c & -> & Hl & Hr). exists (Sent t prompt mem :: l), c. split; [done|]. right.
       exists mem, l, false. by rewrite app_nil_r. }
  intros _ h' ->. apply traced_bind, traced_stop.
  2: { intros _. exists [Sent t prompt mem], true. split; [done|]. right. by exists mem, [], false. }
  apply traced_bind. eapply traced_mono; [by apply watch_spec| |]; cbn beta.
  2: { intros r h' (l & c & -> & Hl & Hr). rewrite from_then. exists (Sent t prompt mem :: l), c. split; [done|]. right.
       exists mem, l, false. by rewrite app_nil_r. }
  intros _ h' (g & w & final & -> & Hs & Hf). rewrite then_then. apply traced_bind.
  assert (Forall observed (InputGen g :: w ++ [Saw final])) as Hobs.
  { constructor; [done|]. apply Forall_app. split; [by eapply settled_observed|by repeat constructor]. }
  eapply traced_mono; [by apply extract_spec| |]; cbn beta.
  - intros m h' ->. apply traced_bind, traced_cleanup, traced_ret. simpl. eexists. rewrite <-app_assoc. split; [done|].
    split_and!; [done..|]. exists mem, g, w, final. split_and!; [|done..]. by rewrite <-!app_comm_cons, <-app_assoc.
  - intros r h' (c & -> & Hr). rewrite from_then. eexists _, c. split; [done|]. right.
    by exists mem, (InputGen g :: w ++ [Saw final]), true.
Qed.

(** ** The [finally] *)

Definition torn (c : bool) : list act := if c && sa_teardown args && created_here args then [ExitAsked t; DeleteAsked t] else [].
Definition label_gone (l : list act) : Prop := l = [] ∨ l = [Unlabelled t] ∧ created_here args = true.
(** [post] cleans up after a [try] that ended with the flag [c]; [broken] when the task
    is cancelled in the middle of it. *)
Definition cleaned (c : bool) (post : list act) : Prop := ∃ l, post = torn c ++ l ∧ label_gone l.
Definition half_cleaned (c : bool) (post : list act) : Prop := torn c ≠ [] ∧ (post = [ExitAsked t] ∨ post = torn c).

Lemma traced_act_shrug a (f : E → E * answer ()) h (Q : () → trace → Prop) (R : raised → trace → Prop) :
  Q () (then_acts h [a]) → R (Fault TaskCancelled) (then_acts h [a]) → traced (shrug (log a ;; ask f)) h Q R.
Proof.
  intros HQ HR. apply traced_shrug, traced_bind, traced_log, traced_ask; [by intros []|]. by intros [].
Qed.
Lemma cleaning_spec l c x :
  traced (cleaning_up args t) (l, c, x)
    (λ _ h', ∃ post, h' = (l ++ post, orb x c, x) ∧ cleaned (orb x c) post)
    (λ r h', ∃ post, h' = (l ++ post, orb x c, x) ∧ r = Fault TaskCancelled ∧ half_cleaned (orb x c) post).
Proof.
  apply traced_bind, traced_flag_extracted. simpl. apply traced_bind.
  assert (Hgo : ∀ b, traced (cleanup ← flag as_cleanup;
      (if cleanup && sa_teardown args && created_here args then _teardown_terminal t else mret ()) ;;
      if bool_decide (is_Some (truthy_label args)) && negb (bool_decide (t = ""%string)) && created_here args
      then log (Unlabelled t) ;; ask (λ e, (remove_label t e, Answers ())) else mret ()) (l, b, x)
    (λ _ h', ∃ post, h' = (l ++ post, b, x) ∧ cleaned b post)
    (λ r h', ∃ post, h' = (l ++ post, b, x) ∧ r = Fault TaskCancelled ∧ half_cleaned b post)).
  { intros b. apply traced_bind, traced_flag_cleanup. simpl. apply traced_bind.
    assert (Hlabel : traced (if bool_decide (is_Some (truthy_label args)) && negb (bool_decide (t = ""%string)) && created_here args
        then log (Unlabelled t) ;; ask (λ e, (remove_label t e, Answers ())) else mret ()) (l ++ torn b, b, x)
      (λ _ h', ∃ post, h' = (l ++ post, b, x) ∧ cleaned b post)
      (λ r h', ∃ post, h' = (l ++ post, b, x) ∧ r = Fault TaskCancelled ∧ half_cleaned b post)).
    { destruct (_ && created_here args) eqn:Hb.
      - apply andb_true_iff in Hb as [_ Hb]. apply traced_bind, traced_log, traced_act. exists (torn b ++ [Unlabelled t]).
        unfold then_acts. simpl. rewrite app_assoc. split; [done|]. exists [Unlabelled t]. split; [done|]. by right.
      - apply traced_ret. exists (torn b). split; [done|]. exists []. rewrite app_nil_r. split; [done|by left]. }
    assert (b && sa_teardown args && created_here args = true → torn b = [ExitAsked t; DeleteAsked t]) as Ht
      by (unfold torn; by intros ->).
    destruct (b && sa_teardown args && created_here args) eqn:Hb.
    - specialize (Ht eq_refl). rewrite Ht in Hlabel. apply traced_bind, traced_act_shrug.
      + apply traced_act_shrug; rewrite then_then; unfold then_acts; simpl; [exact Hlabel|].
        exists (torn b). rewrite Ht. split_and!; [done..|]. split; [by rewrite Ht|]. rewrite Ht. by right.
      + exists [ExitAsked t]. split_and!; [done..|]. split; [by rewrite Ht|by left].
    - apply traced_ret. assert (torn b = []) as Ht' by (unfold torn; by rewrite Hb). by rewrite Ht', app_nil_r in Hlabel. }
  destruct x; [apply traced_cleanup, Hgo|apply traced_ret, Hgo].
Qed.
End Attempt.

(** ** Before the [try] *)

Section Run.
Context {E F : Type} `{!TerminalLayer E F} (show_seconds : Z → string) (show_status : option TerminalStatus → string).
Context (args : StepArgs (E:=E)).

(** The terminal [t] is the step's: reused, or made by it. *)
Definition of_step (t : string) (l : list act) : Prop := sa_reuse_terminal_id args = Some t ∨ (created_here args = true ∧ Created t ∈ l).
Definition announced (t : string) (l : list act) : Prop :=
  is_Some (sa_on_step_terminal_ready args) → ∃ fp, Notified t fp ∈ l.
(** Acts of [P] alone, on the terminal [t] if on one. *)
Definition about (t : string) (a : act) : Prop :=
  match a with
  | Created t' => t' = t ∧ created_here args = true
  | Labelled t' _ | Notified t' _ => t' = t
  | _ => observed a
  end.
Lemma about_setting_up t a : about t a → setting_up a.
Proof. by destruct a. Qed.

Definition unready (r : raised) (l : list act) : Prop :=
  foreign r ∨ ∃ m t, r = StepExecutionError m "timeout" (Some t) ∧ created_here args = true ∧ Created t ∈ l.

Lemma lift_exn_adds {A} P (o : outcome A) : adds (E:=E) P (lift_exn o).
Proof. destruct o; simpl; adds_steps. Qed.
Lemma validate_adds P t provider engine : adds (E:=E) P (_validate_reused_terminal t provider engine).
Proof. unfold _validate_reused_terminal, value_error. repeat (first [apply lift_exn_adds | adds_step]). Qed.
Lemma resolve_directory_adds P d c : adds (E:=E) P (resolve_effective_working_directory d c).
Proof. unfold resolve_effective_working_directory. adds_steps. Qed.

Lemma notify_spec fp t h Q (R : raised → trace → Prop) :
  (∀ l, Forall (about t) l → announced t l → Q () (then_acts h l)) →
  (∀ r l, foreign r → Forall (about t) l → R r (then_acts h l)) →
  traced (E:=E) (_notify_terminal_ready args fp t) h Q R.
Proof.
  intros HQ HR. unfold _notify_terminal_ready, announced in *. destruct (sa_on_step_terminal_ready args).
  - apply traced_act_shrug; [apply HQ|apply HR]; try (by repeat constructor). intros _. exists fp. by left.
  - apply traced_ret. rewrite <-(then_nil h). apply HQ; [constructor|]. by intros [].
Qed.

Lemma create_spec d h Q (R : raised → trace → Prop) :
  (∀ t, Q t (then_acts h [Created t])) → (∀ r, foreign r → R r h) → traced (E:=E) (create args d) h Q R.
Proof.
  intros HQ HR. apply traced_bind. unfold or_cwd.
  assert (∀ s : string, traced (E:=E) (fork ← ask (seed_resume_bootstrap (sa_agent args) (sa_provider args) s);
    t ← ask (create_terminal {| ca_provider := sa_provider args; ca_agent := sa_agent args; ca_session_name := sa_session_name args;
      ca_new_session := bool_decide (sa_session_name args = None); ca_working_directory := d;
      ca_allowed_tools := sa_allowed_tools args; ca_caller_id := sa_caller_id args; ca_env_vars := sa_env_vars args;
      ca_fork_context := fork; ca_engine := sa_engine args; ca_model := sa_model args;
      ca_use_worktree := sa_use_worktree args; ca_cell_request_class := sa_cell_request_class args |});
    log (Created t) ;; mret t) h Q R) as Hgo.
  { intros s. apply traced_bind, traced_ask; [|by intros; apply HR]. intros fork. apply traced_bind, traced_ask; [|by intros; apply HR].
    intros t. apply traced_bind, traced_log, traced_ret, HQ. }
  destruct d as [s|]; [case_decide; [|by apply traced_ret]|]; (apply traced_ask; [done|by intros; apply HR]).
Qed.

Definition prepared (h : trace) (t : string) (h' : trace) : Prop :=
  ∃ l, h' = then_acts h l ∧ Forall (about t) l ∧ of_step t l ∧ announced t l.
Definition unprepared (h : trace) (r : raised) (h' : trace) : Prop :=
  ∃ l, h' = then_acts h l ∧ Forall setting_up l ∧ unready r l.
Lemma unprepared_at h r l : unready r l → Forall setting_up l → unprepared h r (then_acts h l).
Proof. by exists l. Qed.

(** A new terminal is announced and awaited. *)
Lemma readiness_spec fuel fp t h l : Forall (about t) l → Created t ∈ l → created_here args = true →
  traced (E:=E)
    (_notify_terminal_ready args fp t ;;
     ready ← wait_until_status fuel t _READY_STATES (sa_ready_timeout args) poll_interval None false None;
     if (ready : bool) then mret t
     else throw (StepExecutionError ("terminal " +:+ t +:+ " did not reach a ready status within "
                   +:+ show_seconds (sa_ready_timeout args) +:+ "s") "timeout" (Some t)))
    (then_acts h l) (prepared h) (unprepared h).
Proof.
  intros Hl Ht Hc. assert (∀ l', Forall setting_up l' → Forall setting_up (l ++ l')) as Hup.
  { intros l' Hl'. apply Forall_app. split; [|done]. eapply Forall_impl; [exact Hl|apply about_setting_up]. }
  apply traced_bind, notify_spec.
  2: { intros r l' Hr Hl'. rewrite then_then. apply unprepared_at; [by left|]. apply Hup. eapply Forall_impl; [exact Hl'|apply about_setting_up]. }
  intros l1 Hl1 Ha. rewrite then_then. apply traced_bind. eapply adds_at; [apply wait_until_status_adds| |].
  - intros ready h' (l2 & Hl2 & ->). rewrite then_then, <-app_assoc. destruct ready; [apply traced_ret|apply traced_throw].
    + exists (l ++ l1 ++ l2). split; [done|]. split_and!.
      * apply Forall_app. split; [done|]. apply Forall_app. split; [done|]. eapply Forall_impl; [exact Hl2|]. by intros [].
      * right. split; [done|]. set_solver.
      * intros Hs. destruct (Ha Hs) as [x Hx]. exists x. set_solver.
    + apply unprepared_at.
      * right. eexists _, t. split_and!; [done..|]. set_solver.
      * apply Hup, Forall_app. split; (eapply Forall_impl; [eassumption|]); [apply about_setting_up|apply observed_setting_up].
  - intros r h' Hr (l2 & Hl2 & ->). rewrite then_then, <-app_assoc. apply unprepared_at; [by left|].
    apply Hup, Forall_app. split; (eapply Forall_impl; [eassumption|]); [apply about_setting_up|apply observed_setting_up].
Qed.

Lemma prepare_spec fuel h : traced (E:=E) (prepare show_seconds args fuel) h (prepared h) (unprepared h).
Proof.
  assert (∀ r h', foreign r → only (λ _, False) h h' → unprepared h r h') as Hnone.
  { intros r h' Hr (l & Hl & ->). apply unprepared_at; [by left|]. by eapply Forall_impl. }
  unfold prepare. apply traced_bind. destruct (sa_reuse_terminal_id args) as [t|] eqn:Hreuse.
  - assert (created_here args = false) as Hc by (unfold created_here; by rewrite Hreuse). rewrite Hc at 1.
    apply traced_ret, traced_bind. eapply adds_at; [apply (validate_adds (λ _, False))| |done].
    intros _ h' (l & Hl & ->). destruct l; [|by inversion Hl]. rewrite then_nil. apply traced_bind, notify_spec.
    + intros l Hl' Ha. apply traced_ret. exists l. split_and!; [done..|by left|done].
    + intros r l Hr Hl'. apply unprepared_at; [by left|]. eapply Forall_impl; [exact Hl'|apply about_setting_up].
  - assert (created_here args = true) as Hc by (unfold created_here; by rewrite Hreuse). rewrite Hc at 1.
    eapply adds_at; [apply (resolve_directory_adds (λ _, False))| |done].
    intros d h' (l & Hl & ->). destruct l; [|by inversion Hl]. rewrite then_nil. apply traced_bind, create_spec.
    2: { intros r Hr. apply Hnone; [done|reflexivity]. }
    intros t. apply traced_bind. destruct (truthy_label args) as [label|].
    + case_decide.
      * apply traced_ret, readiness_spec; [by repeat constructor|by left|done].
      * apply traced_bind, traced_log, traced_act. rewrite then_then. apply readiness_spec; [by repeat constructor|by left|done].
    + apply traced_ret, readiness_spec; [by repeat constructor|by left|done].
Qed.

(** ** The whole step *)

(** Every way a step may go: it never reached the [try], or it has a terminal, its acts
    on it, and the clean-up that belongs to the way the [try] ended. *)
Inductive went : result AgentStepResult → list act → Prop :=
| went_nowhere r l : unready r l → Forall setting_up l → went (Err r) l
| went_well t res pre body post : Forall (about t) pre → of_step t pre → announced t pre →
    succeeded args t res body → cleaned args t true post → went (Ok res) (pre ++ body ++ post)
| went_wrong t r c pre body post : Forall (about t) pre → of_step t pre → announced t pre →
    failed args t r body c → cleaned args t c post → went (Err r) (pre ++ body ++ post)
| went_away t c pre body post : Forall (about t) pre → of_step t pre → announced t pre →
    ((∃ res, succeeded args t res body) ∨ ∃ r, failed args t r body c) → half_cleaned args t c post →
    went (Err (Fault TaskCancelled)) (pre ++ body ++ post).

Lemma went_off r t l : foreign r → Forall (about t) l → went (Err r) l.
Proof. intros Hr Hl. apply went_nowhere; [by left|]. eapply Forall_impl; [exact Hl|apply about_setting_up]. Qed.

Lemma run_spec fuel c x : traced (run_agent_step show_seconds show_status args fuel) ([], c, x)
  (λ res h', went (Ok res) h'.1.1) (λ r h', went (Err r) h'.1.1).
Proof.
  apply traced_bind. eapply traced_mono; [apply prepare_spec| |]; cbn beta.
  2: { intros r h' (l & -> & Hl & Hr). by apply went_nowhere. }
  intros t h' (pre & -> & Hpre & Hof & Han). unfold then_acts. simpl.
  assert (Hgo : ∀ signal, traced (fresh_flags ;; mem ← ask (frozen_memory_for (run_id_of args) t (sa_prompt args));
      try_finally (attempt show_seconds show_status args fuel signal t mem) (cleaning_up args t)) (pre, c, x)
    (λ res h', went (Ok res) h'.1.1) (λ r h', went (Err r) h'.1.1)).
  { intros signal. apply traced_bind, traced_fresh, traced_bind, traced_ask; [|intros f; by eapply went_off].
    intros mem. apply traced_finally. eapply traced_mono; [by apply attempt_spec| |]; cbn beta; simpl.
    - intros res h' (body & -> & Hb). eapply traced_mono; [apply cleaning_spec| |]; cbn beta; simpl.
      + intros _ h' (post & -> & Hp). simpl. rewrite <-app_assoc. by eapply went_well.
      + intros r h' (post & -> & -> & Hp). simpl. rewrite <-app_assoc. eapply went_away; [done..|by left; exists res|done].
    - intros r h' (body & b & -> & Hb). unfold from. simpl. eapply traced_mono; [apply cleaning_spec| |]; cbn beta; simpl.
      + intros _ h' (post & -> & Hp). simpl. rewrite <-app_assoc. by eapply went_wrong.
      + intros r' h' (post & -> & -> & Hp). simpl. rewrite <-app_assoc. eapply went_away; [done..|by right; exists r|done]. }
  apply traced_bind. unfold _resolve_cancel_signal.
  destruct (sa_cancel_signal args), (sa_cancel_event args); try (by apply traced_ret, Hgo).
  case_decide; [by apply traced_ret, Hgo|]. apply traced_throw. by eapply went_off.
Qed.

(** The kinds of act in each part. *)
Definition in_try (t : string) (a : act) : Prop :=
  match a with Sent t' p _ => t' = t ∧ p = sa_prompt args | Reading t' => t' = t | _ => observed a end.
Definition in_finally (t : string) (a : act) : Prop :=
  match a with ExitAsked t' | DeleteAsked t' => t' = t ∧ sa_teardown args = true ∧ created_here args = true | Unlabelled t' => t' = t | _ => False end.
Lemma observed_in_try t l : Forall observed l → Forall (in_try t) l.
Proof. intros H. eapply Forall_impl; [exact H|]. by intros []. Qed.
Lemma succeeded_in_try t res body : succeeded args t res body → Forall (in_try t) body.
Proof.
  intros (_ & _ & mem & g & w & final & -> & Hs & _). constructor; [done|]. constructor; [done|].
  apply Forall_app. split; [by eapply observed_in_try, settled_observed|by repeat constructor].
Qed.
Lemma failed_in_try t r body c : failed args t r body c → Forall (in_try t) body.
Proof.
  intros [[-> _]|(mem & seen & reading & -> & Hs & _)]; constructor; [done|]. apply Forall_app.
  split; [by apply observed_in_try|destruct reading; by repeat constructor].
Qed.
Lemma torn_in_finally t c : Forall (in_finally t) (torn args t c).
Proof.
  unfold torn. destruct (c && sa_teardown args && created_here args) eqn:H; [|done].
  apply andb_true_iff in H as [H ?]. apply andb_true_iff in H as [_ ?]. by repeat constructor.
Qed.
Lemma cleaned_in_finally t c post : cleaned args t c post → Forall (in_finally t) post.
Proof.
  intros (l & -> & Hl). apply Forall_app. split; [apply torn_in_finally|]. destruct Hl as [->|[-> _]]; by repeat constructor.
Qed.
Lemma half_in_finally t c post : half_cleaned args t c post → Forall (in_finally t) post.
Proof.
  intros [Ht [->| ->]]; [|apply torn_in_finally]. unfold torn in Ht. pose proof (torn_in_finally t c) as H. unfold torn in H.
  destruct (c && _ && _); [|done]. apply Forall_cons in H as [H _]. constructor; [exact H|constructor].
Qed.
Ltac absent := exfalso; match goal with
  | Hin : ?a ∈ ?l, HF : Forall _ ?l |- _ => rewrite Forall_forall in HF; specialize (HF _ Hin); simpl in HF; intuition congruence
  end.

(** ** What comes of it *)

Lemma run_went fuel s : as_acts s = [] →
  let '(s', r) := run_agent_step show_seconds show_status args fuel s in went r (as_acts s').
Proof.
  intros Hs. pose proof (run_spec fuel (as_cleanup s) (as_extracted s) s) as H. unfold trace_of in H. rewrite Hs in H.
  specialize (H eq_refl). by destruct (run_agent_step _ _ _ _ s) as [s' []].
Qed.

Lemma torn_full t : sa_teardown args = true → created_here args = true → torn args t true = [ExitAsked t; DeleteAsked t].
Proof. unfold torn. by intros -> ->. Qed.
Lemma cleaned_deleted t post : cleaned args t true post → sa_teardown args = true → created_here args = true → DeleteAsked t ∈ post.
Proof. intros (l & -> & _) Ht Hc. rewrite torn_full by done. set_solver. Qed.
Lemma created_of_step t l : of_step t l → created_here args = true → Created t ∈ l.
Proof. intros [Hr|[_ H]] Hc; [|done]. unfold created_here in Hc. rewrite Hr in Hc. done. Qed.
Lemma of_step_app t l l' : of_step t l → of_step t (l ++ l').
Proof. intros [H|[H1 H2]]; [by left|right]. split; [done|]. set_solver. Qed.

(** Only what the step made is torn down. *)
Lemma torn_is_own r l t : went r l → ExitAsked t ∈ l ∨ DeleteAsked t ∈ l →
  Created t ∈ l ∧ sa_teardown args = true ∧ sa_reuse_terminal_id args = None.
Proof.
  assert (∀ t0 pre body post, Forall (about t0) pre → of_step t0 pre → Forall (in_try t0) body → Forall (in_finally t0) post →
    ExitAsked t ∈ pre ++ body ++ post ∨ DeleteAsked t ∈ pre ++ body ++ post →
    Created t ∈ pre ++ body ++ post ∧ sa_teardown args = true ∧ sa_reuse_terminal_id args = None) as Hgo.
  { intros t0 pre body post Hpre Hof Hb Hp Hin.
    assert (ExitAsked t ∈ post ∨ DeleteAsked t ∈ post) as Hin'.
    { rewrite !elem_of_app in Hin. destruct Hin as [[|[|]]|[|[|]]]; try absent; auto. }
    rewrite Forall_forall in Hp. assert (t = t0 ∧ sa_teardown args = true ∧ created_here args = true) as (-> & Ht & Hc)
      by (destruct Hin' as [Hin'|Hin']; apply (Hp _ Hin')).
    split_and!; [|done|by apply bool_decide_eq_true in Hc]. pose proof (created_of_step _ _ Hof Hc). set_solver. }
  intros [r' l' Hr Hl|t0 res pre body post Hpre Hof Ha Hb Hp|t0 r' c pre body post Hpre Hof Ha Hb Hp|t0 c pre body post Hpre Hof Ha Hb Hp].
  - intros []; absent.
  - eapply Hgo; [done..|by eapply succeeded_in_try|by eapply cleaned_in_finally].
  - eapply Hgo; [done..|by eapply failed_in_try|by eapply cleaned_in_finally].
  - eapply Hgo; [done..| |by eapply half_in_finally].
    destruct Hb as [[res Hb]|[r' Hb]]; [by eapply succeeded_in_try|by eapply failed_in_try].
Qed.

Lemma uncleaned t post : cleaned args t false post → Forall (λ a, a = Unlabelled t) post.
Proof. intros (l & -> & Hl). unfold torn. simpl. destruct Hl as [->|[-> _]]; by repeat constructor. Qed.

Definition left_alone (l : list act) : Prop := ∀ t, DeleteAsked t ∉ l.
Lemma setting_up_left_alone l : Forall setting_up l → left_alone l.
Proof. intros Hl t Hin. absent. Qed.
Lemma uncleaned_left_alone t pre body post : Forall (about t) pre → Forall (in_try t) body → cleaned args t false post →
  left_alone (pre ++ body ++ post).
Proof.
  intros Hpre Hb Hp%uncleaned t' Hin. rewrite !elem_of_app in Hin. destruct Hin as [|[|]]; absent.
Qed.
(** When the step cleans up after an exception that is not its own. *)
Lemma fault_reads t f body c : failed args t (Fault f) body c → f ≠ TaskCancelled → c = bool_decide (Reading t ∈ body).
Proof.
  intros [[-> H]|(mem & seen & reading & -> & Hs & H)] Hf; (assert (∀ b, broke t (Fault f) b c → c = b) as Hb by by destruct f).
  - rewrite (Hb _ H). symmetry. apply bool_decide_eq_false. apply not_elem_of_nil.
  - rewrite (Hb _ H). destruct reading; symmetry; [apply bool_decide_eq_true; set_solver|apply bool_decide_eq_false].
    rewrite app_nil_r, elem_of_cons. intros [|]; [done|absent].
Qed.
Lemma fault_cleans t f c pre body post t' : Forall (about t) pre → failed args t (Fault f) body c → f ≠ TaskCancelled →
  cleaned args t c post → sa_teardown args = true → Created t' ∈ pre ++ body ++ post →
  (DeleteAsked t' ∈ pre ++ body ++ post ↔ Reading t' ∈ pre ++ body ++ post).
Proof.
  intros Hpre Hb Hf Hp Ht Hcr. pose proof (failed_in_try _ _ _ _ Hb) as Hbt. pose proof (fault_reads _ _ _ _ Hb Hf) as ->.
  pose proof (cleaned_in_finally _ _ _ Hp) as Hpt. assert (t' = t ∧ created_here args = true) as [-> Hc].
  { rewrite !elem_of_app in Hcr. destruct Hcr as [Hcr|[Hcr|Hcr]]; [|absent..]. rewrite Forall_forall in Hpre. apply (Hpre _ Hcr). }
  rewrite !elem_of_app. case_bool_decide as Hr.
  - pose proof (cleaned_deleted _ _ Hp Ht Hc). tauto.
  - pose proof (uncleaned_left_alone _ _ _ _ Hpre Hbt Hp t) as Hno. rewrite !elem_of_app in Hno. split; [tauto|].
    intros [|[|]]; [absent|tauto|absent].
Qed.

Lemma made_here : sa_reuse_terminal_id args = None → created_here args = true.
Proof. apply bool_decide_eq_true. Qed.

(** [C14] Terminals are accounted for.  Whatever the terminal layer answers and whoever
    cancels, the step asks only for the exit and the deletion of a terminal that it
    created itself, and only if teardown was asked for and no terminal was to be
    reused.  With those two, the deletion of the terminal it created is asked for (a
    deletion that fails is swallowed and not repeated) when the step returns, when the
    step is cancelled through its signal or its event, and, after another
    exception, exactly if the output was being read; after a [StepExecutionError] no
    deletion is asked for, and the error names the terminal, which is left to the
    caller.  When the task of the step is itself cancelled, only the first sentence is
    promised: the cleanup may be cut short. *)
Theorem terminals_are_accounted_for fuel s : as_acts s = [] →
  let '(s', r) := run_agent_step show_seconds show_status args fuel s in
  let l := as_acts s' in
  (∀ t, ExitAsked t ∈ l ∨ DeleteAsked t ∈ l → Created t ∈ l ∧ sa_teardown args = true ∧ sa_reuse_terminal_id args = None) ∧
  let torn_down t := sa_teardown args = true → sa_reuse_terminal_id args = None → DeleteAsked t ∈ l in
  match r with
  | Ok res => torn_down (ar_terminal_id res)
  | Err (StepCancelledError tid) => ∃ t, tid = Some t ∧ of_step t l ∧ torn_down t
  | Err (StepExecutionError _ _ tid) => ∃ t, tid = Some t ∧ of_step t l ∧ ∀ t', DeleteAsked t' ∉ l
  | Err (Fault TaskCancelled) => True
  | Err (Fault _) => sa_teardown args = true → ∀ t, Created t ∈ l → (DeleteAsked t ∈ l ↔ Reading t ∈ l)
  | Err StillWaiting => ∀ t, DeleteAsked t ∉ l
  end.
Proof.
  intros Hs. pose proof (run_went fuel s Hs) as Hw. destruct (run_agent_step _ _ _ _ s) as [s' r]. cbv zeta.
  split; [intros t; by eapply torn_is_own|].
  destruct Hw as [r l Hr Hl|t res pre body post Hpre Hof _ Hb Hp|t r c pre body post Hpre Hof _ Hb Hp|]; [| | |done].
  - pose proof (setting_up_left_alone _ Hl) as Hno. destruct Hr as [Hr|(m & t & -> & Hc & Ht)]; [|by exists t; split_and!; [|right|]].
    assert (∀ t, DeleteAsked t ∈ l ↔ Reading t ∈ l) by (intros t; split; intros; absent). destruct r as [| |[]|]; naive_solver.
  - destruct Hb as (-> & _). intros Ht Hc%made_here. pose proof (cleaned_deleted _ _ Hp Ht Hc). set_solver.
  - pose proof (failed_in_try _ _ _ _ Hb) as Hbt. pose proof (of_step_app t pre (body ++ post) Hof) as Hof'.
    destruct r as [tid|m k tid|f|].
    + assert (tid = Some t ∧ c = true) as [-> ->] by (destruct Hb as [[_ H]|(? & ? & ? & _ & _ & H)]; exact H).
      exists t. split_and!; [done..|]. intros Ht Hc%made_here. pose proof (cleaned_deleted _ _ Hp Ht Hc). set_solver.
    + assert (tid = Some t ∧ c = false) as [-> ->] by (destruct Hb as [[_ H]|(? & ? & ? & _ & _ & H)]; by destruct H as (? & ? & ?)).
      exists t. split_and!; [done..|]. by eapply uncleaned_left_alone.
    + destruct f; [| | |done]; intros Ht t' Hcr; by eapply fault_cleans.
    + assert (c = false) as -> by (destruct Hb as [[_ H]|(? & ? & ? & _ & _ & H)]; exact H). by eapply uncleaned_left_alone.
Qed.

(** The act that sends the prompt is the only one of its kind. *)
Definition unsent (a : act) : Prop := match a with Sent _ _ _ => False | _ => True end.
Definition sent_at (t : string) (mem : option string) (l : list act) : Prop :=
  ∃ pre rest, l = pre ++ Sent t (sa_prompt args) mem :: rest ∧ of_step t pre ∧ announced t pre ∧ Forall unsent (pre ++ rest).
Lemma sent_in_try t r body : Forall (in_try t) body → (∃ res, succeeded args t res body) ∨ (∃ c, failed args t r body c) →
  body = [] ∨ ∃ mem rest, body = Sent t (sa_prompt args) mem :: rest ∧ Forall unsent rest.
Proof.
  intros _ [[res (_ & _ & mem & g & w & final & -> & Hs%settled_observed & _)]|[c [[-> _]|(mem & seen & reading & -> & Hs & _)]]].
  - right. eexists _, _. split; [done|]. constructor; [done|]. apply Forall_app.
    split; [eapply Forall_impl; [exact Hs|]; by intros []|by repeat constructor].
  - by left.
  - right. eexists _, _. split; [done|]. apply Forall_app. split; [eapply Forall_impl; [exact Hs|]; by intros []|].
    destruct reading; by repeat constructor.
Qed.
Lemma sent_once r pre body post t t' p mem' : Forall (about t) pre → of_step t pre → announced t pre →
  (∃ res, succeeded args t res body) ∨ (∃ c, failed args t r body c) → Forall (in_finally t) post →
  Sent t' p mem' ∈ pre ++ body ++ post → p = sa_prompt args ∧ sent_at t' mem' (pre ++ body ++ post).
Proof.
  intros Hpre Hof Han Hb Hpost Hin. assert (Forall (in_try t) body) as Hbt.
  { destruct Hb as [[res Hb]|[c Hb]]; [by eapply succeeded_in_try|by eapply failed_in_try]. }
  destruct (sent_in_try _ _ _ Hbt Hb) as [->|(mem & rest & -> & Hrest)]; rewrite !elem_of_app in Hin;
    destruct Hin as [Hin|[Hin|Hin]]; try absent; [by apply elem_of_nil in Hin|].
  apply elem_of_cons in Hin as [[= -> -> ->]|Hin]; [|absent]. split; [done|]. exists pre, (rest ++ post).
  split_and!; [done..|]. rewrite app_assoc. apply Forall_app. split; [apply Forall_app; split; [|done]|].
  - eapply Forall_impl; [exact Hpre|]. by intros [].
  - eapply Forall_impl; [exact Hpost|]. by intros [].
Qed.

(** [C15] The prompt of a step is sent at most once, unchanged, to the terminal that was
    created or validated and announced before; and a step that returns sent it, saw
    from there no error and, last, a terminal at rest in the generation its input began
    or a later one — or, from a backend that reports no generation (as every backend
    with an event inbox), COMPLETED, which the code accepts without knowing of which
    turn it is — and read the output of that terminal after that. *)
Theorem answers_are_of_the_turn fuel s : as_acts s = [] →
  let '(s', r) := run_agent_step show_seconds show_status args fuel s in
  let l := as_acts s' in
  (∀ t p mem, Sent t p mem ∈ l → p = sa_prompt args ∧ sent_at t mem l) ∧
  match r with
  | Ok res => let t := ar_terminal_id res in ar_status res = TS_COMPLETED ∧
      ∃ pre mem g w final post, l = pre ++ Sent t (sa_prompt args) mem :: InputGen g :: w ++ [Saw final; Reading t] ++ post
        ∧ settled g w ∧ final ≠ Some TS_ERROR
  | Err _ => True
  end.
Proof.
  intros Hs. pose proof (run_went fuel s Hs) as Hw. destruct (run_agent_step _ _ _ _ s) as [s' r]. cbv zeta.
  destruct Hw as [r l Hr Hl|t res pre body post Hpre Hof Han Hb Hp|t r c pre body post Hpre Hof Han Hb Hp|t c pre body post Hpre Hof Han Hb Hp].
  - split; [|done]. intros t p mem Hin. absent.
  - split.
    + intros t' p mem. eapply (sent_once StillWaiting); [done..|by left; exists res|by eapply cleaned_in_finally].
    + destruct Hb as (-> & -> & mem & g & w & final & -> & Hw & Hf). split; [done|]. exists pre, mem, g, w, final, post.
      split_and!; [|done..]. by rewrite <-app_comm_cons, <-app_comm_cons, <-app_assoc.
  - split; [|done]. intros t' p mem. eapply sent_once; [done..|by right; exists c|by eapply cleaned_in_finally].
  - split; [|done]. intros t' p mem.
    destruct Hb as [[res Hb]|[r Hb]].
    + eapply (sent_once StillWaiting); [done..|by left; exists res|by eapply half_in_finally].
    + eapply sent_once; [done..|by right; exists c|by eapply half_in_finally].
Qed.
End Run.
