(* ===== verification/AgentStepEnds.v ===== *)
(** * An agent step ends

    Where the clocks never run backwards and a sleep lasts as long as asked, both waits
    end within their timeouts, so a step is decided by finitely many readings; and one
    step at work, at which the theorems are applied. *)

From S2P Require Import Prelude Fingerprint Screen AgentStep AgentStepThms.

(** ** Clocks *)

Class ClockLaws (E F : Type) `{!TerminalLayer E F} := {
  snapshot_forward t e : wall_time e ≤ wall_time (snapshot_view t e).1;
  gate_forward t e : wall_time e ≤ wall_time (waiting_gate t e).1;
  gen_forward t e : wall_time e ≤ wall_time (get_status_gen t e).1;
  sleep_wall d e : match sleep d e with (e', Answers _) => wall_time e + d ≤ wall_time e' | _ => True end;
  wait_wall i d e : match wait_event i d e with (e', Answers false) => wall_time e + d ≤ wall_time e' | _ => True end;
  status_tick t e : monotonic_time e ≤ monotonic_time (get_status t e).1;
  raw_status_tick t e : monotonic_time e ≤ monotonic_time (get_raw_status t e).1;
  gen_tick t e : monotonic_time e ≤ monotonic_time (get_status_gen t e).1;
  sleep_tick d e : match sleep d e with (e', Answers _) => monotonic_time e + d ≤ monotonic_time e' | _ => True end;
}.
Record PolicyLaws {E F} `{!TerminalLayer E F} (p : BlockedWaitPolicy E) : Prop := {
  cap_nonneg : 0 ≤ blocked_cap p;
  probe_tick e : monotonic_time e ≤ monotonic_time (probe p e).1;
  notify_tick rule e : monotonic_time e ≤ monotonic_time (on_first_blocked p rule e).1;
}.

(** ** Two runs that agree

    [same m m']: neither is cut short, and they are one. *)
Definition ends {E A} (m : T E A) : Prop := ∀ s, (m s).2 ≠ Err StillWaiting.
Definition same {E A} (m m' : T E A) : Prop := (∀ s, m s = m' s) ∧ ends m.

Section Same.
Context {E : Type}.
Lemma same_of {A} (m : T E A) : ends m → same m m.
Proof. by split. Qed.
Lemma ends_ret {A} (a : A) : ends (E:=E) (mret a).
Proof. by intros s. Qed.
Lemma ends_throw {A} r : r ≠ StillWaiting → ends (E:=E) (A:=A) (throw r).
Proof. intros Hr s [=]. done. Qed.
Lemma ends_ask {A} (f : E → E * answer A) : ends (ask f).
Proof. intros s. unfold ask. by destruct (f (as_env s)) as [? []]. Qed.
Lemma ends_log a : ends (E:=E) (log a).
Proof. by intros s. Qed.
Lemma same_bind {A B} (m m' : T E A) (f f' : A → T E B) : same m m' → (∀ a, same (f a) (f' a)) → same (m ≫= f) (m' ≫= f').
Proof.
  intros [Hm Hme] Hf. split; intros s; unfold mbind, T_bind.
  - rewrite <-Hm. destruct (m s) as [s' [a|r]]; [apply Hf|done].
  - specialize (Hme s). destruct (m s) as [s' [a|r]]; [apply Hf|]. intros [= ->]. by apply Hme.
Qed.
Lemma ends_bind {A B} (m : T E A) (f : A → T E B) : ends m → (∀ a, ends (f a)) → ends (m ≫= f).
Proof. intros Hm Hf. apply (same_bind m m f f); [by apply same_of|]. intros a. apply same_of, Hf. Qed.
Lemma same_except {A} (m m' : T E A) h : same m m' → (∀ r, match h r with Some k => ends k | None => True end) →
  same (except m h) (except m' h).
Proof.
  intros [Hm Hme] Hh. split; intros s; unfold except.
  - by rewrite Hm.
  - specialize (Hme s). destruct (m s) as [s' [a|r]]; [done|]. specialize (Hh r). destruct (h r); [apply Hh|done].
Qed.
Lemma ends_except {A} (m : T E A) h : ends m → (∀ r, match h r with Some k => ends k | None => True end) → ends (except m h).
Proof. intros Hm Hh. by apply (same_except m m); [apply same_of|]. Qed.
Lemma same_finally {A} (m m' : T E A) f : same m m' → ends f → same (try_finally m f) (try_finally m' f).
Proof.
  intros [Hm Hme] Hf. split; intros s; unfold try_finally.
  - by rewrite Hm.
  - specialize (Hme s). destruct (m s) as [s' r]. specialize (Hf s'). destruct (f s') as [s'' [[]|r']]; [done|].
    intros [= ->]. by apply Hf.
Qed.
Lemma ends_shrug m : ends (E:=E) m → ends (shrug m).
Proof. intros Hm. apply ends_except; [done|]. intros r. by destruct (is_exception r). Qed.
Lemma ends_flag f : ends (E:=E) (flag f).
Proof. by intros s. Qed.
End Same.

Ltac ends_step := first
  [ apply ends_bind; [|intros ?] | apply ends_ret | apply ends_ask | apply ends_log | apply ends_flag | apply ends_shrug
  | apply ends_throw; done | apply ends_except; [|intros []; simpl]
  | match goal with
    | |- ends (if ?b then _ else _) => destruct b
    | |- ends (match ?x with _ => _ end) => destruct x
    | |- match (match ?x with _ => _ end) with _ => _ end => destruct x; simpl
    | |- match (if ?x then _ else _) with _ => _ end => destruct x; simpl
    | |- ends (λ s, (_, Ok _)) => by intros s
    | |- True => done
    end ].
Ltac ends_steps := repeat ends_step.

(** ** The waits *)

(** The same at one state. *)
Definition agree {E A} (m m' : T E A) (s : Step E) : Prop := m s = m' s ∧ (m s).2 ≠ Err StillWaiting.
Lemma agree_bind {E A B} (m : T E A) (f f' : A → T E B) s : ends m →
  (∀ a s', m s = (s', Ok a) → agree (f a) (f' a) s') → agree (m ≫= f) (m ≫= f') s.
Proof.
  intros Hm Hf. specialize (Hm s). unfold agree, mbind, T_bind. destruct (m s) as [s' [a|r]]; [by apply Hf|].
  split; [done|]. intros [= ->]. by apply Hm.
Qed.
Lemma agree_ends {E A} (m : T E A) s : ends m → agree m m s.
Proof. by split. Qed.

(** A statement under which a reading of the environment does not go down. *)
Definition upward {E A} (clock : E → Z) (m : T E A) : Prop := ∀ s, clock (as_env s) ≤ clock (as_env (m s).1).
Section Upward.
Context {E : Type} (clock : E → Z).
Lemma upward_ret {A} (a : A) : upward (E:=E) clock (mret a).
Proof. intros s. simpl. lia. Qed.
Lemma upward_throw {A} r : upward (E:=E) (A:=A) clock (throw r).
Proof. intros s. simpl. lia. Qed.
Lemma upward_log a : upward (E:=E) clock (log a).
Proof. intros s. simpl. lia. Qed.
Lemma upward_ask {A} (f : E → E * answer A) : (∀ e, clock e ≤ clock (f e).1) → upward clock (ask f).
Proof. intros Hf s. unfold ask. specialize (Hf (as_env s)). by destruct (f (as_env s)). Qed.
Lemma upward_bind {A B} (m : T E A) (f : A → T E B) : upward clock m → (∀ a, upward clock (f a)) → upward clock (m ≫= f).
Proof.
  intros Hm Hf s. unfold mbind, T_bind. specialize (Hm s). destruct (m s) as [s' [a|r]]; [|done].
  specialize (Hf a s'). simpl in *. lia.
Qed.
Lemma upward_except {A} (m : T E A) h : upward clock m → (∀ r, match h r with Some k => upward clock k | None => True end) →
  upward clock (except m h).
Proof.
  intros Hm Hh s. unfold except. specialize (Hm s). destruct (m s) as [s' [a|r]]; [done|]. specialize (Hh r).
  destruct (h r); [|done]. specialize (Hh s'). simpl in *. lia.
Qed.
End Upward.
Ltac upward_steps := repeat first
  [ apply upward_bind; [|intros ?] | apply upward_ret | apply upward_throw | apply upward_log
  | apply upward_except; [|intros []; simpl]
  | match goal with
    | |- upward _ (if ?b then _ else _) => destruct b
    | |- upward _ (match ?x with _ => _ end) => destruct x
    | |- match (if ?x then _ else _) with _ => _ end => destruct x; simpl
    | |- match (match ?x with _ => _ end) with _ => _ end => destruct x; simpl
    | |- upward _ (λ s, (s, _)) => intros ?; simpl; lia
    | |- True => done
    end ].

Section Waits.
Context {E F : Type} `{!TerminalLayer E F, !ClockLaws E F}.
Local Notation wall s := (wall_time (as_env s)).
Local Notation tick s := (monotonic_time (as_env s)).

Lemma cancelled_by_ends signal t : ends (E:=E) (cancelled_by signal t).
Proof. unfold cancelled_by, is_set. ends_steps. Qed.
Lemma poll_ends t g : ends (E:=E) (completion_poll t g).
Proof. unfold completion_poll, see, see_gen. ends_steps. Qed.
Lemma pause_ends signal t d : ends (E:=E) (pause signal t d).
Proof. unfold pause. ends_steps. Qed.
Lemma poll_upward t g : upward wall_time (completion_poll (E:=E) t g).
Proof.
  unfold completion_poll, see, see_gen. upward_steps; apply upward_ask; intros e;
    first [apply snapshot_forward | apply gate_forward | apply gen_forward].
Qed.
Lemma pause_lasts signal t d (s s' : Step E) : pause signal t d s = (s', Ok ()) → wall s + d ≤ wall s'.
Proof.
  unfold pause. destruct signal as [i|].
  - unfold mbind, T_bind, ask. pose proof (wait_wall i d (as_env s)) as H. destruct (wait_event i d (as_env s)) as [e [[]|f]]; [done| |done].
    by intros [= <-].
  - unfold ask. pose proof (sleep_wall d (as_env s)) as H. destruct (sleep d (as_env s)) as [e [[]|f]]; [|done].
    by intros [= <-].
Qed.

Lemma completion_loop_same fuel fuel' t g timeout d signal start (s : Step E) : 0 < d →
  timeout - (wall s - start) ≤ (Z.of_nat fuel - 1) * d → (1 ≤ fuel)%nat →
  timeout - (wall s - start) ≤ (Z.of_nat fuel' - 1) * d → (1 ≤ fuel')%nat →
  agree (completion_loop fuel t g timeout d signal start) (completion_loop fuel' t g timeout d signal start) s.
Proof.
  intros Hd. revert fuel' s. induction fuel as [|fuel IH]; intros [|fuel'] s Hf H1 Hf' H1'; [lia..|].
  cbn [completion_loop]. apply agree_bind; [by intros ?|]. intros now s' [= <- <-].
  destruct (Z.ltb_spec (wall s - start) timeout) as [Hlt|]; [|apply agree_ends, ends_bind; [apply cancelled_by_ends|intros; apply ends_ret]].
  apply agree_bind; [apply cancelled_by_ends|]. intros a0 s1 H0. apply agree_bind; [apply poll_ends|].
  intros [o|] s2 H2; [apply agree_ends, ends_ret|]. apply agree_bind; [apply pause_ends|]. intros [] s3 H3%pause_lasts.
  assert (wall s ≤ wall s1).
  { revert H0. unfold cancelled_by, is_set, mbind, T_bind. destruct signal; [destruct (event_is_set _ _)|]; intros [=]; subst; lia. }
  assert (wall s1 ≤ wall s2) by (pose proof (poll_upward t g s1) as Hup; by rewrite H2 in Hup).
  apply IH; nia.
Qed.
Lemma wait_for_completion_same fuel fuel' t g timeout d signal : 0 < d →
  timeout ≤ (Z.of_nat fuel - 1) * d → (1 ≤ fuel)%nat → timeout ≤ (Z.of_nat fuel' - 1) * d → (1 ≤ fuel')%nat →
  same (E:=E) (_wait_for_completion fuel t g timeout d signal None) (_wait_for_completion fuel' t g timeout d signal None).
Proof.
  intros. assert (∀ s, agree (E:=E) (_wait_for_completion fuel t g timeout d signal None) (_wait_for_completion fuel' t g timeout d signal None) s) as Hs.
  { intros s. apply agree_bind; [by destruct signal; intros ?|]. intros sg s' Hsg.
    apply agree_bind; [by intros ?|]. intros start s'' [= <- <-]. apply completion_loop_same; lia. }
  split; intros s; apply Hs.
Qed.

Lemma notify_ends policy rule w : ends (E:=E) (notify_blocked policy rule w).
Proof. unfold notify_blocked. ends_steps. Qed.
Lemma notify_upward policy rule w : (∀ p, policy = Some p → PolicyLaws p) → upward monotonic_time (notify_blocked (E:=E) policy rule w).
Proof.
  intros Hp. unfold notify_blocked, shrug. destruct policy as [p|]; [destruct (Hp p eq_refl)|]; upward_steps.
  by apply upward_ask.
Qed.
Definition cap (policy : option (BlockedWaitPolicy E)) : Z := match policy with Some p => blocked_cap p | None => 0 end.

Lemma agree_bind_up {A B} (m : T E A) (f f' : A → T E B) (s : Step E) : ends m → upward monotonic_time m →
  (∀ a s', m s = (s', Ok a) → tick s ≤ tick s' → agree (f a) (f' a) s') → agree (m ≫= f) (m ≫= f') s.
Proof.
  intros Hm Hu Hf. apply agree_bind; [done|]. intros a s' H. apply Hf; [done|]. specialize (Hu s). by rewrite H in Hu.
Qed.
(** What a turn makes of its loop variables. *)
Lemma rule_counts policy gate w : let step := match wait_rule gate with
    | Some rule => notify_blocked policy rule w ;; mret (blocked_by rule w) | None => mret (unblocked w) end in
  ends (E:=E) step ∧ ((∀ p, policy = Some p → PolicyLaws p) → upward (E:=E) monotonic_time step) ∧
  ∀ (s s' : Step E) w', step s = (s', Ok w') →
    wt_unblocked w' = wt_unblocked w ∧ wt_blocked w' = wt_blocked w ∧ wt_last_tick w' = wt_last_tick w
    ∧ wt_previous_blocked w' = bool_decide (is_Some (wait_rule gate)).
Proof.
  cbv zeta. destruct (wait_rule gate) as [rule|]; split_and!.
  - apply ends_bind; [apply notify_ends|intros; apply ends_ret].
  - intros Hp. apply upward_bind; [by apply notify_upward|intros; apply upward_ret].
  - intros s s' w'. unfold mbind, T_bind. destruct (notify_blocked _ _ _ s) as [s1 [[]|]]; [|done]. by intros [= <- <-].
  - apply ends_ret.
  - intros _. apply upward_ret.
  - by intros s s' w' [= <- <-].
Qed.

Lemma wait_loop_same fuel fuel' t targets timeout d min_gen raw policy w (s : Step E) : 0 < d → (∀ p, policy = Some p → PolicyLaws p) →
  (policy = None → wt_previous_blocked w = false) → wt_blocked w ≤ cap policy →
  (∀ n, n = Z.of_nat fuel ∨ n = Z.of_nat fuel' → 1 ≤ n ∧ timeout + cap policy - (wt_unblocked w + wt_blocked w) ≤
     (if decide (wt_last_tick w + d ≤ tick s) then n - 1 else n - 2) * d) → wt_last_tick w ≤ tick s →
  agree (wait_loop fuel t targets timeout d min_gen raw policy w) (wait_loop fuel' t targets timeout d min_gen raw policy w) s.
Proof.
  intros Hd Hp. revert fuel' s w. induction fuel as [|fuel IH]; intros [|fuel'] s w Hpb Hcap Hn Htick;
    [specialize (Hn 0 (or_introl eq_refl)); lia..|specialize (Hn 0 (or_intror eq_refl)); lia|].
  cbn [wait_loop]. destruct (Z.ltb_spec (wt_unblocked w) timeout) as [Hlt|]; [|apply agree_ends, ends_ret]. simpl negb. cbv iota.
  apply agree_bind; [by intros ?|]. intros now s0 [= <- <-]. cbv zeta.
  destruct (match policy with Some p => blocked_cap p <? wt_blocked (ticked (tick s) w) | None => false end) eqn:Hover; [apply agree_ends, ends_ret|].
  apply agree_bind_up; [apply ends_ask|apply upward_ask; intros e; destruct raw; [apply raw_status_tick|apply status_tick]|].
  intros current s1 _ H1. apply agree_bind_up; [apply ends_log|apply upward_log|]. intros _ s2 _ H2.
  apply agree_bind_up; [by ends_steps|destruct (decide (is_Some min_gen)); [apply upward_ask; intros; apply gen_tick|apply upward_ret]|].
  intros gen s3 _ H3. destruct (reaches _ _ _ _); [apply agree_ends, ends_ret|].
  apply agree_bind_up; [by ends_steps| |].
  { destruct policy as [p|]; [apply upward_ask; intros; by apply (probe_tick p (Hp p eq_refl))|apply upward_ret]. }
  intros gate s4 Hgate H4. destruct (rule_counts policy gate (ticked (tick s) w)) as (He & Hu & Hc).
  apply agree_bind_up; [exact He|by apply Hu|]. intros w' s5 (Hw1 & Hw2 & Hw3 & Hw4)%Hc H5.
  apply agree_bind; [apply ends_ask|]. intros [] s6 Hsleep.
  assert (tick s5 + d ≤ tick s6) as H6.
  { revert Hsleep. unfold ask. pose proof (sleep_tick d (as_env s5)) as H. destruct (sleep d (as_env s5)) as [e [[]|]]; [|done].
    by intros [= <-]. }
  assert (wt_unblocked w' + wt_blocked w' = wt_unblocked w + wt_blocked w + (tick s - wt_last_tick w)) as Hsum.
  { rewrite Hw1, Hw2. unfold ticked. simpl. destruct (wt_previous_blocked w); lia. }
  apply IH.
  - intros ->. injection Hgate as _ <-. by rewrite Hw4.
  - rewrite Hw2. destruct policy as [p|]; [by apply Z.ltb_ge in Hover|]. unfold ticked. simpl. by rewrite Hpb.
  - intros n Hn'. assert (wt_last_tick w' = tick s) as -> by by rewrite Hw3.
    rewrite decide_True by lia. specialize (Hn (n + 1) ltac:(lia)). destruct (decide _); nia.
  - rewrite Hw3. simpl. lia.
Qed.
Lemma wait_until_status_same fuel fuel' t targets timeout d min_gen raw policy : 0 < d → (∀ p, policy = Some p → PolicyLaws p) →
  (∀ n, n = Z.of_nat fuel ∨ n = Z.of_nat fuel' → 1 ≤ n ∧ timeout + cap policy ≤ (n - 2) * d) →
  same (E:=E) (wait_until_status fuel t targets timeout d min_gen raw policy) (wait_until_status fuel' t targets timeout d min_gen raw policy).
Proof.
  intros Hd Hp Hn. assert (∀ s, agree (E:=E) (wait_until_status fuel t targets timeout d min_gen raw policy)
    (wait_until_status fuel' t targets timeout d min_gen raw policy) s) as Hs.
  { intros s. apply agree_bind; [by intros ?|]. intros now s' [= <- <-]. apply wait_loop_same; simpl; [done..| | |lia].
    - destruct policy as [p|]; simpl; [|lia]. apply (cap_nonneg p (Hp p eq_refl)).
    - intros n Hn'. specialize (Hn n Hn'). rewrite decide_False by lia. lia. }
  split; intros s; apply Hs.
Qed.
End Waits.

(** ** The whole step *)

Section Steps.
Context {E F : Type} `{!TerminalLayer E F, !ClockLaws E F}.
Context (show_seconds : Z → string) (show_status : option TerminalStatus → string) (args : StepArgs (E:=E)).

(** As many readings as the two timeouts have seconds, and two more. *)
Definition enough (fuel : nat) : Prop :=
  (1 ≤ fuel)%nat ∧ sa_ready_timeout args ≤ (Z.of_nat fuel - 2) * poll_interval ∧ sa_timeout args ≤ (Z.of_nat fuel - 1) * poll_interval.

Lemma stop_here_ends signal t : ends (E:=E) (stop_here signal t).
Proof. unfold stop_here, is_set, set_cleanup. ends_steps. Qed.
Lemma see_ends t : ends (E:=E) (see t).
Proof. unfold see. ends_steps. Qed.
Lemma send_ends signal t mem : ends (send show_status args signal t mem).
Proof.
  unfold send. apply ends_except; [ends_steps|]. intros [| |[]|]; simpl; repeat (first [apply stop_here_ends | apply see_ends | ends_step]).
Qed.
Lemma extract_ends signal t : ends (E:=E) (extract signal t).
Proof.
  unfold extract, set_extracted. apply ends_except; [ends_steps|].
  intros [| |[]|]; simpl; unfold set_cleanup; repeat (first [apply stop_here_ends | ends_step]).
Qed.
Lemma cleaning_up_ends t : ends (cleaning_up args t).
Proof. unfold cleaning_up, _teardown_terminal, set_cleanup. ends_steps. Qed.
Lemma validate_ends t provider engine : ends (E:=E) (_validate_reused_terminal t provider engine).
Proof. unfold _validate_reused_terminal, value_error, lift_exn. ends_steps. Qed.
Lemma create_ends d : ends (create args d).
Proof. unfold create, or_cwd. ends_steps. Qed.
Lemma notify_ready_ends fp t : ends (_notify_terminal_ready args fp t).
Proof. unfold _notify_terminal_ready. ends_steps. Qed.

Lemma watch_same fuel fuel' signal t : enough fuel → enough fuel' →
  same (watch show_seconds args fuel signal t) (watch show_seconds args fuel' signal t).
Proof.
  intros (H1 & _ & H2) (H1' & _ & H2'). unfold watch. apply same_bind; [apply same_of, ends_ask|]. intros g.
  apply same_bind; [apply same_of, ends_log|]. intros _. apply same_bind.
  - apply same_except; [apply wait_for_completion_same; unfold poll_interval in *; lia|].
    intros []; [|done..]. unfold set_cleanup. ends_steps.
  - intros o. apply same_of. unfold in_error, set_cleanup. repeat (first [apply see_ends | apply stop_here_ends | ends_step]).
Qed.
Lemma attempt_same fuel fuel' signal t mem : enough fuel → enough fuel' →
  same (attempt show_seconds show_status args fuel signal t mem) (attempt show_seconds show_status args fuel' signal t mem).
Proof.
  intros Hf Hf'. unfold attempt. apply same_bind; [apply same_of, stop_here_ends|]. intros _.
  apply same_bind; [apply same_of, send_ends|]. intros _. apply same_bind; [apply same_of, stop_here_ends|]. intros _.
  apply same_bind; [by apply watch_same|]. intros _. apply same_of. unfold set_cleanup.
  repeat (first [apply extract_ends | ends_step]).
Qed.
Lemma prepare_same fuel fuel' : enough fuel → enough fuel' → same (prepare show_seconds args fuel) (prepare show_seconds args fuel').
Proof.
  intros (H1 & H2 & _) (H1' & H2' & _). unfold prepare. apply same_bind.
  { apply same_of. unfold resolve_effective_working_directory. ends_steps. }
  intros d. destruct (sa_reuse_terminal_id args) as [t|].
  - apply same_of. repeat (first [apply validate_ends | apply notify_ready_ends | ends_step]).
  - apply same_bind; [apply same_of, create_ends|]. intros t. apply same_bind; [apply same_of; ends_steps|]. intros _.
    apply same_bind; [apply same_of, notify_ready_ends|]. intros _. apply same_bind; [|intros ready; apply same_of; ends_steps].
    apply wait_until_status_same; [done..|]. intros n [-> | ->]; simpl; lia.
Qed.

(** [C16] Where a sleep lasts as long as asked and no clock runs backwards, a step ends:
    within as many readings as its timeouts have seconds it returns or raises, and more
    readings would change nothing. *)
Theorem steps_end fuel fuel' s : enough fuel → enough fuel' →
  (run_agent_step show_seconds show_status args fuel s).2 ≠ Err StillWaiting ∧
  run_agent_step show_seconds show_status args fuel s = run_agent_step show_seconds show_status args fuel' s.
Proof.
  intros Hf Hf'. assert (same (run_agent_step show_seconds show_status args fuel) (run_agent_step show_seconds show_status args fuel')) as [H1 H2].
  { unfold run_agent_step. apply same_bind; [by apply prepare_same|]. intros t. apply same_bind.
    { apply same_of. unfold _resolve_cancel_signal. ends_steps. }
    intros signal. apply same_bind; [by apply same_of|]. intros _. apply same_bind; [apply same_of, ends_ask|]. intros mem.
    apply same_finally; [by apply attempt_same|apply cleaning_up_ends]. }
  split; [apply H2|apply H1].
Qed.
End Steps.

(** ** A step at work

    The environment is a clock; the terminal is ready after two seconds and its turn is
    over after five.  A directory that does not exist cannot be told, an event is set
    from its identity's second on. *)

Definition second : Z := 1000000.
#[export] Instance clock_layer : TerminalLayer Z () := {
  get_working_directory _ e := (e, Faults (OtherError (ExternalError "no such pane")));
  getcwd e := (e, Answers "/home"%string);
  seed_resume_bootstrap _ _ _ e := (e, Answers None);
  create_terminal _ e := (e, Answers "t1"%string);
  get_terminal_metadata _ e := (e, Answers (Some (Some "kiro_cli", None)%string));
  frozen_memory_for _ _ _ e := (e, Answers None);
  send_input _ _ _ e := (e, Answers ());
  get_output_last _ e := (e, Answers "done"%string);
  exit_terminal_cli _ e := (e, Faults (OtherError (ExternalError "pane is gone")));
  delete_terminal _ e := (e, Answers ());
  snapshot_view _ e := (e, Answers (Some (if e <? 5 * second then TS_PROCESSING else TS_COMPLETED)));
  get_status _ e := (e, Answers (if e <? 2 * second then TS_UNKNOWN else TS_IDLE));
  get_raw_status _ e := (e, Answers TS_UNKNOWN);
  get_status_gen _ e := (e, Answers (Some (if e <? 6 * second then 0 else 1)));
  get_input_gen _ e := (e, Answers 1);
  waiting_gate _ e := (e, Answers false);
  upsert_label _ _ e := e;
  remove_label _ e := e;
  wall_time e := e;
  monotonic_time e := e;
  sleep d e := (e + d, Answers ());
  event_is_set i e := bool_decide (Z.of_nat i * second ≤ e);
  wait_event i d e := let e' := Z.min (Z.max e (Z.of_nat i * second)) (e + d) in (e', Answers (bool_decide (Z.of_nat i * second ≤ e')));
}.
#[export] Instance clock_laws : ClockLaws Z ().
Proof.
  split; simpl; intros; try lia. case_bool_decide; [done|]. lia.
Qed.

Definition sample_args (reuse : option string) (signal : option nat) (timeout : Z) : StepArgs (E:=Z) := {|
  sa_provider := "kiro_cli"; sa_agent := "dev"; sa_prompt := "build it"; sa_session_name := None; sa_reuse_terminal_id := reuse;
  sa_teardown := true; sa_timeout := timeout; sa_ready_timeout := 10 * second; sa_working_directory := None;
  sa_caller_id := Some "boss"%string; sa_allowed_tools := None; sa_env_vars := None;
  sa_on_step_terminal_ready := Some (λ _ _ e, (e, Faults (OtherError (ExternalError "journal is locked"))));
  sa_cancel_signal := signal; sa_cancel_event := None; sa_engine := None; sa_model := None; sa_use_worktree := None;
  sa_task_label := Some "build"%string; sa_cell_request_class := "routing" |}.
Definition start_step : Step Z := {| as_env := 0; as_acts := []; as_cleanup := true; as_extracted := true |}.
Definition seconds_text (n : Z) : string := pretty (n / second).
Definition status_text (s : option TerminalStatus) : string := "?".
Local Notation run_sample reuse signal timeout fuel :=
  (run_agent_step seconds_text status_text (sample_args reuse signal timeout) fuel start_step).

(** A turn that is over; one that is stale until a second later; one that takes too long. *)
Lemma sample_returns : ∃ s, run_sample None None (20 * second) 30 =
  (s, Ok {| ar_terminal_id := "t1"; ar_last_message := "done"; ar_status := TS_COMPLETED |}).
Proof. eexists. by vm_compute. Qed.
Example sample_runs :
  (run_sample (Some "t9"%string) (Some 3%nat) (20 * second) 30).2 = Err (StepCancelledError (Some "t9"%string)) ∧
  (run_sample None None (2 * second) 30).2 = Err (StepExecutionError "step on terminal t1 did not complete within 2s" "timeout" (Some "t1"%string)) ∧
  (run_sample None None (20 * second) 4).2 = Err StillWaiting.
Proof. by vm_compute. Qed.
Example sample_acts :
  filter (λ a, match a with Notified _ _ => false | Saw (Some TS_PROCESSING) => false | _ => true end = true) (as_acts (run_sample None None (20 * second) 30).1) =
  [Created "t1"; Labelled "t1" "build"; Saw (Some TS_UNKNOWN); Saw (Some TS_UNKNOWN); Saw (Some TS_IDLE); Sent "t1" "build it" None; InputGen 1;
   Saw (Some TS_COMPLETED); StatusGen (Some 0); Saw (Some TS_COMPLETED); StatusGen (Some 1); Saw (Some TS_COMPLETED);
   Reading "t1"; ExitAsked "t1"; DeleteAsked "t1"; Unlabelled "t1"]%string.
Proof. by vm_compute. Qed.

Lemma terminals_are_accounted_for_witness : as_acts start_step = [] ∧
  ∃ s' res, run_sample None None (20 * second) 30 = (s', Ok res) ∧ DeleteAsked (ar_terminal_id res) ∈ as_acts s'.
Proof.
  split; [done|]. destruct sample_returns as [s' Hr]. eexists s', _. split; [exact Hr|].
  pose proof (terminals_are_accounted_for seconds_text status_text (sample_args None None (20 * second)) 30 start_step eq_refl) as H.
  rewrite Hr in H. by apply H.
Defined.
Lemma answers_are_of_the_turn_witness : as_acts start_step = [] ∧
  ∃ s' res, run_sample None None (20 * second) 30 = (s', Ok res) ∧
    ∃ pre mem g w final post, as_acts s' = pre ++ Sent "t1" "build it" mem :: InputGen g :: w ++ [Saw final; Reading "t1"] ++ post
      ∧ settled g w ∧ final ≠ Some TS_ERROR.
Proof.
  split; [done|]. destruct sample_returns as [s' Hr]. eexists s', _. split; [exact Hr|].
  pose proof (answers_are_of_the_turn seconds_text status_text (sample_args None None (20 * second)) 30 start_step eq_refl) as H.
  rewrite Hr in H. apply H.
Defined.
Lemma steps_end_witness : let args := sample_args None None (20 * second) in enough args 21 ∧ enough args 500 ∧
  (run_agent_step seconds_text status_text args 21 start_step).2 ≠ Err StillWaiting ∧
  run_agent_step seconds_text status_text args 21 start_step = run_agent_step seconds_text status_text args 500 start_step.
Proof.
  intros args. assert (enough args 21) as H1 by (unfold enough, args; simpl; unfold second, poll_interval; lia).
  assert (enough args 500) as H2 by (unfold enough, args; simpl; unfold second, poll_interval; lia).
  split; [exact H1|]. split; [exact H2|]. exact (steps_end seconds_text status_text args 21 500 start_step H1 H2).
Defined.

(** ** Findings *)

(** A step whose two cancel events disagree has made its terminal by the time it is
    refused, and leaves it. *)
Lemma two_events_leave_the_terminal : let args := {|
    sa_provider := "p"; sa_agent := "dev"; sa_prompt := "build it"; sa_session_name := None; sa_reuse_terminal_id := None;
    sa_teardown := true; sa_timeout := 10 * second; sa_ready_timeout := 10 * second; sa_working_directory := None;
    sa_caller_id := None; sa_allowed_tools := None; sa_env_vars := None; sa_on_step_terminal_ready := None;
    sa_cancel_signal := Some 50%nat; sa_cancel_event := Some 60%nat; sa_engine := None; sa_model := None; sa_use_worktree := None;
    sa_task_label := Some "build"%string; sa_cell_request_class := "routing" |} in
  let '(s, r) := run_agent_step seconds_text status_text args 30 start_step in
  r = Err (Fault (OtherError (TypeError "pass only one of cancel_signal/cancel_event"))) ∧ Created "t1" ∈ as_acts s ∧
  Labelled "t1" "build" ∈ as_acts s ∧ DeleteAsked "t1" ∉ as_acts s ∧ Unlabelled "t1" ∉ as_acts s.
Proof.
  vm_compute. split_and!; [done|by left|by right; left| |]; intros H; repeat (apply elem_of_cons in H as [H|H]; [done|]); by apply elem_of_nil in H.
Qed.
